(* ===== verification/_CoqProject ===== *)
-Q . S2P
Prelude.v
Redis.v
Text.v
Base64.v
Json.v
Float32.v
Sha256.v
Calendar.v
Budget.v
Breaker.v
BreakerFacts.v
BreakerStore.v
BreakerRegistry.v
Provider.v
Retry.v
Rational.v
Ring.v
Health.v
HealthFacts.v
Checker.v
Chain.v
Wire.v
Sse.v
Metrics.v
RateLimit.v
Auth.v
AuthFacts.v
ChainBudget.v
Books.v
Fallback.v
FallbackFacts.v
Gateway.v
Admission.v
Router.v
CacheKey.v
CacheStore.v
CacheStoreFacts.v
CacheLookup.v
CacheTune.v
Chaos.v
Stream.v
StreamFacts.v
Decode.v
Http.v
Adapters.v
AdapterFacts.v
AdapterStreams.v
AdapterErrors.v
ProviderRegistry.v
Duration.v
ConfigProviders.v
Reload.v
Quality.v
ConfigFiles.v
TeamStore.v
TeamStoreFacts.v
LogWriter.v
Retention.v
LogQuery.v
LogQueryFacts.v
Token.v
OAuth.v
IdentityStore.v
Sessions.v
SessionFacts.v
AuthHandlers.v
IdentityFacts.v
AuthHandlersFacts.v
AdminTeams.v
AdminTeamsFacts.v
AdminReports.v
AdminOps.v
Summary.v
Handler.v
HandlerFacts.v
HandlerResponse.v
HandlerRuns.v
ResponseWriter.v
Middleware.v
MiddlewareFacts.v
