(* ===== verification/Prelude.v ===== *)
(** * SwitchYard: a verified model of the gateway

    SwitchYard is an LLM gateway.  A chat completion passes an RPM bucket,
    optional complexity routing, the team's allowlists, the semantic cache, a
    TPM reservation and a budget reservation; a chain of candidate models is
    then built from the requested model, its tier, the providers' health and
    the allowlist, and walked: each candidate's circuit breaker is asked, its
    price re-checked against the budget, and the provider called under a retry
    policy, until one serves.  The answer is written plain or as a stream, kept
    in the cache, perhaps sampled for quality, and logged; reservations are
    settled with the real usage afterwards.  Redis holds the buckets, the spend
    counters, the shared breaker episodes, the last health statuses and the
    cache; Postgres holds the teams, the users and their sessions, the request
    log and the audit log; everything else is in memory.  Operators and tenants
    sign in with Google, administer teams and read the logs on a listener of its
    own.

    ** Files and the code they model (paths under src/internal/)

    Foundations:
    - [Prelude]: error values, 64-bit integers, durations, list and string
      lemmas, tactics.
    - [Redis]: the commands the scripts use, as a class with Redis's documented
      laws, the fate of a network round trip, and a finite-map instance.
    - [Text], [Base64], [Json], [Float32], [Sha256], [Calendar], [Rational]:
      what the source uses of Go's strings and UTF-8, encoding/base64,
      encoding/json, strconv and floating point, crypto/sha256 and UTC time;
      exact rationals.

    Limits and money:
    - [Budget]: module [Cost] is budget/cost.go, module [Tracker] is
      budget/tracker.go.
    - [ChainBudget], [Books]: the chain budget of proxy/budget.go with the
      deferred settlement of proxy/handler.go, and its ledger over months.
    - [RateLimit]: ratelimit/bucket.go.
    - [Admission]: proxy/ratelimit.go, and [reserveTokens] and [reserveBudget] of
      proxy/handler.go.

    Resilience:
    - [Breaker], [BreakerFacts], [BreakerStore], [BreakerRegistry]:
      resilience/breaker.go, breaker_store.go (the instance of the
      [BreakerStore] interface over Redis) and breaker_registry.go.
    - [Retry], [Chain]: resilience/retry.go and resilience/fallback.go.
    - [Ring], [Health], [HealthFacts]: health/passive.go and health/status.go.
    - [Checker]: health/checker.go and telemetry/supervise.go, in time.
    - [Provider]: provider/errors.go and the error values of the chain.
    - [Fallback], [FallbackFacts]: proxy/fallback.go ([runChain]) and the error
      responses of proxy/errors.go, over the interface [ChainWorld]; [Gateway]
      is its instance made of the real breaker registry and chain budget.
    - [Chaos]: proxy/chaos.go, admin/chaos.go and cmd/gateway/chaos.go.

    Providers:
    - [Http], [Adapters], [AdapterFacts], [AdapterStreams], [AdapterErrors]:
      provider/http.go and the four dialects (openai.go, anthropic.go, gemini.go,
      ollama.go), a module each.
    - [ProviderRegistry], [Reload]: provider/registry.go, and the swap of
      cmd/gateway/reload.go.

    Configuration:
    - [Duration]: time.ParseDuration and the conversion of prices.
    - [ConfigProviders], [ConfigFiles]: the five loaders of
      config/, from the structures the YAML library decodes.

    Access, administration and routing:
    - [Auth], [AuthFacts]: auth/team.go and auth/registry.go.
    - [TeamStore], [TeamStoreFacts]: teamstore/store.go and seed.go over the
      teams table of migrations/0008_teams.sql.
    - [Token], [OAuth]: identity/token.go, the sealed cookies of handlers.go and
      csrf.go, and oauth/google.go.
    - [IdentityStore], [Sessions]: identity/user.go, store.go and session.go over
      the tables of migrations/0009_identity.sql; the session transactions
      statement by statement.
    - [AuthHandlers]: identity/handlers.go, csrf.go, middleware.go and me.go;
      [SessionFacts], [IdentityFacts], [AuthHandlersFacts] hold the theorems of
      these files and a concrete sign-in.
    - [AdminTeams], [AdminTeamsFacts]: admin/gate.go, admin/teams.go and the
      audit trail they write through.
    - [AdminReports]: admin/requests.go, costs.go,
      reconciliation.go and audit.go, and logstore/audit.go.
    - [AdminOps]: admin/cache.go, providers.go, health.go, reload.go, system.go,
      attribution.go and quality.go, cmd/gateway/system.go, and the routes of
      admin/router.go that act on the whole gateway.
    - [Summary]: summary/ and admin/summary.go.
    - [Router]: router/classify.go, router/policy.go, proxy/route.go.

    Cache:
    - [CacheKey], [CacheStore], [CacheStoreFacts], [CacheLookup], [CacheTune]:
      cache/key.go, store.go, purge.go, embed.go, ttl.go, lookup.go, tune.go.

    The request:
    - [Wire], [Decode]: proxy/wire.go, provider/types.go, and [decode] of
      proxy/handler.go.
    - [Sse], [Stream], [StreamFacts]: provider/sse.go, and the writing half of
      proxy/handler.go, proxy/cache.go and proxy/errors.go.
    - [Metrics]: requestMetrics of proxy/middleware.go and [recordCost].
    - [Handler]: [ChatCompletions] and [streamChatCompletions], composed of all
      of the above; [HandlerFacts], [HandlerResponse] hold its theorems and
      [HandlerRuns] its concrete runs.
    - [ResponseWriter], [Middleware], [MiddlewareFacts]: the
      wrappers and the chain of proxy/middleware.go around a handler.

    After the response:
    - [LogWriter], [Retention]: logstore/writer.go and logstore/retention.go.
    - [LogQuery], [LogQueryFacts]: logstore/query.go, with its cursors.
    - [Quality]: quality/sample.go, judge.go, worker.go and proxy/quality.go.

    ** What the theorems show

    - Money ([Budget], [ChainBudget], [HandlerFacts]): a reservation is granted
      exactly when it fits the cap; over every interleaving of reservations,
      settlements, repeated commands and resets the Redis counter is the settled
      cost plus what is open and what lost or repeated commands left, and exceeds
      the cap only by what settlements, resets and lowered caps account for; a
      lost reply denies; a settlement stays in its own month; a fallback's top-ups settle to exactly
      the real cost; and a whole chat completion, on every path, moves its
      team's counter by exactly the cost it reports.
    - Rates ([RateLimit], [Admission]): over every interleaving, every network
      fate and every settlement, refunds and overages, what a bucket admits
      between any two points is at most one capacity plus the refill of the
      elapsed time plus what was given back; Retry-After suffices; while
      Redis answers nothing passes uncharged, provided the token ceiling fits
      in 64 bits.  Two theorems show that the proviso is needed
      ([max_tokens_overflow_skips_token_limit],
      [max_tokens_overflow_skips_budget]).
    - Breakers ([BreakerFacts], [BreakerStore], [BreakerRegistry]): the reachable
      states, the sliding window, the cooldown, the single probe and recovery;
      the same across a fleet through the shared store; what a replica does
      when the store is unreachable; operator resets.
    - Chain ([Chain], [Retry], [Fallback], [Gateway]): authorization before
      availability, order by health, the attempt budget, one verdict per called
      candidate, termination without panic.  [refused_candidate_leaks_probe]
      and [open_breaker_starves_its_model] show two defects of the composition.
    - Health ([HealthFacts], [Checker]): windows report exactly the recent past,
      recovery needs a full streak, pings alone take a provider down, a status
      survives a restart; checks keep their schedule, a panicking watcher is
      started again, and a provider that stops answering is down in bounded
      time.
    - Providers ([AdapterStreams], [AdapterErrors]): a stream adds up to the plain
      answer of the same provider; every upstream failure is classified as its
      status and transport say; a gateway behind a gateway relays what it was
      sent.
    - Configuration ([ConfigFiles], [Reload]): a file that loads gives registries
      that find everything in it, and a reload leaves the pieces that are swapped
      separately consistent with one another.
    - Teams ([TeamStoreFacts]): with one replica and no lost answers the snapshot
      is the table; with any replicas, interleavings and losses a key
      authenticates only for a holder it had since the snapshot's query, so a
      revocation is everywhere by the next refresh.
    - Tenants ([AdminTeamsFacts], [AdminReports], [AdminOps], [Summary]): a user
      who is not an operator sees and changes the teams of one organisation only,
      reads only its rows, costs, audit entries, savings and quality scores,
      changes nothing of a team the audit log has not recorded first, operates no
      part of the gateway, purges no cache entry but its teams' own, and is shown
      an overview built for its own teams, the cached one included.
    - Insights ([AdminOps], [Summary]): the cache's reported saving is what its
      hits would have cost to within a micro-dollar each; every breaker is shown
      once and a reset closes all of a provider's; a summary holds finite numbers
      only and is not called complete unless every query was answered.
    - Sign-in ([SessionFacts], [IdentityFacts], [AuthHandlersFacts]): a refresh
      token is exchanged once and its replay ends the sessions it finds, under
      every interleaving; a session is set only for a proof; and whoever the
      admin listener lets in is a user of the table, alone in the organisation
      the token names unless it is the default one, and a superadmin only by an
      audited grant to an address that was the bootstrap address at some time.
    - Access ([AuthFacts], [Router], [HandlerFacts], [Chaos]): a key resolves to
      exactly its current holder; taking it away works at once; routing never
      overrides a named model and never leaves the allowlist; a request calls
      only providers and models its team may use; fault injection cannot be
      turned on outside development.
    - Cache ([CacheKey], [CacheStoreFacts], [CacheLookup]): different scopes and
      different requests have different keys unless SHA-256 collides; a lookup
      returns only what the same scope stored, within the threshold; a stored
      entry is read back; an index stays within its bound; a purge leaves
      nothing.
    - Responses ([Decode], [StreamFacts], [HandlerResponse]): a request body
      means what the client marshalled; a provider's stream reaches the client
      chunk by chunk; a replayed hit is byte for byte the stream the same answer
      would have had in the replay's pieces; headers precede the status and the
      status the body on every path.
    - Middleware ([MiddlewareFacts]): an exchange is counted, logged and recorded
      once with the status the client saw; a panic never leaves the chain, but
      for http.ErrAbortHandler, which is raised again for net/http.
    - After the response ([LogWriter], [Retention], [LogQueryFacts], [Quality]):
      every offered row or sample is stored, failed, dropped, lost or waiting,
      once, on a table that other replicas and retention change too; the sweep moves totals from rows to days without changing them or
      the reports made of them; following cursors reads each row once; a verdict
      is within the scale.

    Runs that show behaviour the documentation does not promise are theorems
    too: [hanging_up_is_free], [dated_model_is_free], [cache_crosses_allowlist],
    [reused_request_id_hides_request], [prose_ten_scores_one],
    [purge_misses_long_lived_entries], [late_hit_leaves_corpse],
    [retry_after_wraps], [tiny_budget_loads], [stale_replica_reverts_limits],
    [refresh_in_flight_revives_key], [patch_failure_blames_client],
    [create_reveals_foreign_team], [midday_series_moves],
    [exchange_outlives_replay], [long_agent_breaks_sign_in],
    [failed_sign_in_signs_in], [nan_passes_the_checks],
    [unvalidated_team_collides], [seeded_id_is_a_pattern],
    [status_change_between_passes].

    ** Conventions and bounds

    A Go function with an error result is a [result] or an [option]; a method
    that mutates its receiver returns the new value.  [int], [int64] and
    [time.Duration] are [Z], with [wrap64] where the source's arithmetic can
    overflow; instants are nanoseconds, Redis's clock is milliseconds (or
    microseconds, for TIME).  A method under a mutex takes one clock reading, and
    a breaker's method with round trips uses one reading for all of them.
    A Redis script or command is atomic; concurrent requests interleave whole
    commands, as steps of a relation.  Each round trip has a [net_fate]: the
    reply arrives, the command never ran, it ran and the reply was lost, or the
    client, which retries once, had it run twice, with the second reply or
    without one.  The integers of the scripts are exact, as Lua's doubles are up
    to 2^53.  What a handler reads from the reloadable configuration and from the
    health monitor is a function of the time at which it reads; the two passes of
    [BuildChain] over the monitor's statuses share one reading.
    A Postgres statement is atomic too, over tables that are finite maps or lists
    of rows with the migrations' constraints, and has a [db_fate] of the same
    three kinds; a transaction of several statements is atomic in [IdentityStore]
    and taken apart in [Sessions], where interleaving matters.  Signatures are
    computed; that they cannot be forged is the hypothesis [unforged] of one
    theorem: a cookie's signature is one the gateway has sent.
    float32 vectors and the float64 values that are parsed or compared exactly
    are IEEE numbers ([Float32]); the remaining float64 values are exact
    rationals (two places differ observably by rounding: the smoothed latency
    baseline, within a nanosecond, and the numbers the bucket scripts print,
    which [LuaNumber] bounds).  A handler's output is the list of operations on
    its response writer.  Loops are structural over the chain, the samples, the
    messages or the number of attempts left; where a loop consumes text or a
    cursor the fuel is the length of what is left to read, which one round
    always shortens (the JSON parser, the SSE reader, [split_runes], SCAN).

    ** Not modelled

    The exporters of telemetry/, which only declare metrics and spans to two
    client libraries; the migrations' runner; process wiring, flags and shutdown
    (cmd/, scripts/).  The YAML library, the collation, the AVG and the clocks of
    the database, how the driver writes a float, Unicode's case and print tables,
    Prometheus, the network and the entropy source are parameters.  The times at
    which views were generated and the wording of messages are left out. *)

From stdpp Require Export base list gmap strings.
From Stdlib Require Export ZArith Lia.
From stdpp Require Import options.

#[export] Set Default Goal Selector "1".

Open Scope Z_scope.

(** ** Go's fallible functions

    A Go function with results [(A, error)] is a [result E A]: [Err] is the
    non-nil error, [Ok] the value of the path that returns a nil error. *)

Inductive result (E A : Type) : Type :=
| Ok (a : A)
| Err (e : E).
Arguments Ok {E A} a.
Arguments Err {E A} e.

Definition is_ok {E A} (r : result E A) : bool :=
  match r with Ok _ => true | Err _ => false end.

#[export] Instance result_ret {E} : MRet (result E) := λ A a, Ok a.
#[export] Instance result_bind {E} : MBind (result E) :=
  λ A B f r, match r with Ok a => f a | Err e => Err e end.

(** What becomes of a statement sent to Postgres: it runs and answers, it never
    runs, or it runs and the answer is lost. *)
Inductive db_fate := DbAnswers | DbUnreachable | DbReplyLost.

(** ** Machine-width integers

    Go's [int], [int64] and [time.Duration] are 64-bit two's complement: an
    operation that leaves the range wraps. *)

Definition int64_min : Z := - 2 ^ 63.
Definition int64_max : Z := 2 ^ 63 - 1.
Definition in_int64 (z : Z) : Prop := int64_min ≤ z ≤ int64_max.

Definition wrap64 (z : Z) : Z := (z + 2 ^ 63) mod 2 ^ 64 - 2 ^ 63.

(** [x << n] on an int64, for an unsigned shift count. *)
Definition shl64 (x n : Z) : Z := wrap64 (Z.shiftl x n).

(** A Go [time.Duration] and an instant are both counted in nanoseconds. *)
Definition nanosecond : Z := 1.
Definition microsecond : Z := 1000 * nanosecond.
Definition millisecond : Z := 1000 * microsecond.
Definition second : Z := 1000 * millisecond.
Definition minute : Z := 60 * second.
Definition hour : Z := 60 * minute.

(** The zero [time.Time], as an instant. *)
Definition zero_time : Z := -62135596800 * second.
Definition time_IsZero (t : Z) : bool := t =? zero_time.

Lemma wrap64_range z : in_int64 (wrap64 z).
Proof.
  unfold in_int64, int64_min, int64_max, wrap64.
  pose proof (Z.mod_pos_bound (z + 2 ^ 63) (2 ^ 64)). lia.
Qed.

Lemma wrap64_id z : in_int64 z → wrap64 z = z.
Proof.
  unfold in_int64, int64_min, int64_max, wrap64. intros Hz.
  rewrite Z.mod_small; lia.
Qed.

Lemma shl64_mul x n : 0 ≤ n → in_int64 (x * 2 ^ n) → shl64 x n = x * 2 ^ n.
Proof.
  intros Hn Hr. unfold shl64. rewrite Z.shiftl_mul_pow2 by done.
  by apply wrap64_id.
Qed.

(** ** Lists *)

Definition last_opt {A} (l : list A) : option A := last l.

(** [filter] with a boolean test, as the loops of the source write it. *)
Fixpoint keep {A} (f : A → bool) (l : list A) : list A :=
  match l with
  | [] => []
  | x :: l' => if f x then x :: keep f l' else keep f l'
  end.

(** The number of elements a loop with a counter counts. *)
Fixpoint countb {A} (f : A → bool) (l : list A) : Z :=
  match l with
  | [] => 0
  | x :: l' => (if f x then 1 else 0) + countb f l'
  end.

(** The first element a [for ... range] loop with an early return returns. *)
Fixpoint find_first {A} (f : A → bool) (l : list A) : option A :=
  match l with
  | [] => None
  | x :: l' => if f x then Some x else find_first f l'
  end.

Lemma elem_of_keep {A} (f : A → bool) l x : x ∈ keep f l ↔ x ∈ l ∧ f x = true.
Proof.
  induction l as [|y l IH]; simpl; [set_solver|].
  destruct (f y) eqn:Hf; rewrite ?elem_of_cons, IH; naive_solver congruence.
Qed.

Lemma keep_sublist {A} (f : A → bool) l : keep f l `sublist_of` l.
Proof.
  induction l as [|y l IH]; simpl; [done|].
  destruct (f y); by constructor.
Qed.

Lemma keep_nil_iff {A} (f : A → bool) l :
  keep f l = [] ↔ ∀ x, x ∈ l → f x = false.
Proof.
  induction l as [|y l IH]; simpl; [set_solver|].
  destruct (f y) eqn:Hf; split.
  - done.
  - intros H. specialize (H y). rewrite Hf in H. set_solver.
  - intros H x [->|Hx]%elem_of_cons; [done|]. by apply IH.
  - intros H. apply IH. set_solver.
Qed.

Lemma keep_length {A} (f : A → bool) l : (length (keep f l) ≤ length l)%nat.
Proof. apply sublist_length, keep_sublist. Qed.

Lemma keep_all {A} (f : A → bool) l : (∀ x, x ∈ l → f x = true) → keep f l = l.
Proof.
  induction l as [|y l IH]; simpl; intros H; [done|].
  rewrite (H y) by set_solver. f_equal. apply IH. set_solver.
Qed.

Lemma keep_app {A} (f : A → bool) l l' : keep f (l ++ l') = keep f l ++ keep f l'.
Proof. induction l as [|y l IH]; simpl; [done|]. destruct (f y); by rewrite IH. Qed.

Lemma keep_none {A} (f : A → bool) l : (∀ x, x ∈ l → f x = false) → keep f l = [].
Proof. apply keep_nil_iff. Qed.

Lemma keep_keep {A} (f h : A → bool) l :
  (∀ x, x ∈ l → f x = true → h x = true) → keep f (keep h l) = keep f l.
Proof.
  induction l as [|x l IH]; intros Himp; simpl; [done|].
  rewrite <- IH by (intros y Hy; apply Himp; set_solver).
  destruct (h x) eqn:Hh; simpl; [done|]. destruct (f x) eqn:Hf; [|done].
  rewrite Himp in Hh; [done|set_solver|done].
Qed.

Lemma keep_Permutation {A} (f : A → bool) l : keep f l ++ keep (λ x, negb (f x)) l ≡ₚ l.
Proof.
  induction l as [|x l IH]; simpl; [done|]. destruct (f x); simpl; [by rewrite IH|].
  rewrite <- Permutation_middle. by rewrite IH.
Qed.

Lemma keep_perm {A} (f : A → bool) l l' : l ≡ₚ l' → keep f l ≡ₚ keep f l'.
Proof.
  induction 1; simpl; [done| | |by etransitivity]; repeat case_match; try done.
  - by constructor.
  - constructor.
Qed.

Lemma keep_filter {A} (P : A → Prop) `{!∀ x, Decision (P x)} l :
  keep (λ x, bool_decide (P x)) l = filter P l.
Proof.
  induction l as [|y l IH]; simpl; [done|].
  case_bool_decide; [rewrite filter_cons_True|rewrite filter_cons_False]; by rewrite ?IH.
Qed.

Lemma countb_nonneg {A} (f : A → bool) l : 0 ≤ countb f l.
Proof. induction l as [|y l IH]; simpl; [|destruct (f y)]; lia. Qed.

Lemma countb_app {A} (f : A → bool) l l' : countb f (l ++ l') = countb f l + countb f l'.
Proof. induction l as [|y l IH]; simpl; lia. Qed.

Lemma countb_le_length {A} (f : A → bool) l : countb f l ≤ Z.of_nat (length l).
Proof. induction l as [|y l IH]; simpl; [|destruct (f y)]; lia. Qed.

Lemma countb_keep {A} (f : A → bool) l : countb f l = Z.of_nat (length (keep f l)).
Proof. induction l as [|y l IH]; simpl; [|destruct (f y); simpl]; lia. Qed.

Lemma find_first_Some {A} (f : A → bool) l x :
  find_first f l = Some x → x ∈ l ∧ f x = true.
Proof.
  induction l as [|y l IH]; simpl; [done|].
  destruct (f y) eqn:Hf; intros H; simplify_eq; set_solver.
Qed.

Lemma find_first_None {A} (f : A → bool) l :
  find_first f l = None → ∀ x, x ∈ l → f x = false.
Proof.
  induction l as [|y l IH]; simpl; [set_solver|].
  destruct (f y) eqn:Hf; intros H; simplify_eq; set_solver.
Qed.

(** ** Strings *)

Lemma string_app_length (s t : string) :
  String.length (s ++ t) = (String.length s + String.length t)%nat.
Proof. induction s as [|a s IH]; simpl; [done|by rewrite IH]. Qed.

Lemma string_app_inv_suffix (s1 s2 t1 t2 : string) :
  String.length t1 = String.length t2 → (s1 ++ t1 = s2 ++ t2)%string → s1 = s2 ∧ t1 = t2.
Proof.
  intros Hlen. revert s2. induction s1 as [|a s1 IH]; intros [|b s2] Heq.
  - done.
  - apply (f_equal String.length) in Heq. rewrite !string_app_length in Heq. simpl in Heq. lia.
  - apply (f_equal String.length) in Heq. rewrite !string_app_length in Heq. simpl in Heq. lia.
  - injection Heq as -> Heq. by destruct (IH s2 Heq) as [-> ->].
Qed.

Lemma string_app_inv_prefix (s t1 t2 : string) : (s ++ t1 = s ++ t2)%string → t1 = t2.
Proof. induction s as [|a s IH]; intros H; [done|]. injection H as H. by apply IH. Qed.

(** ** Automation *)

(** Turn the boolean tests of the source into propositions. *)
Ltac bool_to_prop :=
  repeat match goal with
  | H : (_ && _) = true |- _ => apply andb_true_iff in H; destruct H
  | H : (_ || _) = false |- _ => apply orb_false_iff in H; destruct H
  | H : negb _ = true |- _ => apply negb_true_iff in H
  | H : negb _ = false |- _ => apply negb_false_iff in H
  | H : (_ <? _) = true |- _ => apply Z.ltb_lt in H
  | H : (_ <? _) = false |- _ => apply Z.ltb_ge in H
  | H : (_ <=? _) = true |- _ => apply Z.leb_le in H
  | H : (_ <=? _) = false |- _ => apply Z.leb_gt in H
  | H : (_ =? _) = true |- _ => apply Z.eqb_eq in H
  | H : (_ =? _) = false |- _ => apply Z.eqb_neq in H
  end.

(** Split on the tests of an [if] or [match] until none is left. *)
Ltac split_ifs :=
  repeat (case_match; simplify_eq; simpl in *; bool_to_prop).

(** Evaluate a closed arithmetic or boolean goal. *)
Ltac closed :=
  match goal with
  | |- _ ∧ _ => split; closed
  | |- ¬ _ => vm_compute; discriminate
  | |- (_ ≤ _) => vm_compute; discriminate
  | |- (_ < _) => vm_compute; reflexivity
  | |- _ = _ => vm_compute; reflexivity
  end.

Create HintDb switchyard.
#[export] Hint Resolve wrap64_range keep_sublist countb_nonneg : switchyard.
