(* ===== verification/Redis.v ===== *)
(** * Redis as the gateway uses it

    Redis is a service outside the repository.  It appears here as the
    interface [Redis]: the single-key commands the gateway's scripts issue
    ([GET]/[HMGET], [SET]/[HSET]/[INCRBY] writes, [PEXPIRE], [DEL]) with the
    documented laws the gateway relies on.  A key holds a value of type [V] (an
    integer counter, or the record of a hash) and may carry a deadline; reads
    are relative to Redis's own clock, in milliseconds.  Every component's
    definitions and theorems are stated against the interface; [RedisMap]
    discharges it and lets witnesses compute. *)

From S2P Require Import Prelude.

Class Redis (V db : Type) := {
  rget : Z → string → db → option V;
  rput : Z → string → V → db → db;
  rpexpire : Z → string → Z → db → db;
  rdel : string → db → db;
  rget_put_fresh t t' k v d :
    t ≤ t' → rget t k d = None → rget t' k (rput t k v d) = Some v;
  rget_put_live t t' k v d :
    t ≤ t' → is_Some (rget t k d) →
    rget t' k (rput t k v d) = match rget t' k d with Some _ => Some v | None => None end;
  rget_put_ne t t' k k' v d : k ≠ k' → rget t' k' (rput t k v d) = rget t' k' d;
  rget_pexpire t t' k ms d :
    t ≤ t' → rget t' k (rpexpire t k ms d) =
             (if t' <? t + ms then rget t k d else None);
  rget_pexpire_ne t t' k k' ms d :
    k ≠ k' → rget t' k' (rpexpire t k ms d) = rget t' k' d;
  rget_del t k d : rget t k (rdel k d) = None;
  rget_del_ne t k k' d : k ≠ k' → rget t k' (rdel k d) = rget t k' d
}.

(** A Lua reply: an integer, a bulk string, or a number the script printed
    with [tostring] and the client parses back. *)
Inductive rvalue :=
| RInt (n : Z)
| RBulk (s : string).

(** What becomes of one round trip.  The client is configured with one retry
    ([MaxRetries: 1] in cmd/gateway/main.go), so a command whose reply is lost
    may be sent again: the reply arrives ([Replied]), the command never reaches
    Redis ([NotSent]), it runs and the reply is lost for good ([ReplyLost]), it
    runs, the reply is lost and the second run's reply arrives ([Retried]), or
    both replies are lost ([RetryLost]).  The client sees an error when no reply
    arrives.  The two runs are at one reading of Redis's clock; the histories of
    the budget and of the token buckets also let any time and any other command
    pass between them. *)
Inductive net_fate := Replied | NotSent | ReplyLost | Retried | RetryLost.

#[export] Instance net_fate_eq_dec : EqDecision net_fate.
Proof. solve_decision. Defined.

(** The command runs at most once. *)
Definition sent_once (f : net_fate) : Prop := f ≠ Retried ∧ f ≠ RetryLost.

(** The client is not left wondering: the command ran once and answered, or
    it never ran. *)
Definition clear_cut (f : net_fate) : Prop := f = Replied ∨ f = NotSent.

(** Run a command or script under a fate: the reply the client sees, if any,
    and the database afterwards.  [None] from the command itself is an error
    reply, which leaves the database as the command left it. *)
Definition round_trip {A db} (f : net_fate) (cmd : db → option A * db) (d : db)
    : option A * db :=
  match f with
  | Replied => cmd d
  | NotSent => (None, d)
  | ReplyLost => (None, (cmd d).2)
  | Retried => cmd (cmd d).2
  | RetryLost => (None, (cmd (cmd d).2).2)
  end.

(** A reply arrives. *)
Definition answered (f : net_fate) : bool :=
  match f with Replied | Retried => true | NotSent | ReplyLost | RetryLost => false end.

(** How often the command runs, and what that does to the database. *)
Definition runs (f : net_fate) : nat :=
  match f with NotSent => 0 | Replied | ReplyLost => 1 | Retried | RetryLost => 2 end.

Lemma round_trip_db {A db} f (cmd : db → option A * db) d :
  (round_trip f cmd d).2 = Nat.iter (runs f) (λ d, (cmd d).2) d.
Proof. by destruct f. Qed.

Section commands.
Context {V db} `{R : !Redis V db}.

Definition rexists (t : Z) (k : string) (d : db) : bool :=
  match rget t k d with Some _ => true | None => false end.

(** SET key v NX PX ms: writes only an absent key. *)
Definition rsetnx (t : Z) (k : string) (v : V) (ms : Z) (d : db) : bool * db :=
  match rget t k d with
  | Some _ => (false, d)
  | None => (true, rpexpire t k ms (rput t k v d))
  end.

(** SET key v: replaces the value and drops any deadline. *)
Definition rset (t : Z) (k : string) (v : V) (d : db) : db := rput t k v (rdel k d).

Lemma rget_set_eq t t' k v d : t ≤ t' → rget t' k (rset t k v d) = Some v.
Proof. intros Ht. apply rget_put_fresh; [done|apply rget_del]. Qed.

Lemma rget_set_ne t t' k k' v d : k ≠ k' → rget t' k' (rset t k v d) = rget t' k' d.
Proof. intros Hne. unfold rset. by rewrite rget_put_ne, rget_del_ne. Qed.

(** [k] holds [v] at every instant of [t, T). *)
Definition holds_until (t T : Z) (k : string) (v : V) (d : db) : Prop :=
  ∀ t', t ≤ t' < T → rget t' k d = Some v.

Lemma rget_put_eq t k v d : rget t k (rput t k v d) = Some v.
Proof.
  destruct (rget t k d) eqn:Hk.
  - rewrite rget_put_live; [by rewrite Hk|lia|by rewrite Hk].
  - by apply rget_put_fresh.
Qed.

Lemma holds_until_le t t1 T k v d :
  t ≤ t1 → holds_until t T k v d → holds_until t1 T k v d.
Proof. intros ? H t' ?. apply H. lia. Qed.

Lemma holds_until_put t T k v v' d :
  t < T → holds_until t T k v d → holds_until t T k v' (rput t k v' d).
Proof.
  intros HT H t' Ht'. rewrite rget_put_live; [|lia|].
  - by rewrite H by lia.
  - rewrite H by lia. eauto.
Qed.

Lemma holds_until_put_ne t t1 T k k' v v' d :
  k ≠ k' → holds_until t1 T k' v d → holds_until t1 T k' v (rput t k v' d).
Proof. intros Hne H t' Ht'. rewrite rget_put_ne by done. by apply H. Qed.

Lemma holds_until_create t k v ms d :
  holds_until t (t + ms) k v (rpexpire t k ms (rput t k v d)).
Proof.
  intros t' Ht'. rewrite rget_pexpire by lia.
  destruct (Z.ltb_spec t' (t + ms)); [|lia]. apply rget_put_eq.
Qed.
End commands.

(** ** Invariants of the whole keyspace

    [P k v] holds of every key readable at [t] or later.  Each write preserves
    such an invariant when it writes values that satisfy it. *)
Section keyspace.
Context {V db} `{R : !Redis V db} (P : string → V → Prop).

Definition kv_inv (t : Z) (d : db) : Prop :=
  ∀ t' k v, t ≤ t' → rget t' k d = Some v → P k v.

Lemma rget_put_Some t t' k v k' w d :
  t ≤ t' → rget t' k' (rput t k v d) = Some w →
  (k' = k ∧ w = v) ∨ (k' ≠ k ∧ rget t' k' d = Some w).
Proof.
  intros Ht H. destruct (decide (k' = k)) as [->|Hne].
  - left. split; [done|]. destruct (rget t k d) as [v0|] eqn:Hk.
    + rewrite rget_put_live in H; [|done|by rewrite Hk]. by case_match; simplify_eq.
    + rewrite rget_put_fresh in H by done. by simplify_eq.
  - right. split; [done|]. by rewrite rget_put_ne in H.
Qed.

Lemma kv_inv_mono t t' d : t ≤ t' → kv_inv t d → kv_inv t' d.
Proof. intros Ht H t1 k v H1. apply H. lia. Qed.

Lemma kv_inv_put t k v d : P k v → kv_inv t d → kv_inv t (rput t k v d).
Proof.
  intros Hv H t' k' w Ht Hg. destruct (rget_put_Some _ _ _ _ _ _ _ Ht Hg) as [[-> ->]|[_ Hg']];
    [done|by eapply H].
Qed.

Lemma kv_inv_pexpire t k ms d : kv_inv t d → kv_inv t (rpexpire t k ms d).
Proof.
  intros H t' k' w Ht Hg. destruct (decide (k = k')) as [->|Hne].
  - rewrite rget_pexpire in Hg by done. destruct (t' <? t + ms); [|done]. eapply H; [|exact Hg]. lia.
  - rewrite rget_pexpire_ne in Hg by done. by eapply H.
Qed.

Lemma kv_inv_del t k d : kv_inv t d → kv_inv t (rdel k d).
Proof.
  intros H t' k' w Ht Hg. destruct (decide (k = k')) as [->|Hne].
  - by rewrite rget_del in Hg.
  - rewrite rget_del_ne in Hg by done. by eapply H.
Qed.
End keyspace.

(** ** INCRBY on an integer key

    A missing key counts as zero, the deadline is kept, and a total outside
    the signed 64-bit range is an error that changes nothing. *)
Definition rincrby {db} `{!Redis Z db} (t : Z) (k : string) (n : Z) (d : db)
    : option Z * db :=
  let total := default 0 (rget t k d) + n in
  if (int64_min <=? total) && (total <=? int64_max)
  then (Some total, rput t k total d)
  else (None, d).

Lemma rincrby_ok {db} `{!Redis Z db} t k n (d : db) :
  in_int64 (default 0 (rget t k d) + n) →
  rincrby t k n d =
    (Some (default 0 (rget t k d) + n), rput t k (default 0 (rget t k d) + n) d).
Proof.
  intros [Hlo Hhi]. unfold rincrby.
  apply Z.leb_le in Hlo. apply Z.leb_le in Hhi. by rewrite Hlo, Hhi.
Qed.

(** ** A concrete Redis: a finite map with deadlines *)
Module RedisMap.

Definition db (V : Type) : Type := gmap string (V * option Z).

Definition live (t : Z) (dl : option Z) : bool :=
  match dl with Some T => t <? T | None => true end.

Definition get {V} (t : Z) (k : string) (d : db V) : option V :=
  match (d : gmap string (V * option Z)) !! k with
  | Some (v, dl) => if live t dl then Some v else None
  | None => None
  end.

Definition put {V} (t : Z) (k : string) (v : V) (d : db V) : db V :=
  let dl := match (d : gmap string (V * option Z)) !! k with
            | Some (_, dl) => if live t dl then dl else None
            | None => None
            end in
  <[k := (v, dl)]> (d : gmap string (V * option Z)).

Definition pexpire {V} (t : Z) (k : string) (ms : Z) (d : db V) : db V :=
  match get t k d with
  | Some v => <[k := (v, Some (t + ms))]> (d : gmap string (V * option Z))
  | None => delete k (d : gmap string (V * option Z))
  end.

Definition del {V} (k : string) (d : db V) : db V :=
  delete k (d : gmap string (V * option Z)).

#[global] Program Instance redis_map V : Redis V (db V) := {|
  rget := get; rput := put; rpexpire := pexpire; rdel := del
|}.
Next Obligation.
  intros V t t' k v d Ht. unfold get, put, db in *. rewrite lookup_insert_eq.
  destruct (d !! k) as [[w dl]|] eqn:Hk; [|done].
  by destruct (live t dl) eqn:Hl; intros; simplify_eq.
Qed.
Next Obligation.
  intros V t t' k v d Ht [w Hw]. unfold get, put, db in *.
  rewrite lookup_insert_eq. destruct (d !! k) as [[w' dl]|] eqn:Hk; [|done].
  destruct (live t dl) eqn:Hl; [|done]. by destruct (live t' dl).
Qed.
Next Obligation.
  intros V t t' k k' v d Hne. unfold get, put, db in *.
  by rewrite lookup_insert_ne.
Qed.
Next Obligation.
  intros V t t' k ms d Ht. unfold pexpire, db in *.
  destruct (get t k d) as [w|] eqn:Hg; unfold get, db.
  - rewrite lookup_insert_eq. simpl. done.
  - rewrite lookup_delete_eq. by destruct (t' <? t + ms).
Qed.
Next Obligation.
  intros V t t' k k' ms d Hne. unfold pexpire, db in *.
  destruct (get t k d); unfold get, db.
  - by rewrite lookup_insert_ne.
  - by rewrite lookup_delete_ne.
Qed.
Next Obligation. intros. unfold get, del, db. by rewrite lookup_delete_eq. Qed.
Next Obligation. intros. unfold get, del, db. by rewrite lookup_delete_ne. Qed.

End RedisMap.
