(* ===== verification/Text.v ===== *)
(** * Go's strings: bytes, UTF-8, decimal and hexadecimal

    A Go string is a sequence of bytes, here a [string] of [ascii].  Ranging
    over one, or converting it to [[]rune], decodes UTF-8 with the language's
    rules: an invalid byte is one U+FFFD.  [strings.Fields] and [strings.Join],
    [strconv]'s decimal formatting and parsing, [encoding/binary]'s fixed-width
    integers and [encoding/hex] are the parts of the standard library the cache
    and the proxy use. *)

From Stdlib Require Import Ascii.
From S2P Require Import Prelude.

(** ** Bytes *)

Definition byte (c : ascii) : Z := Z.of_N (Ascii.N_of_ascii c).
Definition chr (z : Z) : ascii := Ascii.ascii_of_N (Z.to_N z).

Lemma byte_range c : 0 ≤ byte c < 256.
Proof. unfold byte. pose proof (Ascii.N_ascii_bounded c). lia. Qed.

Lemma chr_byte c : chr (byte c) = c.
Proof. unfold chr, byte. rewrite N2Z.id. apply Ascii.ascii_N_embedding. Qed.

Lemma byte_chr z : 0 ≤ z < 256 → byte (chr z) = z.
Proof. intros Hz. unfold chr, byte. rewrite Ascii.N_ascii_embedding; lia. Qed.

Lemma chr_inj z z' : 0 ≤ z < 256 → 0 ≤ z' < 256 → chr z = chr z' → z = z'.
Proof. intros Hz Hz' H. apply (f_equal byte) in H. by rewrite !byte_chr in H. Qed.

Lemma string_app_assoc (s1 s2 s3 : string) : ((s1 ++ s2) ++ s3 = s1 ++ s2 ++ s3)%string.
Proof. induction s1 as [|c s1 IH]; [done|]. exact (f_equal (String c) IH). Qed.

Lemma string_app_nil_r (s : string) : (s ++ "")%string = s.
Proof. induction s as [|c s IH]; [done|]. exact (f_equal (String c) IH). Qed.

Lemma string_app_inv_length (s1 s2 t1 t2 : string) :
  String.length s1 = String.length s2 → (s1 ++ t1 = s2 ++ t2)%string → s1 = s2 ∧ t1 = t2.
Proof.
  revert s2. induction s1 as [|a s1 IH]; intros [|b s2] Hl H; simpl in *; try done.
  injection Hl as Hl. injection H as -> H. by destruct (IH _ Hl H) as [-> ->].
Qed.

(** [concat] of the parts of a builder or a join. *)
Definition cat (l : list string) : string := foldr String.append ""%string l.

Lemma cat_app l l' : cat (l ++ l') = (cat l ++ cat l')%string.
Proof. induction l as [|s l IH]; simpl; [done|]. by rewrite IH, string_app_assoc. Qed.

(** ** UTF-8 *)

Definition RuneError : Z := 65533.

Definition cont (c : ascii) (lo hi : Z) : bool := (lo <=? byte c) && (byte c <=? hi).

(** The bounds on the second byte that a leading byte of three or four
    imposes, and [None] when it cannot lead a sequence of that length. *)
Definition second3 (a : Z) : option (Z * Z) :=
  if a =? 224 then Some (160, 191)
  else if a =? 237 then Some (128, 159)
  else if (225 <=? a) && (a <=? 239) then Some (128, 191) else None.
Definition second4 (a : Z) : option (Z * Z) :=
  if a =? 240 then Some (144, 191)
  else if a =? 244 then Some (128, 143)
  else if (241 <=? a) && (a <=? 243) then Some (128, 191) else None.

Definition in_bounds (c : ascii) (b : option (Z * Z)) : bool :=
  match b with Some (lo, hi) => cont c lo hi | None => false end.

(** Each rune of a string with the bytes it was decoded from. *)
Fixpoint units (s : string) : list (Z * string) :=
  match s with
  | EmptyString => []
  | String a s1 =>
      let bad := (RuneError, String a EmptyString) in
      if byte a <? 128 then (byte a, String a EmptyString) :: units s1
      else match s1 with
      | EmptyString => [bad]
      | String b s2 =>
          if (194 <=? byte a) && (byte a <=? 223) && cont b 128 191
          then ((byte a - 192) * 64 + (byte b - 128), String a (String b EmptyString)) :: units s2
          else match s2 with
          | EmptyString => bad :: units s1
          | String c s3 =>
              if in_bounds b (second3 (byte a)) && cont c 128 191
              then ((byte a - 224) * 4096 + (byte b - 128) * 64 + (byte c - 128),
                    String a (String b (String c EmptyString))) :: units s3
              else match s3 with
              | EmptyString => bad :: units s1
              | String d s4 =>
                  if in_bounds b (second4 (byte a)) && cont c 128 191 && cont d 128 191
                  then ((byte a - 240) * 262144 + (byte b - 128) * 4096 + (byte c - 128) * 64
                        + (byte d - 128),
                        String a (String b (String c (String d EmptyString)))) :: units s4
                  else bad :: units s1
              end
          end
      end
  end.

(** [[]rune(s)] *)
Definition runes (s : string) : list Z := map fst (units s).

(** [string(r)]: a value that is no code point is encoded as U+FFFD. *)
Definition valid_rune (r : Z) : bool :=
  ((0 <=? r) && (r <? 55296)) || ((57344 <=? r) && (r <? 1114112)).

Definition bytes_of (l : list Z) : string := foldr (λ z s, String (chr z) s) EmptyString l.

Definition encode_valid (r : Z) : string :=
  bytes_of
    (if r <? 128 then [r]
     else if r <? 2048 then [192 + r / 64; 128 + r mod 64]
     else if r <? 65536 then [224 + r / 4096; 128 + r / 64 mod 64; 128 + r mod 64]
     else [240 + r / 262144; 128 + r / 4096 mod 64; 128 + r / 64 mod 64; 128 + r mod 64]).

Definition encode_rune (r : Z) : string :=
  encode_valid (if valid_rune r then r else RuneError).

(** [string(runes)] *)
Definition of_runes (l : list Z) : string := cat (map encode_rune l).

(** [utf8.ValidString] *)
Definition valid_utf8 (s : string) : bool :=
  forallb (λ u, bool_decide (encode_rune u.1 = u.2)) (units s).

Lemma units_ind (P : string → Prop) :
  (∀ s, (∀ s', (String.length s' < String.length s)%nat → P s') → P s) → ∀ s, P s.
Proof.
  intros H s. remember (String.length s) as n eqn:Hn. revert s Hn.
  induction (lt_wf n) as [n _ IH]. intros s ->. apply H. intros s' Hl. by eapply IH.
Qed.


(** The encoding of a rune assembled from six-bit groups. *)
Lemma encode2 a b :
  194 ≤ a ≤ 223 → 128 ≤ b ≤ 191 →
  encode_rune ((a - 192) * 64 + (b - 128)) = bytes_of [a; b].
Proof.
  intros Ha Hb. unfold encode_rune, valid_rune, encode_valid. set (r := (a - 192) * 64 + (b - 128)).
  assert (128 ≤ r < 2048) by lia.
  replace (_ || _) with true by (symmetry; apply orb_true_iff; left; apply andb_true_iff; lia).
  destruct (Z.ltb_spec r 128); [lia|]. destruct (Z.ltb_spec r 2048); [|lia].
  do 2 f_equal; [|f_equal]; subst r; Z.to_euclidean_division_equations; lia.
Qed.

Lemma encode3 a b c :
  224 ≤ a ≤ 239 → (a = 224 → 160 ≤ b) → (a = 237 → b ≤ 159) → 128 ≤ b ≤ 191 → 128 ≤ c ≤ 191 →
  encode_rune ((a - 224) * 4096 + (b - 128) * 64 + (c - 128)) = bytes_of [a; b; c].
Proof.
  intros Ha H1 H2 Hb Hc. unfold encode_rune, valid_rune, encode_valid.
  set (r := (a - 224) * 4096 + (b - 128) * 64 + (c - 128)).
  assert (2048 ≤ r < 65536) by lia. assert (r < 55296 ∨ 57344 ≤ r) by lia.
  replace (_ || _) with true by (symmetry; apply orb_true_iff; rewrite !andb_true_iff; lia).
  destruct (Z.ltb_spec r 128); [lia|]. destruct (Z.ltb_spec r 2048); [lia|].
  destruct (Z.ltb_spec r 65536); [|lia].
  assert (r / 64 = (a - 224) * 64 + (b - 128)) as H64 by (subst r; Z.to_euclidean_division_equations; lia).
  rewrite H64. do 2 f_equal; [|f_equal; [|f_equal]]; subst r; Z.to_euclidean_division_equations; lia.
Qed.

Lemma encode4 a b c d :
  240 ≤ a ≤ 244 → (a = 240 → 144 ≤ b) → (a = 244 → b ≤ 143) →
  128 ≤ b ≤ 191 → 128 ≤ c ≤ 191 → 128 ≤ d ≤ 191 →
  encode_rune ((a - 240) * 262144 + (b - 128) * 4096 + (c - 128) * 64 + (d - 128))
    = bytes_of [a; b; c; d].
Proof.
  intros Ha H1 H2 Hb Hc Hd. unfold encode_rune, valid_rune, encode_valid.
  set (r := (a - 240) * 262144 + (b - 128) * 4096 + (c - 128) * 64 + (d - 128)).
  assert (65536 ≤ r < 1114112) by lia.
  replace (_ || _) with true by (symmetry; apply orb_true_iff; rewrite !andb_true_iff; lia).
  destruct (Z.ltb_spec r 128); [lia|]. destruct (Z.ltb_spec r 2048); [lia|].
  destruct (Z.ltb_spec r 65536); [lia|].
  assert (r / 64 = (a - 240) * 4096 + (b - 128) * 64 + (c - 128)) as H64
    by (subst r; Z.to_euclidean_division_equations; lia).
  assert (r / 4096 = (a - 240) * 64 + (b - 128)) as H4096
    by (subst r; Z.to_euclidean_division_equations; lia).
  rewrite H64, H4096.
  do 2 f_equal; [|f_equal; [|f_equal; [|f_equal]]]; subst r; Z.to_euclidean_division_equations; lia.
Qed.

Lemma encode1 a : 0 ≤ a < 128 → encode_rune a = bytes_of [a].
Proof.
  intros Ha. unfold encode_rune, valid_rune, encode_valid.
  replace (_ || _) with true by (symmetry; apply orb_true_iff; left; apply andb_true_iff; lia).
  by destruct (Z.ltb_spec a 128); [|lia].
Qed.

(** One step of the decoder: a rune and its bytes come off the front, and
    either the bytes are the rune's encoding or they are one invalid byte. *)
Lemma units_step a s1 :
  ∃ r u s', units (String a s1) = (r, u) :: units s' ∧ String a s1 = (u ++ s')%string ∧
    (String.length s' < String.length (String a s1))%nat ∧
    (encode_rune r = u ∨ (r = RuneError ∧ u = String a EmptyString)).
Proof.
  pose proof (byte_range a) as Ha. cbn [units].
  destruct (Z.ltb_spec (byte a) 128) as [H1|H1].
  { eexists _, _, s1. split_and!; [done|done|simpl; lia|left].
    rewrite encode1 by lia. simpl. by rewrite chr_byte. }
  destruct s1 as [|b s2].
  { eexists _, _, EmptyString. split_and!; [done|done|simpl; lia|by right]. }
  destruct ((194 <=? byte a) && (byte a <=? 223) && cont b 128 191) eqn:H2.
  { unfold cont in H2. bool_to_prop. eexists _, _, s2. split_and!; [done|done|simpl; lia|left].
    rewrite encode2 by lia. simpl. by rewrite !chr_byte. }
  destruct s2 as [|c s3].
  { eexists _, _, (String b EmptyString). split_and!; [done|done|simpl; lia|by right]. }
  destruct (in_bounds b (second3 (byte a)) && cont c 128 191) eqn:H3.
  { unfold in_bounds, second3, cont in H3. eexists _, _, s3. split_and!; [done|done|simpl; lia|left].
    assert (∃ lo hi, (if byte a =? 224 then Some (160, 191) else if byte a =? 237 then Some (128, 159)
      else if (225 <=? byte a) && (byte a <=? 239) then Some (128, 191) else None) = Some (lo, hi)) as (lo & hi & Hb).
    { repeat case_match; simplify_eq; eauto. }
    rewrite Hb in H3. bool_to_prop. rewrite encode3; [simpl; by rewrite !chr_byte|..];
      destruct (Z.eqb_spec (byte a) 224), (Z.eqb_spec (byte a) 237);
      repeat case_match; simplify_eq; bool_to_prop; lia. }
  destruct s3 as [|d s4].
  { eexists _, _, _. split_and!; [done|done|simpl; lia|by right]. }
  destruct (in_bounds b (second4 (byte a)) && cont c 128 191 && cont d 128 191) eqn:H4.
  { unfold in_bounds, second4, cont in H4. eexists _, _, s4. split_and!; [done|done|simpl; lia|left].
    assert (∃ lo hi, (if byte a =? 240 then Some (144, 191) else if byte a =? 244 then Some (128, 143)
      else if (241 <=? byte a) && (byte a <=? 243) then Some (128, 191) else None) = Some (lo, hi)) as (lo & hi & Hb).
    { repeat case_match; simplify_eq; eauto. }
    rewrite Hb in H4. bool_to_prop. rewrite encode4; [simpl; by rewrite !chr_byte|..];
      destruct (Z.eqb_spec (byte a) 240), (Z.eqb_spec (byte a) 244);
      repeat case_match; simplify_eq; bool_to_prop; lia. }
  eexists _, _, _. split_and!; [done|done|simpl; lia|by right].
Qed.

(** Decoding loses no byte. *)
Lemma units_bytes s : cat (map snd (units s)) = s.
Proof.
  induction s as [[|a s] IH] using units_ind; [done|].
  destruct (units_step a s) as (r & u & s' & -> & Hs & Hl & _). simpl. rewrite IH by done. by rewrite Hs.
Qed.

(** A valid string is the encoding of its runes. *)
Lemma of_runes_valid s : valid_utf8 s = true → of_runes (runes s) = s.
Proof.
  unfold valid_utf8, of_runes, runes. intros H. rewrite <- (units_bytes s) at 2.
  induction (units s) as [|[r u] l IH]; [done|]. simpl in *. bool_to_prop.
  case_bool_decide; [|done]. subst. by rewrite IH.
Qed.

(** Encoding and decoding: a code point's bytes come back as that code point,
    whatever follows. *)
Lemma units_encode r t :
  valid_rune r = true → units (encode_rune r ++ t) = (r, encode_rune r) :: units t.
Proof.
  intros Hv. unfold encode_rune. rewrite Hv. unfold encode_valid. unfold valid_rune in Hv.
  assert ((0 ≤ r < 55296) ∨ (57344 ≤ r < 1114112)) as Hr.
  { apply orb_true_iff in Hv as [Hv|Hv]; bool_to_prop; lia. }
  destruct (Z.ltb_spec r 128) as [H1|H1].
  { change (units (String (chr r) t) = (r, bytes_of [r]) :: units t). cbn [units].
    rewrite byte_chr by lia. by destruct (Z.ltb_spec r 128); [|lia]. }
  assert (∀ b, 0 ≤ b mod 64 < 64) as Hm by (intros; apply Z.mod_pos_bound; lia).
  destruct (Z.ltb_spec r 2048) as [H2|H2].
  { set (a := 192 + r / 64). set (b := 128 + r mod 64).
    assert (194 ≤ a ≤ 223 ∧ 128 ≤ b ≤ 191 ∧ (a - 192) * 64 + (b - 128) = r) as (Ha & Hb & He)
      by (subst a b; pose proof (Hm r); Z.to_euclidean_division_equations; lia).
    change (units (String (chr a) (String (chr b) t)) = (r, bytes_of [a; b]) :: units t).
    clearbody a b. cbn [units]. unfold cont. rewrite !byte_chr by lia.
    destruct (Z.ltb_spec a 128); [lia|].
    replace (_ && _) with true by (symmetry; rewrite !andb_true_iff; lia). by rewrite He. }
  destruct (Z.ltb_spec r 65536) as [H3|H3].
  { set (a := 224 + r / 4096). set (b := 128 + r / 64 mod 64). set (c := 128 + r mod 64).
    assert (224 ≤ a ≤ 239 ∧ 128 ≤ b ≤ 191 ∧ 128 ≤ c ≤ 191 ∧ (a = 224 → 160 ≤ b) ∧ (a = 237 → b ≤ 159) ∧
      (a - 224) * 4096 + (b - 128) * 64 + (c - 128) = r) as (Ha & Hb & Hc & H5 & H6 & He)
      by (subst a b c; pose proof (Hm r); pose proof (Hm (r / 64)); Z.to_euclidean_division_equations; lia).
    change (units (String (chr a) (String (chr b) (String (chr c) t))) = (r, bytes_of [a; b; c]) :: units t).
    clearbody a b c. cbn [units]. unfold cont, in_bounds, second3. rewrite !byte_chr by lia.
    destruct (Z.ltb_spec a 128); [lia|].
    replace ((194 <=? a) && (a <=? 223) && ((128 <=? b) && (b <=? 191))) with false
      by (symmetry; rewrite !andb_false_iff; lia).
    match goal with |- context [if ?x then _ :: units t else _] => replace x with true end.
    - by rewrite He.
    - symmetry. destruct (Z.eqb_spec a 224), (Z.eqb_spec a 237); try lia; cbn [in_bounds]; unfold cont;
        rewrite ?byte_chr by lia.
      1, 2: rewrite !andb_true_iff; lia.
      replace ((225 <=? a) && (a <=? 239)) with true by (symmetry; rewrite andb_true_iff; lia).
      rewrite !andb_true_iff; lia. }
  set (a := 240 + r / 262144). set (b := 128 + r / 4096 mod 64). set (c := 128 + r / 64 mod 64).
  set (e := 128 + r mod 64).
  assert (240 ≤ a ≤ 244 ∧ 128 ≤ b ≤ 191 ∧ 128 ≤ c ≤ 191 ∧ 128 ≤ e ≤ 191 ∧
    (a = 240 → 144 ≤ b) ∧ (a = 244 → b ≤ 143) ∧
    (a - 240) * 262144 + (b - 128) * 4096 + (c - 128) * 64 + (e - 128) = r)
    as (Ha & Hb & Hc & Hd & H5 & H6 & He)
    by (subst a b c e; pose proof (Hm r); pose proof (Hm (r / 64)); pose proof (Hm (r / 4096));
        Z.to_euclidean_division_equations; lia).
  change (units (String (chr a) (String (chr b) (String (chr c) (String (chr e) t))))
          = (r, bytes_of [a; b; c; e]) :: units t).
  clearbody a b c e. cbn [units]. unfold cont, in_bounds, second3, second4. rewrite !byte_chr by lia.
  destruct (Z.ltb_spec a 128); [lia|].
  replace ((194 <=? a) && (a <=? 223) && ((128 <=? b) && (b <=? 191))) with false
    by (symmetry; rewrite !andb_false_iff; lia).
  destruct (Z.eqb_spec a 224), (Z.eqb_spec a 237); try lia.
  replace ((225 <=? a) && (a <=? 239)) with false by (symmetry; rewrite andb_false_iff; lia).
  cbn [andb]. cbv iota.
  match goal with |- context [if ?x then _ :: units t else _] => replace x with true end.
  - by rewrite He.
  - symmetry. destruct (Z.eqb_spec a 240), (Z.eqb_spec a 244); try lia; unfold cont;
      rewrite ?byte_chr by lia.
    1, 2: rewrite !andb_true_iff; lia.
    replace ((241 <=? a) && (a <=? 243)) with true by (symmetry; rewrite andb_true_iff; lia).
    rewrite !andb_true_iff; lia.
Qed.

Lemma valid_rune_iff r : valid_rune r = true ↔ 0 ≤ r < 55296 ∨ 57344 ≤ r < 1114112.
Proof. unfold valid_rune. rewrite orb_true_iff, !andb_true_iff. lia. Qed.

(** Every decoded rune is a code point. *)
Lemma units_valid s : Forall (λ u, valid_rune u.1 = true) (units s).
Proof.
  induction s as [[|a s1] IH] using units_ind; [constructor|].
  assert (∀ s' r u, (String.length s' ≤ String.length s1)%nat →
    (0 ≤ r < 55296 ∨ 57344 ≤ r < 1114112) →
    Forall (λ u, valid_rune u.1 = true) ((r, u) :: units s')) as Hcons.
  { intros s' r u Hl Hr. constructor; [by apply valid_rune_iff|]. apply IH. simpl. lia. }
  pose proof (byte_range a) as Ha. cbn [units]. unfold RuneError, in_bounds, second3, second4, cont.
  destruct (Z.ltb_spec (byte a) 128); [apply Hcons; [done|lia]|].
  destruct s1 as [|b s2]; [apply (Hcons EmptyString); [done|lia]|].
  destruct ((194 <=? byte a) && _ && _) eqn:H2;
    [bool_to_prop; apply Hcons; [simpl; lia|lia]|].
  destruct s2 as [|c s3]; [apply Hcons; [simpl; lia|lia]|].
  repeat (case_match; simplify_eq); bool_to_prop; apply Hcons; simpl; lia.
Qed.

Lemma of_runes_app l l' : of_runes (l ++ l') = (of_runes l ++ of_runes l')%string.
Proof. unfold of_runes. by rewrite map_app, cat_app. Qed.

(** ** strings.Fields and strings.Join *)

(** [unicode.IsSpace] *)
Definition is_space_rune (r : Z) : bool :=
  ((9 <=? r) && (r <=? 13)) || (r =? 32) || (r =? 133) || (r =? 160) || (r =? 5760)
  || ((8192 <=? r) && (r <=? 8202)) || (r =? 8232) || (r =? 8233) || (r =? 8239)
  || (r =? 8287) || (r =? 12288).

(** [field] is the field being read, empty between fields. *)
Fixpoint fields_loop (us : list (Z * string)) (field : string) : list string :=
  match us with
  | [] => if bool_decide (field = ""%string) then [] else [field]
  | (r, u) :: us' =>
      if is_space_rune r
      then if bool_decide (field = ""%string) then fields_loop us' ""
           else field :: fields_loop us' ""
      else fields_loop us' (field ++ u)
  end.
Definition Fields (s : string) : list string := fields_loop (units s) "".

Fixpoint Join (l : list string) (sep : string) : string :=
  match l with
  | [] => ""
  | [s] => s
  | s :: l' => s ++ sep ++ Join l' sep
  end.

(** [strings.TrimSpace] *)
Fixpoint trim_left_units (us : list (Z * string)) : list (Z * string) :=
  match us with
  | [] => []
  | u :: us' => if is_space_rune u.1 then trim_left_units us' else us
  end.
Definition trim_units (us : list (Z * string)) : list (Z * string) :=
  reverse (trim_left_units (reverse (trim_left_units us))).
Definition trim_space (s : string) : string := cat (map snd (trim_units (units s))).

(** ** Decimal numbers

    Twenty digits hold every 64-bit magnitude. *)
Fixpoint digits_loop (fuel : nat) (n : Z) (acc : string) : string :=
  match fuel with
  | O => acc
  | S fuel' =>
      if 0 <? n then digits_loop fuel' (n / 10) (String (chr (48 + n mod 10)) acc) else acc
  end.

(** [strconv.FormatInt(n, 10)] *)
Definition FormatInt (n : Z) : string :=
  if (n =? 0)%Z then "0"
  else ((if (n <? 0)%Z then "-" else "") ++ digits_loop 20 (Z.abs n) "")%string.

Inductive num_error := ErrSyntax | ErrRange.

Definition max_uint64 : Z := 2 ^ 64 - 1.

(** The loop of [strconv.ParseUint], base ten. *)
Fixpoint parse_loop (s : string) (n : Z) : result num_error Z :=
  match s with
  | EmptyString => Ok n
  | String c s' =>
      let d := byte c - 48 in
      if (d <? 0) || (9 <? d) then Err ErrSyntax
      else if max_uint64 / 10 + 1 <=? n then Err ErrRange
      else if max_uint64 <? n * 10 + d then Err ErrRange
      else parse_loop s' (n * 10 + d)
  end.

Definition ParseUint (s : string) : result num_error Z :=
  match s with EmptyString => Err ErrSyntax | _ => parse_loop s 0 end.

Definition sign_of (s : string) : bool * string :=
  match s with
  | String c s' =>
      if bool_decide (c = "+"%char) then (false, s')
      else if bool_decide (c = "-"%char) then (true, s') else (false, s)
  | EmptyString => (false, s)
  end.

(** [strconv.ParseInt(s, 10, 64)] and [strconv.Atoi]: the value returned beside
    the error matters to callers that ignore the error. *)
Definition ParseInt (s : string) : Z * option num_error :=
  match s with
  | EmptyString => (0, Some ErrSyntax)
  | _ =>
      let '(neg, digits) := sign_of s in
      match ParseUint digits with
      | Err ErrSyntax => (0, Some ErrSyntax)
      | r =>
          let un := match r with Ok n => n | Err _ => max_uint64 end in
          if negb neg && (2 ^ 63 <=? un) then (2 ^ 63 - 1, Some ErrRange)
          else if neg && (2 ^ 63 <? un) then (- 2 ^ 63, Some ErrRange)
          else (if neg then - un else un, None)
      end
  end.

Lemma digits_loop_parse fuel n acc :
  0 ≤ n < 10 ^ Z.of_nat fuel → n ≤ max_uint64 →
  parse_loop (digits_loop fuel n acc) 0 = parse_loop acc n.
Proof.
  revert n acc. induction fuel as [|fuel IH]; intros n acc Hn Hmax; cbn [digits_loop].
  { assert (n = 0) as -> by (simpl in Hn; lia). done. }
  destruct (Z.ltb_spec 0 n) as [Hp|Hp]; [|by assert (n = 0) as -> by lia].
  rewrite Nat2Z.inj_succ, Z.pow_succ_r in Hn by lia. unfold max_uint64 in *.
  rewrite IH by (Z.to_euclidean_division_equations; lia).
  cbn [parse_loop]. pose proof (Z.mod_pos_bound n 10 ltac:(lia)).
  rewrite byte_chr by lia. replace (48 + n mod 10 - 48) with (n mod 10) by lia.
  destruct (Z.ltb_spec (n mod 10) 0), (Z.ltb_spec 9 (n mod 10)); try lia. simpl orb. cbv iota.
  unfold max_uint64. destruct (Z.leb_spec ((2 ^ 64 - 1) / 10 + 1) (n / 10));
    [Z.to_euclidean_division_equations; lia|].
  replace (n / 10 * 10 + n mod 10) with n by (Z.to_euclidean_division_equations; lia).
  by destruct (Z.ltb_spec (2 ^ 64 - 1) n); [lia|].
Qed.

(** Digits are not a sign, and a positive number has some. *)
Lemma digits_loop_head fuel n acc :
  (∀ c s, acc = String c s → 48 ≤ byte c ≤ 57) →
  ∀ c s, digits_loop fuel n acc = String c s → 48 ≤ byte c ≤ 57.
Proof.
  revert n acc. induction fuel as [|fuel IH]; intros n acc Hacc c s; simpl; [by apply Hacc|].
  destruct (0 <? n); [|by apply Hacc]. apply IH.
  intros c' s' [= <- <-]. pose proof (Z.mod_pos_bound n 10 ltac:(lia)). rewrite byte_chr by lia. lia.
Qed.

Lemma digits_loop_ne fuel n acc : acc ≠ ""%string → digits_loop fuel n acc ≠ ""%string.
Proof.
  revert n acc. induction fuel as [|fuel IH]; intros n acc Ha; simpl; [done|].
  destruct (0 <? n); [|done]. by apply IH.
Qed.

Lemma digits_loop_pos fuel n : 0 < n → digits_loop (S fuel) n "" ≠ ""%string.
Proof.
  intros Hn. cbn [digits_loop]. destruct (Z.ltb_spec 0 n); [|lia]. by apply digits_loop_ne.
Qed.

Lemma ParseUint_digits n :
  0 < n ≤ max_uint64 → ParseUint (digits_loop 20 n "") = Ok n.
Proof.
  intros Hn. pose proof (digits_loop_pos 19 n (proj1 Hn)) as Hne. unfold ParseUint.
  destruct (digits_loop 20 n "") as [|c s] eqn:He; [done|]. rewrite <- He.
  rewrite digits_loop_parse; [done| |lia]. unfold max_uint64 in Hn. lia.
Qed.

Lemma sign_of_minus s : sign_of (String "-" s) = (true, s).
Proof. reflexivity. Qed.

Lemma sign_of_digit c s : 48 ≤ byte c ≤ 57 → sign_of (String c s) = (false, String c s).
Proof.
  intros Hc. unfold sign_of. case_bool_decide as H1; [|case_bool_decide as H2; [|done]]; subst c;
    vm_compute in Hc; by destruct Hc.
Qed.

(** Every 64-bit number survives being printed and parsed. *)
Lemma ParseInt_FormatInt n : in_int64 n → ParseInt (FormatInt n) = (n, None).
Proof.
  intros [Hlo Hhi]. unfold FormatInt, int64_min, int64_max in *.
  destruct (Z.eqb_spec n 0) as [->|Hz]; [reflexivity|].
  assert (ParseUint (digits_loop 20 (Z.abs n) "") = Ok (Z.abs n)) as Hp
    by (apply ParseUint_digits; unfold max_uint64; lia).
  destruct (Z.ltb_spec n 0) as [Hn|Hn].
  - change (ParseInt (String "-" (digits_loop 20 (Z.abs n) "")) = (n, None)).
    unfold ParseInt. rewrite sign_of_minus, Hp. simpl negb.
    destruct (Z.ltb_spec (2 ^ 63) (Z.abs n)); [lia|]. simpl. f_equal. lia.
  - change (ParseInt (digits_loop 20 (Z.abs n) "") = (n, None)). unfold ParseInt.
    destruct (digits_loop 20 (Z.abs n) "") as [|c s] eqn:He; [by apply digits_loop_pos in He; [|lia]|].
    assert (48 ≤ byte c ≤ 57) as Hc by (eapply digits_loop_head; [|exact He]; done).
    rewrite sign_of_digit, Hp by done. simpl negb. cbn [andb].
    destruct (Z.leb_spec (2 ^ 63) (Z.abs n)); [lia|]. simpl. f_equal. lia.
Qed.

(** ** Fixed-width integers and hexadecimal *)

(** [binary.BigEndian.PutUint64] and [PutUint32]: the low [8 w] bits, most
    significant byte first; [binary.LittleEndian] the other way. *)
Fixpoint put_be (w : nat) (n : Z) (acc : string) : string :=
  match w with
  | O => acc
  | S w' => put_be w' (n / 256) (String (chr (n mod 256)) acc)
  end.
Fixpoint put_le (w : nat) (n : Z) : string :=
  match w with
  | O => EmptyString
  | S w' => String (chr (n mod 256)) (put_le w' (n / 256))
  end.
Fixpoint get_le (w : nat) (s : string) : Z :=
  match w, s with
  | S w', String c s' => byte c + 256 * get_le w' s'
  | _, _ => 0
  end.

Lemma put_be_length w n acc : String.length (put_be w n acc) = (w + String.length acc)%nat.
Proof. revert n acc. induction w as [|w IH]; intros n acc; simpl; [done|]. rewrite IH. simpl. lia. Qed.

Lemma put_be_app w n acc : put_be w n acc = (put_be w n "" ++ acc)%string.
Proof.
  revert n acc. induction w as [|w IH]; intros n acc; simpl; [done|].
  rewrite IH. symmetry. rewrite IH, string_app_assoc. done.
Qed.

Lemma put_be_inj w n n' acc acc' :
  0 ≤ n < 256 ^ Z.of_nat w → 0 ≤ n' < 256 ^ Z.of_nat w →
  put_be w n acc = put_be w n' acc' → n = n' ∧ acc = acc'.
Proof.
  revert n n' acc acc'. induction w as [|w IH]; intros n n' acc acc' Hn Hn'; simpl.
  { simpl in *. intros ->. split; [lia|done]. }
  rewrite Nat2Z.inj_succ, Z.pow_succ_r in * by lia.
  intros [Hd [= Hm ->]]%IH; [|Z.to_euclidean_division_equations; lia..].
  apply chr_inj in Hm; [|apply Z.mod_pos_bound; lia..]. split; [|done].
  Z.to_euclidean_division_equations; lia.
Qed.

Lemma put_le_length w n : String.length (put_le w n) = w.
Proof. revert n. induction w as [|w IH]; intros n; simpl; [done|by rewrite IH]. Qed.

Lemma get_put_le w n rest : 0 ≤ n < 256 ^ Z.of_nat w → get_le w (put_le w n ++ rest) = n.
Proof.
  revert n. induction w as [|w IH]; intros n Hn; simpl; [simpl in Hn; lia|].
  rewrite Nat2Z.inj_succ, Z.pow_succ_r in Hn by lia.
  change ((put_le w (n / 256) ++ rest)%string) with (put_le w (n / 256) ++ rest)%string.
  rewrite IH by (Z.to_euclidean_division_equations; lia).
  pose proof (Z.mod_pos_bound n 256 ltac:(lia)). rewrite byte_chr by lia.
  Z.to_euclidean_division_equations; lia.
Qed.

(** [hex.EncodeToString] *)
Definition hex_digit (d : Z) : ascii := chr (if d <? 10 then 48 + d else 87 + d).
Fixpoint hex_encode (s : string) : string :=
  match s with
  | EmptyString => EmptyString
  | String c s' =>
      String (hex_digit (byte c / 16)) (String (hex_digit (byte c mod 16)) (hex_encode s'))
  end.

Lemma hex_digit_inj d d' : 0 ≤ d < 16 → 0 ≤ d' < 16 → hex_digit d = hex_digit d' → d = d'.
Proof.
  intros Hd Hd' H. unfold hex_digit in H.
  apply chr_inj in H; destruct (Z.ltb_spec d 10), (Z.ltb_spec d' 10); lia.
Qed.

Lemma hex_encode_inj s s' : hex_encode s = hex_encode s' → s = s'.
Proof.
  revert s'. induction s as [|c s IH]; intros [|c' s']; simpl; try done. intros [= H1 H2 H3].
  pose proof (byte_range c). pose proof (byte_range c').
  apply hex_digit_inj in H1; [|Z.to_euclidean_division_equations; lia..].
  apply hex_digit_inj in H2; [|Z.to_euclidean_division_equations; lia..].
  apply IH in H3 as ->. f_equal. rewrite <- (chr_byte c), <- (chr_byte c'). f_equal.
  Z.to_euclidean_division_equations; lia.
Qed.
