(* ===== verification/Base64.v ===== *)
(** * Separators and base64

    What the source uses of strings ([Cut] and [LastIndex] at one byte) and of
    encoding/base64 ([RawURLEncoding]), for cursors, tokens and sealed cookies. *)

From Stdlib Require Import Ascii.
From S2P Require Import Prelude Text.

(** ** Separators *)

(** [strings.Cut(s, sep)] at a separator of one byte *)
Fixpoint Cut (sep : ascii) (s : string) : option (string * string) :=
  match s with
  | EmptyString => None
  | String c s' =>
      if bool_decide (c = sep) then Some (EmptyString, s')
      else match Cut sep s' with Some (a, b) => Some (String c a, b) | None => None end
  end.

(** [s[:i]] and [s[i+1:]] for [i := strings.LastIndex(s, sep)] *)
Fixpoint CutLast (sep : ascii) (s : string) : option (string * string) :=
  match s with
  | EmptyString => None
  | String c s' =>
      match CutLast sep s' with
      | Some (a, b) => Some (String c a, b)
      | None => if bool_decide (c = sep) then Some (EmptyString, s') else None
      end
  end.

(** [strings.Split(s, sep)] *)
Fixpoint Split (sep : ascii) (s : string) : list string :=
  match s with
  | EmptyString => [EmptyString]
  | String c s' =>
      if bool_decide (c = sep) then EmptyString :: Split sep s'
      else match Split sep s' with [] => [] | p :: ps => String c p :: ps end
  end.

(** The byte is not in the string. *)
Fixpoint free (sep : ascii) (s : string) : bool :=
  match s with EmptyString => true | String c s' => negb (bool_decide (c = sep)) && free sep s' end.

Lemma string_app_cons c a b : (String c a ++ b)%string = String c (a ++ b)%string.
Proof. done. Qed.

Lemma free_app sep a b : free sep (a ++ b) = free sep a && free sep b.
Proof.
  induction a as [|c a IH]; [done|]. rewrite string_app_cons. cbn [free]. rewrite IH. by rewrite andb_assoc.
Qed.

Lemma Cut_app sep a b : free sep a = true → Cut sep (a ++ String sep b) = Some (a, b).
Proof.
  induction a as [|c a IH]; cbn [free]; intros Ha.
  - change ("" ++ String sep b)%string with (String sep b). cbn [Cut]. by rewrite bool_decide_eq_true_2.
  - rewrite string_app_cons. cbn [Cut]. destruct (bool_decide (c = sep)); [done|]. by rewrite IH.
Qed.

Lemma Cut_inv sep s a b : Cut sep s = Some (a, b) → s = (a ++ String sep b)%string ∧ free sep a = true.
Proof.
  revert a b. induction s as [|c s IH]; intros a b; cbn [Cut]; [done|].
  destruct (bool_decide_reflect (c = sep)) as [->|Hc]; [by intros [= <- <-]|].
  destruct (Cut sep s) as [[a' b']|]; [|done]. intros [= <- <-]. destruct (IH _ _ eq_refl) as [-> Hf].
  split; [done|]. cbn [free]. by rewrite bool_decide_eq_false_2.
Qed.

Lemma Cut_None sep s : free sep s = true → Cut sep s = None.
Proof.
  induction s as [|c s IH]; cbn [free Cut]; [done|]. destruct (bool_decide (c = sep)); [done|].
  intros H. by rewrite IH.
Qed.

Lemma CutLast_None sep s : CutLast sep s = None ↔ free sep s = true.
Proof.
  induction s as [|c s IH]; cbn [free CutLast]; [done|].
  destruct (CutLast sep s) as [[a b]|].
  - assert (free sep s = false) as -> by (destruct (free sep s); [|done]; by destruct IH as [_ IH]; specialize (IH eq_refl)).
    by rewrite andb_false_r.
  - rewrite (proj1 IH eq_refl), andb_true_r. by destruct (bool_decide (c = sep)).
Qed.

Lemma CutLast_app sep a b : free sep b = true → CutLast sep (a ++ String sep b) = Some (a, b).
Proof.
  intros Hb. induction a as [|c a IH].
  - change ("" ++ String sep b)%string with (String sep b). cbn [CutLast].
    rewrite (proj2 (CutLast_None sep b) Hb). by rewrite bool_decide_eq_true_2.
  - rewrite string_app_cons. cbn [CutLast]. by rewrite IH.
Qed.

Lemma CutLast_inv sep s a b : CutLast sep s = Some (a, b) → s = (a ++ String sep b)%string ∧ free sep b = true.
Proof.
  revert a b. induction s as [|c s IH]; intros a b; cbn [CutLast]; [done|].
  destruct (CutLast sep s) as [[a' b']|] eqn:Hs.
  - intros [= <- <-]. by destruct (IH _ _ eq_refl) as [-> Hf].
  - destruct (bool_decide_reflect (c = sep)) as [->|]; [|done]. intros [= <- <-]. by rewrite <- CutLast_None.
Qed.

(** A printed number is digits and perhaps a sign. *)
Lemma digits_loop_free sep fuel n acc :
  ¬ (48 ≤ byte sep ≤ 57) → free sep acc = true → free sep (digits_loop fuel n acc) = true.
Proof.
  intros Hs. revert n acc. induction fuel as [|fuel IH]; intros n acc Ha; cbn [digits_loop]; [done|].
  case_match; [|done]. apply IH. cbn [free]. rewrite Ha, bool_decide_eq_false_2; [done|].
  intros Hc. pose proof (Z.mod_pos_bound n 10 ltac:(lia)).
  apply (f_equal byte) in Hc. rewrite byte_chr in Hc by lia. lia.
Qed.

Lemma FormatInt_free sep n : sep ≠ "-"%char → ¬ (48 ≤ byte sep ≤ 57) → free sep (FormatInt n) = true.
Proof.
  intros Hm Hs. unfold FormatInt. destruct (n =? 0).
  - cbn [free]. rewrite bool_decide_eq_false_2; [done|]. intros <-. by apply Hs.
  - pose proof (digits_loop_free sep 20 (Z.abs n) "" Hs eq_refl) as Hd.
    revert Hd. generalize (digits_loop 20 (Z.abs n) ""). intros d Hd.
    destruct (n <? 0); [|exact Hd]. change (negb (bool_decide ("-"%char = sep)) && free sep d = true).
    rewrite Hd, bool_decide_eq_false_2; [done|congruence].
Qed.

(** ** encoding/base64, RawURLEncoding *)

Definition b64_char (v : Z) : ascii :=
  chr (if v <? 26 then 65 + v else if v <? 52 then 71 + v else if v <? 62 then v - 4 else if v =? 62 then 45 else 95).

Definition b64_value (c : ascii) : option Z :=
  let b := byte c in
  if (65 <=? b) && (b <=? 90) then Some (b - 65)
  else if (97 <=? b) && (b <=? 122) then Some (b - 71)
  else if (48 <=? b) && (b <=? 57) then Some (b + 4)
  else if b =? 45 then Some 62
  else if b =? 95 then Some 63
  else None.

Fixpoint EncodeToString (s : string) : string :=
  match s with
  | EmptyString => EmptyString
  | String a EmptyString =>
      String (b64_char (byte a / 4)) (String (b64_char (byte a mod 4 * 16)) EmptyString)
  | String a (String b EmptyString) =>
      String (b64_char (byte a / 4)) (String (b64_char (byte a mod 4 * 16 + byte b / 16))
        (String (b64_char (byte b mod 16 * 4)) EmptyString))
  | String a (String b (String c rest)) =>
      String (b64_char (byte a / 4)) (String (b64_char (byte a mod 4 * 16 + byte b / 16))
        (String (b64_char (byte b mod 16 * 4 + byte c / 64)) (String (b64_char (byte c mod 64)) (EncodeToString rest))))
  end.

(** Line breaks are skipped, wherever they are. *)
Fixpoint b64_values (s : string) : option (list Z) :=
  match s with
  | EmptyString => Some []
  | String c s' =>
      if (byte c =? 10) || (byte c =? 13) then b64_values s'
      else match b64_value c with
           | None => None
           | Some v => match b64_values s' with Some vs => Some (v :: vs) | None => None end
           end
  end.

(** A last group of one digit is an error; the spare bits of a last group of two
    or three are dropped. *)
Fixpoint b64_bytes (vs : list Z) : option string :=
  match vs with
  | [] => Some EmptyString
  | [_] => None
  | [a; b] => Some (String (chr (a * 4 + b / 16)) EmptyString)
  | [a; b; c] => Some (String (chr (a * 4 + b / 16)) (String (chr (b mod 16 * 16 + c / 4)) EmptyString))
  | a :: b :: c :: d :: rest =>
      match b64_bytes rest with
      | Some s => Some (String (chr (a * 4 + b / 16)) (String (chr (b mod 16 * 16 + c / 4)) (String (chr (c mod 4 * 64 + d)) s)))
      | None => None
      end
  end.

Definition DecodeString (s : string) : option string :=
  match b64_values s with Some vs => b64_bytes vs | None => None end.

(** ** The round trip *)

Lemma b64_char_value v :
  0 ≤ v < 64 → b64_value (b64_char v) = Some v ∧ byte (b64_char v) ≠ 10 ∧ byte (b64_char v) ≠ 13.
Proof.
  intros Hv. unfold b64_value, b64_char.
  destruct (Z.ltb_spec v 26); [|destruct (Z.ltb_spec v 52); [|destruct (Z.ltb_spec v 62); [|destruct (Z.eqb_spec v 62)]]];
    rewrite byte_chr by lia; split; try lia;
    repeat match goal with
    | |- context [(?a <=? ?b)%Z] => destruct (Z.leb_spec a b); try lia; cbn [andb]
    | |- context [(?a =? ?b)%Z] => destruct (Z.eqb_spec a b); try lia
    end; f_equal; lia.
Qed.

Lemma b64_values_cons v s :
  0 ≤ v < 64 → b64_values (String (b64_char v) s) = match b64_values s with Some vs => Some (v :: vs) | None => None end.
Proof.
  intros Hv. cbn [b64_values]. destruct (b64_char_value v Hv) as (-> & H1 & H2).
  by rewrite (proj2 (Z.eqb_neq _ _) H1), (proj2 (Z.eqb_neq _ _) H2).
Qed.

Lemma string_ind3 (P : string → Prop) :
  P EmptyString → (∀ a, P (String a EmptyString)) → (∀ a b, P (String a (String b EmptyString))) →
  (∀ a b c s, P s → P (String a (String b (String c s)))) → ∀ s, P s.
Proof.
  intros H0 H1 H2 H3. fix IH 1. intros [|a [|b [|c s]]]; [exact H0|apply H1|apply H2|apply H3, IH].
Qed.

Lemma chr_of a z : z = byte a → chr z = a.
Proof. intros ->. apply chr_byte. Qed.

Ltac dm := Z.to_euclidean_division_equations; lia.

Lemma base64_round_trip s : DecodeString (EncodeToString s) = Some s.
Proof.
  assert (∀ s, ∃ vs, b64_values (EncodeToString s) = Some vs ∧ b64_bytes vs = Some s) as H.
  { clear s. induction s as [|a|a b|a b c s (vs & IH1 & IH2)] using string_ind3; cbn [EncodeToString].
    - by exists [].
    - pose proof (byte_range a). rewrite !b64_values_cons by dm. eexists. split; [done|]. cbn [b64_bytes].
      rewrite (chr_of a) by dm. done.
    - pose proof (byte_range a). pose proof (byte_range b). rewrite !b64_values_cons by dm. eexists. split; [done|]. cbn [b64_bytes].
      rewrite (chr_of a), (chr_of b) by dm. done.
    - pose proof (byte_range a). pose proof (byte_range b). pose proof (byte_range c).
      rewrite !b64_values_cons by dm. rewrite IH1. eexists. split; [done|]. cbn [b64_bytes]. rewrite IH2.
      rewrite (chr_of a), (chr_of b), (chr_of c) by dm. done. }
  destruct (H s) as (vs & H1 & H2). unfold DecodeString. by rewrite H1.
Qed.

Lemma EncodeToString_nil s : EncodeToString s = ""%string → s = ""%string.
Proof. by destruct s as [|a [|b [|c s]]]. Qed.

Lemma b64_char_free sep v s : b64_value sep = None → 0 ≤ v < 64 → free sep (String (b64_char v) s) = free sep s.
Proof.
  intros Hs Hv. cbn [free]. rewrite bool_decide_eq_false_2; [done|]. intros Hc.
  destruct (b64_char_value v Hv) as [Hb _]. congruence.
Qed.

(** An encoded string holds no byte outside the alphabet. *)
Lemma EncodeToString_free sep s : b64_value sep = None → free sep (EncodeToString s) = true.
Proof.
  intros Hs. induction s as [|a|a b|a b c s IH] using string_ind3; cbn [EncodeToString]; [done| | |].
  - pose proof (byte_range a). rewrite !b64_char_free by (done || dm). done.
  - pose proof (byte_range a). pose proof (byte_range b). rewrite !b64_char_free by (done || dm). done.
  - pose proof (byte_range a). pose proof (byte_range b). pose proof (byte_range c).
    by rewrite !b64_char_free by (done || dm).
Qed.
