(* ===== verification/Json.v ===== *)
(** * encoding/json as the gateway uses it

    Values, [json.Marshal] (with its HTML-safe escapes) and the parser behind
    [json.Unmarshal], on the bytes of Go strings.  A number keeps its literal,
    as the decoder does until it knows the field it is for.  The parser reads
    the runes of the input; an invalid byte is U+FFFD, and nesting deeper than
    ten thousand is an error, as in the library. *)

From S2P Require Import Prelude Text.

Inductive json :=
| JNull
| JBool (b : bool)
| JNum (lit : string)
| JStr (s : string)
| JArr (l : list json)
| JObj (l : list (string * json)).

Definition JInt (n : Z) : json := JNum (FormatInt n).

(** ** Encoding *)

Definition quote : string := String (chr 34) EmptyString.

Definition escape_unit (u : Z * string) : string :=
  let '(r, bs) := u in
  if r =? 34 then String (chr 92) quote
  else if r =? 92 then "\\"
  else if r =? 8 then "\b"
  else if r =? 12 then "\f"
  else if r =? 10 then "\n"
  else if r =? 13 then "\r"
  else if r =? 9 then "\t"
  else if (r <? 32) || (r =? 60) || (r =? 62) || (r =? 38)
  then "\u00" ++ String (hex_digit (r / 16)) (String (hex_digit (r mod 16)) "")
  else if (r =? RuneError) && (String.length bs =? 1)%nat then "\ufffd"
  else if (r =? 8232) || (r =? 8233) then "\u202" ++ String (hex_digit (r mod 16)) ""
  else bs.

Definition jstring (s : string) : string := quote ++ cat (map escape_unit (units s)) ++ quote.

Fixpoint marshal (v : json) : string :=
  match v with
  | JNull => "null"
  | JBool b => if b then "true" else "false"
  | JNum lit => lit
  | JStr s => jstring s
  | JArr l => "[" ++ Join (map marshal l) "," ++ "]"
  | JObj l => "{" ++ Join (map (λ kv, (jstring kv.1 ++ ":" ++ marshal kv.2)%string) l) "," ++ "}"
  end.

(** ** Decoding *)

Definition stream : Type := list (Z * string).

Fixpoint skip_ws (us : stream) : stream :=
  match us with
  | (r, bs) :: us' => if (r =? 32) || (r =? 9) || (r =? 10) || (r =? 13) then skip_ws us' else us
  | [] => []
  end.

Fixpoint eat (lit : list Z) (us : stream) : option stream :=
  match lit, us with
  | [], _ => Some us
  | c :: lit', (r, _) :: us' => if r =? c then eat lit' us' else None
  | _, [] => None
  end.

Definition hexval (r : Z) : option Z :=
  if (48 <=? r) && (r <=? 57) then Some (r - 48)
  else if (97 <=? r) && (r <=? 102) then Some (r - 87)
  else if (65 <=? r) && (r <=? 70) then Some (r - 55) else None.

Definition hex4 (a b c d : Z) : option Z :=
  match hexval a, hexval b, hexval c, hexval d with
  | Some a, Some b, Some c, Some d => Some (((a * 16 + b) * 16 + c) * 16 + d)
  | _, _, _, _ => None
  end.

Definition simple_escape (r : Z) : option Z :=
  if (r =? 34) || (r =? 92) || (r =? 47) then Some r
  else if r =? 98 then Some 8 else if r =? 102 then Some 12 else if r =? 110 then Some 10
  else if r =? 114 then Some 13 else if r =? 116 then Some 9 else None.

(** What a string literal is made of: text, and code units written as escapes,
    which may be halves of a surrogate pair. *)
Inductive item := Lit (bs : string) | Esc (code : Z).

Definition cons_item (i : item) (r : option (list item * stream)) : option (list item * stream) :=
  match r with Some (l, us) => Some (i :: l, us) | None => None end.

(** After the opening quote, up to and past the closing one. *)
Fixpoint scan_string (us : stream) : option (list item * stream) :=
  match us with
  | [] => None
  | (r, _) :: us1 =>
      if r =? 34 then Some ([], us1)
      else if r =? 92 then
        match us1 with
        | (e, _) :: us2 =>
            if e =? 117 then
              match us2 with
              | (a, _) :: (b, _) :: (c, _) :: (d, _) :: us3 =>
                  match hex4 a b c d with
                  | Some code => cons_item (Esc code) (scan_string us3)
                  | None => None
                  end
              | _ => None
              end
            else match simple_escape e with
                 | Some b => cons_item (Lit (encode_rune b)) (scan_string us2)
                 | None => None
                 end
        | [] => None
        end
      else if r <? 32 then None
      else cons_item (Lit (encode_rune r)) (scan_string us1)
  end.

Definition is_surrogate (c : Z) : bool := (55296 <=? c) && (c <? 57344).

Fixpoint merge (l : list item) : string :=
  match l with
  | [] => ""
  | Lit s :: l' => s ++ merge l'
  | Esc hi :: l' =>
      if is_surrogate hi then
        match l' with
        | Esc lo :: l'' =>
            if (hi <? 56320) && (56320 <=? lo) && (lo <? 57344)
            then encode_rune (65536 + (hi - 55296) * 1024 + (lo - 56320)) ++ merge l''
            else encode_rune RuneError ++ merge l'
        | _ => encode_rune RuneError ++ merge l'
        end
      else encode_rune hi ++ merge l'
  end.

Definition parse_string (us : stream) : option (string * stream) :=
  match scan_string us with Some (l, us') => Some (merge l, us') | None => None end.

Definition is_digit (r : Z) : bool := (48 <=? r) && (r <=? 57).

Fixpoint span_digits (us : stream) : string * stream :=
  match us with
  | (r, bs) :: us' =>
      if is_digit r then let '(ds, rest) := span_digits us' in ((bs ++ ds)%string, rest) else ("", us)
  | [] => ("", [])
  end.

Definition digits1 (us : stream) : option (string * stream) :=
  match span_digits us with (EmptyString, _) => None | r => Some r end.

Definition scan_int (us : stream) : option (string * stream) :=
  match us with
  | (r, bs) :: us' => if r =? 48 then Some (bs, us') else digits1 us
  | [] => None
  end.

Definition scan_frac (us : stream) : option (string * stream) :=
  match us with
  | (r, bs) :: us' =>
      if r =? 46 then
        match digits1 us' with Some (ds, rest) => Some ((bs ++ ds)%string, rest) | None => None end
      else Some (""%string, us)
  | [] => Some (""%string, [])
  end.

Definition scan_exp (us : stream) : option (string * stream) :=
  match us with
  | (r, bs) :: us' =>
      if (r =? 101) || (r =? 69) then
        let '(sign, us'') := match us' with
                             | (s, b) :: us2 => if (s =? 43) || (s =? 45) then (b, us2) else (""%string, us')
                             | [] => (""%string, us')
                             end in
        match digits1 us'' with
        | Some (ds, rest) => Some ((bs ++ sign ++ ds)%string, rest)
        | None => None
        end
      else Some (""%string, us)
  | [] => Some (""%string, [])
  end.

Definition scan_number (us : stream) : option (string * stream) :=
  let '(sign, us) := match us with
                     | (r, bs) :: us' => if r =? 45 then (bs, us') else (""%string, us)
                     | [] => (""%string, us)
                     end in
  match scan_int us with
  | None => None
  | Some (i, us) =>
      match scan_frac us with
      | None => None
      | Some (f, us) =>
          match scan_exp us with
          | None => None
          | Some (e, us) => Some ((sign ++ i ++ f ++ e)%string, us)
          end
      end
  end.

Section containers.
Context (value : stream → option (json * stream)).

Fixpoint elements (n : nat) (us : stream) : option (list json * stream) :=
  match n with
  | O => None
  | S n' =>
      match value us with
      | None => None
      | Some (v, us1) =>
          match skip_ws us1 with
          | (r, _) :: us2 =>
              if r =? 93 then Some ([v], us2)
              else if r =? 44 then
                match elements n' us2 with Some (vs, rest) => Some (v :: vs, rest) | None => None end
              else None
          | [] => None
          end
      end
  end.

Fixpoint members (n : nat) (us : stream) : option (list (string * json) * stream) :=
  match n with
  | O => None
  | S n' =>
      match skip_ws us with
      | (q, _) :: us0 =>
          if negb (q =? 34) then None
          else match parse_string us0 with
          | None => None
          | Some (k, us1) =>
              match skip_ws us1 with
              | (c, _) :: us2 =>
                  if negb (c =? 58) then None
                  else match value us2 with
                  | None => None
                  | Some (v, us3) =>
                      match skip_ws us3 with
                      | (r, _) :: us4 =>
                          if r =? 125 then Some ([(k, v)], us4)
                          else if r =? 44 then
                            match members n' us4 with
                            | Some (kvs, rest) => Some ((k, v) :: kvs, rest)
                            | None => None
                            end
                          else None
                      | [] => None
                      end
                  end
              | [] => None
              end
          end
      | [] => None
      end
  end.
End containers.

(** One value; [depth] is how much deeper it may nest.  The loops over
    elements and members run at most once per rune left. *)
Fixpoint parse_value (depth : nat) (us : stream) : option (json * stream) :=
  match skip_ws us with
  | [] => None
  | (r, bs) :: us1 =>
      if r =? 34 then match parse_string us1 with Some (s, rest) => Some (JStr s, rest) | None => None end
      else if r =? 91 then
        match depth with
        | O => None
        | S d =>
            match skip_ws us1 with
            | (c, _) :: us2 =>
                if c =? 93 then Some (JArr [], us2)
                else match elements (parse_value d) (length us1) us1 with
                     | Some (l, rest) => Some (JArr l, rest)
                     | None => None
                     end
            | [] => None
            end
        end
      else if r =? 123 then
        match depth with
        | O => None
        | S d =>
            match skip_ws us1 with
            | (c, _) :: us2 =>
                if c =? 125 then Some (JObj [], us2)
                else match members (parse_value d) (length us1) us1 with
                     | Some (l, rest) => Some (JObj l, rest)
                     | None => None
                     end
            | [] => None
            end
        end
      else if r =? 110 then match eat [117; 108; 108] us1 with Some rest => Some (JNull, rest) | None => None end
      else if r =? 116 then match eat [114; 117; 101] us1 with Some rest => Some (JBool true, rest) | None => None end
      else if r =? 102 then
        match eat [97; 108; 115; 101] us1 with Some rest => Some (JBool false, rest) | None => None end
      else match scan_number ((r, bs) :: us1) with Some (lit, rest) => Some (JNum lit, rest) | None => None end
  end.

Definition maxNestingDepth : nat := 10000.

(** [json.Unmarshal]: one value and nothing but white space after it. *)
Definition parse (s : string) : option json :=
  match parse_value maxNestingDepth (units s) with
  | Some (v, rest) => match skip_ws rest with [] => Some v | _ => None end
  | None => None
  end.

(** [Decode] of a [json.Decoder]: the first value; what follows is not looked at. *)
Definition parse_first (s : string) : option json :=
  option_map fst (parse_value maxNestingDepth (units s)).

Example parse_demo :
  parse ("{ " ++ quote ++ "a" ++ quote ++ " : [1, -2.5e+3, true, null, " ++ quote ++ "\ud83d\ude00\n"
         ++ quote ++ "]}")
  = Some (JObj [("a"%string, JArr [JNum "1"; JNum "-2.5e+3"; JBool true; JNull;
                  JStr (encode_rune 128512 ++ String (chr 10) "")])]).
Proof. vm_compute. reflexivity. Qed.

(** ** Strings survive the round trip

    A string is [clean] when decoding it is not disturbed by what follows. *)

Definition clean (s : string) : Prop := ∀ t, units (s ++ t) = units s ++ units t.

Lemma clean_nil : clean "".
Proof. done. Qed.

Lemma clean_app s s' : clean s → clean s' → clean (s ++ s').
Proof. intros H H' t. rewrite string_app_assoc, H, H', H. by rewrite app_assoc. Qed.

Lemma clean_encode r : clean (encode_rune r).
Proof.
  intros t. assert (∃ r', valid_rune r' = true ∧ encode_rune r = encode_rune r') as (r' & Hv & ->).
  { destruct (valid_rune r) eqn:Hv; [by exists r|]. exists RuneError. split; [done|].
    unfold encode_rune. by rewrite Hv. }
  rewrite units_encode by done. rewrite <- (string_app_nil_r (encode_rune r')) at 2.
  by rewrite units_encode.
Qed.

Lemma ascii_units c t : byte c < 128 → units (String c t) = (byte c, String c "") :: units t.
Proof. intros Hc. cbn [units]. by destruct (Z.ltb_spec (byte c) 128); [|lia]. Qed.

Fixpoint ascii_only (s : string) : bool :=
  match s with EmptyString => true | String c s' => (byte c <? 128) && ascii_only s' end.

Lemma clean_ascii s : ascii_only s = true → clean s.
Proof.
  induction s as [|c s IH]; intros Hs t; [done|]. simpl in Hs. bool_to_prop.
  change (units (String c (s ++ t)) = units (String c s) ++ units t).
  rewrite !ascii_units by done. by rewrite IH.
Qed.

Lemma clean_cat l : Forall clean l → clean (cat l).
Proof. induction 1; [done|by apply clean_app]. Qed.

Lemma hex_digit_ascii d : 0 ≤ d < 16 → byte (hex_digit d) < 128 ∧ hexval (byte (hex_digit d)) = Some d.
Proof.
  intros Hd. unfold hex_digit. rewrite byte_chr by (destruct (Z.ltb_spec d 10); lia).
  unfold hexval. destruct (Z.ltb_spec d 10).
  - split; [lia|]. replace (_ && _) with true by (symmetry; apply andb_true_iff; lia). f_equal. lia.
  - split; [lia|]. replace (_ && _) with false by (symmetry; apply andb_false_iff; lia).
    replace (_ && _) with true by (symmetry; apply andb_true_iff; lia). f_equal. lia.
Qed.

(** A unit of a decoded string: a rune and its encoding, or one bad byte. *)
Definition unit_ok (u : Z * string) : Prop :=
  valid_rune u.1 = true ∧
  (encode_rune u.1 = u.2 ∨ (u.1 = RuneError ∧ String.length u.2 = 1%nat)).

Lemma units_ok s : Forall unit_ok (units s).
Proof.
  pose proof (units_valid s) as Hv.
  assert (Forall (λ u, encode_rune u.1 = u.2 ∨ (u.1 = RuneError ∧ String.length u.2 = 1%nat)) (units s)) as H.
  { clear Hv. induction s as [[|a s] IH] using units_ind; [constructor|].
    destruct (units_step a s) as (r & u & s' & -> & _ & Hl & Hr). constructor; [|by apply IH].
    destruct Hr as [?|[-> ->]]; [by left|by right]. }
  eapply Forall_impl; [apply Forall_and; split; [exact Hv|exact H]|]. done.
Qed.

Ltac closed_escape := split; [by apply clean_ascii|];
  eexists; split; [reflexivity|]; intros l; reflexivity.

Lemma escape_scan u rest :
  unit_ok u →
  clean (escape_unit u) ∧
  ∃ i, scan_string (units (escape_unit u) ++ rest) = cons_item i (scan_string rest) ∧
       ∀ l, merge (i :: l) = (encode_rune u.1 ++ merge l)%string.
Proof.
  destruct u as [r bs]. intros [Hv Hu]. simpl in Hv, Hu. apply valid_rune_iff in Hv.
  unfold escape_unit.
  destruct (Z.eqb_spec r 34) as [->|]; [closed_escape|].
  destruct (Z.eqb_spec r 92) as [->|]; [closed_escape|].
  destruct (Z.eqb_spec r 8) as [->|]; [closed_escape|].
  destruct (Z.eqb_spec r 12) as [->|]; [closed_escape|].
  destruct (Z.eqb_spec r 10) as [->|]; [closed_escape|].
  destruct (Z.eqb_spec r 13) as [->|]; [closed_escape|].
  destruct (Z.eqb_spec r 9) as [->|]; [closed_escape|].
  destruct ((r <? 32) || (r =? 60) || (r =? 62) || (r =? 38)) eqn:Hesc.
  { assert (0 ≤ r < 64) as Hr.
    { rewrite !orb_true_iff, Z.ltb_lt, !Z.eqb_eq in Hesc. lia. }
    destruct (hex_digit_ascii (r / 16)) as [Ha1 Hx1]; [Z.to_euclidean_division_equations; lia|].
    destruct (hex_digit_ascii (r mod 16)) as [Ha2 Hx2]; [Z.to_euclidean_division_equations; lia|].
    set (c1 := hex_digit (r / 16)) in *. set (c2 := hex_digit (r mod 16)) in *.
    assert (units ("\u00" ++ String c1 (String c2 "")) =
      [(92, "\"%string); (117, "u"%string); (48, "0"%string); (48, "0"%string);
       (byte c1, String c1 ""); (byte c2, String c2 "")]) as Hun.
    { change ("\u00" ++ String c1 (String c2 ""))%string
        with (String (chr 92) (String (chr 117) (String (chr 48) (String (chr 48) (String c1 (String c2 "")))))).
      rewrite !ascii_units by done. reflexivity. }
    split.
    - apply clean_ascii. change (ascii_only (String c1 (String c2 "")) = true). simpl.
      rewrite !andb_true_iff, !Z.ltb_lt. done.
    - exists (Esc r). split.
      + rewrite Hun. cbn [app scan_string]. simpl. unfold hex4. rewrite Hx1, Hx2. simpl.
        do 2 f_equal. Z.to_euclidean_division_equations; lia.
      + intros l. cbn [merge]. unfold is_surrogate.
        by replace (_ && _) with false by (symmetry; apply andb_false_iff; lia). }
  apply orb_false_iff in Hesc as [[[Hlt%Z.ltb_ge _]%orb_false_iff _]%orb_false_iff _].
  destruct ((r =? RuneError) && (String.length bs =? 1)%nat) eqn:Hbad.
  { apply andb_true_iff in Hbad as [->%Z.eqb_eq _]. closed_escape. }
  destruct ((r =? 8232) || (r =? 8233)) eqn:Hsep.
  { apply orb_true_iff in Hsep as [->%Z.eqb_eq| ->%Z.eqb_eq]; closed_escape. }
  destruct Hu as [<-|[-> Hl]].
  2: { apply andb_false_iff in Hbad as [?|Hb]; [done|]. by rewrite Hl in Hb. }
  split; [apply clean_encode|]. exists (Lit (encode_rune r)). split; [|done].
  pose proof (units_encode r "" ltac:(by apply valid_rune_iff)) as Hun.
  rewrite string_app_nil_r in Hun. rewrite Hun. cbn [app units scan_string].
  destruct (Z.eqb_spec r 34); [done|]. destruct (Z.eqb_spec r 92); [done|].
  by destruct (Z.ltb_spec r 32); [lia|].
Qed.

Lemma escape_all_scan us rest :
  Forall unit_ok us →
  clean (cat (map escape_unit us)) ∧
  ∃ l, scan_string (units (cat (map escape_unit us)) ++ (34, quote) :: rest) = Some (l, rest) ∧
       merge l = of_runes (map fst us).
Proof.
  induction 1 as [|u us Hu Hus (Hc & l & IH & Hm)]; [split; [done|by exists []]|].
  destruct (escape_scan u (units (cat (map escape_unit us)) ++ (34, quote) :: rest) Hu)
    as (Hcu & i & Hi & Him).
  simpl. split; [by apply clean_app|]. exists (i :: l). split.
  - rewrite Hcu, <- app_assoc, Hi, IH. done.
  - rewrite Him, Hm. done.
Qed.

Lemma clean_quote : clean quote.
Proof. by apply clean_ascii. Qed.

(** A string literal parses back to the string, its invalid bytes replaced. *)
Lemma jstring_round_trip s rest :
  clean (jstring s) ∧
  ∃ us, units (jstring s) ++ rest = (34, quote) :: us ∧
        parse_string us = Some (of_runes (runes s), rest).
Proof.
  destruct (escape_all_scan (units s) rest (units_ok s)) as (Hc & l & Hl & Hm).
  unfold jstring. split; [apply clean_app; [apply clean_quote|apply clean_app; [done|apply clean_quote]]|].
  exists (units (cat (map escape_unit (units s))) ++ (34, quote) :: rest). split.
  - rewrite clean_quote, Hc. rewrite <- !app_assoc. reflexivity.
  - unfold parse_string. rewrite Hl. by rewrite Hm.
Qed.

(** ** Values survive the round trip *)

Section json_induction.
Context (P : json → Prop) (Hnull : P JNull) (Hbool : ∀ b, P (JBool b)) (Hnum : ∀ l, P (JNum l))
  (Hstr : ∀ s, P (JStr s)) (Harr : ∀ l, Forall P l → P (JArr l))
  (Hobj : ∀ l, Forall (λ kv, P kv.2) l → P (JObj l)).

Fixpoint json_ind' (v : json) : P v :=
  match v with
  | JNull => Hnull
  | JBool b => Hbool b
  | JNum l => Hnum l
  | JStr s => Hstr s
  | JArr l => Harr l ((fix go l : Forall P l :=
      match l with [] => Forall_nil_2 _ | v :: l' => Forall_cons_2 _ _ _ (json_ind' v) (go l') end) l)
  | JObj l => Hobj l ((fix go l : Forall (λ kv, P kv.2) l :=
      match l with [] => Forall_nil_2 _ | kv :: l' => Forall_cons_2 _ _ _ (json_ind' kv.2) (go l') end) l)
  end.
End json_induction.

(** Numbers are 64-bit integers, as in all the gateway itself writes, and
    strings satisfy [P]. *)
Fixpoint json_all (P : string → Prop) (v : json) : Prop :=
  match v with
  | JNull | JBool _ => True
  | JNum lit => ∃ n, in_int64 n ∧ lit = FormatInt n
  | JStr s => P s
  | JArr l => foldr (λ v Q, json_all P v ∧ Q) True l
  | JObj l => foldr (λ kv Q, P kv.1 ∧ json_all P kv.2 ∧ Q) True l
  end.

Definition json_ok : json → Prop := json_all (λ s, valid_utf8 s = true).

Fixpoint height (v : json) : nat :=
  match v with
  | JArr l => S (foldr (λ v n, Nat.max (height v) n) 0 l)%nat
  | JObj l => S (foldr (λ kv n, Nat.max (height kv.2) n) 0 l)%nat
  | _ => 0%nat
  end.

(** What may follow a number without being read as part of it. *)
Definition delimited (rest : stream) : Prop :=
  match rest with
  | [] => True
  | (r, _) :: _ => is_digit r = false ∧ r ≠ 46 ∧ r ≠ 101 ∧ r ≠ 69
  end.

Fixpoint all_digits (s : string) : bool :=
  match s with EmptyString => true | String c s' => is_digit (byte c) && all_digits s' end.

Lemma all_digits_ascii s : all_digits s = true → ascii_only s = true.
Proof.
  induction s as [|c s IH]; [done|]. simpl. unfold is_digit. intros H. bool_to_prop.
  rewrite andb_true_iff, Z.ltb_lt. split; [lia|by apply IH].
Qed.

Lemma digits_loop_all fuel n acc :
  all_digits acc = true → all_digits (digits_loop fuel n acc) = true.
Proof.
  revert n acc. induction fuel as [|fuel IH]; intros n acc Ha; simpl; [done|].
  destruct (0 <? n); [|done]. apply IH. cbn [all_digits]. rewrite Ha, andb_true_r.
  pose proof (Z.mod_pos_bound n 10 ltac:(lia)). rewrite byte_chr by lia.
  unfold is_digit. apply andb_true_iff. lia.
Qed.

(** The leading digit of a positive number is not zero. *)
Lemma digits_loop_lead fuel n acc :
  0 < n < 10 ^ Z.of_nat fuel → ∃ c s, digits_loop fuel n acc = String c s ∧ 49 ≤ byte c ≤ 57.
Proof.
  revert n acc. induction fuel as [|fuel IH]; intros n acc Hn; [simpl in Hn; lia|].
  cbn [digits_loop]. destruct (Z.ltb_spec 0 n); [|lia].
  rewrite Nat2Z.inj_succ, Z.pow_succ_r in Hn by lia.
  pose proof (Z.mod_pos_bound n 10 ltac:(lia)).
  destruct (decide (0 < n / 10)) as [Hq|Hq].
  - apply IH. Z.to_euclidean_division_equations; lia.
  - assert (n / 10 = 0) as Hz by (Z.to_euclidean_division_equations; lia). rewrite Hz.
    replace (digits_loop fuel 0 _) with (String (chr (48 + n mod 10)) acc) by (by destruct fuel).
    eexists _, _. split; [done|]. rewrite byte_chr by lia. Z.to_euclidean_division_equations; lia.
Qed.

Lemma span_digits_all s rest :
  all_digits s = true → delimited rest → span_digits (units s ++ rest) = (s, rest).
Proof.
  intros Hs Hd. induction s as [|c s IH].
  - simpl. destruct rest as [|[r bs] rest]; [done|]. destruct Hd as [Hd _]. simpl. by rewrite Hd.
  - simpl in Hs. apply andb_true_iff in Hs as [Hc Hs].
    assert (byte c < 128) by (unfold is_digit in Hc; bool_to_prop; lia).
    rewrite ascii_units by done. cbn [app span_digits]. rewrite Hc, IH by done. done.
Qed.

Lemma scan_tail rest : delimited rest → scan_frac rest = Some (""%string, rest) ∧ scan_exp rest = Some (""%string, rest).
Proof.
  destruct rest as [|[r bs] rest]; [done|]. intros (_ & H1 & H2 & H3). simpl.
  destruct (Z.eqb_spec r 46), (Z.eqb_spec r 101), (Z.eqb_spec r 69); done.
Qed.

Lemma scan_magnitude n rest :
  0 < n ≤ 2 ^ 63 → delimited rest →
  scan_int (units (digits_loop 20 n "") ++ rest) = Some (digits_loop 20 n "", rest).
Proof.
  intros Hn Hd. destruct (digits_loop_lead 20 n "") as (c & s & He & Hc); [lia|].
  assert (all_digits (digits_loop 20 n "") = true) as Hall by by apply digits_loop_all.
  pose proof (span_digits_all _ rest Hall Hd) as Hsp. rewrite He in *.
  rewrite ascii_units in * by lia. cbn [app scan_int].
  destruct (Z.eqb_spec (byte c) 48); [lia|]. unfold digits1. cbn [app] in Hsp. by rewrite Hsp.
Qed.

Lemma FormatInt_scan n rest :
  in_int64 n → delimited rest →
  clean (FormatInt n) ∧ scan_number (units (FormatInt n) ++ rest) = Some (FormatInt n, rest).
Proof.
  intros [Hlo Hhi] Hd. unfold FormatInt, int64_min, int64_max in *.
  destruct (scan_tail rest Hd) as [Hf He].
  destruct (Z.eqb_spec n 0) as [->|Hz].
  { split; [by apply clean_ascii|]. unfold scan_number. simpl. by rewrite Hf, He. }
  pose proof (scan_magnitude (Z.abs n) rest ltac:(lia) Hd) as Hm.
  assert (ascii_only (digits_loop 20 (Z.abs n) "") = true) as Ha
    by (by apply all_digits_ascii, digits_loop_all).
  destruct (digits_loop_lead 20 (Z.abs n) "") as (c & s & Hs & Hc); [lia|].
  destruct (n <? 0).
  - change ("-" ++ digits_loop 20 (Z.abs n) "")%string with (String (chr 45) (digits_loop 20 (Z.abs n) "")).
    split; [apply clean_ascii; cbn [ascii_only]; by rewrite Ha|].
    rewrite ascii_units by done. unfold scan_number. cbn [app]. change (byte (chr 45) =? 45) with true.
    cbv iota beta. rewrite Hm, Hf, He. by rewrite !string_app_nil_r.
  - change ("" ++ digits_loop 20 (Z.abs n) "")%string with (digits_loop 20 (Z.abs n) "").
    split; [by apply clean_ascii|]. unfold scan_number. rewrite Hs in *.
    rewrite ascii_units in * by lia. cbn [app] in *. destruct (Z.eqb_spec (byte c) 45); [lia|].
    rewrite Hm, Hf, He. by rewrite !string_app_nil_r.
Qed.

(** The first rune of a value: no white space and no closing bracket. *)
Definition opens (us : stream) : Prop :=
  match us with
  | [] => False
  | (r, _) :: _ => skip_ws us = us ∧ r ≠ 93 ∧ r ≠ 125
  end.

Lemma opens_head r bs us :
  ((r =? 32) || (r =? 9) || (r =? 10) || (r =? 13)) = false → r ≠ 93 → r ≠ 125 → opens ((r, bs) :: us).
Proof. intros H ? ?. split; [|done]. simpl. by rewrite H. Qed.

Lemma FormatInt_opens n rest : in_int64 n → opens (units (FormatInt n) ++ rest) ∧
  ∃ r bs us, units (FormatInt n) = (r, bs) :: us ∧ (r = 45 ∨ 48 ≤ r ≤ 57).
Proof.
  intros [Hlo Hhi]. unfold FormatInt, int64_min, int64_max in *.
  destruct (Z.eqb_spec n 0) as [->|Hz]; [split; [by apply opens_head|do 3 eexists; split; [reflexivity|right; by vm_compute]]|].
  destruct (n <? 0).
  - change ("-" ++ digits_loop 20 (Z.abs n) "")%string with (String (chr 45) (digits_loop 20 (Z.abs n) "")).
    rewrite ascii_units by done. split; [by apply opens_head|]. do 3 eexists. split; [done|by left].
  - change ("" ++ digits_loop 20 (Z.abs n) "")%string with (digits_loop 20 (Z.abs n) "").
    destruct (digits_loop_lead 20 (Z.abs n) "") as (c & s & -> & Hc); [lia|].
    rewrite ascii_units by lia. split.
    + apply opens_head; [|lia..]. rewrite !orb_false_iff, !Z.eqb_neq. lia.
    + do 3 eexists. split; [done|lia].
Qed.

(** What the proof carries through the structure of a value. *)
Record reads (d : nat) (v : json) : Prop := {
  rd_clean : clean (marshal v);
  rd_opens rest : opens (units (marshal v) ++ rest);
  rd_parse rest : delimited rest → parse_value d (units (marshal v) ++ rest) = Some (v, rest)
}.

Lemma Join_cons s l sep : l ≠ [] → Join (s :: l) sep = (s ++ sep ++ Join l sep)%string.
Proof. by destruct l. Qed.

Lemma clean_comma : clean ",".
Proof. by apply clean_ascii. Qed.

Lemma elements_read d l n rest :
  l ≠ [] → Forall (reads d) l → (length l ≤ n)%nat →
  clean (Join (map marshal l) ",") ∧
  opens (units (Join (map marshal l) ",") ++ rest) ∧
  (length l ≤ length (units (Join (map marshal l) ",")))%nat ∧
  elements (parse_value d) n (units (Join (map marshal l) ",") ++ (93, "]"%string) :: rest) = Some (l, rest).
Proof.
  intros Hne Hl. revert n. induction Hl as [|v l Hv Hl IH]; intros n Hn; [done|].
  destruct n as [|n]; [simpl in Hn; lia|]. destruct Hv as [Hc Ho Hp].
  destruct (decide (l = [])) as [->|Hnel].
  - simpl. split_and!; [done|apply Ho| |].
    + pose proof (Ho []) as H. rewrite app_nil_r in H. destruct (units (marshal v)); [done|simpl; lia].
    + rewrite Hp by done. done.
  - destruct (IH Hnel n) as (Hcj & Hoj & Hlen & He); [simpl in Hn; lia|].
    change (map marshal (v :: l)) with (marshal v :: map marshal l).
    rewrite Join_cons by (by destruct l).
    assert (∀ t, units (marshal v ++ "," ++ Join (map marshal l) ",") ++ t =
      units (marshal v) ++ (44, ","%string) :: units (Join (map marshal l) ",") ++ t) as Hun.
    { intros t. rewrite Hc, clean_comma. rewrite <- !app_assoc. done. }
    split_and!.
    + apply clean_app; [done|]. apply clean_app; [apply clean_comma|done].
    + rewrite Hun. apply Ho.
    + specialize (Hun []). rewrite !app_nil_r in Hun. rewrite Hun, length_app. simpl. lia.
    + rewrite Hun. cbn [elements]. rewrite Hp by done. simpl. by rewrite He.
Qed.

Lemma valid_of_runes s : valid_utf8 s = true → of_runes (runes s) = s.
Proof. apply of_runes_valid. Qed.

Definition member (kv : string * json) : string := jstring kv.1 ++ ":" ++ marshal kv.2.

Lemma clean_colon : clean ":".
Proof. by apply clean_ascii. Qed.

(** A key, its colon and its value. *)
Lemma member_read d kv rest :
  valid_utf8 kv.1 = true → reads d kv.2 →
  clean (member kv) ∧
  ∃ us0 us1, units (member kv) ++ rest = (34, quote) :: us0 ∧
    parse_string us0 = Some (kv.1, (58, ":"%string) :: us1) ∧
    (delimited rest → parse_value d us1 = Some (kv.2, rest)).
Proof.
  destruct kv as [k v]. cbn [fst snd]. intros Hk [Hc _ Hp]. unfold member. cbn [fst snd].
  destruct (jstring_round_trip k ((58, ":"%string) :: units (marshal v) ++ rest)) as (Hcs & us & Hus & Hps).
  split; [apply clean_app; [done|]; by apply clean_app; [apply clean_colon|]|].
  exists us, (units (marshal v) ++ rest). split_and!.
  - rewrite Hcs, clean_colon. rewrite <- Hus, <- !app_assoc. done.
  - by rewrite valid_of_runes in Hps.
  - apply Hp.
Qed.

Lemma members_read d l n rest :
  l ≠ [] → Forall (λ kv, valid_utf8 kv.1 = true ∧ reads d kv.2) l → (length l ≤ n)%nat →
  clean (Join (map member l) ",") ∧
  opens (units (Join (map member l) ",") ++ rest) ∧
  (length l ≤ length (units (Join (map member l) ",")))%nat ∧
  members (parse_value d) n (units (Join (map member l) ",") ++ (125, "}"%string) :: rest) = Some (l, rest).
Proof.
  intros Hne Hl. revert n. induction Hl as [|kv l [Hk Hv] Hl IH]; intros n Hn; [done|].
  destruct n as [|n]; [simpl in Hn; lia|].
  destruct (decide (l = [])) as [->|Hnel].
  - destruct (member_read d kv ((125, "}"%string) :: rest) Hk Hv) as (Hc & us0 & us1 & Hu & Hs & Hp).
    destruct (member_read d kv rest Hk Hv) as (_ & us0' & us1' & Hu' & _).
    change (Join (map member [kv]) ",") with (member kv). split; [done|]. split; [|split].
    + rewrite Hu'. by apply opens_head.
    + destruct (units (member kv)) as [|[? ?] ?] eqn:Hm; [|simpl; lia].
      destruct (member_read d kv [] Hk Hv) as (_ & ? & ? & Hbad & _). by rewrite Hm in Hbad.
    + rewrite Hu. simpl. rewrite Hs. simpl. rewrite Hp by done. simpl. by destruct kv.
  - destruct (IH Hnel n) as (Hcj & Hoj & Hlen & He); [simpl in Hn; lia|].
    change (map member (kv :: l)) with (member kv :: map member l).
    rewrite Join_cons by (by destruct l).
    destruct (member_read d kv ((44, ","%string) :: units (Join (map member l) ",") ++ (125, "}"%string) :: rest)
      Hk Hv) as (Hc & us0 & us1 & Hu & Hs & Hp).
    assert (∀ t, units (member kv ++ "," ++ Join (map member l) ",") ++ t =
      units (member kv) ++ (44, ","%string) :: units (Join (map member l) ",") ++ t) as Hun.
    { intros t. rewrite Hc, clean_comma. rewrite <- !app_assoc. done. }
    split_and!.
    + apply clean_app; [done|]. apply clean_app; [apply clean_comma|done].
    + rewrite Hun. destruct (member_read d kv ((44, ","%string) :: units (Join (map member l) ",") ++ rest)
        Hk Hv) as (_ & ? & ? & -> & _). by apply opens_head.
    + specialize (Hun []). rewrite !app_nil_r in Hun. rewrite Hun, length_app. simpl. lia.
    + rewrite Hun, Hu. simpl. rewrite Hs. simpl. rewrite Hp by done. simpl. rewrite He. by destruct kv.
Qed.

Lemma json_all_arr P l : json_all P (JArr l) ↔ Forall (json_all P) l.
Proof. simpl. induction l as [|v l IH]; simpl; [done|]. rewrite Forall_cons. naive_solver. Qed.

Lemma json_all_obj P l : json_all P (JObj l) ↔ Forall (λ kv, P kv.1 ∧ json_all P kv.2) l.
Proof. simpl. induction l as [|v l IH]; simpl; [done|]. rewrite Forall_cons. naive_solver. Qed.

Lemma height_arr l d : (height (JArr l) ≤ S d)%nat ↔ Forall (λ v, (height v ≤ d)%nat) l.
Proof.
  simpl. induction l as [|v l IH]; simpl; [split; [constructor|lia]|].
  rewrite Forall_cons. split; [intros H; split; [lia|apply IH; lia]|intros [? ?%IH]; lia].
Qed.

Lemma height_obj l d : (height (JObj l) ≤ S d)%nat ↔ Forall (λ kv, (height kv.2 ≤ d)%nat) l.
Proof.
  simpl. induction l as [|v l IH]; simpl; [split; [constructor|lia]|].
  rewrite Forall_cons. split; [intros H; split; [lia|apply IH; lia]|intros [? ?%IH]; lia].
Qed.

Lemma reads_word s v d :
  marshal v = s → ascii_only s = true → (∀ rest, opens (units s ++ rest)) →
  (∀ rest, parse_value d (units s ++ rest) = Some (v, rest)) → reads d v.
Proof. intros <- Ha Ho Hp. split; [by apply clean_ascii|done|by intros rest _]. Qed.

Lemma opens_skip us : opens us → skip_ws us = us.
Proof. destruct us as [|[r bs] us]; [done|by intros []]. Qed.

(** Go's bracketed forms, given their contents. *)
Lemma bracketed_units (open close : Ascii.ascii) s rest :
  byte open < 128 → byte close < 128 → clean s →
  clean (String open "" ++ s ++ String close "") ∧
  units (String open "" ++ s ++ String close "") ++ rest =
    (byte open, String open "") :: units s ++ (byte close, String close "") :: rest.
Proof.
  intros Ho Hc Hs. assert (clean (String open "") ∧ clean (String close "")) as [H1 H2].
  { split; apply clean_ascii; simpl; rewrite andb_true_r; by apply Z.ltb_lt. }
  split; [apply clean_app; [done|by apply clean_app]|].
  rewrite H1, Hs. rewrite !ascii_units by done. cbn [units app]. by rewrite <- app_assoc.
Qed.

Lemma reads_arr d l : Forall (reads d) l → reads (S d) (JArr l).
Proof.
  intros Hl. destruct (decide (l = [])) as [->|Hne].
  { apply (reads_word "[]"); [done|done|intros; by apply opens_head|done]. }
  pose proof (λ n rest Hn, elements_read d l n rest Hne Hl Hn) as HE.
  destruct (HE (length l) [] ltac:(lia)) as (Hc & _ & Hlen & _).
  pose proof (λ rest : stream, bracketed_units (chr 91) (chr 93) _ rest eq_refl eq_refl Hc) as HB.
  set (J := Join (map marshal l) ",") in *.
  assert (marshal (JArr l) = String (chr 91) "" ++ J ++ String (chr 93) "")%string as HJ by done.
  split; rewrite HJ.
  - apply (HB []).
  - intros rest. rewrite (proj2 (HB rest)). by apply opens_head.
  - intros rest _. rewrite (proj2 (HB rest)). change (byte (chr 91)) with 91. change (byte (chr 93)) with 93.
    cbn [parse_value skip_ws]. simpl.
    set (us1 := units J ++ (93, "]"%string) :: rest).
    destruct (HE (length us1) rest) as (_ & _ & _ & He); [unfold us1; rewrite length_app; lia|].
    destruct (HE (length l) ((93, "]"%string) :: rest) ltac:(lia)) as (_ & Ho & _). fold us1 in He, Ho.
    change (units J ++ (93, String (chr 93) "") :: rest) with us1.
    rewrite (opens_skip _ Ho). destruct us1 as [|[c bs] us2] eqn:Hus; [done|].
    destruct Ho as (_ & Hc1 & _). destruct (Z.eqb_spec c 93); [done|]. by rewrite He.
Qed.

Lemma reads_obj d l :
  Forall (λ kv, valid_utf8 kv.1 = true ∧ reads d kv.2) l → reads (S d) (JObj l).
Proof.
  intros Hl. destruct (decide (l = [])) as [->|Hne].
  { apply (reads_word "{}"); [done|done|intros; by apply opens_head|done]. }
  pose proof (λ n rest Hn, members_read d l n rest Hne Hl Hn) as HE.
  destruct (HE (length l) [] ltac:(lia)) as (Hc & _ & Hlen & _).
  pose proof (λ rest : stream, bracketed_units (chr 123) (chr 125) _ rest eq_refl eq_refl Hc) as HB.
  set (J := Join (map member l) ",") in *.
  assert (marshal (JObj l) = String (chr 123) "" ++ J ++ String (chr 125) "")%string as HJ by done.
  split; rewrite HJ.
  - apply (HB []).
  - intros rest. rewrite (proj2 (HB rest)). by apply opens_head.
  - intros rest _. rewrite (proj2 (HB rest)). change (byte (chr 123)) with 123. change (byte (chr 125)) with 125.
    cbn [parse_value skip_ws]. simpl.
    set (us1 := units J ++ (125, "}"%string) :: rest).
    destruct (HE (length us1) rest) as (_ & _ & _ & He); [unfold us1; rewrite length_app; lia|].
    destruct (HE (length l) ((125, "}"%string) :: rest) ltac:(lia)) as (_ & Ho & _). fold us1 in He, Ho.
    change (units J ++ (125, String (chr 125) "") :: rest) with us1.
    rewrite (opens_skip _ Ho). destruct us1 as [|[c bs] us2] eqn:Hus; [done|].
    destruct Ho as (_ & _ & Hc1). destruct (Z.eqb_spec c 125); [done|]. by rewrite He.
Qed.

Lemma reads_num d n : in_int64 n → reads d (JNum (FormatInt n)).
Proof.
  intros Hn. destruct (FormatInt_opens n [] Hn) as (_ & r & bs & us & Hu & Hr).
  split; cbn [marshal].
  - by apply (FormatInt_scan n []).
  - intros rest. by apply FormatInt_opens.
  - intros rest Hd. pose proof (proj2 (FormatInt_scan n rest Hn Hd)) as Hs.
    pose proof (opens_skip _ (proj1 (FormatInt_opens n rest Hn))) as Hk. rewrite Hu in *.
    cbn [app] in *. assert (∀ k, k ≠ 45 → ¬ 48 ≤ k ≤ 57 → (r =? k) = false) as Hne.
    { intros k ? ?. apply Z.eqb_neq. lia. }
    destruct d; cbn [parse_value]; rewrite Hk, !Hne by lia; by rewrite Hs.
Qed.

Lemma reads_str d s : valid_utf8 s = true → reads d (JStr s).
Proof.
  intros Hs. pose proof (λ rest, jstring_round_trip s rest) as Hj.
  split; cbn [marshal].
  - apply (Hj []).
  - intros rest. destruct (Hj rest) as (_ & us & -> & _). by apply opens_head.
  - intros rest _. destruct (Hj rest) as (_ & us & -> & Hp). rewrite of_runes_valid in Hp by done.
    destruct d; cbn [parse_value skip_ws]; simpl; by rewrite Hp.
Qed.

Lemma marshal_reads v d : json_ok v → (height v ≤ d)%nat → reads d v.
Proof.
  revert d. induction v as [|b|lit|s|l IH|l IH] using json_ind'; intros d Hok Hh.
  - apply (reads_word "null"); [done|done|intros; by apply opens_head|by destruct d].
  - apply (reads_word (if b then "true" else "false")); [done|by destruct b| |].
    + intros. destruct b; by apply opens_head.
    + by destruct b, d.
  - destruct Hok as (n & Hn & ->). by apply reads_num.
  - by apply reads_str.
  - destruct d as [|d]; [simpl in Hh; lia|]. apply json_all_arr in Hok. apply height_arr in Hh.
    apply reads_arr. rewrite Forall_forall in *. naive_solver.
  - destruct d as [|d]; [simpl in Hh; lia|]. apply json_all_obj in Hok. apply height_obj in Hh.
    apply reads_obj. rewrite Forall_forall in *. intros kv Hkv. destruct (Hok _ Hkv). eauto.
Qed.

Lemma shallow n : (n ≤ 100)%nat → (n ≤ maxNestingDepth)%nat.
Proof. intros Hn. transitivity 100%nat; [done|]. apply Nat.leb_le. vm_compute. reflexivity. Qed.

(** Whatever the gateway marshals, a JSON client reads back unchanged. *)
Lemma parse_marshal v : json_ok v → (height v ≤ maxNestingDepth)%nat → parse (marshal v) = Some v.
Proof.
  intros Hok Hh. pose proof (rd_parse _ _ (marshal_reads v _ Hok Hh) [] I) as Hp.
  rewrite app_nil_r in Hp. unfold parse. by rewrite Hp.
Qed.

(** ** No raw newline *)

Fixpoint one_line (s : string) : bool :=
  match s with
  | EmptyString => true
  | String c s' => negb (byte c =? 10) && negb (byte c =? 13) && one_line s'
  end.

Lemma one_line_app s s' : one_line (s ++ s') = one_line s && one_line s'.
Proof.
  induction s as [|c s IH]; [done|].
  change (one_line (String c (s ++ s')) = one_line (String c s) && one_line s').
  cbn [one_line]. rewrite IH. by rewrite <- !andb_assoc.
Qed.

Lemma one_line_cat l : Forall (λ s, one_line s = true) l → one_line (cat l) = true.
Proof. induction 1 as [|s l H _ IH]; [done|]. simpl. by rewrite one_line_app, H, IH. Qed.

Lemma one_line_Join l sep :
  one_line sep = true → Forall (λ s, one_line s = true) l → one_line (Join l sep) = true.
Proof.
  intros Hsep. induction 1 as [|s l H Hl IH]; [done|]. destruct l as [|s' l]; [done|].
  rewrite Join_cons by done. by rewrite !one_line_app, H, Hsep, IH.
Qed.

Lemma one_line_bytes l : Forall (λ z, 14 ≤ z < 256) l → one_line (bytes_of l) = true.
Proof.
  induction 1 as [|z l Hz _ IH]; [done|]. unfold bytes_of in *. cbn [foldr one_line].
  rewrite byte_chr by lia. destruct (Z.eqb_spec z 10), (Z.eqb_spec z 13); try lia. exact IH.
Qed.

Lemma one_line_encode r : 14 ≤ r → valid_rune r = true → one_line (encode_rune r) = true.
Proof.
  intros Hr Hv. unfold encode_rune. rewrite Hv. apply valid_rune_iff in Hv.
  apply one_line_bytes. assert (∀ b, 0 ≤ b mod 64 < 64) as Hm by (intros; apply Z.mod_pos_bound; lia).
  pose proof (Hm r). pose proof (Hm (r / 64)). pose proof (Hm (r / 4096)).
  repeat case_match; bool_to_prop; repeat constructor; Z.to_euclidean_division_equations; lia.
Qed.

Lemma one_line_escape u : unit_ok u → one_line (escape_unit u) = true.
Proof.
  destruct u as [r bs]. intros [Hv Hu]. simpl in Hv, Hu.
  assert (∀ d, 0 ≤ d < 16 → one_line (String (hex_digit d) "") = true) as Hd.
  { intros d Hd. unfold hex_digit. cbn [one_line].
    rewrite byte_chr by (destruct (Z.ltb_spec d 10); lia).
    destruct (Z.ltb_spec d 10), (Z.eqb_spec (48 + d) 10), (Z.eqb_spec (48 + d) 13),
      (Z.eqb_spec (87 + d) 10), (Z.eqb_spec (87 + d) 13); try lia; done. }
  assert (∀ d d', 0 ≤ d < 16 → 0 ≤ d' < 16 → one_line (String (hex_digit d) (String (hex_digit d') "")) = true) as Hdd.
  { intros d d' H1 H2. change (one_line (String (hex_digit d) "" ++ String (hex_digit d') "") = true).
    by rewrite one_line_app, !Hd. }
  unfold escape_unit. pose proof (Z.mod_pos_bound r 16 ltac:(lia)).
  apply valid_rune_iff in Hv as Hr.
  repeat (case_match; [by subst|]).
  destruct ((r <? 32) || (r =? 60) || (r =? 62) || (r =? 38)) eqn:He.
  { rewrite one_line_app. apply Hdd; [|done]. rewrite !orb_true_iff, Z.ltb_lt, !Z.eqb_eq in He.
    Z.to_euclidean_division_equations; lia. }
  destruct ((r =? RuneError) && _) eqn:Hb; [done|].
  destruct ((r =? 8232) || (r =? 8233)); [rewrite one_line_app; by apply Hd|].
  rewrite !orb_false_iff, Z.ltb_ge in He.
  destruct Hu as [<-|[-> Hl]]; [apply one_line_encode; [lia|done]|].
  by rewrite Hl in Hb.
Qed.

Lemma one_line_jstring s : one_line (jstring s) = true.
Proof.
  unfold jstring. rewrite !one_line_app. cbn [one_line quote].
  rewrite one_line_cat; [done|]. apply Forall_map. eapply Forall_impl; [apply units_ok|].
  intros u. apply one_line_escape.
Qed.

Lemma one_line_FormatInt n : one_line (FormatInt n) = true.
Proof.
  unfold FormatInt. destruct (n =? 0); [done|]. rewrite one_line_app. apply andb_true_iff.
  split; [by destruct (n <? 0)|]. generalize (digits_loop_all 20 (Z.abs n) "" eq_refl).
  generalize (digits_loop 20 (Z.abs n) ""). intros s. induction s as [|c s IH]; [done|].
  cbn [all_digits one_line]. unfold is_digit. intros H. bool_to_prop.
  destruct (Z.eqb_spec (byte c) 10), (Z.eqb_spec (byte c) 13); try lia. by apply IH.
Qed.

(** A marshalled value is one line, whatever its strings hold. *)
Lemma marshal_one_line v : json_all (λ _, True) v → one_line (marshal v) = true.
Proof.
  induction v as [|b|lit|s|l IH|l IH] using json_ind'; intros Hok; cbn [marshal].
  - done.
  - by destruct b.
  - destruct Hok as (n & _ & ->). apply one_line_FormatInt.
  - apply one_line_jstring.
  - apply json_all_arr in Hok. rewrite !one_line_app. simpl. rewrite one_line_Join; [done|done|].
    apply Forall_map. rewrite Forall_forall in *. naive_solver.
  - apply json_all_obj in Hok. rewrite !one_line_app. simpl. rewrite one_line_Join; [done|done|].
    apply Forall_map. rewrite Forall_forall in *. intros kv Hkv. destruct (Hok _ Hkv).
    cbv beta. rewrite !one_line_app, one_line_jstring. simpl. by apply IH.
Qed.
