(* ===== verification/Float32.v ===== *)
(** * float32 and float64

    Go's floating-point numbers are IEEE 754 binary32 and binary64 with
    round-to-nearest-even; the Standard Library's [SpecFloat] computes them
    exactly.  Products and sums are rounded separately: the compiler's licence to
    fuse them is not used on amd64, the gateway's platform.  A NaN has no
    payload here. *)

From Stdlib Require Import Ascii.
From Stdlib Require Export SpecFloat.
From S2P Require Import Prelude.

Abbreviation float32 := spec_float.
Abbreviation float64 := spec_float.

Definition f32_add : float32 → float32 → float32 := SFadd 24 128.
Definition f32_mul : float32 → float32 → float32 := SFmul 24 128.
Definition f32_of_Z (n : Z) : float32 := binary_normalize 24 128 n 0 false.
Definition f32_zero : float32 := S754_zero false.

Definition f64_add : float64 → float64 → float64 := SFadd 53 1024.
Definition f64_mul : float64 → float64 → float64 := SFmul 53 1024.
Definition f64_div : float64 → float64 → float64 := SFdiv 53 1024.
Definition f64_sqrt : float64 → float64 := SFsqrt 53 1024.
Definition f64_of_Z (n : Z) : float64 := binary_normalize 53 1024 n 0 false.

(** [float64(x)], exact, and [float32(x)], rounding. *)
Definition f32_to_f64 (x : float32) : float64 :=
  match x with S754_finite s m e => binary_round 53 1024 s m e | _ => x end.
Definition f64_to_f32 (x : float64) : float32 :=
  match x with S754_finite s m e => binary_round 24 128 s m e | _ => x end.

(** [x < y], false when either is NaN. *)
Definition f_ltb : spec_float → spec_float → bool := SFltb.
(** [x >= y] *)
Definition f_geb (x y : spec_float) : bool := SFleb y x.

Definition valid32 (x : float32) : bool := valid_binary 24 128 x.

(** ** Order *)

Ltac float_compare :=
  repeat match goal with
  | H : context [match ?a ?= ?b with _ => _ end] |- _ => destruct (Z.compare_spec a b)
  | H : context [PosDef.Pos.compare_cont Eq ?a ?b] |- _ =>
      change (PosDef.Pos.compare_cont Eq a b) with (Pos.compare a b) in H
  | H : context [Pos.compare ?a ?b] |- _ => destruct (Pos.compare_spec a b)
  | |- context [match ?a ?= ?b with _ => _ end] => destruct (Z.compare_spec a b)
  | |- context [PosDef.Pos.compare_cont Eq ?a ?b] =>
      change (PosDef.Pos.compare_cont Eq a b) with (Pos.compare a b)
  | |- context [Pos.compare ?a ?b] => destruct (Pos.compare_spec a b)
  end.

Lemma f_ltb_trans x y z : f_ltb x y = true → f_ltb y z = true → f_ltb x z = true.
Proof.
  unfold f_ltb, SFltb. intros H1 H2.
  destruct x as [sx|sx| |sx mx ex], y as [sy|sy| |sy my ey], z as [sz|sz| |sz mz ez];
    cbn [SFcompare] in *; try done; try (destruct sx; done); try (destruct sy; done);
    try (destruct sz; done); try (destruct sx, sy; done); try (destruct sy, sz; done);
    try (destruct sx, sz; done); try (destruct sx, sy, sz; done).
  destruct sx, sy, sz; try done; float_compare; simpl in *; try done; lia.
Qed.

Lemma f_ltb_irrefl x : f_ltb x x = false.
Proof.
  unfold f_ltb, SFltb. destruct x as [s|s| |s m e]; simpl; [done|by destruct s|done|].
  destruct s; float_compare; simpl; try done; lia.
Qed.

(** ** Bit patterns *)

Definition f32_bits (x : float32) : Z :=
  match x with
  | S754_zero s => if s then 2 ^ 31 else 0
  | S754_infinity s => (if s then 2 ^ 31 else 0) + 255 * 2 ^ 23
  | S754_nan => 255 * 2 ^ 23 + 2 ^ 22
  | S754_finite s m e =>
      (if s then 2 ^ 31 else 0)
      + (if Zpos m <? 2 ^ 23 then Zpos m else (e + 150) * 2 ^ 23 + (Zpos m - 2 ^ 23))
  end.

Definition f32_frombits (b : Z) : float32 :=
  let s := 2 ^ 31 <=? b in
  let exp := b / 2 ^ 23 mod 256 in
  let frac := b mod 2 ^ 23 in
  if exp =? 255 then (if frac =? 0 then S754_infinity s else S754_nan)
  else if exp =? 0 then (match frac with Zpos m => S754_finite s m (-149) | _ => S754_zero s end)
  else S754_finite s (Z.to_pos (2 ^ 23 + frac)) (exp - 150).

Lemma digits2_pos_bounds m :
  2 ^ (Zpos (digits2_pos m) - 1) ≤ Zpos m < 2 ^ Zpos (digits2_pos m).
Proof.
  induction m as [m IH|m IH|]; cbn [digits2_pos]; [| |simpl; lia];
    rewrite Pos2Z.inj_succ; rewrite (Z.pow_succ_r 2 (Zpos _)) by lia;
    replace (Z.succ (Zpos (digits2_pos m)) - 1) with (Z.succ (Zpos (digits2_pos m) - 1)) by lia;
    rewrite Z.pow_succ_r by lia; lia.
Qed.

(** A canonical finite binary32: a normal has a 24-bit significand, a
    subnormal the least exponent. *)
Lemma valid32_finite s m e :
  valid32 (S754_finite s m e) = true →
  Zpos m < 2 ^ 24 ∧ -149 ≤ e ≤ 104 ∧ (Zpos m < 2 ^ 23 → e = -149).
Proof.
  unfold valid32, valid_binary, bounded, canonical_mantissa, fexp, emin. intros H. bool_to_prop.
  pose proof (digits2_pos_bounds m) as [Hlo Hhi]. set (d := Zpos (digits2_pos m)) in *.
  assert (d ≤ 24) as Hd by lia. split_and!; [|lia|lia|].
  - eapply Z.lt_le_trans; [exact Hhi|]. apply Z.pow_le_mono_r; lia.
  - intros Hm. destruct (decide (d = 24)) as [Hd24|]; [|lia].
    rewrite Hd24 in Hlo. change (24 - 1) with 23 in Hlo. lia.
Qed.

Lemma f32_bits_range x : valid32 x = true → 0 ≤ f32_bits x < 2 ^ 32.
Proof.
  destruct x as [s|s| |s m e]; intros Hv; simpl f32_bits; try (destruct s; lia); [lia|].
  apply valid32_finite in Hv. destruct (Z.ltb_spec (Zpos m) (2 ^ 23)), s; lia.
Qed.

(** [Float32frombits] undoes [Float32bits]. *)
Lemma f32_frombits_bits x : valid32 x = true → f32_frombits (f32_bits x) = x.
Proof.
  destruct x as [s|s| |s m e]; intros Hv; [by destruct s|by destruct s|done|].
  apply valid32_finite in Hv as (Hm & He & Hsub).
  set (hi := if s then 1 else 0).
  assert (∃ ex fr, f32_bits (S754_finite s m e) = hi * 2 ^ 31 + ex * 2 ^ 23 + fr ∧
    0 ≤ ex < 255 ∧ 0 ≤ fr < 2 ^ 23 ∧
    ((ex = 0 ∧ fr = Zpos m ∧ e = -149) ∨ (0 < ex ∧ fr = Zpos m - 2 ^ 23 ∧ ex = e + 150)))
    as (ex & fr & Hb & Hex & Hfr & Hcase).
  { simpl f32_bits. destruct (Z.ltb_spec (Zpos m) (2 ^ 23)).
    - exists 0, (Zpos m). subst hi. destruct s; lia.
    - exists (e + 150), (Zpos m - 2 ^ 23). subst hi. destruct s; lia. }
  rewrite Hb. unfold f32_frombits.
  assert ((2 ^ 31 <=? hi * 2 ^ 31 + ex * 2 ^ 23 + fr) = s) as ->.
  { subst hi. destruct s; [apply Z.leb_le|apply Z.leb_gt]; lia. }
  assert ((hi * 2 ^ 31 + ex * 2 ^ 23 + fr) mod 2 ^ 23 = fr) as ->.
  { subst hi. Z.to_euclidean_division_equations; lia. }
  assert ((hi * 2 ^ 31 + ex * 2 ^ 23 + fr) / 2 ^ 23 = hi * 256 + ex) as ->.
  { subst hi. Z.to_euclidean_division_equations; lia. }
  assert ((hi * 256 + ex) mod 256 = ex) as ->.
  { subst hi. destruct s; Z.to_euclidean_division_equations; lia. }
  destruct (Z.eqb_spec ex 255); [lia|].
  destruct Hcase as [(-> & -> & ->)|(Hpos & -> & ->)]; [done|].
  destruct (Z.eqb_spec (e + 150) 0); [lia|].
  replace (2 ^ 23 + (Zpos m - 2 ^ 23)) with (Zpos m) by lia. simpl. f_equal. lia.
Qed.

Lemma f32_bits_inj x y :
  valid32 x = true → valid32 y = true → f32_bits x = f32_bits y → x = y.
Proof.
  intros Hx Hy H. by rewrite <- (f32_frombits_bits x Hx), <- (f32_frombits_bits y Hy), H.
Qed.

(** ** Decimal literals

    [strconv.ParseFloat] rounds the exact value of the literal once.  The
    quotient below keeps more bits than the significand, and its last bit
    records whether anything was cut off. *)
Definition sf_of_ratio (prec emax : Z) (neg : bool) (n d : Z) : spec_float :=
  if n =? 0 then S754_zero neg
  else
    let k := Z.max 0 (prec + 3 + Z.log2 d - Z.log2 n) in
    let q := n * 2 ^ k / d in
    let sticky := if n * 2 ^ k mod d =? 0 then 0 else 1 in
    binary_round prec emax neg (Z.to_pos (2 * q + sticky)) (- (k + 1)).

Definition digit_of (c : Ascii.ascii) : option Z :=
  let b := Z.of_N (Ascii.N_of_ascii c) in if (48 <=? b) && (b <=? 57) then Some (b - 48) else None.

(** The digits at the head: their value after [acc], how many, and the rest. *)
Fixpoint span_value (s : string) (acc count : Z) : Z * Z * string :=
  match s with
  | String c s' => match digit_of c with
                   | Some d => span_value s' (acc * 10 + d) (count + 1)
                   | None => (acc, count, s)
                   end
  | EmptyString => (acc, count, s)
  end.

Definition signed_head (s : string) : bool * string :=
  match s with
  | String c s' => if Ascii.eqb c "-"%char then (true, s') else if Ascii.eqb c "+"%char then (false, s') else (false, s)
  | EmptyString => (false, s)
  end.

(** Sign, significand and power of ten of a decimal literal. *)
Definition decimal_of (lit : string) : bool * Z * Z :=
  let '(neg, s) := signed_head lit in
  let '(m, _, s) := span_value s 0 0 in
  let '(m, places, s) :=
    match s with
    | String c s' => if Ascii.eqb c "."%char then span_value s' m 0 else (m, 0, s)
    | EmptyString => (m, 0, s)
    end in
  let e := match s with
           | String c s' =>
               if Ascii.eqb c "e"%char || Ascii.eqb c "E"%char
               then let '(eneg, s'') := signed_head s' in
                    let '(e, _, _) := span_value s'' 0 0 in if eneg then - e else e
               else 0
           | EmptyString => 0
           end in
  (neg, m, e - places).

(** [None] is the range error of a literal beyond the largest number. *)
Definition parse_float (prec emax : Z) (lit : string) : option spec_float :=
  let '(neg, m, e) := decimal_of lit in
  let x := if 0 <=? e then sf_of_ratio prec emax neg (m * 10 ^ e) 1
           else sf_of_ratio prec emax neg m (10 ^ (- e)) in
  match x with S754_infinity _ => None | _ => Some x end.

Definition ParseFloat32 : string → option float32 := parse_float 24 128.
Definition ParseFloat64 : string → option float64 := parse_float 53 1024.

Example parse_float_demo :
  f32_bits <$> ParseFloat32 "0.7" = Some 1060320051 ∧ ParseFloat32 "1e39" = None ∧
  f32_bits <$> ParseFloat32 "-16777217" = Some 3414163456 ∧
  ParseFloat64 "4.5" = Some (S754_finite false 5066549580791808 (-50)) ∧
  f32_bits <$> ParseFloat32 "1.5e-45" = Some 1.
Proof. vm_compute. split_and!; reflexivity. Qed.

(** Rounding a positive significand never makes a NaN. *)
Lemma shr_1_nonneg r : 0 ≤ shr_m r → 0 ≤ shr_m (shr_1 r).
Proof. destruct r as [[|p|p] ? ?]; simpl; try done; destruct p; simpl; lia. Qed.

Lemma shr_nonneg r e n : 0 ≤ shr_m r → 0 ≤ shr_m (shr r e n).1.
Proof.
  intros Hr. destruct n as [|p|p]; simpl; try done.
  revert r Hr. induction p as [p IH|p IH|]; intros r Hr; cbn [iter_pos]; [| |by apply shr_1_nonneg].
  - by apply IH, IH, shr_1_nonneg.
  - by apply IH, IH.
Qed.

Lemma shr_fexp_nonneg prec emax m e l : 0 ≤ m → 0 ≤ shr_m (shr_fexp prec emax m e l).1.
Proof. intros Hm. unfold shr_fexp. apply shr_nonneg. destruct l as [|[]]; done. Qed.

Lemma binary_round_not_nan prec emax s m e : binary_round prec emax s m e ≠ S754_nan.
Proof.
  unfold binary_round. destruct (shl_align m e _) as [m' e'].
  unfold binary_round_aux. pose proof (shr_fexp_nonneg prec emax (Zpos m') e' loc_Exact ltac:(lia)) as H1.
  destruct (shr_fexp prec emax (Zpos m') e' loc_Exact) as [r1 e1]. simpl in H1.
  assert (0 ≤ round_nearest_even (shr_m r1) (loc_of_shr_record r1)) as H2.
  { unfold round_nearest_even. repeat case_match; lia. }
  pose proof (shr_fexp_nonneg prec emax _ e1 loc_Exact H2) as H3.
  destruct (shr_fexp prec emax (round_nearest_even _ _) e1 loc_Exact) as [r2 e2]. simpl in H3.
  destruct (shr_m r2); simpl; try done. by destruct (e2 <=? _).
Qed.

Lemma parse_float_not_nan prec emax lit x : parse_float prec emax lit = Some x → x ≠ S754_nan.
Proof.
  unfold parse_float. destruct (decimal_of lit) as [[neg m] e].
  assert (∀ n d, sf_of_ratio prec emax neg n d ≠ S754_nan) as Hr.
  { intros n d. unfold sf_of_ratio. destruct (n =? 0); [done|apply binary_round_not_nan]. }
  intros H. destruct (0 <=? e); [specialize (Hr (m * 10 ^ e) 1)|specialize (Hr m (10 ^ (- e)))];
    case_match; simplify_eq; done.
Qed.

(** The order is total away from NaN. *)
Lemma f_ltb_false x y : x ≠ S754_nan → y ≠ S754_nan → f_ltb x y = false → f_geb x y = true.
Proof.
  unfold f_ltb, f_geb, SFltb, SFleb. intros Hx Hy H.
  destruct x as [sx|sx| |sx mx ex], y as [sy|sy| |sy my ey]; cbn [SFcompare] in *; try done;
    try (by destruct sx); try (by destruct sy); try (by destruct sx, sy).
  destruct sx, sy; try done; float_compare; simpl in *; try done; lia.
Qed.
