(* ===== verification/Sha256.v ===== *)
(** * SHA-256

    The hash of crypto/sha256 (FIPS 180-4), executable, on byte strings.  The
    cache's fingerprints and entry ids are digests of it.  Nothing is proved of
    its strength: theorems that depend on it say that two requests share a
    fingerprint only if they have the same identity or exhibit a collision. *)

From Stdlib Require Import Ascii.
From S2P Require Import Prelude Text.

Definition mask32 (x : Z) : Z := Z.land x 4294967295.
Definition add32 (x y : Z) : Z := mask32 (x + y).
Definition rotr (n x : Z) : Z := Z.lor (Z.shiftr x n) (mask32 (Z.shiftl x (32 - n))).
Definition not32 (x : Z) : Z := 4294967295 - x.
Definition ch (x y z : Z) : Z := Z.lxor (Z.land x y) (Z.land (not32 x) z).
Definition maj (x y z : Z) : Z := Z.lxor (Z.lxor (Z.land x y) (Z.land x z)) (Z.land y z).
Definition bsig0 (x : Z) : Z := Z.lxor (Z.lxor (rotr 2 x) (rotr 13 x)) (rotr 22 x).
Definition bsig1 (x : Z) : Z := Z.lxor (Z.lxor (rotr 6 x) (rotr 11 x)) (rotr 25 x).
Definition ssig0 (x : Z) : Z := Z.lxor (Z.lxor (rotr 7 x) (rotr 18 x)) (Z.shiftr x 3).
Definition ssig1 (x : Z) : Z := Z.lxor (Z.lxor (rotr 17 x) (rotr 19 x)) (Z.shiftr x 10).

(** The first 32 bits of the fractional parts of the cube roots of the first
    64 primes, and of the square roots of the first eight. *)
Definition K256 : list Z :=
  [1116352408; 1899447441; 3049323471; 3921009573; 961987163; 1508970993;
   2453635748; 2870763221; 3624381080; 310598401; 607225278; 1426881987;
   1925078388; 2162078206; 2614888103; 3248222580; 3835390401; 4022224774;
   264347078; 604807628; 770255983; 1249150122; 1555081692; 1996064986;
   2554220882; 2821834349; 2952996808; 3210313671; 3336571891; 3584528711;
   113926993; 338241895; 666307205; 773529912; 1294757372; 1396182291;
   1695183700; 1986661051; 2177026350; 2456956037; 2730485921; 2820302411;
   3259730800; 3345764771; 3516065817; 3600352804; 4094571909; 275423344;
   430227734; 506948616; 659060556; 883997877; 958139571; 1322822218;
   1537002063; 1747873779; 1955562222; 2024104815; 2227730452; 2361852424;
   2428436474; 2756734187; 3204031479; 3329325298].
Definition H256 : list Z :=
  [1779033703; 3144134277; 1013904242; 2773480762;
   1359893119; 2600822924; 528734635; 1541459225].

Fixpoint bytes (s : string) : list Z :=
  match s with EmptyString => [] | String c s' => byte c :: bytes s' end.

(** One bit, zeros up to eight bytes short of a block, the length in bits. *)
Definition pad (s : string) : list Z :=
  let n := Z.of_nat (String.length s) in
  bytes s ++ [128] ++ repeat 0 (Z.to_nat ((55 - n) mod 64)) ++ bytes (put_be 8 (8 * n) "").

Fixpoint words (l : list Z) : list Z :=
  match l with
  | a :: b :: c :: d :: l' => (a * 2 ^ 24 + b * 2 ^ 16 + c * 2 ^ 8 + d) :: words l'
  | _ => []
  end.

(** The message schedule, latest word first. *)
Fixpoint schedule (n : nat) (w : list Z) : list Z :=
  match n with
  | O => w
  | S n' =>
      let at_ i := nth i w 0 in
      schedule n' (mask32 (ssig1 (at_ 1%nat) + at_ 6%nat + ssig0 (at_ 14%nat) + at_ 15%nat) :: w)
  end.

Definition round (h : list Z) (kw : Z * Z) : list Z :=
  match h with
  | [a; b; c; d; e; f; g; hh] =>
      let t1 := mask32 (hh + bsig1 e + ch e f g + kw.1 + kw.2) in
      let t2 := add32 (bsig0 a) (maj a b c) in
      [add32 t1 t2; a; b; c; add32 d t1; e; f; g]
  | _ => h
  end.

Definition compress (h : list Z) (block : list Z) : list Z :=
  let w := reverse (schedule 48 (reverse block)) in
  zip_with add32 h (foldl round h (zip K256 w)).

Fixpoint blocks (n : nat) (w : list Z) (h : list Z) : list Z :=
  match n with
  | O => h
  | S n' => blocks n' (drop 16 w) (compress h (take 16 w))
  end.

(** [sha256.Sum256] *)
Definition sha256 (s : string) : string :=
  let w := words (pad s) in
  foldr (λ x acc, put_be 4 x acc) EmptyString (blocks (length w / 16) w H256).

Lemma compress_length h block : (length (compress h block) ≤ length h)%nat.
Proof. unfold compress. rewrite length_zip_with. lia. Qed.

(** A digest is at most 32 bytes. *)
Lemma sha256_length s : (String.length (sha256 s) ≤ 32)%nat.
Proof.
  unfold sha256. assert (∀ n w h, (length (blocks n w h) ≤ length h)%nat) as Hb.
  { induction n as [|n IH]; intros w h; simpl; [done|].
    etrans; [apply IH|apply compress_length]. }
  assert (∀ l, String.length (foldr (λ x acc, put_be 4 x acc) EmptyString l) = (4 * length l)%nat) as Hp.
  { induction l as [|x l IH]; [done|]. cbn [foldr length]. rewrite put_be_length, IH. lia. }
  rewrite Hp. set (w := words (pad s)). specialize (Hb (length w / 16)%nat w H256).
  change (length H256) with 8%nat in Hb. lia.
Qed.

Example sha256_abc :
  hex_encode (sha256 "abc") = "ba7816bf8f01cfea414140de5dae2223b00361a396177a9cb410ff61f20015ad"%string.
Proof. vm_compute. reflexivity. Qed.

Example sha256_two_blocks :
  hex_encode (sha256 "abcdbcdecdefdefgefghfghighijhijkijkljklmklmnlmnomnopnopq")
  = "248d6a61d20638b8e5c026930c3e6039a33ce45964ff2167f6ecedd419db06c1"%string.
Proof. vm_compute. reflexivity. Qed.

Example sha256_empty :
  hex_encode (sha256 "") = "e3b0c44298fc1c149afbf4c8996fb92427ae41e4649b934ca495991b7852b855"%string.
Proof. vm_compute. reflexivity. Qed.
