(* ===== verification/Calendar.v ===== *)
(** * The UTC calendar of Go's [time] package

    An instant is the number of nanoseconds since the Unix epoch.  The budget
    tracker names a billing period by the UTC year and month of an instant and
    sizes a key's TTL by the first instant of the next month.  Months are
    counted in eras of 400 years that start on the first of March, so that the
    leap day is the last day of a counted year. *)

From S2P Require Import Prelude.

Definition day : Z := 24 * hour.
Definition days_per_era : Z := 146097.

(** Days of an era before its year [y], counted from March. *)
Definition year_start (y : Z) : Z := 365 * y + y / 4 - y / 100 + y / 400.

(** Days of a counted year before its month [m] (0 is March). *)
Definition month_offset (m : Z) : Z := (153 * m + 2) / 5.

(** Year of the era that the day [doe] of the era falls in. *)
Definition year_of_era (doe : Z) : Z :=
  let y := doe / 365 in
  if year_start y <=? doe then y else y - 1.

(** Days from the first of March of the year 0 to the first of January 1970. *)
Definition epoch_shift : Z := 719468.

(** The month an instant falls in, counted from March of the year 0. *)
Definition month_index (now : Z) : Z :=
  let z := now / day + epoch_shift in
  let era := z / days_per_era in
  let doe := z mod days_per_era in
  let yoe := year_of_era doe in
  let doy := doe - year_start yoe in
  12 * (400 * era + yoe) + (5 * doy + 2) / 153.

(** The first instant of a month. *)
Definition month_first (k : Z) : Z :=
  let y := k / 12 in
  day * (days_per_era * (y / 400) + year_start (y mod 400)
         + month_offset (k mod 12) - epoch_shift).

(** Calendar year and month (January is 1) of a month index. *)
Definition year_month (k : Z) : Z * Z :=
  let y := k / 12 in
  let m := k mod 12 in
  if m <? 10 then (y, m + 3) else (y + 1, m - 9).

(** [time.Date(now.Year(), now.Month(), 1, ...).AddDate(0, 1, 0)] *)
Definition next_month_first (now : Z) : Z := month_first (month_index now + 1).

(** Decimal digits, zero-padded to a width, as [Format("2006-01")] prints. *)
Definition digit (n : Z) : Ascii.ascii := Ascii.ascii_of_nat (Z.to_nat (48 + n mod 10)).

Fixpoint pad_digits (w : nat) (n : Z) (acc : string) : string :=
  match w with
  | O => acc
  | S w' => pad_digits w' (n / 10) (String (digit n) acc)
  end.

Definition format_year_month (ym : Z * Z) : string :=
  (pad_digits 4 ym.1 EmptyString ++ "-" ++ pad_digits 2 ym.2 EmptyString)%string.

(** ** The calendar is correct *)

#[local] Ltac Zify.zify_post_hook ::= Z.div_mod_to_equations.

Lemma year_start_step y : 0 ≤ y → 365 ≤ year_start (y + 1) - year_start y ≤ 366.
Proof. unfold year_start. lia. Qed.

Lemma year_start_estimate y : 0 ≤ y ≤ 401 → 365 * y ≤ year_start y ≤ 365 * y + 97.
Proof. unfold year_start. lia. Qed.

Lemma year_of_era_spec doe :
  0 ≤ doe < days_per_era →
  0 ≤ year_of_era doe < 400 ∧
  year_start (year_of_era doe) ≤ doe < year_start (year_of_era doe + 1).
Proof.
  unfold days_per_era, year_of_era. intros Hd.
  assert (0 ≤ doe / 365 ≤ 400) by lia.
  pose proof (year_start_estimate (doe / 365) ltac:(lia)).
  pose proof (year_start_estimate (doe / 365 + 1) ltac:(lia)).
  destruct (Z.leb_spec (year_start (doe / 365)) doe) as [Hle|Hgt].
  - assert (doe / 365 ≠ 400).
    { intros Heq. rewrite Heq in Hle. change (year_start 400) with 146097 in Hle. lia. }
    lia.
  - assert (doe / 365 ≠ 0).
    { intros Heq. rewrite Heq in Hgt. change (year_start 0) with 0 in Hgt. lia. }
    pose proof (year_start_step (doe / 365 - 1) ltac:(lia)).
    rewrite Z.sub_add in *. lia.
Qed.

Lemma month_offset_spec doy :
  0 ≤ doy ≤ 365 →
  0 ≤ (5 * doy + 2) / 153 ≤ 11 ∧
  month_offset ((5 * doy + 2) / 153) ≤ doy < month_offset ((5 * doy + 2) / 153 + 1).
Proof. unfold month_offset. lia. Qed.

(** The first of a month that starts [m] months into year [y] of an era. *)
Lemma month_first_split era yoe m :
  0 ≤ yoe < 400 → 0 ≤ m < 12 →
  month_first (12 * (400 * era + yoe) + m) =
  day * (days_per_era * era + year_start yoe + month_offset m - epoch_shift).
Proof.
  intros Hy Hm. unfold month_first.
  replace ((12 * (400 * era + yoe) + m) / 12) with (400 * era + yoe) by lia.
  replace ((12 * (400 * era + yoe) + m) mod 12) with m by lia.
  replace ((400 * era + yoe) / 400) with era by lia.
  replace ((400 * era + yoe) mod 400) with yoe by lia. done.
Qed.

Lemma month_length era yoe m :
  0 ≤ yoe < 400 → 0 ≤ m < 12 →
  let k := 12 * (400 * era + yoe) + m in
  28 * day ≤ month_first (k + 1) - month_first k ≤ 31 * day ∧
  (m < 11 → month_first (k + 1) = month_first k + day * (month_offset (m + 1) - month_offset m)) ∧
  (m = 11 → month_first (k + 1) =
            day * (days_per_era * era + year_start (yoe + 1) - epoch_shift)).
Proof.
  intros Hy Hm k. subst k.
  pose proof (year_start_step yoe ltac:(lia)) as Hstep.
  destruct (decide (m = 11)) as [->|Hne].
  - assert (month_first (12 * (400 * era + yoe) + 11 + 1) =
            day * (days_per_era * era + year_start (yoe + 1) - epoch_shift)) as ->.
    { destruct (decide (yoe = 399)) as [->|].
      - replace (12 * (400 * era + 399) + 11 + 1) with (12 * (400 * (era + 1) + 0) + 0) by lia.
        rewrite month_first_split by lia. f_equal.
        change (year_start (399 + 1)) with days_per_era.
        change (year_start 0) with 0. change (month_offset 0) with 0. lia.
      - replace (12 * (400 * era + yoe) + 11 + 1) with (12 * (400 * era + (yoe + 1)) + 0) by lia.
        rewrite month_first_split by lia. change (month_offset 0) with 0. f_equal. lia. }
    rewrite month_first_split by lia. change (month_offset 11) with 337.
    unfold day, hour, minute, second, millisecond, microsecond, nanosecond. lia.
  - rewrite <- (Z.add_assoc _ m 1), !month_first_split by lia.
    assert (28 ≤ month_offset (m + 1) - month_offset m ≤ 31) by (unfold month_offset; lia).
    unfold day, hour, minute, second, millisecond, microsecond, nanosecond. lia.
Qed.

(** Every instant lies in its own month. *)
Lemma month_index_spec now :
  month_first (month_index now) ≤ now < month_first (month_index now + 1).
Proof.
  unfold month_index.
  set (z := now / day + epoch_shift). set (doe := z mod days_per_era).
  set (yoe := year_of_era doe). set (doy := doe - year_start yoe).
  assert (0 ≤ doe < days_per_era) as Hdoe by (apply Z.mod_pos_bound; done).
  destruct (year_of_era_spec doe Hdoe) as [Hyoe Hys]. fold yoe in Hyoe, Hys.
  pose proof (year_start_step yoe ltac:(lia)) as Hstep.
  destruct (month_offset_spec doy ltac:(subst doy; lia)) as [Hm Hmo].
  set (m := (5 * doy + 2) / 153) in *.
  pose proof (Z.div_mod z days_per_era ltac:(done)) as Hz. fold doe in Hz.
  pose proof (month_length (z / days_per_era) yoe m Hyoe ltac:(lia)) as (_ & Hlt & Heq).
  assert (day * (now / day) ≤ now < day * (now / day) + day) as Hday.
  { pose proof (Z.mul_div_le now day ltac:(done)).
    pose proof (Z.mul_succ_div_gt now day ltac:(done)). lia. }
  assert (0 < day) by done.
  assert (now / day = days_per_era * (z / days_per_era) + year_start yoe + doy - epoch_shift)
    as Hnd by lia.
  rewrite month_first_split in * by lia.
  destruct (decide (m = 11)) as [Hm11|Hm11].
  - rewrite Heq by done. nia.
  - rewrite Hlt by lia. nia.
Qed.

Lemma month_index_bounds now :
  28 * day ≤ month_first (month_index now + 1) - month_first (month_index now) ≤ 31 * day.
Proof.
  unfold month_index.
  set (z := now / day + epoch_shift). set (doe := z mod days_per_era).
  assert (0 ≤ doe < days_per_era) as Hdoe by (apply Z.mod_pos_bound; done).
  destruct (year_of_era_spec doe Hdoe) as [Hyoe Hys].
  pose proof (year_start_step (year_of_era doe) ltac:(lia)).
  destruct (month_offset_spec (doe - year_start (year_of_era doe)) ltac:(lia)) as [Hm _].
  by apply month_length; [|lia].
Qed.

(** 2026-02-28T23:59:59Z, 2024-02-29, 2023-12-31 and the epoch. *)
Example calendar_ok :
  map (λ s, format_year_month (year_month (month_index (s * second))))
    [1772323199; 1709164800; 1704067199; 0] =
  ["2026-02"; "2024-02"; "2023-12"; "1970-01"]%string.
Proof. vm_compute. reflexivity. Qed.
