(* ===== verification/Budget.v ===== *)
(** * internal/budget: prices and the monthly spend counter

    [Cost] models cost.go, [Tracker] models tracker.go: the Redis script that
    reserves spend, the handle it returns, and the settlement of that handle.
    Every amount is an integer number of micro-dollars. *)

From S2P Require Import Prelude Redis Calendar.

(** ** cost.go *)
Module Cost.

Definition microsPerUnit : Z := 1000000.

Record Pricing := { InputPer1M : Z; OutputPer1M : Z }.

Record Calculator := { pricing : gmap string Pricing }.

Definition NewCalculator (p : gmap string Pricing) : Calculator := {| pricing := p |}.

Inductive cost_error := NoPricing (model : string).

(** [int64] arithmetic wraps at every step; Go's division truncates. *)
Definition Cost (c : Calculator) (model : string) (inputTokens outputTokens : Z)
    : result cost_error Z :=
  match pricing c !! model with
  | None => Err (NoPricing model)
  | Some p =>
      Ok (Z.quot (wrap64 (wrap64 (inputTokens * InputPer1M p)
                          + wrap64 (outputTokens * OutputPer1M p)))
                 microsPerUnit)
  end.

(** A table and token counts for which no step of [Cost] overflows. *)
Definition cost_in_range (p : Pricing) (i o : Z) : Prop :=
  0 ≤ InputPer1M p ∧ 0 ≤ OutputPer1M p ∧ 0 ≤ i ∧ 0 ≤ o ∧
  i * InputPer1M p + o * OutputPer1M p ≤ int64_max.

Lemma Cost_exact c model p i o :
  pricing c !! model = Some p → cost_in_range p i o →
  Cost c model i o = Ok ((i * InputPer1M p + o * OutputPer1M p) / microsPerUnit).
Proof.
  intros Hp (? & ? & ? & ? & Hmax). unfold Cost. rewrite Hp.
  assert (0 ≤ i * InputPer1M p) by nia. assert (0 ≤ o * OutputPer1M p) by nia.
  assert (int64_min ≤ 0) by done.
  rewrite (wrap64_id (i * _)), (wrap64_id (o * _)), wrap64_id by (unfold in_int64; lia).
  rewrite Z.quot_div_nonneg by (unfold microsPerUnit; lia). done.
Qed.

Lemma Cost_nonneg c model p i o m :
  pricing c !! model = Some p → cost_in_range p i o → Cost c model i o = Ok m → 0 ≤ m.
Proof.
  intros Hp Hr. rewrite (Cost_exact _ _ _ _ _ Hp Hr). intros [= <-].
  destruct Hr as (? & ? & ? & ? & _). apply Z.div_pos; [nia|done].
Qed.

Lemma cost_in_range_mono p i o i' o' :
  cost_in_range p i' o' → 0 ≤ i ≤ i' → 0 ≤ o ≤ o' → cost_in_range p i o.
Proof. intros (? & ? & ? & ? & ?) ? ?. repeat split; nia. Qed.

Lemma Cost_bounds c model p i o i' o' :
  pricing c !! model = Some p →
  cost_in_range p i' o' → 0 ≤ i ≤ i' → 0 ≤ o ≤ o' →
  ∃ est actual, Cost c model i' o' = Ok est ∧ Cost c model i o = Ok actual ∧
                0 ≤ actual ≤ est.
Proof.
  intros Hp Hr Hi Ho. pose proof (cost_in_range_mono _ _ _ _ _ Hr Hi Ho) as Hr'.
  eexists _, _. split; [by apply Cost_exact|]. split; [by apply Cost_exact|].
  destruct Hr' as (? & ? & ? & ? & ?). split; [apply Z.div_pos; [nia|done]|].
  apply Z.div_le_mono; [done|nia].
Qed.

(** a reservation sized by token ceilings covers the real cost: with a
    non-negative price table and no 64-bit overflow at the ceilings, the price
    of the tokens actually used never exceeds the price of the ceilings, and
    neither is off by more than a micro-dollar from the exact product. *)
Theorem Cost_covers_ceiling c model p i o i' o' :
  pricing c !! model = Some p →
  cost_in_range p i' o' → 0 ≤ i ≤ i' → 0 ≤ o ≤ o' →
  ∃ est actual, Cost c model i' o' = Ok est ∧ Cost c model i o = Ok actual ∧
                0 ≤ actual ≤ est ∧
                actual * microsPerUnit ≤ i * InputPer1M p + o * OutputPer1M p
                  < (actual + 1) * microsPerUnit.
Proof.
  intros Hp Hr Hi Ho. destruct (Cost_bounds c model p i o i' o' Hp Hr Hi Ho)
    as (est & actual & He & Ha & Hle).
  exists est, actual. split_and!; try done; try lia;
    rewrite (Cost_exact _ _ _ _ _ Hp (cost_in_range_mono _ _ _ _ _ Hr Hi Ho)) in Ha; simplify_eq.
  - rewrite Z.mul_comm. by apply Z.mul_div_le.
  - pose proof (Z.mul_succ_div_gt (i * InputPer1M p + o * OutputPer1M p) microsPerUnit ltac:(done)).
    lia.
Qed.

Definition demo_pricing : Pricing := {| InputPer1M := 150000; OutputPer1M := 600000 |}.
Definition demo_calc : Calculator := NewCalculator {["gpt-4o-mini"%string := demo_pricing]}.

Lemma Cost_covers_ceiling_witness :
  ∃ est actual, Cost demo_calc "gpt-4o-mini" 1000 4096 = Ok est ∧
                Cost demo_calc "gpt-4o-mini" 900 100 = Ok actual ∧ 0 ≤ actual ≤ est.
Proof.
  destruct (Cost_covers_ceiling demo_calc "gpt-4o-mini" demo_pricing 900 100 1000 4096)
    as (est & actual & H1 & H2 & H3 & _); try lia.
  - reflexivity.
  - repeat split; vm_compute; discriminate.
  - exists est, actual. split_and!; assumption || apply H3.
Defined.

End Cost.

(** ** tracker.go *)
Module Tracker.

Definition keyPrefix : string := "switchyard:budget".
Definition periodGrace : Z := 48 * hour.

Definition periodKey (teamID period : string) : string :=
  (keyPrefix ++ ":" ++ teamID ++ ":" ++ period)%string.

Definition currentPeriod (now : Z) : string :=
  format_year_month (year_month (month_index now)).

Definition ttlUntilPeriodEnd (now : Z) : Z := next_month_first now - now + periodGrace.

Record Result := { Allowed : bool; SpentMicros : Z }.

Record Reservation := { r_teamID : string; r_period : string; r_reserved : Z }.

Inductive budget_error :=
| CapNotPositive (cap : Z)
| EstimateNegative (estimate : Z)
| RedisError
| BadShape (raw : list rvalue)
| BadAllowedType (v : rvalue)
| BadSpentType (v : rvalue)
| ActualNegative (actual : Z).

Section tracker.
Context {db} `{!Redis Z db}.

(** The Lua script.  [t] is Redis's clock in milliseconds.  [None] is the
    error reply of an [INCRBY] that would leave the 64-bit range.  The script's
    locals are Lua numbers, doubles, which are exact up to 2^53 micro-dollars,
    nine billion dollars; the model keeps them exact beyond that too. *)
Definition reserveScript (t : Z) (key : string) (cap amount ttl_sec : Z) (d : db)
    : option (list rvalue) * db :=
  let is_new := negb (rexists t key d) in
  match rincrby t key amount d with
  | (None, d1) => (None, d1)
  | (Some total, d1) =>
      let d2 := if is_new then rpexpire t key (ttl_sec * 1000) d1 else d1 in
      if cap <? total then
        match rincrby t key (- amount) d2 with
        | (None, d3) => (None, d3)
        | (Some _, d3) => (Some [RInt 0; RInt (total - amount)], d3)
        end
      else (Some [RInt 1; RInt total], d2)
  end.

(** What [Reserve] makes of the script's reply. *)
Definition reserve_reply (teamID period : string) (estimatedMicros : Z) (raw : list rvalue)
    : result budget_error (option Reservation * Result) :=
  match raw with
  | [RInt allowed; RInt spent] =>
      if negb (allowed =? 1)
      then Ok (None, {| Allowed := false; SpentMicros := spent |})
      else Ok (Some {| r_teamID := teamID; r_period := period; r_reserved := estimatedMicros |},
               {| Allowed := true; SpentMicros := spent |})
  | [RInt _; v] => Err (BadSpentType v)
  | [v; _] => Err (BadAllowedType v)
  | _ => Err (BadShape raw)
  end.

(** [now] is the gateway's clock in nanoseconds, [t] Redis's in
    milliseconds, [f] the fate of the round trip. *)
Definition Reserve (now t : Z) (f : net_fate) (teamID : string)
    (capMicros estimatedMicros : Z) (d : db)
    : result budget_error (option Reservation * Result) * db :=
  if capMicros <=? 0 then (Err (CapNotPositive capMicros), d)
  else if estimatedMicros <? 0 then (Err (EstimateNegative estimatedMicros), d)
  else
    let period := currentPeriod now in
    let ttl := Z.quot (ttlUntilPeriodEnd now) second in
    match round_trip f (reserveScript t (periodKey teamID period)
                          capMicros estimatedMicros ttl) d with
    | (None, d') => (Err RedisError, d')
    | (Some raw, d') => (reserve_reply teamID period estimatedMicros raw, d')
    end.

(** [Reconcile] on a nil handle is a no-op, as the source's nil receiver. *)
Definition Reconcile (t : Z) (f : net_fate) (r : option Reservation)
    (actualMicros : Z) (d : db) : option budget_error * db :=
  match r with
  | None => (None, d)
  | Some r =>
      if actualMicros <? 0 then (Some (ActualNegative actualMicros), d)
      else
        let delta := wrap64 (actualMicros - r_reserved r) in
        if delta =? 0 then (None, d)
        else match round_trip f (rincrby t (periodKey (r_teamID r) (r_period r)) delta) d with
             | (Some _, d') => (None, d')
             | (None, d') => (Some RedisError, d')
             end
  end.

Definition Reserved (r : option Reservation) : Z :=
  match r with None => 0 | Some r => r_reserved r end.

Definition Spent (now t : Z) (f : net_fate) (teamID : string) (d : db)
    : result budget_error Z :=
  match (round_trip f (λ d, (Some (rget t (periodKey teamID (currentPeriod now)) d), d)) d).1 with
  | Some v => Ok (default 0 v)
  | None => Err RedisError
  end.

(** A second [DEL] finds nothing to delete. *)
Definition Reset (now : Z) (f : net_fate) (teamID : string) (d : db)
    : option budget_error * db :=
  let key := periodKey teamID (currentPeriod now) in
  let d' := match runs f with O => d | _ => rdel key d end in
  if answered f then (None, d') else (Some RedisError, d').

(** *** The admission decision, abstractly

    A counter at [c] admits an estimate when the sum stays within the cap;
    an admitted estimate is added, a denied one changes nothing. *)
Definition admits (cap amount c : Z) : bool := c + amount <=? cap.
Definition admitted (cap amount c : Z) : Z := if admits cap amount c then c + amount else c.
Definition script_reply (cap amount c : Z) : list rvalue :=
  if admits cap amount c then [RInt 1; RInt (c + amount)] else [RInt 0; RInt c].

(** The window in which the counter is known to survive: the deadline it
    already has, or the one the script gives a key it creates. *)
Definition counter_until (t T : Z) (key : string) (c : Z) (d : db) : Prop :=
  holds_until t T key c d ∨ (c = 0 ∧ ∀ t', t ≤ t' → rget t' key d = None).

Lemma counter_until_get t T key c d :
  t < T → counter_until t T key c d → default 0 (rget t key d) = c.
Proof. intros ? [H|[-> H]]; by rewrite H by lia. Qed.

Lemma counter_until_le t t1 T key c d :
  t ≤ t1 → counter_until t T key c d → counter_until t1 T key c d.
Proof.
  intros ? [H|[-> H]]; [left; by eapply holds_until_le|right].
  split; [done|]. intros. apply H. lia.
Qed.

Lemma reserveScript_in_range t T key cap amount ttl c d :
  t < T → T ≤ t + ttl * 1000 →
  counter_until t T key c d → in_int64 c → in_int64 (c + amount) →
  ∃ d', reserveScript t key cap amount ttl d = (Some (script_reply cap amount c), d') ∧
        holds_until t T key (admitted cap amount c) d'.
Proof.
  intros HtT Httl Hc Hr Hra. unfold reserveScript.
  pose proof (counter_until_get _ _ _ _ _ HtT Hc) as Hget.
  rewrite rincrby_ok by (by rewrite Hget). rewrite Hget.
  set (d2 := if negb (rexists t key d) then _ else _).
  assert (holds_until t T key (c + amount) d2) as Hd2.
  { unfold d2, rexists. destruct Hc as [H|[-> H]].
    - rewrite H by lia. simpl. by eapply holds_until_put.
    - rewrite H by lia. simpl. intros t' Ht'. apply holds_until_create. lia. }
  unfold script_reply, admitted, admits.
  destruct (Z.ltb_spec cap (c + amount)) as [Hd|Hd].
  - destruct (Z.leb_spec (c + amount) cap); [lia|].
    assert (default 0 (rget t key d2) + - amount = c) as Hback.
    { rewrite Hd2 by lia. simpl. lia. }
    rewrite rincrby_ok by (by rewrite Hback). rewrite Hback.
    replace (c + amount - amount) with c by lia.
    eexists. split; [done|]. by eapply holds_until_put.
  - destruct (Z.leb_spec (c + amount) cap); [|lia]. eauto.
Qed.

Lemma reserveScript_overflow t T key cap amount ttl c d :
  t < T → counter_until t T key c d → ¬ in_int64 (c + amount) →
  reserveScript t key cap amount ttl d = (None, d).
Proof.
  intros HtT Hc Hr. unfold reserveScript, rincrby.
  rewrite (counter_until_get _ _ _ _ _ HtT Hc).
  destruct ((int64_min <=? c + amount) && (c + amount <=? int64_max)) eqn:Hb; [|done].
  bool_to_prop. destruct Hr. done.
Qed.

Lemma reserveScript_ne t t' key key' cap amount ttl d :
  key ≠ key' → rget t' key' (reserveScript t key cap amount ttl d).2 = rget t' key' d.
Proof.
  intros Hne. unfold reserveScript, rincrby.
  repeat case_match; simplify_eq/=; rewrite ?rget_put_ne, ?rget_pexpire_ne, ?rget_put_ne by done; done.
Qed.

Lemma Reserve_unfold now t teamID cap est d reply d' :
  0 < cap → 0 ≤ est →
  reserveScript t (periodKey teamID (currentPeriod now)) cap est
    (Z.quot (ttlUntilPeriodEnd now) second) d = (reply, d') →
  Reserve now t Replied teamID cap est d =
    match reply with
    | None => (Err RedisError, d')
    | Some raw => (reserve_reply teamID (currentPeriod now) est raw, d')
    end.
Proof.
  intros Hcap Hest Hs. unfold Reserve.
  destruct (Z.leb_spec cap 0); [lia|]. destruct (Z.ltb_spec est 0); [lia|].
  simpl. rewrite Hs. done.
Qed.

(** a reservation is granted exactly when the estimate fits.  On a live
    counter at [c], [Reserve] answers [Allowed] iff [c + estimate <= cap];
    the counter then holds [c + estimate], which is within the cap, and the
    handle carries the estimate; otherwise the counter still holds [c], no
    handle is returned and the reported spend is [c]. *)
Theorem Reserve_decides now t T teamID cap est c d :
  let key := periodKey teamID (currentPeriod now) in
  0 < cap → 0 ≤ est → t < T →
  T ≤ t + Z.quot (ttlUntilPeriodEnd now) second * 1000 →
  counter_until t T key c d → in_int64 c → in_int64 (c + est) →
  ∃ ro res d', Reserve now t Replied teamID cap est d = (Ok (ro, res), d') ∧
    Allowed res = (c + est <=? cap) ∧
    holds_until t T key (SpentMicros res) d' ∧
    (if c + est <=? cap
     then ro = Some {| r_teamID := teamID; r_period := currentPeriod now; r_reserved := est |} ∧
          SpentMicros res = c + est ∧ SpentMicros res ≤ cap
     else ro = None ∧ SpentMicros res = c).
Proof.
  intros key Hcap Hest HtT Httl Hc Hr Hra.
  destruct (reserveScript_in_range _ _ _ cap est _ _ _ HtT Httl Hc Hr Hra) as (d' & Hs & Hh).
  rewrite (Reserve_unfold _ _ _ _ _ _ _ _ Hcap Hest Hs).
  unfold script_reply, admitted, admits in *.
  destruct (Z.leb_spec (c + est) cap); simpl; eauto 10.
Qed.

Lemma admitted_range cap est c :
  cap ≤ int64_max → 0 ≤ est → in_int64 c → in_int64 (admitted cap est c) ∧ c ≤ admitted cap est c.
Proof. unfold admitted, admits, in_int64. intros. destruct (Z.leb_spec (c + est) cap); lia. Qed.

Lemma script_runs t T key cap est ttl n c d :
  cap ≤ int64_max → 0 ≤ est → t < T → T ≤ t + ttl * 1000 → counter_until t T key c d → in_int64 c →
  counter_until t T key (Nat.iter n (admitted cap est) c)
    (Nat.iter n (λ d, (reserveScript t key cap est ttl d).2) d) ∧
  in_int64 (Nat.iter n (admitted cap est) c).
Proof.
  intros Hcap Hest HtT Httl Hc Hr. induction n as [|n [IHc IHr]]; [done|]. simpl.
  split; [|by apply admitted_range]. set (c' := Nat.iter n _ c) in *. set (d' := Nat.iter n _ d) in *.
  destruct (decide (int64_min ≤ c' + est ∧ c' + est ≤ int64_max)) as [Hra|Hra].
  - destruct (reserveScript_in_range _ _ _ cap est _ _ _ HtT Httl IHc IHr Hra) as (d2 & -> & Hh). by left.
  - rewrite (reserveScript_overflow _ _ _ cap est _ _ _ HtT IHc Hra). unfold admitted, admits.
    destruct (Z.leb_spec (c' + est) cap) as [Hle|]; [|done]. destruct Hra. unfold in_int64 in IHr. lia.
Qed.

(** budget enforcement fails closed.  Whenever no reply arrives, [Reserve]
    returns an error and no handle, and the counter is what the runs of the
    script, none, one or two, made it: never lower. *)
Theorem Reserve_fails_closed now t T teamID cap est c f d :
  let key := periodKey teamID (currentPeriod now) in
  0 < cap ≤ int64_max → 0 ≤ est → f ≠ Replied → f ≠ Retried → t < T →
  T ≤ t + Z.quot (ttlUntilPeriodEnd now) second * 1000 →
  counter_until t T key c d → in_int64 c →
  ∃ d', Reserve now t f teamID cap est d = (Err RedisError, d') ∧
        ∃ c', counter_until t T key c' d' ∧ c' = Nat.iter (runs f) (admitted cap est) c ∧ c ≤ c'.
Proof.
  intros key Hcap Hest Hf Hf' HtT Httl Hc Hr. unfold Reserve.
  destruct (Z.leb_spec cap 0); [lia|]. destruct (Z.ltb_spec est 0); [lia|].
  pose proof (script_runs t T key cap est (Z.quot (ttlUntilPeriodEnd now) second) (runs f) c d
    (proj2 Hcap) Hest HtT Httl Hc Hr) as [Hn _].
  pose proof (admitted_range cap est c (proj2 Hcap) Hest Hr) as [Hr1 Hle1].
  pose proof (admitted_range cap est _ (proj2 Hcap) Hest Hr1) as [_ Hle2].
  destruct f; try done; (eexists; split; [reflexivity|]); eexists; (split; [exact Hn|]); simpl; lia.
Qed.

(** [INCRBY] seen from the counter: it adds, or fails and changes nothing. *)
Definition counted (n c : Z) : Z :=
  if (int64_min <=? c + n) && (c + n <=? int64_max) then c + n else c.

Lemma counted_in n c : in_int64 (c + n) → counted n c = c + n.
Proof. intros [?%Z.leb_le ?%Z.leb_le]. unfold counted. by rewrite H, H0. Qed.

Lemma counted_cases n c :
  (counted n c = c + n ∧ in_int64 (c + n)) ∨ (counted n c = c ∧ ¬ in_int64 (c + n)).
Proof.
  unfold counted, in_int64. destruct (Z.leb_spec int64_min (c + n)), (Z.leb_spec (c + n) int64_max);
    simpl; (left; lia) || (right; lia).
Qed.

Lemma counted_range n c : in_int64 c → in_int64 (counted n c).
Proof. by destruct (counted_cases n c) as [[-> ?]|[-> ?]]. Qed.

Lemma counted_0 c : counted 0 c = c.
Proof. destruct (counted_cases 0 c) as [[-> ?]|[-> ?]]; lia. Qed.

Lemma counter_until_incrby t T key n c d :
  t < T → counter_until t T key c d → counter_until t T key (counted n c) (rincrby t key n d).2.
Proof.
  intros HtT Hc. unfold rincrby, counted. rewrite (counter_until_get _ _ _ _ _ HtT Hc).
  destruct (_ && _) eqn:Hb; [|done]. simpl. left. destruct Hc as [H|[_ H]].
  - by eapply holds_until_put.
  - intros t' Ht'. apply rget_put_fresh; [lia|]. apply H. lia.
Qed.

(** Settling a handle, whatever becomes of the command: the counter moves by
    the signed difference as often as the command runs, and no answer means
    an error. *)
Lemma Reconcile_counter t T f r actual c d :
  let key := periodKey (r_teamID r) (r_period r) in
  t < T → 0 ≤ actual ≤ int64_max → 0 ≤ r_reserved r ≤ int64_max → counter_until t T key c d →
  counter_until t T key (Nat.iter (runs f) (counted (actual - r_reserved r)) c)
    (Reconcile t f (Some r) actual d).2.
Proof.
  intros key HtT Ha Hres Hc. unfold Reconcile. fold key. destruct (Z.ltb_spec actual 0); [lia|].
  rewrite wrap64_id by (unfold in_int64, int64_min, int64_max in *; lia).
  destruct (Z.eqb_spec (actual - r_reserved r) 0) as [->|Hz].
  - simpl. assert (∀ n, Nat.iter n (counted 0) c = c) as -> by (intros n; induction n as [|n IH]; simpl; [done|by rewrite IH, counted_0]).
    done.
  - destruct (round_trip f (rincrby t key (actual - r_reserved r)) d) as [o d'] eqn:Hrt.
    replace (match o with Some _ => (None, d') | None => (Some RedisError, d') end).2 with d' by (by destruct o).
    replace d' with (round_trip f (rincrby t key (actual - r_reserved r)) d).2 by (by rewrite Hrt).
    rewrite round_trip_db. clear Hrt. generalize (runs f). intros n.
    induction n as [|n IH]; [done|]. simpl. by apply counter_until_incrby.
Qed.

(** A non-negative handle settled with a non-negative actual moves its own
    period's counter by the signed difference. *)
Lemma Reconcile_live t T r actual c d :
  let key := periodKey (r_teamID r) (r_period r) in
  t < T → 0 ≤ actual ≤ int64_max → 0 ≤ r_reserved r ≤ int64_max →
  holds_until t T key c d → in_int64 (c + actual - r_reserved r) →
  ∃ d', Reconcile t Replied (Some r) actual d = (None, d') ∧
        holds_until t T key (c + actual - r_reserved r) d'.
Proof.
  intros key HtT Ha Hres Hc Hr. unfold Reconcile. fold key.
  destruct (Z.ltb_spec actual 0); [lia|].
  assert (in_int64 (actual - r_reserved r)).
  { unfold in_int64, int64_min, int64_max in *. lia. }
  rewrite wrap64_id by done.
  destruct (Z.eqb_spec (actual - r_reserved r) 0) as [Hz|Hz].
  - exists d. split; [done|]. by replace (c + actual - r_reserved r) with c by lia.
  - simpl. assert (default 0 (rget t key d) + (actual - r_reserved r)
                   = c + actual - r_reserved r) as Hv.
    { rewrite Hc by lia. simpl. lia. }
    rewrite rincrby_ok by (by rewrite Hv). rewrite Hv.
    eexists. split; [done|]. by eapply holds_until_put.
Qed.

(** *** The ledger of one team and period

    Concurrent requests interleave whole Redis commands, so their history is
    a sequence of commands.  A ledger records the database, Redis's clock, the
    handles not yet settled, and four totals: [l_settled], the actual cost of
    the settled handles; [l_stranded], what was reserved and will not be given
    back, because the reservation's reply was lost with its handle or because
    its settlement never ran; [l_again], the signed sum of the settlements run
    more than once; [l_cleared], what [Reset] wiped.  [l_over] is the sum of the
    amounts by which settlements exceeded their reservations. *)
Record ledger := {
  l_db : db; l_now : Z; l_open : list Reservation; l_settled : Z;
  l_stranded : Z; l_again : Z; l_cleared : Z; l_over : Z }.

Definition granted (r : result budget_error (option Reservation * Result)) : list Reservation :=
  match r with Ok (Some r, _) => [r] | _ => [] end.

Definition open_total (l : list Reservation) : Z := foldr (λ r, Z.add (r_reserved r)) 0 l.

Definition balance (l : ledger) : Z :=
  l_settled l + open_total (l_open l) + l_stranded l + l_again l - l_cleared l.

(** What a reservation at a counter of [c] admits without a handle: every run
    but the one whose reply arrives. *)
Definition fits (cap est c : Z) : Z := if admits cap est c then est else 0.

Definition stranded_by (f : net_fate) (cap est c : Z) : Z :=
  if (cap <=? 0) || (est <? 0) then 0
  else match f with
       | Replied | NotSent => 0
       | ReplyLost | Retried => fits cap est c
       | RetryLost => fits cap est c + fits cap est (admitted cap est c)
       end.

(** A settlement of [delta] took effect: there was nothing to send, or the
    command ran and did not overflow. *)
Definition took_effect (f : net_fate) (delta c : Z) : bool :=
  (delta =? 0) || (negb (bool_decide (f = NotSent)) && (counted delta c =? c + delta)).

(** What the second run of a settlement adds. *)
Definition second_run (f : net_fate) (delta c : Z) : Z :=
  match f with
  | Retried | RetryLost => counted delta (counted delta c) - counted delta c
  | _ => 0
  end.

Inductive lstep (teamID period : string) (cap T : Z) : ledger → ledger → Prop :=
| LReserve l now t f cap' est :
    l_now l ≤ t < T → currentPeriod now = period →
    T ≤ t + Z.quot (ttlUntilPeriodEnd now) second * 1000 →
    cap' ≤ cap → est ≤ int64_max →
    lstep teamID period cap T l
      {| l_db := (Reserve now t f teamID cap' est (l_db l)).2; l_now := t;
         l_open := granted (Reserve now t f teamID cap' est (l_db l)).1 ++ l_open l;
         l_settled := l_settled l;
         l_stranded := l_stranded l + stranded_by f cap' est (balance l);
         l_again := l_again l; l_cleared := l_cleared l; l_over := l_over l |}
| LSettle l t f r l1 l2 actual :
    l_now l ≤ t < T → l_open l = l1 ++ r :: l2 → 0 ≤ actual ≤ int64_max →
    let delta := actual - r_reserved r in
    let ok := took_effect f delta (balance l) in
    lstep teamID period cap T l
      {| l_db := (Reconcile t f (Some r) actual (l_db l)).2; l_now := t; l_open := l1 ++ l2;
         l_settled := l_settled l + (if ok then actual else 0);
         l_stranded := l_stranded l + (if ok then 0 else r_reserved r);
         l_again := l_again l + second_run f delta (balance l); l_cleared := l_cleared l;
         l_over := l_over l + Z.of_nat (runs f) * Z.max 0 delta |}
| LResend l t r actual :
    l_now l ≤ t < T → r ∈ l_open l → 0 ≤ actual ≤ int64_max →
    let delta := actual - r_reserved r in
    lstep teamID period cap T l
      {| l_db := (Reconcile t ReplyLost (Some r) actual (l_db l)).2; l_now := t; l_open := l_open l;
         l_settled := l_settled l; l_stranded := l_stranded l;
         l_again := l_again l + (counted delta (balance l) - balance l); l_cleared := l_cleared l;
         l_over := l_over l + Z.max 0 delta |}
| LReset l now t f :
    l_now l ≤ t < T → currentPeriod now = period →
    lstep teamID period cap T l
      {| l_db := (Reset now f teamID (l_db l)).2; l_now := t; l_open := l_open l;
         l_settled := l_settled l; l_stranded := l_stranded l; l_again := l_again l;
         l_cleared := l_cleared l + (if bool_decide (f = NotSent) then 0 else balance l);
         l_over := l_over l |}.

(** What the ledger promises: the Redis counter is the balance, which is
    within the cap but for the overruns. *)
Record ledger_ok (teamID period : string) (cap T : Z) (l : ledger) : Prop := {
  lo_counter : counter_until (l_now l) T (periodKey teamID period) (balance l) (l_db l);
  lo_range : in_int64 (balance l);
  lo_cap : balance l ≤ cap + l_over l;
  lo_signs : 0 ≤ l_settled l ∧ 0 ≤ l_stranded l ∧ 0 ≤ l_over l;
  lo_open : Forall (λ r, r_teamID r = teamID ∧ r_period r = period ∧
                         0 ≤ r_reserved r ≤ int64_max) (l_open l) }.

Lemma open_total_app l1 l2 : open_total (l1 ++ l2) = open_total l1 + open_total l2.
Proof. induction l1 as [|r l1 IH]; simpl; [done|rewrite IH; lia]. Qed.

Lemma open_total_cons r l : open_total (r :: l) = r_reserved r + open_total l.
Proof. done. Qed.

Lemma open_total_nonneg l :
  Forall (λ r, 0 ≤ r_reserved r) l → 0 ≤ open_total l.
Proof. induction 1; simpl; lia. Qed.

(** One run of the script, at a counter of any value. *)
Lemma script_once t T key cap est ttl c d :
  cap ≤ int64_max → 0 ≤ est → t < T → T ≤ t + ttl * 1000 → counter_until t T key c d → in_int64 c →
  ∃ reply d', reserveScript t key cap est ttl d = (reply, d') ∧
    counter_until t T key (admitted cap est c) d' ∧
    (reply = Some (script_reply cap est c) ∨ (reply = None ∧ admits cap est c = false)).
Proof.
  intros Hcap Hest HtT Httl Hc Hr.
  destruct (decide (int64_min ≤ c + est ∧ c + est ≤ int64_max)) as [Hra|Hra].
  - destruct (reserveScript_in_range _ _ _ cap est _ _ _ HtT Httl Hc Hr Hra) as (d2 & -> & Hh).
    eexists _, _. split; [done|]. split; [by left|by left].
  - rewrite (reserveScript_overflow _ _ _ cap est _ _ _ HtT Hc Hra). eexists _, _. split; [done|].
    assert (admits cap est c = false) as Hno by (unfold admits, in_int64 in *; apply Z.leb_gt; lia).
    unfold admitted. rewrite Hno. eauto.
Qed.

Lemma admitted_fits cap est c : admitted cap est c = c + fits cap est c.
Proof. unfold admitted, fits. destruct (admits cap est c); lia. Qed.

Lemma fits_bounds cap est c : 0 ≤ est → 0 ≤ fits cap est c ∧ (fits cap est c = 0 ∨ c + fits cap est c ≤ cap).
Proof. intros. unfold fits, admits. destruct (Z.leb_spec (c + est) cap); lia. Qed.

Lemma granted_reply teamID period cap est c reply (d : db) :
  0 ≤ est ≤ int64_max →
  reply = Some (script_reply cap est c) ∨ (reply = None ∧ admits cap est c = false) →
  let res := (match reply with
              | Some raw => (reserve_reply teamID period est raw, d)
              | None => (Err RedisError, d) end) in
  res.2 = d ∧ open_total (granted res.1) = fits cap est c ∧
  Forall (λ r, r_teamID r = teamID ∧ r_period r = period ∧ 0 ≤ r_reserved r ≤ int64_max) (granted res.1).
Proof.
  intros Hest Hrep. unfold fits, script_reply in *. destruct Hrep as [->|[-> ->]]; [|done].
  destruct (admits cap est c); simpl; [|done]. split; [done|]. split; [lia|].
  constructor; [done|constructor].
Qed.

(** The handle a reservation gives out and what it strands make up what its
    runs added to the counter. *)
Lemma reserve_accounts now t T f teamID cap est c d :
  let key := periodKey teamID (currentPeriod now) in
  cap ≤ int64_max → est ≤ int64_max → t < T →
  T ≤ t + Z.quot (ttlUntilPeriodEnd now) second * 1000 → counter_until t T key c d → in_int64 c →
  let c' := c + open_total (granted (Reserve now t f teamID cap est d).1) + stranded_by f cap est c in
  counter_until t T key c' (Reserve now t f teamID cap est d).2 ∧
  in_int64 c' ∧ 0 ≤ stranded_by f cap est c ∧ (c' = c ∨ c' ≤ cap) ∧
  Forall (λ r, r_teamID r = teamID ∧ r_period r = currentPeriod now ∧ 0 ≤ r_reserved r ≤ int64_max)
    (granted (Reserve now t f teamID cap est d).1).
Proof.
  intros key Hcap Hest HtT Httl Hc Hr. unfold Reserve, stranded_by.
  destruct (Z.leb_spec cap 0).
  { simpl. rewrite !Z.add_0_r.
    refine (conj Hc (conj Hr (conj (Z.le_refl 0) (conj (or_introl eq_refl) _)))). constructor. }
  destruct (Z.ltb_spec est 0) as [|Hpos].
  { simpl. rewrite !Z.add_0_r.
    refine (conj Hc (conj Hr (conj (Z.le_refl 0) (conj (or_introl eq_refl) _)))). constructor. }
  fold key. set (ttl := Z.quot _ second) in *.
  pose proof (admitted_range cap est c Hcap Hpos Hr) as [Hr1 _].
  pose proof (admitted_range cap est _ Hcap Hpos Hr1) as [Hr2 _].
  destruct (script_once t T key cap est ttl c d Hcap Hpos HtT Httl Hc Hr) as (reply & d1 & Hs & Hc1 & Hrep).
  destruct (script_once t T key cap est ttl _ d1 Hcap Hpos HtT Httl Hc1 Hr1) as (reply' & d2 & Hs' & Hc2 & Hrep').
  pose proof (fits_bounds cap est c Hpos) as Hf. pose proof (fits_bounds cap est (admitted cap est c) Hpos) as Hf'.
  rewrite admitted_fits in Hc1, Hr1. rewrite (admitted_fits _ _ (admitted _ _ _)), (admitted_fits _ _ c) in Hc2, Hr2.
  rewrite admitted_fits in Hf'.
  pose proof (granted_reply teamID (currentPeriod now) cap est c reply d1 (conj Hpos Hest) Hrep) as (Hd1 & Hg1 & Hall1).
  pose proof (granted_reply teamID (currentPeriod now) cap est _ reply' d2 (conj Hpos Hest) Hrep') as (Hd2 & Hg2 & Hall2).
  rewrite admitted_fits in Hg2.
  destruct f; cbn [round_trip snd fst orb]; rewrite ?Hs; cbn [snd fst]; rewrite ?Hs'; cbn [fst snd]; rewrite ?admitted_fits.
  - rewrite Hd1, Hg1, Z.add_0_r. refine (conj _ (conj _ (conj _ (conj _ _)))); done || lia.
  - simpl. rewrite !Z.add_0_r.
    refine (conj Hc (conj Hr (conj (Z.le_refl 0) (conj (or_introl eq_refl) _)))). constructor.
  - simpl. rewrite Z.add_0_r. refine (conj _ (conj _ (conj _ (conj _ _)))); done || lia.
  - rewrite Hd2, Hg2. replace (_ + _ + _) with (c + fits cap est c + fits cap est (c + fits cap est c)) by lia.
    refine (conj _ (conj _ (conj _ (conj _ _)))); done || lia.
  - simpl. rewrite Z.add_0_r, Z.add_assoc. refine (conj _ (conj _ (conj _ (conj _ _)))); done || lia.
Qed.

(** The runs of a settlement, in the ledger's terms. *)
Lemma settle_accounts f delta c :
  Nat.iter (runs f) (counted delta) c
    = c + (if took_effect f delta c then delta else 0) + second_run f delta c.
Proof.
  unfold took_effect. destruct (Z.eqb_spec delta 0) as [->|Hz].
  { destruct f; simpl; rewrite ?counted_0; lia. }
  destruct (counted_cases delta c) as [[He ?]|[He ?]]; destruct f; simpl; rewrite ?He; simpl;
    rewrite ?Z.eqb_refl; try lia;
    destruct (Z.eqb_spec c (c + delta)); rewrite ?He; simpl; lia.
Qed.

Lemma settle_over n delta c : Nat.iter n (counted delta) c ≤ c + Z.of_nat n * Z.max 0 delta.
Proof.
  induction n as [|n IH]; simpl Nat.iter; [lia|]. set (c' := Nat.iter n _ c) in *.
  destruct (counted_cases delta c') as [[-> _]|[-> _]]; lia.
Qed.

Lemma iter_counted_range n delta c : in_int64 c → in_int64 (Nat.iter n (counted delta) c).
Proof. intros. induction n as [|n IH]; [done|by apply counted_range]. Qed.

Lemma ledger_ok_later t teamID period cap T l :
  l_now l ≤ t → ledger_ok teamID period cap T l →
  counter_until t T (periodKey teamID period) (balance l) (l_db l).
Proof. intros Ht [Hc _ _ _ _]. by eapply counter_until_le. Qed.

Lemma lstep_ok teamID period cap T l l' :
  0 < cap ≤ int64_max → lstep teamID period cap T l l' →
  ledger_ok teamID period cap T l → ledger_ok teamID period cap T l'.
Proof.
  intros Hcap [? now t f cap' est Ht <- Httl Hcap' Hest|? t f r l1 l2 actual Ht Hopen Ha delta ok
              |? t r actual Ht Hin Ha delta|? now t f Ht <-] Hl;
    pose proof (ledger_ok_later t _ _ _ _ _ (proj1 Ht) Hl) as Hc; destruct Hl as [_ Hr Hle (? & ? & ?) Hall].
  - destruct (reserve_accounts now t T f teamID cap' est (balance l0) (l_db l0))
      as (Hc' & Hr' & Hs & Hle' & Hg); try done; [lia|lia|].
    set (c' := balance l0 + _ + _) in *.
    assert (balance l0 + open_total (granted (Reserve now t f teamID cap' est (l_db l0)).1)
      + stranded_by f cap' est (balance l0) = c') as Hbal by done.
    split; cbn [l_db l_now l_open l_settled l_stranded l_again l_cleared l_over].
    1-3: unfold balance at 1; simpl; rewrite ?open_total_app; replace (_ - l_cleared l0) with c' by (rewrite <- Hbal; unfold balance; lia); done || lia.
    { lia. } by apply Forall_app.
  - rewrite Hopen in Hall. apply Forall_app in Hall as [Hall1 [(Hteam & Hper & Hres) Hall2]%Forall_cons].
    pose proof (Reconcile_counter t T f r actual (balance l0) (l_db l0)) as Hrec.
    rewrite Hteam, Hper in Hrec. specialize (Hrec (proj2 Ht) Ha Hres Hc).
    pose proof (settle_over (runs f) delta (balance l0)) as Hover.
    pose proof (iter_counted_range (runs f) delta _ Hr) as Hr'.
    fold delta in Hrec. rewrite settle_accounts in Hrec, Hover, Hr'. fold ok in Hrec, Hover, Hr'.
    assert (balance l0 = l_settled l0 + (open_total l1 + (r_reserved r + open_total l2))
      + l_stranded l0 + l_again l0 - l_cleared l0) as Hb
      by (unfold balance; by rewrite Hopen, open_total_app, open_total_cons).
    split; cbn [l_db l_now l_open l_settled l_stranded l_again l_cleared l_over].
    1-3: unfold balance at 1; simpl; rewrite ?open_total_app; replace (_ - l_cleared l0) with
           (balance l0 + (if ok then delta else 0) + second_run f delta (balance l0))
           by (rewrite Hb at 1; subst delta; destruct ok; lia); done || lia.
    { destruct ok; lia. } by apply Forall_app.
  - assert (r_teamID r = teamID ∧ r_period r = period ∧ 0 ≤ r_reserved r ≤ int64_max) as (Hteam & Hper & Hres)
      by (by rewrite Forall_forall in Hall; apply Hall).
    pose proof (Reconcile_counter t T ReplyLost r actual (balance l0) (l_db l0)) as Hrec.
    rewrite Hteam, Hper in Hrec. specialize (Hrec (proj2 Ht) Ha Hres Hc). fold delta in Hrec.
    pose proof (settle_over 1 delta (balance l0)) as Hover. pose proof (counted_range delta _ Hr) as Hr'.
    simpl in Hrec, Hover. split; cbn [l_db l_now l_open l_settled l_stranded l_again l_cleared l_over]; try done.
    1-3: unfold balance at 1; simpl; replace (_ - l_cleared l0) with (counted delta (balance l0)) by (unfold balance; lia); done || lia.
    lia.
  - assert (∀ d, counter_until t T (periodKey teamID (currentPeriod now)) 0
      (rdel (periodKey teamID (currentPeriod now)) d)) as Hdel.
    { intros d. right. split; [done|]. intros. apply rget_del. }
    assert ((Reset now f teamID (l_db l0)).2 = if bool_decide (f = NotSent) then l_db l0
      else rdel (periodKey teamID (currentPeriod now)) (l_db l0)) as -> by (by destruct f).
    split; unfold balance; simpl; try done;
      destruct (bool_decide_reflect (f = NotSent)) as [->|Hf]; rewrite ?Z.add_0_r; try done.
    1: replace (_ - (l_cleared l0 + _)) with 0 by (unfold balance; lia); apply Hdel.
    1: replace (_ - (l_cleared l0 + _)) with 0 by (unfold balance; lia); done.
    unfold balance. lia.
Qed.

(** The state of a period nobody has spent in yet. *)
Definition ledger_init (t : Z) (d : db) : ledger :=
  {| l_db := d; l_now := t; l_open := []; l_settled := 0;
     l_stranded := 0; l_again := 0; l_cleared := 0; l_over := 0 |}.

(** C1: the spend counter is exact, and the cap holds but for overruns, at
    every point of every interleaving.  Start from a month nobody has spent in
    and run any sequence of reservations under any caps up to [cap],
    settlements of open handles with any actual cost, settlements sent again by
    the client's retry, and operator resets, each command lost on the way, run
    without a reply, or run twice.  The Redis counter then equals the settled
    cost, plus the open reservations, plus what was stranded (reservations whose
    reply was lost, handles whose settlement never ran), plus what settlements
    run again moved a second time, less what resets cleared.  It exceeds the cap
    by at most the amounts by which settlements exceeded their reservations;
    [Reconcile] does not check the cap.  When no settlement ran twice or was
    sent again, no reset ran and no actual cost exceeded its reservation, what
    was spent and what is reserved together are within the cap.  The history
    runs inside the counter's lifetime [T], with amounts in 64 bits. *)
Theorem ledger_exact_and_capped teamID period cap T t0 d l :
  0 < cap ≤ int64_max → (∀ t, t0 ≤ t → rget t (periodKey teamID period) d = None) →
  rtc (lstep teamID period cap T) (ledger_init t0 d) l → l_now l < T →
  let counter := default 0 (rget (l_now l) (periodKey teamID period) (l_db l)) in
  counter = l_settled l + open_total (l_open l) + l_stranded l + l_again l - l_cleared l ∧
  counter ≤ cap + l_over l ∧ in_int64 counter ∧
  0 ≤ l_settled l ∧ 0 ≤ open_total (l_open l) ∧ 0 ≤ l_stranded l ∧
  (l_again l = 0 → l_cleared l = 0 → l_over l = 0 →
   l_settled l + open_total (l_open l) ≤ counter ≤ cap).
Proof.
  intros Hcap Habs Hrun HT.
  assert (ledger_ok teamID period cap T (ledger_init t0 d)) as Hinit.
  { split; simpl; try done. by right. unfold balance. simpl. lia. }
  assert (ledger_ok teamID period cap T l) as Hl.
  { clear HT. induction Hrun; eauto using lstep_ok. }
  destruct Hl as [Hc Hr Hle (? & ? & ?) Hall].
  assert (0 ≤ open_total (l_open l)).
  { apply open_total_nonneg. eapply Forall_impl; [apply Hall|]. naive_solver. }
  rewrite (counter_until_get _ _ _ _ _ HT Hc). unfold balance in *.
  refine (conj eq_refl (conj Hle (conj Hr _))). lia.
Qed.

(** settling a handle touches only the team and period it was reserved
    in: whatever month the clock now shows, every other key is untouched. *)
Theorem Reconcile_own_period t t' f r actual (d : db) key' :
  key' ≠ periodKey (r_teamID r) (r_period r) →
  rget t' key' (Reconcile t f (Some r) actual d).2 = rget t' key' d.
Proof.
  intros Hne. unfold Reconcile, round_trip, rincrby.
  repeat case_match; simplify_eq/=; rewrite ?rget_put_ne by done; done.
Qed.
End tracker.

(** ** Time and keys *)

(** the TTL sent with a reservation always outlives the month it belongs
    to by the 48 hour grace, and is at most 31 days more than that. *)
Theorem ttl_outlives_period now :
  next_month_first now + periodGrace = now + ttlUntilPeriodEnd now ∧
  periodGrace < ttlUntilPeriodEnd now ≤ periodGrace + 31 * day ∧
  48 * 3600 ≤ Z.quot (ttlUntilPeriodEnd now) second.
Proof.
  pose proof (month_index_spec now) as [Hlo Hhi].
  pose proof (month_index_bounds now) as Hb.
  unfold ttlUntilPeriodEnd, next_month_first in *.
  split; [lia|]. split; [lia|].
  assert (0 ≤ periodGrace) by done.
  rewrite Z.quot_div_nonneg; [|lia|done].
  apply Z.div_le_lower_bound; [done|].
  unfold periodGrace, hour, minute, second, millisecond, microsecond, nanosecond in *. lia.
Qed.

Lemma currentPeriod_length now : String.length (currentPeriod now) = 7%nat.
Proof. reflexivity. Qed.

(** Two teams, or two months of one team, never share a counter, whatever
    characters a team ID holds. *)
Lemma periodKey_injective team1 team2 now1 now2 :
  periodKey team1 (currentPeriod now1) = periodKey team2 (currentPeriod now2) →
  team1 = team2 ∧ currentPeriod now1 = currentPeriod now2.
Proof.
  unfold periodKey. intros H.
  assert (((keyPrefix ++ ":") ++ team1) ++ (":" ++ currentPeriod now1) =
          ((keyPrefix ++ ":") ++ team2) ++ (":" ++ currentPeriod now2))%string as H'
    by exact H.
  apply string_app_inv_suffix in H' as [H1 H2].
  2: { by rewrite !string_app_length, !currentPeriod_length. }
  split; [by apply string_app_inv_prefix in H1|by apply string_app_inv_prefix in H2].
Qed.

(** ** Witnesses, on the concrete Redis *)

Definition demo_now : Z := 1772323199 * second.

Lemma Reserve_decides_witness :
  ∃ ro res d', Reserve demo_now 0 Replied "acme" 1000000 400000 (∅ : RedisMap.db Z)
                 = (Ok (ro, res), d') ∧ Allowed res = true.
Proof.
  destruct (Reserve_decides (db := RedisMap.db Z) demo_now 0 172800000 "acme" 1000000 400000 0 ∅)
    as (ro & res & d' & H1 & H2 & _); [closed| | | | | | |]; [closed| | | | | |];
    [closed| | | | |]; [closed| | | |].
  - right. split; [done|]. intros t' _. reflexivity.
  - unfold in_int64. closed.
  - unfold in_int64. closed.
  - exists ro, res, d'. split; [exact H1|exact H2].
Defined.

Lemma Reserve_fails_closed_witness :
  ∃ d', Reserve demo_now 0 RetryLost "acme" 1000000 400000 (∅ : RedisMap.db Z)
          = (Err RedisError, d').
Proof.
  destruct (Reserve_fails_closed (db := RedisMap.db Z) demo_now 0 172800000 "acme"
              1000000 400000 0 RetryLost ∅) as (d' & H & _);
    [closed|closed|discriminate|discriminate|closed|closed| | |].
  - right. split; [done|]. intros t' _. reflexivity.
  - unfold in_int64. closed.
  - exists d'. exact H.
Defined.

(** A run with everything in it: a reservation whose command runs twice, a
    settlement that costs more than was reserved, and one sent again. *)
Definition demo_handle : Reservation :=
  {| r_teamID := "acme"; r_period := "2026-02"; r_reserved := 400000 |}.

Definition demo_reserved : ledger :=
  {| l_db := (Reserve demo_now 0 Retried "acme" 1000000 400000 (∅ : RedisMap.db Z)).2; l_now := 0;
     l_open := [demo_handle]; l_settled := 0; l_stranded := 400000; l_again := 0; l_cleared := 0; l_over := 0 |}.

Definition demo_resent : ledger :=
  {| l_db := (Reconcile 1 ReplyLost (Some demo_handle) 450000 (l_db demo_reserved)).2; l_now := 1;
     l_open := [demo_handle]; l_settled := 0; l_stranded := 400000; l_again := 50000; l_cleared := 0;
     l_over := 50000 |}.

Definition demo_run : ledger :=
  {| l_db := (Reconcile 2 Replied (Some demo_handle) 450000 (l_db demo_resent)).2; l_now := 2;
     l_open := []; l_settled := 450000; l_stranded := 400000; l_again := 50000; l_cleared := 0;
     l_over := 100000 |}.

Lemma ledger_exact_and_capped_witness :
  default 0 (rget (l_now demo_run) (periodKey "acme" "2026-02") (l_db demo_run)) = 900000 ∧
  900000 ≤ 1000000 + l_over demo_run.
Proof.
  destruct (ledger_exact_and_capped (db := RedisMap.db Z) "acme" "2026-02" 1000000 172800000 0
              ∅ demo_run) as (H1 & H2 & _).
  - closed.
  - intros t _. reflexivity.
  - apply (rtc_l _ _ demo_reserved).
    { exact (LReserve "acme" "2026-02" 1000000 172800000 (ledger_init 0 (∅ : RedisMap.db Z)) demo_now 0
        Retried 1000000 400000 ltac:(closed) ltac:(closed) ltac:(closed) ltac:(closed) ltac:(closed)). }
    apply (rtc_l _ _ demo_resent).
    { exact (LResend "acme" "2026-02" 1000000 172800000 demo_reserved 1 demo_handle 450000
        ltac:(closed) ltac:(by left) ltac:(closed)). }
    apply (rtc_l _ _ demo_run); [|apply rtc_refl].
    exact (LSettle "acme" "2026-02" 1000000 172800000 demo_resent 2 Replied demo_handle [] [] 450000
      ltac:(closed) ltac:(closed) ltac:(closed)).
  - vm_compute. reflexivity.
  - split; [exact H1|]. rewrite H1 in H2. exact H2.
Defined.

Lemma Reconcile_own_period_witness :
  let r := {| r_teamID := "acme"; r_period := "2026-02"; r_reserved := 400000 |} in
  rget 5 "switchyard:budget:globex:2026-02"
    (Reconcile 1 Replied (Some r) 10 (∅ : RedisMap.db Z)).2 = None.
Proof.
  intros r.
  exact (Reconcile_own_period (db := RedisMap.db Z) 1 5 Replied r 10 ∅
           "switchyard:budget:globex:2026-02" ltac:(vm_compute; discriminate)).
Defined.

End Tracker.
