(* ===== verification/Breaker.v ===== *)
(** * internal/resilience/breaker.go: the circuit breaker

    The state machine of one provider and model, local or backed by a shared
    store.  A method that holds the mutex throughout is one function of the
    breaker and of one reading [now] of the clock; the methods that do Redis
    I/O outside the mutex are their composition.  Such a method of the source
    reads the clock again after each round trip; here all its readings are one
    instant [now], as if the round trips took no time on the replica's clock,
    while the store has a clock [t] of its own.  The store is the interface
    [BreakerStore], declared next to its consumer as in the source. *)

From S2P Require Import Prelude Redis.

(** ** Configuration and state *)

Inductive State := StateClosed | StateOpen | StateHalfOpen.

#[export] Instance State_eq_dec : EqDecision State.
Proof. solve_decision. Defined.

Definition State_String (s : State) : string :=
  match s with
  | StateClosed => "closed"
  | StateOpen => "open"
  | StateHalfOpen => "half_open"
  end.

Record BreakerConfig := {
  FailureThreshold : Z;
  Window : Z;
  CooldownBase : Z;
  CooldownMax : Z;
  SuccessThreshold : Z;
  ProbeTimeout : Z;
  StateCacheTTL : Z
}.

Inductive config_error :=
| BadFailureThreshold | BadWindow | BadCooldownBase | BadCooldownMax
| BadSuccessThreshold | BadProbeTimeout | BadStateCacheTTL.

Definition validate (c : BreakerConfig) : option config_error :=
  if FailureThreshold c <=? 0 then Some BadFailureThreshold
  else if Window c <=? 0 then Some BadWindow
  else if CooldownBase c <=? 0 then Some BadCooldownBase
  else if CooldownMax c <? CooldownBase c then Some BadCooldownMax
  else if SuccessThreshold c <=? 0 then Some BadSuccessThreshold
  else if ProbeTimeout c <=? 0 then Some BadProbeTimeout
  else if StateCacheTTL c <=? 0 then Some BadStateCacheTTL
  else None.

(** The fleet's view of one breaker. *)
Record SharedState := { ss_State : State; ss_Reopens : Z; ss_Successes : Z }.

Definition SharedState_zero : SharedState :=
  {| ss_State := StateClosed; ss_Reopens := 0; ss_Successes := 0 |}.

(** Instants are nanoseconds; [cachedAt] is [None] for the zero [time.Time]. *)
Record Breaker := {
  state : State;
  failures : list Z;
  successStreak : Z;
  probeInFlight : bool;
  probeStartedAt : Z;
  openedAt : Z;
  cooldown : Z;
  reopens : Z;
  hasStore : bool;
  unpublished : bool;
  cached : SharedState;
  cachedOK : bool;
  cachedAt : option Z
}.

(** A method that assigns some fields of the breaker and leaves the others. *)
Definition with_machine (b : Breaker) s fl ss pf pa oa cd ro : Breaker :=
  {| state := s; failures := fl; successStreak := ss; probeInFlight := pf;
     probeStartedAt := pa; openedAt := oa; cooldown := cd; reopens := ro;
     hasStore := hasStore b; unpublished := unpublished b;
     cached := cached b; cachedOK := cachedOK b; cachedAt := cachedAt b |}.

Definition with_cache (b : Breaker) c ok at_ : Breaker :=
  {| state := state b; failures := failures b; successStreak := successStreak b;
     probeInFlight := probeInFlight b; probeStartedAt := probeStartedAt b;
     openedAt := openedAt b; cooldown := cooldown b; reopens := reopens b;
     hasStore := hasStore b; unpublished := unpublished b;
     cached := c; cachedOK := ok; cachedAt := at_ |}.

Definition with_unpublished (b : Breaker) u : Breaker :=
  {| state := state b; failures := failures b; successStreak := successStreak b;
     probeInFlight := probeInFlight b; probeStartedAt := probeStartedAt b;
     openedAt := openedAt b; cooldown := cooldown b; reopens := reopens b;
     hasStore := hasStore b; unpublished := u;
     cached := cached b; cachedOK := cachedOK b; cachedAt := cachedAt b |}.

Definition NewSharedBreaker (cfg : BreakerConfig) (store : bool)
    : result config_error Breaker :=
  match validate cfg with
  | Some e => Err e
  | None => Ok {| state := StateClosed; failures := []; successStreak := 0;
                  probeInFlight := false; probeStartedAt := 0; openedAt := 0;
                  cooldown := CooldownBase cfg; reopens := 0;
                  hasStore := store; unpublished := false;
                  cached := SharedState_zero; cachedOK := false; cachedAt := None |}
  end.

Definition NewBreaker (cfg : BreakerConfig) : result config_error Breaker :=
  NewSharedBreaker cfg false.

(** ** The local machine *)

Definition maxCooldownExponent : Z := 20.

Definition nextCooldown (cfg : BreakerConfig) (reopens : Z) : Z :=
  let exponent := reopens - 1 in
  let exponent := if exponent <? 0 then 0 else exponent in
  let exponent := if maxCooldownExponent <? exponent then maxCooldownExponent else exponent in
  let d := shl64 (CooldownBase cfg) exponent in
  if (d <=? 0) || (CooldownMax cfg <? d) then CooldownMax cfg else d.

Fixpoint pruneBefore (ts : list Z) (cutoff : Z) : list Z :=
  match ts with
  | [] => []
  | t :: ts' => if t <? cutoff then pruneBefore ts' cutoff else ts
  end.

Definition setState (now : Z) (next : State) (b : Breaker) : Breaker :=
  with_machine b next (failures b) (successStreak b) false (probeStartedAt b)
    (if decide (next = StateOpen) then now else openedAt b) (cooldown b) (reopens b).

Definition releaseProbe (b : Breaker) : Breaker :=
  with_machine b (state b) (failures b) (successStreak b) false (probeStartedAt b)
    (openedAt b) (cooldown b) (reopens b).

Definition usesStore (b : Breaker) : bool := hasStore b && negb (unpublished b).

Definition open (cfg : BreakerConfig) (now : Z) (b : Breaker) : Breaker :=
  let ro := reopens b + 1 in
  setState now StateOpen
    (with_machine b (state b) [] 0 (probeInFlight b) (probeStartedAt b)
       (openedAt b) (nextCooldown cfg ro) ro).

Definition claimProbe (cfg : BreakerConfig) (now : Z) (b : Breaker) : bool * Breaker :=
  if probeInFlight b && (now - probeStartedAt b <? ProbeTimeout cfg)
  then (false, b)
  else (true, with_machine b (state b) (failures b) (successStreak b) true now
                (openedAt b) (cooldown b) (reopens b)).

Definition allowLocal (cfg : BreakerConfig) (now : Z) (b : Breaker) : bool * Breaker :=
  let b := if bool_decide (state b = StateOpen) && (cooldown b <=? now - openedAt b)
           then setState now StateHalfOpen b else b in
  match state b with
  | StateClosed => (true, b)
  | StateHalfOpen => claimProbe cfg now b
  | StateOpen => (false, b)
  end.

(** Returns whether the shared store still needs telling. *)
Definition recordSuccessLocally (cfg : BreakerConfig) (now : Z) (b : Breaker)
    : bool * Breaker :=
  let b := releaseProbe b in
  if bool_decide (state b ≠ StateHalfOpen) then (false, b)
  else if usesStore b then (true, b)
  else
    let ss := successStreak b + 1 in
    if SuccessThreshold cfg <=? ss
    then (false, setState now StateClosed
                   (with_machine b (state b) (failures b) ss (probeInFlight b)
                      (probeStartedAt b) (openedAt b) (CooldownBase cfg) 0))
    else (false, with_machine b (state b) (failures b) ss (probeInFlight b)
                   (probeStartedAt b) (openedAt b) (cooldown b) (reopens b)).

(** Returns the episode to publish, if one was opened and a store is in play. *)
Definition recordFailureLocally (cfg : BreakerConfig) (now : Z) (b : Breaker)
    : (Z * Z * bool) * Breaker :=
  let b := releaseProbe b in
  match state b with
  | StateHalfOpen =>
      let b := open cfg now b in ((cooldown b, reopens b, usesStore b), b)
  | StateClosed =>
      let fl := pruneBefore (failures b ++ [now]) (now - Window cfg) in
      let b := with_machine b (state b) fl (successStreak b) (probeInFlight b)
                 (probeStartedAt b) (openedAt b) (cooldown b) (reopens b) in
      if Z.of_nat (length fl) <? FailureThreshold cfg then ((0, 0, false), b)
      else let b := open cfg now b in ((cooldown b, reopens b, usesStore b), b)
  | StateOpen => ((0, 0, false), b)
  end.

(** The part of [Reset] that runs under the mutex. *)
Definition resetLocally (cfg : BreakerConfig) (now : Z) (b : Breaker) : Breaker :=
  let b := with_unpublished
             (with_machine b (state b) [] 0 false (probeStartedAt b)
                (openedAt b) (CooldownBase cfg) 0) false in
  if bool_decide (state b ≠ StateClosed) then setState now StateClosed b else b.

(** ** Reporting *)

Record BreakerSnapshot := {
  sn_State : State; sn_Failures : Z; sn_FailureThreshold : Z;
  sn_SuccessStreak : Z; sn_SuccessThreshold : Z; sn_Reopens : Z;
  sn_ProbeInFlight : bool; sn_Cooldown : Z; sn_CooldownRemaining : Z
}.

Definition Inspect (cfg : BreakerConfig) (now : Z) (b : Breaker) : BreakerSnapshot :=
  let cutoff := now - Window cfg in
  let elapsed := now - openedAt b in
  {| sn_State := state b;
     sn_Failures := countb (λ t, negb (t <? cutoff)) (failures b);
     sn_FailureThreshold := FailureThreshold cfg;
     sn_SuccessStreak := successStreak b;
     sn_SuccessThreshold := SuccessThreshold cfg;
     sn_Reopens := reopens b;
     sn_ProbeInFlight := probeInFlight b;
     sn_Cooldown := cooldown b;
     sn_CooldownRemaining :=
       if bool_decide (state b = StateOpen) && (elapsed <? cooldown b)
       then cooldown b - elapsed else 0 |}.

(** ** The shared store, as an interface

    [Load], [Open], [RecordProbeSuccess], [ClaimProbe] and [Reset] of the
    source's [BreakerStore].  [t] is the store's own clock; an operation whose
    reply does not arrive is an error, and may or may not have run. *)
Class BreakerStore (S : Type) := {
  st_Load : Z → net_fate → S → result unit SharedState;
  st_Open : Z → net_fate → Z → Z → S → result unit unit * S;
  st_RecordProbeSuccess : Z → net_fate → Z → S → result unit SharedState * S;
  st_ClaimProbe : Z → net_fate → Z → S → result unit bool * S;
  st_Reset : net_fate → S → result unit unit * S
}.

Section shared.
Context {S} `{!BreakerStore S} (cfg : BreakerConfig).

Definition sharedState (now t : Z) (f : net_fate) (b : Breaker) (s : S)
    : option SharedState * Breaker :=
  let fresh := match cachedAt b with
               | Some at_ => now - at_ <? StateCacheTTL cfg
               | None => false
               end in
  if fresh then ((if cachedOK b then Some (cached b) else None), b)
  else match st_Load t f s with
       | Err _ => (None, with_cache b SharedState_zero false (Some now))
       | Ok shared => (Some shared, with_cache b shared true (Some now))
       end.

Definition installShared (now : Z) (shared : SharedState) (b : Breaker) : Breaker :=
  with_cache b shared true (Some now).

Definition invalidateShared (b : Breaker) : Breaker :=
  with_cache b (cached b) (cachedOK b) None.

Definition claimSharedProbe (t : Z) (f : net_fate) (s : S) : bool * S :=
  match st_ClaimProbe t f (ProbeTimeout cfg) s with
  | (Err _, s') => (false, s')
  | (Ok ok, s') => (ok, s')
  end.

(** The mirror step of [allowShared], under the mutex. *)
Definition adoptShared (now : Z) (shared : SharedState) (b : Breaker) : Breaker :=
  let b := if bool_decide (ss_State shared ≠ state b)
           then setState now (ss_State shared) b else b in
  with_machine b (state b) (failures b) (ss_Successes shared) (probeInFlight b)
    (probeStartedAt b) (openedAt b) (cooldown b) (ss_Reopens shared).

Definition allowShared (now t : Z) (f : net_fate) (shared : SharedState)
    (b : Breaker) (s : S) : bool * Breaker * S :=
  let b := adoptShared now shared b in
  match ss_State shared with
  | StateClosed => (true, b, s)
  | StateHalfOpen => let '(ok, s') := claimSharedProbe t f s in (ok, b, s')
  | StateOpen => (false, b, s)
  end.

(** [fl] is the fate of the [Load] and [fc] of the probe claim, when the
    call makes them. *)
Definition Allow (now t : Z) (fl fc : net_fate) (b : Breaker) (s : S)
    : bool * Breaker * S :=
  if usesStore b then
    match sharedState now t fl b s with
    | (Some shared, b') => allowShared now t fc shared b' s
    | (None, b') => let '(ok, b'') := allowLocal cfg now b' in (ok, b'', s)
    end
  else let '(ok, b') := allowLocal cfg now b in (ok, b', s).

Definition publishProbeSuccess (now t : Z) (f : net_fate) (b : Breaker) (s : S)
    : Breaker * S :=
  match st_RecordProbeSuccess t f (SuccessThreshold cfg) s with
  | (Err _, s') => (invalidateShared b, s')
  | (Ok shared, s') =>
      let b := installShared now shared b in
      let b := with_machine b (state b) (failures b) (ss_Successes shared)
                 (probeInFlight b) (probeStartedAt b) (openedAt b) (cooldown b) (reopens b) in
      let b := if bool_decide (ss_State shared ≠ state b)
               then setState now (ss_State shared) b else b in
      (if bool_decide (ss_State shared = StateClosed)
       then with_unpublished
              (with_machine b (state b) (failures b) (successStreak b) (probeInFlight b)
                 (probeStartedAt b) (openedAt b) (CooldownBase cfg) 0) false
       else b, s')
  end.

Definition RecordSuccess (now t : Z) (f : net_fate) (b : Breaker) (s : S) : Breaker * S :=
  let '(publish, b) := recordSuccessLocally cfg now b in
  if publish then publishProbeSuccess now t f b s else (b, s).

Definition publishOpen (now t : Z) (f : net_fate) (cd ro : Z) (b : Breaker) (s : S)
    : Breaker * S :=
  match st_Open t f cd ro s with
  | (Err _, s') => (invalidateShared (with_unpublished b true), s')
  | (Ok _, s') =>
      (with_unpublished
         (installShared now {| ss_State := StateOpen; ss_Reopens := ro; ss_Successes := 0 |} b)
         false, s')
  end.

Definition RecordFailure (now t : Z) (f : net_fate) (b : Breaker) (s : S) : Breaker * S :=
  let '((cd, ro, opened), b) := recordFailureLocally cfg now b in
  if opened then publishOpen now t f cd ro b s else (b, s).

Definition Reset (now : Z) (f : net_fate) (b : Breaker) (s : S)
    : result unit unit * Breaker * S :=
  let '(err, b, s) :=
    if hasStore b
    then let '(e, s') := st_Reset f s in
         (e, installShared now {| ss_State := StateClosed; ss_Reopens := 0;
                                  ss_Successes := 0 |} b, s')
    else (Ok tt, b, s) in
  (err, resetLocally cfg now b, s).
End shared.
