(* ===== verification/BreakerFacts.v ===== *)
(** * What the circuit breaker guarantees

    The local machine: its invariant on every reachable state, the sliding
    failure window, the single-probe guard and the cooldown.  The shared
    breaker: it honours the fleet's verdict and falls back to the local
    machine exactly when the store cannot be read. *)

From Stdlib Require Import Sorted.
From S2P Require Import Prelude Redis Breaker.

Definition config_ok (cfg : BreakerConfig) : Prop := validate cfg = None.

Lemma config_ok_fields cfg :
  config_ok cfg →
  0 < FailureThreshold cfg ∧ 0 < Window cfg ∧ 0 < CooldownBase cfg ≤ CooldownMax cfg ∧
  0 < SuccessThreshold cfg ∧ 0 < ProbeTimeout cfg ∧ 0 < StateCacheTTL cfg.
Proof. unfold config_ok, validate. intros H. split_ifs. lia. Qed.

(** ** The cooldown *)

(** [CooldownBase] doubled once per consecutive episode, capped. *)
Definition cooldown_spec (cfg : BreakerConfig) (reopens : Z) : Z :=
  Z.min (CooldownMax cfg)
        (CooldownBase cfg * 2 ^ Z.max 0 (Z.min (reopens - 1) maxCooldownExponent)).

(** below two to the 43 nanoseconds of base (two hours and twenty-six
    minutes) the shift cannot overflow: the cooldown is the base doubled per
    consecutive episode and capped, so it lies between base and cap and never
    shrinks while episodes repeat. *)
Theorem nextCooldown_exponential cfg r1 r2 :
  config_ok cfg → CooldownBase cfg < 2 ^ 43 → r1 ≤ r2 →
  nextCooldown cfg r1 = cooldown_spec cfg r1 ∧
  CooldownBase cfg ≤ nextCooldown cfg r1 ≤ CooldownMax cfg ∧
  nextCooldown cfg r1 ≤ nextCooldown cfg r2.
Proof.
  intros Hok Hb Hr. apply config_ok_fields in Hok as (_ & _ & Hbm & _).
  assert (∀ r, nextCooldown cfg r = cooldown_spec cfg r) as Heq.
  { intros r. unfold nextCooldown, cooldown_spec, maxCooldownExponent.
    set (e := if 20 <? _ then _ else _).
    assert (e = Z.max 0 (Z.min (r - 1) 20)) as -> by (subst e; split_ifs; lia).
    set (e := Z.max 0 _) in *. assert (0 ≤ e ≤ 20) by lia.
    assert (1 ≤ 2 ^ e ≤ 2 ^ 20).
    { split; [|by apply Z.pow_le_mono_r; lia]. pose proof (Z.pow_pos_nonneg 2 e). lia. }
    assert (CooldownBase cfg * 2 ^ e ≤ int64_max).
    { unfold int64_max. transitivity (2 ^ 43 * 2 ^ 20 - 1); [nia|done]. }
    rewrite shl64_mul by (unfold in_int64, int64_min; nia).
    split_ifs; lia. }
  assert (2 ^ 0 = 1) as H0 by done.
  rewrite !Heq. unfold cooldown_spec, maxCooldownExponent. split; [done|].
  set (e1 := Z.max 0 _). set (e2 := Z.max 0 _).
  assert (2 ^ 0 ≤ 2 ^ e1) by (apply Z.pow_le_mono_r; lia).
  assert (2 ^ e1 ≤ 2 ^ e2) by (apply Z.pow_le_mono_r; lia).
  nia.
Qed.

Definition demo_cfg : BreakerConfig :=
  {| FailureThreshold := 3; Window := 60 * second; CooldownBase := 5 * second;
     CooldownMax := 300 * second; SuccessThreshold := 2; ProbeTimeout := 30 * second;
     StateCacheTTL := 500 * millisecond |}.

Lemma nextCooldown_exponential_witness :
  nextCooldown demo_cfg 3 = 20 * second ∧ nextCooldown demo_cfg 3 ≤ nextCooldown demo_cfg 9.
Proof.
  destruct (nextCooldown_exponential demo_cfg 3 9) as (H1 & _ & H2); [reflexivity|closed|lia|].
  split; [exact H1|exact H2].
Defined.

(** Past that base the check for a wrapped shift is not enough: a shift can
    wrap to a small positive number.  A base of about 4.9 hours gives a
    cooldown of one millisecond at the twenty-first episode. *)
Example nextCooldown_wraps :
  let cfg := {| FailureThreshold := 3; Window := 1; CooldownBase := 2 ^ 44 + 1;
                CooldownMax := 2 ^ 50; SuccessThreshold := 1; ProbeTimeout := 1;
                StateCacheTTL := 1 |} in
  validate cfg = None ∧ nextCooldown cfg 21 = 2 ^ 20.
Proof. split; vm_compute; reflexivity. Qed.

(** ** The sliding window *)

Lemma pruneBefore_keep ts cutoff :
  StronglySorted Z.le ts → pruneBefore ts cutoff = keep (λ t, cutoff <=? t) ts.
Proof.
  induction 1 as [|t ts Hs IH Hall]; simpl; [done|].
  destruct (Z.ltb_spec t cutoff), (Z.leb_spec cutoff t); try lia; [done|].
  f_equal. symmetry. apply keep_all. intros x Hx.
  rewrite Forall_forall in Hall. specialize (Hall x Hx). apply Z.leb_le. lia.
Qed.

Lemma StronglySorted_snoc ts now :
  StronglySorted Z.le ts → Forall (λ t, t ≤ now) ts → StronglySorted Z.le (ts ++ [now]).
Proof.
  induction 1 as [|t ts Hs IH Hall]; simpl; intros H.
  - repeat constructor.
  - apply Forall_cons in H as [Ht H]. constructor; [by apply IH|].
    apply Forall_app. split; [done|]. by constructor.
Qed.

Lemma keep_StronglySorted f ts : StronglySorted Z.le ts → StronglySorted Z.le (keep f ts).
Proof.
  induction 1 as [|t ts Hs IH Hall]; simpl; [constructor|].
  destruct (f t); [|done]. constructor; [done|].
  rewrite Forall_forall in *. intros x [Hx _]%elem_of_keep. by apply Hall.
Qed.

(** ** The invariant of a local breaker *)

Record local_ok (cfg : BreakerConfig) (now : Z) (b : Breaker) : Prop := {
  lk_store : hasStore b = false;
  lk_sorted : StronglySorted Z.le (failures b);
  lk_past : Forall (λ t, t ≤ now) (failures b);
  lk_closed : state b = StateClosed →
    reopens b = 0 ∧ cooldown b = CooldownBase cfg ∧
    Z.of_nat (length (failures b)) < FailureThreshold cfg;
  lk_tripped : state b ≠ StateClosed →
    1 ≤ reopens b ∧ cooldown b = nextCooldown cfg (reopens b) ∧ failures b = [] ∧
    0 ≤ successStreak b < SuccessThreshold cfg ∧ openedAt b ≤ now;
  lk_probe : probeInFlight b = true → state b = StateHalfOpen ∧ probeStartedAt b ≤ now
}.

Inductive lop := OpAllow | OpSuccess | OpFailure | OpReset.

#[export] Instance lop_eq_dec : EqDecision lop.
Proof. solve_decision. Defined.

Definition run_op (cfg : BreakerConfig) (now : Z) (op : lop) (b : Breaker) : Breaker :=
  match op with
  | OpAllow => (allowLocal cfg now b).2
  | OpSuccess => (recordSuccessLocally cfg now b).2
  | OpFailure => (recordFailureLocally cfg now b).2
  | OpReset => resetLocally cfg now b
  end.

Inductive reach (cfg : BreakerConfig) : Z → Breaker → Prop :=
| reach_new now b : NewBreaker cfg = Ok b → reach cfg now b
| reach_op now now' op b : reach cfg now b → now ≤ now' → reach cfg now' (run_op cfg now' op b).

Lemma local_ok_later cfg now now' b : now ≤ now' → local_ok cfg now b → local_ok cfg now' b.
Proof.
  intros Hle [Hst Hs Hp Hc Ht Hpr]. split; try done.
  - eapply Forall_impl; [done|]. simpl. lia.
  - intros Hn. specialize (Ht Hn). intuition lia.
  - intros Hf. specialize (Hpr Hf). intuition lia.
Qed.

Ltac fields := unfold setState, releaseProbe, with_machine, with_unpublished in *; simpl in *.

Lemma local_ok_open cfg now b :
  config_ok cfg → 0 ≤ reopens b → hasStore b = false → local_ok cfg now (open cfg now b).
Proof.
  intros Hok Hr Hst. apply config_ok_fields in Hok as (? & ? & ? & ? & ? & ?).
  unfold open. fields. split; simpl; try done; try constructor; try lia.
  intuition lia.
Qed.

Lemma local_ok_allow cfg now b :
  local_ok cfg now b → local_ok cfg now (run_op cfg now OpAllow b).
Proof.
  intros Hb. unfold run_op, allowLocal, claimProbe. destruct (state b) eqn:Hstate.
  - rewrite bool_decide_eq_false_2 by done. simpl. by rewrite Hstate.
  - rewrite bool_decide_eq_true_2 by done. simpl.
    destruct (cooldown b <=? now - openedAt b); fields; [|by rewrite Hstate].
    destruct Hb as [Hst Hs Hp _ Ht _]. split; simpl; try done.
    intros _. apply Ht. by rewrite Hstate.
  - rewrite bool_decide_eq_false_2 by done. simpl. rewrite Hstate.
    destruct (probeInFlight b && _); [done|].
    destruct Hb as [Hst Hs Hp _ Ht _]. fields. split; simpl; try done.
    intros _. apply Ht. by rewrite Hstate.
Qed.

Lemma local_ok_release cfg now b : local_ok cfg now b → local_ok cfg now (releaseProbe b).
Proof. intros [Hst Hs Hp Hc Ht Hpr]. fields. by split. Qed.

Lemma local_ok_success cfg now b :
  config_ok cfg → local_ok cfg now b → local_ok cfg now (run_op cfg now OpSuccess b).
Proof.
  intros Hok Hb. apply config_ok_fields in Hok as (? & ? & ? & ? & ? & ?).
  apply local_ok_release in Hb as [Hst Hs Hp Hc Ht Hpr].
  unfold run_op, recordSuccessLocally. set (b' := releaseProbe b) in *. clearbody b'.
  case_bool_decide as Hh; [by split|]. unfold usesStore. rewrite Hst. simpl.
  assert (state b' = StateHalfOpen) as Hs' by (by destruct (decide (state b' = StateHalfOpen))).
  destruct Ht as (? & ? & Hf & ? & ?); [by rewrite Hs'|].
  destruct (Z.leb_spec (SuccessThreshold cfg) (successStreak b' + 1)); fields; split; simpl;
    rewrite ?Hs'; try done; rewrite ?Hf; try constructor; intros; try done; try lia.
  - intuition lia.
  - by apply Hpr.
Qed.

Lemma local_ok_failure cfg now b :
  config_ok cfg → local_ok cfg now b → local_ok cfg now (run_op cfg now OpFailure b).
Proof.
  intros Hok Hb. apply local_ok_release in Hb.
  unfold run_op, recordFailureLocally. set (b' := releaseProbe b) in *. clearbody b'.
  destruct Hb as [Hst Hs Hp Hc Ht Hpr]. destruct (state b') eqn:Hstate.
  - set (fl := pruneBefore _ _). set (b1 := with_machine b' _ fl _ _ _ _ _ _).
    destruct (Z.ltb_spec (Z.of_nat (length fl)) (FailureThreshold cfg)); simpl.
    + assert (StronglySorted Z.le (failures b' ++ [now])) as Hsn by by apply StronglySorted_snoc.
      assert (fl = keep (λ t, now - Window cfg <=? t) (failures b' ++ [now])) as Hfl
        by by apply pruneBefore_keep.
      subst b1. split; fields; try done.
      * rewrite Hfl. by apply keep_StronglySorted.
      * rewrite Hfl, Forall_forall. intros x [[Hx|Hx]%elem_of_app _]%elem_of_keep.
        { rewrite Forall_forall in Hp. by apply Hp. }
        { apply list_elem_of_singleton in Hx as ->. lia. }
      * intros _. destruct (Hc eq_refl) as (? & ? & _). done.
    + apply local_ok_open; [done| |done]. destruct (Hc eq_refl) as (Hr & _). subst b1. simpl. lia.
  - simpl. split; rewrite ?Hstate; done.
  - simpl. apply local_ok_open; [done| |done]. destruct Ht as (? & _); [done|]. lia.
Qed.

Lemma local_ok_reset cfg now b :
  config_ok cfg → local_ok cfg now b → local_ok cfg now (run_op cfg now OpReset b).
Proof.
  intros Hok [Hst _ _ _ _ _]. apply config_ok_fields in Hok as (? & ? & ? & ? & ? & ?).
  unfold run_op, resetLocally. case_bool_decide as Hc; fields; split; simpl; try done;
    try constructor; intros; try done; try lia; try congruence.
Qed.

Lemma reach_local_ok cfg now b : config_ok cfg → reach cfg now b → local_ok cfg now b.
Proof.
  intros Hok. induction 1 as [now b Hn|now now' op b _ IH Hle].
  - unfold NewBreaker, NewSharedBreaker in Hn. rewrite Hok in Hn. simplify_eq.
    apply config_ok_fields in Hok as (? & ? & ? & ? & ? & ?).
    split; simpl; try done; try constructor; intros; try done; try lia.
  - apply (local_ok_later _ _ now') in IH; [|done]. destruct op.
    + by apply local_ok_allow.
    + by apply local_ok_success.
    + by apply local_ok_failure.
    + by apply local_ok_reset.
Qed.

(** With no store the exported methods are the local machine. *)
Lemma Allow_local {S} `{!BreakerStore S} cfg now t fl fc b (s : S) :
  hasStore b = false →
  Allow cfg now t fl fc b s = ((allowLocal cfg now b).1, (allowLocal cfg now b).2, s).
Proof. intros H. unfold Allow, usesStore. rewrite H. simpl. by destruct (allowLocal _ _ _). Qed.

Lemma RecordSuccess_local {S} `{!BreakerStore S} cfg now t f b (s : S) :
  hasStore b = false →
  RecordSuccess cfg now t f b s = ((recordSuccessLocally cfg now b).2, s).
Proof.
  intros H. unfold RecordSuccess, recordSuccessLocally, usesStore. fields. rewrite H. simpl.
  by repeat case_match; simplify_eq.
Qed.

Lemma RecordFailure_local {S} `{!BreakerStore S} cfg now t f b (s : S) :
  hasStore b = false →
  RecordFailure cfg now t f b s = ((recordFailureLocally cfg now b).2, s).
Proof.
  intros H. unfold RecordFailure, recordFailureLocally, usesStore, open. fields. rewrite H. simpl.
  by repeat case_match; simplify_eq/=.
Qed.

(** C18: the invariant of every state a local breaker can reach by requests,
    reports and resets in any order: closed means no episode is counted, the
    base cooldown and fewer failures than the threshold; open and half-open
    mean at least one episode, the cooldown of that episode, an empty window
    and a success streak short of the threshold; a probe is outstanding only
    in half-open. *)
Theorem breaker_invariant cfg now b :
  config_ok cfg → reach cfg now b →
  (state b = StateClosed →
     reopens b = 0 ∧ cooldown b = CooldownBase cfg ∧
     Z.of_nat (length (failures b)) < FailureThreshold cfg) ∧
  (state b ≠ StateClosed →
     1 ≤ reopens b ∧ cooldown b = nextCooldown cfg (reopens b) ∧ failures b = [] ∧
     0 ≤ successStreak b < SuccessThreshold cfg ∧ openedAt b ≤ now) ∧
  (probeInFlight b = true → state b = StateHalfOpen ∧ probeStartedAt b ≤ now).
Proof. intros Hok Hr. by destruct (reach_local_ok _ _ _ Hok Hr). Qed.

(** a closed breaker opens on a failure exactly when the failures of the
    last [Window], this one included, number at least [FailureThreshold]; it
    then counts its first episode from now at the base cooldown.  Short of
    that it stays closed and its window is exactly those failures. *)
Theorem RecordFailure_sliding_window cfg now now' b :
  config_ok cfg → reach cfg now b → now ≤ now' → state b = StateClosed →
  let recent := keep (λ t, now' - Window cfg <=? t) (failures b ++ [now']) in
  let b' := (recordFailureLocally cfg now' b).2 in
  if Z.of_nat (length recent) <? FailureThreshold cfg
  then state b' = StateClosed ∧ failures b' = recent
  else state b' = StateOpen ∧ reopens b' = 1 ∧ cooldown b' = nextCooldown cfg 1 ∧
       openedAt b' = now' ∧ failures b' = [].
Proof.
  intros Hok Hr Hle Hst recent b'.
  destruct (local_ok_later _ _ now' _ Hle (reach_local_ok _ _ _ Hok Hr)) as [_ Hs Hp Hc _ _].
  assert (pruneBefore (failures b ++ [now']) (now' - Window cfg) = recent) as Hpr.
  { by apply pruneBefore_keep, StronglySorted_snoc. }
  subst b'. unfold recordFailureLocally. fields. rewrite Hst, Hpr.
  destruct (Z.of_nat (length recent) <? FailureThreshold cfg); simpl; [done|].
  destruct (Hc Hst) as (-> & _). done.
Qed.

Lemma allowLocal_half_open cfg now b :
  state b = StateHalfOpen → allowLocal cfg now b = claimProbe cfg now b.
Proof.
  intros Hst. unfold allowLocal. rewrite bool_decide_eq_false_2 by (by rewrite Hst).
  simpl. by rewrite Hst.
Qed.

(** A run of [Allow] calls at the given instants, with every answer. *)
Fixpoint allow_run (cfg : BreakerConfig) (ts : list Z) (b : Breaker) : list bool * Breaker :=
  match ts with
  | [] => ([], b)
  | t :: ts' => let '(ok, b') := allowLocal cfg t b in
                let '(oks, b'') := allow_run cfg ts' b' in (ok :: oks, b'')
  end.

(** The machine after a history of timed operations, requests, outcome
    reports and resets in any order. *)
Definition timeline (cfg : BreakerConfig) (evs : list (Z * lop)) (b : Breaker) : Breaker :=
  foldl (λ b e, run_op cfg e.1 e.2 b) b evs.

(** A request admitted by a half-open breaker holds the slot from its instant. *)
Lemma admitted_holds_slot cfg t b :
  (allowLocal cfg t b).1 = true → state (allowLocal cfg t b).2 = StateHalfOpen →
  probeInFlight (allowLocal cfg t b).2 = true ∧ probeStartedAt (allowLocal cfg t b).2 = t.
Proof.
  unfold allowLocal, claimProbe.
  destruct (bool_decide _ && _); fields; [done|].
  destruct (state b) eqn:Hst; simpl; rewrite ?Hst; try done. by destruct (_ && _).
Qed.

Lemma held_slot_refuses cfg t b :
  state b = StateHalfOpen → probeInFlight b = true →
  t < probeStartedAt b + ProbeTimeout cfg → allowLocal cfg t b = (false, b).
Proof.
  intros Hst Hpf Ht. rewrite allowLocal_half_open by done. unfold claimProbe. rewrite Hpf.
  by destruct (Z.ltb_spec (t - probeStartedAt b) (ProbeTimeout cfg)); [|lia].
Qed.

Lemma free_slot_admits cfg t b :
  state b = StateHalfOpen →
  probeInFlight b = false ∨ probeStartedAt b + ProbeTimeout cfg ≤ t →
  (allowLocal cfg t b).1 = true ∧ state (allowLocal cfg t b).2 = StateHalfOpen.
Proof.
  intros Hst Hfree. rewrite allowLocal_half_open by done. unfold claimProbe.
  destruct (probeInFlight b); simpl; [|done].
  destruct (Z.ltb_spec (t - probeStartedAt b) (ProbeTimeout cfg)); [|done].
  destruct Hfree; [done|lia].
Qed.

Lemma held_slot_run cfg ts b :
  state b = StateHalfOpen → probeInFlight b = true →
  Forall (λ t, t < probeStartedAt b + ProbeTimeout cfg) ts →
  allow_run cfg ts b = (map (λ _, false) ts, b).
Proof.
  intros Hst Hpf. induction 1 as [|t ts Ht _ IH]; [done|]. simpl.
  by rewrite held_slot_refuses, IH.
Qed.

Lemma held_slot_timeline cfg evs b :
  state b = StateHalfOpen → probeInFlight b = true →
  Forall (λ e, e.1 < probeStartedAt b + ProbeTimeout cfg) evs →
  Forall (λ e, e.2 = OpAllow) evs → timeline cfg evs b = b.
Proof.
  intros Hst Hpf Ht. induction Ht as [|[t op] evs Ht _ IH]; [done|].
  intros [Hop Hops]%Forall_cons. simpl in *. subst op. simpl.
  rewrite held_slot_refuses by done. by apply IH.
Qed.

Lemma probe_reported cfg t t' b :
  hasStore b = false → state b = StateHalfOpen →
  let b2 := run_op cfg t OpSuccess b in
  if SuccessThreshold cfg <=? successStreak b + 1
  then state b2 = StateClosed
  else state b2 = StateHalfOpen ∧ successStreak b2 = successStreak b + 1 ∧
       (allowLocal cfg t' b2).1 = true ∧ state (allowLocal cfg t' b2).2 = StateHalfOpen.
Proof.
  intros Hs Hst. unfold run_op, recordSuccessLocally, usesStore. fields.
  rewrite Hst, Hs, bool_decide_eq_false_2 by tauto. simpl.
  destruct (Z.leb_spec (SuccessThreshold cfg) (successStreak b + 1)); simpl; [done|].
  done.
Qed.

Lemma probe_failed cfg t t' b :
  state b = StateHalfOpen →
  let b2 := run_op cfg t OpFailure b in
  state b2 = StateOpen ∧ openedAt b2 = t ∧
  (t' < t + cooldown b2 → allowLocal cfg t' b2 = (false, b2)).
Proof.
  intros Hst. unfold run_op, recordFailureLocally, open. fields. rewrite Hst. simpl.
  split; [done|]. split; [done|]. intros Ht. unfold allowLocal. simpl.
  by destruct (Z.leb_spec (nextCooldown cfg (reopens b + 1)) (t' - t)); [lia|].
Qed.

Lemma reset_admits cfg t t' b :
  state (run_op cfg t OpReset b) = StateClosed ∧
  (allowLocal cfg t' (run_op cfg t OpReset b)).1 = true.
Proof.
  assert (state (run_op cfg t OpReset b) = StateClosed) as H.
  { unfold run_op, resetLocally. case_bool_decide as Hc; fields; [done|].
    by destruct (decide (state b = StateClosed)). }
  split; [done|]. revert H. generalize (run_op cfg t OpReset b). intros b2 H. unfold allowLocal.
  rewrite bool_decide_eq_false_2 by (by rewrite H). simpl. by rewrite H.
Qed.

(** C19: one probe at a time, on a breaker without a shared store.  Say a
    request at [t0] was admitted by a breaker that is half-open afterwards,
    whether it already was or its cooldown had just run out.  As long as no
    outcome is reported and the breaker is not reset, every request before
    [t0 + ProbeTimeout] is refused and changes nothing, however many arrive;
    in a history of any operations, a request admitted before that instant is
    preceded by a report or a reset.  From [t0 + ProbeTimeout] on the slot
    counts as abandoned and the next request takes it over.  A reported
    success frees the slot: one that completes [SuccessThreshold] closes the
    breaker, one that does not leaves it half-open with a longer streak and
    the next request is admitted as the next probe, at once.  A reported
    failure opens the breaker, which then refuses until its cooldown has run.
    A reset closes it and the next request passes.  The machine does not ask
    whose outcome is reported: the report of a request admitted earlier frees
    the slot too. *)
Theorem half_open_single_probe cfg now t0 b :
  config_ok cfg → reach cfg now b → now ≤ t0 →
  let b1 := (allowLocal cfg t0 b).2 in
  (allowLocal cfg t0 b).1 = true → state b1 = StateHalfOpen →
  (∀ ts, Forall (λ t, t < t0 + ProbeTimeout cfg) ts →
     allow_run cfg ts b1 = (map (λ _, false) ts, b1)) ∧
  (∀ evs t, Forall (λ e, e.1 ≤ t) evs → t < t0 + ProbeTimeout cfg →
     (allowLocal cfg t (timeline cfg evs b1)).1 = true → Exists (λ e, e.2 ≠ OpAllow) evs) ∧
  (∀ t, t0 + ProbeTimeout cfg ≤ t →
     (allowLocal cfg t b1).1 = true ∧ state (allowLocal cfg t b1).2 = StateHalfOpen) ∧
  (∀ t t', let b2 := run_op cfg t OpSuccess b1 in
     if SuccessThreshold cfg <=? successStreak b1 + 1
     then state b2 = StateClosed
     else state b2 = StateHalfOpen ∧ successStreak b2 = successStreak b1 + 1 ∧
          (allowLocal cfg t' b2).1 = true ∧
          state (allowLocal cfg t' b2).2 = StateHalfOpen) ∧
  (∀ t t', let b2 := run_op cfg t OpFailure b1 in
     state b2 = StateOpen ∧ openedAt b2 = t ∧
     (t' < t + cooldown b2 → allowLocal cfg t' b2 = (false, b2))) ∧
  (∀ t t', let b2 := run_op cfg t OpReset b1 in
     state b2 = StateClosed ∧ (allowLocal cfg t' b2).1 = true).
Proof.
  intros Hok Hr Hle b1 Hadm Hst.
  destruct (admitted_holds_slot _ _ _ Hadm Hst) as [Hpf Hpa]. fold b1 in Hpf, Hpa.
  assert (hasStore b1 = false) as Hs
    by exact (lk_store _ _ _ (reach_local_ok _ _ _ Hok (reach_op _ _ _ OpAllow _ Hr Hle))).
  clearbody b1. rewrite <-Hpa.
  split; [by intros; apply held_slot_run|]. split.
  - intros evs t Hts Ht Hyes.
    destruct (decide (Exists (λ e, e.2 ≠ OpAllow) evs)) as [|Hn]; [done|]. exfalso.
    rewrite held_slot_timeline, held_slot_refuses in Hyes; try done.
    + eapply Forall_impl; [exact Hts|]. simpl. lia.
    + apply Forall_Exists_neg in Hn. eapply Forall_impl; [exact Hn|]. simpl.
      intros e He. by destruct (decide (e.2 = OpAllow)).
  - split; [intros t Ht; apply free_slot_admits; [done|by right]|].
    split; [by intros; apply probe_reported|].
    split; [by intros; apply probe_failed|]. intros; apply reset_admits.
Qed.

(** an open breaker refuses every request until its cooldown has run out
    and changes nothing; the first request after that is let through as the
    probe of a half-open breaker, so an open breaker never wedges. *)
Theorem open_waits_then_probes cfg b ts t1 :
  state b = StateOpen →
  Forall (λ t, t < openedAt b + cooldown b) ts → openedAt b + cooldown b ≤ t1 →
  allow_run cfg ts b = (map (λ _, false) ts, b) ∧
  (allowLocal cfg t1 b).1 = true ∧ state (allowLocal cfg t1 b).2 = StateHalfOpen ∧
  probeInFlight (allowLocal cfg t1 b).2 = true.
Proof.
  intros Hst Hts Ht1. split.
  - induction Hts as [|t ts Ht _ IH]; [done|]. simpl. unfold allowLocal at 1.
    rewrite Hst, bool_decide_eq_true_2 by done.
    destruct (Z.leb_spec (cooldown b) (t - openedAt b)); [lia|]. simpl. rewrite Hst.
    by rewrite IH.
  - unfold allowLocal. rewrite Hst, bool_decide_eq_true_2 by done.
    destruct (Z.leb_spec (cooldown b) (t1 - openedAt b)); [|lia]. done.
Qed.

(** The machine after [n] probes, each claimed and then reported a success. *)
Fixpoint probe_successes (cfg : BreakerConfig) (now : Z) (n : nat) (b : Breaker) : Breaker :=
  match n with
  | O => b
  | S n' => probe_successes cfg now n'
              (recordSuccessLocally cfg now (allowLocal cfg now b).2).2
  end.

(** recovery takes exactly the missing number of successful probes: a
    half-open breaker whose slot is free stays half-open through any fewer
    successes and closes, with its episode count cleared and the base cooldown
    restored, on the one that completes [SuccessThreshold]; one failed probe
    instead reopens it with the next episode's cooldown. *)
Theorem half_open_recovers cfg now b n :
  config_ok cfg → reach cfg now b → state b = StateHalfOpen → probeInFlight b = false →
  (successStreak b + Z.of_nat n < SuccessThreshold cfg →
     state (probe_successes cfg now n b) = StateHalfOpen) ∧
  (successStreak b + Z.of_nat n = SuccessThreshold cfg →
     state (probe_successes cfg now n b) = StateClosed ∧
     reopens (probe_successes cfg now n b) = 0 ∧
     cooldown (probe_successes cfg now n b) = CooldownBase cfg) ∧
  (let b' := (recordFailureLocally cfg now b).2 in
   state b' = StateOpen ∧ reopens b' = reopens b + 1 ∧
   cooldown b' = nextCooldown cfg (reopens b + 1) ∧ openedAt b' = now).
Proof.
  intros Hok Hr Hst Hpf. destruct (reach_local_ok _ _ _ Hok Hr) as [Hs _ _ _ Ht _].
  destruct Ht as (_ & _ & _ & Hstreak & _); [by rewrite Hst|].
  split; [|split]; [| |by unfold recordFailureLocally; fields; rewrite Hst].
  all: clear Hr; revert b Hst Hpf Hs Hstreak; induction n as [|n IH];
    intros b Hst Hpf Hs Hstreak Hsum; simpl; try done; try lia.
  all: rewrite allowLocal_half_open by done; unfold claimProbe; rewrite Hpf; simpl;
    unfold recordSuccessLocally, usesStore; fields; rewrite Hst, Hs;
    rewrite bool_decide_eq_false_2 by tauto; simpl.
  - destruct (Z.leb_spec (SuccessThreshold cfg) (successStreak b + 1)); [lia|]. simpl.
    apply IH; simpl; try done; lia.
  - destruct (Z.leb_spec (SuccessThreshold cfg) (successStreak b + 1)) as [Hle|Hlt]; simpl.
    + assert (n = 0%nat) as -> by lia. done.
    + apply IH; simpl; try done; lia.
Qed.

(** ** The shared breaker *)
Section shared.
Context {S} `{!BreakerStore S} (cfg : BreakerConfig).

Definition stale (now : Z) (b : Breaker) : Prop :=
  match cachedAt b with Some at_ => StateCacheTTL cfg ≤ now - at_ | None => True end.

Lemma sharedState_stale now t f b (s : S) :
  stale now b →
  sharedState cfg now t f b s =
    match st_Load t f s with
    | Err _ => (None, with_cache b SharedState_zero false (Some now))
    | Ok sh => (Some sh, with_cache b sh true (Some now))
    end.
Proof.
  unfold stale, sharedState. destruct (cachedAt b) as [at_|]; [|done].
  intros H. by destruct (Z.ltb_spec (now - at_) (StateCacheTTL cfg)); [lia|].
Qed.

Lemma adoptShared_mirrors now sh b :
  state (adoptShared now sh b) = ss_State sh ∧ reopens (adoptShared now sh b) = ss_Reopens sh ∧
  successStreak (adoptShared now sh b) = ss_Successes sh.
Proof. unfold adoptShared. case_bool_decide as H; by fields. Qed.

(** C34: a replica that can read the store honours its verdict and nothing
    else.  With a stale cache and a successful read, closed admits and open
    refuses without any write to the store, half-open admits exactly when
    the fleet-wide claim is won, and the replica mirrors the state and the
    episode count it read. *)
Theorem Allow_honours_store now t fl fc b (s : S) sh :
  usesStore b = true → stale now b → st_Load t fl s = Ok sh →
  let '(ok, b', s') := Allow cfg now t fl fc b s in
  state b' = ss_State sh ∧ reopens b' = ss_Reopens sh ∧ successStreak b' = ss_Successes sh ∧
  match ss_State sh with
  | StateClosed => ok = true ∧ s' = s
  | StateOpen => ok = false ∧ s' = s
  | StateHalfOpen =>
      s' = (st_ClaimProbe t fc (ProbeTimeout cfg) s).2 ∧
      (ok = true ↔ (st_ClaimProbe t fc (ProbeTimeout cfg) s).1 = Ok true)
  end.
Proof.
  intros Hu Hs Hl. unfold Allow. rewrite Hu, sharedState_stale, Hl by done.
  unfold allowShared.
  pose proof (adoptShared_mirrors now sh (with_cache b sh true (Some now))) as (H1 & H2 & H3).
  destruct (ss_State sh) eqn:Hst; [done|done|].
  unfold claimSharedProbe. destruct (st_ClaimProbe t fc (ProbeTimeout cfg) s) as [[ok|e] s'];
    simpl; (split; [done|]); (split; [done|]); (split; [done|]); (split; [done|]);
    naive_solver.
Qed.

(** a replica that cannot read the store decides exactly as the local
    machine would, and leaves the store alone. *)
Theorem Allow_falls_back now t fl fc b (s : S) :
  usesStore b = true → stale now b → st_Load t fl s = Err tt →
  let b0 := with_cache b SharedState_zero false (Some now) in
  Allow cfg now t fl fc b s = ((allowLocal cfg now b0).1, (allowLocal cfg now b0).2, s) ∧
  (allowLocal cfg now b0).1 = (allowLocal cfg now b).1 ∧
  state (allowLocal cfg now b0).2 = state (allowLocal cfg now b).2.
Proof.
  intros Hu Hs Hl b0. unfold Allow. rewrite Hu, sharedState_stale, Hl by done. fold b0.
  split; [by destruct (allowLocal cfg now b0)|].
  subst b0. unfold allowLocal, claimProbe. fields.
  destruct (state b) eqn:Hst; (case_bool_decide; [try done|]); simpl;
    try destruct (cooldown b <=? now - openedAt b); simpl; rewrite ?Hst; try done;
    by destruct (probeInFlight b && _).
Qed.

(** a failed publish does not undo a local verdict.  When a failure
    opens the breaker and the store cannot be told, the replica stays open
    for its whole cooldown whatever the store would say, on every later
    request and whatever becomes of its round trips. *)
Theorem failed_publish_stays_open now t f b (s : S) cd ro b1 e s1 :
  recordFailureLocally cfg now b = ((cd, ro, true), b1) →
  st_Open t f cd ro s = (Err e, s1) →
  let b' := (RecordFailure cfg now t f b s).1 in
  state b' = StateOpen ∧
  ∀ now' t' fl fc s', now' < now + cooldown b' →
    Allow cfg now' t' fl fc b' s' = (false, b', s').
Proof.
  intros Hrec Hopen b'. subst b'. unfold RecordFailure. rewrite Hrec.
  unfold publishOpen. rewrite Hopen. simpl.
  assert (state b1 = StateOpen ∧ openedAt b1 = now) as [Hst Hat].
  { unfold recordFailureLocally, open in Hrec. fields.
    repeat case_match; by simplify_eq/=. }
  split; [done|]. intros now' t' fl fc s' Hlt.
  unfold Allow, usesStore. simpl. rewrite andb_false_r. unfold allowLocal. simpl.
  rewrite Hst, Hat, bool_decide_eq_true_2 by done. simpl.
  destruct (Z.leb_spec (cooldown b1) (now' - now)); [lia|]. simpl. by rewrite Hst.
Qed.
End shared.

(** ** Witnesses *)

Definition demo_new : Breaker := match NewBreaker demo_cfg with Ok b => b | Err _ =>
  {| state := StateOpen; failures := []; successStreak := 0; probeInFlight := false;
     probeStartedAt := 0; openedAt := 0; cooldown := 0; reopens := 0; hasStore := true;
     unpublished := false; cached := SharedState_zero; cachedOK := false; cachedAt := None |} end.

(** Two failures one second apart; a third trips it; a probe after five seconds. *)
Definition demo_failing : Breaker :=
  run_op demo_cfg (2 * second) OpFailure (run_op demo_cfg second OpFailure demo_new).
Definition demo_open : Breaker := run_op demo_cfg (3 * second) OpFailure demo_failing.
Definition demo_half : Breaker :=
  run_op demo_cfg (9 * second) OpSuccess (run_op demo_cfg (8 * second) OpAllow demo_open).

Lemma demo_reach :
  reach demo_cfg (2 * second) demo_failing ∧ reach demo_cfg (9 * second) demo_half.
Proof.
  assert (reach demo_cfg (2 * second) demo_failing) as H.
  { exact (reach_op demo_cfg second (2 * second) OpFailure _
             (reach_op demo_cfg 0 second OpFailure _ (reach_new demo_cfg 0 demo_new eq_refl)
                ltac:(closed)) ltac:(closed)). }
  split; [exact H|].
  exact (reach_op demo_cfg (8 * second) (9 * second) OpSuccess _
           (reach_op demo_cfg (3 * second) (8 * second) OpAllow _
              (reach_op demo_cfg (2 * second) (3 * second) OpFailure demo_failing H
                 ltac:(closed)) ltac:(closed)) ltac:(closed)).
Defined.

Lemma breaker_invariant_witness :
  state demo_half = StateHalfOpen ∧ 1 ≤ reopens demo_half.
Proof.
  destruct (breaker_invariant demo_cfg (9 * second) demo_half eq_refl (proj2 demo_reach))
    as (_ & H & _).
  split; [vm_compute; reflexivity|]. exact (proj1 (H ltac:(vm_compute; discriminate))).
Defined.

Lemma RecordFailure_sliding_window_witness :
  state (recordFailureLocally demo_cfg (3 * second) demo_failing).2 = StateOpen.
Proof.
  exact (proj1 (RecordFailure_sliding_window demo_cfg (2 * second) (3 * second) demo_failing
    eq_refl (proj1 demo_reach) ltac:(closed) eq_refl)).
Defined.

Lemma half_open_single_probe_witness :
  (allow_run demo_cfg [10 * second; 20 * second; 39 * second]
     (allowLocal demo_cfg (10 * second) demo_half).2).1 = [false; false; false] ∧
  state (run_op demo_cfg (12 * second) OpFailure
           (allowLocal demo_cfg (10 * second) demo_half).2) = StateOpen.
Proof.
  destruct (half_open_single_probe demo_cfg (9 * second) (10 * second) demo_half eq_refl
    (proj2 demo_reach) ltac:(closed) eq_refl eq_refl) as (Hrun & _ & _ & _ & Hfail & _).
  split; [|exact (proj1 (Hfail (12 * second) 0))].
  rewrite (Hrun [10 * second; 20 * second; 39 * second])
    by (repeat constructor; vm_compute; reflexivity).
  reflexivity.
Defined.

Lemma open_waits_then_probes_witness :
  (allowLocal demo_cfg (8 * second) demo_open).1 = true.
Proof.
  exact (proj1 (proj2 (open_waits_then_probes demo_cfg demo_open [4 * second; 7 * second]
    (8 * second) eq_refl ltac:(repeat constructor; vm_compute; reflexivity) ltac:(closed)))).
Defined.

Lemma half_open_recovers_witness :
  state (probe_successes demo_cfg (9 * second) 1 demo_half) = StateClosed.
Proof.
  destruct (half_open_recovers demo_cfg (9 * second) demo_half 1 eq_refl (proj2 demo_reach)
    eq_refl eq_refl) as (_ & H & _).
  apply H. vm_compute. reflexivity.
Defined.
