(* ===== verification/BreakerStore.v ===== *)
(** * internal/resilience/breaker_store.go: the Redis side of the breaker

    One hash per provider and model holds the open episode; its state is
    derived from a stored deadline and Redis's clock.  One more key is the
    fleet-wide probe lock.  [RedisBreakerStore] is the instance of the
    consumer's interface. *)

From S2P Require Import Prelude Redis Breaker BreakerFacts.

Record Labels := { l_Provider : string; l_Model : string }.

#[export] Instance Labels_eq_dec : EqDecision Labels.
Proof. solve_decision. Defined.

Definition keyPrefix : string := "switchyard:breaker".

Definition stateKey (l : Labels) : string :=
  (keyPrefix ++ ":" ++ l_Provider l ++ ":" ++ l_Model l)%string.

Definition probeKey (l : Labels) : string := (stateKey l ++ ":probe")%string.

Definition stateTTLSlack : Z := 10 * minute.

(** What the two keys of a breaker hold. *)
Record episode := { until_ms : Z; ep_reopens : Z; ep_successes : Z }.

Inductive bvalue :=
| BHash (e : episode)
| BProbe (started_ms : Z).

Definition Milliseconds (d : Z) : Z := Z.quot d millisecond.

Definition parseState (s : string) : option State :=
  if decide (s = "closed"%string) then Some StateClosed
  else if decide (s = "open"%string) then Some StateOpen
  else if decide (s = "half_open"%string) then Some StateHalfOpen
  else None.

Definition parseScriptInt (v : rvalue) : option Z :=
  match v with RInt n => Some n | RBulk _ => None end.

Definition parseSharedState (raw : list rvalue) : result unit SharedState :=
  match raw with
  | v0 :: v1 :: rest =>
      match v0 with
      | RInt _ => Err tt
      | RBulk name =>
          match parseState name with
          | None => Err tt
          | Some st =>
              match rest with
              | [] =>
                  match parseScriptInt v1 with
                  | None => Err tt
                  | Some n => Ok {| ss_State := st; ss_Reopens := 0; ss_Successes := n |}
                  end
              | v2 :: _ =>
                  match parseScriptInt v1, parseScriptInt v2 with
                  | Some ro, Some su =>
                      Ok {| ss_State := st; ss_Reopens := ro; ss_Successes := su |}
                  | _, _ => Err tt
                  end
              end
          end
      end
  | _ => Err tt
  end.

Section store.
Context {db} `{!Redis bvalue db} (labels : Labels).

Definition loadScript (t : Z) (key : string) (d : db) : option (list rvalue) * db :=
  (match rget t key d with
   | None => Some [RBulk "closed"; RInt 0; RInt 0]
   | Some (BProbe _) => None
   | Some (BHash e) =>
       if t <? until_ms e
       then Some [RBulk "open"; RInt (ep_reopens e); RInt (ep_successes e)]
       else Some [RBulk "half_open"; RInt (ep_reopens e); RInt (ep_successes e)]
   end, d).

Definition openScript (t : Z) (key probe_key : string) (cooldown_ms reopens ttl_ms : Z)
    (d : db) : option unit * db :=
  let e := {| until_ms := t + cooldown_ms; ep_reopens := reopens; ep_successes := 0 |} in
  (Some tt, rdel probe_key (rpexpire t key ttl_ms (rput t key (BHash e) d))).

Definition probeSuccessScript (t : Z) (key probe_key : string) (threshold : Z) (d : db)
    : option (list rvalue) * db :=
  match rget t key d with
  | None => (Some [RBulk "closed"; RInt 0], rdel probe_key d)
  | Some (BProbe _) => (None, d)
  | Some (BHash e) =>
      let successes := ep_successes e + 1 in
      let d1 := rput t key (BHash {| until_ms := until_ms e; ep_reopens := ep_reopens e;
                                     ep_successes := successes |}) d in
      if threshold <=? successes
      then (Some [RBulk "closed"; RInt successes], rdel probe_key (rdel key d1))
      else (Some [RBulk "half_open"; RInt successes], rdel probe_key d1)
  end.

Definition RS_Load (t : Z) (f : net_fate) (d : db) : result unit SharedState :=
  match (round_trip f (loadScript t (stateKey labels)) d).1 with
  | None => Err tt
  | Some raw => parseSharedState raw
  end.

Definition RS_Open (t : Z) (f : net_fate) (cooldown reopens : Z) (d : db)
    : result unit unit * db :=
  match round_trip f (openScript t (stateKey labels) (probeKey labels)
                        (Milliseconds cooldown) reopens
                        (Milliseconds (cooldown + stateTTLSlack))) d with
  | (None, d') => (Err tt, d')
  | (Some _, d') => (Ok tt, d')
  end.

Definition RS_RecordProbeSuccess (t : Z) (f : net_fate) (threshold : Z) (d : db)
    : result unit SharedState * db :=
  match round_trip f (probeSuccessScript t (stateKey labels) (probeKey labels) threshold) d with
  | (None, d') => (Err tt, d')
  | (Some raw, d') => (parseSharedState raw, d')
  end.

Definition RS_ClaimProbe (t : Z) (f : net_fate) (ttl : Z) (d : db)
    : result unit bool * db :=
  match round_trip f (λ d, let '(ok, d') := rsetnx t (probeKey labels) (BProbe t)
                                              (Milliseconds ttl) d in (Some ok, d')) d with
  | (None, d') => (Err tt, d')
  | (Some ok, d') => (Ok ok, d')
  end.

Definition RS_Reset (f : net_fate) (d : db) : result unit unit * db :=
  match round_trip f (λ d, (Some tt, rdel (probeKey labels) (rdel (stateKey labels) d))) d with
  | (None, d') => (Err tt, d')
  | (Some _, d') => (Ok tt, d')
  end.

#[local] Instance RedisBreakerStore : BreakerStore db := {|
  st_Load := RS_Load;
  st_Open := RS_Open;
  st_RecordProbeSuccess := RS_RecordProbeSuccess;
  st_ClaimProbe := RS_ClaimProbe;
  st_Reset := RS_Reset
|}.

Lemma stateKey_probeKey : stateKey labels ≠ probeKey labels.
Proof.
  unfold probeKey. intros H. apply (f_equal String.length) in H.
  rewrite string_app_length in H. simpl in H. lia.
Qed.

(** The name of a state survives the trip through Redis: parsing what
    the scripts print gives the state back, and parsing accepts nothing but
    the three names. *)
Lemma parseState_String s name :
  parseState (State_String s) = Some s ∧
  (parseState name = Some s → name = State_String s).
Proof.
  split; [by destruct s|]. unfold parseState. intros H.
  repeat case_decide; simplify_eq; done.
Qed.

Lemma RS_Open_hash t cd ro d t' :
  t ≤ t' → t' < t + Milliseconds (cd + stateTTLSlack) →
  rget t' (stateKey labels) (RS_Open t Replied cd ro d).2 =
    Some (BHash {| until_ms := t + Milliseconds cd; ep_reopens := ro; ep_successes := 0 |}).
Proof.
  intros Hle Hlt. unfold RS_Open. simpl.
  rewrite rget_del_ne by (intros H; symmetry in H; by apply stateKey_probeKey).
  apply holds_until_create. lia.
Qed.

(** one published episode is one timeline for the whole fleet.  From the
    instant it is published with cooldown [cd], every replica that reads the
    store sees open for the cooldown, then half-open with the same episode
    count and an empty streak, and closed once the slack of ten minutes has
    also run out; no replica has to move it along. *)
Theorem shared_episode_timeline t t' cd ro d :
  0 ≤ cd → t ≤ t' →
  let d' := (RS_Open t Replied cd ro d).2 in
  RS_Load t' Replied d' =
    Ok (if t' <? t + Milliseconds cd
        then {| ss_State := StateOpen; ss_Reopens := ro; ss_Successes := 0 |}
        else if t' <? t + Milliseconds (cd + stateTTLSlack)
        then {| ss_State := StateHalfOpen; ss_Reopens := ro; ss_Successes := 0 |}
        else {| ss_State := StateClosed; ss_Reopens := 0; ss_Successes := 0 |}).
Proof.
  intros Hcd Hle d'.
  assert (Milliseconds cd ≤ Milliseconds (cd + stateTTLSlack)) as Hms.
  { unfold Milliseconds. apply Z.quot_le_mono; [done|].
    assert (0 ≤ stateTTLSlack) by done. lia. }
  unfold RS_Load, loadScript. simpl.
  destruct (Z.ltb_spec t' (t + Milliseconds (cd + stateTTLSlack))) as [Hlt|Hge].
  - subst d'. rewrite RS_Open_hash by lia. simpl.
    by destruct (Z.ltb_spec t' (t + Milliseconds cd)).
  - destruct (Z.ltb_spec t' (t + Milliseconds cd)); [lia|].
    subst d'. unfold RS_Open. simpl.
    rewrite rget_del_ne by (intros H'; symmetry in H'; by apply stateKey_probeKey).
    rewrite rget_pexpire by lia.
    destruct (Z.ltb_spec t' (t + Milliseconds (cd + stateTTLSlack))); [lia|]. done.
Qed.

(** Probe claims by any replicas, at the given instants of Redis's clock. *)
Fixpoint claim_run (ttl : Z) (ts : list Z) (d : db) : list bool :=
  match ts with
  | [] => []
  | t :: ts' =>
      match RS_ClaimProbe t Replied ttl d with
      | (Ok ok, d') => ok :: claim_run ttl ts' d'
      | (Err _, d') => false :: claim_run ttl ts' d'
      end
  end.

(** the probe slot is exclusive across the fleet.  Once one replica's
    claim succeeds at [t], every claim by any replica before the lock's
    expiry fails, until a new episode, a reported success or a reset frees
    it, each of which leaves the slot free at once. *)
Theorem probe_slot_exclusive t ttl ts d d' :
  RS_ClaimProbe t Replied ttl d = (Ok true, d') →
  Forall (λ t', t ≤ t' < t + Milliseconds ttl) ts →
  claim_run ttl ts d' = map (λ _, false) ts ∧
  (∀ t' cd ro, rget t' (probeKey labels) (RS_Open t' Replied cd ro d').2 = None) ∧
  (∀ t', rget t' (probeKey labels) (RS_Reset Replied d').2 = None).
Proof.
  intros Hclaim Hts. unfold RS_ClaimProbe, rsetnx in Hclaim. simpl in Hclaim.
  destruct (rget t (probeKey labels) d) eqn:Hfree; simplify_eq.
  set (d1 := rpexpire _ _ _ _).
  assert (holds_until t (t + Milliseconds ttl) (probeKey labels) (BProbe t) d1) as Hh
    by apply holds_until_create.
  split; [|split].
  - clearbody d1. induction Hts as [|t' ts Ht _ IH]; [done|]. simpl.
    unfold RS_ClaimProbe, rsetnx. simpl. rewrite (Hh t') by lia. by rewrite IH.
  - intros t' cd ro. unfold RS_Open. simpl. apply rget_del.
  - intros t'. unfold RS_Reset. simpl. apply rget_del.
Qed.

(** [n] probe successes reported by any replicas at instant [t]. *)
Fixpoint success_run (t threshold : Z) (n : nat) (d : db) : db :=
  match n with
  | O => d
  | S n' => success_run t threshold n' (RS_RecordProbeSuccess t Replied threshold d).2
  end.

(** the success streak is the fleet's: counting from an episode with
    [k] successes, any fewer than the missing number of reports (whichever
    replicas send them) leaves the breaker open to probing with the exact
    count, and the report that completes the threshold closes it for every
    replica. *)
Theorem shared_streak_counts t T threshold n e d :
  t < T → holds_until t T (stateKey labels) (BHash e) d → until_ms e ≤ t →
  0 < threshold → ep_successes e < threshold →
  (ep_successes e + Z.of_nat n < threshold →
     RS_Load t Replied (success_run t threshold n d) =
       Ok {| ss_State := StateHalfOpen; ss_Reopens := ep_reopens e;
             ss_Successes := ep_successes e + Z.of_nat n |}) ∧
  (ep_successes e + Z.of_nat n = threshold →
     RS_Load t Replied (success_run t threshold n d) = Ok SharedState_zero).
Proof.
  intros HT. revert e d. induction n as [|n IH]; intros e d Hd Hu Hth He.
  - split; [|simpl; lia]. intros _. unfold RS_Load, loadScript. simpl. rewrite Hd by lia.
    destruct (Z.ltb_spec t (until_ms e)); [lia|]. simpl. by rewrite Z.add_0_r.
  - simpl. unfold RS_RecordProbeSuccess, probeSuccessScript. simpl. rewrite Hd by lia.
    assert (probeKey labels ≠ stateKey labels) as Hne
      by (intros H'; symmetry in H'; by apply stateKey_probeKey).
    set (e1 := {| until_ms := until_ms e; ep_reopens := ep_reopens e;
                  ep_successes := ep_successes e + 1 |}).
    destruct (Z.leb_spec threshold (ep_successes e + 1)); simpl.
    + split; [lia|]. intros Hn. assert (n = 0%nat) as -> by lia. simpl.
      unfold RS_Load, loadScript. simpl. rewrite rget_del_ne, rget_del by done. done.
    + destruct (IH e1 (rdel (probeKey labels) (rput t (stateKey labels) (BHash e1) d)))
        as [IH1 IH2]; try done.
      { intros t' Ht'. rewrite rget_del_ne by done.
        apply (holds_until_put t T _ (BHash e)); [lia|done|done]. }
      simpl in *. split; intros Hn.
      * rewrite IH1 by lia. do 2 f_equal. lia.
      * apply IH2. lia.
Qed.
End store.

(** ** Witnesses, on the concrete Redis *)

Definition demo_labels : Labels := {| l_Provider := "groq"; l_Model := "llama-3.3-70b" |}.
Definition demo_db0 : RedisMap.db bvalue := ∅.
Definition demo_db1 : RedisMap.db bvalue :=
  (RS_Open demo_labels 1000 Replied (5 * second) 1 demo_db0).2.

Lemma shared_episode_timeline_witness :
  RS_Load demo_labels 7000 Replied demo_db1 =
    Ok {| ss_State := StateHalfOpen; ss_Reopens := 1; ss_Successes := 0 |}.
Proof.
  exact (shared_episode_timeline demo_labels 1000 7000 (5 * second) 1 demo_db0
           ltac:(closed) ltac:(closed)).
Defined.

Definition demo_db2 : RedisMap.db bvalue :=
  (RS_ClaimProbe demo_labels 7000 Replied (30 * second) demo_db1).2.

Lemma probe_slot_exclusive_witness :
  claim_run demo_labels (30 * second) [7001; 8000; 36999] demo_db2 = [false; false; false].
Proof.
  apply (probe_slot_exclusive demo_labels 7000 (30 * second) [7001; 8000; 36999] demo_db1 demo_db2).
  - vm_compute. reflexivity.
  - change (Milliseconds (30 * second)) with 30000. repeat constructor; lia.
Defined.

Definition demo_episode : episode := {| until_ms := 6000; ep_reopens := 1; ep_successes := 0 |}.

Lemma demo_db1_holds : holds_until 7000 600000 (stateKey demo_labels) (BHash demo_episode) demo_db1.
Proof.
  intros t' Ht'. apply (RS_Open_hash demo_labels 1000 (5 * second) 1 demo_db0 t'); [lia|].
  change (Milliseconds (5 * second + stateTTLSlack)) with 605000. lia.
Qed.

Lemma shared_streak_counts_witness :
  RS_Load demo_labels 7000 Replied (success_run demo_labels 7000 2 2 demo_db1) =
    Ok SharedState_zero.
Proof.
  apply (shared_streak_counts demo_labels 7000 600000 2 2 demo_episode demo_db1);
    [lia|apply demo_db1_holds|simpl; lia|lia|simpl; lia|reflexivity].
Defined.

Definition demo_replica : Breaker :=
  match NewSharedBreaker demo_cfg true with Ok b => b | Err _ => demo_new end.

#[local] Instance demo_store : BreakerStore (RedisMap.db bvalue) := RedisBreakerStore demo_labels.

Lemma Allow_honours_store_witness :
  (Allow demo_cfg (2 * second) 2000 Replied Replied demo_replica demo_db1).1.1 = false.
Proof.
  assert (st_Load 2000 Replied demo_db1 =
            Ok {| ss_State := StateOpen; ss_Reopens := 1; ss_Successes := 0 |}) as Hl
    by (vm_compute; reflexivity).
  exact (proj1 (proj2 (proj2 (proj2 (Allow_honours_store demo_cfg (2 * second) 2000 Replied Replied
    demo_replica demo_db1 _ eq_refl I Hl))))).
Defined.

Lemma Allow_falls_back_witness :
  (Allow demo_cfg (2 * second) 2000 NotSent Replied demo_replica demo_db1).1.1 = true.
Proof.
  assert (st_Load 2000 NotSent demo_db1 = Err tt) as Hl by reflexivity.
  rewrite (proj1 (Allow_falls_back demo_cfg (2 * second) 2000 NotSent Replied demo_replica demo_db1
    eq_refl I Hl)).
  vm_compute. reflexivity.
Defined.

(** A replica with two failures in its window; the third cannot be published. *)
Definition demo_replica2 : Breaker :=
  (recordFailureLocally demo_cfg (2 * second)
     (recordFailureLocally demo_cfg second demo_replica).2).2.

Lemma failed_publish_stays_open_witness :
  state (RecordFailure demo_cfg (3 * second) 3000 NotSent demo_replica2 demo_db0).1 = StateOpen.
Proof.
  apply (failed_publish_stays_open demo_cfg (3 * second) 3000 NotSent demo_replica2 demo_db0
    (5 * second) 1 (recordFailureLocally demo_cfg (3 * second) demo_replica2).2 tt demo_db0).
  - vm_compute. reflexivity.
  - reflexivity.
Defined.
