(* ===== verification/BreakerRegistry.v ===== *)
(** * internal/resilience/breaker_registry.go: one breaker per provider and model

    The registry owns the breakers, so a method of a breaker the registry
    handed out is an update of the registry's map at its labels
    ([reg_Allow], [reg_RecordSuccess], [reg_RecordFailure]).  Every breaker of a
    shared registry has its own Redis store, scoped to its labels' keys. *)

From S2P Require Import Prelude Redis Breaker BreakerFacts BreakerStore.

#[export] Instance Labels_countable : Countable Labels.
Proof.
  refine (inj_countable' (λ l, (l_Provider l, l_Model l))
    (λ p, {| l_Provider := p.1; l_Model := p.2 |}) _). by intros [].
Defined.

Abbreviation Registry := (gmap Labels Breaker).

Section registry.
(** [shared] is [newStore != nil]. *)
Context {db} `{!Redis bvalue db} (cfg : BreakerConfig) (shared : bool).

Definition NewBreakerRegistry : result config_error Registry :=
  match validate cfg with Some e => Err e | None => Ok ∅ end.

(** [None] is the nil breaker of the source's unreachable error path. *)
Definition For (labels : Labels) (r : Registry) : option Breaker * Registry :=
  match r !! labels with
  | Some b => (Some b, r)
  | None =>
      match NewSharedBreaker cfg shared with
      | Err _ => (None, r)
      | Ok b => (Some b, <[labels := b]> r)
      end
  end.

Definition AnyOpen (providerName : string) (r : Registry) : bool :=
  existsb (λ lb, bool_decide (l_Provider lb.1 = providerName)
                 && bool_decide (state lb.2 = StateOpen)) (map_to_list r).

Definition targets (providerName : string) (r : Registry) : list (Labels * Breaker) :=
  keep (λ lb, bool_decide (l_Provider lb.1 = providerName)) (map_to_list r).

(** The loop over the targets; [now] and [f] give the clock reading and the
    fate of the Redis call of each breaker's own [Reset]. *)
Fixpoint reset_loop (now : Labels → Z) (f : Labels → net_fate) (ts : list (Labels * Breaker))
    (r : Registry) (d : db) : list Labels * Registry * db :=
  match ts with
  | [] => ([], r, d)
  | (l, b) :: ts' =>
      let '(err, b', d') := @Reset db (RedisBreakerStore l) cfg (now l) (f l) b d in
      let '(failed, r', d'') := reset_loop now f ts' (<[l := b']> r) d' in
      (if is_ok err then failed else l :: failed, r', d'')
  end.

(** The number of breakers touched, and the labels whose store call failed,
    which the source joins into one error. *)
Definition Registry_Reset (now : Labels → Z) (f : Labels → net_fate) (providerName : string)
    (r : Registry) (d : db) : Z * list Labels * Registry * db :=
  let ts := targets providerName r in
  let '(failed, r', d') := reset_loop now f ts r d in
  (Z.of_nat (length ts), failed, r', d').

Definition Registry_Snapshots (now : Z) (r : Registry) : gmap Labels BreakerSnapshot :=
  Inspect cfg now <$> r.

(** ** The methods of a registered breaker *)

Definition reg_Allow (now t : Z) (fl fc : net_fate) (l : Labels) (r : Registry) (d : db)
    : bool * Registry * db :=
  match r !! l with
  | None => (true, r, d)
  | Some b =>
      let '(ok, b', d') := @Allow db (RedisBreakerStore l) cfg now t fl fc b d in
      (ok, <[l := b']> r, d')
  end.

Definition reg_RecordSuccess (now t : Z) (f : net_fate) (l : Labels) (r : Registry) (d : db)
    : Registry * db :=
  match r !! l with
  | None => (r, d)
  | Some b =>
      let '(b', d') := @RecordSuccess db (RedisBreakerStore l) cfg now t f b d in
      (<[l := b']> r, d')
  end.

Definition reg_RecordFailure (now t : Z) (f : net_fate) (l : Labels) (r : Registry) (d : db)
    : Registry * db :=
  match r !! l with
  | None => (r, d)
  | Some b =>
      let '(b', d') := @RecordFailure db (RedisBreakerStore l) cfg now t f b d in
      (<[l := b']> r, d')
  end.

(** ** Facts *)

Lemma For_stable l r b r' : For l r = (Some b, r') → For l r' = (Some b, r') ∧ r' !! l = Some b.
Proof.
  unfold For. intros H. repeat case_match; simplify_eq; rewrite ?lookup_insert_eq in *;
    simplify_eq; try done.
Qed.

Lemma For_frame l l' r : l ≠ l' → (For l r).2 !! l' = r !! l'.
Proof. intros Hne. unfold For. repeat case_match; simpl; by rewrite ?lookup_insert_ne. Qed.

(** What [Reset] leaves of a breaker, whatever the store answered. *)
Definition fresh_closed (b : Breaker) : Prop :=
  state b = StateClosed ∧ failures b = [] ∧ successStreak b = 0 ∧ probeInFlight b = false ∧
  reopens b = 0 ∧ cooldown b = CooldownBase cfg ∧ unpublished b = false.

Lemma Reset_fresh_closed `{!BreakerStore db} now f b (d : db) :
  fresh_closed (Reset cfg now f b d).1.2.
Proof.
  unfold Reset, resetLocally, fresh_closed.
  destruct (hasStore b); [destruct (st_Reset f d)|]; simpl; repeat case_match; simpl;
    repeat split; try done; by apply bool_decide_eq_false, dec_stable in H.
Qed.

Lemma reset_loop_spec now f ts r d :
  NoDup ts.*1 →
  let r' := (reset_loop now f ts r d).1.2 in
  (∀ l, l ∉ ts.*1 → r' !! l = r !! l) ∧
  (∀ l, l ∈ ts.*1 → ∃ b, r' !! l = Some b ∧ fresh_closed b).
Proof.
  revert r d. induction ts as [|[l b] ts IH]; intros r d Hnd; simpl in *; [set_solver|].
  apply NoDup_cons in Hnd as [Hnin Hnd].
  destruct (@Reset db (RedisBreakerStore l) cfg (now l) (f l) b d) as [[err b'] d'] eqn:HR.
  pose proof (@Reset_fresh_closed (RedisBreakerStore l) (now l) (f l) b d) as Hf.
  rewrite HR in Hf. simpl in Hf.
  destruct (IH (<[l:=b']> r) d' Hnd) as [H1 H2].
  destruct (reset_loop now f ts (<[l:=b']> r) d') as [[failed r'] d'']. simpl in *.
  split.
  - intros l' [Hne Hnin']%not_elem_of_cons. by rewrite H1, lookup_insert_ne.
  - intros l' [->|Hin]%elem_of_cons; [|by apply H2].
    exists b'. by rewrite H1, lookup_insert_eq.
Qed.

Lemma targets_elem p r l : l ∈ (targets p r).*1 ↔ l_Provider l = p ∧ is_Some (r !! l).
Proof.
  unfold targets. rewrite list_elem_of_fmap. split.
  - intros ([l' b] & -> & [Hin Hp]%elem_of_keep). apply elem_of_map_to_list in Hin.
    apply bool_decide_eq_true in Hp. eauto.
  - intros [Hp [b Hb]]. exists (l, b). split; [done|]. apply elem_of_keep.
    split; [by apply elem_of_map_to_list|by apply bool_decide_eq_true].
Qed.

Lemma targets_nodup p r : NoDup (targets p r).*1.
Proof.
  eapply sublist_NoDup; [apply (NoDup_fst_map_to_list r)|].
  apply fmap_sublist, keep_sublist.
Qed.

Lemma targets_count p r : length (targets p r) = size (filter (λ lb, l_Provider lb.1 = p) r).
Proof.
  rewrite map_filter_alt, <- length_map_to_list, <- keep_filter.
  rewrite map_to_list_to_map; [done|apply targets_nodup].
Qed.

Lemma AnyOpen_false p r :
  AnyOpen p r = false ↔ ∀ l b, r !! l = Some b → l_Provider l = p → state b ≠ StateOpen.
Proof.
  unfold AnyOpen. rewrite <- not_true_iff_false, existsb_exists. split.
  - intros H l b Hl Hp Hs. apply H. exists (l, b). split.
    + by apply list_elem_of_In, elem_of_map_to_list.
    + simpl. by rewrite !bool_decide_eq_true_2.
  - intros H [[l b] [Hin Hb]]. apply list_elem_of_In, elem_of_map_to_list in Hin.
    apply andb_true_iff in Hb as [Hp%bool_decide_eq_true Hs%bool_decide_eq_true].
    by apply (H l b).
Qed.

(** an operator's reset is complete and contained.  Whatever each
    breaker's store answers, afterwards every breaker of the named provider
    is closed with no failures, no streak, no probe and the base cooldown,
    no breaker of another provider has changed, the provider has no open
    breaker left, and the reported count is the number of its breakers. *)
Theorem Registry_Reset_complete now f p r d :
  let '(n, failed, r', d') := Registry_Reset now f p r d in
  n = Z.of_nat (size (filter (λ lb, l_Provider lb.1 = p) r)) ∧
  AnyOpen p r' = false ∧
  (∀ l, l_Provider l ≠ p → r' !! l = r !! l) ∧
  (∀ l, l_Provider l = p → is_Some (r !! l) → ∃ b, r' !! l = Some b ∧ fresh_closed b).
Proof.
  unfold Registry_Reset.
  pose proof (reset_loop_spec now f (targets p r) r d (targets_nodup p r)) as [H1 H2].
  destruct (reset_loop now f (targets p r) r d) as [[failed r'] d']. simpl in *.
  assert (∀ l, l_Provider l = p → is_Some (r !! l) → ∃ b, r' !! l = Some b ∧ fresh_closed b) as H3.
  { intros l Hp Hs. apply H2, targets_elem. done. }
  split; [|split; [|split; [|exact H3]]].
  - by rewrite targets_count.
  - apply AnyOpen_false. intros l b Hl Hp.
    destruct (decide (l ∈ (targets p r).*1)) as [Hin|Hnin].
    + destruct (H2 l Hin) as (b0 & Hb0 & Hc & _). simplify_eq. congruence.
    + rewrite (H1 l Hnin) in Hl. destruct Hnin. apply targets_elem. eauto.
  - intros l Hp. apply H1. rewrite targets_elem. tauto.
Qed.
End registry.
