(* ===== verification/Provider.v ===== *)
(** * internal/provider/errors.go and the errors that travel the chain

    The canonical provider failure, and the error values that reach the retry
    loop and the fallback chain: a provider failure, the sentinels of
    internal/proxy, and an error that wraps another with [%w]. *)

From S2P Require Import Prelude.

(** [KindNone] is the zero value [""], which classifies nothing. *)
Inductive Kind :=
| KindNone | KindRateLimited | KindTimeout | KindAuthFailed | KindContentPolicy
| KindServerError | KindNetworkError | KindInvalidRequest.

#[export] Instance Kind_eq_dec : EqDecision Kind.
Proof. solve_decision. Defined.

Definition Kind_string (k : Kind) : string :=
  match k with
  | KindNone => ""
  | KindRateLimited => "rate_limited"
  | KindTimeout => "timeout"
  | KindAuthFailed => "auth_failed"
  | KindContentPolicy => "content_policy"
  | KindServerError => "server_error"
  | KindNetworkError => "network_error"
  | KindInvalidRequest => "invalid_request"
  end.

Definition DefaultRetryable (k : Kind) : bool :=
  match k with
  | KindRateLimited | KindTimeout | KindServerError | KindNetworkError => true
  | _ => false
  end.

Record Error := {
  e_Kind : Kind;
  e_Provider : string;
  e_Model : string;
  e_StatusCode : Z;
  e_Retryable : bool;
  e_RetryAfter : Z;
  e_Message : string
}.

Definition KindForStatus (status : Z) : Kind :=
  if status <? 400 then KindNone
  else if status =? 408 then KindTimeout
  else if status =? 429 then KindRateLimited
  else if (status =? 401) || (status =? 403) then KindAuthFailed
  else if 500 <=? status then KindServerError
  else KindInvalidRequest.

Definition NewHTTPError (providerName model : string) (status : Z) (message : string) : Error :=
  let kind := KindForStatus status in
  {| e_Kind := kind; e_Provider := providerName; e_Model := model; e_StatusCode := status;
     e_Retryable := DefaultRetryable kind; e_RetryAfter := 0; e_Message := message |}.

(** What [NewTransportError] asks of the cause: whether it is
    [context.DeadlineExceeded], and whether it is a [net.Error] that timed out. *)
Definition NewTransportError (providerName model : string) (deadline netTimeout : bool) : Error :=
  let kind := if deadline then KindTimeout
              else if netTimeout then KindTimeout else KindNetworkError in
  {| e_Kind := kind; e_Provider := providerName; e_Model := model; e_StatusCode := 0;
     e_Retryable := DefaultRetryable kind; e_RetryAfter := 0; e_Message := "" |}.

Inductive go_error :=
| ProviderError (e : Error)
| ErrBreakerOpen
| BudgetDeniedError (teamID model : string) (spentMicros capMicros : Z)
| ErrModelNotSupported (model : string)
| ErrChainEmpty
| Wrapped (context : string) (e : go_error)
| OtherError (s : string).

(** [errors.As(err, &provErr)]: the first provider failure in the chain. *)
Fixpoint asProviderError (err : go_error) : option Error :=
  match err with
  | ProviderError e => Some e
  | Wrapped _ e => asProviderError e
  | _ => None
  end.

(** [errors.Is(err, errBreakerOpen)] *)
Fixpoint isBreakerOpen (err : go_error) : bool :=
  match err with
  | ErrBreakerOpen => true
  | Wrapped _ e => isBreakerOpen e
  | _ => false
  end.

(** [errors.As(err, &denied)] for a [*budgetDeniedError]. *)
Fixpoint asBudgetDenied (err : go_error) : option (string * Z * Z) :=
  match err with
  | BudgetDeniedError team _ spent cap => Some (team, spent, cap)
  | Wrapped _ e => asBudgetDenied e
  | _ => None
  end.

Lemma KindForStatus_none status : KindForStatus status = KindNone ↔ status < 400.
Proof.
  unfold KindForStatus. destruct (Z.ltb_spec status 400); [done|].
  split; [|lia]. by repeat case_match.
Qed.

Lemma NewHTTPError_retryable p m status msg :
  e_Retryable (NewHTTPError p m status msg) = true ↔
  status = 408 ∨ status = 429 ∨ 500 ≤ status.
Proof.
  unfold NewHTTPError, KindForStatus. simpl.
  destruct (Z.ltb_spec status 400), (Z.eqb_spec status 408), (Z.eqb_spec status 429),
    (Z.eqb_spec status 401), (Z.eqb_spec status 403), (Z.leb_spec 500 status);
    simpl; split; try done; lia.
Qed.
