(* ===== verification/Retry.v ===== *)
(** * internal/resilience/retry.go: retrying one provider

    The loop [Do] over an abstract world [W]: one call of the provider, the
    wait between attempts (which reports whether the request was cancelled
    first) and the random source are operations of the world. *)

From S2P Require Import Prelude Provider.

Record Config := { MaxAttempts : Z; BaseDelay : Z; MaxTotalAttempts : Z }.

Inductive retry_config_error := BadMaxAttempts | BadBaseDelay | BadMaxTotal.

Definition NewConfig (maxAttempts baseDelay maxTotalAttempts : Z)
    : result retry_config_error Config :=
  if maxAttempts <? 1 then Err BadMaxAttempts
  else if baseDelay <=? 0 then Err BadBaseDelay
  else if maxTotalAttempts <? maxAttempts then Err BadMaxTotal
  else Ok {| MaxAttempts := maxAttempts; BaseDelay := baseDelay;
             MaxTotalAttempts := maxTotalAttempts |}.

Lemma NewConfig_bounds a d n cfg :
  NewConfig a d n = Ok cfg →
  1 ≤ MaxAttempts cfg ≤ MaxTotalAttempts cfg ∧ 0 < BaseDelay cfg.
Proof. unfold NewConfig. intros H. split_ifs. lia. Qed.

Definition ShouldFallback (err : go_error) : bool :=
  match asProviderError err with
  | None => true
  | Some e => match e_Kind e with
              | KindInvalidRequest | KindContentPolicy => false
              | _ => true
              end
  end.

(** [wait d] is the select between the request's context and a timer: [true]
    when the context was done.  [rand_int64n n] is [rand.Int64N(n)]. *)
Class World (W : Type) := {
  wait : Z → W → bool * W;
  rand_int64n : Z → W → Z * W;
  rand_range n w : 0 < n → 0 ≤ (rand_int64n n w).1 < n
}.

Definition maxBackoffExponent : Z := 20.

Section retry.
Context {W T : Type} `{!World W}.

Definition fullJitter (base exponent : Z) (w : W) : Z * W :=
  let exponent := if exponent <? 0 then 0 else exponent in
  let exponent := if maxBackoffExponent <? exponent then maxBackoffExponent else exponent in
  let upper := shl64 base exponent in
  if upper <=? 0 then (base, w) else rand_int64n upper w.

Definition backoffDelay (base n : Z) (provErr : Error) (w : W) : Z * W :=
  if 0 <? e_RetryAfter provErr then (e_RetryAfter provErr, w)
  else fullJitter base (n - 1) w.

Context (attempt : Z → W → result go_error T * W).

(** The iteration with [k] more to come after it; [n] is the try number. *)
Fixpoint do_loop (base : Z) (k : nat) (n : Z) (w : W) : result go_error T * Z * W :=
  let '(r, w) := attempt n w in
  match r with
  | Ok v => (Ok v, n, w)
  | Err err =>
      match k with
      | O => (Err err, n, w)
      | S k' =>
          match asProviderError err with
          | None => (Err err, n, w)
          | Some provErr =>
              if negb (e_Retryable provErr) then (Err err, n, w)
              else
                let '(delay, w) := backoffDelay base n provErr w in
                let '(cancelled, w) := wait delay w in
                if cancelled then (Err err, n, w) else do_loop base k' (n + 1) w
          end
      end
  end.

(** [None] is what the source returns when the loop body never runs: the
    zero value and a nil error. *)
Definition Do (cfg : Config) (w : W) : option (result go_error T) * Z * W :=
  if MaxAttempts cfg <? 1 then (None, 0, w)
  else let '(r, n, w) := do_loop (BaseDelay cfg) (Z.to_nat (MaxAttempts cfg - 1)) 1 w in
       (Some r, n, w).

(** ** Bounds on the number of calls *)

(** [calls] counts provider calls: one per attempt, none by waiting. *)
Class CountsCalls (calls : W → Z) : Prop := {
  calls_attempt n w : calls (attempt n w).2 = calls w + 1;
  calls_wait d w : calls (wait d w).2 = calls w;
  calls_rand n w : calls (rand_int64n n w).2 = calls w
}.

Lemma calls_backoff calls `{!CountsCalls calls} base n e w :
  calls (backoffDelay base n e w).2 = calls w.
Proof.
  unfold backoffDelay, fullJitter. repeat case_match; simpl; try done; apply calls_rand.
Qed.

Lemma do_loop_spec calls `{!CountsCalls calls} base k n w :
  let '(r, m, w') := do_loop base k n w in
  n ≤ m ≤ n + Z.of_nat k ∧ calls w' = calls w + (m - n + 1) ∧
  (∃ w0, (attempt m w0).1 = r).
Proof.
  revert n w. induction k as [|k IH]; intros n w; simpl;
    pose proof (calls_attempt n w) as Hc; destruct (attempt n w) as [[v|err] w1] eqn:Ha;
    simpl in Hc.
  1,2,3: split; [lia|]; split; [lia|]; exists w; by rewrite Ha.
  assert (n ≤ n ≤ n + Z.of_nat (S k) ∧ calls w1 = calls w + (n - n + 1) ∧
          ∃ w0, (attempt n w0).1 = Err err) as Hstop.
  { split; [lia|]. split; [lia|]. exists w. by rewrite Ha. }
  destruct (asProviderError err) as [pe|]; [|done].
  destruct (negb (e_Retryable pe)); [done|].
  pose proof (calls_backoff calls base n pe w1) as Hb.
  destruct (backoffDelay base n pe w1) as [delay w2]. simpl in Hb.
  pose proof (calls_wait delay w2) as Hw.
  destruct (wait delay w2) as [cancelled w3]. simpl in Hw.
  destruct cancelled; [split; [lia|]; split; [lia|]; apply Hstop|].
  specialize (IH (n + 1) w3). destruct (do_loop base k (n + 1) w3) as [[r m] w4].
  destruct IH as (? & ? & ?). split; [lia|]. split; [lia|done].
Qed.

Lemma Do_spec cfg calls `{!CountsCalls calls} w :
  1 ≤ MaxAttempts cfg →
  ∃ r m w', Do cfg w = (Some r, m, w') ∧ 1 ≤ m ≤ MaxAttempts cfg ∧
            calls w' = calls w + m ∧ ∃ w0, (attempt m w0).1 = r.
Proof.
  intros Hmax. unfold Do. destruct (Z.ltb_spec (MaxAttempts cfg) 1); [lia|].
  pose proof (do_loop_spec calls (BaseDelay cfg) (Z.to_nat (MaxAttempts cfg - 1)) 1 w) as H1.
  destruct (do_loop _ _ _ _) as [[r m] w']. destruct H1 as (? & ? & ?).
  exists r, m, w'. split; [done|]. split; [lia|]. split; [lia|done].
Qed.

(** C36: a validated policy always produces an outcome: between one and
    [MaxAttempts] tries are made, each is exactly one provider call, and
    what is returned is the outcome of the last try itself, never an error
    of the wait. *)
Theorem Do_bounded_attempts a d total cfg calls `{!CountsCalls calls} w :
  NewConfig a d total = Ok cfg →
  ∃ r m w', Do cfg w = (Some r, m, w') ∧ 1 ≤ m ≤ MaxAttempts cfg ∧
            calls w' = calls w + m ∧ ∃ w0, (attempt m w0).1 = r.
Proof.
  intros [Hc _]%NewConfig_bounds. apply Do_spec; [done|lia].
Qed.

(** A failure that is not a retryable provider failure is returned from
    the first try, whatever the policy allows. *)
Lemma Do_never_retries_final cfg w err w' :
  1 ≤ MaxAttempts cfg → attempt 1 w = (Err err, w') →
  match asProviderError err with Some e => e_Retryable e = false | None => True end →
  Do cfg w = (Some (Err err), 1, w').
Proof.
  intros Hmax Ha Hf. unfold Do. destruct (Z.ltb_spec (MaxAttempts cfg) 1); [lia|].
  destruct (Z.to_nat (MaxAttempts cfg - 1)); simpl; rewrite Ha; [done|].
  destruct (asProviderError err) as [e|]; [|done]. by rewrite Hf.
Qed.
End retry.

(** the wait before a retry is the provider's own Retry-After when it
    gave one, and otherwise lies in [0, base * 2^(n-1)), the exponent capped
    at 20; with a base under two to the 43 nanoseconds nothing overflows. *)
Theorem backoffDelay_bounds {W} `{!World W} base n e (w : W) :
  0 < base < 2 ^ 43 → 1 ≤ n →
  let d := (backoffDelay base n e w).1 in
  (0 < e_RetryAfter e → d = e_RetryAfter e) ∧
  (e_RetryAfter e ≤ 0 → 0 ≤ d < base * 2 ^ Z.min (n - 1) 20).
Proof.
  intros Hb Hn d. subst d. unfold backoffDelay.
  destruct (Z.ltb_spec 0 (e_RetryAfter e)); [split; [done|lia]|]. split; [lia|]. intros _.
  unfold fullJitter, maxBackoffExponent.
  set (x := if 20 <? _ then _ else _).
  assert (x = Z.min (n - 1) 20) as -> by (subst x; split_ifs; lia).
  set (x := Z.min _ _). assert (0 ≤ x ≤ 20) by lia.
  assert (1 ≤ 2 ^ x ≤ 2 ^ 20).
  { split; [|apply Z.pow_le_mono_r; lia]. pose proof (Z.pow_pos_nonneg 2 x). lia. }
  assert (base * 2 ^ x ≤ int64_max).
  { unfold int64_max. transitivity (2 ^ 43 * 2 ^ 20 - 1); [nia|done]. }
  rewrite shl64_mul by (unfold in_int64, int64_min; nia).
  destruct (Z.leb_spec (base * 2 ^ x) 0); [nia|]. apply rand_range. lia.
Qed.

(** ** Witnesses: a world that counts calls and remembers its waits *)

Record demo_world := { dw_calls : Z; dw_waits : list Z }.

#[export] Program Instance demo_world_world : World demo_world := {|
  wait d w := (false, {| dw_calls := dw_calls w; dw_waits := d :: dw_waits w |});
  rand_int64n n w := (0, w)
|}.
Next Obligation. simpl. lia. Qed.

Definition rate_limited : Error := NewHTTPError "groq" "llama-3.3-70b" 429 "slow down".
Definition bad_request : Error := NewHTTPError "groq" "llama-3.3-70b" 400 "bad body".

(** Throttled on every try. *)
Definition demo_attempt (n : Z) (w : demo_world) : result go_error string * demo_world :=
  (Err (ProviderError rate_limited),
   {| dw_calls := dw_calls w + 1; dw_waits := dw_waits w |}).

#[export] Instance demo_counts : CountsCalls demo_attempt dw_calls.
Proof. by split. Defined.

Lemma Do_bounded_attempts_witness :
  ∃ cfg, NewConfig 3 (50 * millisecond) 6 = Ok cfg ∧
  ∃ r m w', Do demo_attempt cfg {| dw_calls := 0; dw_waits := [] |} = (Some r, m, w') ∧
            1 ≤ m ≤ 3.
Proof.
  exists {| MaxAttempts := 3; BaseDelay := 50 * millisecond; MaxTotalAttempts := 6 |}.
  split; [reflexivity|].
  destruct (Do_bounded_attempts demo_attempt 3 (50 * millisecond) 6
    {| MaxAttempts := 3; BaseDelay := 50 * millisecond; MaxTotalAttempts := 6 |} dw_calls
    {| dw_calls := 0; dw_waits := [] |} eq_refl) as (r & m & w' & H1 & H2 & _).
  exists r, m, w'. split; [exact H1|exact H2].
Defined.

Definition demo_attempt400 (n : Z) (w : demo_world) : result go_error string * demo_world :=
  (Err (ProviderError bad_request),
   {| dw_calls := dw_calls w + 1; dw_waits := dw_waits w |}).

Lemma backoffDelay_bounds_witness :
  0 ≤ (backoffDelay (50 * millisecond) 3 rate_limited {| dw_calls := 0; dw_waits := [] |}).1
    < 50 * millisecond * 2 ^ Z.min 2 20.
Proof.
  destruct (backoffDelay_bounds (50 * millisecond) 3 rate_limited
    {| dw_calls := 0; dw_waits := [] |}) as [_ H]; [closed|closed|].
  apply H. vm_compute. discriminate.
Defined.
