(* ===== verification/Rational.v ===== *)
(** * Rationals

    The source computes ratios, token balances and seconds in float64; the
    models compute them as exact rationals.  The comparisons and conversions
    the models use, with their specifications. *)

From Stdlib Require Export QArith Qminmax Qabs Lqa.
From S2P Require Import Prelude.
Open Scope Z_scope.

Definition Qltb (a b : Q) : bool := negb (Qle_bool b a).

Lemma Qltb_spec a b : Qltb a b = true ↔ (a < b)%Q.
Proof.
  unfold Qltb. rewrite negb_true_iff, <- not_true_iff_false, Qle_bool_iff.
  split; [apply Qnot_le_lt|apply Qlt_not_le].
Qed.

Lemma Qltb_false a b : Qltb a b = false ↔ (b <= a)%Q.
Proof. unfold Qltb. by rewrite negb_false_iff, Qle_bool_iff. Qed.

Lemma Qle_bool_false a b : Qle_bool a b = false ↔ (b < a)%Q.
Proof. rewrite <- Qltb_spec. unfold Qltb. by rewrite negb_true_iff. Qed.

(** Go's conversion of a float to an integer truncates toward zero. *)
Definition Qtrunc (q : Q) : Z := Z.quot (Qnum q) (Zpos (Qden q)).

(** [math.Ceil] followed by the conversion. *)
Definition Qceil (q : Q) : Z := - ((- Qnum q) / Zpos (Qden q)).

Lemma Qtrunc_bounds q : (0 <= q)%Q → (inject_Z (Qtrunc q) <= q < inject_Z (Qtrunc q) + 1)%Q.
Proof.
  intros Hq. unfold Qtrunc, Qle, Qlt, inject_Z in *. destruct q as [n d]. simpl in *.
  rewrite Z.quot_div_nonneg by lia.
  pose proof (Z.div_mod n (Zpos d)). pose proof (Z.mod_pos_bound n (Zpos d)). split; nia.
Qed.

Lemma Qtrunc_nonneg q : (0 <= q)%Q → 0 ≤ Qtrunc q.
Proof.
  intros Hq. unfold Qtrunc, Qle in *. destruct q as [n d]. simpl in *.
  apply Z.quot_pos; lia.
Qed.

Lemma Qceil_bounds q : (inject_Z (Qceil q) - 1 < q <= inject_Z (Qceil q))%Q.
Proof.
  unfold Qceil, Qle, Qlt, Qminus, Qplus, Qopp, inject_Z. destruct q as [n d]. simpl.
  pose proof (Z.div_mod (- n) (Zpos d)). pose proof (Z.mod_pos_bound (- n) (Zpos d)). split; nia.
Qed.

Lemma inject_Z_le a b : a ≤ b → (inject_Z a <= inject_Z b)%Q.
Proof. by rewrite Zle_Qle. Qed.

Lemma inject_Z_lt a b : a < b → (inject_Z a < inject_Z b)%Q.
Proof. by rewrite Zlt_Qlt. Qed.

Lemma inject_Z_pos a : 0 < a → (0 < inject_Z a)%Q.
Proof. apply (inject_Z_lt 0). Qed.

Lemma inject_Z_nonneg a : 0 ≤ a → (0 <= inject_Z a)%Q.
Proof. apply (inject_Z_le 0). Qed.
