(* ===== verification/Ring.v ===== *)
(** * Fixed-capacity ring buffers

    internal/health keeps its request samples and its transition history in
    two arrays of the same shape: a slot index [next], a fill [count] and an
    array written round-robin.  [ring_rep] relates such a buffer to the whole
    history of what was ever written. *)

From S2P Require Import Prelude.

Record ring (A : Type) := { r_entries : list A; r_next : nat; r_count : nat }.
Arguments r_entries {A}.
Arguments r_next {A}.
Arguments r_count {A}.

Section ring.
Context {A : Type} (zero : A) (capacity : nat).

Definition ring_new : ring A :=
  {| r_entries := replicate capacity zero; r_next := 0; r_count := 0 |}.

Definition ring_append (x : A) (r : ring A) : ring A :=
  {| r_entries := <[r_next r := x]> (r_entries r);
     r_next := (r_next r + 1) mod capacity;
     r_count := if (r_count r <? capacity)%nat then (r_count r + 1)%nat else r_count r |}.

(** The slot of the [i]-th most recent entry. *)
Definition ring_slot (r : ring A) (i : nat) : nat :=
  ((r_next r + capacity - 1 - i) mod capacity)%nat.

(** Entries, most recent first. *)
Definition ring_recent (r : ring A) : list A :=
  map (λ i, nth (ring_slot r i) (r_entries r) zero) (seq 0 (r_count r)).

(** Entries in slot order, the order a plain loop over the array reads. *)
Definition ring_slots (r : ring A) : list A :=
  map (λ i, nth i (r_entries r) zero) (seq 0 (r_count r)).

Definition ring_last (r : ring A) : option A :=
  if (r_count r =? 0)%nat then None
  else Some (nth (ring_slot r 0) (r_entries r) zero).

(** ** What a ring holds of the history [h], most recent first *)
Record ring_rep (h : list A) (r : ring A) : Prop := {
  rr_len : length (r_entries r) = capacity;
  rr_next : (r_next r < capacity)%nat;
  rr_count : r_count r = Nat.min capacity (length h);
  rr_fill : (length h < capacity → r_next r = length h)%nat;
  rr_get i : (i < r_count r)%nat → nth (ring_slot r i) (r_entries r) zero = nth i h zero
}.

Context (Hcap : (0 < capacity)%nat).

Lemma ring_slot_lt r i : (ring_slot r i < capacity)%nat.
Proof. unfold ring_slot. apply Nat.mod_upper_bound. lia. Qed.

Lemma ring_slot_0 r : (r_next r < capacity)%nat →
  ring_slot {| r_entries := r_entries r; r_next := (r_next r + 1) mod capacity;
               r_count := r_count r |} 0 = r_next r.
Proof. unfold ring_slot. simpl. intros H.
  destruct (decide (r_next r + 1 = capacity)%nat) as [He|].
  - rewrite He, Nat.Div0.mod_same. replace (0 + capacity - 1 - 0)%nat with (r_next r) by lia.
    by apply Nat.mod_small.
  - rewrite (Nat.mod_small (r_next r + 1)) by lia.
    replace (r_next r + 1 + capacity - 1 - 0)%nat with (r_next r + 1 * capacity)%nat by lia.
    rewrite Nat.Div0.mod_add. by apply Nat.mod_small.
Qed.

Lemma mod_sub_step n i : (n < capacity)%nat → (S i < capacity)%nat →
  ((((n + 1) mod capacity) + capacity - 1 - S i) mod capacity =
   (n + capacity - 1 - i) mod capacity)%nat.
Proof.
  intros Hn Hi. destruct (decide (n + 1 = capacity)%nat) as [He|].
  - rewrite He, Nat.Div0.mod_same.
    replace (n + capacity - 1 - i)%nat with ((0 + capacity - 1 - S i) + 1 * capacity)%nat by lia.
    by rewrite Nat.Div0.mod_add.
  - rewrite (Nat.mod_small (n + 1)) by lia. f_equal. lia.
Qed.

Lemma mod_slot_ne n i : (n < capacity)%nat → (S i < capacity)%nat →
  ((n + capacity - 1 - i) mod capacity ≠ n)%nat.
Proof.
  intros Hn Hi. destruct (decide (i < n)%nat).
  - replace (n + capacity - 1 - i)%nat with ((n - 1 - i) + 1 * capacity)%nat by lia.
    rewrite Nat.Div0.mod_add, Nat.mod_small by lia. lia.
  - rewrite Nat.mod_small by lia. lia.
Qed.

Lemma ring_rep_new : ring_rep [] ring_new.
Proof. split; simpl; try lia; try done. by rewrite length_replicate. Qed.

Lemma nth_insert_eq (l : list A) i x d : (i < length l)%nat → nth i (<[i:=x]> l) d = x.
Proof.
  intros Hi. rewrite nth_lookup, list_lookup_insert_eq by done. done.
Qed.

Lemma nth_insert_ne (l : list A) i j x d : i ≠ j → nth j (<[i:=x]> l) d = nth j l d.
Proof. intros Hi. by rewrite !nth_lookup, list_lookup_insert_ne. Qed.

Lemma ring_rep_append h r x : ring_rep h r → ring_rep (x :: h) (ring_append x r).
Proof.
  intros [Hlen Hnext Hcount Hfill Hget]. split; simpl.
  - by rewrite length_insert.
  - by apply Nat.mod_upper_bound; lia.
  - destruct (Nat.ltb_spec (r_count r) capacity); lia.
  - intros Hlt. rewrite Hfill, Nat.mod_small by lia. lia.
  - intros i Hi. destruct i as [|i]; simpl.
    + change (ring_slot (ring_append x r) 0) with
        (ring_slot {| r_entries := r_entries r; r_next := (r_next r + 1) mod capacity;
                      r_count := r_count r |} 0).
      rewrite ring_slot_0 by done. apply nth_insert_eq. lia.
    + assert (S i < capacity ∧ i < r_count r)%nat as [Hc Hr].
      { destruct (Nat.ltb_spec (r_count r) capacity); lia. }
      unfold ring_slot at 1. simpl. rewrite mod_sub_step by lia.
      rewrite nth_insert_ne by (apply not_eq_sym, mod_slot_ne; lia).
      by apply Hget.
Qed.

(** The ring keeps exactly the [capacity] most recent entries, in order. *)
Lemma ring_recent_rep h r : ring_rep h r → ring_recent r = take capacity h.
Proof.
  intros [Hlen Hnext Hcount Hfill Hget]. unfold ring_recent.
  apply list_eq. intros i. rewrite list_lookup_fmap.
  destruct (decide (i < r_count r)%nat) as [Hi|Hi].
  - rewrite lookup_seq_lt by done. simpl. rewrite Hget by done.
    rewrite lookup_take_lt by lia. rewrite nth_lookup.
    destruct (lookup_lt_is_Some_2 h i) as [y Hy]; [lia|]. by rewrite Hy.
  - rewrite lookup_seq_ge by lia. simpl. symmetry. apply lookup_ge_None.
    rewrite length_take. lia.
Qed.

Lemma ring_last_rep h r : ring_rep h r → ring_last r = head h.
Proof.
  intros [Hlen Hnext Hcount Hfill Hget]. unfold ring_last.
  destruct (Nat.eqb_spec (r_count r) 0) as [He|He].
  - destruct h; simpl in *; [done|lia].
  - rewrite Hget by lia. destruct h; simpl in *; [lia|done].
Qed.

Lemma ring_slot_inj r i j :
  (r_next r < capacity)%nat → (i < capacity)%nat → (j < capacity)%nat →
  ring_slot r i = ring_slot r j → i = j.
Proof.
  unfold ring_slot. intros Hn Hi Hj.
  assert (∀ k, (k < capacity)%nat → ((r_next r + capacity - 1 - k) mod capacity =
    if decide (k < r_next r) then r_next r - 1 - k else r_next r + capacity - 1 - k)%nat) as Heq.
  { intros k Hk. case_decide.
    - replace (r_next r + capacity - 1 - k)%nat with ((r_next r - 1 - k) + 1 * capacity)%nat by lia.
      rewrite Nat.Div0.mod_add. apply Nat.mod_small. lia.
    - apply Nat.mod_small. lia. }
  rewrite !Heq by done. repeat case_decide; lia.
Qed.

(** Reading the slots in array order gives the same entries, reordered. *)
Lemma ring_slots_perm h r : ring_rep h r → ring_slots r ≡ₚ ring_recent r.
Proof.
  intros [Hlen Hnext Hcount Hfill Hget]. unfold ring_slots, ring_recent.
  rewrite <- (map_map (ring_slot r) (λ i, nth i (r_entries r) zero)).
  apply fmap_Permutation. symmetry.
  assert (NoDup (map (ring_slot r) (seq 0 (r_count r)))) as Hnd.
  { apply NoDup_fmap_2_strong; [|apply NoDup_seq].
    intros i j Hi%elem_of_seq Hj%elem_of_seq. apply ring_slot_inj; lia. }
  apply submseteq_length_Permutation.
  - apply NoDup_submseteq; [done|]. intros x [i [-> Hi%elem_of_seq]]%list_elem_of_fmap.
    apply elem_of_seq. split; [lia|]. simpl.
    destruct (decide (length h < capacity)%nat) as [Hl|Hl].
    + unfold ring_slot. rewrite Hfill by done.
      replace (length h + capacity - 1 - i)%nat with ((length h - 1 - i) + 1 * capacity)%nat by lia.
      rewrite Nat.Div0.mod_add, Nat.mod_small by lia. lia.
    + pose proof (ring_slot_lt r i). lia.
  - by rewrite length_map, !length_seq.
Qed.
End ring.
