(* ===== verification/Health.v ===== *)
(** * internal/health: passive.go and status.go

    The rolling window of real request outcomes, the classification of a
    provider from its pings and that window, and the hysteresis of the status.
    Rates are exact rationals: the source divides two small integers as
    float64, and every comparison is against a configured constant. *)

From Stdlib Require Import QArith Sorted.
From stdpp Require Import sorting.
From S2P Require Import Prelude Redis Ring.
Open Scope Z_scope.

(** ** passive.go *)

Definition windowCapacity : nat := 100.
Definition windowDuration : Z := 60 * second.

Record sample := { s_at : Z; s_latency : Z; s_failed : bool; s_timeout : bool }.
Definition sample_zero : sample :=
  {| s_at := 0; s_latency := 0; s_failed := false; s_timeout := false |}.

Record Stats := { Count : Z; ErrorRate : Q; TimeoutRate : Q; P99Latency : Z }.
Definition Stats_zero : Stats :=
  {| Count := 0; ErrorRate := 0; TimeoutRate := 0; P99Latency := 0 |}.

Definition window_new : ring sample := ring_new sample_zero windowCapacity.

Definition window_record (s : sample) (w : ring sample) : ring sample :=
  ring_append windowCapacity s w.

(** The loop of [stats] over the samples it reads. *)
Definition stats_of (now : Z) (samples : list sample) : Stats :=
  let live := keep (λ s, negb (windowDuration <? now - s_at s)) samples in
  let latencies := map s_latency live in
  let n := Z.of_nat (length latencies) in
  if n =? 0 then Stats_zero
  else
    let sorted := merge_sort Z.le latencies in
    let p99Index := n * 99 / 100 in
    let p99Index := if n <=? p99Index then n - 1 else p99Index in
    {| Count := n;
       ErrorRate := countb s_failed live # Z.to_pos n;
       TimeoutRate := countb s_timeout live # Z.to_pos n;
       P99Latency := nth (Z.to_nat p99Index) sorted 0 |}.

Definition window_stats (now : Z) (w : ring sample) : Stats :=
  stats_of now (ring_slots sample_zero w).

Definition NewRecorder (providers : list string) : gmap string (ring sample) :=
  list_to_map (map (λ p, (p, window_new)) providers).

(** [failed] is [err != nil]; [timeout] that it is a provider timeout. *)
Definition Record_ (now : Z) (providerName : string) (latency : Z) (failed timeout : bool)
    (rec : gmap string (ring sample)) : gmap string (ring sample) :=
  match rec !! providerName with
  | None => rec
  | Some w =>
      <[providerName := window_record {| s_at := now; s_latency := latency; s_failed := failed;
                                         s_timeout := failed && timeout |} w]> rec
  end.

Definition Recorder_Stats (now : Z) (providerName : string) (rec : gmap string (ring sample))
    : Stats :=
  match rec !! providerName with
  | None => Stats_zero
  | Some w => window_stats now w
  end.

(** ** status.go *)

Inductive Status := StatusHealthy | StatusDegraded | StatusDown.

#[export] Instance Status_eq_dec : EqDecision Status.
Proof. solve_decision. Defined.

Definition Status_String (s : Status) : string :=
  match s with
  | StatusHealthy => "healthy"
  | StatusDegraded => "degraded"
  | StatusDown => "down"
  end.

Definition parseStatus (s : string) : option Status :=
  if decide (s = "healthy"%string) then Some StatusHealthy
  else if decide (s = "degraded"%string) then Some StatusDegraded
  else if decide (s = "down"%string) then Some StatusDown
  else None.

Definition keyPrefix : string := "switchyard:health".
Definition statusKey (providerName : string) : string :=
  (keyPrefix ++ ":" ++ providerName ++ ":status")%string.

Record MonitorConfig := {
  DegradedErrorRate : Q;
  DownErrorRate : Q;
  DownConsecutiveFailures : Z;
  RecoveryStreak : Z
}.

Inductive monitor_config_error :=
| BadDegradedRate | BadDownRate | RatesNotOrdered | BadConsecutive | BadRecovery.

Definition validate (c : MonitorConfig) : option monitor_config_error :=
  if Qle_bool (DegradedErrorRate c) 0 || Qle_bool 1 (DegradedErrorRate c) then Some BadDegradedRate
  else if Qle_bool (DownErrorRate c) 0 || Qle_bool 1 (DownErrorRate c) then Some BadDownRate
  else if Qle_bool (DownErrorRate c) (DegradedErrorRate c) then Some RatesNotOrdered
  else if DownConsecutiveFailures c <=? 0 then Some BadConsecutive
  else if RecoveryStreak c <=? 0 then Some BadRecovery
  else None.

Record Transition := { t_At : Z; t_From : Status; t_To : Status; t_Reason : string }.
Definition Transition_zero : Transition :=
  {| t_At := zero_time; t_From := StatusHealthy; t_To := StatusHealthy; t_Reason := "" |}.

Definition transitionHistoryCapacity : nat := 100.

Record providerState := {
  p_status : Status;
  consecutiveFails : Z;
  recoveryStreak : Z;
  baselineP99 : Z;
  haveBaseline : bool;
  lastCheckAt : Z;
  history : ring Transition
}.

Definition providerState_new : providerState :=
  {| p_status := StatusHealthy; consecutiveFails := 0; recoveryStreak := 0; baselineP99 := 0;
     haveBaseline := false; lastCheckAt := zero_time;
     history := ring_new Transition_zero transitionHistoryCapacity |}.

Definition baselineMultiplier : Z := 3.

(** [anyOpen] is [m.breakers.AnyOpen], false when no oracle is wired. *)
Definition classify (cfg : MonitorConfig) (anyOpen : bool) (st : providerState) (stats : Stats)
    : Status * string :=
  if DownConsecutiveFailures cfg <=? consecutiveFails st
  then (StatusDown, "consecutive_ping_failures")
  else if (0 <? Count stats) && Qle_bool (DownErrorRate cfg) (ErrorRate stats)
  then (StatusDown, "error_rate_hard_threshold")
  else if anyOpen then (StatusDegraded, "circuit_breaker_open")
  else if (0 <? Count stats) && Qle_bool (DegradedErrorRate cfg) (ErrorRate stats)
  then (StatusDegraded, "error_rate_threshold")
  else if haveBaseline st && (0 <? Count stats)
          && (baselineMultiplier * baselineP99 st <=? P99Latency stats)
  then (StatusDegraded, "p99_above_baseline")
  else (StatusHealthy, "within_thresholds").

(** [setStatus] without its best-effort write to Redis, which is [persist]. *)
Definition setStatus (now : Z) (newStatus : Status) (reason : string) (st : providerState)
    : providerState :=
  {| p_status := newStatus; consecutiveFails := consecutiveFails st;
     recoveryStreak := recoveryStreak st; baselineP99 := baselineP99 st;
     haveBaseline := haveBaseline st; lastCheckAt := lastCheckAt st;
     history := ring_append transitionHistoryCapacity
       {| t_At := now; t_From := p_status st; t_To := newStatus; t_Reason := reason |}
       (history st) |}.

Definition with_streak (n : Z) (st : providerState) : providerState :=
  {| p_status := p_status st; consecutiveFails := consecutiveFails st; recoveryStreak := n;
     baselineP99 := baselineP99 st; haveBaseline := haveBaseline st;
     lastCheckAt := lastCheckAt st; history := history st |}.

(** The new state, and whether [setStatus] ran. *)
Definition transition (cfg : MonitorConfig) (now : Z) (raw : Status) (reason : string)
    (pingOK : bool) (st : providerState) : providerState * bool :=
  if bool_decide (raw ≠ StatusHealthy) then
    let st := with_streak 0 st in
    if bool_decide (raw ≠ p_status st) then (setStatus now raw reason st, true) else (st, false)
  else if bool_decide (p_status st = StatusHealthy) then (st, false)
  else if negb pingOK then (with_streak 0 st, false)
  else
    let st := with_streak (recoveryStreak st + 1) st in
    if recoveryStreak st <? RecoveryStreak cfg then (st, false)
    else (with_streak 0 (setStatus now StatusHealthy "recovered" st), true).

(** 0.2 of the reading and 0.8 of the baseline, truncated to nanoseconds. *)
Definition updateBaseline (stats : Stats) (st : providerState) : providerState :=
  if Count stats =? 0 then st
  else
    let b := if negb (haveBaseline st) then P99Latency stats
             else Z.quot (P99Latency stats + 4 * baselineP99 st) 5 in
    {| p_status := p_status st; consecutiveFails := consecutiveFails st;
       recoveryStreak := recoveryStreak st; baselineP99 := b; haveBaseline := true;
       lastCheckAt := lastCheckAt st; history := history st |}.

Definition observe_ping (now : Z) (pingOK : bool) (st : providerState) : providerState :=
  {| p_status := p_status st;
     consecutiveFails := if pingOK then 0 else consecutiveFails st + 1;
     recoveryStreak := recoveryStreak st; baselineP99 := baselineP99 st;
     haveBaseline := haveBaseline st; lastCheckAt := now; history := history st |}.

(** [Observe] on one provider's state, and whether the status was set. *)
Definition observe_state (cfg : MonitorConfig) (anyOpen : bool) (now : Z) (pingOK : bool)
    (stats : Stats) (st : providerState) : providerState * bool :=
  let st := observe_ping now pingOK st in
  let '(raw, reason) := classify cfg anyOpen st stats in
  let '(st, set) := transition cfg now raw reason pingOK st in
  (updateBaseline stats st, set).

Record Monitor := { m_states : gmap string providerState; m_order : list string }.

Section monitor.
Context {db} `{!Redis string db}.

(** Writes are best-effort; [None] is a monitor built without Redis. *)
Definition persist (t : Z) (f : net_fate) (name : string) (s : Status) (rdb : option db)
    : option db :=
  match rdb with
  | None => None
  | Some d => Some (round_trip f (λ d, (Some tt, rset t (statusKey name) (Status_String s) d)) d).2
  end.

(** [MGET] of every key; a missing or unreadable value restores nothing. *)
Definition restoreFromRedis (t : Z) (f : net_fate) (providers : list string) (rdb : option db)
    (states : gmap string providerState) : gmap string providerState :=
  match rdb, answered f with
  | Some d, true =>
      foldl (λ m name,
        match rget t (statusKey name) d with
        | None => m
        | Some v => match parseStatus v with
                    | None => m
                    | Some s => alter (λ st,
                        {| p_status := s; consecutiveFails := consecutiveFails st;
                           recoveryStreak := recoveryStreak st; baselineP99 := baselineP99 st;
                           haveBaseline := haveBaseline st; lastCheckAt := lastCheckAt st;
                           history := history st |}) name m
                    end
        end) states providers
  | _, _ => states
  end.

Definition NewMonitor (t : Z) (f : net_fate) (providers : list string) (rdb : option db)
    (cfg : MonitorConfig) : result monitor_config_error Monitor :=
  match validate cfg with
  | Some e => Err e
  | None =>
      Ok {| m_states := restoreFromRedis t f providers rdb
              (list_to_map (map (λ p, (p, providerState_new)) providers));
            m_order := providers |}
  end.

Definition Observe (cfg : MonitorConfig) (anyOpen : string → bool)
    (rec : gmap string (ring sample)) (now t : Z) (f : net_fate) (name : string)
    (pingOK : bool) (m : Monitor) (rdb : option db) : Monitor * option db :=
  match m_states m !! name with
  | None => (m, rdb)
  | Some st =>
      let '(st', set) := observe_state cfg (anyOpen name) now pingOK
                           (Recorder_Stats now name rec) st in
      ({| m_states := <[name := st']> (m_states m); m_order := m_order m |},
       if set then persist t f name (p_status st') rdb else rdb)
  end.
End monitor.

Definition Monitor_Status (m : Monitor) (name : string) : Status :=
  match m_states m !! name with None => StatusHealthy | Some st => p_status st end.

Definition AllDown (m : Monitor) : bool :=
  match m_order m with
  | [] => false
  | _ => forallb (λ name, bool_decide (Monitor_Status m name = StatusDown)) (m_order m)
  end.

Record ProviderHealth := {
  ph_Provider : string; ph_Status : Status; ph_ErrorRate : Q; ph_P99Latency : Z;
  ph_LastCheckAt : Z; ph_LastTransition : option Transition; ph_History : list Transition
}.

Definition Snapshot (now : Z) (rec : gmap string (ring sample)) (m : Monitor) (name : string)
    : option ProviderHealth :=
  match m_states m !! name with
  | None => None
  | Some st =>
      let stats := Recorder_Stats now name rec in
      Some {| ph_Provider := name; ph_Status := p_status st; ph_ErrorRate := ErrorRate stats;
              ph_P99Latency := P99Latency stats; ph_LastCheckAt := lastCheckAt st;
              ph_LastTransition := ring_last Transition_zero transitionHistoryCapacity (history st);
              ph_History := ring_recent Transition_zero transitionHistoryCapacity (history st) |}
  end.

Definition Snapshots (now : Z) (rec : gmap string (ring sample)) (m : Monitor)
    : list ProviderHealth := omap (Snapshot now rec m) (m_order m).
