(* ===== verification/HealthFacts.v ===== *)
(** * What the health monitor guarantees

    The window reads exactly the recent history; degrading is immediate and
    recovering takes a full streak; a status survives a restart. *)

From Stdlib Require Import QArith Sorted.
From stdpp Require Import sorting.
From S2P Require Import Prelude Redis Ring Health.
Open Scope Z_scope.

(** ** The rolling window *)

Lemma countb_perm {A} (f : A → bool) l l' : l ≡ₚ l' → countb f l = countb f l'.
Proof. intros H. rewrite !countb_keep. by rewrite (keep_perm f l l' H). Qed.

(** The statistics do not depend on the order the samples are read in. *)
Lemma stats_of_perm now l l' : l ≡ₚ l' → stats_of now l = stats_of now l'.
Proof.
  intros H. unfold stats_of. apply (keep_perm (λ s, negb (windowDuration <? now - s_at s))) in H.
  set (k := keep _ l) in *. set (k' := keep _ l') in *.
  assert (merge_sort Z.le (map s_latency k) = merge_sort Z.le (map s_latency k')) as Hs.
  { apply (StronglySorted_unique Z.le).
    - apply StronglySorted_merge_sort; apply _.
    - apply StronglySorted_merge_sort; apply _.
    - rewrite !merge_sort_Permutation. by apply fmap_Permutation. }
  rewrite Hs, !length_map, (countb_perm s_failed _ _ H), (countb_perm s_timeout _ _ H), (Permutation_length H). done.
Qed.

(** the ring buffer is the rolling window the design asks for.  After any
    sequence of recorded requests (most recent first), the statistics are
    those of the last 100 of them that are at most 60 seconds old, whatever
    slots of the array they landed in. *)
Theorem window_stats_recent now (h : list sample) :
  window_stats now (foldr window_record window_new h) = stats_of now (take 100 h).
Proof.
  assert (ring_rep sample_zero windowCapacity h (foldr window_record window_new h)) as Hr.
  { induction h as [|s h IH]; simpl.
    - apply ring_rep_new. unfold windowCapacity. lia.
    - apply ring_rep_append; [unfold windowCapacity; lia|done]. }
  unfold window_stats. apply stats_of_perm.
  assert (0 < windowCapacity)%nat as Hc by (unfold windowCapacity; lia).
  etransitivity; [by apply (ring_slots_perm _ _ Hc h)|].
  by rewrite (ring_recent_rep _ _ Hc _ _ Hr).
Qed.

(** The record of a transition, as [setStatus] appends it. *)
Definition history_append (t : Transition) (r : ring Transition) : ring Transition :=
  ring_append transitionHistoryCapacity t r.

(** the transition log reports exactly the last 100 transitions, most
    recent first, and its latest entry is the last one made. *)
Theorem transition_history_recent (h : list Transition) :
  let log := foldr history_append (ring_new Transition_zero transitionHistoryCapacity) h in
  ring_recent Transition_zero transitionHistoryCapacity log = take 100 h ∧
  ring_last Transition_zero transitionHistoryCapacity log = head h.
Proof.
  intros log. assert (0 < transitionHistoryCapacity)%nat as Hc by (unfold transitionHistoryCapacity; lia).
  assert (ring_rep Transition_zero transitionHistoryCapacity h log) as Hr.
  { subst log. induction h as [|s h IH]; simpl.
    - by apply ring_rep_new.
    - by apply ring_rep_append. }
  split; [by apply ring_recent_rep|]. by apply ring_last_rep.
Qed.

(** ** Hysteresis *)

(** One tick of the checker for one provider. *)
Record tick := { k_anyOpen : bool; k_now : Z; k_pingOK : bool; k_stats : Stats }.

Definition do_tick (cfg : MonitorConfig) (k : tick) (st : providerState) : providerState :=
  (observe_state cfg (k_anyOpen k) (k_now k) (k_pingOK k) (k_stats k) st).1.

(** What the tick says before hysteresis. *)
Definition tick_raw (cfg : MonitorConfig) (k : tick) (st : providerState) : Status :=
  (classify cfg (k_anyOpen k) (observe_ping (k_now k) (k_pingOK k) st) (k_stats k)).1.

(** A clean tick: its own ping succeeded and every threshold is met. *)
Definition tick_clean (cfg : MonitorConfig) (k : tick) (st : providerState) : bool :=
  k_pingOK k && bool_decide (tick_raw cfg k st = StatusHealthy).

(** Ticks are listed most recent first, as are the flags saying which of them
    were clean. *)
Definition run_ticks (cfg : MonitorConfig) (ks : list tick) (st : providerState) : providerState :=
  foldr (do_tick cfg) st ks.

Fixpoint clean_flags (cfg : MonitorConfig) (ks : list tick) (st : providerState) : list bool :=
  match ks with
  | [] => []
  | k :: ks' => tick_clean cfg k (run_ticks cfg ks' st) :: clean_flags cfg ks' st
  end.

(** The clean ticks at the end of a run. *)
Fixpoint trailing (flags : list bool) : Z :=
  match flags with true :: fs => 1 + trailing fs | _ => 0 end.

(** The streak was never complete at any earlier point of the run. *)
Fixpoint never_complete (R : Z) (flags : list bool) : Prop :=
  match flags with [] => True | b :: fs => trailing flags < R ∧ never_complete R fs end.

Lemma updateBaseline_status stats st :
  p_status (updateBaseline stats st) = p_status st ∧
  recoveryStreak (updateBaseline stats st) = recoveryStreak st ∧
  consecutiveFails (updateBaseline stats st) = consecutiveFails st.
Proof. unfold updateBaseline. by case_match. Qed.

(** One tick's effect on the status and on the streak. *)
Lemma do_tick_effect cfg k st :
  let st' := do_tick cfg k st in
  let raw := tick_raw cfg k st in
  (raw ≠ StatusHealthy → p_status st' = raw ∧ recoveryStreak st' = 0) ∧
  (p_status st ≠ StatusHealthy → raw = StatusHealthy → k_pingOK k = false →
     p_status st' = p_status st ∧ recoveryStreak st' = 0) ∧
  (p_status st ≠ StatusHealthy → tick_clean cfg k st = true →
     if recoveryStreak st + 1 <? RecoveryStreak cfg
     then p_status st' = p_status st ∧ recoveryStreak st' = recoveryStreak st + 1
     else p_status st' = StatusHealthy ∧ recoveryStreak st' = 0).
Proof.
  unfold do_tick, observe_state, tick_clean, tick_raw.
  set (st0 := observe_ping (k_now k) (k_pingOK k) st).
  destruct (classify cfg (k_anyOpen k) st0 (k_stats k)) as [raw reason]. simpl.
  pose proof (updateBaseline_status (k_stats k)
    (transition cfg (k_now k) raw reason (k_pingOK k) st0).1) as (H1 & H2 & _).
  destruct (transition cfg (k_now k) raw reason (k_pingOK k) st0) as [st1 set] eqn:Ht.
  simpl in *. rewrite H1, H2. unfold transition in Ht.
  assert (p_status st0 = p_status st ∧ recoveryStreak st0 = recoveryStreak st) as [Hp Hr] by done.
  clearbody st0. rewrite Hp, Hr in Ht.
  split; [|split].
  - intros Hraw. rewrite bool_decide_eq_true_2 in Ht by done. simpl in Ht.
    case_bool_decide as Hc; simplify_eq/=; [done|]. rewrite Hp.
    split; [|done]. by apply dec_stable in Hc || congruence.
  - intros Hs -> Hk. rewrite Hk in Ht. rewrite bool_decide_eq_false_2 in Ht by tauto.
    rewrite bool_decide_eq_false_2 in Ht by done. by simplify_eq/=.
  - intros Hs [Hk Hraw]%andb_true_iff. apply bool_decide_eq_true in Hraw as ->.
    rewrite Hk in Ht. rewrite bool_decide_eq_false_2 in Ht by tauto.
    rewrite bool_decide_eq_false_2 in Ht by done. simpl in Ht.
    destruct (recoveryStreak st + 1 <? RecoveryStreak cfg); by simplify_eq/=.
Qed.

Lemma trailing_nonneg fs : 0 ≤ trailing fs.
Proof. induction fs as [|[] fs IH]; simpl; lia. Qed.

Lemma streak_counts cfg ks st :
  p_status st ≠ StatusHealthy → recoveryStreak st = 0 →
  never_complete (RecoveryStreak cfg) (clean_flags cfg ks st) →
  p_status (run_ticks cfg ks st) ≠ StatusHealthy ∧
  recoveryStreak (run_ticks cfg ks st) = trailing (clean_flags cfg ks st).
Proof.
  intros Hs H0. induction ks as [|k ks IH]; intros Hn; [done|].
  cbn [clean_flags] in Hn. destruct Hn as [Hlt Hn]. destruct (IH Hn) as [IHs IHr].
  pose proof (do_tick_effect cfg k (run_ticks cfg ks st)) as (He1 & He2 & He3).
  cbn [run_ticks foldr clean_flags] in *. fold (run_ticks cfg ks st) in *.
  set (st1 := run_ticks cfg ks st) in *.
  destruct (tick_clean cfg k st1) eqn:Hc.
  - specialize (He3 IHs eq_refl). cbn [trailing] in *. rewrite <- IHr in *.
    destruct (Z.ltb_spec (recoveryStreak st1 + 1) (RecoveryStreak cfg)); [|lia].
    destruct He3 as [-> ->]. split; [done|lia].
  - cbn [trailing]. destruct (decide (tick_raw cfg k st1 = StatusHealthy)) as [Hr|Hr].
    + unfold tick_clean in Hc. rewrite bool_decide_eq_true_2, andb_true_r in Hc by done.
      destruct (He2 IHs Hr Hc) as [-> ->]. done.
    + destruct (He1 Hr) as [-> ->]. done.
Qed.

(** recovery takes exactly [RecoveryStreak] consecutive clean ticks.  In
    any run of ticks from an unhealthy state with no streak, the provider is
    still unhealthy as long as no [RecoveryStreak] consecutive ticks have been
    clean (one bad reading or one failed ping starts the count again), and it
    is healthy at the tick that completes them. *)
Theorem recovery_hysteresis cfg ks k st :
  p_status st ≠ StatusHealthy → recoveryStreak st = 0 →
  never_complete (RecoveryStreak cfg) (clean_flags cfg ks st) →
  p_status (run_ticks cfg ks st) ≠ StatusHealthy ∧
  (trailing (clean_flags cfg (k :: ks) st) = RecoveryStreak cfg → 0 < RecoveryStreak cfg →
   p_status (run_ticks cfg (k :: ks) st) = StatusHealthy).
Proof.
  intros Hs H0 Hn. destruct (streak_counts cfg ks st Hs H0 Hn) as [IHs IHr].
  split; [done|]. intros Ht HR.
  pose proof (do_tick_effect cfg k (run_ticks cfg ks st)) as (_ & _ & He3).
  cbn [run_ticks foldr clean_flags] in *. fold (run_ticks cfg ks st) in *.
  destruct (tick_clean cfg k (run_ticks cfg ks st)) eqn:Hc; cbn [trailing] in Ht; [|lia].
  specialize (He3 IHs eq_refl). rewrite IHr in He3.
  destruct (Z.ltb_spec (trailing (clean_flags cfg ks st) + 1) (RecoveryStreak cfg)); [lia|].
  by destruct He3.
Qed.

(** Degrading is immediate: whatever the status was, a single reading
    that classifies as degraded or down is the status after that tick, and it
    resets the recovery streak. *)
Lemma degrading_is_immediate cfg k st :
  tick_raw cfg k st ≠ StatusHealthy →
  p_status (do_tick cfg k st) = tick_raw cfg k st ∧ recoveryStreak (do_tick cfg k st) = 0.
Proof. apply do_tick_effect. Qed.

Lemma do_tick_fails cfg k st :
  consecutiveFails (do_tick cfg k st) = if k_pingOK k then 0 else consecutiveFails st + 1.
Proof.
  unfold do_tick, observe_state.
  destruct (classify _ _ _ _) as [raw reason].
  pose proof (updateBaseline_status (k_stats k)
    (transition cfg (k_now k) raw reason (k_pingOK k)
       (observe_ping (k_now k) (k_pingOK k) st)).1) as (_ & _ & H3).
  destruct (transition _ _ _ _ _ _) as [st1 set] eqn:Ht. simpl in *. rewrite H3.
  unfold transition in Ht. repeat case_match; by simplify_eq/=.
Qed.

Lemma failing_ticks_count cfg ks st :
  Forall (λ k, k_pingOK k = false) ks →
  consecutiveFails (run_ticks cfg ks st) = consecutiveFails st + Z.of_nat (length ks).
Proof.
  induction 1 as [|k ks Hk _ IH]; simpl; [lia|].
  unfold run_ticks in IH |- *. rewrite do_tick_fails, Hk, IH. lia.
Qed.

(** pings alone take a provider down: once [DownConsecutiveFailures]
    pings in a row have failed, the provider is down, whatever its traffic,
    its breakers and its earlier status say. *)
Theorem failed_pings_take_down cfg k ks st :
  0 ≤ consecutiveFails st → Forall (λ k, k_pingOK k = false) (k :: ks) →
  DownConsecutiveFailures cfg ≤ Z.of_nat (length (k :: ks)) →
  p_status (run_ticks cfg (k :: ks) st) = StatusDown.
Proof.
  intros H0 [Hk Hks]%Forall_cons Hn. simpl.
  fold (run_ticks cfg ks st). set (st1 := run_ticks cfg ks st).
  assert (tick_raw cfg k st1 = StatusDown) as Hraw.
  { unfold tick_raw, classify. simpl. rewrite Hk. subst st1.
    rewrite failing_ticks_count by done. simpl in Hn.
    destruct (Z.leb_spec (DownConsecutiveFailures cfg)
      (consecutiveFails st + Z.of_nat (length ks) + 1)); [done|lia]. }
  rewrite <- Hraw. apply do_tick_effect. by rewrite Hraw.
Qed.

(** ** Persistence *)

Lemma parseStatus_String s : parseStatus (Status_String s) = Some s.
Proof. by destruct s. Qed.

Lemma restore_unnamed {db} `{!Redis string db} t (d : db) name names states :
  name ∉ names →
  restoreFromRedis t Replied names (Some d) states !! name = states !! name.
Proof.
  simpl. revert states. induction names as [|n names IH]; intros states Hn; simpl; [done|].
  apply not_elem_of_cons in Hn as [Hne Hn]. rewrite IH by done.
  repeat case_match; try done. by rewrite lookup_alter_ne.
Qed.

(** a status survives a restart.  A monitor rebuilt from the Redis a
    status was persisted to starts that provider at exactly that status, and
    one that cannot read Redis, or finds nothing there, starts it healthy. *)
Theorem status_survives_restart {db} `{!Redis string db} t t' f name names s cfg (d d' : db) :
  t ≤ t' → NoDup (name :: names) → validate cfg = None →
  persist t Replied name s (Some d) = Some d' →
  (∃ m, NewMonitor t' Replied (name :: names) (Some d') cfg = Ok m ∧ Monitor_Status m name = s) ∧
  (answered f = false → ∃ m, NewMonitor t' f (name :: names) (Some d') cfg = Ok m ∧
                      Monitor_Status m name = StatusHealthy).
Proof.
  intros Hle [Hnin Hnd]%NoDup_cons Hv Hp. unfold NewMonitor. rewrite Hv.
  simpl in Hp. simplify_eq. split.
  - eexists. split; [done|]. unfold Monitor_Status. cbn [m_states restoreFromRedis foldl map answered].
    rewrite rget_set_eq, parseStatus_String by done.
    pose proof (restore_unnamed t' (rset t (statusKey name) (Status_String s) d) name names) as Hr.
    cbn [restoreFromRedis answered] in Hr. rewrite Hr by done.
    cbn [list_to_map foldr]. by rewrite lookup_alter_eq, lookup_insert_eq.
  - intros Hf. eexists. split; [done|]. unfold Monitor_Status. simpl.
    rewrite Hf. by rewrite lookup_insert_eq.
Qed.

(** ** Witnesses *)

Definition demo_mcfg : MonitorConfig :=
  {| DegradedErrorRate := 1 # 10; DownErrorRate := 1 # 2; DownConsecutiveFailures := 3;
     RecoveryStreak := 2 |}.
Definition good_tick : tick :=
  {| k_anyOpen := false; k_now := 0; k_pingOK := true; k_stats := Stats_zero |}.
Definition bad_tick : tick :=
  {| k_anyOpen := false; k_now := 0; k_pingOK := false; k_stats := Stats_zero |}.
Definition open_tick : tick :=
  {| k_anyOpen := true; k_now := 0; k_pingOK := true; k_stats := Stats_zero |}.
Definition demo_degraded : providerState := do_tick demo_mcfg open_tick providerState_new.

Lemma recovery_hysteresis_witness :
  p_status (run_ticks demo_mcfg [good_tick; bad_tick; good_tick] demo_degraded) ≠ StatusHealthy ∧
  p_status (run_ticks demo_mcfg [good_tick; good_tick; bad_tick; good_tick] demo_degraded)
    = StatusHealthy.
Proof.
  destruct (recovery_hysteresis demo_mcfg [good_tick; bad_tick; good_tick] good_tick demo_degraded)
    as [H1 H2].
  - vm_compute. discriminate.
  - vm_compute. reflexivity.
  - vm_compute. repeat split.
  - split; [exact H1|]. apply H2; vm_compute; reflexivity.
Defined.

Lemma failed_pings_take_down_witness :
  p_status (run_ticks demo_mcfg [bad_tick; bad_tick; bad_tick] providerState_new) = StatusDown.
Proof.
  apply failed_pings_take_down; [vm_compute; discriminate| |vm_compute; discriminate].
  repeat constructor.
Defined.

Definition demo_hdb : RedisMap.db string :=
  default ∅ (persist 0 Replied "groq" StatusDown (Some (∅ : RedisMap.db string))).

Lemma status_survives_restart_witness :
  ∃ m, NewMonitor 5 Replied ["groq"%string; "ollama"%string] (Some demo_hdb) demo_mcfg = Ok m ∧
       Monitor_Status m "groq" = StatusDown.
Proof.
  apply (status_survives_restart 0 5 NotSent "groq" ["ollama"%string] StatusDown demo_mcfg ∅ demo_hdb).
  - lia.
  - apply (bool_decide_unpack _). vm_compute. exact I.
  - reflexivity.
  - reflexivity.
Defined.
