(* ===== verification/Checker.v ===== *)
(** * health/checker.go and telemetry/supervise.go: the background pings

    One goroutine per provider pings it at once and then on every tick, under a
    supervisor that starts it again after a panic.  Time is explicit: a ticker
    keeps one tick for a reader that is late and drops the others. *)

From S2P Require Import Prelude Redis Rational Ring Health HealthFacts.

(** ** telemetry/supervise.go *)

Definition superviseInitialBackoff : Z := 1 * second.
Definition superviseMaxBackoff : Z := 30 * second.

(** After a panic of a run from [started] to [ended]: when it runs again, and the
    wait after the next panic. *)
Definition restart (started ended backoff : Z) : Z * Z :=
  let backoff := if superviseMaxBackoff <? ended - started then superviseInitialBackoff else backoff in
  (ended + backoff, Z.min (backoff * 2) superviseMaxBackoff).

(** One run of the supervised function: how long it took, and whether it ended by
    a panic ([guard] reports which). *)
Record run := { rn_took : Z; rn_panicked : bool }.

Inductive supervised := Returned (at_ : Z) | Cancelled (at_ : Z) | Running (from : Z).

(** The starts of the runs, and how it ends; [done_] is when the context is
    cancelled.  A run that is due when it is cancelled may still begin. *)
Fixpoint Supervise (done_ : option Z) (runs : list run) (now backoff : Z) : list Z * supervised :=
  match runs with
  | [] => ([], Running now)
  | r :: runs' =>
      let ended := now + rn_took r in
      if negb (rn_panicked r) then ([now], Returned ended)
      else
        let '(again, backoff) := restart now ended backoff in
        match done_ with
        | Some d => if d <? again then ([now], Cancelled (Z.max ended d))
                    else let '(starts, e) := Supervise done_ runs' again backoff in (now :: starts, e)
        | None => let '(starts, e) := Supervise done_ runs' again backoff in (now :: starts, e)
        end
  end.

(** ** checker.go *)

Record Checker := { ch_interval : Z; ch_timeout : Z }.

Inductive checker_error := BadInterval | BadTimeout | TimeoutTooLong.

Definition NewChecker (interval timeout : Z) : result checker_error Checker :=
  if interval <=? 0 then Err BadInterval
  else if timeout <=? 0 then Err BadTimeout
  else if interval <=? timeout then Err TimeoutTooLong
  else Ok {| ch_interval := interval; ch_timeout := timeout |}.

(** What one check comes to: a panic of the adapter, or an answer with what
    [Observe] sees besides, [k], and the time its synchronous write of a changed
    status to Redis takes, which is bounded. *)
Inductive ping := PingPanics (took : Z) | PingAnswers (took : Z) (k : tick) (wrote : Z).

Definition redisWriteTimeout : Z := 500 * millisecond.

Definition ping_took (p : ping) : Z := match p with PingPanics d | PingAnswers d _ _ => d end.
Definition ping_wrote (p : ping) : Z := match p with PingPanics _ => 0 | PingAnswers _ _ d => d end.

(** Both contexts' deadlines are kept. *)
Definition in_time (c : Checker) (p : ping) : Prop :=
  0 ≤ ping_took p ≤ ch_timeout c ∧ 0 ≤ ping_wrote p ≤ redisWriteTimeout.

(** One provider's watcher: when its next check begins, when this run of [watch]
    began, the ticks of it that are gone, the supervisor's backoff, and the
    provider's state in the monitor. *)
Record watcher := { wt_now : Z; wt_start : Z; wt_seen : Z; wt_backoff : Z; wt_state : providerState }.

Definition begin_watch (now backoff : Z) (st : providerState) : watcher :=
  {| wt_now := now; wt_start := now; wt_seen := 0; wt_backoff := backoff; wt_state := st |}.

(** A check that ends at [ended] is followed by the next at the first tick still
    to come, or at once when one has been kept meanwhile. *)
Definition next_tick (c : Checker) (ended : Z) (w : watcher) : Z * Z :=
  let due := wt_seen w + 1 in
  let at_ := wt_start w + due * ch_interval c in
  if at_ <=? ended then (ended, (ended - wt_start w) / ch_interval c) else (at_, due).

Definition at_time (t : Z) (k : tick) : tick :=
  {| k_anyOpen := k_anyOpen k; k_now := t; k_pingOK := k_pingOK k; k_stats := k_stats k |}.

(** [check], and what follows it in [watch] or under [Supervise]. *)
Definition check (c : Checker) (cfg : MonitorConfig) (p : ping) (w : watcher) : watcher :=
  let ended := wt_now w + ping_took p in
  match p with
  | PingPanics _ =>
      let '(again, backoff) := restart (wt_start w) ended (wt_backoff w) in begin_watch again backoff (wt_state w)
  | PingAnswers _ k wrote =>
      let '(next, seen) := next_tick c (ended + wrote) w in
      {| wt_now := next; wt_start := wt_start w; wt_seen := seen; wt_backoff := wt_backoff w;
         wt_state := do_tick cfg (at_time ended k) (wt_state w) |}
  end.

Definition watch (c : Checker) (cfg : MonitorConfig) (ps : list ping) (w : watcher) : watcher := foldl (λ w p, check c cfg p w) w ps.

(** ** What [Observe] does to one provider *)

(** [Observe] of a provider is a tick of its state and leaves the others'. *)
Lemma Observe_tick {db} `{!Redis string db} cfg anyOpen rec now t f name pingOK m (rdb : option db) st :
  m_states m !! name = Some st →
  m_states (Observe cfg anyOpen rec now t f name pingOK m rdb).1 =
  <[name := do_tick cfg {| k_anyOpen := anyOpen name; k_now := now; k_pingOK := pingOK; k_stats := Recorder_Stats now name rec |} st]> (m_states m).
Proof.
  intros H. unfold Observe. rewrite H. unfold do_tick. simpl. by destruct (observe_state _ _ _ _ _ _) as [st' []].
Qed.

(** ** Supervision *)

Definition backoff_ok (b : Z) : Prop := superviseInitialBackoff ≤ b ≤ superviseMaxBackoff.

Lemma restart_ok started ended b :
  backoff_ok b → ended < (restart started ended b).1 ≤ ended + superviseMaxBackoff ∧ backoff_ok (restart started ended b).2.
Proof.
  intros Hb. unfold restart. set (b' := if superviseMaxBackoff <? ended - started then superviseInitialBackoff else b).
  assert (backoff_ok b') as Hb' by (unfold b'; case_match; [split; by vm_compute|done]).
  clearbody b'. unfold backoff_ok in *. cbn [fst snd].
  assert (superviseInitialBackoff = 1000000000 ∧ superviseMaxBackoff = 30000000000) as [Hi Hm] by done. rewrite Hi, Hm in *. lia.
Qed.

(** A function that only ever panics is run again each time, within the longest
    backoff, until the context is cancelled. *)
Lemma Supervise_restarts runs now b :
  backoff_ok b → Forall (λ r, rn_panicked r = true ∧ 0 ≤ rn_took r) runs →
  length (Supervise None runs now b).1 = length runs ∧
  ∃ from, (Supervise None runs now b).2 = Running from ∧
    now ≤ from ≤ now + foldr (λ r n, rn_took r + superviseMaxBackoff + n) 0 runs.
Proof.
  intros Hb Hr. revert now b Hb. induction Hr as [|r runs [Hp Ht] _ IH]; intros now b Hb; cbn [Supervise length foldr fst snd].
  - split; [done|]. exists now. split; [done|lia].
  - rewrite Hp. cbn [negb]. pose proof (restart_ok now (now + rn_took r) b Hb) as [H1 H2].
    destruct (restart now (now + rn_took r) b) as [again b']. simpl in H1, H2.
    destruct (IH again b' H2) as (Hl & from & Hf & Hle). destruct (Supervise None runs again b') as [starts e].
    simpl in *. split; [by rewrite Hl|]. exists from. split; [done|]. lia.
Qed.

(** ** The schedule *)

(** A checker never falls behind while its checks are over within the
    interval and do not panic: they begin exactly one interval apart. *)
Lemma watch_on_schedule c cfg ps w :
  NewChecker (ch_interval c) (ch_timeout c) = Ok c →
  Forall (λ p, 0 ≤ ping_took p + ping_wrote p < ch_interval c ∧ (∃ d k n, p = PingAnswers d k n)) ps →
  wt_now w = wt_start w + wt_seen w * ch_interval c →
  let w' := watch c cfg ps w in
  wt_now w' = wt_now w + Z.of_nat (length ps) * ch_interval c ∧ wt_start w' = wt_start w ∧
  wt_now w' = wt_start w' + wt_seen w' * ch_interval c.
Proof.
  intros Hc Hps. unfold NewChecker in Hc.
  destruct (Z.leb_spec (ch_interval c) 0); [done|]. destruct (Z.leb_spec (ch_timeout c) 0); [done|].
  destruct (Z.leb_spec (ch_interval c) (ch_timeout c)); [done|]. clear Hc.
  revert w. induction Hps as [|p ps [Hd (d & k & n & ->)] _ IH]; intros w Hw; cbn [length ping_took ping_wrote] in *; [simpl; lia|].
  set (w1 := check c cfg (PingAnswers d k n) w).
  assert (wt_now w1 = wt_now w + ch_interval c ∧ wt_start w1 = wt_start w ∧ wt_seen w1 = wt_seen w + 1) as (H1n & H1s & H1e).
  { unfold w1, check, next_tick. simpl. destruct (Z.leb_spec (wt_start w + (wt_seen w + 1) * ch_interval c) (wt_now w + d + n)); simpl; lia. }
  change (watch c cfg (PingAnswers d k n :: ps) w) with (watch c cfg ps w1).
  destruct (IH w1) as (A & B & D); [rewrite H1n, H1s, H1e; lia|].
  split_and!; [rewrite A, H1n, Nat2Z.inj_succ; lia|congruence|exact D].
Qed.

(** Whatever a ping does, the next check begins within [gap]. *)
Definition gap (c : Checker) : Z := ch_interval c + superviseMaxBackoff.

(** The watcher is between checks. *)
Record watching (c : Checker) (w : watcher) : Prop := {
  wc_backoff : backoff_ok (wt_backoff w);
  wc_tick : wt_start w + wt_seen w * ch_interval c ≤ wt_now w;
  wc_fails : 0 ≤ consecutiveFails (wt_state w)
}.

Lemma begin_watching c now b st : backoff_ok b → 0 ≤ consecutiveFails st → watching c (begin_watch now b st).
Proof. intros Hb Hst. split; simpl; [done|lia|done]. Qed.

Lemma check_watching c cfg p w :
  NewChecker (ch_interval c) (ch_timeout c) = Ok c → in_time c p → watching c w →
  watching c (check c cfg p w) ∧ wt_now w ≤ wt_now (check c cfg p w) ≤ wt_now w + gap c.
Proof.
  intros Hc [Hd Hn] [Hb Ht Hf]. unfold NewChecker in Hc.
  destruct (Z.leb_spec (ch_interval c) 0); [done|]. destruct (Z.leb_spec (ch_timeout c) 0); [done|].
  destruct (Z.leb_spec (ch_interval c) (ch_timeout c)); [done|]. clear Hc. unfold gap, check. destruct p as [d|d k n]; simpl in Hd, Hn.
  - pose proof (restart_ok (wt_start w) (wt_now w + d) (wt_backoff w) Hb) as [Hr1 Hr2]. cbn [ping_took].
    destruct (restart _ _ _) as [again b']. simpl in Hr1, Hr2. split; [by apply begin_watching|]. simpl. lia.
  - cbn [ping_took]. unfold next_tick.
    assert (redisWriteTimeout < superviseMaxBackoff) by (by vm_compute).
    destruct (Z.leb_spec (wt_start w + (wt_seen w + 1) * ch_interval c) (wt_now w + d + n)) as [Hle|Hgt]; simpl.
    + split; [|lia]. split; simpl; [done| |].
      * pose proof (Z.mul_div_le (wt_now w + d + n - wt_start w) (ch_interval c)). lia.
      * rewrite do_tick_fails. case_match; lia.
    + split; [|lia]. split; simpl; [done|lia|]. rewrite do_tick_fails. case_match; lia.
Qed.

Lemma watch_watching c cfg ps w :
  NewChecker (ch_interval c) (ch_timeout c) = Ok c → Forall (in_time c) ps → watching c w →
  watching c (watch c cfg ps w) ∧ wt_now w ≤ wt_now (watch c cfg ps w) ≤ wt_now w + Z.of_nat (length ps) * gap c.
Proof.
  intros Hc Hps. revert w. induction Hps as [|p ps Hp _ IH]; intros w Hw; [simpl; split; [done|lia]|].
  destruct (check_watching c cfg p w Hc Hp Hw) as [H1 H2]. destruct (IH _ H1) as [H3 H4].
  unfold watch in *. cbn [foldl length] in *. split; [done|]. lia.
Qed.

(** ** A provider that stops answering *)

Definition ping_fails (p : ping) : bool := match p with PingAnswers _ k _ => negb (k_pingOK k) | PingPanics _ => false end.
Definition silent (p : ping) : bool := match p with PingAnswers _ k _ => negb (k_pingOK k) | PingPanics _ => true end.

(** The ticks that reach the monitor, latest first. *)
Fixpoint ticks_of (c : Checker) (cfg : MonitorConfig) (ps : list ping) (w : watcher) (acc : list tick) : list tick :=
  match ps with
  | [] => acc
  | p :: ps' =>
      ticks_of c cfg ps' (check c cfg p w)
        (match p with PingAnswers d k _ => at_time (wt_now w + d) k :: acc | PingPanics _ => acc end)
  end.

Lemma watch_ticks c cfg ps w acc st0 :
  wt_state w = run_ticks cfg acc st0 → wt_state (watch c cfg ps w) = run_ticks cfg (ticks_of c cfg ps w acc) st0.
Proof.
  revert w acc. induction ps as [|p ps IH]; intros w acc Hw; [done|]. cbn [ticks_of watch foldl]. apply IH.
  destruct p as [d|d k n]; unfold check; cbn [ping_took].
  - by destruct (restart _ _ _).
  - destruct (next_tick _ _ _). simpl. by rewrite Hw.
Qed.

Lemma ticks_silent c cfg ps w acc :
  Forall (λ p, silent p = true) ps → Forall (λ k, k_pingOK k = false) acc →
  Forall (λ k, k_pingOK k = false) (ticks_of c cfg ps w acc) ∧
  Z.of_nat (length (ticks_of c cfg ps w acc)) = countb ping_fails ps + Z.of_nat (length acc).
Proof.
  intros Hps. revert w acc. induction Hps as [|p ps Hp _ IH]; intros w acc Hacc; cbn [ticks_of countb]; [by split|].
  destruct p as [d|d k n]; cbn [silent ping_fails] in *.
  - destruct (IH (check c cfg (PingPanics d) w) acc Hacc) as [H1 H2]. by split.
  - apply negb_true_iff in Hp. rewrite Hp. destruct (IH (check c cfg (PingAnswers d k n) w) (at_time (wt_now w + d) k :: acc)) as [H1 H2];
      [by constructor|]. split; [done|]. rewrite H2. cbn [length]. simpl negb. lia.
Qed.

(** C35: a provider that stops answering is marked down, in time.  From any moment
    of a running checker: when every further ping fails or panics, the provider
    is down as soon as [DownConsecutiveFailures] of them have failed, whatever its
    traffic and breakers say; and however the panics fall, that many checks are
    over by that many gaps of an interval and the longest backoff, since a ping
    never outlasts its timeout, nor the write of a changed status its own, and a
    panic is followed by another run. *)
Theorem silent_provider_goes_down c cfg ps w (accepted : NewChecker (ch_interval c) (ch_timeout c) = Ok c)
    (running : watching c w) (timed : Forall (in_time c) ps)
    (quiet : Forall (λ p, silent p = true) ps) (enough : Z.max 1 (DownConsecutiveFailures cfg) ≤ countb ping_fails ps) :
  p_status (wt_state (watch c cfg ps w)) = StatusDown ∧
  wt_now (watch c cfg ps w) ≤ wt_now w + Z.of_nat (length ps) * gap c.
Proof.
  split; [|by apply watch_watching].
  rewrite (watch_ticks c cfg ps w [] (wt_state w) eq_refl).
  destruct (ticks_silent c cfg ps w [] quiet) as [Hf Hl]; [done|]. simpl in Hl.
  destruct (ticks_of c cfg ps w []) as [|k ks]; [simpl in Hl; lia|].
  apply failed_pings_take_down; [apply (wc_fails c w running)|done|lia].
Qed.

(** The provider is up; three pings fail with a panic among them. *)
Definition demo_checker : Checker := {| ch_interval := 10 * second; ch_timeout := 3 * second |}.
Definition demo_watcher : watcher := begin_watch 0 superviseInitialBackoff providerState_new.
Definition demo_pings : list ping :=
  [PingAnswers second bad_tick 0; PingPanics second; PingAnswers (3 * second) bad_tick (400 * millisecond);
   PingAnswers second bad_tick (100 * millisecond)].

Lemma silent_provider_goes_down_witness :
  p_status (wt_state (watch demo_checker demo_mcfg demo_pings demo_watcher)) = StatusDown ∧
  wt_now (watch demo_checker demo_mcfg demo_pings demo_watcher) = 32 * second.
Proof.
  split; [|vm_compute; reflexivity].
  apply (silent_provider_goes_down demo_checker demo_mcfg demo_pings demo_watcher).
  - reflexivity.
  - apply begin_watching; [split; vm_compute; discriminate|vm_compute; discriminate].
  - repeat constructor; vm_compute; discriminate.
  - repeat constructor.
  - vm_compute. discriminate.
Defined.

