(* ===== verification/Chain.v ===== *)
(** * internal/resilience/fallback.go: ordering a request's candidates

    [BuildChain] as the source writes it (the de-duplicating [add], the
    allowlist pass, the two health bands and the unfiltered last resort), and
    what every chain it returns satisfies. *)

From Stdlib Require Import Sorted.
From S2P Require Import Prelude Health.

Record Candidate := { c_Provider : string; c_Model : string }.

#[export] Instance Candidate_eq_dec : EqDecision Candidate.
Proof. solve_decision. Defined.
#[export] Instance Candidate_countable : Countable Candidate.
Proof.
  refine (inj_countable' (λ c, (c_Provider c, c_Model c))
    (λ p, {| c_Provider := p.1; c_Model := p.2 |}) _). by intros [].
Defined.

(** [StatusOf] and [Allowed] are the source's two optional functions; [None]
    is a nil func. *)
Record ChainInput := {
  Requested : Candidate;
  Tier : list Candidate;
  StatusOf : option (string → Status);
  Allowed : option (string → string → bool)
}.

(** The closure [add] over [ordered] and [seen]. *)
Definition add (st : list Candidate * gset Candidate) (c : Candidate)
    : list Candidate * gset Candidate :=
  let '(ordered, seen) := st in
  if bool_decide (c_Provider c = ""%string) || bool_decide (c_Model c = ""%string) then st
  else if bool_decide (c ∈ seen) then st
  else (ordered ++ [c], {[c]} ∪ seen).

Definition allowed_by (inp : ChainInput) (c : Candidate) : bool :=
  match Allowed inp with None => true | Some f => f (c_Provider c) (c_Model c) end.

(** The source asks the live monitor anew for each candidate of each band; here
    one chain is built on one reading per provider.  [BuildChain_live] is the
    chain when the readings differ. *)
Definition status_by (inp : ChainInput) (c : Candidate) : Status :=
  match StatusOf inp with None => StatusHealthy | Some f => f (c_Provider c) end.

Definition ordered_of (inp : ChainInput) : list Candidate :=
  (foldl add (add ([], ∅) (Requested inp)) (Tier inp)).1.

Definition permitted_of (inp : ChainInput) : list Candidate :=
  keep (allowed_by inp) (ordered_of inp).

(** The nil return is the empty list. *)
Definition BuildChain (inp : ChainInput) : list Candidate :=
  let permitted := permitted_of inp in
  match permitted with
  | [] => []
  | _ =>
      let chain := mjoin (map (λ band,
                     keep (λ c, bool_decide (status_by inp c = band)) permitted)
                     [StatusHealthy; StatusDegraded]) in
      match chain with [] => permitted | _ => chain end
  end.

(** The same with a reading of its own for each pass, under the band it looks for. *)
Definition BuildChain_live (reading : Status → string → Status) (inp : ChainInput) : list Candidate :=
  let permitted := permitted_of inp in
  match permitted with
  | [] => []
  | _ =>
      let chain := mjoin (map (λ band,
                     keep (λ c, bool_decide (reading band (c_Provider c) = band)) permitted)
                     [StatusHealthy; StatusDegraded]) in
      match chain with [] => permitted | _ => chain end
  end.

(** ** The de-duplicated offer *)

Definition named (c : Candidate) : Prop := c_Provider c ≠ ""%string ∧ c_Model c ≠ ""%string.

#[export] Instance named_dec c : Decision (named c).
Proof. unfold named. apply _. Defined.

(** What the request offers: the requested model and its tier, without the
    entries that name no provider or no model. *)
Definition offered (inp : ChainInput) (c : Candidate) : Prop :=
  c ∈ Requested inp :: Tier inp ∧ named c.

Record add_inv (l : list Candidate) (st : list Candidate * gset Candidate) : Prop := {
  ai_seen : ∀ c, c ∈ st.2 ↔ c ∈ st.1;
  ai_nodup : NoDup st.1;
  ai_elem : ∀ c, c ∈ st.1 ↔ c ∈ l ∧ named c;
  ai_sub : st.1 `sublist_of` l
}.

Lemma add_inv_step l st c : add_inv l st → add_inv (l ++ [c]) (add st c).
Proof.
  destruct st as [ordered seen]. intros [Hs Hn He Hsub]. simpl in *. unfold add.
  destruct (bool_decide (c_Provider c = ""%string) || bool_decide (c_Model c = ""%string)) eqn:Hd.
  - assert (¬ named c) as Hnn.
    { unfold named. intros [? ?]. apply orb_true_iff in Hd. by destruct Hd as [Hd|Hd];
        apply bool_decide_eq_true in Hd. }
    split; simpl; [done|done| |by apply sublist_inserts_r].
    intros c'. rewrite He, elem_of_app, list_elem_of_singleton. naive_solver.
  - apply orb_false_iff in Hd as [H1%bool_decide_eq_false H2%bool_decide_eq_false].
    case_bool_decide as Hin; split; simpl; try done.
    + intros c'. rewrite elem_of_app, list_elem_of_singleton, He.
      apply Hs, He in Hin. naive_solver.
    + by apply sublist_inserts_r.
    + intros c'. rewrite elem_of_union, elem_of_app, list_elem_of_singleton, elem_of_singleton, Hs.
      tauto.
    + apply NoDup_app. split; [done|]. split; [|apply NoDup_singleton].
      intros x Hx ->%list_elem_of_singleton. by apply Hin, Hs.
    + intros c'. rewrite !elem_of_app, !list_elem_of_singleton, He. unfold named. naive_solver.
    + by apply sublist_app.
Qed.

Lemma add_inv_foldl l l' st : add_inv l st → add_inv (l ++ l') (foldl add st l').
Proof.
  revert l st. induction l' as [|c l' IH]; intros l st H; simpl; [by rewrite app_nil_r|].
  rewrite cons_middle, app_assoc. by apply IH, add_inv_step.
Qed.

Lemma foldl_add_prefix l o seen : ∃ l', (foldl add (o, seen) l).1 = o ++ l'.
Proof.
  revert o seen. induction l as [|c l IH]; intros o seen; simpl; [exists []; by rewrite app_nil_r|].
  destruct (add (o, seen) c) as [o1 seen1] eqn:Ha. unfold add in Ha.
  repeat case_match; simplify_eq; try apply IH.
  destruct (IH (o ++ [c]) ({[c]} ∪ seen)) as [l' ->]. rewrite <- app_assoc. eauto.
Qed.

Lemma ordered_inv inp :
  ∃ seen, add_inv (Requested inp :: Tier inp) (ordered_of inp, seen).
Proof.
  unfold ordered_of.
  assert (add_inv [] ([], ∅)) as H0.
  { split; simpl; [set_solver|apply NoDup_nil_2|set_solver|done]. }
  apply (add_inv_step _ _ (Requested inp)) in H0.
  apply (add_inv_foldl _ (Tier inp)) in H0. simpl in H0.
  destruct (foldl _ _ _) as [o seen]. by exists seen.
Qed.

Lemma elem_of_permitted inp c :
  c ∈ permitted_of inp ↔ offered inp c ∧ allowed_by inp c = true.
Proof.
  unfold permitted_of. destruct (ordered_inv inp) as [seen [_ _ He _]].
  rewrite elem_of_keep. simpl in He. rewrite He. done.
Qed.

Lemma permitted_sublist inp : permitted_of inp `sublist_of` Requested inp :: Tier inp.
Proof.
  destruct (ordered_inv inp) as [seen [_ _ _ Hs]].
  unfold permitted_of. etransitivity; [apply keep_sublist|done].
Qed.

Lemma permitted_nodup inp : NoDup (permitted_of inp).
Proof.
  destruct (ordered_inv inp) as [seen [_ Hn _ _]].
  eapply sublist_NoDup; [done|apply keep_sublist].
Qed.

(** ** The two shapes of a chain *)

Definition band (inp : ChainInput) (s : Status) : list Candidate :=
  keep (λ c, bool_decide (status_by inp c = s)) (permitted_of inp).

Lemma elem_of_band inp s c :
  c ∈ band inp s ↔ (offered inp c ∧ allowed_by inp c = true) ∧ status_by inp c = s.
Proof. unfold band. by rewrite elem_of_keep, bool_decide_eq_true, elem_of_permitted. Qed.

Lemma BuildChain_cases inp :
  (BuildChain inp = permitted_of inp ∧
     ∀ c, c ∈ permitted_of inp → status_by inp c = StatusDown) ∨
  (BuildChain inp = band inp StatusHealthy ++ band inp StatusDegraded ∧
     ∃ c, c ∈ permitted_of inp ∧ status_by inp c ≠ StatusDown).
Proof.
  unfold BuildChain. simpl. rewrite app_nil_r. fold (band inp StatusHealthy) (band inp StatusDegraded).
  destruct (permitted_of inp) as [|c0 l0] eqn:Hp; [left; set_solver|]. rewrite <- Hp.
  destruct (band inp StatusHealthy ++ band inp StatusDegraded) as [|c l] eqn:Hb.
  - left. split; [done|]. intros c Hc. apply elem_of_permitted in Hc.
    destruct (status_by inp c) eqn:Hs; [exfalso|exfalso|done].
    + assert (c ∈ band inp StatusHealthy) by (by apply elem_of_band).
      apply app_eq_nil in Hb as [Hb _]. rewrite Hb in *. set_solver.
    + assert (c ∈ band inp StatusDegraded) by (by apply elem_of_band).
      apply app_eq_nil in Hb as [_ Hb]. rewrite Hb in *. set_solver.
  - right. split; [done|]. exists c.
    assert (c ∈ band inp StatusHealthy ++ band inp StatusDegraded) as Hc by (rewrite Hb; set_solver).
    rewrite elem_of_permitted. apply elem_of_app in Hc as [[? Hs]%elem_of_band|[? Hs]%elem_of_band];
      by rewrite Hs.
Qed.

Lemma elem_of_BuildChain inp c :
  c ∈ BuildChain inp ↔
  offered inp c ∧ allowed_by inp c = true ∧
  (status_by inp c ≠ StatusDown ∨
   ∀ c', offered inp c' → allowed_by inp c' = true → status_by inp c' = StatusDown).
Proof.
  destruct (BuildChain_cases inp) as [[-> Hd]|[-> (c0 & Hc0 & Hs0)]].
  - rewrite elem_of_permitted. split; [|tauto]. intros [Ho Ha]. split; [done|]. split; [done|].
    right. intros c' Ho' Ha'. apply Hd, elem_of_permitted. done.
  - rewrite elem_of_app, !elem_of_band. apply elem_of_permitted in Hc0 as [Ho0 Ha0].
    split; [intros [[[? ?] ->]|[[? ?] ->]]; naive_solver|].
    intros (Ho & Ha & [Hs|Hall]); [|by destruct Hs0; apply Hall].
    destruct (status_by inp c); naive_solver.
Qed.

Lemma BuildChain_nonempty inp c : c ∈ permitted_of inp → BuildChain inp ≠ [].
Proof.
  intros Hc Hnil. destruct (BuildChain_cases inp) as [[Hp _]|[Hp (c0 & Hc0 & Hs0)]];
    rewrite Hnil in Hp.
  - rewrite <- Hp in Hc. set_solver.
  - symmetry in Hp. apply app_eq_nil in Hp as [H1 H2]. apply elem_of_permitted in Hc0.
    destruct (status_by inp c0) eqn:Hs; [| |done].
    + assert (c0 ∈ band inp StatusHealthy) by (by apply elem_of_band). rewrite H1 in *. set_solver.
    + assert (c0 ∈ band inp StatusDegraded) by (by apply elem_of_band). rewrite H2 in *. set_solver.
Qed.

(** C5: authorization before availability.  A candidate is in the chain iff
    the request offers it, the team's allowlist permits it, and its provider
    is not down or else every permitted option is down; nothing is in it
    twice; and the chain is empty only when the team may use none of the
    options. *)
Theorem BuildChain_members inp :
  NoDup (BuildChain inp) ∧
  (∀ c, c ∈ BuildChain inp ↔
     offered inp c ∧ allowed_by inp c = true ∧
     (status_by inp c ≠ StatusDown ∨
      ∀ c', offered inp c' → allowed_by inp c' = true → status_by inp c' = StatusDown)) ∧
  (BuildChain inp = [] ↔ ∀ c, offered inp c → allowed_by inp c = false).
Proof.
  split; [|split; [apply elem_of_BuildChain|]].
  - destruct (BuildChain_cases inp) as [[-> _]|[-> _]]; [apply permitted_nodup|].
    assert (∀ s, NoDup (band inp s)) as Hb.
    { intros s. eapply sublist_NoDup; [apply permitted_nodup|apply keep_sublist]. }
    apply NoDup_app. split; [done|]. split; [|done].
    intros c [_ H1]%elem_of_band [_ H2]%elem_of_band. congruence.
  - split; intros H.
    + intros c Ho. destruct (allowed_by inp c) eqn:Ha; [|done].
      destruct (BuildChain_nonempty inp c); [by apply elem_of_permitted|done].
    + destruct (BuildChain inp) as [|c l] eqn:Hc; [done|exfalso].
      assert (c ∈ BuildChain inp) as Hin by (rewrite Hc; set_solver).
      apply elem_of_BuildChain in Hin as (Ho & Ha & _). by rewrite (H c Ho) in Ha.
Qed.

(** Healthy before degraded before down. *)
Definition rank (s : Status) : Z :=
  match s with StatusHealthy => 0 | StatusDegraded => 1 | StatusDown => 2 end.

Lemma StronglySorted_const {A} (f : A → Z) l n :
  (∀ x, x ∈ l → f x = n) → StronglySorted (λ x y, f x ≤ f y) l.
Proof.
  induction l as [|x l IH]; intros H; constructor.
  - apply IH. set_solver.
  - apply Forall_forall. intros y Hy. rewrite (H x), (H y); [lia|set_solver|set_solver].
Qed.

Lemma StronglySorted_app_bands {A} (f : A → Z) l1 l2 n :
  (∀ x, x ∈ l1 → f x = n) → (∀ x, x ∈ l2 → n ≤ f x) →
  StronglySorted (λ x y, f x ≤ f y) l2 → StronglySorted (λ x y, f x ≤ f y) (l1 ++ l2).
Proof.
  intros H1 H2 Hs. induction l1 as [|x l1 IH]; simpl; [done|]. constructor.
  - apply IH. set_solver.
  - apply Forall_forall. intros y Hy. rewrite (H1 x) by set_solver.
    apply elem_of_app in Hy as [Hy|Hy]; [rewrite (H1 y) by set_solver; lia|by apply H2].
Qed.

(** the order of a chain.  Healthy candidates come before degraded ones;
    within one status the declared order (the requested model, then its tier)
    is kept; and a requested model that is permitted and healthy heads the
    chain. *)
Theorem BuildChain_order inp :
  StronglySorted (λ c1 c2, rank (status_by inp c1) ≤ rank (status_by inp c2)) (BuildChain inp) ∧
  (∀ s, keep (λ c, bool_decide (status_by inp c = s)) (BuildChain inp)
          `sublist_of` Requested inp :: Tier inp) ∧
  (named (Requested inp) → allowed_by inp (Requested inp) = true →
   status_by inp (Requested inp) = StatusHealthy → head (BuildChain inp) = Some (Requested inp)).
Proof.
  split; [|split].
  - destruct (BuildChain_cases inp) as [[-> Hd]|[-> _]].
    + apply (StronglySorted_const (λ c, rank (status_by inp c)) _ 2).
      intros c Hc. by rewrite (Hd c Hc).
    + apply (StronglySorted_app_bands (λ c, rank (status_by inp c)) _ _ 0).
      * by intros c [_ ->]%elem_of_band.
      * by intros c [_ ->]%elem_of_band.
      * apply (StronglySorted_const (λ c, rank (status_by inp c)) _ 1).
        by intros c [_ ->]%elem_of_band.
  - intros s. etransitivity; [|apply permitted_sublist].
    destruct (BuildChain_cases inp) as [[-> Hd]|[-> _]]; [apply keep_sublist|].
    rewrite keep_app. destruct (decide (s = StatusHealthy)) as [->|Hh].
    + rewrite (keep_none _ (band inp StatusDegraded)), app_nil_r.
      * etransitivity; apply keep_sublist.
      * intros c [_ Hc]%elem_of_band. by rewrite Hc.
    + rewrite (keep_none _ (band inp StatusHealthy)).
      * simpl. etransitivity; apply keep_sublist.
      * intros c [_ Hc]%elem_of_band. rewrite Hc. apply bool_decide_eq_false. congruence.
  - intros Hn Ha Hs. assert (Requested inp ∈ permitted_of inp) as Hp.
    { apply elem_of_permitted. split; [|done]. split; [set_solver|done]. }
    destruct (BuildChain_cases inp) as [[_ Hd]|[-> _]]; [by rewrite (Hd _ Hp) in Hs|].
    unfold band. assert (∃ l, permitted_of inp = Requested inp :: l) as [l ->].
    { unfold permitted_of, ordered_of.
      assert (add ([], ∅) (Requested inp) = ([Requested inp], {[Requested inp]} ∪ ∅)) as ->.
      { unfold add. destruct Hn. rewrite !bool_decide_eq_false_2 by (done || set_solver). done. }
      destruct (foldl_add_prefix (Tier inp) [Requested inp] ({[Requested inp]} ∪ ∅)) as [l ->].
      simpl. rewrite Ha. eauto. }
    simpl. by rewrite bool_decide_eq_true_2.
Qed.

(** ** Witness data *)

Definition demo_chain_input : ChainInput :=
  {| Requested := {| c_Provider := "openai"; c_Model := "gpt-4o" |};
     Tier := [ {| c_Provider := "groq"; c_Model := "llama-3.3-70b" |};
               {| c_Provider := "openai"; c_Model := "gpt-4o" |};
               {| c_Provider := "gemini"; c_Model := "gemini-2.0" |};
               {| c_Provider := "ollama"; c_Model := "llama3" |} ];
     StatusOf := Some (λ p, if decide (p = "openai"%string) then StatusDegraded
                            else if decide (p = "ollama"%string) then StatusDown
                            else StatusHealthy);
     Allowed := Some (λ p _, bool_decide (p ≠ "gemini"%string)) |}.

Example BuildChain_demo :
  BuildChain demo_chain_input =
  [ {| c_Provider := "groq"; c_Model := "llama-3.3-70b" |};
    {| c_Provider := "openai"; c_Model := "gpt-4o" |} ].
Proof. vm_compute. reflexivity. Qed.

(** ** Readings that change between the passes *)

Lemma BuildChain_one_reading inp f :
  StatusOf inp = Some f → BuildChain inp = BuildChain_live (λ _, f) inp.
Proof. intros Hf. unfold BuildChain, BuildChain_live, status_by. by rewrite Hf. Qed.

(** Whatever the monitor says and when, only what the team may use is tried. *)
Lemma BuildChain_live_permitted reading inp c :
  c ∈ BuildChain_live reading inp → offered inp c ∧ allowed_by inp c = true.
Proof.
  intros Hc. apply elem_of_permitted. unfold BuildChain_live in Hc.
  destruct (permitted_of inp) as [|x l]; [done|]. revert Hc. generalize (x :: l). clear x l. intros l.
  destruct (mjoin _) as [|y ys] eqn:Hj; [done|]. rewrite <- Hj. clear Hj. cbn. rewrite app_nil_r.
  by intros [[Hin _]%elem_of_keep|[Hin _]%elem_of_keep]%elem_of_app.
Qed.

(** A provider that degrades between the two passes is listed twice; one that
    recovers between them is not listed. *)
Example status_change_between_passes :
  let inp := {| Requested := {| c_Provider := "openai"; c_Model := "gpt-4o" |};
                Tier := [{| c_Provider := "groq"; c_Model := "llama-3.3-70b" |}]; StatusOf := None; Allowed := None |} in
  let moves (before after : Status) (band : Status) (p : string) :=
    if bool_decide (p = "openai"%string) then (if bool_decide (band = StatusHealthy) then before else after)
    else StatusHealthy in
  map c_Provider (BuildChain_live (moves StatusHealthy StatusDegraded) inp) = ["openai"; "groq"; "openai"]%string ∧
  map c_Provider (BuildChain_live (moves StatusDegraded StatusHealthy) inp) = ["groq"]%string.
Proof. split; vm_compute; reflexivity. Qed.
