(* ===== verification/Wire.v ===== *)
(** * internal/proxy/wire.go and the types of internal/provider/types.go

    The public request and response, their validation, the token estimates the
    reservations are sized by, and the translation to and from the canonical
    provider types.  JSON syntax itself is the standard library's. *)

From S2P Require Import Prelude Float32.
Open Scope Z_scope.

Record chatMessage := { m_Role : string; m_Content : string }.

(** [Temperature] is a nil-able float32. *)
Record chatRequest := {
  r_Model : string;
  r_Messages : list chatMessage;
  r_Temperature : option float32;
  r_MaxTokens : Z;
  r_Stream : bool;
  r_Stop : list string
}.

(** ** types.go *)

Inductive Role := RoleSystem | RoleUser | RoleAssistant.

Definition Role_string (r : Role) : string :=
  match r with RoleSystem => "system" | RoleUser => "user" | RoleAssistant => "assistant" end.

(** [provider.Role(m.Role)] is a conversion that accepts any string. *)
Record Message := { pm_Role : string; pm_Content : string }.

Record Request := {
  pr_Model : string;
  pr_Messages : list Message;
  pr_Temperature : option float32;
  pr_MaxTokens : Z;
  pr_Stream : bool;
  pr_Stop : list string
}.

(** A named string, empty on a chunk that does not end the stream. *)
Definition FinishReason : Type := string.
Definition FinishStop : FinishReason := "stop"%string.
Definition FinishLength : FinishReason := "length"%string.
Definition FinishContentFilter : FinishReason := "content_filter"%string.
Definition FinishOther : FinishReason := "other"%string.

#[export] Instance FinishReason_eq_dec : EqDecision FinishReason := _ : EqDecision string.

Record Usage := { u_InputTokens : Z; u_OutputTokens : Z }.

Record Response := {
  rs_Content : string;
  rs_FinishReason : FinishReason;
  rs_Usage : Usage;
  rs_Model : string;
  rs_Provider : string;
  rs_Latency : Z
}.

(** provider.go: token counts arrive only at the end of a stream, if at all. *)
Record Chunk := { ch_Content : string; ch_FinishReason : FinishReason; ch_Usage : option Usage }.

(** ** Validation *)

Inductive wire_error :=
| ModelRequired | NoMessages | RoleRequired (i : nat) | UnknownRole (i : nat) (role : string)
| NegativeMaxTokens | TemperatureRange.

Definition known_role (s : string) : bool :=
  existsb (λ r, bool_decide (s = Role_string r)) [RoleSystem; RoleUser; RoleAssistant].

Fixpoint validate_messages (i : nat) (ms : list chatMessage) : option wire_error :=
  match ms with
  | [] => None
  | m :: ms' =>
      if known_role (m_Role m) then validate_messages (S i) ms'
      else if bool_decide (m_Role m = ""%string) then Some (RoleRequired i)
      else Some (UnknownRole i (m_Role m))
  end.

Definition bad_temperature (t : float32) : bool := f_ltb t f32_zero || f_ltb (f32_of_Z 2) t.

Definition validate (r : chatRequest) : option wire_error :=
  if bool_decide (r_Model r = ""%string) then Some ModelRequired
  else match r_Messages r with
       | [] => Some NoMessages
       | _ =>
           match validate_messages 0 (r_Messages r) with
           | Some e => Some e
           | None =>
               if r_MaxTokens r <? 0 then Some NegativeMaxTokens
               else match r_Temperature r with
                    | Some t => if bad_temperature t then Some TemperatureRange else None
                    | None => None
                    end
           end
       end.

(** ** Token estimates, in Go's 64-bit [int] *)

Definition charsPerToken : Z := 4.
Definition perMessageTokenOverhead : Z := 4.

Definition message_tokens (m : chatMessage) : Z :=
  Z.quot (Z.of_nat (String.length (m_Content m)) + charsPerToken - 1) charsPerToken.

Definition estimateInputTokens (r : chatRequest) : Z :=
  foldl (λ total m, wrap64 (wrap64 (total + message_tokens m) + perMessageTokenOverhead))
    0 (r_Messages r).

Definition estimateOutputCeiling (r : chatRequest) (defaultMaxTokens : Z) : Z :=
  if 0 <? r_MaxTokens r then r_MaxTokens r else defaultMaxTokens.

Definition estimateTokens (r : chatRequest) (defaultMaxTokens : Z) : Z :=
  wrap64 (estimateInputTokens r + estimateOutputCeiling r defaultMaxTokens).

(** ** Translation *)

Definition toProviderRequest (r : chatRequest) : Request :=
  {| pr_Model := r_Model r;
     pr_Messages := map (λ m, {| pm_Role := m_Role m; pm_Content := m_Content m |}) (r_Messages r);
     pr_Temperature := r_Temperature r;
     pr_MaxTokens := r_MaxTokens r;
     pr_Stream := r_Stream r;
     pr_Stop := r_Stop r |}.

Definition chatCompletionID (requestID : string) : string := ("chatcmpl-" ++ requestID)%string.

Definition wireFinishReason (r : FinishReason) : string :=
  if bool_decide (r = FinishLength) then "length"
  else if bool_decide (r = FinishContentFilter) then "content_filter" else "stop".

Record usageDTO := { PromptTokens : Z; CompletionTokens : Z; TotalTokens : Z }.
Record chatChoice := { cc_Index : Z; cc_Message : chatMessage; cc_FinishReason : string }.
Record chatResponse := {
  cr_ID : string; cr_Object : string; cr_Created : Z; cr_Model : string;
  cr_Choices : list chatChoice; cr_Usage : usageDTO
}.

Definition toChatResponse (id : string) (created : Z) (resp : Response) : chatResponse :=
  {| cr_ID := chatCompletionID id;
     cr_Object := "chat.completion";
     cr_Created := created;
     cr_Model := rs_Model resp;
     cr_Choices := [ {| cc_Index := 0;
                        cc_Message := {| m_Role := Role_string RoleAssistant;
                                         m_Content := rs_Content resp |};
                        cc_FinishReason := wireFinishReason (rs_FinishReason resp) |} ];
     cr_Usage := {| PromptTokens := u_InputTokens (rs_Usage resp);
                    CompletionTokens := u_OutputTokens (rs_Usage resp);
                    TotalTokens := wrap64 (u_InputTokens (rs_Usage resp)
                                           + u_OutputTokens (rs_Usage resp)) |} |}.

Record chatChunkDelta := { cd_Role : string; cd_Content : string }.
Record chatChunkChoice := {
  ck_Index : Z; ck_Delta : chatChunkDelta; ck_FinishReason : option string }.
Record chatChunkResponse := {
  ckr_ID : string; ckr_Object : string; ckr_Created : Z; ckr_Model : string;
  ckr_Choices : list chatChunkChoice }.

Definition toChatChunk (id : string) (created : Z) (model : string) (chunk : Chunk)
    (includeRole : bool) : chatChunkResponse :=
  let delta := {| cd_Role := if includeRole then Role_string RoleAssistant else "";
                  cd_Content := ch_Content chunk |} in
  let finish := if bool_decide (ch_FinishReason chunk = ""%string) then None
                else Some (wireFinishReason (ch_FinishReason chunk)) in
  {| ckr_ID := id; ckr_Object := "chat.completion.chunk"; ckr_Created := created;
     ckr_Model := model;
     ckr_Choices := [ {| ck_Index := 0; ck_Delta := delta; ck_FinishReason := finish |} ] |}.

(** ** The estimates of a request of bounded size *)

Definition content_bytes (r : chatRequest) : Z :=
  foldr (λ m z, Z.of_nat (String.length (m_Content m)) + z) 0 (r_Messages r).

(** The estimate without wrap-around. *)
Fixpoint exact_tokens (ms : list chatMessage) : Z :=
  match ms with
  | [] => 0
  | m :: ms' => message_tokens m + perMessageTokenOverhead + exact_tokens ms'
  end.

Lemma message_tokens_nonneg m : 0 ≤ message_tokens m.
Proof. unfold message_tokens, charsPerToken. apply Z.quot_pos; lia. Qed.

Lemma message_tokens_covers m :
  Z.of_nat (String.length (m_Content m)) ≤ charsPerToken * message_tokens m
    < Z.of_nat (String.length (m_Content m)) + charsPerToken.
Proof.
  unfold message_tokens, charsPerToken. rewrite Z.quot_div_nonneg by lia.
  set (n := Z.of_nat _). assert (0 ≤ n) by lia.
  pose proof (Z.div_mod (n + 4 - 1) 4). pose proof (Z.mod_pos_bound (n + 4 - 1) 4). lia.
Qed.

Lemma exact_tokens_nonneg ms : 0 ≤ exact_tokens ms.
Proof.
  induction ms as [|m ms IH]; simpl; [lia|].
  pose proof (message_tokens_nonneg m). unfold perMessageTokenOverhead. lia.
Qed.

Lemma estimate_loop ms acc :
  0 ≤ acc → acc + exact_tokens ms ≤ int64_max →
  foldl (λ total m, wrap64 (wrap64 (total + message_tokens m) + perMessageTokenOverhead)) acc ms
  = acc + exact_tokens ms.
Proof.
  revert acc. induction ms as [|m ms IH]; intros acc H0 Hmax; simpl in *; [lia|].
  pose proof (message_tokens_nonneg m). pose proof (exact_tokens_nonneg ms).
  unfold perMessageTokenOverhead in *. assert (int64_min ≤ 0) by done.
  rewrite (wrap64_id (acc + _)), wrap64_id by (unfold in_int64; lia).
  rewrite IH by lia. lia.
Qed.

Lemma estimateInputTokens_exact r :
  exact_tokens (r_Messages r) ≤ int64_max → estimateInputTokens r = exact_tokens (r_Messages r).
Proof. intros H. unfold estimateInputTokens. rewrite estimate_loop; lia. Qed.

(** The estimate covers the prompt's bytes at four to the token. *)
Lemma exact_tokens_covers r :
  content_bytes r ≤ charsPerToken * exact_tokens (r_Messages r) ∧
  charsPerToken * exact_tokens (r_Messages r)
    ≤ content_bytes r + 20 * Z.of_nat (length (r_Messages r)).
Proof.
  unfold content_bytes. induction (r_Messages r) as [|m ms IH]; simpl; [lia|].
  pose proof (message_tokens_covers m) as Hm.
  unfold charsPerToken, perMessageTokenOverhead in *. lia.
Qed.
