(* ===== verification/Sse.v ===== *)
(** * Server-Sent Events: internal/provider/sse.go and the frames of the proxy

    The reader every streaming adapter shares ([sseReader], [sseStreamReader],
    [ndjsonStreamReader]) over [bufio.Scanner]'s lines, and the frame
    [writeSSEJSON] writes.  A body is its bytes and how reading them ended. *)

From S2P Require Import Prelude Text Json Provider Wire.

Definition maxStreamLineBytes : Z := 2 ^ 20.

Definition LF : Ascii.ascii := chr 10.
Definition CR : Ascii.ascii := chr 13.

(** [strings.CutPrefix] *)
Fixpoint cut_prefix (p s : string) : option string :=
  match p, s with
  | EmptyString, _ => Some s
  | String c p', String d s' => if bool_decide (c = d) then cut_prefix p' s' else None
  | String _ _, EmptyString => None
  end.

Definition TrimPrefix (s p : string) : string := default s (cut_prefix p s).
Definition HasPrefix (s p : string) : bool := match cut_prefix p s with Some _ => true | None => false end.

(** ** bufio.Scanner with ScanLines

    A line ends at a newline; the last one need not.  A line that does not fit
    the buffer ends the scan with an error, and so does a failed read, after
    the bytes before it have been handed out as a last line. *)
Fixpoint raw_lines (s acc : string) : list string :=
  match s with
  | EmptyString => if bool_decide (acc = ""%string) then [] else [acc]
  | String c s' =>
      if bool_decide (c = LF) then acc :: raw_lines s' ""
      else raw_lines s' (acc ++ String c "")
  end.

Fixpoint dropCR (s : string) : string :=
  match s with
  | EmptyString => ""
  | String c EmptyString => if bool_decide (c = CR) then "" else s
  | String c s' => String c (dropCR s')
  end.

Definition too_long (line : string) : bool := maxStreamLineBytes <=? Z.of_nat (String.length line).

Fixpoint scan_lines (ls : list string) : list string * bool :=
  match ls with
  | [] => ([], false)
  | l :: ls' =>
      if too_long l then ([], true)
      else let '(r, long) := scan_lines ls' in (dropCR l :: r, long)
  end.

(** The lines still to come and what the scan ends with: nil, or an error. *)
Record scanner := { sc_lines : list string; sc_err : option go_error }.

Definition ErrTooLong : go_error := OtherError "bufio.Scanner: token too long".

Definition new_scanner (body : string) (read_err : option go_error) : scanner :=
  let '(ls, long) := scan_lines (raw_lines body "") in
  {| sc_lines := ls; sc_err := if long then Some ErrTooLong else read_err |}.

(** ** sseReader *)

Record sseEvent := { ev_Event : string; ev_Data : string }.

Definition newSSEReader : string → option go_error → scanner := new_scanner.

Definition LF_string : string := String LF "".

Inductive received (A : Type) := Got (a : A) | EndOfStream | Broken (e : go_error).
Arguments Got {A}.
Arguments EndOfStream {A}.
Arguments Broken {A}.

Fixpoint next_loop (err : option go_error) (ls : list string) (event : string) (dataLines : list string)
    (sawAny : bool) : received sseEvent * list string :=
  match ls with
  | [] => (match err with
           | Some e => Broken e
           | None => if sawAny then Got {| ev_Event := event; ev_Data := Join dataLines LF_string |}
                     else EndOfStream
           end, [])
  | line :: ls' =>
      if bool_decide (line = ""%string)
      then if sawAny then (Got {| ev_Event := event; ev_Data := Join dataLines LF_string |}, ls')
           else next_loop err ls' event dataLines sawAny
      else if HasPrefix line "event:"
           then next_loop err ls' (trim_space (TrimPrefix line "event:")) dataLines true
      else if HasPrefix line "data:"
           then next_loop err ls' event (dataLines ++ [TrimPrefix (TrimPrefix line "data:") " "]) true
      else next_loop err ls' event dataLines true
  end.

Definition Next (r : scanner) : received sseEvent * scanner :=
  let '(ev, ls) := next_loop (sc_err r) (sc_lines r) "" [] false in
  (ev, {| sc_lines := ls; sc_err := sc_err r |}).

(** What [decode] says of an event: a chunk or nothing, whether the provider
    said it is done, or an error. *)
Definition decoded : Type := result go_error (option Chunk * bool).

(** [decode] may be a closure with variables of its own, [D].  Each turn of the
    loop reads an event, which takes at least one line. *)
Section recv.
Context {D : Type} (decode : D → sseEvent → decoded * D).

Fixpoint recv_loop (fuel : nat) (d : D) (r : scanner) : option (received Chunk) * D * scanner :=
  match fuel with
  | O => (None, d, r)
  | S fuel' =>
      match Next r with
      | (EndOfStream, r) => (Some EndOfStream, d, r)
      | (Broken e, r) => (Some (Broken e), d, r)
      | (Got ev, r) =>
          match decode d ev with
          | (Err e, d) => (Some (Broken e), d, r)
          | (Ok (_, true), d) => (Some EndOfStream, d, r)
          | (Ok (None, false), d) => recv_loop fuel' d r
          | (Ok (Some chunk, false), d) => (Some (Got chunk), d, r)
          end
      end
  end.

Definition Recv (d : D) (r : scanner) : option (received Chunk) * D * scanner :=
  recv_loop (S (length (sc_lines r))) d r.
End recv.

(** ** ndjsonStreamReader *)

Fixpoint ndjson_loop (err : option go_error) (decode : string → decoded) (ls : list string)
    : received Chunk * list string :=
  match ls with
  | [] => (match err with Some e => Broken e | None => EndOfStream end, [])
  | line :: ls' =>
      let line := trim_space line in
      if bool_decide (line = ""%string) then ndjson_loop err decode ls'
      else match decode line with
           | Err e => (Broken e, ls')
           | Ok (_, true) => (EndOfStream, ls')
           | Ok (None, false) => ndjson_loop err decode ls'
           | Ok (Some chunk, false) => (Got chunk, ls')
           end
  end.

Definition ndjson_Recv (decode : string → decoded) (r : scanner) : received Chunk * scanner :=
  let '(x, ls) := ndjson_loop (sc_err r) decode (sc_lines r) in
  (x, {| sc_lines := ls; sc_err := sc_err r |}).

(** ** Reading terminates *)

Lemma next_loop_length err ls event data saw ev ls' :
  next_loop err ls event data saw = (ev, ls') → (length ls' ≤ length ls)%nat.
Proof.
  revert event data saw. induction ls as [|line ls IH]; intros event data saw; simpl.
  - by intros [= _ <-].
  - repeat case_match; first [by intros [= _ <-]; lia|by intros ?%IH; lia].
Qed.

Lemma next_loop_shrinks err ls event data saw ev ls' :
  next_loop err ls event data saw = (Got ev, ls') →
  (length ls' < length ls + (if saw then 1 else 0))%nat.
Proof.
  revert event data saw. induction ls as [|line ls IH]; intros event data saw; simpl.
  - destruct err; [done|]. destruct saw; [|done]. intros [= _ <-]. simpl. lia.
  - assert (∀ e d, next_loop err ls e d true = (Got ev, ls') →
      (length ls' < S (length ls + (if saw then 1 else 0)))%nat) as Hrec.
    { intros e d Hn. apply IH in Hn. destruct saw; lia. }
    case_bool_decide; [destruct saw; [by intros [= _ <-]; lia|intros Hn%IH; lia]|].
    destruct (HasPrefix line "event:"); [apply Hrec|]. destruct (HasPrefix line "data:"); apply Hrec.
Qed.

Section recv_total.
Context {D : Type} (decode : D → sseEvent → decoded * D).

Lemma recv_loop_total fuel d r :
  (length (sc_lines r) < fuel)%nat →
  let '(x, _, r') := recv_loop decode fuel d r in
  is_Some x ∧ (length (sc_lines r') ≤ length (sc_lines r))%nat ∧
  (∀ c, x = Some (Got c) → (length (sc_lines r') < length (sc_lines r))%nat).
Proof.
  revert d r. induction fuel as [|fuel IH]; intros d r Hl; [lia|]. cbn [recv_loop]. unfold Next.
  destruct (next_loop _ _ _ _ _) as [ev ls] eqn:Hn. pose proof (next_loop_length _ _ _ _ _ _ _ Hn) as Hle.
  destruct ev as [ev| |e]; [|split_and!; [eauto|done|done]..].
  apply next_loop_shrinks in Hn. destruct (decode d ev) as [[[[chunk|] []]|e] d'];
    try (split_and!; [eauto|cbn; lia|intros ? [=]; cbn; lia]).
  specialize (IH d' {| sc_lines := ls; sc_err := sc_err r |}). cbn [sc_lines] in IH.
  destruct (recv_loop decode fuel d' _) as [[x d''] r']. destruct IH as (H1 & H2 & H3); [lia|].
  split_and!; [done|lia|]. intros c Hc. specialize (H3 c Hc). lia.
Qed.

(** Every [Recv] returns: a chunk, the end of the stream, or an error. *)
Lemma Recv_total d r : is_Some (Recv decode d r).1.1.
Proof.
  pose proof (recv_loop_total (S (length (sc_lines r))) d r ltac:(lia)) as H. unfold Recv.
  destruct (recv_loop _ _ _ _) as [[x d'] r']. apply H.
Qed.
End recv_total.

(** ** Writing frames, and reading them back *)

(** The bytes of [writeSSEJSON], its three writes together. *)
Definition frame (payload : string) : string := "data: " ++ payload ++ LF_string ++ LF_string.
Definition sseDone : string := frame "[DONE]".

Lemma raw_lines_line s rest acc :
  one_line s = true → raw_lines (s ++ String LF rest) acc = (acc ++ s)%string :: raw_lines rest "".
Proof.
  revert acc. induction s as [|c s IH]; intros acc Hs.
  - change (raw_lines (String LF rest) acc = (acc ++ "")%string :: raw_lines rest "").
    cbn [raw_lines]. rewrite bool_decide_eq_true_2 by done. by rewrite string_app_nil_r.
  - change (raw_lines (String c (s ++ String LF rest)) acc = (acc ++ String c s)%string :: raw_lines rest "").
    cbn [one_line] in Hs. bool_to_prop. cbn [raw_lines]. rewrite bool_decide_eq_false_2.
    + rewrite IH by done. by rewrite string_app_assoc.
    + intros ->. done.
Qed.

Lemma raw_lines_frame payload rest :
  one_line payload = true →
  raw_lines (frame payload ++ rest) "" = ("data: " ++ payload)%string :: ""%string :: raw_lines rest "".
Proof.
  intros Hp. unfold frame, LF_string.
  replace (("data: " ++ payload ++ String LF "" ++ String LF "") ++ rest)%string
    with (("data: " ++ payload) ++ String LF (String LF rest))%string
    by (rewrite !string_app_assoc; done).
  rewrite raw_lines_line by (by rewrite one_line_app). f_equal.
Qed.

Lemma dropCR_one_line s : one_line s = true → dropCR s = s.
Proof.
  induction s as [|c s IH]; [done|]. intros Hs. cbn [one_line] in Hs. bool_to_prop.
  destruct s as [|c' s].
  - simpl. rewrite bool_decide_eq_false_2; [done|]. by intros ->.
  - change (String c (dropCR (String c' s)) = String c (String c' s)). by rewrite IH.
Qed.

Lemma cut_prefix_app p s : cut_prefix p (p ++ s) = Some s.
Proof.
  induction p as [|c p IH]; [done|].
  change (cut_prefix (String c p) (String c (p ++ s)) = Some s). cbn [cut_prefix].
  by rewrite bool_decide_eq_true_2.
Qed.

Lemma TrimPrefix_app p s : TrimPrefix (p ++ s) p = s.
Proof. unfold TrimPrefix. by rewrite cut_prefix_app. Qed.

(** Payloads short enough for the reader's buffer. *)
Definition fits (payload : string) : Prop :=
  one_line payload = true ∧ Z.of_nat (String.length payload) + 6 < maxStreamLineBytes.

Lemma frame_lines payloads tail :
  Forall fits payloads →
  scan_lines (raw_lines (cat (map frame payloads) ++ tail) "") =
    let '(ls, long) := scan_lines (raw_lines tail "") in
    (concat (map (λ p, ["data: " ++ p; ""]%string) payloads) ++ ls, long).
Proof.
  induction 1 as [|p ps [Hp Hl] _ IH].
  - simpl. by destruct (scan_lines _).
  - change (cat (map frame (p :: ps))) with (frame p ++ cat (map frame ps))%string.
    rewrite string_app_assoc, raw_lines_frame by done. cbn [scan_lines].
    unfold too_long at 1. change (maxStreamLineBytes <=? Z.of_nat (String.length ("data: " ++ p))) with
      (maxStreamLineBytes <=? Z.of_nat (6 + String.length p)).
    destruct (Z.leb_spec maxStreamLineBytes (Z.of_nat (6 + String.length p))); [lia|].
    rewrite IH, (dropCR_one_line ("data: " ++ p)) by (by rewrite one_line_app).
    by destruct (scan_lines (raw_lines tail "")) as [ls long].
Qed.

Lemma Next_frame p ls err :
  Next {| sc_lines := ("data: " ++ p)%string :: ""%string :: ls; sc_err := err |} =
    (Got {| ev_Event := ""; ev_Data := p |}, {| sc_lines := ls; sc_err := err |}).
Proof.
  unfold Next. cbn [sc_lines sc_err next_loop].
  rewrite bool_decide_eq_false_2 by done.
  assert (HasPrefix ("data: " ++ p) "event:" = false) as -> by reflexivity.
  assert (HasPrefix ("data: " ++ p) "data:" = true) as ->.
  { unfold HasPrefix. change ("data: " ++ p)%string with ("data:" ++ (" " ++ p))%string.
    by rewrite cut_prefix_app. }
  assert (TrimPrefix (TrimPrefix ("data: " ++ p) "data:") " " = p) as ->.
  { change ("data: " ++ p)%string with ("data:" ++ (" " ++ p))%string. by rewrite !TrimPrefix_app. }
  done.
Qed.

(** All the events of a body, in order. *)
Fixpoint read_all (fuel : nat) (r : scanner) : list sseEvent * received unit :=
  match fuel with
  | O => ([], Broken ErrTooLong)
  | S fuel' =>
      match Next r with
      | (Got ev, r) => let '(evs, e) := read_all fuel' r in (ev :: evs, e)
      | (EndOfStream, _) => ([], EndOfStream)
      | (Broken e, _) => ([], Broken e)
      end
  end.

(** What a client reads from frames written one after the other, when the
    connection ends as [err] says: each payload, in order, and the end. *)
Lemma read_frames n payloads err :
  (length payloads < n)%nat → Forall fits payloads →
  read_all n (newSSEReader (cat (map frame payloads)) err) =
    (map (λ p, {| ev_Event := ""; ev_Data := p |}) payloads,
     match err with Some e => Broken e | None => EndOfStream end).
Proof.
  intros Hn Hf. unfold newSSEReader, new_scanner.
  pose proof (frame_lines payloads "" Hf) as Hl. rewrite string_app_nil_r in Hl. rewrite Hl.
  simpl scan_lines. cbv beta iota. rewrite app_nil_r. clear Hl Hf. revert n Hn.
  induction payloads as [|p ps IH]; intros n Hn; (destruct n as [|n]; [simpl in Hn; lia|]).
  { by destruct err. }
  cbn [map concat app length read_all] in *. rewrite Next_frame. by rewrite IH by lia.
Qed.

Lemma frames_length payloads : (length payloads ≤ String.length (cat (map frame payloads)))%nat.
Proof.
  induction payloads as [|p ps IH]; [done|].
  change (cat (map frame (p :: ps))) with (frame p ++ cat (map frame ps))%string.
  rewrite string_app_length. assert (0 < String.length (frame p))%nat by apply Nat.lt_0_succ.
  cbn [length]. lia.
Qed.
