(* ===== verification/Metrics.v ===== *)
(** * What a request accumulates: requestMetrics and its pricing

    [requestMetrics] of internal/proxy/middleware.go, the headers made from it,
    and [recordCost] and [recordRoutingSavings] of internal/proxy/handler.go.
    Durations are nanoseconds; the headers that print one keep the number
    ([formatMillis] is its rendering with three decimals). *)

From S2P Require Import Prelude Text Budget Wire.

Record requestMetrics := {
  mt_start : Z;
  mt_teamID : string;
  mt_stream : bool;
  mt_providerName : string;
  mt_servedModel : string;
  mt_requestedModel : string;
  mt_fellBack : bool;
  mt_providerTime : Z;
  mt_usage : Usage;
  mt_costMicros : Z;
  mt_fallbackCostDeltaMicros : option Z;
  mt_routedModel : string;
  mt_routedTier : string;
  mt_routeReason : string;
  mt_routeBaselineModel : string;
  mt_routingSavingsMicros : option Z;
  mt_cacheHit : option bool;
  mt_cacheTier : string;
  mt_embedTime : Z
}.

Definition Usage_zero : Usage := {| u_InputTokens := 0; u_OutputTokens := 0 |}.

(** [Timing]'s fresh value. *)
Definition new_metrics (start : Z) : requestMetrics :=
  {| mt_start := start; mt_teamID := ""; mt_stream := false; mt_providerName := "";
     mt_servedModel := ""; mt_requestedModel := ""; mt_fellBack := false; mt_providerTime := 0;
     mt_usage := Usage_zero; mt_costMicros := 0; mt_fallbackCostDeltaMicros := None;
     mt_routedModel := ""; mt_routedTier := ""; mt_routeReason := ""; mt_routeBaselineModel := "";
     mt_routingSavingsMicros := None; mt_cacheHit := None; mt_cacheTier := ""; mt_embedTime := 0 |}.

(** The assignments of the handler, one per group of fields it sets together. *)
Definition m_with_team (id : string) (m : requestMetrics) : requestMetrics :=
  {| mt_start := mt_start m; mt_teamID := id; mt_stream := mt_stream m;
     mt_providerName := mt_providerName m; mt_servedModel := mt_servedModel m;
     mt_requestedModel := mt_requestedModel m; mt_fellBack := mt_fellBack m;
     mt_providerTime := mt_providerTime m; mt_usage := mt_usage m; mt_costMicros := mt_costMicros m;
     mt_fallbackCostDeltaMicros := mt_fallbackCostDeltaMicros m; mt_routedModel := mt_routedModel m;
     mt_routedTier := mt_routedTier m; mt_routeReason := mt_routeReason m;
     mt_routeBaselineModel := mt_routeBaselineModel m;
     mt_routingSavingsMicros := mt_routingSavingsMicros m; mt_cacheHit := mt_cacheHit m;
     mt_cacheTier := mt_cacheTier m; mt_embedTime := mt_embedTime m |}.

Definition m_asked (model : string) (stream : bool) (m : requestMetrics) : requestMetrics :=
  {| mt_start := mt_start m; mt_teamID := mt_teamID m; mt_stream := stream;
     mt_providerName := mt_providerName m; mt_servedModel := mt_servedModel m;
     mt_requestedModel := model; mt_fellBack := mt_fellBack m;
     mt_providerTime := mt_providerTime m; mt_usage := mt_usage m; mt_costMicros := mt_costMicros m;
     mt_fallbackCostDeltaMicros := mt_fallbackCostDeltaMicros m; mt_routedModel := mt_routedModel m;
     mt_routedTier := mt_routedTier m; mt_routeReason := mt_routeReason m;
     mt_routeBaselineModel := mt_routeBaselineModel m;
     mt_routingSavingsMicros := mt_routingSavingsMicros m; mt_cacheHit := mt_cacheHit m;
     mt_cacheTier := mt_cacheTier m; mt_embedTime := mt_embedTime m |}.

Definition m_routed (model tier reason baseline : string) (m : requestMetrics) : requestMetrics :=
  {| mt_start := mt_start m; mt_teamID := mt_teamID m; mt_stream := mt_stream m;
     mt_providerName := mt_providerName m; mt_servedModel := mt_servedModel m;
     mt_requestedModel := mt_requestedModel m; mt_fellBack := mt_fellBack m;
     mt_providerTime := mt_providerTime m; mt_usage := mt_usage m; mt_costMicros := mt_costMicros m;
     mt_fallbackCostDeltaMicros := mt_fallbackCostDeltaMicros m; mt_routedModel := model;
     mt_routedTier := tier; mt_routeReason := reason; mt_routeBaselineModel := baseline;
     mt_routingSavingsMicros := mt_routingSavingsMicros m; mt_cacheHit := mt_cacheHit m;
     mt_cacheTier := mt_cacheTier m; mt_embedTime := mt_embedTime m |}.

Definition m_cached (hit : bool) (tier : string) (embed : Z) (m : requestMetrics) : requestMetrics :=
  {| mt_start := mt_start m; mt_teamID := mt_teamID m; mt_stream := mt_stream m;
     mt_providerName := mt_providerName m; mt_servedModel := mt_servedModel m;
     mt_requestedModel := mt_requestedModel m; mt_fellBack := mt_fellBack m;
     mt_providerTime := mt_providerTime m; mt_usage := mt_usage m; mt_costMicros := mt_costMicros m;
     mt_fallbackCostDeltaMicros := mt_fallbackCostDeltaMicros m; mt_routedModel := mt_routedModel m;
     mt_routedTier := mt_routedTier m; mt_routeReason := mt_routeReason m;
     mt_routeBaselineModel := mt_routeBaselineModel m;
     mt_routingSavingsMicros := mt_routingSavingsMicros m; mt_cacheHit := Some hit;
     mt_cacheTier := tier; mt_embedTime := embed |}.

(** [providerName], [servedModel], [fellBack], [providerTime] and [usage], as
    the paths that reach a provider or an entry set them. *)
Definition m_served (providerName model : string) (fellBack : bool) (providerTime : Z) (usage : Usage)
    (m : requestMetrics) : requestMetrics :=
  {| mt_start := mt_start m; mt_teamID := mt_teamID m; mt_stream := mt_stream m;
     mt_providerName := providerName; mt_servedModel := model;
     mt_requestedModel := mt_requestedModel m; mt_fellBack := fellBack;
     mt_providerTime := providerTime; mt_usage := usage; mt_costMicros := mt_costMicros m;
     mt_fallbackCostDeltaMicros := mt_fallbackCostDeltaMicros m; mt_routedModel := mt_routedModel m;
     mt_routedTier := mt_routedTier m; mt_routeReason := mt_routeReason m;
     mt_routeBaselineModel := mt_routeBaselineModel m;
     mt_routingSavingsMicros := mt_routingSavingsMicros m; mt_cacheHit := mt_cacheHit m;
     mt_cacheTier := mt_cacheTier m; mt_embedTime := mt_embedTime m |}.

Definition m_priced (cost : Z) (savings delta : option Z) (m : requestMetrics) : requestMetrics :=
  {| mt_start := mt_start m; mt_teamID := mt_teamID m; mt_stream := mt_stream m;
     mt_providerName := mt_providerName m; mt_servedModel := mt_servedModel m;
     mt_requestedModel := mt_requestedModel m; mt_fellBack := mt_fellBack m;
     mt_providerTime := mt_providerTime m; mt_usage := mt_usage m; mt_costMicros := cost;
     mt_fallbackCostDeltaMicros := delta; mt_routedModel := mt_routedModel m;
     mt_routedTier := mt_routedTier m; mt_routeReason := mt_routeReason m;
     mt_routeBaselineModel := mt_routeBaselineModel m;
     mt_routingSavingsMicros := savings; mt_cacheHit := mt_cacheHit m;
     mt_cacheTier := mt_cacheTier m; mt_embedTime := mt_embedTime m |}.

Definition baselineModel (m : requestMetrics) : string :=
  if bool_decide (mt_routedModel m ≠ ""%string) then mt_routedModel m else mt_requestedModel m.

Definition overhead (now : Z) (m : requestMetrics) : Z :=
  let d := now - mt_start m - mt_providerTime m - mt_embedTime m in
  if d <? 0 then 0 else d.

(** ** Headers *)

Inductive header_value := HText (s : string) | HMillis (d : Z).
#[export] Instance header_value_eq_dec : EqDecision header_value.
Proof. solve_decision. Defined.

Definition HeaderRequestID : string := "X-Switchyard-Request-Id".
Definition HeaderProvider : string := "X-Switchyard-Provider".
Definition HeaderRequestedModel : string := "X-Switchyard-Requested-Model".
Definition HeaderServedModel : string := "X-Switchyard-Served-Model".
Definition HeaderFallback : string := "X-Switchyard-Fallback".
Definition HeaderOverhead : string := "X-Switchyard-Overhead-Ms".
Definition HeaderCache : string := "X-Switchyard-Cache".
Definition HeaderEmbedTime : string := "X-Switchyard-Embed-Ms".
Definition HeaderRouteTier : string := "X-Switchyard-Route-Tier".
Definition HeaderRouteReason : string := "X-Switchyard-Route-Reason".

Definition headers : Type := gmap string header_value.

Definition set_text (name value : string) (h : headers) : headers := <[name := HText value]> h.

Definition applyHeaders (now : Z) (m : requestMetrics) (h : headers) : headers :=
  let h := if bool_decide (mt_providerName m ≠ ""%string)
           then set_text HeaderProvider (mt_providerName m) h else h in
  let h := if bool_decide (mt_requestedModel m ≠ ""%string)
           then set_text HeaderRequestedModel (mt_requestedModel m) h else h in
  let h := if bool_decide (mt_servedModel m ≠ ""%string)
           then set_text HeaderFallback (if mt_fellBack m then "true" else "false")
                  (set_text HeaderServedModel (mt_servedModel m) h) else h in
  let h := if bool_decide (mt_routedTier m ≠ ""%string)
           then set_text HeaderRouteReason (mt_routeReason m)
                  (set_text HeaderRouteTier (mt_routedTier m) h) else h in
  let h := if bool_decide (mt_cacheTier m ≠ ""%string)
           then set_text HeaderCache (mt_cacheTier m) h else h in
  let h := if 0 <? mt_embedTime m
           then <[HeaderEmbedTime := HMillis (mt_embedTime m)]> h else h in
  <[HeaderOverhead := HMillis (overhead now m)]> h.

(** ** Request IDs *)

Definition maxRequestIDLen : Z := 64.

Definition id_byte (c : Ascii.ascii) : bool :=
  let b := byte c in
  ((97 <=? b) && (b <=? 122)) || ((65 <=? b) && (b <=? 90)) || ((48 <=? b) && (b <=? 57))
  || (b =? 45) || (b =? 95).

Fixpoint id_bytes (s : string) : bool :=
  match s with EmptyString => true | String c s' => id_byte c && id_bytes s' end.

Definition sanitizeRequestID (id : string) : string :=
  if bool_decide (id = ""%string) || (maxRequestIDLen <? Z.of_nat (String.length id)) then ""
  else if id_bytes id then id else "".

(** [newRequestID]: sixteen random bytes in hexadecimal. *)
Definition newRequestID (random16 : string) : string := hex_encode random16.

Definition RequestID (header random16 : string) : string :=
  let id := sanitizeRequestID header in
  if bool_decide (id = ""%string) then newRequestID random16 else id.

(** ** Pricing *)

Section pricing.
Context (calc : Cost.Calculator).

Definition recordRoutingSavings (m : requestMetrics) (usage : Usage) : requestMetrics :=
  if bool_decide (mt_routedTier m = ""%string) || bool_decide (mt_routeBaselineModel m = ""%string) then m
  else match Cost.Cost calc (mt_routeBaselineModel m) (u_InputTokens usage) (u_OutputTokens usage) with
       | Err _ => m
       | Ok baseline =>
           m_priced (mt_costMicros m) (Some (wrap64 (baseline - mt_costMicros m)))
             (mt_fallbackCostDeltaMicros m) m
       end.

(** [None] is a request whose context carries no metrics. *)
Definition recordCost (m : option requestMetrics) (model : string) (usage : Usage) : option requestMetrics :=
  match m with
  | None => None
  | Some m =>
      match Cost.Cost calc model (u_InputTokens usage) (u_OutputTokens usage) with
      | Err _ => Some m
      | Ok cost =>
          let m := m_priced cost (mt_routingSavingsMicros m) (mt_fallbackCostDeltaMicros m) m in
          let m := recordRoutingSavings m usage in
          let baseline := baselineModel m in
          if mt_fellBack m && bool_decide (baseline ≠ ""%string) && bool_decide (baseline ≠ model)
          then match Cost.Cost calc baseline (u_InputTokens usage) (u_OutputTokens usage) with
               | Err _ => Some m
               | Ok want => Some (m_priced (mt_costMicros m) (mt_routingSavingsMicros m)
                                    (Some (wrap64 (cost - want))) m)
               end
          else Some m
      end
  end.

(** ** What pricing reports *)

Lemma recordRoutingSavings_cost m usage : mt_costMicros (recordRoutingSavings m usage) = mt_costMicros m.
Proof. unfold recordRoutingSavings. repeat case_match; done. Qed.

Definition priced (model : string) (u : Usage) : option Z :=
  match Cost.Cost calc model (u_InputTokens u) (u_OutputTokens u) with Ok c => Some c | Err _ => None end.

(** The cost is the served model's price of the usage, or what it was when the
    model has none. *)
Lemma recordCost_cost m model usage :
  ∃ m', recordCost (Some m) model usage = Some m' ∧
    mt_costMicros m' = default (mt_costMicros m) (priced model usage).
Proof.
  unfold recordCost, priced. destruct (Cost.Cost calc model _ _) as [cost|e]; [|by exists m].
  assert (∀ m2, mt_costMicros (recordRoutingSavings (m_priced cost m2 (mt_fallbackCostDeltaMicros m) m) usage) = cost)
    as Hc by (intros; by rewrite recordRoutingSavings_cost).
  simpl. repeat case_match; eexists; (split; [reflexivity|]); simpl; apply Hc.
Qed.
End pricing.

(** An ID that reaches the logs is short and made of letters, digits, dashes
    and underscores only; a caller's own ID with those properties is kept. *)
Lemma hex_encode_id s : id_bytes (hex_encode s) = true ∧ String.length (hex_encode s) = (2 * String.length s)%nat.
Proof.
  assert (∀ d, 0 ≤ d < 16 → id_byte (hex_digit d) = true) as Hd.
  { intros d Hd. unfold id_byte, hex_digit. rewrite byte_chr by (destruct (Z.ltb_spec d 10); lia).
    rewrite !orb_true_iff, !andb_true_iff. destruct (Z.ltb_spec d 10); lia. }
  induction s as [|c s [IH1 IH2]]; [done|]. simpl. pose proof (byte_range c).
  rewrite !Hd, IH1, IH2 by (Z.to_euclidean_division_equations; lia). split; [done|lia].
Qed.

Lemma RequestID_safe header random16 :
  String.length random16 = 16%nat →
  let id := RequestID header random16 in
  id_bytes id = true ∧ 0 < Z.of_nat (String.length id) ≤ maxRequestIDLen ∧
  (sanitizeRequestID header = header → header ≠ ""%string → id = header).
Proof.
  intros Hr id. subst id. unfold RequestID, newRequestID, maxRequestIDLen.
  destruct (hex_encode_id random16) as [H1 H2]. rewrite Hr in H2.
  case_bool_decide as Hs.
  - rewrite H1, H2. split_and!; [done|lia|lia|]. intros Hh Hne. by rewrite Hh in Hs.
  - assert (sanitizeRequestID header = header ∧ id_bytes header = true ∧
      Z.of_nat (String.length header) ≤ 64) as (-> & Hb & Hl).
    { unfold sanitizeRequestID, maxRequestIDLen in *.
      destruct (bool_decide (header = ""%string) || _) eqn:He; [done|].
      apply orb_false_iff in He as [_ He%Z.ltb_ge]. destruct (id_bytes header) eqn:Hb; done. }
    split_and!; try done. destruct header; [done|simpl; lia].
Qed.
