(* ===== verification/RateLimit.v ===== *)
(** * internal/ratelimit/bucket.go: the token bucket

    The two Lua scripts, [Consume], [Reserve] and [Reconcile], and the 429
    helpers of internal/proxy/ratelimit.go.  Redis's clock is read in
    microseconds ([TIME]) and expires keys in milliseconds.  Arithmetic is
    exact except where the scripts print a number with Lua's [tostring]: that
    round trip is the interface [LuaNumber]. *)

From S2P Require Import Prelude Redis Rational.
Open Scope Z_scope.

(** Lua prints a number with the format [%.14g]: fourteen significant decimal
    digits.  [lua_print x] is [tonumber(tostring(x))]. *)
Class LuaNumber := {
  lua_print : Q → Q;
  lua_print_mono x y : (x <= y)%Q → (lua_print x <= lua_print y)%Q;
  lua_print_int n : 0 ≤ n < 10 ^ 14 → (lua_print (inject_Z n) == inject_Z n)%Q;
  lua_print_err x : (0 <= x)%Q → (Qabs (lua_print x - x) <= x * (5 # 100000000000000))%Q
}.

Inductive LimitType := RPM | TPM.

#[export] Instance LimitType_eq_dec : EqDecision LimitType.
Proof. solve_decision. Defined.

Definition LimitType_string (k : LimitType) : string :=
  match k with RPM => "rpm" | TPM => "tpm" end.

Definition keyPrefix : string := "switchyard:rl".

Definition bucketKey (teamID : string) (kind : LimitType) : string :=
  (keyPrefix ++ ":" ++ teamID ++ ":" ++ LimitType_string kind)%string.

(** [Remaining] is a float, [RetryAfter] a duration. *)
Record Result := { Allowed : bool; Remaining : Q; RetryAfter : Z }.

Inductive limit_error :=
| CapacityNotPositive (n : Z) | AmountNotPositive (n : Z) | TTLNotPositive (n : Z)
| ActualNegative (n : Z) | RedisError.

(** The hash of one bucket, as the scripts stored it. *)
Record bucket := { b_tokens : Q; b_ts : Q }.

Record Reservation := {
  rv_teamID : string; rv_kind : LimitType; rv_capacity : Z; rv_reserved : Z; rv_ttl : Z }.

(** Redis's [TIME] in microseconds: the seconds the scripts compute, and the
    millisecond the key deadlines are compared with. *)
Definition luaNow (t : Z) : Q := t # 1000000.
Definition ms (t : Z) : Z := t / 1000.

Definition refillPerSecond (capacityPerMinute : Z) : Q := capacityPerMinute # 60.

(** The lazy refill both scripts start with. *)
Definition refill (capacity rate now : Q) (stored : option bucket) : Q :=
  let '(tokens, ts) := match stored with
                       | None => (capacity, now)
                       | Some b => (b_tokens b, b_ts b)
                       end in
  let elapsed := (now - ts)%Q in
  if Qltb 0 elapsed then Qmin capacity (tokens + elapsed * rate) else tokens.

Section limiter.
Context {db} `{!Redis bucket db} `{!LuaNumber}.

(** [HMSET] of the printed balance and clock, then [PEXPIRE]. *)
Definition store_bucket (t : Z) (key : string) (tokens : Q) (ttl_ms : Z) (d : db) : db :=
  rpexpire (ms t) key ttl_ms
    (rput (ms t) key {| b_tokens := lua_print tokens; b_ts := lua_print (luaNow t) |} d).

Definition consumeScript (t : Z) (key : string) (capacity rate requested : Q) (ttl_ms : Z)
    (d : db) : option (Z * Q * Q) * db :=
  let tokens := refill capacity rate (luaNow t) (rget (ms t) key d) in
  let '(allowed, tokens, retry_after) :=
    if Qle_bool requested tokens then (1, (tokens - requested)%Q, 0%Q)
    else (0, tokens, ((requested - tokens) / rate)%Q) in
  (Some (allowed, lua_print tokens, lua_print retry_after),
   store_bucket t key tokens ttl_ms d).

Definition settleScript (t : Z) (key : string) (capacity rate delta : Q) (ttl_ms : Z)
    (d : db) : option Q * db :=
  let tokens := refill capacity rate (luaNow t) (rget (ms t) key d) in
  let tokens := Qmin capacity (tokens + delta) in
  (Some (lua_print tokens), store_bucket t key tokens ttl_ms d).

Definition Consume (t : Z) (f : net_fate) (teamID : string) (kind : LimitType)
    (capacityPerMinute amount ttl : Z) (d : db) : result limit_error Result * db :=
  if capacityPerMinute <=? 0 then (Err (CapacityNotPositive capacityPerMinute), d)
  else if amount <=? 0 then (Err (AmountNotPositive amount), d)
  else if ttl <=? 0 then (Err (TTLNotPositive ttl), d)
  else
    match round_trip f (consumeScript t (bucketKey teamID kind) (inject_Z capacityPerMinute)
            (refillPerSecond capacityPerMinute) (inject_Z amount) (Z.quot ttl millisecond)) d with
    | (None, d') => (Err RedisError, d')
    | (Some (allowed, remaining, retryAfter), d') =>
        (Ok {| Allowed := allowed =? 1; Remaining := remaining;
               RetryAfter := Qtrunc (retryAfter * inject_Z second) |}, d')
    end.

Definition Reserve (t : Z) (f : net_fate) (teamID : string) (kind : LimitType)
    (capacityPerMinute amount ttl : Z) (d : db)
    : result limit_error (option Reservation * Result) * db :=
  match Consume t f teamID kind capacityPerMinute amount ttl d with
  | (Err e, d') => (Err e, d')
  | (Ok res, d') =>
      if negb (Allowed res) then (Ok (None, res), d')
      else (Ok (Some {| rv_teamID := teamID; rv_kind := kind; rv_capacity := capacityPerMinute;
                        rv_reserved := amount; rv_ttl := ttl |}, res), d')
  end.

Definition Reconcile (t : Z) (f : net_fate) (r : option Reservation) (actual : Z) (d : db)
    : option limit_error * db :=
  match r with
  | None => (None, d)
  | Some r =>
      if actual <? 0 then (Some (ActualNegative actual), d)
      else
        let delta := wrap64 (rv_reserved r - actual) in
        if delta =? 0 then (None, d)
        else match round_trip f (settleScript t (bucketKey (rv_teamID r) (rv_kind r))
                     (inject_Z (rv_capacity r)) (refillPerSecond (rv_capacity r))
                     (inject_Z delta) (Z.quot (rv_ttl r) millisecond)) d with
             | (Some _, d') => (None, d')
             | (None, d') => (Some RedisError, d')
             end
  end.

Definition Reserved (r : option Reservation) : Z :=
  match r with None => 0 | Some r => rv_reserved r end.

(** ** The level of a bucket *)

(** The tokens a call at [t] would find. *)
Definition level (capacity : Z) (key : string) (t : Z) (d : db) : Q :=
  refill (inject_Z capacity) (refillPerSecond capacity) (luaNow t) (rget (ms t) key d).

(** Every stored balance of the bucket from [t] on is between zero and the
    capacity. *)
Definition bucket_ok (capacity : Z) (key : string) (t : Z) (d : db) : Prop :=
  ∀ t' b, t ≤ t' → rget (ms t') key d = Some b →
    (0 <= b_tokens b)%Q ∧ (b_tokens b <= inject_Z capacity)%Q.

Lemma ms_mono t t' : t ≤ t' → ms t ≤ ms t'.
Proof. intros. unfold ms. by apply Z.div_le_mono. Qed.

Lemma luaNow_mono t t' : t ≤ t' → (luaNow t <= luaNow t')%Q.
Proof. intros. unfold luaNow, Qle. simpl. lia. Qed.

Lemma refillPerSecond_pos capacity : 0 < capacity → (0 < refillPerSecond capacity)%Q.
Proof. intros. unfold refillPerSecond, Qlt. simpl. lia. Qed.

Lemma refill_range (capacity rate now : Q) stored :
  (0 <= capacity)%Q → (0 <= rate)%Q →
  match stored with
  | Some b => (0 <= b_tokens b)%Q ∧ (b_tokens b <= capacity)%Q
  | None => True
  end →
  (0 <= refill capacity rate now stored)%Q ∧ (refill capacity rate now stored <= capacity)%Q.
Proof.
  intros Hc Hr Hs. unfold refill.
  destruct stored as [b|]; [destruct Hs as [H0 H1]|];
    match goal with |- context [Qltb ?a ?b] => destruct (Qltb a b) eqn:He end; try (split; lra).
  - apply Qltb_spec in He. split; [|apply Q.le_min_l].
    apply Q.min_glb; [done|]. nra.
  - apply Qltb_spec in He. split; [|apply Q.le_min_l].
    apply Q.min_glb; [done|]. nra.
Qed.

Lemma level_range capacity key t d :
  0 < capacity → bucket_ok capacity key t d →
  (0 <= level capacity key t d)%Q ∧ (level capacity key t d <= inject_Z capacity)%Q.
Proof.
  intros Hc Hok. apply refill_range.
  - apply inject_Z_nonneg. lia.
  - apply Qlt_le_weak, refillPerSecond_pos. done.
  - destruct (rget (ms t) key d) as [b|] eqn:Hb; [|done]. by apply (Hok t b).
Qed.

Lemma store_bucket_get t t' key tokens ttl d :
  t ≤ t' →
  rget (ms t') key (store_bucket t key tokens ttl d) =
    if ms t' <? ms t + ttl
    then Some {| b_tokens := lua_print tokens; b_ts := lua_print (luaNow t) |} else None.
Proof.
  intros Ht. unfold store_bucket. rewrite rget_pexpire by (by apply ms_mono).
  by rewrite rget_put_eq.
Qed.

Lemma store_bucket_ok capacity t key tokens ttl d :
  0 < capacity < 10 ^ 14 → (0 <= tokens)%Q → (tokens <= inject_Z capacity)%Q →
  bucket_ok capacity key t (store_bucket t key tokens ttl d).
Proof.
  intros Hc H0 H1 t' b Ht. rewrite store_bucket_get by done.
  case_match; [|done]. intros [= <-]. simpl.
  split.
  - rewrite <- (lua_print_int 0) by lia. by apply lua_print_mono.
  - rewrite <- (lua_print_int capacity) by lia. by apply lua_print_mono.
Qed.

(** Settlements may leave a debt, so from below there is no bound: every
    stored balance of the bucket from [t] on is at most the capacity. *)
Definition bucket_below (capacity : Z) (key : string) (t : Z) (d : db) : Prop :=
  ∀ t' b, t ≤ t' → rget (ms t') key d = Some b → (b_tokens b <= inject_Z capacity)%Q.

Lemma store_bucket_below capacity t key tokens ttl d :
  0 < capacity < 10 ^ 14 → (tokens <= inject_Z capacity)%Q →
  bucket_below capacity key t (store_bucket t key tokens ttl d).
Proof.
  intros Hc H1 t' b Ht. rewrite store_bucket_get by done.
  case_match; [|done]. intros [= <-]. simpl.
  rewrite <- (lua_print_int capacity) by lia. by apply lua_print_mono.
Qed.

Lemma level_below capacity key t d :
  0 < capacity → bucket_below capacity key t d → (level capacity key t d <= inject_Z capacity)%Q.
Proof.
  intros Hc Hok. unfold level, refill.
  destruct (rget (ms t) key d) as [b|] eqn:Hb;
    match goal with |- context [Qltb ?a ?b] => destruct (Qltb a b) eqn:He end;
    try apply Q.le_min_l; [by apply (Hok t b)|lra].
Qed.

Lemma refill_mono (capacity rate now : Q) x y ts :
  (x <= y)%Q →
  (refill capacity rate now (Some {| b_tokens := x; b_ts := ts |})
    <= refill capacity rate now (Some {| b_tokens := y; b_ts := ts |}))%Q.
Proof.
  intros Hxy. unfold refill. simpl. destruct (Qltb _ _); [|done].
  apply Q.min_le_compat_l. lra.
Qed.

Lemma refill_None (capacity rate now : Q) : refill capacity rate now None = capacity.
Proof.
  unfold refill. destruct (Qltb 0 (now - now)) eqn:He; [|done].
  apply Qltb_spec in He. exfalso. lra.
Qed.

Lemma refillPerSecond_minute capacity : (refillPerSecond capacity * 60 == inject_Z capacity)%Q.
Proof. unfold refillPerSecond, inject_Z, Qmult, Qeq. simpl. lia. Qed.

(** A key that outlived its deadline was untouched for more than a minute. *)
Lemma expired_elapsed t t' ttl :
  61000 ≤ ttl → ms t + ttl ≤ ms t' → (60 <= luaNow t' - luaNow t)%Q.
Proof.
  unfold ms, luaNow. intros Httl Hms.
  assert (60000000 ≤ t' - t) as Hd.
  { pose proof (Z.div_mod t 1000). pose proof (Z.mod_pos_bound t 1000).
    pose proof (Z.div_mod t' 1000). pose proof (Z.mod_pos_bound t' 1000). lia. }
  unfold Qle, Qminus, Qplus, Qopp. simpl. lia.
Qed.

(** What printing can add to a balance between two calls. *)
Definition print_slack (capacity Tmax : Z) : Q :=
  (inject_Z capacity + refillPerSecond capacity * luaNow Tmax) * (5 # 100000000000000).

(** The level at [t'] of a bucket that held [tokens] at [t]. *)
Lemma level_after capacity key tokens ttl t t' Tmax d :
  0 < capacity → 61000 ≤ ttl → 0 ≤ t → t ≤ t' → t' ≤ Tmax →
  (0 <= tokens)%Q → (tokens <= inject_Z capacity)%Q →
  (level capacity key t' (store_bucket t key tokens ttl d)
     <= tokens + refillPerSecond capacity * (luaNow t' - luaNow t)
        + print_slack capacity Tmax)%Q.
Proof.
  intros Hc Httl H0 Ht HT Hk0 Hk1. unfold level, print_slack.
  pose proof (refillPerSecond_pos capacity Hc) as Hr.
  pose proof (luaNow_mono _ _ Ht) as Hnow. pose proof (luaNow_mono _ _ HT) as HnowT.
  pose proof (luaNow_mono 0 t H0) as Hn0. change (luaNow 0) with (0 # 1000000) in Hn0.
  assert (0 <= luaNow t)%Q as Hn by lra.
  rewrite store_bucket_get by done. destruct (Z.ltb_spec (ms t') (ms t + ttl)) as [Hl|Hl].
  - pose proof (lua_print_err _ Hk0) as Ek%Qabs_Qle_condition.
    pose proof (lua_print_err _ Hn) as En%Qabs_Qle_condition.
    unfold refill. simpl.
    set (u := (5 # 100000000000000)%Q) in *. assert (0 < u)%Q as Hu by done.
    assert (lua_print tokens <= tokens + inject_Z capacity * u)%Q as E1 by nra.
    assert (luaNow t' - lua_print (luaNow t) <= luaNow t' - luaNow t + luaNow Tmax * u)%Q as E2 by nra.
    destruct (Qltb 0 _).
    + eapply Qle_trans; [apply Q.le_min_r|].
      apply (Qmult_le_compat_r _ _ (refillPerSecond capacity)) in E2; lra.
    + assert (0 <= refillPerSecond capacity * (luaNow t' - luaNow t))%Q by nra.
      assert (0 <= refillPerSecond capacity * luaNow Tmax * u)%Q by (repeat apply Qmult_le_0_compat; lra). lra.
  - rewrite refill_None. pose proof (expired_elapsed _ _ _ Httl Hl) as H60.
    pose proof (refillPerSecond_minute capacity) as Hm.
    assert (inject_Z capacity <= refillPerSecond capacity * (luaNow t' - luaNow t))%Q by nra.
    assert (0 <= inject_Z capacity)%Q by (apply inject_Z_nonneg; lia).
    assert (0 <= refillPerSecond capacity * luaNow Tmax)%Q by nra. lra.
Qed.

(** What a bucket has to give: a debt gives nothing. *)
Definition usable (q : Q) : Q := Qmax 0 q.

Lemma usable_cases q : ((0 <= q)%Q ∧ (usable q == q)%Q) ∨ ((q <= 0)%Q ∧ (usable q == 0)%Q).
Proof. unfold usable. destruct (Q.max_spec 0 q) as [[? ?]|[? ?]]; [left|right]; split; lra || done. Qed.

Lemma usable_after capacity key tokens ttl t t' Tmax d :
  0 < capacity → 61000 ≤ ttl → 0 ≤ t → t ≤ t' → t' ≤ Tmax → (tokens <= inject_Z capacity)%Q →
  (usable (level capacity key t' (store_bucket t key tokens ttl d))
     <= usable tokens + refillPerSecond capacity * (luaNow t' - luaNow t)
        + print_slack capacity Tmax)%Q.
Proof.
  intros Hc Httl H0 Ht HT Hk1.
  assert (0 <= inject_Z capacity)%Q as Hcap by (apply inject_Z_nonneg; lia).
  assert (0 <= usable tokens)%Q as Hu0 by (apply Q.le_max_l).
  assert (usable tokens <= inject_Z capacity)%Q as Hu1 by (by apply Q.max_lub).
  pose proof (level_after capacity key (usable tokens) ttl t t' Tmax d Hc Httl H0 Ht HT Hu0 Hu1) as Ha.
  assert (level capacity key t' (store_bucket t key tokens ttl d)
    <= level capacity key t' (store_bucket t key (usable tokens) ttl d))%Q as Hle.
  { unfold level. rewrite !store_bucket_get by done. case_match; [|apply Qle_refl].
    apply refill_mono, lua_print_mono, Q.le_max_r. }
  pose proof (refillPerSecond_pos capacity Hc) as Hr. pose proof (luaNow_mono _ _ Ht) as Hnow.
  pose proof (luaNow_mono 0 Tmax ltac:(lia)) as HnT. change (luaNow 0) with (0 # 1000000) in HnT.
  assert (0 <= print_slack capacity Tmax)%Q as Hs by (unfold print_slack; nra).
  apply Q.max_lub; [|lra]. nra.
Qed.

(** ** The rate a bucket enforces

    Requests of every replica interleave whole scripts, so the history of a
    bucket is a sequence of [Consume] calls and settlements, each under its
    own fate.  [bs_net] is what the bucket admitted, less what settlements
    gave back, a settlement counted as often as it ran; a settlement above the
    reservation only takes, and is not counted.  [bs_ops] counts the runs. *)
Record bstate := { bs_t : Z; bs_db : db; bs_net : Z; bs_ops : Z }.

Definition admitted_amount (r : result limit_error Result) (amount : Z) : Z :=
  match r with Ok res => if Allowed res then amount else 0 | Err _ => 0 end.

Inductive bstep (teamID : string) (kind : LimitType) (capacity ttl Tmax : Z)
    : bstate → bstate → Prop :=
| BConsume s t f amount :
    bs_t s ≤ t ≤ Tmax →
    bstep teamID kind capacity ttl Tmax s
      {| bs_t := t; bs_db := (Consume t f teamID kind capacity amount ttl (bs_db s)).2;
         bs_net := bs_net s
           + admitted_amount (Consume t f teamID kind capacity amount ttl (bs_db s)).1 amount;
         bs_ops := bs_ops s + Z.of_nat (runs f) |}
| BSettle s t f reserved actual :
    bs_t s ≤ t ≤ Tmax → 0 ≤ actual ≤ int64_max → 0 ≤ reserved ≤ int64_max →
    bstep teamID kind capacity ttl Tmax s
      {| bs_t := t;
         bs_db := (Reconcile t f
           (Some {| rv_teamID := teamID; rv_kind := kind; rv_capacity := capacity;
                    rv_reserved := reserved; rv_ttl := ttl |}) actual (bs_db s)).2;
         bs_net := bs_net s - Z.of_nat (runs f) * Z.max 0 (reserved - actual);
         bs_ops := bs_ops s + Z.of_nat (runs f) |}.

(** Since an earlier state of the history, at [t0] with [n0] admitted by [k0]
    runs. *)
Record binv (capacity : Z) (key : string) (t0 n0 k0 Tmax : Z) (s : bstate) : Prop := {
  bi_t : t0 ≤ bs_t s;
  bi_ok : bucket_below capacity key (bs_t s) (bs_db s);
  bi_level t' : bs_t s ≤ t' ≤ Tmax →
    (usable (level capacity key t' (bs_db s)) + inject_Z (bs_net s - n0)
      <= inject_Z capacity + refillPerSecond capacity * (luaNow t' - luaNow t0)
         + inject_Z (bs_ops s - k0) * print_slack capacity Tmax)%Q
}.

Lemma print_slack_nonneg capacity Tmax :
  0 < capacity → 0 ≤ Tmax → (0 <= print_slack capacity Tmax)%Q.
Proof.
  intros Hc HT. unfold print_slack.
  pose proof (refillPerSecond_pos capacity Hc). pose proof (luaNow_mono 0 Tmax HT) as Hn.
  change (luaNow 0) with (0 # 1000000) in Hn.
  assert (0 <= inject_Z capacity)%Q by (apply inject_Z_nonneg; lia). nra.
Qed.

(** A script that leaves [tokens], having found at least [x] more usable,
    moves the history on by [x]. *)
Lemma binv_store capacity key ttl t0 n0 k0 Tmax s t tokens x :
  0 < capacity < 10 ^ 14 → 61000 ≤ ttl → 0 ≤ t0 → bs_t s ≤ t ≤ Tmax →
  binv capacity key t0 n0 k0 Tmax s → (tokens <= inject_Z capacity)%Q →
  (usable tokens + inject_Z x <= usable (level capacity key t (bs_db s)))%Q →
  binv capacity key t0 n0 k0 Tmax
    {| bs_t := t; bs_db := store_bucket t key tokens ttl (bs_db s);
       bs_net := bs_net s + x; bs_ops := bs_ops s + 1 |}.
Proof.
  intros Hc Httl H0 Ht [Hi Hok Hlvl] Hk1 Hx. split; simpl.
  - lia.
  - by apply store_bucket_below.
  - intros t' Ht'.
    pose proof (usable_after capacity key tokens ttl t t' Tmax (bs_db s)) as Ha.
    specialize (Ha ltac:(lia) Httl ltac:(lia) ltac:(lia) ltac:(lia) Hk1).
    specialize (Hlvl t ltac:(lia)).
    replace (bs_net s + x - n0) with (bs_net s - n0 + x) by lia.
    replace (bs_ops s + 1 - k0) with (bs_ops s - k0 + 1) by lia.
    rewrite (inject_Z_plus _ x), (inject_Z_plus _ 1). change (inject_Z 1) with 1%Q.
    set (sl := print_slack capacity Tmax) in *. clearbody sl. lra.
Qed.

Lemma binv_idle capacity key t0 n0 k0 Tmax s t x n :
  0 < capacity → 0 ≤ t0 → bs_t s ≤ t ≤ Tmax → x ≤ 0 → 0 ≤ n →
  binv capacity key t0 n0 k0 Tmax s →
  binv capacity key t0 n0 k0 Tmax
    {| bs_t := t; bs_db := bs_db s; bs_net := bs_net s + x; bs_ops := bs_ops s + n |}.
Proof.
  intros Hc H0 Ht Hx Hn [Hi Hok Hlvl]. split; simpl; [lia|intros t' b ?; apply Hok; lia|].
  intros t' Ht'. specialize (Hlvl t' ltac:(lia)).
  pose proof (print_slack_nonneg capacity Tmax Hc ltac:(lia)) as Hsl.
  replace (bs_net s + x - n0) with (bs_net s - n0 + x) by lia.
  replace (bs_ops s + n - k0) with (bs_ops s - k0 + n) by lia.
  rewrite (inject_Z_plus _ x), (inject_Z_plus _ n).
  apply (inject_Z_le x 0) in Hx. change (inject_Z 0) with 0%Q in Hx. apply inject_Z_nonneg in Hn.
  pose proof (Qmult_le_0_compat _ _ Hn Hsl).
  set (sl := print_slack capacity Tmax) in *. clearbody sl. lra.
Qed.

(** What [consumeScript] leaves in the bucket, and whether it admitted. *)
Definition consume_tokens (capacity amount : Z) (l : Q) : Q :=
  if Qle_bool (inject_Z amount) l then (l - inject_Z amount)%Q else l.

Definition gain (amount : Z) (l : Q) : Z := if Qle_bool (inject_Z amount) l then amount else 0.

Lemma consumeScript_level t key capacity amount ttl d :
  ∃ remaining retry,
  consumeScript t key (inject_Z capacity) (refillPerSecond capacity) (inject_Z amount) ttl d =
    (Some (if Qle_bool (inject_Z amount) (level capacity key t d) then 1 else 0,
           remaining, retry),
     store_bucket t key (consume_tokens capacity amount (level capacity key t d)) ttl d).
Proof.
  unfold consumeScript, consume_tokens, level. simpl.
  destruct (Qle_bool (inject_Z amount) _); eauto.
Qed.

(** [Consume] in runs: none when it is refused at once, else as many as its
    fate has, the last of which may be the one that answers. *)
Lemma Consume_cases t f teamID kind capacity amount ttl d :
  let key := bucketKey teamID kind in
  let run d := store_bucket t key (consume_tokens capacity amount (level capacity key t d))
                 (Z.quot ttl millisecond) d in
  0 < capacity → 0 < ttl →
  (∃ e, Consume t f teamID kind capacity amount ttl d = (Err e, d)) ∨
  (0 < amount ∧ (Consume t f teamID kind capacity amount ttl d).2 = Nat.iter (runs f) run d ∧
   admitted_amount (Consume t f teamID kind capacity amount ttl d).1 amount =
     match f with
     | Replied => gain amount (level capacity key t d)
     | Retried => gain amount (level capacity key t (run d))
     | _ => 0
     end).
Proof.
  intros key run Hc Httl. unfold Consume.
  destruct (Z.leb_spec capacity 0); [lia|]. destruct (Z.leb_spec amount 0) as [|Ha]; [eauto|].
  destruct (Z.leb_spec ttl 0); [lia|]. fold key. right. split; [done|].
  destruct (consumeScript_level t key capacity amount (Z.quot ttl millisecond) d)
    as (remaining & retry & Hs). fold (run d) in Hs.
  destruct (consumeScript_level t key capacity amount (Z.quot ttl millisecond) (run d))
    as (remaining' & retry' & Hs'). fold (run (run d)) in Hs'. clearbody run.
  destruct f; cbn [round_trip]; rewrite ?Hs; cbn [fst snd]; rewrite ?Hs'; split; try done;
    unfold admitted_amount, gain; simpl; clear Hs Hs'; try by destruct (Qle_bool _ _).
Qed.

Lemma usable_consume capacity amount l :
  0 < amount → (l <= inject_Z capacity)%Q →
  (consume_tokens capacity amount l <= inject_Z capacity)%Q ∧
  (usable (consume_tokens capacity amount l) + inject_Z (gain amount l) <= usable l)%Q ∧
  (usable (consume_tokens capacity amount l) + inject_Z 0 <= usable l)%Q.
Proof.
  intros Ha%inject_Z_pos H1. unfold consume_tokens, gain. change (inject_Z 0) with 0%Q.
  destruct (Qle_bool (inject_Z amount) l) eqn:He.
  - apply Qle_bool_iff in He. destruct (usable_cases l) as [[? ->]|[? ->]], (usable_cases (l - inject_Z amount))
      as [[? ->]|[? ->]]; split_and!; lra.
  - split_and!; try lra; change (inject_Z 0) with 0%Q; lra.
Qed.

Lemma usable_refund capacity delta l :
  0 < capacity → (usable (Qmin (inject_Z capacity) (l + inject_Z delta)) + inject_Z (- Z.max 0 delta) <= usable l)%Q.
Proof.
  intros Hc. rewrite inject_Z_opp. pose proof (Q.le_min_r (inject_Z capacity) (l + inject_Z delta)) as Hm.
  set (m := Qmin _ _) in *.
  assert (inject_Z delta <= inject_Z (Z.max 0 delta))%Q as Hd by (apply inject_Z_le; lia).
  assert (0 <= inject_Z (Z.max 0 delta))%Q as Hp by (apply inject_Z_nonneg; lia).
  destruct (usable_cases m) as [[? ->]|[? ->]], (usable_cases l) as [[? ->]|[? ->]]; lra.
Qed.

(** A settlement that has something to move leaves, at each run,
    [min capacity (level + delta)]. *)
Lemma Reconcile_cases t f teamID kind capacity reserved actual ttl d :
  let key := bucketKey teamID kind in
  let r := {| rv_teamID := teamID; rv_kind := kind; rv_capacity := capacity;
              rv_reserved := reserved; rv_ttl := ttl |} in
  0 ≤ actual ≤ int64_max → 0 ≤ reserved ≤ int64_max →
  (Reconcile t f (Some r) actual d).2 =
    if decide (reserved = actual) then d
    else Nat.iter (runs f) (λ d, store_bucket t key
           (Qmin (inject_Z capacity) (level capacity key t d + inject_Z (reserved - actual)))
           (Z.quot ttl millisecond) d) d.
Proof.
  intros key r Ha Hr. unfold Reconcile. simpl. destruct (Z.ltb_spec actual 0); [lia|].
  rewrite wrap64_id by (unfold in_int64, int64_min, int64_max in *; lia).
  destruct (Z.eqb_spec (reserved - actual) 0) as [Hz|Hz].
  - rewrite decide_True by lia. done.
  - rewrite decide_False by lia. by destruct f.
Qed.

(** The same script run several times at one instant. *)
Lemma binv_runs capacity key ttl t0 n0 k0 Tmax s t (tokens : db → Q) x n :
  0 < capacity < 10 ^ 14 → 61000 ≤ ttl → 0 ≤ t0 → bs_t s ≤ t ≤ Tmax →
  (∀ d, (level capacity key t d <= inject_Z capacity)%Q →
     (tokens d <= inject_Z capacity)%Q ∧
     (usable (tokens d) + inject_Z x <= usable (level capacity key t d))%Q) →
  binv capacity key t0 n0 k0 Tmax s → (0 < n)%nat →
  binv capacity key t0 n0 k0 Tmax
    {| bs_t := t; bs_db := Nat.iter n (λ d, store_bucket t key (tokens d) ttl d) (bs_db s);
       bs_net := bs_net s + Z.of_nat n * x; bs_ops := bs_ops s + Z.of_nat n |}.
Proof.
  intros Hc Httl H0 Ht Hrun Hinv Hn. induction n as [|n IH]; [lia|].
  assert (binv capacity key t0 n0 k0 Tmax
    {| bs_t := if n then bs_t s else t; bs_db := Nat.iter n (λ d, store_bucket t key (tokens d) ttl d) (bs_db s);
       bs_net := bs_net s + Z.of_nat n * x; bs_ops := bs_ops s + Z.of_nat n |}) as Hs.
  { destruct n as [|n]; [|apply IH; lia]. simpl. destruct s; simpl in *. by rewrite !Z.add_0_r. }
  set (s' := {| bs_t := _ |}) in Hs.
  assert (bs_t s' ≤ t) as Ht' by (simpl; destruct n; lia).
  replace (bs_net s + Z.of_nat (S n) * x) with (bs_net s' + x) by (simpl bs_net; lia).
  replace (bs_ops s + Z.of_nat (S n)) with (bs_ops s' + 1) by (simpl bs_ops; lia).
  destruct (Hrun (bs_db s')) as [H1 H2].
  { apply level_below; [lia|]. intros t' b ?. apply Hs. lia. }
  refine (binv_store capacity key ttl t0 n0 k0 Tmax s' t _ x Hc Httl H0 _ Hs H1 H2). lia.
Qed.

Lemma bstep_inv teamID kind capacity ttl t0 n0 k0 Tmax s s' :
  0 < capacity < 10 ^ 14 → 61000 ≤ Z.quot ttl millisecond → 0 < ttl → 0 ≤ t0 →
  bstep teamID kind capacity ttl Tmax s s' →
  binv capacity (bucketKey teamID kind) t0 n0 k0 Tmax s →
  binv capacity (bucketKey teamID kind) t0 n0 k0 Tmax s'.
Proof.
  intros Hc Hms Httl H0 Hstep Hinv. set (key := bucketKey teamID kind) in *.
  destruct Hstep as [s t f amount Ht|s t f reserved actual Ht Ha Hr].
  - destruct (Consume_cases t f teamID kind capacity amount ttl (bs_db s) (proj1 Hc) Httl)
      as [[e He]|(Hamt & Hd & Hg)].
    { rewrite He. simpl. apply binv_idle; [lia|done|done|lia|lia|done]. }
    rewrite Hd, Hg. fold key.
    set (tok := λ d, consume_tokens capacity amount (level capacity key t d)).
    assert (∀ d, (level capacity key t d <= inject_Z capacity)%Q →
      (tok d <= inject_Z capacity)%Q ∧ (usable (tok d) + inject_Z 0 <= usable (level capacity key t d))%Q) as Hlost
      by (intros d Hl; by destruct (usable_consume capacity amount _ Hamt Hl) as (? & _ & ?)).
    pose proof (λ n Hn, binv_runs capacity key _ t0 n0 k0 Tmax s t tok 0 n Hc Hms H0 Ht Hlost Hinv Hn) as Hruns.
    assert (∀ s1, binv capacity key t0 n0 k0 Tmax s1 → bs_t s1 ≤ t →
      binv capacity key t0 n0 k0 Tmax {| bs_t := t; bs_db := store_bucket t key (tok (bs_db s1)) (Z.quot ttl millisecond) (bs_db s1);
        bs_net := bs_net s1 + gain amount (level capacity key t (bs_db s1)); bs_ops := bs_ops s1 + 1 |}) as Hlast.
    { intros s1 Hs1 Ht1. assert (level capacity key t (bs_db s1) <= inject_Z capacity)%Q as Hl
        by (apply level_below; [lia|intros t' b ?; apply Hs1; lia]).
      destruct (usable_consume capacity amount _ Hamt Hl) as (? & ? & _).
      apply (binv_store capacity key _ t0 n0 k0 Tmax s1); done || lia. }
    destruct f; cbn [runs Nat.iter].
    + apply (Hlast s); [done|lia].
    + apply binv_idle; [lia|done|done|lia|lia|done].
    + exact (Hruns 1%nat ltac:(lia)).
    + specialize (Hruns 1%nat ltac:(lia)). simpl in Hruns. rewrite Z.add_0_r in Hruns.
      specialize (Hlast _ Hruns ltac:(simpl; lia)). simpl in Hlast. by rewrite <- Z.add_assoc in Hlast.
    + exact (Hruns 2%nat ltac:(lia)).
  - rewrite Reconcile_cases by done. fold key. case_decide as Hd.
    + replace (bs_net s - _) with (bs_net s + - (Z.of_nat (runs f) * Z.max 0 (reserved - actual))) by lia.
      apply binv_idle; [lia|done|done|lia|lia|done].
    + destruct (runs f) as [|n] eqn:Hf.
      { simpl. rewrite Z.sub_0_r. rewrite <- (Z.add_0_r (bs_net s)). apply binv_idle; [lia|done|done|lia|lia|done]. }
      replace (bs_net s - _) with (bs_net s + Z.of_nat (S n) * - Z.max 0 (reserved - actual)) by lia.
      apply binv_runs; [done|done|done|done| |done|lia].
      intros d _. split; [apply Q.le_min_l|]. apply usable_refund. lia.
Qed.

(** The start of any stretch of a history with a sound bucket. *)
Lemma binv_start capacity key Tmax s :
  0 < capacity → bucket_below capacity key (bs_t s) (bs_db s) →
  binv capacity key (bs_t s) (bs_net s) (bs_ops s) Tmax s.
Proof.
  intros Hc Hok. split; [lia|done|]. intros t' Ht'.
  assert (bucket_below capacity key t' (bs_db s)) as Hok' by (intros ? ? ?; apply Hok; lia).
  pose proof (level_below capacity key t' (bs_db s) Hc Hok') as Hl.
  rewrite !Z.sub_diag. change (inject_Z 0) with 0%Q.
  assert (0 <= inject_Z capacity)%Q by (apply inject_Z_nonneg; lia).
  assert (usable (level capacity key t' (bs_db s)) <= inject_Z capacity)%Q by (by apply Q.max_lub).
  pose proof (refillPerSecond_pos capacity Hc). pose proof (luaNow_mono (bs_t s) t' ltac:(lia)). nra.
Qed.

Lemma run_inv teamID kind capacity ttl t0 n0 k0 Tmax s s' :
  0 < capacity < 10 ^ 14 → 61000 ≤ Z.quot ttl millisecond → 0 < ttl → 0 ≤ t0 →
  rtc (bstep teamID kind capacity ttl Tmax) s s' →
  binv capacity (bucketKey teamID kind) t0 n0 k0 Tmax s →
  binv capacity (bucketKey teamID kind) t0 n0 k0 Tmax s'.
Proof. intros ? ? ? ?. induction 1; eauto using bstep_inv. Qed.

(** C17: the bucket enforces its rate over every stretch of time.  Starting
    from a bucket nobody has used, after any interleaving of [Consume] calls
    and settlements of any reserved and actual amounts by any number of
    replicas, each command lost on the way, run without a reply or run twice by
    the client's retry: between any two points of the history, what was admitted
    less what settlements gave back is at most one full bucket plus the refill of
    the time between them (plus the rounding of the numbers the scripts print,
    once per run).  A settlement counts as given back as often as it ran; one that
    costs more than was reserved is a debit, which may leave a debt and never
    raises the bound; idling, debts that expire and expired keys never buy a
    larger burst.  The capacity (below 10^14) and the key's lifetime (over a
    minute) stay as they are during the history. *)
Theorem bucket_rate_bound teamID kind capacity ttl t0 Tmax d s1 s2 :
  0 < capacity < 10 ^ 14 → 61000 ≤ Z.quot ttl millisecond → 0 < ttl → 0 ≤ t0 →
  (∀ t, rget t (bucketKey teamID kind) d = None) →
  rtc (bstep teamID kind capacity ttl Tmax)
    {| bs_t := t0; bs_db := d; bs_net := 0; bs_ops := 0 |} s1 →
  rtc (bstep teamID kind capacity ttl Tmax) s1 s2 →
  bs_t s2 ≤ Tmax →
  (inject_Z (bs_net s2 - bs_net s1)
    <= inject_Z capacity + refillPerSecond capacity * (luaNow (bs_t s2) - luaNow (bs_t s1))
       + inject_Z (bs_ops s2 - bs_ops s1) * print_slack capacity Tmax)%Q.
Proof.
  intros Hc Hms Httl H0 Hd Hrun1 Hrun2 HT. set (key := bucketKey teamID kind).
  set (s0 := {| bs_t := t0; bs_db := d; bs_net := 0; bs_ops := 0 |}) in Hrun1.
  assert (bucket_below capacity key t0 d) as Hok0 by (intros t' b _; by rewrite Hd).
  destruct (run_inv _ _ _ _ t0 0 0 _ _ _ Hc Hms Httl H0 Hrun1
    (binv_start capacity key Tmax s0 (proj1 Hc) Hok0)) as [Ht1 Hok1 _].
  assert (0 ≤ bs_t s1) as H1 by (etrans; eassumption).
  destruct (run_inv _ _ _ _ (bs_t s1) (bs_net s1) (bs_ops s1) _ _ _ Hc Hms Httl H1 Hrun2
    (binv_start capacity key Tmax s1 (proj1 Hc) Hok1)) as [Ht2 Hok2 Hlvl].
  specialize (Hlvl (bs_t s2) ltac:(lia)). fold key in Hlvl.
  pose proof (Q.le_max_l 0 (level capacity key (bs_t s2) (bs_db s2))) as Hl0. fold (usable (level capacity key (bs_t s2) (bs_db s2))) in Hl0.
  set (rhs := (_ + _ + _)%Q) in *. lra.
Qed.

(** ** Retry-After *)

Lemma luaNow_sub t t' : (luaNow t' - luaNow t == (t' - t) # 1000000)%Q.
Proof. unfold luaNow, Qminus, Qplus, Qopp, Qeq. simpl. lia. Qed.

(** A bucket left at [l] holds [l + need] once [need / rate] seconds and
    half a millisecond have passed. *)
Lemma level_refilled capacity key l need ttl t t' d :
  0 < capacity → 0 ≤ t ≤ 10 ^ 16 → t ≤ t' → (0 <= l)%Q → (l <= inject_Z capacity)%Q →
  (0 <= need)%Q → (l + need <= inject_Z capacity)%Q →
  (need / refillPerSecond capacity + (6 # 10000) <= luaNow t' - luaNow t)%Q →
  (l + need <= level capacity key t' (store_bucket t key l ttl d))%Q.
Proof.
  intros Hc H0 Ht Hl0 Hl1 Hn Hcap Hwait. unfold level. rewrite store_bucket_get by done.
  case_match; [|by rewrite refill_None].
  pose proof (refillPerSecond_pos capacity Hc) as Hr.
  pose proof (refillPerSecond_minute capacity) as Hm.
  set (rate := refillPerSecond capacity) in *.
  assert (0 <= luaNow t)%Q as Hn0 by (pose proof (luaNow_mono 0 t (proj1 H0)) as Hz;
    change (luaNow 0) with (0 # 1000000) in Hz; lra).
  assert (luaNow t <= 10000000000)%Q as HnT.
  { unfold luaNow, Qle. simpl. lia. }
  pose proof (lua_print_err _ Hl0) as Ek%Qabs_Qle_condition.
  pose proof (lua_print_err _ Hn0) as En%Qabs_Qle_condition.
  assert (need / rate + (1 # 10000) <= luaNow t' - lua_print (luaNow t))%Q as Hel by lra.
  assert (0 <= need / rate)%Q as Hd0.
  { apply Qle_shift_div_l; [done|lra]. }
  unfold refill. simpl. destruct (Qltb 0 _) eqn:He; [|apply Qltb_false in He; lra].
  apply Q.min_glb; [done|].
  apply (Qmult_le_compat_r _ _ rate) in Hel; [|lra].
  assert ((need / rate) * rate == need)%Q as Hdiv by (field; lra).
  clear - Ek Hl1 Hel Hdiv Hm Hr.
  set (x := ((luaNow t' - lua_print (luaNow t)) * rate)%Q) in *. lra.
Qed.

Lemma Consume_replied t teamID kind capacity amount ttl d :
  let key := bucketKey teamID kind in
  let l := level capacity key t d in
  0 < capacity → 0 < amount → 0 < ttl →
  Consume t Replied teamID kind capacity amount ttl d =
    (Ok {| Allowed := Qle_bool (inject_Z amount) l;
           Remaining := lua_print (consume_tokens capacity amount l);
           RetryAfter := Qtrunc (lua_print (if Qle_bool (inject_Z amount) l then 0
             else (inject_Z amount - l) / refillPerSecond capacity) * inject_Z second) |},
     store_bucket t key (consume_tokens capacity amount l) (Z.quot ttl millisecond) d).
Proof.
  intros key l Hc Ha Httl. unfold Consume.
  destruct (Z.leb_spec capacity 0); [lia|]. destruct (Z.leb_spec amount 0); [lia|].
  destruct (Z.leb_spec ttl 0); [lia|]. cbn [round_trip]. unfold consumeScript, consume_tokens.
  fold key. fold (level capacity key t d). fold l. by destruct (Qle_bool (inject_Z amount) l).
Qed.

(** The advertised wait, in nanoseconds, falls short of the exact one by
    less than two nanoseconds. *)
Lemma advertised_wait (r : Q) :
  (0 <= r)%Q → (r <= 60)%Q →
  (r - (2 # 1000000000) <= inject_Z (Qtrunc (lua_print r * inject_Z second))
                             * (1 # 1000000000))%Q.
Proof.
  intros H0 H1. pose proof (lua_print_err _ H0) as Er%Qabs_Qle_condition.
  assert (0 <= lua_print r)%Q as Hp.
  { rewrite <- (lua_print_int 0) by lia. by apply lua_print_mono. }
  change (inject_Z second) with (1000000000 # 1).
  destruct (Qtrunc_bounds (lua_print r * (1000000000 # 1))) as [_ Ht]; [lra|].
  set (z := inject_Z (Qtrunc _)) in *. lra.
Qed.

(** Retry-After can be trusted.  When a bucket denies a request that
    fits its capacity, the same request made one millisecond after the
    advertised wait, with no other traffic in between, is admitted; a
    request larger than the capacity is denied at every later time. *)
Theorem retry_after_sound teamID kind capacity amount ttl t t' d res d' :
  0 < capacity < 10 ^ 14 → 0 < amount → 0 < ttl →
  0 ≤ t ≤ 10 ^ 16 → t ≤ t' → bucket_ok capacity (bucketKey teamID kind) t d →
  Consume t Replied teamID kind capacity amount ttl d = (Ok res, d') → Allowed res = false →
  ∃ res' d'', Consume t' Replied teamID kind capacity amount ttl d' = (Ok res', d'') ∧
  (amount ≤ capacity → RetryAfter res + millisecond ≤ (t' - t) * microsecond →
   Allowed res' = true) ∧
  (capacity < amount → Allowed res' = false).
Proof.
  intros Hc Ha Httl H0 Ht Hok Hcons Hden. set (key := bucketKey teamID kind) in *.
  destruct (level_range capacity _ _ _ (proj1 Hc) Hok) as [Hl0 Hl1].
  rewrite Consume_replied in Hcons by (done || lia). fold key in Hcons.
  set (l := level capacity key t d) in *. injection Hcons as <- <-. simpl in *.
  unfold consume_tokens. rewrite Hden in *. apply Qle_bool_false in Hden.
  rewrite Consume_replied by (done || lia). do 2 eexists. split; [done|]. simpl. fold key. split.
  - intros Hcap Hwait. apply Qle_bool_iff.
    pose proof (refillPerSecond_pos capacity (proj1 Hc)) as Hr.
    apply inject_Z_le in Hcap.
    assert (0 <= (inject_Z amount - l) / refillPerSecond capacity)%Q as Hd0.
    { apply Qle_shift_div_l; [done|lra]. }
    assert ((inject_Z amount - l) / refillPerSecond capacity <= 60)%Q as Hd60.
    { apply Qle_shift_div_r; [done|]. pose proof (refillPerSecond_minute capacity). lra. }
    pose proof (advertised_wait _ Hd0 Hd60) as Hadv.
    set (z := Qtrunc _) in *. apply inject_Z_le in Hwait.
    pose proof (level_refilled capacity key l (inject_Z amount - l) (Z.quot ttl millisecond) t t' d
      (proj1 Hc) H0 Ht Hl0 Hl1) as Hlvl.
    eapply Qle_trans; [|apply Hlvl]; [lra|lra|lra|].
    rewrite luaNow_sub. rewrite inject_Z_plus, inject_Z_mult in Hwait.
    change (inject_Z millisecond) with (1000000 # 1) in Hwait.
    change (inject_Z microsecond) with (1000 # 1) in Hwait.
    assert (((t' - t) # 1000000) == inject_Z (t' - t) * (1 # 1000000))%Q as ->.
    { unfold Qeq, inject_Z, Qmult. simpl. lia. }
    lra.
  - intros Hbig. apply Qle_bool_false. apply inject_Z_lt in Hbig.
    destruct (level_range capacity key t' (store_bucket t key l (Z.quot ttl millisecond) d)
      (proj1 Hc)) as [_ Hmax]; [|lra].
    intros t'' b Hle. eapply store_bucket_ok; [done|done|done|lia].
Qed.
End limiter.

(** ** Witnesses: exact printing, an empty Redis *)

Lemma exact_print_err (x : Q) :
  (0 <= x)%Q → (Qabs (x - x) <= x * (5 # 100000000000000))%Q.
Proof. intros Hx. assert (x - x == 0)%Q as -> by lra. change (Qabs 0) with 0%Q. nra. Qed.

Definition exact_lua : LuaNumber :=
  {| lua_print x := x; lua_print_mono _ _ H := H; lua_print_int _ _ := Qeq_refl _;
     lua_print_err := exact_print_err |}.

#[local] Existing Instance exact_lua.

Definition demo_bdb : RedisMap.db bucket := ∅.

(** A team of 60 requests a minute sends a burst of 60; then a settlement
    costs 25 more than was reserved, by a command that ran twice. *)
Definition demo_burst : bstate (db := RedisMap.db bucket) :=
  {| bs_t := 1000000;
     bs_db := (Consume 1000000 Replied "acme" RPM 60 60 (2 * minute) demo_bdb).2;
     bs_net := 0 + admitted_amount
       (Consume 1000000 Replied "acme" RPM 60 60 (2 * minute) demo_bdb).1 60;
     bs_ops := 0 + 1 |}.

Definition demo_idle : bstate (db := RedisMap.db bucket) :=
  {| bs_t := 1000000; bs_db := demo_bdb; bs_net := 0; bs_ops := 0 |}.

Definition demo_debt : bstate (db := RedisMap.db bucket) :=
  {| bs_t := 1500000;
     bs_db := (Reconcile 1500000 Retried
       (Some {| rv_teamID := "acme"; rv_kind := RPM; rv_capacity := 60; rv_reserved := 60; rv_ttl := 2 * minute |})
       85 (bs_db demo_burst)).2;
     bs_net := bs_net demo_burst - Z.of_nat 2 * Z.max 0 (60 - 85); bs_ops := bs_ops demo_burst + Z.of_nat 2 |}.

Lemma bucket_rate_bound_witness :
  bs_net demo_debt - bs_net demo_idle = 60 ∧
  (inject_Z (bs_net demo_debt - bs_net demo_idle)
    <= inject_Z 60 + refillPerSecond 60 * (luaNow 1500000 - luaNow 1000000)
       + inject_Z 3 * print_slack 60 2000000)%Q.
Proof.
  split; [vm_compute; reflexivity|].
  apply (bucket_rate_bound "acme" RPM 60 (2 * minute) 1000000 2000000 demo_bdb demo_idle demo_debt);
    try closed.
  - intros t. reflexivity.
  - apply rtc_refl.
  - apply (rtc_l _ _ demo_burst).
    + apply (BConsume "acme" RPM 60 (2 * minute) 2000000 demo_idle 1000000 Replied 60).
      simpl. lia.
    + apply rtc_once.
      apply (BSettle "acme" RPM 60 (2 * minute) 2000000 demo_burst 1500000 Retried 60 85); simpl; closed || lia.
Defined.

Definition demo_after_denial : RedisMap.db bucket :=
  (Consume 1000000 Replied "acme" RPM 60 1 (2 * minute) (bs_db demo_burst)).2.

Lemma demo_burst_ok : bucket_ok 60 (bucketKey "acme" RPM) 1000000 (bs_db demo_burst).
Proof.
  intros t' b Ht. unfold demo_burst. cbn [bs_db].
  rewrite Consume_replied by closed. cbn [snd]. intros Hb.
  eapply store_bucket_ok; [closed| | |exact Ht|exact Hb]; vm_compute; discriminate.
Qed.

Lemma retry_after_sound_witness :
  ∃ res' d'',
    Consume 2001000 Replied "acme" RPM 60 1 (2 * minute) demo_after_denial = (Ok res', d'') ∧
    Allowed res' = true.
Proof.
  destruct (retry_after_sound "acme" RPM 60 1 (2 * minute) 1000000 2001000 (bs_db demo_burst)
    {| Allowed := false; Remaining := 0 # 1; RetryAfter := second |} demo_after_denial)
    as (res' & d'' & HC & Hok & _); try closed.
  - exact demo_burst_ok.
  - exists res', d''. split; [exact HC|]. apply Hok; closed.
Defined.

(** A settlement may leave a debt larger than two minutes of refill.  The
    bucket's key lives two minutes, so a team that then stays idle that long
    finds a full bucket: the rest of the debt is forgotten, not waited out. *)
Example debt_forgotten_by_expiry :
  let r := Some {| rv_teamID := "acme"; rv_kind := TPM; rv_capacity := 60;
                   rv_reserved := 10; rv_ttl := 2 * minute |} in
  let d := (Reconcile 0 Replied r 310 demo_bdb).2 in
  Qeq_bool (level 60 (bucketKey "acme" TPM) 119000000 d) (- (121))%Q = true ∧
  Qeq_bool (level 60 (bucketKey "acme" TPM) 120000000 d) 60 = true.
Proof. vm_compute. split; reflexivity. Qed.
