(* ===== verification/Auth.v ===== *)
(** * internal/auth: teams and the key registry

    team.go's [Team], its allowlists and validation, [MaskKey] and [Slug];
    registry.go's two indexes and every operation that changes them.  Both
    indexes hold pointers to teams that are never mutated in place, so they are
    maps of values here.  [HashKey] is SHA-256 in hexadecimal; only that it
    never yields the empty string is relied on. *)

From S2P Require Import Prelude.

(** ** team.go *)

Inductive Priority := PriorityRealtime | PriorityBatch | PriorityOther (s : string).

#[export] Instance Priority_eq_dec : EqDecision Priority.
Proof. solve_decision. Defined.

Record RateLimits := { RPM : Z; TPM : Z }.

Record Team := {
  t_ID : string;
  t_Name : string;
  t_OrganizationID : string;
  t_KeyHash : string;
  t_AllowedProviders : list string;
  t_AllowedModels : list string;
  t_RateLimits : RateLimits;
  t_MonthlyBudgetMicros : Z;
  t_Priority : Priority;
  t_IsAdmin : bool;
  t_CacheIsolated : bool;
  t_KeySource : string;
  t_KeyMasked : string;
  t_KeyCreatedAt : option Z
}.

Definition KeySourceRotated : string := "rotated".
Definition KeySourceRevoked : string := "revoked".

Definition AllowsModel (t : Team) (model : string) : bool :=
  existsb (λ m, bool_decide (m = model)) (t_AllowedModels t).

Definition AllowsProvider (t : Team) (provider : string) : bool :=
  existsb (λ p, bool_decide (p = provider)) (t_AllowedProviders t).

(** The ellipsis is one rune of three bytes. *)
Definition mask_prefix : string := "sk-…".

Definition MaskKey (raw : string) : string :=
  let n := String.length raw in
  if (n <? 4)%nat then mask_prefix
  else (mask_prefix ++ String.substring (n - 4) 4 raw)%string.

Inductive team_error :=
| IDRequired | NameRequired | NoProviders | NoModels
| BadRPM (n : Z) | BadTPM (n : Z) | BadBudget (n : Z) | BadPriority.

Definition validateLimits (t : Team) : option team_error :=
  if RPM (t_RateLimits t) <=? 0 then Some (BadRPM (RPM (t_RateLimits t)))
  else if TPM (t_RateLimits t) <=? 0 then Some (BadTPM (TPM (t_RateLimits t)))
  else if t_MonthlyBudgetMicros t <=? 0 then Some (BadBudget (t_MonthlyBudgetMicros t))
  else None.

(** [blank] is [strings.TrimSpace(t.Name) == ""]. *)
Definition Validate (blank : string → bool) (t : Team) : option team_error :=
  if bool_decide (t_ID t = ""%string) then Some IDRequired
  else if blank (t_Name t) then Some NameRequired
  else if bool_decide (t_AllowedProviders t = []) then Some NoProviders
  else if bool_decide (t_AllowedModels t = []) then Some NoModels
  else match validateLimits t with
       | Some e => Some e
       | None => match t_Priority t with PriorityOther _ => Some BadPriority | _ => None end
       end.

(** ** Slug, on the runes of a name *)

Definition maxIDLength : nat := 48.

(** [strings.ToLower] of one rune, as far as [Slug] can tell: the ASCII
    capitals, and the two other code points Unicode lowers into ASCII, the
    Kelvin sign and the dotted capital I. *)
Definition to_lower (r : Z) : Z :=
  if (65 <=? r) && (r <=? 90) then r + 32
  else if r =? 8490 then 107
  else if r =? 304 then 105
  else r.

Definition is_alnum (r : Z) : bool :=
  ((97 <=? r) && (r <=? 122)) || ((48 <=? r) && (r <=? 57)).

Definition hyphen : Z := 45.

Fixpoint slug_loop (runes : list Z) (b : list Z) (pendingHyphen : bool) : list Z :=
  match runes with
  | [] => b
  | r :: rs =>
      if negb (is_alnum r) then slug_loop rs b (0 <? Z.of_nat (length b))
      else if pendingHyphen then slug_loop rs ((b ++ [hyphen]) ++ [r]) false
      else slug_loop rs (b ++ [r]) false
  end.

Fixpoint trim_right_hyphens (l : list Z) : list Z :=
  match l with
  | [] => []
  | r :: l' => match trim_right_hyphens l' with
               | [] => if r =? hyphen then [] else [r]
               | l'' => r :: l''
               end
  end.

Definition Slug (name : list Z) : list Z :=
  let id := slug_loop (map to_lower name) [] false in
  if (maxIDLength <? length id)%nat then trim_right_hyphens (take maxIDLength id) else id.

(** ** registry.go *)

Inductive registry_error :=
| ErrUnknownKey | ErrUnknownTeam | ErrTeamExists
| SharedHash (id1 id2 : string) | EmptyHash (id : string) | KeyTaken (id other : string)
| InvalidPatch (e : team_error).

Record Registry := { byHash : gmap string Team; byID : gmap string Team }.

Fixpoint index_teams (teams : list Team) (r : Registry) : result registry_error Registry :=
  match teams with
  | [] => Ok r
  | t :: ts =>
      let ids := <[t_ID t := t]> (byID r) in
      if bool_decide (t_KeyHash t = ""%string)
      then index_teams ts {| byHash := byHash r; byID := ids |}
      else match byHash r !! t_KeyHash t with
           | Some existing => Err (SharedHash (t_ID existing) (t_ID t))
           | None => index_teams ts {| byHash := <[t_KeyHash t := t]> (byHash r); byID := ids |}
           end
  end.

Definition NewRegistry (teams : list Team) : result registry_error Registry :=
  index_teams teams {| byHash := ∅; byID := ∅ |}.

Definition Get (id : string) (r : Registry) : result registry_error Team :=
  match byID r !! id with None => Err ErrUnknownTeam | Some t => Ok t end.

Definition List_ (r : Registry) : list Team := (map_to_list (byID r)).*2.

Record TeamPatch := {
  p_RPM : option Z; p_TPM : option Z; p_MonthlyBudgetMicros : option Z }.

Definition with_limits (t : Team) (l : RateLimits) (b : Z) : Team :=
  {| t_ID := t_ID t; t_Name := t_Name t; t_OrganizationID := t_OrganizationID t;
     t_KeyHash := t_KeyHash t; t_AllowedProviders := t_AllowedProviders t;
     t_AllowedModels := t_AllowedModels t; t_RateLimits := l; t_MonthlyBudgetMicros := b;
     t_Priority := t_Priority t; t_IsAdmin := t_IsAdmin t; t_CacheIsolated := t_CacheIsolated t;
     t_KeySource := t_KeySource t; t_KeyMasked := t_KeyMasked t;
     t_KeyCreatedAt := t_KeyCreatedAt t |}.

Definition with_key (t : Team) (hash source masked : string) (created : option Z) : Team :=
  {| t_ID := t_ID t; t_Name := t_Name t; t_OrganizationID := t_OrganizationID t;
     t_KeyHash := hash; t_AllowedProviders := t_AllowedProviders t;
     t_AllowedModels := t_AllowedModels t; t_RateLimits := t_RateLimits t;
     t_MonthlyBudgetMicros := t_MonthlyBudgetMicros t;
     t_Priority := t_Priority t; t_IsAdmin := t_IsAdmin t; t_CacheIsolated := t_CacheIsolated t;
     t_KeySource := source; t_KeyMasked := masked; t_KeyCreatedAt := created |}.

Definition Apply (p : TeamPatch) (t : Team) : result team_error Team :=
  let updated := with_limits t
    {| RPM := default (RPM (t_RateLimits t)) (p_RPM p);
       TPM := default (TPM (t_RateLimits t)) (p_TPM p) |}
    (default (t_MonthlyBudgetMicros t) (p_MonthlyBudgetMicros p)) in
  match validateLimits updated with Some e => Err e | None => Ok updated end.

Definition Update (id : string) (patch : TeamPatch) (r : Registry)
    : result registry_error Team * Registry :=
  match byID r !! id with
  | None => (Err ErrUnknownTeam, r)
  | Some existing =>
      match Apply patch existing with
      | Err e => (Err (InvalidPatch e), r)
      | Ok updated =>
          (Ok updated, {| byID := <[id := updated]> (byID r);
                          byHash := <[t_KeyHash updated := updated]> (byHash r) |})
      end
  end.

Definition RotateKey (now : Z) (id newHash newMasked : string) (r : Registry)
    : result registry_error Team * Registry :=
  match byID r !! id with
  | None => (Err ErrUnknownTeam, r)
  | Some existing =>
      if bool_decide (newHash = ""%string) then (Err (EmptyHash id), r)
      else
        let taken := match byHash r !! newHash with
                     | Some other => if bool_decide (t_ID other ≠ id) then Some other else None
                     | None => None
                     end in
        match taken with
        | Some other => (Err (KeyTaken id (t_ID other)), r)
        | None =>
            let updated := with_key existing newHash KeySourceRotated newMasked (Some now) in
            (Ok updated,
             {| byHash := <[newHash := updated]> (delete (t_KeyHash existing) (byHash r));
                byID := <[id := updated]> (byID r) |})
        end
  end.

Definition RevokeKey (id : string) (r : Registry) : result registry_error Team * Registry :=
  match byID r !! id with
  | None => (Err ErrUnknownTeam, r)
  | Some existing =>
      let updated := with_key existing "" KeySourceRevoked "" None in
      (Ok updated, {| byHash := delete (t_KeyHash existing) (byHash r);
                      byID := <[id := updated]> (byID r) |})
  end.

Definition Add (t : Team) (r : Registry) : option registry_error * Registry :=
  match byID r !! t_ID t with
  | Some _ => (Some ErrTeamExists, r)
  | None =>
      if bool_decide (t_KeyHash t = ""%string)
      then (None, {| byHash := byHash r; byID := <[t_ID t := t]> (byID r) |})
      else match byHash r !! t_KeyHash t with
           | Some other => (Some (KeyTaken (t_ID t) (t_ID other)), r)
           | None => (None, {| byHash := <[t_KeyHash t := t]> (byHash r);
                               byID := <[t_ID t := t]> (byID r) |})
           end
  end.

Definition Remove (id : string) (r : Registry) : result registry_error Team * Registry :=
  match byID r !! id with
  | None => (Err ErrUnknownTeam, r)
  | Some existing =>
      (Ok existing, {| byID := delete id (byID r);
                       byHash := if bool_decide (t_KeyHash existing = ""%string) then byHash r
                                 else delete (t_KeyHash existing) (byHash r) |})
  end.

Section authenticate.
Context (HashKey : string → string).

Definition Authenticate (rawKey : string) (r : Registry) : result registry_error Team :=
  match byHash r !! HashKey rawKey with
  | Some team => if bool_decide (t_KeyHash team = ""%string) then Err ErrUnknownKey else Ok team
  | None => Err ErrUnknownKey
  end.
End authenticate.
