(* ===== verification/AuthFacts.v ===== *)
(** * What the key registry guarantees

    The two indexes never drift apart, so a credential resolves to exactly the
    team that currently holds its hash. *)

From S2P Require Import Prelude Auth.

(** ** The indexes agree *)

Record reg_ok (r : Registry) : Prop := {
  ro_hash h t : byHash r !! h = Some t → h ≠ ""%string →
                t_KeyHash t = h ∧ byID r !! t_ID t = Some t;
  ro_empty t : byHash r !! ""%string = Some t → t_KeyHash t = ""%string;
  ro_id id t : byID r !! id = Some t → t_ID t = id;
  ro_key id t : byID r !! id = Some t → t_KeyHash t ≠ ""%string →
                byHash r !! t_KeyHash t = Some t
}.

(** Two teams never hold the same key. *)
Lemma reg_ok_unique r id1 id2 t1 t2 :
  reg_ok r → byID r !! id1 = Some t1 → byID r !! id2 = Some t2 →
  t_KeyHash t1 = t_KeyHash t2 → t_KeyHash t1 ≠ ""%string → id1 = id2 ∧ t1 = t2.
Proof.
  intros Hok H1 H2 Heq Hne.
  pose proof (ro_key _ Hok _ _ H1 Hne) as K1.
  pose proof (ro_key _ Hok _ _ H2 ltac:(congruence)) as K2. rewrite <- Heq, K1 in K2.
  simplify_eq. split; [|done].
  by rewrite <- (ro_id _ Hok _ _ H1), <- (ro_id _ Hok _ _ H2).
Qed.

(** Every mutation of one team replaces its entry [e] by [u] and moves its key
    from [t_KeyHash e] to [t_KeyHash u]; the rest of the registry is kept. *)
Lemma reg_ok_replace r id e u :
  reg_ok r → byID r !! id = Some e → t_ID u = id →
  (t_KeyHash u ≠ ""%string → ∀ t, byHash r !! t_KeyHash u = Some t → t_ID t = id) →
  reg_ok {| byHash := if bool_decide (t_KeyHash u = ""%string)
                      then delete (t_KeyHash e) (byHash r)
                      else <[t_KeyHash u := u]> (delete (t_KeyHash e) (byHash r));
            byID := <[id := u]> (byID r) |}.
Proof.
  intros Hok He Hid Hfree.
  assert (∀ h t, delete (t_KeyHash e) (byHash r) !! h = Some t → h ≠ ""%string →
            t_KeyHash t = h ∧ <[id := u]> (byID r) !! t_ID t = Some t) as Hrest.
  { intros h t [Hne Hh]%lookup_delete_Some Hne'. destruct (ro_hash _ Hok _ _ Hh Hne') as [Hk Hi].
    split; [done|]. rewrite lookup_insert_ne; [done|]. intros Heq. congruence. }
  split; simpl.
  - intros h t Hh Hne. case_bool_decide; [by apply Hrest|].
    apply lookup_insert_Some in Hh as [[<- <-]|[_ Hh]]; [|by apply Hrest].
    by rewrite Hid, lookup_insert_eq.
  - intros t Ht. apply (ro_empty _ Hok). case_bool_decide.
    + by apply lookup_delete_Some in Ht as [_ ?].
    + by apply lookup_insert_Some in Ht as [[? _]|[_ [_ ?]%lookup_delete_Some]].
  - intros id' t [[<- <-]|[_ Ht]]%lookup_insert_Some; [done|by apply Hok].
  - intros id' t [[<- <-]|[Hne Ht]]%lookup_insert_Some Hk.
    + rewrite bool_decide_eq_false_2 by done. apply lookup_insert_eq.
    + pose proof (ro_key _ Hok _ _ Ht Hk) as Hh. pose proof (ro_id _ Hok _ _ Ht) as Hi.
      assert (t_KeyHash e ≠ t_KeyHash t) as Hke.
      { intros Heq. destruct Hne. by eapply reg_ok_unique; [..|rewrite Heq]. }
      case_bool_decide; [by rewrite lookup_delete_ne|].
      rewrite lookup_insert_ne, lookup_delete_ne; [done|done|].
      intros Heq. destruct Hne. rewrite <- Hi. symmetry. apply Hfree; [done|]. by rewrite Heq.
Qed.

(** Indexing a team whose ID and key are both new. *)
Lemma reg_ok_add r t :
  reg_ok r → byID r !! t_ID t = None →
  (t_KeyHash t ≠ ""%string → byHash r !! t_KeyHash t = None) →
  reg_ok {| byHash := if bool_decide (t_KeyHash t = ""%string) then byHash r
                      else <[t_KeyHash t := t]> (byHash r);
            byID := <[t_ID t := t]> (byID r) |}.
Proof.
  intros Hok Hn Hfree.
  assert (∀ h x, byHash r !! h = Some x → h ≠ ""%string →
            t_KeyHash x = h ∧ <[t_ID t := t]> (byID r) !! t_ID x = Some x) as Hrest.
  { intros h x Hx Hne. destruct (ro_hash _ Hok _ _ Hx Hne) as [? Hi]. split; [done|].
    rewrite lookup_insert_ne; [done|]. congruence. }
  split; simpl.
  - intros h x Hx Hne. case_bool_decide; [by apply Hrest|].
    apply lookup_insert_Some in Hx as [[<- <-]|[_ Hx]]; [by rewrite lookup_insert_eq|by apply Hrest].
  - intros x Hx. case_bool_decide; [by apply (ro_empty _ Hok)|].
    apply lookup_insert_Some in Hx as [[? _]|[_ Hx]]; [done|by apply (ro_empty _ Hok)].
  - intros id x [[<- <-]|[_ Hx]]%lookup_insert_Some; [done|by apply (ro_id _ Hok)].
  - intros id x [[<- <-]|[_ Hx]]%lookup_insert_Some Hne; case_bool_decide; try done.
    + apply lookup_insert_eq.
    + by apply (ro_key _ Hok id).
    + rewrite lookup_insert_ne; [by apply (ro_key _ Hok id)|].
      intros Heq. pose proof (ro_key _ Hok _ _ Hx Hne). rewrite <- Heq, Hfree in *; done.
Qed.

Lemma index_teams_ok teams r r' :
  reg_ok r → NoDup (t_ID <$> teams) → (∀ t, t ∈ teams → byID r !! t_ID t = None) →
  index_teams teams r = Ok r' → reg_ok r'.
Proof.
  revert r. induction teams as [|t ts IH]; intros r Hok Hnd Hfresh; simpl; [by intros [= <-]|].
  apply NoDup_cons in Hnd as [Hnin Hnd].
  assert (byID r !! t_ID t = None) as Hn by (apply Hfresh; set_solver).
  assert (∀ t', t' ∈ ts → <[t_ID t := t]> (byID r) !! t_ID t' = None) as Hf'.
  { intros t' Ht'. rewrite lookup_insert_ne; [apply Hfresh; set_solver|].
    intros Heq. apply Hnin. rewrite Heq. by apply list_elem_of_fmap_2. }
  pose proof (reg_ok_add r t Hok Hn) as Hadd.
  case_bool_decide as Hk; [|destruct (byHash r !! t_KeyHash t) eqn:Hh; [done|]];
    (intros Hi; eapply IH; [..|exact Hi]; simpl; try done); by apply Hadd.
Qed.

(** Dropping a team and its key. *)
Lemma reg_ok_remove r id e :
  reg_ok r → byID r !! id = Some e →
  reg_ok {| byHash := if bool_decide (t_KeyHash e = ""%string) then byHash r
                      else delete (t_KeyHash e) (byHash r);
            byID := delete id (byID r) |}.
Proof.
  intros Hok He. pose proof (ro_id _ Hok _ _ He) as Hid.
  assert (∀ h t, byHash r !! h = Some t → h ≠ ""%string → h ≠ t_KeyHash e →
            t_KeyHash t = h ∧ delete id (byID r) !! t_ID t = Some t) as Hrest.
  { intros h t Ht Hne Hh. destruct (ro_hash _ Hok _ _ Ht Hne) as [? Hi]. split; [done|].
    rewrite lookup_delete_ne; [done|]. congruence. }
  split; simpl.
  - intros h t Ht Hne. case_bool_decide as Hz; [apply Hrest; congruence|].
    apply lookup_delete_Some in Ht as [? Ht]. apply Hrest; congruence.
  - intros t Ht. apply (ro_empty _ Hok). case_bool_decide; [done|].
    by apply lookup_delete_Some in Ht as [_ ?].
  - intros id' t [_ Ht]%lookup_delete_Some. by apply (ro_id _ Hok).
  - intros id' t [Hne Ht]%lookup_delete_Some Hk. pose proof (ro_key _ Hok _ _ Ht Hk) as Hh.
    case_bool_decide as Hz; [done|]. rewrite lookup_delete_ne; [done|].
    intros Heq. destruct Hne. by eapply reg_ok_unique; [..|rewrite Heq].
Qed.

(** ** Sequences of administration *)

Inductive rstep (r : Registry) : Registry → Prop :=
| RUpdate id p : rstep r (Update id p r).2
| RRotate now id h m : rstep r (RotateKey now id h m r).2
| RRevoke id : rstep r (RevokeKey id r).2
| RAdd t : rstep r (Add t r).2
| RRemove id : rstep r (Remove id r).2.

Lemma Apply_identity p t u : Apply p t = Ok u → t_ID u = t_ID t ∧ t_KeyHash u = t_KeyHash t.
Proof. unfold Apply. case_match; [done|]. by intros [= <-]. Qed.

Lemma Update_ok id p r : reg_ok r → reg_ok (Update id p r).2.
Proof.
  intros Hok. unfold Update. destruct (byID r !! id) as [e|] eqn:He; [|done].
  destruct (Apply p e) as [u|] eqn:Ha; [|done]. simpl.
  apply Apply_identity in Ha as [Hid Hk]. pose proof (ro_id _ Hok _ _ He) as Hie.
  destruct (decide (t_KeyHash u = ""%string)) as [Hz|Hz].
  - assert (∀ h, h ≠ ""%string → <[t_KeyHash u := u]> (byHash r) !! h = byHash r !! h) as Hl.
    { intros h Hh. rewrite lookup_insert_ne; congruence. }
    split; simpl.
    + intros h t Ht Hne. rewrite Hl in Ht by done. destruct (ro_hash _ Hok _ _ Ht Hne) as [? Hi].
      split; [done|]. rewrite lookup_insert_ne; congruence.
    + intros t [[_ <-]|[? _]]%lookup_insert_Some; congruence.
    + intros id' t [[<- <-]|[_ Ht]]%lookup_insert_Some; [congruence|by apply Hok].
    + intros id' t [[<- <-]|[_ Ht]]%lookup_insert_Some Hne; [done|].
      rewrite Hl by done. by eapply ro_key.
  - pose proof (reg_ok_replace r id e u Hok He) as H.
    rewrite bool_decide_eq_false_2 in H by done.
    rewrite Hk, insert_delete_eq in H. rewrite Hk. apply H; [congruence|].
    intros _ t Ht. rewrite (ro_key _ Hok _ _ He) in Ht by congruence. congruence.
Qed.

Lemma rstep_ok r r' : reg_ok r → rstep r r' → reg_ok r'.
Proof.
  intros Hok [id p|now id h m|id|t|id].
  - by apply Update_ok.
  - unfold RotateKey. destruct (byID r !! id) as [e|] eqn:He; [|done].
    case_bool_decide as Hz; [done|].
    pose proof (reg_ok_replace r id e (with_key e h KeySourceRotated m (Some now)) Hok He) as H.
    simpl in H. rewrite bool_decide_eq_false_2 in H by done.
    specialize (H (ro_id _ Hok _ _ He)).
    destruct (byHash r !! h) as [o|] eqn:Hh; [case_bool_decide as Hd; [done|]|]; simpl; apply H;
      intros _ t Ht; by simplify_eq.
  - unfold RevokeKey. destruct (byID r !! id) as [e|] eqn:He; [|done]. simpl.
    apply (reg_ok_replace r id e (with_key e "" KeySourceRevoked "" None) Hok He); [|done].
    exact (ro_id _ Hok _ _ He).
  - unfold Add. destruct (byID r !! t_ID t) eqn:Hn; [done|].
    pose proof (reg_ok_add r t Hok Hn) as Hadd.
    case_bool_decide as Hz; [by apply Hadd|].
    destruct (byHash r !! t_KeyHash t) eqn:Hh; [done|]. by apply Hadd.
  - unfold Remove. destruct (byID r !! id) as [e|] eqn:He; [|done]. by apply reg_ok_remove.
Qed.

Lemma registry_ok teams r0 r :
  NoDup (t_ID <$> teams) → NewRegistry teams = Ok r0 → rtc rstep r0 r → reg_ok r.
Proof.
  intros Hnd Hnew Hrun. eapply (rtc_ind_r reg_ok); [| |exact Hrun].
  - eapply index_teams_ok; [..|exact Hnew]; [by split|done|done].
  - intros r1 r2 _ Hs Hi. by eapply rstep_ok.
Qed.

Section authenticate.
Context (HashKey : string → string).
Hypothesis HashKey_nonempty : ∀ raw, HashKey raw ≠ ""%string.

Lemma Authenticate_spec r raw t :
  reg_ok r →
  Authenticate HashKey raw r = Ok t ↔ byID r !! t_ID t = Some t ∧ t_KeyHash t = HashKey raw.
Proof.
  intros Hok. unfold Authenticate. split.
  - destruct (byHash r !! HashKey raw) as [x|] eqn:Hh; [|done]. case_bool_decide; [done|].
    intros [= <-]. by destruct (ro_hash _ Hok _ _ Hh (HashKey_nonempty raw)).
  - intros [Hi Hk]. pose proof (ro_key _ Hok _ _ Hi) as Hh. rewrite Hk in Hh.
    rewrite Hh by apply HashKey_nonempty.
    rewrite bool_decide_eq_false_2; [done|]. rewrite Hk. apply HashKey_nonempty.
Qed.

(** C20: a credential resolves to exactly its current holder.  After any
    sequence of limit updates, rotations, revocations, additions and removals
    on a registry built from teams with distinct IDs, a key authenticates as
    a team iff that team, with those very limits, is the registry's current
    entry for its ID and currently holds the key's hash; and no two teams
    hold the same key. *)
Theorem Authenticate_current teams r0 r raw t :
  NoDup (t_ID <$> teams) → NewRegistry teams = Ok r0 → rtc rstep r0 r →
  (Authenticate HashKey raw r = Ok t ↔
     byID r !! t_ID t = Some t ∧ t_KeyHash t = HashKey raw) ∧
  (∀ t', byID r !! t_ID t' = Some t' → t_KeyHash t' = HashKey raw →
     byID r !! t_ID t = Some t → t_KeyHash t = HashKey raw → t' = t).
Proof.
  intros Hnd Hnew Hrun. pose proof (registry_ok _ _ _ Hnd Hnew Hrun) as Hok.
  split; [by apply Authenticate_spec|]. intros t' Hi' Hk' Hi Hk.
  eapply (reg_ok_unique r _ _ t' t Hok Hi' Hi); [congruence|].
  rewrite Hk'. apply HashKey_nonempty.
Qed.

Lemma key_gone r id raw :
  reg_ok r → (∀ t, byID r !! id = Some t → t_KeyHash t ≠ HashKey raw) →
  ∀ t, Authenticate HashKey raw r = Ok t → t_ID t ≠ id.
Proof.
  intros Hok Hno t Ha Hid. apply (Authenticate_spec r raw t Hok) in Ha as [Hi Hk].
  rewrite Hid in Hi. by eapply Hno.
Qed.

(** taking a key away works at once.  After a successful rotation the
    new key authenticates as the team and the old one, if different, as
    nobody; after a revocation or a removal no key at all authenticates as
    the team. *)
Theorem keys_die_immediately r id e now newRaw masked raw :
  reg_ok r → byID r !! id = Some e → t_KeyHash e = HashKey raw →
  (∀ u r', RotateKey now id (HashKey newRaw) masked r = (Ok u, r') →
     Authenticate HashKey newRaw r' = Ok u ∧
     (HashKey raw ≠ HashKey newRaw → Authenticate HashKey raw r' = Err ErrUnknownKey)) ∧
  (∀ k t, Authenticate HashKey k (RevokeKey id r).2 = Ok t → t_ID t ≠ id) ∧
  (∀ k t, Authenticate HashKey k (Remove id r).2 = Ok t → t_ID t ≠ id).
Proof.
  intros Hok He Hk. split; [|split].
  - intros u r' HR. pose proof (RRotate r now id (HashKey newRaw) masked) as Hst.
    rewrite HR in Hst. pose proof (rstep_ok _ _ Hok Hst) as Hok'.
    unfold RotateKey in HR. rewrite He, bool_decide_eq_false_2 in HR by apply HashKey_nonempty.
    pose proof (ro_id _ Hok _ _ He) as Hid.
    destruct (match byHash r !! HashKey newRaw with Some _ => _ | None => _ end); [done|].
    injection HR as <- <-. split.
    + apply Authenticate_spec; [done|]. simpl. by rewrite Hid, lookup_insert_eq.
    + intros Hne. unfold Authenticate. simpl. rewrite lookup_insert_ne by done.
      by rewrite Hk, lookup_delete_eq.
  - intros k. apply key_gone; [eapply rstep_ok; [done|apply RRevoke]|].
    unfold RevokeKey. rewrite He. simpl. intros t. rewrite lookup_insert_eq. intros [= <-]. simpl.
    intros Heq. by eapply HashKey_nonempty.
  - intros k. apply key_gone; [eapply rstep_ok; [done|apply RRemove]|].
    unfold Remove. rewrite He. simpl. intros t. by rewrite lookup_delete_eq.
Qed.
End authenticate.

(** ** Witnesses *)

Definition demo_hash (raw : string) : string := ("#" ++ raw)%string.

Definition demo_team (id key : string) : Team :=
  {| t_ID := id; t_Name := id; t_OrganizationID := "default"; t_KeyHash := demo_hash key;
     t_AllowedProviders := ["groq"%string]; t_AllowedModels := ["llama-3.3-70b"%string];
     t_RateLimits := {| RPM := 60; TPM := 1000 |}; t_MonthlyBudgetMicros := 5000000;
     t_Priority := PriorityRealtime; t_IsAdmin := false; t_CacheIsolated := false;
     t_KeySource := "config"; t_KeyMasked := ""; t_KeyCreatedAt := None |}.

Definition demo_teams : list Team := [demo_team "acme" "k1"; demo_team "beta" "k2"].
Definition demo_reg : Registry :=
  match NewRegistry demo_teams with Ok r => r | Err _ => {| byHash := ∅; byID := ∅ |} end.

Lemma demo_hash_nonempty raw : demo_hash raw ≠ ""%string.
Proof. discriminate. Qed.

Lemma demo_nodup : NoDup (t_ID <$> demo_teams).
Proof. apply (bool_decide_unpack _). vm_compute. exact I. Qed.

Lemma Authenticate_current_witness :
  Authenticate demo_hash "k9" (RotateKey 7 "acme" (demo_hash "k9") "sk-k9" demo_reg).2
  = Ok (with_key (demo_team "acme" "k1") (demo_hash "k9") KeySourceRotated "sk-k9" (Some 7)).
Proof.
  apply (Authenticate_current demo_hash demo_hash_nonempty demo_teams demo_reg).
  - exact demo_nodup.
  - reflexivity.
  - apply rtc_once, RRotate.
  - split; reflexivity.
Defined.

Lemma keys_die_immediately_witness :
  Authenticate demo_hash "k1" (RotateKey 7 "acme" (demo_hash "k9") "sk-k9" demo_reg).2
  = Err ErrUnknownKey.
Proof.
  destruct (keys_die_immediately demo_hash demo_hash_nonempty demo_reg "acme"
    (demo_team "acme" "k1") 7 "k9" "sk-k9" "k1") as [Hrot _].
  - eapply registry_ok; [exact demo_nodup|reflexivity|constructor].
  - reflexivity.
  - reflexivity.
  - destruct (RotateKey 7 "acme" (demo_hash "k9") "sk-k9" demo_reg) as [[u|err] r'] eqn:HR;
      [|discriminate HR].
    apply (Hrot u r' eq_refl). discriminate.
Defined.
