(* ===== verification/ChainBudget.v ===== *)
(** * internal/proxy/budget.go: re-pricing a request as it falls back

    [chainBudget] holds the top-ups a walk takes when a candidate costs more
    than what the request already reserved; the base reservation is settled
    with the real cost and every top-up with zero. *)

From S2P Require Import Prelude Redis Budget Provider Wire.

Record chainBudget := {
  cb_teamID : string;
  cb_capMicros : Z;
  cb_req : chatRequest;
  cb_baseMicros : Z;
  cb_extra : list Tracker.Reservation
}.

Definition with_extra (cb : chainBudget) (extra : list Tracker.Reservation) : chainBudget :=
  {| cb_teamID := cb_teamID cb; cb_capMicros := cb_capMicros cb; cb_req := cb_req cb;
     cb_baseMicros := cb_baseMicros cb; cb_extra := extra |}.

Section chain_budget.
Context {db} `{!Redis Z db} (calc : Cost.Calculator) (DefaultMaxTokensFor : string → option Z).

Definition estimateFor (cb : chainBudget) (model : string) : result go_error Z :=
  match DefaultMaxTokensFor model with
  | None => Err (OtherError "no default max tokens configured")
  | Some defaultMaxTokens =>
      match Cost.Cost calc model (estimateInputTokens (cb_req cb))
              (estimateOutputCeiling (cb_req cb) defaultMaxTokens) with
      | Ok m => Ok m
      | Err _ => Err (OtherError "no pricing configured for model")
      end
  end.

(** The delta, the error if any, and the budget with the top-up appended.
    [None] is the nil [*chainBudget], which admits everything. *)
Definition admit_ (now t : Z) (f : net_fate) (cb : option chainBudget) (model : string) (d : db)
    : Z * option go_error * option chainBudget * db :=
  match cb with
  | None => (0, None, None, d)
  | Some cb =>
      if bool_decide (model = r_Model (cb_req cb)) then (0, None, Some cb, d)
      else
        match estimateFor cb model with
        | Err e => (0, Some (Wrapped "pricing fallback candidate" e), Some cb, d)
        | Ok estimate =>
            let delta := wrap64 (estimate - cb_baseMicros cb) in
            if delta <=? 0 then (delta, None, Some cb, d)
            else
              match Tracker.Reserve now t f (cb_teamID cb) (cb_capMicros cb) delta d with
              | (Err _, d') =>
                  (delta, Some (Wrapped "re-checking budget for fallback candidate"
                                  (OtherError "budget")), Some cb, d')
              | (Ok (reservation, res), d') =>
                  if negb (Tracker.Allowed res)
                  then (delta, Some (BudgetDeniedError (cb_teamID cb) model
                                       (Tracker.SpentMicros res) (cb_capMicros cb)), Some cb, d')
                  else (delta, None,
                        Some (with_extra cb (cb_extra cb ++ option_list reservation)), d')
              end
        end
  end.

(** Each top-up settles with zero; a failed settlement is only logged. *)
Fixpoint reconcile_all (t : Z) (f : nat → net_fate) (extra : list Tracker.Reservation) (d : db) : db :=
  match extra with
  | [] => d
  | r :: rs => reconcile_all t (λ n, f (S n)) rs (Tracker.Reconcile t (f 0%nat) (Some r) 0 d).2
  end.

Definition reconcileExtras (t : Z) (f : nat → net_fate) (cb : option chainBudget) (d : db) : db :=
  match cb with None => d | Some cb => reconcile_all t f (cb_extra cb) d end.

(** The deferred settlement of ChatCompletions: the base handle with the real
    cost, then the top-ups. *)
Definition settle_request (t : Z) (f : nat → net_fate) (base : option Tracker.Reservation)
    (actual : Z) (cb : option chainBudget) (d : db) : db :=
  reconcileExtras t (λ n, f (S n)) cb (Tracker.Reconcile t (f 0%nat) base actual d).2.

(** ** Cover and exact settlement *)

(** What the request holds in the counter: the base and the top-ups. *)
Definition held (cb : chainBudget) : Z := cb_baseMicros cb + Tracker.open_total (cb_extra cb).

Definition extras_ok (period : string) (cb : chainBudget) : Prop :=
  Forall (λ r, Tracker.r_teamID r = cb_teamID cb ∧ Tracker.r_period r = period ∧
               0 ≤ Tracker.r_reserved r ≤ int64_max) (cb_extra cb).

Lemma Reserve_handle now t f teamID cap est d r res d' :
  Tracker.Reserve now t f teamID cap est d = (Ok (r, res), d') →
  Tracker.Allowed res = true →
  r = Some {| Tracker.r_teamID := teamID; Tracker.r_period := Tracker.currentPeriod now;
              Tracker.r_reserved := est |}.
Proof.
  unfold Tracker.Reserve, Tracker.reserve_reply. intros H Ha. repeat case_match; simplify_eq; done.
Qed.

Lemma admit_spec now t f cb model d delta cb' d' :
  0 ≤ cb_baseMicros cb → extras_ok (Tracker.currentPeriod now) cb →
  admit_ now t f (Some cb) model d = (delta, None, cb', d') →
  ∃ cb2, cb' = Some cb2 ∧ extras_ok (Tracker.currentPeriod now) cb2 ∧
    cb_baseMicros cb2 = cb_baseMicros cb ∧ held cb ≤ held cb2 ∧
    (model ≠ r_Model (cb_req cb) →
     ∃ est, estimateFor cb model = Ok est ∧ (in_int64 est → 0 ≤ est → est ≤ held cb2)).
Proof.
  intros Hb Hx. unfold admit_.
  assert (0 ≤ Tracker.open_total (cb_extra cb)) as H0.
  { apply Tracker.open_total_nonneg. eapply Forall_impl; [exact Hx|]. naive_solver. }
  case_bool_decide as Hm; [intros [= <- <- <-]; exists cb; by split_and!|].
  destruct (estimateFor cb model) as [est|e] eqn:He; [|by intros [=]].
  set (dl := wrap64 (est - cb_baseMicros cb)).
  assert (in_int64 est → 0 ≤ est → dl = est - cb_baseMicros cb ∨ int64_max < cb_baseMicros cb) as Hdl.
  { intros Hi He0. destruct (decide (cb_baseMicros cb ≤ int64_max)); [left|right; lia].
    apply wrap64_id. unfold in_int64, int64_min, int64_max in *. lia. }
  destruct (Z.leb_spec dl 0) as [Hle|Hgt].
  { intros [= <- <- <-]. exists cb. split_and!; try done. intros _. exists est. split; [done|].
    intros Hi He0. unfold held. destruct Hi. destruct (Hdl ltac:(done) He0); lia. }
  destruct (Tracker.Reserve now t f (cb_teamID cb) (cb_capMicros cb) dl d) as [[[r res]|] d1] eqn:HR;
    [|by intros [=]].
  destruct (Tracker.Allowed res) eqn:Ha; simpl; [|by intros [=]]. intros [= <- <- <-].
  rewrite (Reserve_handle _ _ _ _ _ _ _ _ _ _ HR Ha). eexists. split; [done|].
  unfold held, extras_ok. simpl. rewrite Tracker.open_total_app. simpl. split_and!; try done; try lia.
  - apply Forall_app. split; [exact Hx|]. constructor; [|constructor]. simpl.
    pose proof (wrap64_range (est - cb_baseMicros cb)) as [_ Hr]. fold dl in Hr.
    split_and!; [done|done|lia|done].
  - intros _. exists est. split; [done|]. intros Hi He0. destruct Hi.
    destruct (Hdl ltac:(done) He0); lia.
Qed.

Lemma reconcile_all_exact t T team period extra c d :
  t < T → Forall (λ r, Tracker.r_teamID r = team ∧ Tracker.r_period r = period ∧
                       0 ≤ Tracker.r_reserved r ≤ int64_max) extra →
  0 ≤ c ≤ int64_max → Tracker.open_total extra ≤ c →
  holds_until t T (Tracker.periodKey team period) c d →
  holds_until t T (Tracker.periodKey team period) (c - Tracker.open_total extra)
    (reconcile_all t (λ _, Replied) extra d).
Proof.
  intros HtT Hx. revert c d. induction Hx as [|r rs (Ht & Hp & Hr) Hx IH]; intros c d Hc Hsum Hh.
  { simpl. by rewrite Z.sub_0_r. }
  assert (0 ≤ Tracker.open_total rs).
  { apply Tracker.open_total_nonneg. eapply Forall_impl; [exact Hx|]. naive_solver. }
  rewrite Tracker.open_total_cons in *. cbn [reconcile_all].
  destruct (Tracker.Reconcile_live t T r 0 c d HtT) as (d' & -> & Hh');
    [unfold int64_max; lia|done|by rewrite Ht, Hp|unfold in_int64, int64_min; lia|].
  rewrite Ht, Hp in Hh'. cbn [snd].
  replace (c - (Tracker.r_reserved r + Tracker.open_total rs))
    with (c + 0 - Tracker.r_reserved r - Tracker.open_total rs) by lia.
  apply IH; [lia|lia|done].
Qed.

Lemma settle_request_exact t T period cb actual c d :
  t < T → 0 ≤ cb_baseMicros cb ≤ int64_max → extras_ok period cb →
  0 ≤ actual → c + actual ≤ int64_max → held cb ≤ c →
  holds_until t T (Tracker.periodKey (cb_teamID cb) period) c d →
  holds_until t T (Tracker.periodKey (cb_teamID cb) period) (c - held cb + actual)
    (settle_request t (λ _, Replied)
       (Some {| Tracker.r_teamID := cb_teamID cb; Tracker.r_period := period;
                Tracker.r_reserved := cb_baseMicros cb |}) actual (Some cb) d).
Proof.
  intros HtT Hb Hx Ha Hmax Hc Hh. unfold settle_request, reconcileExtras, held in *.
  assert (0 ≤ Tracker.open_total (cb_extra cb)).
  { apply Tracker.open_total_nonneg. eapply Forall_impl; [exact Hx|]. naive_solver. }
  set (rb := {| Tracker.r_teamID := cb_teamID cb |}).
  destruct (Tracker.Reconcile_live t T rb actual c d HtT) as (d' & -> & Hh'); simpl;
    [lia|done|done|unfold in_int64, int64_min; lia|].
  replace (c - (cb_baseMicros cb + Tracker.open_total (cb_extra cb)) + actual)
    with (c + actual - cb_baseMicros cb - Tracker.open_total (cb_extra cb)) by lia.
  apply reconcile_all_exact; [done|exact Hx|lia|lia|done].
Qed.

(** C2: a fallback can neither overspend nor double-charge.  When the
    re-check admits a candidate other than the requested model, the base
    reservation and the top-ups together cover the candidate's real cost
    (usage within the estimated ceilings, no 64-bit overflow); settling the
    base with that cost and every top-up with zero leaves the team's counter
    at exactly what it was without the request, plus the real cost. *)
Theorem fallback_settles_exactly now t t2 T f cb model d delta cb2 d1 dm p i o actual c d2 :
  let period := Tracker.currentPeriod now in
  0 ≤ cb_baseMicros cb ≤ int64_max → extras_ok period cb → model ≠ r_Model (cb_req cb) →
  admit_ now t f (Some cb) model d = (delta, None, Some cb2, d1) →
  DefaultMaxTokensFor model = Some dm → Cost.pricing calc !! model = Some p →
  Cost.cost_in_range p (estimateInputTokens (cb_req cb)) (estimateOutputCeiling (cb_req cb) dm) →
  0 ≤ i ≤ estimateInputTokens (cb_req cb) → 0 ≤ o ≤ estimateOutputCeiling (cb_req cb) dm →
  Cost.Cost calc model i o = Ok actual →
  t2 < T → held cb2 ≤ c → c + actual ≤ int64_max →
  holds_until t2 T (Tracker.periodKey (cb_teamID cb2) period) c d2 →
  0 ≤ actual ≤ held cb2 ∧
  holds_until t2 T (Tracker.periodKey (cb_teamID cb2) period) (c - held cb2 + actual)
    (settle_request t2 (λ _, Replied)
       (Some {| Tracker.r_teamID := cb_teamID cb2; Tracker.r_period := period;
                Tracker.r_reserved := cb_baseMicros cb2 |}) actual (Some cb2) d2).
Proof.
  intros period Hb Hx Hm Had Hdm Hp Hr Hi Ho Hcost HtT Hc Hmax Hh.
  destruct (admit_spec _ _ _ _ _ _ _ _ _ (proj1 Hb) Hx Had)
    as (cb3 & [= <-] & Hx2 & Hbase & _ & Hest).
  destruct (Hest Hm) as (est & He & Hcover). unfold estimateFor in He. rewrite Hdm in He.
  destruct (Cost.Cost_bounds calc model p i o _ _ Hp Hr Hi Ho) as (e2 & a2 & He2 & Ha2 & Hle).
  rewrite He2 in He. rewrite Ha2 in Hcost. simplify_eq.
  assert (est ≤ int64_max) as Hmx.
  { rewrite (Cost.Cost_exact _ _ _ _ _ Hp Hr) in He2. simplify_eq.
    destruct Hr as (? & ? & ? & ? & Hb2). etransitivity; [|exact Hb2].
    apply Z.div_le_upper_bound; [done|]. unfold Cost.microsPerUnit. nia. }
  assert (est ≤ held cb2) by (apply Hcover; [split; [unfold int64_min; lia|done]|lia]).
  split; [lia|]. apply settle_request_exact; try done; lia.
Qed.
End chain_budget.
