(* ===== verification/Books.v ===== *)
(** * One request's books, month by month

    A request may hold reservations of more than one month: the base of the
    month it started in and top-ups of the month the clock shows when a fallback
    is priced.  [books] says that each month's counter is what it was without
    the request plus what the request still holds there; reserving and settling
    keep it. *)

From S2P Require Import Prelude Redis Calendar Budget Provider Wire ChainBudget.

Definition of_period (p : string) (r : Tracker.Reservation) : bool := bool_decide (Tracker.r_period r = p).
Definition held_in (p : string) (rs : list Tracker.Reservation) : list Tracker.Reservation := keep (of_period p) rs.
Definition owed (p : string) (rs : list Tracker.Reservation) : Z := Tracker.open_total (held_in p rs).

Lemma periodKey_period team p p' : Tracker.periodKey team p = Tracker.periodKey team p' → p = p'.
Proof.
  unfold Tracker.periodKey. intros H. apply (inj (String.append _)) in H.
  apply (inj (String.append ":")) in H. apply (inj (String.append team)) in H.
  by apply (inj (String.append ":")) in H.
Qed.

Section books.
Context {db} `{!Redis Z db} (team : string) (cap T : Z) (c : string → Z).

Record books (t : Z) (rs : list Tracker.Reservation) (d : db) : Prop := {
  bk_counter p : Tracker.counter_until t T (Tracker.periodKey team p) (c p + owed p rs) d;
  bk_live p : held_in p rs ≠ [] → holds_until t T (Tracker.periodKey team p) (c p + owed p rs) d;
  bk_cap p : held_in p rs ≠ [] → c p + owed p rs ≤ cap;
  bk_base p : 0 ≤ c p ≤ int64_max;
  bk_res : Forall (λ r, Tracker.r_teamID r = team ∧ 0 ≤ Tracker.r_reserved r ≤ int64_max) rs
}.

Lemma owed_nonneg t rs d p : books t rs d → 0 ≤ owed p rs.
Proof.
  intros Hb. apply Tracker.open_total_nonneg. apply Forall_forall. intros r [Hr _]%elem_of_keep.
  pose proof (bk_res _ _ _ Hb) as Hres. rewrite Forall_forall in Hres. by apply Hres in Hr as (_ & ? & _).
Qed.

Lemma books_later t t' rs d : t ≤ t' → books t rs d → books t' rs d.
Proof.
  intros Ht [H1 H2 H3 H4 H5]. split; try done.
  - intros p. by eapply Tracker.counter_until_le.
  - intros p Hp. eapply holds_until_le; [exact Ht|by apply H2].
Qed.

Lemma books_range t rs d p : cap ≤ int64_max → books t rs d → 0 ≤ c p + owed p rs ≤ int64_max.
Proof.
  intros Hcap Hb. pose proof (owed_nonneg _ _ _ p Hb). pose proof (bk_base _ _ _ Hb p) as Hc.
  destruct (decide (held_in p rs = [])) as [He|Hne].
  - unfold owed. rewrite He. simpl. lia.
  - pose proof (bk_cap _ _ _ Hb p Hne). lia.
Qed.

Lemma held_in_cons p r rs :
  held_in p (r :: rs) = if of_period p r then r :: held_in p rs else held_in p rs.
Proof. done. Qed.

Lemma held_in_other p0 p r rs : Tracker.r_period r = p0 → p ≠ p0 → held_in p (r :: rs) = held_in p rs.
Proof.
  intros Hr Hp. rewrite held_in_cons. unfold of_period. by rewrite bool_decide_eq_false_2 by congruence.
Qed.
Lemma owed_own r rs p : Tracker.r_period r = p → owed p (r :: rs) = Tracker.r_reserved r + owed p rs.
Proof. intros Hr. unfold owed. rewrite held_in_cons. unfold of_period. by rewrite bool_decide_eq_true_2. Qed.

(** One month's counter and holdings move; the others stand. *)
Lemma books_move p0 t rs rs' d d' :
  books t rs d → (∀ key t', key ≠ Tracker.periodKey team p0 → rget t' key d' = rget t' key d) →
  holds_until t T (Tracker.periodKey team p0) (c p0 + owed p0 rs') d' →
  (∀ p, p ≠ p0 → held_in p rs' = held_in p rs) →
  (held_in p0 rs' ≠ [] → c p0 + owed p0 rs' ≤ cap) →
  Forall (λ r, Tracker.r_teamID r = team ∧ 0 ≤ Tracker.r_reserved r ≤ int64_max) rs' →
  books t rs' d'.
Proof.
  intros [H1 H2 H3 H4 H5] Hd Hh Hrs Hcap Hres.
  assert (∀ p t', p ≠ p0 → rget t' (Tracker.periodKey team p) d' = rget t' (Tracker.periodKey team p) d) as Hd'.
  { intros p t' Hp. apply Hd. intros He. by apply periodKey_period in He. }
  assert (∀ p, p ≠ p0 → owed p rs' = owed p rs) as Ho by (intros p Hp; unfold owed; by rewrite Hrs).
  split; try done; intros p; destruct (decide (p = p0)) as [->|Hp]; try done.
  - by left.
  - rewrite Ho by done. destruct (H1 p) as [Hl|[Hz Hl]]; [left|right; split; [done|]]; intros t' Ht';
      rewrite Hd' by done; by apply Hl.
  - rewrite Hrs, Ho by done. intros Hne t' Ht'. rewrite Hd' by done. by apply (H2 p Hne).
  - rewrite Hrs, Ho by done. apply H3.
Qed.

Lemma books_reserve now t f est rs d :
  0 < cap ≤ int64_max → t < T → T ≤ t + Z.quot (Tracker.ttlUntilPeriodEnd now) second * 1000 →
  clear_cut f → est ≤ int64_max → books t rs d →
  books t (Tracker.granted (Tracker.Reserve now t f team cap est d).1 ++ rs)
    (Tracker.Reserve now t f team cap est d).2.
Proof.
  intros Hcap HtT Httl Hf Hest Hb. unfold Tracker.Reserve.
  destruct (Z.leb_spec cap 0); [lia|]. destruct (Z.ltb_spec est 0) as [|Hpos]; [done|].
  destruct Hf as [->| ->]; [|done]. cbn [round_trip].
  set (p0 := Tracker.currentPeriod now). set (ttl := Z.quot _ second) in *.
  pose proof (bk_counter _ _ _ Hb p0) as Hc0. pose proof (books_range _ _ _ p0 (proj2 Hcap) Hb) as Hrg.
  destruct (decide (int64_min ≤ c p0 + owed p0 rs + est ∧ c p0 + owed p0 rs + est ≤ int64_max)) as [Hra|Hra].
  2:{ by rewrite (Tracker.reserveScript_overflow _ _ _ cap est _ _ _ HtT Hc0 Hra). }
  destruct (Tracker.reserveScript_in_range _ _ _ cap est ttl _ _ HtT Httl Hc0
    ltac:(unfold in_int64, int64_min in *; lia) Hra) as (d' & Hs & Hh).
  pose proof (λ key t' Hne, Tracker.reserveScript_ne t t' (Tracker.periodKey team p0) key cap est ttl d
    (not_eq_sym Hne)) as Hother. rewrite Hs in Hother |- *. cbn [snd] in Hother.
  unfold Tracker.script_reply, Tracker.admitted, Tracker.admits in *.
  destruct (Z.leb_spec (c p0 + owed p0 rs + est) cap); cbn [fst snd negb Z.eqb PosDef.Pos.eqb Tracker.granted Tracker.reserve_reply app];
    apply (books_move p0 t rs _ d); try done.
  - rewrite owed_own by done. cbn [Tracker.r_reserved].
    by replace (c p0 + (est + owed p0 rs)) with (c p0 + owed p0 rs + est) by lia.
  - intros p Hp. by apply (held_in_other p0).
  - intros _. rewrite owed_own by done. cbn [Tracker.r_reserved]. lia.
  - constructor; [|apply Hb]. cbn. split; [done|lia].
  - intros Hne. by apply (bk_cap _ _ _ Hb).
  - apply Hb.
Qed.

(** Settling one reservation with [actual]: its month gains that much. *)
Lemma books_settle t f r rs actual d :
  cap + actual ≤ int64_max → t < T → f = Replied → 0 ≤ actual → books t (r :: rs) d →
  ∃ d', Tracker.Reconcile t f (Some r) actual d = (None, d') ∧
    (∀ key t', key ≠ Tracker.periodKey team (Tracker.r_period r) → rget t' key d' = rget t' key d) ∧
    holds_until t T (Tracker.periodKey team (Tracker.r_period r))
      (c (Tracker.r_period r) + actual + owed (Tracker.r_period r) rs) d'.
Proof.
  intros Hmax HtT -> Ha Hb. set (p0 := Tracker.r_period r).
  pose proof (bk_res _ _ _ Hb) as [(Hteam & Hr) _]%Forall_cons.
  assert (held_in p0 (r :: rs) ≠ []) as Hne.
  { rewrite held_in_cons. unfold of_period. by rewrite bool_decide_eq_true_2. }
  pose proof (bk_live _ _ _ Hb p0 Hne) as Hl. pose proof (bk_cap _ _ _ Hb p0 Hne) as Hc.
  pose proof (bk_base _ _ _ Hb p0) as Hc0.
  assert (0 ≤ owed p0 rs) as Ho.
  { apply Tracker.open_total_nonneg. apply Forall_forall. intros x [Hx _]%elem_of_keep.
    pose proof (bk_res _ _ _ Hb) as Hf. rewrite Forall_forall in Hf. by apply (Hf x); set_solver. }
  rewrite owed_own in Hl, Hc by done.
  destruct (Tracker.Reconcile_live t T r actual (c p0 + (Tracker.r_reserved r + owed p0 rs)) d HtT)
    as (d' & He & Hh); [lia|lia|by rewrite Hteam|unfold in_int64, int64_min in *; lia|].
  exists d'. split; [done|]. rewrite Hteam in Hh. split.
  - intros key t' Hk. replace d' with (Tracker.Reconcile t Replied (Some r) actual d).2 by (by rewrite He).
    apply Tracker.Reconcile_own_period. by rewrite Hteam.
  - by replace (c p0 + actual + owed p0 rs)
      with (c p0 + (Tracker.r_reserved r + owed p0 rs) + actual - Tracker.r_reserved r) by lia.
Qed.
End books.

Section settling.
Context {db} `{!Redis Z db} (team : string) (T : Z).

Definition plus_cost (c : string → Z) (p0 : string) (cost : Z) (p : string) : Z :=
  c p + if decide (p = p0) then cost else 0.

Lemma books_settle_base cap c t r rs actual (d : db) :
  cap + actual ≤ int64_max → t < T → 0 ≤ actual → books team cap T c t (r :: rs) d →
  books team (cap + actual) T (plus_cost c (Tracker.r_period r) actual) t rs
    (Tracker.Reconcile t Replied (Some r) actual d).2.
Proof.
  intros Hmax HtT Ha Hb. set (p0 := Tracker.r_period r).
  destruct (books_settle _ _ _ _ t Replied r rs actual d Hmax HtT eq_refl Ha Hb) as (d' & -> & Hd & Hh).
  cbn [snd]. fold p0 in Hd, Hh.
  assert (∀ p, p ≠ p0 → held_in p (r :: rs) = held_in p rs) as Hheld by (intros; by apply (held_in_other p0)).
  assert (books team (cap + actual) T c t (r :: rs) d) as [H1 H2 H3 H4 H5].
  { destruct Hb. split; try done. intros p Hp. specialize (bk_cap0 p Hp). lia. }
  apply Forall_cons in H5 as [Hr H5].
  assert (0 ≤ owed p0 rs) as Ho.
  { apply Tracker.open_total_nonneg. apply Forall_forall. intros x [Hx _]%elem_of_keep.
    rewrite Forall_forall in H5. by apply H5 in Hx as (_ & ? & _). }
  assert (c p0 + (Tracker.r_reserved r + owed p0 rs) ≤ cap) as Hcap.
  { pose proof (bk_cap _ _ _ _ _ _ _ Hb p0) as Hc. rewrite owed_own in Hc by done. apply Hc.
    rewrite held_in_cons. unfold of_period. by rewrite bool_decide_eq_true_2. }
  assert (∀ p, p ≠ p0 → plus_cost c p0 actual p = c p) as Hne
    by (intros p Hp; unfold plus_cost; rewrite decide_False by done; lia).
  assert (plus_cost c p0 actual p0 = c p0 + actual) as Heq by (unfold plus_cost; by rewrite decide_True).
  assert (∀ p t', p ≠ p0 → rget t' (Tracker.periodKey team p) d' = rget t' (Tracker.periodKey team p) d) as Hd'
    by (intros p t' Hp; apply Hd; intros He; by apply periodKey_period in He).
  specialize (H4 p0) as H40.
  split; try done; intros p; destruct (decide (p = p0)) as [->|Hp]; rewrite ?Heq, ?(Hne p Hp);
    try (by left); try done; try lia.
  - specialize (H1 p). unfold owed in *. rewrite Hheld in H1 by done.
    destruct H1 as [Hl|[Hz Hl]]; [left|right; split; [done|]]; intros t' Ht'; rewrite Hd' by done; by apply Hl.
  - specialize (H2 p). unfold owed in *. rewrite Hheld in H2 by done.
    intros Hx t' Ht'. rewrite Hd' by done. by apply (H2 Hx).
  - specialize (H3 p). unfold owed in *. by rewrite Hheld in H3.
Qed.

Lemma books_settle_zero cap c t r rs (d : db) :
  cap ≤ int64_max → t < T → books team cap T c t (r :: rs) d →
  books team cap T c t rs (Tracker.Reconcile t Replied (Some r) 0 d).2.
Proof.
  intros Hcap HtT Hb. set (p0 := Tracker.r_period r).
  destruct (books_settle team cap T c t Replied r rs 0 d) as (d' & -> & Hd & Hh); [lia|done|done|lia|done|].
  cbn [snd]. fold p0 in Hd, Hh. rewrite Z.add_0_r in Hh.
  apply (books_move _ _ _ _ p0 t (r :: rs) rs d); try done.
  - intros p Hp. symmetry. by apply (held_in_other p0).
  - intros Hne. pose proof (bk_res _ _ _ _ _ _ _ Hb) as [[_ Hr] _]%Forall_cons.
    pose proof (bk_cap _ _ _ _ _ _ _ Hb p0) as Hc. rewrite owed_own in Hc by done.
    specialize (Hc ltac:(rewrite held_in_cons; unfold of_period; by rewrite bool_decide_eq_true_2)). lia.
  - by apply (bk_res _ _ _ _ _ _ _) in Hb as [_ ?]%Forall_cons.
Qed.

Lemma books_reconcile_all cap c t f rs (d : db) :
  cap ≤ int64_max → t < T → (∀ n, f n = Replied) → books team cap T c t rs d →
  books team cap T c t [] (reconcile_all t f rs d).
Proof.
  intros Hcap HtT. revert f d. induction rs as [|r rs IH]; intros f d Hf Hb; [done|].
  cbn [reconcile_all]. rewrite Hf. apply IH; [done|]. by apply books_settle_zero.
Qed.

(** The deferred settlement closes the books: the month the request started
    in has moved by its cost, every other month stands. *)
Lemma books_settle_request cap c t f base cb actual (d : db) :
  cap + actual ≤ int64_max → t < T → 0 ≤ actual → (∀ n, f n = Replied) →
  books team cap T c t (base :: cb_extra cb) d →
  books team (cap + actual) T (plus_cost c (Tracker.r_period base) actual) t []
    (settle_request t f (Some base) actual (Some cb) d).
Proof.
  intros Hmax HtT Ha Hf Hb. unfold settle_request, reconcileExtras. rewrite Hf.
  apply books_reconcile_all; [done|done|done|]. by apply books_settle_base.
Qed.

Lemma books_perm cap c t rs rs' (d : db) : rs ≡ₚ rs' → books team cap T c t rs d → books team cap T c t rs' d.
Proof.
  intros Hp [H1 H2 H3 H4 H5].
  assert (∀ p, owed p rs' = owed p rs) as Ho.
  { intros p. unfold owed, held_in. generalize (keep_perm (of_period p) _ _ Hp). clear.
    generalize (keep (of_period p) rs) (keep (of_period p) rs'). induction 1; simpl; lia. }
  assert (∀ p, held_in p rs' ≠ [] → held_in p rs ≠ []) as Hh.
  { intros p Hne He. apply Hne. apply Permutation_nil. unfold held_in in *. rewrite <- He.
    by apply keep_perm. }
  split; intros; rewrite ?Ho; eauto. by rewrite <- Hp.
Qed.
End settling.
