(* ===== verification/Fallback.v ===== *)
(** * internal/proxy/fallback.go: walking the chain

    [runChain] over the interface [ChainWorld]: the breaker of each candidate,
    the budget re-check, the resolver and the provider call are operations of
    a world, as are the waits and the randomness of the retry loop it nests.
    What the walk does with them (order, attempt budget, failures, the error
    the client sees) is the source's. *)

From S2P Require Import Prelude Provider Retry Health Chain.

Record chainFailure := { cf_candidate : Candidate; cf_attempts : Z; cf_err : go_error }.

Class ChainWorld (W P T : Type) := {
  cw_world :: World W;
  (** [ctx.Err() != nil] *)
  ctxErr : W → bool;
  (** [breaker.Allow], true when no breaker is wired; and the one verdict. *)
  breakerAllow : Candidate → W → bool * W;
  breakerReport : Candidate → bool → W → W;
  (** [cb.admit]: the cost delta, and the error if the candidate is refused. *)
  admitCandidate : string → W → Z * option go_error * W;
  forModel : string → W → result go_error P;
  providerCall : P → Candidate → W → result go_error T * W
}.

Definition failureKind (err : go_error) : string :=
  if isBreakerOpen err then "circuit_breaker_open"
  else match asProviderError err with
       | Some e => Kind_string (e_Kind e)
       | None => "unknown"
       end.

(** The log line and the metric of one fallback. *)
Record FallbackEvent := {
  fe_requested_model : string; fe_from : Candidate; fe_to : Candidate;
  fe_attempts : Z; fe_reason : string; fe_delta : Z }.

(** [None] is the index out of range of [failures[len(failures)-1]]. *)
Definition logFallback (requested next : Candidate) (costDelta : Z) (failures : list chainFailure)
    : option FallbackEvent :=
  match last failures with
  | None => None
  | Some prev => Some {| fe_requested_model := c_Model requested; fe_from := cf_candidate prev;
                         fe_to := next; fe_attempts := cf_attempts prev;
                         fe_reason := failureKind (cf_err prev); fe_delta := costDelta |}
  end.

Definition lastAttempted (failures : list chainFailure) : Candidate :=
  match last failures with
  | None => {| c_Provider := ""; c_Model := "" |}
  | Some f => cf_candidate f
  end.

Definition totalAttempts (failures : list chainFailure) : Z :=
  foldl (λ n f, n + cf_attempts f) 0 failures.

Definition lastChainError (failures : list chainFailure) : go_error :=
  match last failures with None => ErrChainEmpty | Some f => cf_err f end.

Inductive outcome (T : Type) :=
| Served (value : T) (served : Candidate)
| ChainFailed (err : go_error)
| Panicked.
Arguments Served {T}.
Arguments ChainFailed {T}.
Arguments Panicked {T}.

Definition narrowed (cfg : Config) (remaining : Z) : Config :=
  if remaining <? MaxAttempts cfg
  then {| MaxAttempts := remaining; BaseDelay := BaseDelay cfg;
          MaxTotalAttempts := MaxTotalAttempts cfg |}
  else cfg.

Section walk.
Context {W P T : Type} `{!ChainWorld W P T} (zero : T) (cfg : Config) (first : Candidate).

Definition failed (failures : list chainFailure) (events : list FallbackEvent) (w : W)
    : outcome T * list chainFailure * list FallbackEvent * W :=
  (ChainFailed (lastChainError failures), failures, events, w).

(** The loop at index [i] of the chain, whose candidates from [i] on are
    given. *)
Fixpoint walk (i : nat) (chain : list Candidate) (spent : Z) (failures : list chainFailure)
    (events : list FallbackEvent) (w : W)
    : outcome T * list chainFailure * list FallbackEvent * W :=
  match chain with
  | [] => failed failures events w
  | cand :: rest =>
      let remaining := MaxTotalAttempts cfg - spent in
      if remaining <=? 0 then failed failures events w
      else if (0 <? i)%nat && ctxErr w then failed failures events w
      else
        let '(allowed, w) := breakerAllow cand w in
        if negb allowed then
          walk (S i) rest spent
            (failures ++ [{| cf_candidate := cand; cf_attempts := 0; cf_err := ErrBreakerOpen |}])
            events w
        else
          let '(costDelta, budgetErr, w) := admitCandidate (c_Model cand) w in
          match budgetErr with
          | Some e =>
              walk (S i) rest spent
                (failures ++ [{| cf_candidate := cand; cf_attempts := 0; cf_err := e |}]) events w
          | None =>
              let logged := if (0 <? i)%nat
                            then option_map (λ e, events ++ [e])
                                   (logFallback first cand costDelta failures)
                            else Some events in
              match logged with
              | None => (Panicked, failures, events, w)
              | Some events =>
                  match forModel (c_Model cand) w with
                  | Err e =>
                      walk (S i) rest spent
                        (failures ++ [{| cf_candidate := cand; cf_attempts := 0; cf_err := e |}])
                        events w
                  | Ok prov =>
                      let '(r, attempts, w) :=
                        Do (λ _ w, providerCall prov cand w) (narrowed cfg remaining) w in
                      let r := default (Ok zero) r in
                      let w := breakerReport cand (is_ok r) w in
                      match r with
                      | Ok value => (Served value cand, failures, events, w)
                      | Err e =>
                          let failures := failures ++
                            [{| cf_candidate := cand; cf_attempts := attempts; cf_err := e |}] in
                          if negb (ShouldFallback e) then failed failures events w
                          else walk (S i) rest (spent + attempts) failures events w
                      end
                  end
              end
          end
  end.

Definition runChain (chain : list Candidate) (w : W)
    : outcome T * list chainFailure * list FallbackEvent * W := walk 0 chain 0 [] [] w.
End walk.

(** ** What the client is told *)

Definition statusForKind (k : Kind) : Z :=
  match k with
  | KindRateLimited => 429
  | KindTimeout => 504
  | KindInvalidRequest | KindContentPolicy => 400
  | _ => 502
  end.

(** The status and the [type] of the error envelope. *)
Definition writeProviderError (err : go_error) : Z * string :=
  match asProviderError err with
  | None => (500, "internal_error"%string)
  | Some e => (statusForKind (e_Kind e), Kind_string (e_Kind e))
  end.

(** The [Retry-After] header [writeProviderError] adds, in whole seconds. *)
Definition retryAfterHeader (err : go_error) : option Z :=
  match asProviderError err with
  | Some e => if 0 <? e_RetryAfter e then Some (Z.max 1 (Z.quot (e_RetryAfter e) second)) else None
  | None => None
  end.

Record attemptDetail := {
  ad_Provider : string; ad_Model : string; ad_Attempts : Z; ad_Type : string }.

Definition attempt_detail (f : chainFailure) : attemptDetail :=
  {| ad_Provider := c_Provider (cf_candidate f); ad_Model := c_Model (cf_candidate f);
     ad_Attempts := cf_attempts f; ad_Type := failureKind (cf_err f) |}.

Record errorResponse := {
  er_Status : Z; er_Type : string; er_RetryAfter : option Z; er_Attempts : list attemptDetail }.

Definition writeChainError (failures : list chainFailure) (err : go_error) : errorResponse :=
  match asBudgetDenied err with
  | Some _ => {| er_Status := 402; er_Type := "budget_exceeded"; er_RetryAfter := None;
                 er_Attempts := [] |}
  | None =>
      if (1 <? length failures)%nat && ShouldFallback err
      then {| er_Status := 503; er_Type := "chain_exhausted"; er_RetryAfter := None;
              er_Attempts := map attempt_detail failures |}
      else if isBreakerOpen err
      then {| er_Status := 503; er_Type := "circuit_breaker_open"; er_RetryAfter := None;
              er_Attempts := [] |}
      else let '(status, typ) := writeProviderError err in
           {| er_Status := status; er_Type := typ; er_RetryAfter := retryAfterHeader err;
              er_Attempts := [] |}
  end.
