(* ===== verification/FallbackFacts.v ===== *)
(** * What the chain walk guarantees

    Against the interface [ChainWorld]: the walk never panics, never exceeds
    the chain-wide attempt budget, tries candidates strictly in order, stops on
    a failure of the caller's own making, and accounts for every provider call
    and every breaker verdict. *)

From S2P Require Import Prelude Provider Retry Health Chain Fallback.

(** Counters a world may keep: all provider calls, the calls to one candidate
    and the verdicts reported to one candidate's breaker.  Only a call and a
    report move them. *)
Class ChainCounters {W P T : Type} `{!ChainWorld W P T}
    (total : W → Z) (calls reports : Candidate → W → Z) : Prop := {
  total_call p c w : total (providerCall (T := T) p c w).2 = total w + 1;
  total_wait d w : total (wait d w).2 = total w;
  total_rand n w : total (rand_int64n n w).2 = total w;
  total_allow c w : total (breakerAllow (P := P) (T := T) c w).2 = total w;
  total_report c b w : total (breakerReport (P := P) (T := T) c b w) = total w;
  total_admit m w : total (admitCandidate (P := P) (T := T) m w).2 = total w;
  calls_call c p c' w :
    calls c (providerCall (T := T) p c' w).2 = calls c w + (if decide (c = c') then 1 else 0);
  calls_wait c d w : calls c (wait d w).2 = calls c w;
  calls_rand c n w : calls c (rand_int64n n w).2 = calls c w;
  calls_allow c c' w : calls c (breakerAllow (P := P) (T := T) c' w).2 = calls c w;
  calls_report c c' b w : calls c (breakerReport (P := P) (T := T) c' b w) = calls c w;
  calls_admit c m w : calls c (admitCandidate (P := P) (T := T) m w).2 = calls c w;
  reports_call c p c' w : reports c (providerCall (T := T) p c' w).2 = reports c w;
  reports_wait c d w : reports c (wait d w).2 = reports c w;
  reports_rand c n w : reports c (rand_int64n n w).2 = reports c w;
  reports_allow c c' w : reports c (breakerAllow (P := P) (T := T) c' w).2 = reports c w;
  reports_report c c' b w :
    reports c (breakerReport (P := P) (T := T) c' b w)
    = reports c w + (if decide (c = c') then 1 else 0);
  reports_admit c m w : reports c (admitCandidate (P := P) (T := T) m w).2 = reports c w
}.

(** A counter the retry loop moves by [k] per attempt. *)
Lemma do_loop_counter {W T} `{!World W} (attempt : Z → W → result go_error T * W)
    (m : W → Z) (step : Z) base k n w :
  (∀ n w, m (attempt n w).2 = m w + step) → (∀ d w, m (wait d w).2 = m w) →
  (∀ n w, m (rand_int64n n w).2 = m w) →
  m (do_loop attempt base k n w).2 = m w + step * ((do_loop attempt base k n w).1.2 - n + 1).
Proof.
  intros Ha Hw Hr. revert n w. induction k as [|k IH]; intros n w; simpl;
    pose proof (Ha n w) as H1; destruct (attempt n w) as [[v|err] w1]; simpl in *; try lia.
  destruct (asProviderError err) as [pe|]; simpl; [|lia].
  destruct (negb (e_Retryable pe)); simpl; [lia|].
  assert (m (backoffDelay base n pe w1).2 = m w1) as Hb.
  { unfold backoffDelay, fullJitter. repeat case_match; simpl; try done; apply Hr. }
  destruct (backoffDelay base n pe w1) as [delay w2]. simpl in Hb.
  pose proof (Hw delay w2) as H2. destruct (wait delay w2) as [cancelled w3]. simpl in H2.
  destruct cancelled; simpl; [lia|]. rewrite IH. lia.
Qed.

Lemma do_loop_range {W T} `{!World W} (attempt : Z → W → result go_error T * W) base k n w :
  n ≤ (do_loop attempt base k n w).1.2 ≤ n + Z.of_nat k.
Proof.
  revert n w. induction k as [|k IH]; intros n w; simpl;
    destruct (attempt n w) as [[v|err] w1]; simpl; try lia.
  repeat case_match; simpl; try lia. specialize (IH (n + 1) w2). lia.
Qed.

(** The retry loop of one candidate, in the terms of the walk. *)
Lemma Do_counters {W P T} `{!ChainWorld W P T} total calls reports
    `{!ChainCounters total calls reports} (p : P) cand cfg (w : W) :
  1 ≤ MaxAttempts cfg →
  ∃ r m w', Do (T := T) (λ _ w, providerCall p cand w) cfg w = (Some r, m, w') ∧
    1 ≤ m ≤ MaxAttempts cfg ∧ total w' = total w + m ∧
    (∀ c, calls c w' = calls c w + (if decide (c = cand) then m else 0)) ∧
    (∀ c, reports c w' = reports c w).
Proof.
  intros Hmax. unfold Do. destruct (Z.ltb_spec (MaxAttempts cfg) 1); [lia|].
  set (k := Z.to_nat (MaxAttempts cfg - 1)).
  set (att := λ (_ : Z) (w : W), providerCall (T := T) p cand w).
  pose proof (do_loop_range att (BaseDelay cfg) k 1 w) as Hrg.
  pose proof (do_loop_counter att total 1 (BaseDelay cfg) k 1 w) as Ht.
  pose proof (λ c, do_loop_counter att (calls c) (if decide (c = cand) then 1 else 0)
    (BaseDelay cfg) k 1 w) as Hc.
  pose proof (λ c, do_loop_counter att (reports c) 0 (BaseDelay cfg) k 1 w) as Hr.
  destruct (do_loop att (BaseDelay cfg) k 1 w) as [[r m] w']. simpl in *.
  exists r, m, w'. split; [done|]. split; [lia|]. split_and!.
  - rewrite Ht; [lia|intros; apply total_call|apply total_wait|apply total_rand].
  - intros c. rewrite Hc; [case_decide; lia|intros; apply calls_call|apply calls_wait|apply calls_rand].
  - intros c. rewrite Hr; [lia| |apply reports_wait|apply reports_rand].
    intros n w0. rewrite Z.add_0_r. apply reports_call.
Qed.

Definition attempts_sum (fs : list chainFailure) : Z := foldr (λ f, Z.add (cf_attempts f)) 0 fs.

(** The calls, and the verdicts, the failures record for one candidate. *)
Definition attempts_for (c : Candidate) (fs : list chainFailure) : Z :=
  foldr (λ f, Z.add (if decide (c = cf_candidate f) then cf_attempts f else 0)) 0 fs.
Definition verdicts_for (c : Candidate) (fs : list chainFailure) : Z :=
  foldr (λ f, Z.add (if decide (c = cf_candidate f ∧ 0 < cf_attempts f) then 1 else 0)) 0 fs.

Lemma totalAttempts_sum fs : totalAttempts fs = attempts_sum fs.
Proof.
  unfold totalAttempts. enough (∀ n, foldl (λ n f, n + cf_attempts f) n fs = n + attempts_sum fs)
    as H by (rewrite H; lia).
  induction fs as [|f fs IH]; intros n; simpl; [lia|]. rewrite IH. lia.
Qed.

Definition served_by {T} (o : outcome T) : option Candidate :=
  match o with Served _ c => Some c | _ => None end.

Section walk.
Context {W P T : Type} `{!ChainWorld W P T} (total : W → Z) (calls reports : Candidate → W → Z)
  `{!ChainCounters total calls reports} (zero : T) (cfg : Config) (first : Candidate).

(** A run over [chain] from [w] that added the failures [fs] and made [m]
    calls to the candidate that served, if one did. *)
Record walk_ok (chain : list Candidate) (spent : Z) (w : W) (fs : list chainFailure) (m : Z)
    (o : outcome T) (w' : W) : Prop := {
  wo_order : cf_candidate <$> fs = take (length fs) chain;
  wo_attempts : Forall (λ f, 0 ≤ cf_attempts f ≤ MaxAttempts cfg) fs;
  wo_served : match o with
              | Served _ c => chain !! length fs = Some c ∧ 1 ≤ m ≤ MaxAttempts cfg
              | ChainFailed _ => m = 0
              | Panicked => False
              end;
  wo_budget : spent + attempts_sum fs + m ≤ Z.max spent (MaxTotalAttempts cfg);
  wo_total : total w' = total w + attempts_sum fs + m;
  wo_calls c : calls c w' = calls c w + attempts_for c fs
                 + (if decide (Some c = served_by o) then m else 0);
  wo_reports c : reports c w' = reports c w + verdicts_for c fs
                   + (if decide (Some c = served_by o) then 1 else 0);
  wo_fault f : f ∈ fs → 0 < cf_attempts f → ShouldFallback (cf_err f) = false →
               last fs = Some f ∧ served_by o = None
}.

(** A walk that stops here. *)
Lemma walk_ok_nil chain spent w e : walk_ok chain spent w [] 0 (ChainFailed e) w.
Proof. split; simpl; try done; try lia; intros; rewrite ?decide_False by done; set_solver || lia. Qed.

(** A candidate that failed with [f], followed by the rest of the walk. *)
Lemma walk_ok_cons cand rest spent f w w1 fs m o w' :
  cf_candidate f = cand → 0 ≤ cf_attempts f ≤ MaxAttempts cfg →
  spent + cf_attempts f ≤ Z.max spent (MaxTotalAttempts cfg) →
  total w1 = total w + cf_attempts f →
  (∀ c, calls c w1 = calls c w + (if decide (c = cand) then cf_attempts f else 0)) →
  (∀ c, reports c w1 = reports c w
          + (if decide (c = cand ∧ 0 < cf_attempts f) then 1 else 0)) →
  (0 < cf_attempts f → ShouldFallback (cf_err f) = false → fs = [] ∧ served_by o = None) →
  walk_ok rest (spent + cf_attempts f) w1 fs m o w' →
  walk_ok (cand :: rest) spent w (f :: fs) m o w'.
Proof.
  intros <- Ha Hb Ht Hc Hr Hf [? ? Hs Hbu Hto Hca Hre Hfa]. split; simpl.
  - f_equal. done.
  - by constructor.
  - destruct o; done.
  - lia.
  - lia.
  - intros c. rewrite Hca, Hc. lia.
  - intros c. rewrite Hre, Hr. lia.
  - intros f' [->|Hin]%elem_of_cons Hpos Hsf; [by destruct (Hf Hpos Hsf) as [-> ->]|].
    destruct (Hfa f' Hin Hpos Hsf) as [Hl ->]. split; [|done].
    destruct fs; [done|]. by rewrite last_cons_cons.
Qed.

(** A whole result of [walk] from failures recorded so far. *)
Definition walk_result (chain : list Candidate) (spent : Z) (failures : list chainFailure) (w : W)
    (r : outcome T * list chainFailure * list FallbackEvent * W) : Prop :=
  ∃ o fs m ev w', r = (o, failures ++ fs, ev, w') ∧
    (∀ e, o = ChainFailed e → e = lastChainError (failures ++ fs)) ∧
    walk_ok chain spent w fs m o w'.

Lemma failed_result chain spent failures events w :
  walk_result chain spent failures w (failed failures events w).
Proof.
  exists (ChainFailed (lastChainError failures)), [], 0, events, w. unfold failed.
  rewrite app_nil_r. split; [done|]. split; [by intros e [= ->]|apply walk_ok_nil].
Qed.

(** Recording a failure and walking on; the failure is of the request's own
    making only when the walk ends here. *)
Lemma walk_result_cons cand rest spent failures f w w1 r :
  cf_candidate f = cand → 0 ≤ cf_attempts f ≤ MaxAttempts cfg →
  spent + cf_attempts f ≤ Z.max spent (MaxTotalAttempts cfg) →
  total w1 = total w + cf_attempts f →
  (∀ c, calls c w1 = calls c w + (if decide (c = cand) then cf_attempts f else 0)) →
  (∀ c, reports c w1 = reports c w
          + (if decide (c = cand ∧ 0 < cf_attempts f) then 1 else 0)) →
  (0 < cf_attempts f → ShouldFallback (cf_err f) = false →
     ∃ ev, r = failed (failures ++ [f]) ev w1) →
  walk_result rest (spent + cf_attempts f) (failures ++ [f]) w1 r →
  walk_result (cand :: rest) spent failures w r.
Proof.
  intros Hc Ha Hb Ht Hca Hre Hstop (o & fs & m & ev & w' & -> & Hl & Hok).
  exists o, (f :: fs), m, ev, w'. rewrite <- app_assoc in *. split_and!; [done|done|].
  eapply walk_ok_cons; try done. intros Hpos Hsf.
  destruct (Hstop Hpos Hsf) as (ev' & Hr). unfold failed in Hr. simplify_eq.
  split; [|done]. destruct fs; [done|]. exfalso.
  apply (f_equal length) in H0. rewrite !length_app in H0. simpl in H0. lia.
Qed.

(** Skipped without a call: an open breaker, an unaffordable or an
    unresolvable candidate. *)
Lemma walk_result_skip cand rest spent failures e w w1 r :
  1 ≤ MaxAttempts cfg →
  total w1 = total w → (∀ c, calls c w1 = calls c w) → (∀ c, reports c w1 = reports c w) →
  walk_result rest spent
    (failures ++ [{| cf_candidate := cand; cf_attempts := 0; cf_err := e |}]) w1 r →
  walk_result (cand :: rest) spent failures w r.
Proof.
  intros Hmax Ht Hc Hr H.
  apply (walk_result_cons cand rest spent failures
    {| cf_candidate := cand; cf_attempts := 0; cf_err := e |} w w1 r); simpl; try done; try lia.
  - intros c. rewrite Hc. case_decide; lia.
  - intros c. rewrite Hr, decide_False by lia. lia.
  - by rewrite Z.add_0_r.
Qed.

Lemma narrowed_max remaining :
  1 ≤ MaxAttempts cfg → 0 < remaining →
  1 ≤ MaxAttempts (narrowed cfg remaining) ≤ Z.min remaining (MaxAttempts cfg).
Proof. intros. unfold narrowed. destruct (Z.ltb_spec remaining (MaxAttempts cfg)); simpl; lia. Qed.

(** The candidate is called; [w0] is the world after breaker and budget let
    it through. *)
Lemma walk_result_call cand rest spent failures events w w0 prov (next : list chainFailure → Z → W → _) :
  1 ≤ MaxAttempts cfg → 0 ≤ spent → 0 < MaxTotalAttempts cfg - spent →
  total w0 = total w → (∀ c, calls c w0 = calls c w) → (∀ c, reports c w0 = reports c w) →
  (∀ f spent' w1, 0 ≤ spent' → walk_result rest spent' (failures ++ [f]) w1
                   (next (failures ++ [f]) spent' w1)) →
  walk_result (cand :: rest) spent failures w
    (let '(r, attempts, w) :=
       Do (λ _ w, providerCall prov cand w) (narrowed cfg (MaxTotalAttempts cfg - spent)) w0 in
     let r := default (Ok zero) r in
     let w := breakerReport cand (is_ok r) w in
     match r with
     | Ok value => (Served value cand, failures, events, w)
     | Err e =>
         let failures := failures ++
           [{| cf_candidate := cand; cf_attempts := attempts; cf_err := e |}] in
         if negb (ShouldFallback e) then failed failures events w
         else next failures (spent + attempts) w
     end).
Proof.
  intros Hmax H0 Hrem Ht0 Hc0 Hr0 Hnext.
  destruct (narrowed_max (MaxTotalAttempts cfg - spent) Hmax Hrem) as [Hn1 Hn2].
  destruct (Do_counters total calls reports prov cand
    (narrowed cfg (MaxTotalAttempts cfg - spent)) w0 Hn1) as (r & m & w1 & -> & Hm & Ht & Hc & Hr).
  cbn [default from_option]. set (w2 := breakerReport cand (is_ok r) w1).
  assert (total w2 = total w + m) as Ht2 by (subst w2; rewrite total_report; lia).
  assert (∀ c, calls c w2 = calls c w + (if decide (c = cand) then m else 0)) as Hc2
    by (intros c; subst w2; rewrite calls_report, Hc, Hc0; done).
  assert (∀ c, reports c w2 = reports c w + (if decide (c = cand) then 1 else 0)) as Hr2
    by (intros c; subst w2; rewrite reports_report, Hr, Hr0; done).
  destruct r as [value|e].
  - exists (Served value cand), [], m, events, w2. rewrite app_nil_r. split_and!; [done|done|].
    split; simpl; try done; try lia.
    + split; [done|lia].
    + intros c. rewrite Hc2. do 2 case_decide; simplify_eq; lia.
    + intros c. rewrite Hr2. do 2 case_decide; simplify_eq; lia.
    + set_solver.
  - set (f := {| cf_candidate := cand; cf_attempts := m; cf_err := e |}).
    apply (walk_result_cons cand rest spent failures f w w2); simpl; try done; try lia.
    + intros c. rewrite Hr2. do 2 case_decide; naive_solver lia.
    + intros _ ->. simpl. eauto.
    + destruct (ShouldFallback e); [apply Hnext; lia|apply failed_result].
Qed.

Lemma walk_spec chain : ∀ i spent failures events w,
  1 ≤ MaxAttempts cfg → 0 ≤ spent → length failures = i →
  walk_result chain spent failures w (walk zero cfg first i chain spent failures events w).
Proof.
  induction chain as [|cand rest IH]; intros i spent failures events w Hmax H0 Hi; cbn [walk];
    [apply failed_result|].
  destruct (Z.leb_spec (MaxTotalAttempts cfg - spent) 0); [apply failed_result|].
  destruct ((0 <? i)%nat && ctxErr w); [apply failed_result|].
  assert (∀ f ev spent' w1, 0 ≤ spent' → walk_result rest spent' (failures ++ [f]) w1
            (walk zero cfg first (S i) rest spent' (failures ++ [f]) ev w1)) as Hrest.
  { intros. apply IH; [done|done|]. rewrite length_app. simpl. lia. }
  pose proof (total_allow cand w) as Ha1. pose proof (λ c, calls_allow c cand w) as Ha2.
  pose proof (λ c, reports_allow c cand w) as Ha3.
  destruct (breakerAllow cand w) as [allowed w1]. simpl in *.
  destruct allowed; simpl; [|by eapply walk_result_skip; [..|apply Hrest]].
  pose proof (total_admit (c_Model cand) w1) as Hb1.
  pose proof (λ c, calls_admit c (c_Model cand) w1) as Hb2.
  pose proof (λ c, reports_admit c (c_Model cand) w1) as Hb3.
  destruct (admitCandidate (c_Model cand) w1) as [[delta berr] w2]. simpl in *.
  assert (total w2 = total w) as Ht by congruence.
  assert (∀ c, calls c w2 = calls c w) as Hc by (intros; congruence).
  assert (∀ c, reports c w2 = reports c w) as Hr by (intros; congruence).
  destruct berr as [e|]; [by eapply walk_result_skip; [..|apply Hrest]|].
  set (logged := if (0 <? i)%nat then _ else _).
  assert (∃ ev, logged = Some ev) as [ev ->].
  { subst logged. destruct (Nat.ltb_spec 0 i); [|eauto]. unfold logFallback.
    destruct (last failures) eqn:Hl; [simpl; eauto|]. apply last_None in Hl. subst. simpl in *. lia. }
  destruct (forModel (c_Model cand) w2) as [prov|e];
    [|by eapply walk_result_skip; [..|apply Hrest]].
  by apply (walk_result_call cand rest spent failures ev w w2 prov
    (λ fs sp w, walk zero cfg first (S i) rest sp fs ev w)); try (intros; apply Hrest).
Qed.

(** *** The walk, candidate by candidate

    [gate] is what stands before a call: the breaker, the budget's re-check and
    the resolver. *)
Definition gate (c : Candidate) (w : W) : result go_error P * W :=
  let '(allowed, w) := breakerAllow c w in
  if negb allowed then (Err ErrBreakerOpen, w)
  else let '(_, refused, w) := admitCandidate (c_Model c) w in
       match refused with Some e => (Err e, w) | None => (forModel (c_Model c) w, w) end.

Definition untouched (w w' : W) : Prop := ∀ c, calls c w' = calls c w ∧ reports c w' = reports c w.

(** [m] calls and one verdict, all of them [c]'s. *)
Definition tried (c : Candidate) (m : Z) (w w' : W) : Prop :=
  1 ≤ m ≤ MaxAttempts cfg ∧
  ∀ c', calls c' w' = calls c' w + (if decide (c' = c) then m else 0) ∧
        reports c' w' = reports c' w + (if decide (c' = c) then 1 else 0).

(** From [w], the candidates of the chain in order: one the gate refuses is
    recorded with the refusal and is not touched; one it lets through is tried,
    and fails or serves. *)
Inductive walked : list Candidate → W → list chainFailure → outcome T → W → Prop :=
| WalkEnds chain e w : walked chain w [] (ChainFailed e) w
| WalkSkips c rest e w w1 fs o w' :
    gate c w = (Err e, w1) → untouched w w1 → walked rest w1 fs o w' →
    walked (c :: rest) w ({| cf_candidate := c; cf_attempts := 0; cf_err := e |} :: fs) o w'
| WalkFails c rest p e m w w1 w2 fs o w' :
    gate c w = (Ok p, w1) → tried c m w w2 → walked rest w2 fs o w' →
    walked (c :: rest) w ({| cf_candidate := c; cf_attempts := m; cf_err := e |} :: fs) o w'
| WalkServes c rest p v m w w1 w2 :
    gate c w = (Ok p, w1) → tried c m w w2 → walked (c :: rest) w [] (Served v c) w2.

Lemma walk_walked chain : ∀ i spent failures events w,
  1 ≤ MaxAttempts cfg → 0 ≤ spent → length failures = i →
  ∃ o fs ev w', walk zero cfg first i chain spent failures events w = (o, failures ++ fs, ev, w') ∧
    walked chain w fs o w'.
Proof.
  assert (∀ ch failures events w, ∃ o fs ev w', failed failures events w = (o, failures ++ fs, ev, w') ∧
    walked ch w fs o w') as Hends.
  { intros. eexists _, [], _, _. unfold failed. rewrite app_nil_r. split; [done|constructor]. }
  induction chain as [|cand rest IH]; intros i spent failures events w Hmax H0 Hi; cbn [walk]; [apply Hends|].
  destruct (Z.leb_spec (MaxTotalAttempts cfg - spent) 0); [apply Hends|].
  destruct ((0 <? i)%nat && ctxErr w); [apply Hends|].
  assert (∀ f ev spent' w1, 0 ≤ spent' → ∃ o fs ev' w',
    walk zero cfg first (S i) rest spent' (failures ++ [f]) ev w1 = (o, failures ++ f :: fs, ev', w') ∧
    walked rest w1 fs o w') as Hrest.
  { intros f ev sp w1 Hsp. destruct (IH (S i) sp (failures ++ [f]) ev w1) as (o & fs & ev' & w' & -> & Hw);
      [done|done|rewrite length_app; simpl; lia|]. rewrite <- app_assoc. by eexists _, _, _, _. }
  assert (∀ f ev sp w1, 0 ≤ sp →
    (∀ fs o w', walked rest w1 fs o w' → walked (cand :: rest) w (f :: fs) o w') →
    ∃ o fs ev' w', walk zero cfg first (S i) rest sp (failures ++ [f]) ev w1 = (o, failures ++ fs, ev', w') ∧
      walked (cand :: rest) w fs o w') as Hgo.
  { intros f ev sp w1 Hsp HP. destruct (Hrest f ev sp w1 Hsp) as (o & fs & ev' & w' & -> & Hw).
    eexists _, (f :: fs), _, _. split; [done|]. by apply HP. }
  assert (gate cand w = gate cand w) as Hg by done. unfold gate at 2 in Hg.
  pose proof (λ c, calls_allow c cand w) as Ha2. pose proof (λ c, reports_allow c cand w) as Ha3.
  destruct (breakerAllow cand w) as [allowed w1]. simpl in *.
  destruct allowed; simpl in *.
  2:{ apply Hgo; [done|].
      intros fs o w' Hw. eapply WalkSkips; [exact Hg|by split|done]. }
  pose proof (λ c, calls_admit c (c_Model cand) w1) as Hb2.
  pose proof (λ c, reports_admit c (c_Model cand) w1) as Hb3.
  destruct (admitCandidate (c_Model cand) w1) as [[delta berr] w2]. simpl in *.
  assert (untouched w w2) as Hun by (intros c; split; congruence).
  destruct berr as [e|].
  { apply Hgo; [done|].
    intros fs o w' Hw. by eapply WalkSkips. }
  set (logged := if (0 <? i)%nat then _ else _).
  assert (∃ ev, logged = Some ev) as [ev ->].
  { subst logged. destruct (Nat.ltb_spec 0 i); [|eauto]. unfold logFallback.
    destruct (last failures) eqn:Hl; [simpl; eauto|]. apply last_None in Hl. subst. simpl in *. lia. }
  destruct (forModel (c_Model cand) w2) as [prov|e].
  2:{ apply Hgo; [done|].
      intros fs o w' Hw. by eapply WalkSkips. }
  destruct (narrowed_max (MaxTotalAttempts cfg - spent) Hmax ltac:(lia)) as [Hn1 Hn2].
  destruct (Do_counters total calls reports prov cand
    (narrowed cfg (MaxTotalAttempts cfg - spent)) w2 Hn1) as (r & m & w3 & -> & Hm & _ & Hc & Hr).
  cbn [default from_option].
  assert (tried cand m w (breakerReport cand (is_ok r) w3)) as Htr.
  { split; [lia|]. intros c. rewrite calls_report, reports_report, Hc, Hr. destruct (Hun c) as [-> ->]. done. }
  destruct r as [value|e].
  - eexists _, [], _, _. rewrite app_nil_r. split; [done|]. by eapply WalkServes.
  - cbv zeta. unfold id. cbv iota. destruct (negb (ShouldFallback e)); swap 1 2.
    + apply Hgo; [lia|].
      intros fs o w' Hw. by eapply WalkFails.
    + eexists _, [_], _, _. split; [done|]. eapply WalkFails; [exact Hg|exact Htr|constructor].
Qed.

Lemma runChain_spec a d n chain w :
  NewConfig a d n = Ok cfg →
  walk_result chain 0 [] w (runChain zero cfg first chain w) ∧ MaxAttempts cfg ≤ MaxTotalAttempts cfg.
Proof.
  intros [Hc _]%NewConfig_bounds. split; [|lia]. apply walk_spec; simpl; lia || done.
Qed.

Lemma attempts_sum_nonneg fs :
  Forall (λ f, 0 ≤ cf_attempts f ≤ MaxAttempts cfg) fs → 0 ≤ attempts_sum fs.
Proof. induction 1; simpl; lia. Qed.

(** C3: the chain-wide attempt budget holds.  Under a validated policy the
    walk terminates without panicking whatever the breakers, the budget, the
    resolver and the providers do; it makes at most [MaxTotalAttempts]
    provider calls in all and at most [MaxAttempts] to any one candidate; and
    a failed walk made exactly the calls its failures record. *)
Theorem runChain_attempt_budget a d n chain w :
  NewConfig a d n = Ok cfg →
  let '(o, failures, _, w') := runChain zero cfg first chain w in
  o ≠ Panicked ∧
  total w ≤ total w' ≤ total w + MaxTotalAttempts cfg ∧
  Forall (λ f, 0 ≤ cf_attempts f ≤ MaxAttempts cfg) failures ∧
  match o with
  | Served _ _ => total w + totalAttempts failures + 1 ≤ total w'
                    ≤ total w + totalAttempts failures + MaxAttempts cfg
  | _ => total w' = total w + totalAttempts failures
  end.
Proof.
  intros Hcfg. destruct (runChain_spec a d n chain w Hcfg) as [(o & fs & m & ev & w' & -> & _ & Hok) Hmm].
  destruct Hok as [_ Ha Hs Hb Ht _ _ _]. rewrite app_nil_l, totalAttempts_sum.
  pose proof (attempts_sum_nonneg _ Ha).
  assert (0 ≤ m) by (destruct o; [lia|lia|done]).
  apply NewConfig_bounds in Hcfg as [[??] _].
  split_and!; try done; try lia; destruct o; try done; lia.
Qed.

(** candidates are tried strictly in chain order.  The failures are the
    first candidates of the chain, one entry each, and the candidate that
    served is the very next one; a failed walk reports the error of the last
    candidate tried; and a failure the request itself caused (an invalid
    request or a content refusal) ends the walk and is what is reported. *)
Theorem runChain_in_order a d n chain w :
  NewConfig a d n = Ok cfg →
  let '(o, failures, _, _) := runChain zero cfg first chain w in
  cf_candidate <$> failures = take (length failures) chain ∧
  (∀ v c, o = Served v c → chain !! length failures = Some c) ∧
  (∀ e, o = ChainFailed e → e = lastChainError failures) ∧
  (∀ f, f ∈ failures → 0 < cf_attempts f → ShouldFallback (cf_err f) = false →
     o = ChainFailed (cf_err f) ∧ last failures = Some f).
Proof.
  intros Hcfg. destruct (runChain_spec a d n chain w Hcfg) as [(o & fs & m & ev & w' & -> & Hl & Hok) _].
  destruct Hok as [Ho _ Hs _ _ _ _ Hf]. rewrite app_nil_l in *. split_and!; [done| |done|].
  - intros v c ->. by destruct Hs.
  - intros f Hin Hpos Hsf. destruct (Hf f Hin Hpos Hsf) as [Hlast Hsv]. split; [|done].
    destruct o as [v c|e|]; [done| |done]. f_equal. rewrite (Hl e eq_refl).
    unfold lastChainError. by rewrite Hlast.
Qed.

Lemma attempts_for_notin c fs : c ∉ cf_candidate <$> fs → attempts_for c fs = 0 ∧ verdicts_for c fs = 0.
Proof.
  induction fs as [|f fs IH]; simpl; [done|]. intros [Hne Hnin]%not_elem_of_cons.
  rewrite !decide_False by naive_solver. destruct (IH Hnin). lia.
Qed.

Lemma attempts_for_elem f fs :
  NoDup (cf_candidate <$> fs) → f ∈ fs → attempts_for (cf_candidate f) fs = cf_attempts f.
Proof.
  induction fs as [|g fs IH]; simpl; [set_solver|].
  intros [Hnin Hnd]%NoDup_cons [->|Hin]%elem_of_cons.
  - rewrite decide_True by done. destruct (attempts_for_notin _ _ Hnin) as [-> _]. lia.
  - rewrite decide_False, IH by (done || (intros Heq; destruct Hnin; rewrite <- Heq;
      by apply list_elem_of_fmap_2)). lia.
Qed.

Lemma verdicts_once c fs :
  NoDup (cf_candidate <$> fs) → Forall (λ f, 0 ≤ cf_attempts f ≤ MaxAttempts cfg) fs →
  0 ≤ attempts_for c fs ∧ verdicts_for c fs = if decide (0 < attempts_for c fs) then 1 else 0.
Proof.
  induction fs as [|f fs IH]; simpl; [done|].
  intros [Hnin Hnd]%NoDup_cons [Hf Hfs]%Forall_cons. destruct (IH Hnd Hfs) as [IH0 IH1].
  destruct (decide (c = cf_candidate f)) as [->|Hne].
  - destruct (attempts_for_notin _ _ Hnin) as [-> ->]. split; [lia|].
    repeat case_decide; naive_solver lia.
  - rewrite (decide_False (P := c = cf_candidate f ∧ _)) by naive_solver.
    rewrite !Z.add_0_l. done.
Qed.

(** C4: every provider call is accounted for, and every candidate that was
    called gives its breaker exactly one verdict.  The walk takes the candidates
    in order ([walked]): when the breaker refuses one, or the budget's re-check,
    or nothing serves its model, it is recorded with that very refusal and no
    attempt, and neither it nor any other candidate receives a call or a verdict
    on its account; when all three let it through, it and only it receives one to
    [MaxAttempts] calls and its breaker exactly one verdict, and it serves or is
    recorded with those attempts.  So, on a chain without duplicates: a candidate
    not in the chain is never called; the breaker of a candidate that received
    calls hears exactly one verdict, however many retries there were; and a
    candidate among the failures received exactly the calls recorded there. *)
Theorem runChain_one_verdict a d n chain w c :
  NewConfig a d n = Ok cfg → NoDup chain →
  let '(o, failures, _, w') := runChain zero cfg first chain w in
  walked chain w failures o w' ∧
  calls c w ≤ calls c w' ∧
  reports c w' = reports c w + (if decide (calls c w < calls c w') then 1 else 0) ∧
  (c ∉ chain → calls c w' = calls c w) ∧
  (∀ f, f ∈ failures → cf_candidate f = c → calls c w' = calls c w + cf_attempts f).
Proof.
  intros Hcfg Hnd.
  assert (∃ o fs ev w', runChain zero cfg first chain w = (o, fs, ev, w') ∧ walked chain w fs o w') as Hwalked.
  { apply walk_walked; [|done|done]. by apply NewConfig_bounds in Hcfg as [[??] _]. }
  destruct (runChain_spec a d n chain w Hcfg) as [(o & fs & m & ev & w' & Hrun & _ & Hok) _].
  destruct Hwalked as (o1 & fs1 & ev1 & w1 & Hrun1 & Hwalked). rewrite Hrun in Hrun1.
  rewrite Hrun, app_nil_l in *. injection Hrun1 as <- <- <- <-. split; [done|].
  destruct Hok as [Ho Ha Hs _ _ Hc Hr _]. specialize (Hc c). specialize (Hr c).
  assert (NoDup (cf_candidate <$> fs)) as Hndf.
  { rewrite Ho. eapply sublist_NoDup; [exact Hnd|apply sublist_take]. }
  destruct (verdicts_once c fs Hndf Ha) as [H0 Hv].
  assert (∀ c', served_by o = Some c' → c' ∉ cf_candidate <$> fs ∧ c' ∈ chain ∧ 1 ≤ m) as Hsv.
  { intros c' Hc'. destruct o as [v x|e|]; simplify_eq/=. destruct Hs as [Hs Hm].
    split_and!; [|by eapply list_elem_of_lookup_2|lia]. rewrite Ho. intros Hin.
    apply list_elem_of_lookup in Hin as [j Hj]. apply lookup_take_Some in Hj as [Hj Hlt].
    pose proof (NoDup_lookup _ _ _ _ Hnd Hj Hs). lia. }
  assert (∀ x, x ∈ cf_candidate <$> fs → x ∈ chain) as Hsub.
  { rewrite Ho. intros x Hx. apply list_elem_of_lookup in Hx as [j [Hj _]%lookup_take_Some].
    by eapply list_elem_of_lookup_2. }
  destruct (decide (Some c = served_by o)) as [Heq|Hne].
  - destruct (Hsv c (eq_sym Heq)) as (Hnin & Hin & Hm).
    destruct (attempts_for_notin c fs Hnin) as [Hz1 Hz2]. rewrite Hz1, Hz2 in *.
    rewrite decide_True by lia. split_and!; [lia|lia|done|].
    intros f Hf <-. destruct Hnin. by apply list_elem_of_fmap_2.
  - split_and!; [lia| | |].
    + rewrite Hr, Hv. do 2 case_decide; lia.
    + intros Hnin. destruct (attempts_for_notin c fs) as [Hz _]; [set_solver|lia].
    + intros f Hf <-. rewrite Hc, attempts_for_elem by done. lia.
Qed.
End walk.

(** A first candidate that is let through and answers at once is the only one
    the walk touches. *)
Lemma runChain_first_serves {W P T} `{!ChainWorld W P T} (zero : T) cfg first cand rest
    (w w1 w2 w3 : W) delta (prov : P) v :
  1 ≤ MaxAttempts cfg → 1 ≤ MaxTotalAttempts cfg →
  breakerAllow cand w = (true, w1) → admitCandidate (c_Model cand) w1 = (delta, None, w2) →
  forModel (c_Model cand) w2 = Ok prov → providerCall prov cand w2 = (Ok v, w3) →
  runChain zero cfg first (cand :: rest) w
  = (Served v cand, [], [], breakerReport cand true w3).
Proof.
  intros Hmax Htot Ha Had Hf Hc. unfold runChain. cbn [walk Nat.ltb Nat.leb andb].
  destruct (Z.leb_spec (MaxTotalAttempts cfg - 0) 0); [lia|].
  rewrite Ha. cbn [negb]. rewrite Had, Hf.
  assert (1 ≤ MaxAttempts (narrowed cfg (MaxTotalAttempts cfg - 0))) as Hn.
  { unfold narrowed. destruct (Z.ltb_spec (MaxTotalAttempts cfg - 0) (MaxAttempts cfg)); simpl; lia. }
  unfold Do. destruct (Z.ltb_spec (MaxAttempts (narrowed cfg (MaxTotalAttempts cfg - 0))) 1); [lia|].
  destruct (Z.to_nat (MaxAttempts _ - 1)); cbn [do_loop]; rewrite Hc; done.
Qed.

(** ** What every step keeps, the walk keeps

    For a reflexive and transitive relation between worlds. *)
Section preserves.
Context {W P T : Type} `{!ChainWorld W P T} (R : W → W → Prop) `{!PreOrder R}.
Context (ok : Candidate → Prop).
Hypothesis step_wait : ∀ d w, R w (wait d w).2.
Hypothesis step_rand : ∀ n w, R w (rand_int64n n w).2.
Hypothesis step_allow : ∀ c w, R w (breakerAllow c w).2.
Hypothesis step_report : ∀ c b w, R w (breakerReport c b w).
Hypothesis step_admit : ∀ m w, R w (admitCandidate m w).2.
Hypothesis step_call : ∀ p c w w0, ok c → forModel (c_Model c) w0 = Ok p → R w (providerCall p c w).2.

Lemma Do_preserves p c cfg w w0 :
  ok c → forModel (c_Model c) w0 = Ok p → R w (Do (T := T) (λ _ w, providerCall p c w) cfg w).2.
Proof.
  intros Hc Hp. unfold Do. destruct (MaxAttempts cfg <? 1); [reflexivity|].
  generalize (Z.to_nat (MaxAttempts cfg - 1)) as k. generalize 1 as n. intros n k.
  assert (R w (do_loop (T := T) (λ _ w, providerCall p c w) (BaseDelay cfg) k n w).2) as Hl.
  2:{ revert Hl. by destruct (do_loop _ _ _ _ _) as [[r m] w']. }
  revert n w. induction k as [|k IH]; intros n w; simpl;
    pose proof (step_call p c w w0 Hc Hp) as H1; destruct (providerCall p c w) as [[v|err] w1]; simpl in *; try done.
  destruct (asProviderError err) as [pe|]; [|done]. destruct (negb (e_Retryable pe)); [done|].
  assert (R w1 (backoffDelay (BaseDelay cfg) n pe w1).2) as H2.
  { unfold backoffDelay, fullJitter. repeat case_match; try reflexivity; apply step_rand. }
  destruct (backoffDelay (BaseDelay cfg) n pe w1) as [delay w2]. simpl in H2.
  pose proof (step_wait delay w2) as H3. destruct (wait delay w2) as [cancelled w3]. simpl in H3.
  destruct cancelled; simpl; [by do 2 (etransitivity; [eassumption|])|].
  do 3 (etransitivity; [eassumption|]). apply IH.
Qed.

Lemma walk_preserves zero cfg first chain : ∀ i spent failures events w,
  Forall ok chain → R w (walk (T := T) zero cfg first i chain spent failures events w).2.
Proof.
  induction chain as [|c rest IH]; intros i spent failures events w Hok; cbn [walk]; [reflexivity|].
  apply Forall_cons in Hok as [Hc Hok].
  destruct (MaxTotalAttempts cfg - spent <=? 0); [reflexivity|].
  destruct ((0 <? i)%nat && ctxErr w); [reflexivity|].
  pose proof (step_allow c w) as H1. destruct (breakerAllow c w) as [allowed w1]. cbn [snd] in H1.
  etransitivity; [exact H1|]. destruct (negb allowed); [by apply IH|].
  pose proof (step_admit (c_Model c) w1) as H2.
  destruct (admitCandidate (c_Model c) w1) as [[delta berr] w2]. cbn [snd] in H2.
  etransitivity; [exact H2|]. destruct berr; [by apply IH|].
  destruct (if (0 <? i)%nat then _ else _) as [ev|]; [|reflexivity].
  destruct (forModel (c_Model c) w2) as [prov|e] eqn:Hprov; [|by apply IH].
  pose proof (Do_preserves prov c (narrowed cfg (MaxTotalAttempts cfg - spent)) w2 w2 Hc Hprov) as H3.
  destruct (Do _ _ w2) as [[r attempts] w3]. cbn [snd] in H3. etransitivity; [exact H3|].
  pose proof (step_report c (is_ok (default (Ok zero) r)) w3) as H4.
  destruct (default (Ok zero) r) as [value|e]; [exact H4|]. etransitivity; [exact H4|].
  destruct (negb (ShouldFallback e)); [reflexivity|by apply IH].
Qed.
End preserves.
