(* ===== verification/Gateway.v ===== *)
(** * The walk over the real breakers and the real budget

    An instance of the chain's interface whose breakers are the registry of
    internal/resilience over Redis and whose budget re-check is the chain
    budget over the spend tracker: the composition the handler runs.  What the
    providers answer, and which models resolve, stay parameters. *)

From S2P Require Import Prelude Redis Budget Breaker BreakerFacts BreakerStore BreakerRegistry.
From S2P Require Import Provider Retry Health Chain Wire ChainBudget Fallback FallbackFacts.

(** The state one request's walk reads and writes. *)
Record gateway := {
  g_now : Z;
  g_cancelled : bool;
  g_reg : gmap Labels Breaker;
  g_breaker_db : RedisMap.db bvalue;
  g_budget : option chainBudget;
  g_budget_db : RedisMap.db Z;
  g_calls : list Candidate;
  g_verdicts : list (Candidate * bool)
}.

Definition at_now (w : gateway) (now : Z) : gateway :=
  {| g_now := now; g_cancelled := g_cancelled w; g_reg := g_reg w;
     g_breaker_db := g_breaker_db w; g_budget := g_budget w; g_budget_db := g_budget_db w;
     g_calls := g_calls w; g_verdicts := g_verdicts w |}.

Definition with_breakers (w : gateway) r d : gateway :=
  {| g_now := g_now w; g_cancelled := g_cancelled w; g_reg := r; g_breaker_db := d;
     g_budget := g_budget w; g_budget_db := g_budget_db w; g_calls := g_calls w;
     g_verdicts := g_verdicts w |}.

Definition with_budget (w : gateway) cb d : gateway :=
  {| g_now := g_now w; g_cancelled := g_cancelled w; g_reg := g_reg w;
     g_breaker_db := g_breaker_db w; g_budget := cb; g_budget_db := d; g_calls := g_calls w;
     g_verdicts := g_verdicts w |}.

Definition labelsOf (c : Candidate) : Labels := {| l_Provider := c_Provider c; l_Model := c_Model c |}.

(** Redis's clock, in milliseconds. *)
Definition redis_ms (w : gateway) : Z := g_now w / millisecond.

Section gateway.
Context (bcfg : BreakerConfig) (shared : bool) (calc : Cost.Calculator)
  (maxTokens : string → option Z) (resolve : string → option string)
  (behave : Candidate → nat → result go_error string) (latency : Z).

Definition gw_allow (c : Candidate) (w : gateway) : bool * gateway :=
  let l := labelsOf c in
  let '(b, r) := For bcfg shared l (g_reg w) in
  match b with
  | None => (true, w)
  | Some _ =>
      let '(ok, r, d) := reg_Allow bcfg (g_now w) (redis_ms w) Replied Replied l r (g_breaker_db w) in
      (ok, with_breakers w r d)
  end.

Definition gw_report (c : Candidate) (ok : bool) (w : gateway) : gateway :=
  let '(r, d) :=
    if ok
    then reg_RecordSuccess bcfg (g_now w) (redis_ms w) Replied (labelsOf c) (g_reg w) (g_breaker_db w)
    else reg_RecordFailure bcfg (g_now w) (redis_ms w) Replied (labelsOf c) (g_reg w) (g_breaker_db w) in
  let w := with_breakers w r d in
  {| g_now := g_now w; g_cancelled := g_cancelled w; g_reg := g_reg w;
     g_breaker_db := g_breaker_db w; g_budget := g_budget w; g_budget_db := g_budget_db w;
     g_calls := g_calls w; g_verdicts := g_verdicts w ++ [(c, ok)] |}.

Definition gw_admit (model : string) (w : gateway) : Z * option go_error * gateway :=
  let '(delta, err, cb, d) :=
    admit_ calc maxTokens (g_now w) (redis_ms w) Replied (g_budget w) model (g_budget_db w) in
  (delta, err, with_budget w cb d).

Definition gw_call (prov : string) (c : Candidate) (w : gateway) : result go_error string * gateway :=
  (behave c (length (g_calls w)),
   {| g_now := g_now w + latency; g_cancelled := g_cancelled w; g_reg := g_reg w;
      g_breaker_db := g_breaker_db w; g_budget := g_budget w; g_budget_db := g_budget_db w;
      g_calls := g_calls w ++ [c]; g_verdicts := g_verdicts w |}).

#[local] Program Instance gateway_world : World gateway := {|
  wait d w := (g_cancelled w, at_now w (g_now w + d));
  rand_int64n n w := (n - 1, w)
|}.
Next Obligation. intros n w Hn. simpl. lia. Qed.

#[local] Instance gateway_chain : ChainWorld gateway string string := {|
  ctxErr := g_cancelled;
  breakerAllow := gw_allow;
  breakerReport := gw_report;
  admitCandidate := gw_admit;
  forModel m _ := match resolve m with Some p => Ok p | None => Err (ErrModelNotSupported m) end;
  providerCall := gw_call
|}.

Definition g_total (w : gateway) : Z := Z.of_nat (length (g_calls w)).
Definition g_calls_of (c : Candidate) (w : gateway) : Z :=
  countb (λ c', bool_decide (c = c')) (g_calls w).
Definition g_verdicts_of (c : Candidate) (w : gateway) : Z :=
  countb (λ v, bool_decide (c = v.1)) (g_verdicts w).

Lemma gw_allow_frame c w :
  g_calls (gw_allow c w).2 = g_calls w ∧ g_verdicts (gw_allow c w).2 = g_verdicts w.
Proof. unfold gw_allow. repeat case_match; done. Qed.

Lemma gw_report_frame c ok w :
  g_calls (gw_report c ok w) = g_calls w ∧
  g_verdicts (gw_report c ok w) = g_verdicts w ++ [(c, ok)].
Proof.
  unfold gw_report. destruct ok;
    [destruct (reg_RecordSuccess _ _ _ _ _ _ _)|destruct (reg_RecordFailure _ _ _ _ _ _ _)]; done.
Qed.

Lemma gw_admit_frame m w :
  g_calls (gw_admit m w).2 = g_calls w ∧ g_verdicts (gw_admit m w).2 = g_verdicts w.
Proof. unfold gw_admit. destruct (admit_ _ _ _ _ _ _ _ _) as [[[? ?] ?] ?]; done. Qed.

(** The real composition keeps the counters the walk's theorems are stated
    over. *)
#[local] Instance gateway_counters : ChainCounters g_total g_calls_of g_verdicts_of.
Proof.
  split; intros; unfold g_total, g_calls_of, g_verdicts_of; cbn [providerCall breakerAllow
    breakerReport admitCandidate gateway_chain wait rand_int64n cw_world gateway_world snd].
  1, 7, 13: unfold gw_call; cbn [snd g_calls g_verdicts].
  all: rewrite ?(proj1 (gw_allow_frame _ _)), ?(proj2 (gw_allow_frame _ _)),
    ?(proj1 (gw_report_frame _ _ _)), ?(proj2 (gw_report_frame _ _ _)),
    ?(proj1 (gw_admit_frame _ _)), ?(proj2 (gw_admit_frame _ _)); try done.
  - rewrite length_app. simpl. lia.
  - rewrite countb_app. simpl. case_bool_decide; case_decide; by lia || done.
  - rewrite countb_app. simpl. case_bool_decide; case_decide; by lia || done.
Qed.
End gateway.

(** ** A run *)

Definition gpt4o : Candidate := {| c_Provider := "openai"; c_Model := "gpt-4o" |}.
Definition llama : Candidate := {| c_Provider := "groq"; c_Model := "llama-3.3-70b" |}.

Definition gw_bcfg : BreakerConfig :=
  {| FailureThreshold := 5; Window := 30 * second; CooldownBase := 30 * second;
     CooldownMax := 5 * minute; SuccessThreshold := 2; ProbeTimeout := minute;
     StateCacheTTL := second |}.

Definition gw_calc : Cost.Calculator :=
  Cost.NewCalculator (list_to_map [
    ("gpt-4o"%string, {| Cost.InputPer1M := 2500000; Cost.OutputPer1M := 10000000 |});
    ("llama-3.3-70b"%string, {| Cost.InputPer1M := 5000000; Cost.OutputPer1M := 20000000 |})]).

Definition gw_maxTokens (m : string) : option Z := Some 1000.
Definition gw_resolve (m : string) : option string :=
  if decide (m = "gpt-4o"%string) then Some "openai"%string
  else if decide (m = "llama-3.3-70b"%string) then Some "groq"%string else None.

(** openai is down, groq answers. *)
Definition gw_behave (c : Candidate) (_ : nat) : result go_error string :=
  if decide (c = llama) then Ok "hello"%string
  else Err (ProviderError (NewHTTPError "openai" "gpt-4o" 503 "overloaded")).

Definition gw_req : chatRequest :=
  {| r_Model := "gpt-4o"; r_Messages := [{| m_Role := "user"; m_Content := "hello there" |}];
     r_Temperature := None; r_MaxTokens := 100; r_Stream := false; r_Stop := [] |}.

(** The request holds 1017 micro-dollars for gpt-4o, of a cap given. *)
Definition gw_start (cap : Z) (reg : gmap Labels Breaker) : gateway :=
  {| g_now := 100 * second; g_cancelled := false; g_reg := reg; g_breaker_db := ∅;
     g_budget := Some {| cb_teamID := "acme"; cb_capMicros := cap; cb_req := gw_req;
                         cb_baseMicros := 1017; cb_extra := [] |};
     g_budget_db := {[ Tracker.periodKey "acme" (Tracker.currentPeriod (100 * second))
                       := (1017, None) ]};
     g_calls := []; g_verdicts := [] |}.

Definition gw_cfg : Config :=
  {| MaxAttempts := 2; BaseDelay := 50 * millisecond; MaxTotalAttempts := 3 |}.

Definition gw_run (cap : Z) (reg : gmap Labels Breaker) :=
  @runChain gateway string string
    (gateway_chain gw_bcfg false gw_calc gw_maxTokens gw_resolve gw_behave second)
    ""%string gw_cfg gpt4o [gpt4o; llama] (gw_start cap reg).

(** Two tries of openai, then groq serves; each breaker heard one verdict, and
    the top-up for the dearer model is held. *)
Example gw_run_serves :
  let '(o, failures, events, w) := gw_run 1000000 ∅ in
  o = Served "hello"%string llama ∧ g_calls w = [gpt4o; gpt4o; llama] ∧
  g_verdicts w = [(gpt4o, false); (llama, true)] ∧
  fe_reason <$> events = ["server_error"%string] ∧
  (option_map held (g_budget w)) = Some 2035.
Proof. vm_compute. split_and!; reflexivity. Qed.

(** groq's breaker, tripped a minute and more ago: its next caller is its probe. *)
Definition tripped : gmap Labels Breaker :=
  {[ labelsOf llama :=
     {| state := StateOpen; failures := []; successStreak := 0; probeInFlight := false;
        probeStartedAt := 0; openedAt := 30 * second; cooldown := 30 * second; reopens := 1;
        hasStore := false; unpublished := false; cached := SharedState_zero; cachedOK := false;
        cachedAt := None |} ]}.

(** A candidate refused after its breaker admitted it leaks the probe
    slot.  The tripped breaker half-opens and hands the walk its single probe;
    the budget re-check then refuses the candidate, which is never called, so
    no verdict is reported; the slot stays taken, and the next caller, who
    could afford the model, is turned away although nobody is probing. *)
Theorem refused_candidate_leaks_probe :
  let '(o, failures, _, w) := gw_run 1500 tripped in
  writeChainError failures (lastChainError failures) =
    {| er_Status := 402; er_Type := "budget_exceeded"; er_RetryAfter := None; er_Attempts := [] |} ∧
  llama ∉ g_calls w ∧ llama ∉ (g_verdicts w).*1 ∧
  option_map probeInFlight (g_reg w !! labelsOf llama) = Some true ∧
  (gw_allow gw_bcfg false llama w).1 = false ∧
  (gw_allow gw_bcfg false llama (at_now w (g_now w + minute))).1 = true.
Proof.
  destruct (gw_run 1500 tripped) as [[[o fs] ev] w] eqn:Hrun. vm_compute in Hrun.
  injection Hrun as <- <- <- <-. split_and!; try (vm_compute; reflexivity).
  - apply (bool_decide_unpack _). vm_compute. exact I.
  - apply (bool_decide_unpack _). vm_compute. exact I.
Qed.

(** ** An open breaker and the health it reports

    The monitor degrades a provider that has an open breaker, the chain puts
    degraded candidates last, and a breaker leaves the open state only when a
    request asks it.  The status below is what [classify] says of a provider
    whose pings succeed and whose window is clean. *)
Definition gw_mcfg : MonitorConfig :=
  {| DegradedErrorRate := QArith_base.Qmake 1 10; DownErrorRate := QArith_base.Qmake 1 2;
     DownConsecutiveFailures := 3; RecoveryStreak := 2 |}.

Definition gw_status (w : gateway) (p : string) : Status :=
  (classify gw_mcfg (AnyOpen p (g_reg w)) providerState_new Stats_zero).1.

(** Every provider answers. *)
Definition gw_well (c : Candidate) (_ : nat) : result go_error string := Ok "hello"%string.

(** A client asks for gpt-4o, [gap] after the last request. *)
Definition gw_round (w : gateway) (gap : Z) : gateway :=
  let w := at_now w (g_now w + gap) in
  let chain := BuildChain {| Requested := gpt4o; Tier := [gpt4o; llama];
                             StatusOf := Some (gw_status w); Chain.Allowed := None |} in
  (@runChain gateway string string
    (gateway_chain gw_bcfg false gw_calc gw_maxTokens gw_resolve gw_well second)
    ""%string gw_cfg gpt4o chain w).2.

Record starving (w : gateway) : Prop := {
  sv_open : ∃ b, g_reg w !! labelsOf gpt4o = Some b ∧ state b = StateOpen;
  sv_other : ∀ l b, g_reg w !! l = Some b → l ≠ labelsOf gpt4o →
               l = labelsOf llama ∧ state b = StateClosed ∧ hasStore b = false;
  sv_budget : g_budget w = None;
  sv_calls : gpt4o ∉ g_calls w
}.

Lemma starving_status w :
  starving w → gw_status w "openai" = StatusDegraded ∧ gw_status w "groq" = StatusHealthy.
Proof.
  intros [(b & Hb & Hs) Ho _ _]. unfold gw_status. split.
  - destruct (AnyOpen "openai" (g_reg w)) eqn:Ha; [done|].
    by apply (proj1 (AnyOpen_false _ _) Ha) in Hb.
  - destruct (AnyOpen "groq" (g_reg w)) eqn:Ha; [|done]. exfalso.
    apply not_false_iff_true in Ha. apply Ha, AnyOpen_false. intros l x Hl Hp.
    destruct (decide (l = labelsOf gpt4o)) as [->|Hne]; [done|].
    destruct (Ho l x Hl Hne) as (_ & -> & _). done.
Qed.

Lemma starving_chain w :
  starving w →
  BuildChain {| Requested := gpt4o; Tier := [gpt4o; llama]; StatusOf := Some (gw_status w);
                Chain.Allowed := None |} = [llama; gpt4o].
Proof.
  intros [Ho Hg]%starving_status. unfold BuildChain, permitted_of.
  replace (ordered_of _) with [gpt4o; llama] by (vm_compute; reflexivity).
  unfold status_by. simpl. rewrite Ho, Hg. done.
Qed.

(** A closed local breaker lets the call through and a success leaves it
    closed; no other breaker is touched. *)
Lemma closed_allow cfg w c b r :
  For cfg false (labelsOf c) (g_reg w) = (Some b, r) → r !! labelsOf c = Some b →
  state b = StateClosed → hasStore b = false →
  gw_allow cfg false c w = (true, with_breakers w (<[labelsOf c := b]> r) (g_breaker_db w)).
Proof.
  intros HF Hr Hc Hs. unfold gw_allow, reg_Allow, Allow, usesStore, allowLocal.
  rewrite HF, Hr, Hs. cbn [andb]. rewrite Hc. rewrite bool_decide_eq_false_2 by done. cbn [andb].
  by rewrite Hc.
Qed.

Lemma closed_report cfg w c b :
  g_reg w !! labelsOf c = Some b → state b = StateClosed →
  g_reg (gw_report cfg c true w) = <[labelsOf c := releaseProbe b]> (g_reg w) ∧
  g_budget (gw_report cfg c true w) = g_budget w ∧ g_calls (gw_report cfg c true w) = g_calls w.
Proof.
  intros Hr Hc. unfold gw_report, reg_RecordSuccess, RecordSuccess, recordSuccessLocally.
  rewrite Hr. rewrite bool_decide_eq_true_2 by (unfold releaseProbe; simpl; by rewrite Hc). done.
Qed.

Lemma starving_round w gap : starving w → starving (gw_round w gap).
Proof.
  intros Hst. assert (starving (at_now w (g_now w + gap))) as Hst' by (by destruct Hst; split).
  unfold gw_round. rewrite starving_chain by done. set (w0 := at_now w _) in *. clearbody w0.
  destruct Hst' as [(b & Hb & Hs) Hother Hbud Hcalls].
  assert (∃ b0 r, For gw_bcfg false (labelsOf llama) (g_reg w0) = (Some b0, r) ∧
            r = <[labelsOf llama := b0]> (g_reg w0) ∧
            state b0 = StateClosed ∧ hasStore b0 = false) as (b0 & r & HFor & -> & Hc & Hstore).
  { unfold For. destruct (g_reg w0 !! labelsOf llama) as [b1|] eqn:Hl.
    - destruct (Hother _ _ Hl ltac:(done)) as (_ & ? & ?). exists b1, (g_reg w0).
      by rewrite insert_id.
    - do 2 eexists. split; [reflexivity|done]. }
  pose proof (closed_allow _ _ _ _ _ HFor (lookup_insert_eq _ _ _) Hc Hstore) as Hal.
  rewrite insert_insert_eq in Hal.
  set (w1 := with_breakers w0 _ _) in Hal.
  erewrite (runChain_first_serves (ChainWorld0 := gateway_chain _ _ _ _ _ _ _) _ gw_cfg gpt4o llama _
    w0 w1 (with_budget w1 None (g_budget_db w0)) _ 0); [|done|done|exact Hal| |reflexivity|reflexivity].
  2: { cbn [admitCandidate gateway_chain]. unfold gw_admit. subst w1. cbn [g_budget with_breakers].
       by rewrite Hbud. }
  cbn [snd breakerReport gateway_chain]. set (w3 := {| g_now := _ |}).
  destruct (closed_report gw_bcfg w3 llama b0) as (Hreg & Hbu & Hca); [apply lookup_insert_eq|done|].
  cbn in Hreg, Hbu, Hca. split.
  - exists b. rewrite Hreg, !lookup_insert_ne by done. done.
  - intros l x. rewrite Hreg. intros Hl Hne.
    destruct (decide (l = labelsOf llama)) as [->|Hne2].
    + rewrite lookup_insert_eq in Hl. injection Hl as <-. done.
    + rewrite !lookup_insert_ne in Hl by done. by apply (Hother l).
  - by rewrite Hbu.
  - rewrite Hca. apply not_elem_of_app. split; [done|].
    intros Hin%list_elem_of_singleton. discriminate Hin.
Qed.

(** while an alternative of its tier stays healthy, a model whose breaker has
    opened is never called again, however long its provider has recovered: the
    open breaker degrades the provider, degraded candidates come last, and
    only a call could close the breaker. *)
Theorem open_breaker_starves_its_model w gaps :
  starving w → let w' := foldl gw_round w gaps in
  gpt4o ∉ g_calls w' ∧ AnyOpen "openai" (g_reg w') = true ∧
  gw_status w' "openai" = StatusDegraded.
Proof.
  intros Hst w'. assert (starving w') as Hst'.
  { subst w'. revert w Hst. induction gaps as [|gap gaps IH]; intros w Hst; simpl; [done|].
    apply IH, starving_round, Hst. }
  split_and!; [apply Hst'| |by apply starving_status].
  destruct (AnyOpen "openai" (g_reg w')) eqn:Ha; [done|].
  destruct (sv_open _ Hst') as (b & Hb & Hs). by apply (proj1 (AnyOpen_false _ _) Ha) in Hb.
Qed.

(** gpt-4o's breaker opened at time zero with a cooldown of half a minute. *)
Definition gw_tripped_gpt4o : gateway :=
  with_budget (with_breakers (gw_start 0 ∅)
    {[ labelsOf gpt4o :=
       {| state := StateOpen; failures := []; successStreak := 0; probeInFlight := false;
          probeStartedAt := 0; openedAt := 0; cooldown := 30 * second; reopens := 1;
          hasStore := false; unpublished := false; cached := SharedState_zero; cachedOK := false;
          cachedAt := None |} ]} ∅) None ∅.

Lemma starving_demo : starving gw_tripped_gpt4o.
Proof.
  split; simpl.
  - eexists. split; [by rewrite lookup_singleton_eq|done].
  - intros l b Hl Hne. rewrite lookup_singleton_ne in Hl; congruence.
  - done.
  - apply not_elem_of_nil.
Qed.

Lemma open_breaker_starves_its_model_witness :
  gpt4o ∉ g_calls (foldl gw_round gw_tripped_gpt4o [minute; hour; 24 * hour]) ∧
  AnyOpen "openai" (g_reg (foldl gw_round gw_tripped_gpt4o [minute; hour; 24 * hour])) = true.
Proof.
  destruct (open_breaker_starves_its_model gw_tripped_gpt4o [minute; hour; 24 * hour]
    starving_demo) as (H1 & H2 & _). split; [exact H1|exact H2].
Defined.

(** ** Witnesses *)

Lemma runChain_attempt_budget_witness :
  let '(o, failures, _, w') := gw_run 1000000 ∅ in
  o ≠ Panicked ∧ g_total w' ≤ g_total (gw_start 1000000 ∅) + 3.
Proof.
  pose proof (@runChain_attempt_budget gateway string string
    (gateway_chain gw_bcfg false gw_calc gw_maxTokens gw_resolve gw_behave second)
    g_total g_calls_of g_verdicts_of
    (gateway_counters gw_bcfg false gw_calc gw_maxTokens gw_resolve gw_behave second)
    ""%string gw_cfg gpt4o 2 (50 * millisecond) 3 [gpt4o; llama] (gw_start 1000000 ∅) eq_refl) as H.
  unfold gw_run. destruct (runChain _ _ _ _ _) as [[[o fs] ev] w'].
  destruct H as (H1 & [_ H2] & _). split; [exact H1|exact H2].
Defined.

Lemma runChain_in_order_witness :
  let '(o, failures, _, _) := gw_run 1000000 ∅ in
  cf_candidate <$> failures = take (length failures) [gpt4o; llama].
Proof.
  pose proof (@runChain_in_order gateway string string
    (gateway_chain gw_bcfg false gw_calc gw_maxTokens gw_resolve gw_behave second)
    g_total g_calls_of g_verdicts_of
    (gateway_counters gw_bcfg false gw_calc gw_maxTokens gw_resolve gw_behave second)
    ""%string gw_cfg gpt4o 2 (50 * millisecond) 3 [gpt4o; llama] (gw_start 1000000 ∅) eq_refl) as H.
  unfold gw_run. destruct (runChain _ _ _ _ _) as [[[o fs] ev] w']. apply H.
Defined.

Lemma runChain_one_verdict_witness :
  let '(o, failures, _, w') := gw_run 1500 tripped in
  g_verdicts_of gpt4o w' = g_verdicts_of gpt4o (gw_start 1500 tripped)
    + (if decide (g_calls_of gpt4o (gw_start 1500 tripped) < g_calls_of gpt4o w') then 1 else 0).
Proof.
  assert (NoDup [gpt4o; llama]) as Hnd by (apply (bool_decide_unpack _); vm_compute; exact I).
  pose proof (@runChain_one_verdict gateway string string
    (gateway_chain gw_bcfg false gw_calc gw_maxTokens gw_resolve gw_behave second)
    g_total g_calls_of g_verdicts_of
    (gateway_counters gw_bcfg false gw_calc gw_maxTokens gw_resolve gw_behave second)
    ""%string gw_cfg gpt4o 2 (50 * millisecond) 3 [gpt4o; llama] (gw_start 1500 tripped) gpt4o
    eq_refl Hnd) as H.
  unfold gw_run. destruct (runChain _ _ _ _ _) as [[[o fs] ev] w']. apply H.
Defined.

(** Before the top-up: the request's own 1017 micro-dollars are the counter. *)
Definition gw_cb : chainBudget :=
  {| cb_teamID := "acme"; cb_capMicros := 1000000; cb_req := gw_req; cb_baseMicros := 1017;
     cb_extra := [] |}.
Definition gw_topped : chainBudget :=
  with_extra gw_cb [{| Tracker.r_teamID := "acme";
                       Tracker.r_period := Tracker.currentPeriod (100 * second);
                       Tracker.r_reserved := 1018 |}].
Definition gw_counter (n : Z) : RedisMap.db Z :=
  {[ Tracker.periodKey "acme" (Tracker.currentPeriod (100 * second)) := (n, None) ]}.

Lemma fallback_settles_exactly_witness :
  0 ≤ 80 ≤ held gw_topped ∧
  holds_until 0 1000 (Tracker.periodKey "acme" (Tracker.currentPeriod (100 * second)))
    (2035 - held gw_topped + 80)
    (settle_request 0 (λ _, Replied)
       (Some {| Tracker.r_teamID := "acme"; Tracker.r_period := Tracker.currentPeriod (100 * second);
                Tracker.r_reserved := 1017 |}) 80 (Some gw_topped) (gw_counter 2035)).
Proof.
  apply (fallback_settles_exactly gw_calc gw_maxTokens (100 * second) 0 0 1000 Replied gw_cb
    "llama-3.3-70b" (gw_counter 1017) 1018 gw_topped (gw_counter 2035) 1000
    {| Cost.InputPer1M := 5000000; Cost.OutputPer1M := 20000000 |} 4 3); try closed.
  - constructor.
  - repeat split; vm_compute; discriminate.
  - intros t' Ht. reflexivity.
Defined.
