(* ===== verification/Admission.v ===== *)
(** * Admission: internal/proxy/ratelimit.go and the reservations of handler.go

    The decisions a request meets before a provider is called: the RPM
    middleware, the TPM reservation ([reserveTokens]), the budget reservation
    ([reserveBudget]) and the 429/402/503 answers.  The rate limiter fails
    open, the budget fails closed. *)

From S2P Require Import Prelude Redis Rational Budget RateLimit Auth Wire Provider.
Open Scope Z_scope.

Definition bucketTTL : Z := 2 * minute.
Definition batchShedFloor : Q := 2 # 10.
Definition budgetWarnThreshold : Q := 8 # 10.

Definition shouldShedForPriority (team : Team) (capacity : Z) (res : Result) : bool :=
  if bool_decide (t_Priority team ≠ PriorityBatch) || (capacity <=? 0) then false
  else Qltb (Remaining res) (batchShedFloor * inject_Z capacity).

Record rateHeaders := { h_RetryAfter : Z; h_Limit : Z; h_Remaining : Z; h_Reset : Z }.

(** Seconds are exact rationals of nanoseconds; [limit] is positive wherever
    the source divides by it. *)
Definition writeRateLimitHeaders (limit : Z) (res : Result) : rateHeaders :=
  let retryAfter := if RetryAfter res <? second then second else RetryAfter res in
  let remaining := if Qltb (Remaining res) 0 then 0%Q else Remaining res in
  let resetSeconds := ((inject_Z limit - Remaining res) / refillPerSecond limit)%Q in
  let resetSeconds := if Qltb resetSeconds 0 then 0%Q else resetSeconds in
  {| h_RetryAfter := Qceil (retryAfter # 1000000000);
     h_Limit := limit;
     h_Remaining := Qtrunc remaining;
     h_Reset := Qceil resetSeconds |}.

(** What a step of the handler answers: go on, or a status, an error type and,
    on a 429, the rate-limit headers. *)
Inductive verdict (A : Type) :=
| Proceed (a : A)
| Reject (status : Z) (typ : string) (headers : option rateHeaders).
Arguments Proceed {A}.
Arguments Reject {A}.

Definition writeRateLimitError {A} (limit : Z) (res : Result) : verdict A :=
  Reject 429 "rate_limit_exceeded" (Some (writeRateLimitHeaders limit res)).
Definition writePriorityShedError {A} (limit : Z) (res : Result) : verdict A :=
  Reject 429 "priority_shed" (Some (writeRateLimitHeaders limit res)).

Section rate_limited.
Context {db} `{!Redis bucket db} `{!LuaNumber}.

(** The RPM middleware, of an authenticated team ([None]: wired wrong). *)
Definition RateLimit (t : Z) (f : net_fate) (team : option Team) (d : db) : verdict unit * db :=
  match team with
  | None => (Reject 500 "internal_error" None, d)
  | Some team =>
      let rpm := Auth.RPM (t_RateLimits team) in
      match Consume t f (t_ID team) RateLimit.RPM rpm 1 bucketTTL d with
      | (Err _, d') => (Proceed tt, d')
      | (Ok res, d') =>
          (if negb (Allowed res) then writeRateLimitError rpm res
           else if shouldShedForPriority team rpm res then writePriorityShedError rpm res
           else Proceed tt, d')
      end
  end.

(** [tr] and [fr] are the clock and the fate of the refund of a shed
    reservation, when there is one. *)
Definition reserveTokens (t tr : Z) (f fr : net_fate) (team : option Team)
    (DefaultMaxTokensFor : string → option Z) (req : chatRequest) (d : db)
    : verdict (option RateLimit.Reservation) * db :=
  match team with
  | None => (Reject 500 "internal_error" None, d)
  | Some team =>
      match DefaultMaxTokensFor (r_Model req) with
      | None => (Reject 500 "internal_error" None, d)
      | Some defaultMaxTokens =>
          let amount := estimateTokens req defaultMaxTokens in
          let tpm := Auth.TPM (t_RateLimits team) in
          match RateLimit.Reserve t f (t_ID team) RateLimit.TPM tpm amount bucketTTL d with
          | (Err _, d') => (Proceed None, d')
          | (Ok (reservation, res), d') =>
              if negb (Allowed res) then (writeRateLimitError tpm res, d')
              else if shouldShedForPriority team tpm res
              then (writePriorityShedError tpm res, (Reconcile tr fr reservation 0 d').2)
              else (Proceed reservation, d')
          end
      end
  end.
End rate_limited.

Definition utilization (spentMicros capMicros : Z) : Q :=
  if capMicros <=? 0 then 0 else inject_Z spentMicros / inject_Z capMicros.

Section budgeted.
Context {db} `{!Redis Z db}.

(** The handle, the estimate and whether the warning header is set. *)
Definition reserveBudget (now t : Z) (f : net_fate) (team : option Team) (calc : Cost.Calculator)
    (DefaultMaxTokensFor : string → option Z) (req : chatRequest) (d : db)
    : verdict (option Tracker.Reservation * Z * bool) * db :=
  match team with
  | None => (Reject 500 "internal_error" None, d)
  | Some team =>
      match DefaultMaxTokensFor (r_Model req) with
      | None => (Reject 500 "internal_error" None, d)
      | Some defaultMaxTokens =>
          match Cost.Cost calc (r_Model req) (estimateInputTokens req)
                  (estimateOutputCeiling req defaultMaxTokens) with
          | Err _ => (Reject 500 "internal_error" None, d)
          | Ok estimatedMicros =>
              match Tracker.Reserve now t f (t_ID team) (t_MonthlyBudgetMicros team)
                      estimatedMicros d with
              | (Err _, d') => (Reject 503 "budget_check_unavailable" None, d')
              | (Ok (reservation, res), d') =>
                  if negb (Tracker.Allowed res) then (Reject 402 "budget_exceeded" None, d')
                  else
                    let warn := Qle_bool budgetWarnThreshold
                      (utilization (Tracker.SpentMicros res) (t_MonthlyBudgetMicros team)) in
                    (Proceed (reservation, estimatedMicros, warn), d')
              end
          end
      end
  end.
End budgeted.

(** ** The 429 headers *)

(** a 429's headers can be followed.  Retry-After is at least one second
    and never shorter than the bucket's own wait, nor a second longer than the
    larger of the two; the remaining count shown is never negative nor above
    the limit; and the reset is at most the time of one full refill of what is
    missing, rounded up. *)
Theorem rate_limit_headers_sound limit res :
  0 < limit → (Remaining res <= inject_Z limit)%Q →
  let h := writeRateLimitHeaders limit res in
  1 ≤ h_RetryAfter h ∧ RetryAfter res ≤ h_RetryAfter h * second ∧
  (h_RetryAfter h - 1) * second < Z.max second (RetryAfter res) ∧
  0 ≤ h_Remaining h ≤ limit ∧ h_Limit h = limit ∧
  0 ≤ h_Reset h ∧
  (inject_Z limit - Remaining res <= refillPerSecond limit * inject_Z (h_Reset h))%Q.
Proof.
  intros Hl Hr h. subst h. unfold writeRateLimitHeaders. simpl.
  set (ra := if RetryAfter res <? second then second else RetryAfter res).
  assert (ra = Z.max second (RetryAfter res)) as Hra.
  { subst ra. destruct (Z.ltb_spec (RetryAfter res) second); lia. }
  assert (Qceil (ra # 1000000000) * second - second < ra ≤ Qceil (ra # 1000000000) * second) as Hce.
  { destruct (Qceil_bounds (ra # 1000000000)) as [H1 H2]. unfold second, millisecond, microsecond, nanosecond in *.
    unfold Qlt, Qle, Qminus, Qplus, Qopp, inject_Z in H1, H2. simpl in H1, H2. lia. }
  assert (0 < second) by done.
  pose proof (refillPerSecond_pos limit Hl) as Hrate.
  set (rm := if Qltb (Remaining res) 0 then 0%Q else Remaining res).
  assert (0 <= rm /\ rm <= inject_Z limit)%Q as [Hm0 Hm1].
  { subst rm. destruct (Qltb (Remaining res) 0) eqn:He.
    - split; [lra|]. apply inject_Z_nonneg. lia.
    - apply Qltb_false in He. split; lra. }
  set (rs := ((inject_Z limit - Remaining res) / refillPerSecond limit)%Q).
  assert (0 <= rs)%Q as Hrs by (apply Qle_shift_div_l; lra).
  assert (Qltb rs 0 = false) as -> by (by apply Qltb_false).
  destruct (Qceil_bounds rs) as [_ Hrc].
  split_and!; try nia; try done.
  - by apply Qtrunc_nonneg.
  - destruct (Qtrunc_bounds rm Hm0) as [H1 _].
    assert (inject_Z (Qtrunc rm) <= inject_Z limit)%Q as H2 by lra.
    by rewrite <- Zle_Qle in H2.
  - assert (inject_Z 0 <= inject_Z (Qceil rs))%Q as H2 by (change (inject_Z 0) with 0%Q; lra).
    by rewrite <- Zle_Qle in H2.
  - apply (Qmult_le_compat_r _ _ (refillPerSecond limit)) in Hrc; [|lra].
    assert (rs * refillPerSecond limit == inject_Z limit - Remaining res)%Q as Hd
      by (subst rs; field; lra). lra.
Qed.

Lemma rate_limit_headers_sound_witness :
  1 ≤ h_RetryAfter (writeRateLimitHeaders 60
        {| Allowed := false; Remaining := (- 5)%Q; RetryAfter := 5500 * millisecond |}).
Proof. apply rate_limit_headers_sound; [lia|vm_compute; discriminate]. Defined.

(** ** Nothing passes uncharged while Redis answers *)

(** The ceiling without wrap-around. *)
Definition exact_ceiling (req : chatRequest) (defaultMaxTokens : Z) : Z :=
  exact_tokens (r_Messages req) + estimateOutputCeiling req defaultMaxTokens.

Lemma estimateTokens_exact req dm :
  0 < dm → exact_ceiling req dm ≤ int64_max →
  estimateTokens req dm = exact_ceiling req dm ∧ 0 < exact_ceiling req dm.
Proof.
  intros Hdm Hmax. unfold estimateTokens, exact_ceiling in *.
  pose proof (exact_tokens_nonneg (r_Messages req)) as H0.
  assert (0 < estimateOutputCeiling req dm) as Ho.
  { unfold estimateOutputCeiling. destruct (Z.ltb_spec 0 (r_MaxTokens req)); lia. }
  rewrite estimateInputTokens_exact by lia. split; [|lia].
  apply wrap64_id. unfold in_int64, int64_min. lia.
Qed.

Section charged.
Context {db} `{!Redis bucket db} `{!LuaNumber}.

(** while Redis answers, no request passes the token limit uncharged.
    For a request whose ceiling fits in 64 bits, [reserveTokens] either lets
    it pass holding a reservation of exactly that ceiling, which the bucket
    had and no longer has, or answers 429 with its headers. *)
Theorem reserveTokens_charges t tr fr team maxTokensFor dm req d :
  let tpm := Auth.TPM (t_RateLimits team) in
  let key := bucketKey (t_ID team) RateLimit.TPM in
  maxTokensFor (r_Model req) = Some dm → 0 < dm → 0 < tpm → exact_ceiling req dm ≤ int64_max →
  match reserveTokens t tr Replied fr (Some team) maxTokensFor req d with
  | (Proceed r, d') =>
      Reserved r = exact_ceiling req dm ∧
      (inject_Z (exact_ceiling req dm) <= level tpm key t d)%Q ∧
      d' = store_bucket t key (level tpm key t d - inject_Z (exact_ceiling req dm))
             (Z.quot bucketTTL millisecond) d
  | (Reject status _ headers, _) => status = 429 ∧ is_Some headers
  end.
Proof.
  intros tpm key Hdm Hdm0 Htpm Hmax. unfold reserveTokens. rewrite Hdm.
  destruct (estimateTokens_exact req dm Hdm0 Hmax) as [-> Hpos].
  unfold RateLimit.Reserve. fold tpm. rewrite Consume_replied by done. fold key. cbn [Allowed].
  unfold consume_tokens. destruct (Qle_bool _ _) eqn:Hle; cbn [negb]; [|by eauto].
  destruct (shouldShedForPriority _ _ _); [by eauto|]. apply Qle_bool_iff in Hle. done.
Qed.
End charged.

(** The bound is needed.  A request may ask for [max_tokens] of two to the 63
    minus one; the ceiling then wraps to a negative number, the limiter refuses
    the amount as an error, and the handler fails open: the request passes an
    exhausted bucket holding nothing. *)
Definition greedy_request (n : Z) : chatRequest :=
  {| r_Model := "gpt-4o-mini"; r_Messages := [{| m_Role := "user"; m_Content := "hi" |}];
     r_Temperature := None; r_MaxTokens := n; r_Stream := false; r_Stop := [] |}.

Definition demo_tenant : Team :=
  {| t_ID := "acme"; t_Name := "acme"; t_OrganizationID := "default"; t_KeyHash := "#";
     t_AllowedProviders := ["openai"%string]; t_AllowedModels := ["gpt-4o-mini"%string];
     t_RateLimits := {| Auth.RPM := 60; Auth.TPM := 1000 |}; t_MonthlyBudgetMicros := 5000000;
     t_Priority := PriorityRealtime; t_IsAdmin := false; t_CacheIsolated := false;
     t_KeySource := "config"; t_KeyMasked := ""; t_KeyCreatedAt := None |}.

#[local] Existing Instance exact_lua.

(** A bucket with nothing left at the first second. *)
Definition exhausted : RedisMap.db bucket :=
  {[ bucketKey "acme" RateLimit.TPM := ({| b_tokens := 0; b_ts := 1 |}, None) ]}.

Theorem max_tokens_overflow_skips_token_limit :
  validate (greedy_request int64_max) = None ∧
  reserveTokens 1000000 1000000 Replied Replied (Some demo_tenant) (λ _, Some 1000)
    (greedy_request int64_max) exhausted = (Proceed None, exhausted) ∧
  (reserveTokens 1000000 1000000 Replied Replied (Some demo_tenant) (λ _, Some 1000)
    (greedy_request 100) exhausted).1 = writeRateLimitError 1000
      {| Allowed := false; Remaining := 0 # 1; RetryAfter := 6300 * millisecond |}.
Proof. vm_compute. split_and!; reflexivity. Qed.

(** The same for money: two to the 58 output tokens at 600000 micro-dollars the
    million multiply to a multiple of two to the 64, so the estimate is the
    prompt alone and a team one micro-dollar below its cap is admitted. *)
Theorem max_tokens_overflow_skips_budget :
  let nearly_spent : RedisMap.db Z :=
    {[ Tracker.periodKey "acme" (Tracker.currentPeriod 0) := (4999999, None) ]} in
  (reserveBudget 0 0 Replied (Some demo_tenant) Cost.demo_calc (λ _, Some 1000)
    (greedy_request (2 ^ 58)) nearly_spent).1 =
  Proceed (Some {| Tracker.r_teamID := "acme"; Tracker.r_period := Tracker.currentPeriod 0;
                   Tracker.r_reserved := 0 |}, 0, true) ∧
  (reserveBudget 0 0 Replied (Some demo_tenant) Cost.demo_calc (λ _, Some 1000)
    (greedy_request 100) nearly_spent).1 = Reject 402 "budget_exceeded" None.
Proof. vm_compute. split; reflexivity. Qed.

Lemma reserveTokens_charges_witness :
  match reserveTokens 1000000 1000000 Replied Replied (Some demo_tenant) (λ _, Some 1000)
          (greedy_request 100) (∅ : RedisMap.db bucket) with
  | (Proceed r, _) => Reserved r = 105
  | (Reject _ _ _, _) => False
  end.
Proof.
  pose proof (reserveTokens_charges 1000000 1000000 Replied demo_tenant (λ _, Some 1000) 1000
    (greedy_request 100) (∅ : RedisMap.db bucket) eq_refl ltac:(closed) ltac:(closed)
    ltac:(closed)) as H.
  destruct (reserveTokens _ _ _ _ _ _ _ _) as [[r|s ty h] d'] eqn:HR.
  - destruct H as [H _]. exact H.
  - vm_compute in HR. discriminate HR.
Defined.
