(* ===== verification/Router.v ===== *)
(** * internal/router and internal/proxy/route.go: choosing a tier

    The lexical classifier, the policy that maps a complexity to a tier, and
    the handler's [route], which turns a routing keyword into a concrete model.
    Prompts are ASCII byte strings here ([strings.ToLower] and
    [strings.TrimSpace] also know other alphabets); scores are exact
    rationals. *)

From Stdlib Require Import Ascii.
From S2P Require Import Prelude Rational Breaker Health Chain Wire.
Open Scope Z_scope.

(** ** classify.go *)

Inductive Complexity := Simple | Complex.

#[export] Instance Complexity_eq_dec : EqDecision Complexity.
Proof. solve_decision. Defined.

Abbreviation Lexicon := (list string).

Record Weights := {
  w_Length : Q; w_Reasoning : Q; w_Constraints : Q; w_Context : Q; w_Format : Q; w_Simple : Q }.

Record Scales := {
  s_LengthTokens : Z; s_ReasoningMatches : Z; s_ConstraintMatches : Z; s_FormatMatches : Z }.

Record ClassifierConfig := {
  Threshold : Q; cc_Weights : Weights; cc_Scales : Scales;
  lex_Reasoning : Lexicon; lex_Constraints : Lexicon; lex_Format : Lexicon; lex_Simple : Lexicon }.

(** The score and the level; the printed signals are its log. *)
Record Decision := { d_Level : Complexity; d_Score : Q }.

Definition lower_ascii (c : ascii) : ascii :=
  let n := Ascii.nat_of_ascii c in
  if ((65 <=? n) && (n <=? 90))%nat then Ascii.ascii_of_nat (n + 32) else c.

Fixpoint ToLower (s : string) : string :=
  match s with EmptyString => EmptyString | String c s' => String (lower_ascii c) (ToLower s') end.

(** [strings.Contains] *)
Fixpoint contains (s sub : string) : bool :=
  String.prefix sub s || match s with EmptyString => false | String _ s' => contains s' sub end.

Definition is_space (c : ascii) : bool :=
  let n := Ascii.nat_of_ascii c in ((9 <=? n) && (n <=? 13) || (n =? 32))%nat.

Fixpoint trim_left (s : string) : string :=
  match s with
  | EmptyString => EmptyString
  | String c s' => if is_space c then trim_left s' else s
  end.

Fixpoint trim_right (s : string) : string :=
  match s with
  | EmptyString => EmptyString
  | String c s' => match trim_right s' with
                   | EmptyString => if is_space c then EmptyString else String c EmptyString
                   | t => String c t
                   end
  end.

Definition TrimSpace (s : string) : string := trim_right (trim_left s).

Definition newline : ascii := Ascii.ascii_of_nat 10.

(** [strings.SplitSeq(text, "\n")] *)
Fixpoint split_lines (s cur : string) : list string :=
  match s with
  | EmptyString => [cur]
  | String c s' => if Ascii.eqb c newline then cur :: split_lines s' EmptyString
                   else split_lines s' (cur ++ String c EmptyString)
  end.

Definition code_fence : string := "```".

(** The text, the number of turns and whether a code block was pasted. *)
Definition promptText (msgs : list Message) : string * Z * bool :=
  let '(text, turns) := foldl (λ '(b, turns) m,
    let turns := if bool_decide (pm_Role m ≠ Role_string RoleSystem) then turns + 1 else turns in
    if bool_decide (pm_Role m = Role_string RoleAssistant) then (b, turns)
    else ((b ++ pm_Content m ++ String newline EmptyString)%string, turns)) (EmptyString, 0) msgs in
  (text, turns, contains text code_fence).

Definition estimateTokens (msgs : list Message) : Z :=
  foldl (λ total m, wrap64 (total + (Z.quot (Z.of_nat (String.length (pm_Content m)) + 3) 4 + 4)))
    0 msgs.

Definition countMatches (lowered : string) (lex : Lexicon) : Z := countb (contains lowered) lex.

Definition list_item (line : string) : bool :=
  match TrimSpace line with
  | String c0 (String c1 _) =>
      let a := Ascii.nat_of_ascii c0 in let b := Ascii.nat_of_ascii c1 in
      (((a =? 45) || (a =? 42)) && (b =? 32) ||
       ((49 <=? a) && (a <=? 57)) && ((b =? 46) || (b =? 41)))%nat
  | _ => false
  end.

Definition countListItems (text : string) : Z := countb list_item (split_lines text EmptyString).

Definition saturate (v scale : Z) : Q :=
  if (scale <=? 0) || (v <=? 0) then 0%Q else Qmin (inject_Z v / inject_Z scale) 1.

Definition Classify (cfg : ClassifierConfig) (msgs : list Message) : Decision :=
  let '(scanned, turns, hasCode) := promptText msgs in
  let lowered := ToLower scanned in
  let tokens := estimateTokens msgs in
  let reasoning := countMatches lowered (lex_Reasoning cfg) in
  let constraints := countMatches lowered (lex_Constraints cfg) + countListItems scanned in
  let format := countMatches lowered (lex_Format cfg) in
  let simple := countMatches lowered (lex_Simple cfg) in
  let context := if hasCode then 1%Q else if 1 <? turns then (5 # 10)%Q else 0%Q in
  let w := cc_Weights cfg in let s := cc_Scales cfg in
  let score := (w_Length w * saturate tokens (s_LengthTokens s)
                + w_Reasoning w * saturate reasoning (s_ReasoningMatches s)
                + w_Constraints w * saturate constraints (s_ConstraintMatches s)
                + w_Context w * context
                + w_Format w * saturate format (s_FormatMatches s))%Q in
  let score := if 0 <? simple then (score + w_Simple w)%Q else score in
  {| d_Level := if Qle_bool (Threshold cfg) score then Complex else Simple; d_Score := score |}.

(** ** policy.go *)

Definition AutoModel : string := "auto".

Record Policy := { pol_Simple : string; pol_Complex : string }.

Definition Tier_ (p : Policy) (c : Complexity) : string :=
  match c with Complex => pol_Complex p | Simple => pol_Simple p end.

Definition Escalate (p : Policy) (tier : string) : option string :=
  if bool_decide (tier = pol_Simple p ∧ pol_Complex p ≠ ""%string ∧ pol_Complex p ≠ pol_Simple p)
  then Some (pol_Complex p) else None.

Record Plan := { pl_Tier : string; pl_Level : Complexity; pl_Pinned : bool }.

Definition Routes (p : Policy) (model : string) : bool :=
  bool_decide (model = AutoModel) ||
  (bool_decide (model ≠ ""%string) &&
   (bool_decide (model = pol_Simple p) || bool_decide (model = pol_Complex p))).

Definition levelOf (p : Policy) (tier : string) : Complexity :=
  if bool_decide (tier = pol_Complex p) then Complex else Simple.

Definition Plan_ (cfg : ClassifierConfig) (p : Policy) (model : string) (msgs : list Message)
    : option Plan :=
  if negb (Routes p model) then None
  else if bool_decide (model ≠ AutoModel)
  then Some {| pl_Tier := model; pl_Level := levelOf p model; pl_Pinned := true |}
  else let d := Classify cfg msgs in
       Some {| pl_Tier := Tier_ p (d_Level d); pl_Level := d_Level d; pl_Pinned := false |}.

(** ** route.go *)

Inductive route_error := ErrTierUnknown | ErrTierEmpty.

Section route.
(** The resolver's tiers, the health and allowlist of the request's chain,
    and the mirrored state of each candidate's breaker, if one is wired. *)
Context (TierNamed : string → list Candidate)
  (StatusOf_ : option (string → Status)) (Allowed_ : option (string → string → bool))
  (breakerState : Candidate → option State).

Definition tier_chain (candidates : list Candidate) : list Candidate :=
  BuildChain {| Requested := {| c_Provider := ""; c_Model := "" |}; Tier := candidates;
                StatusOf := StatusOf_; Allowed := Allowed_ |}.

Definition selectCandidate (tier : string) : result route_error Candidate :=
  match TierNamed tier with
  | [] => Err ErrTierUnknown
  | candidates =>
      match tier_chain candidates with
      | [] => Err ErrTierEmpty
      | (head :: _) as chain =>
          match find_first (λ c, negb (bool_decide (breakerState c = Some StateOpen))) chain with
          | Some c => Ok c
          | None => Ok head
          end
      end
  end.

(** The model to serve, or the status and type of the error response.
    [None] is a handler without a router. *)
Definition route (routing : option (ClassifierConfig * Policy)) (req : chatRequest)
    : result (Z * string) (string * option Plan) :=
  match routing with
  | None => Ok (r_Model req, None)
  | Some (cfg, p) =>
      match Plan_ cfg p (r_Model req) (pr_Messages (toProviderRequest req)) with
      | None => Ok (r_Model req, None)
      | Some plan =>
          let '(r, plan) :=
            match selectCandidate (pl_Tier plan) with
            | Ok c => (Ok c, plan)
            | Err e =>
                if pl_Pinned plan then (Err e, plan)
                else match Escalate p (pl_Tier plan) with
                     | None => (Err e, plan)
                     | Some up =>
                         match selectCandidate up with
                         | Ok c => (Ok c, {| pl_Tier := up; pl_Level := pl_Level plan;
                                             pl_Pinned := pl_Pinned plan |})
                         | Err _ => (Err e, plan)
                         end
                     end
            end in
          match r with
          | Ok c => Ok (c_Model c, Some plan)
          | Err ErrTierUnknown => Err (500, "internal_error"%string)
          | Err ErrTierEmpty => Err (403, "model_not_allowed"%string)
          end
      end
  end.

Definition topTierModel (routing : option (ClassifierConfig * Policy)) : string :=
  match routing with
  | None => ""
  | Some (_, p) => match TierNamed (pol_Complex p) with [] => "" | c :: _ => c_Model c end
  end.

(** ** What routing may choose *)

Definition allowed_cand (c : Candidate) : bool :=
  match Allowed_ with None => true | Some f => f (c_Provider c) (c_Model c) end.

Lemma tier_chain_elem cs c :
  c ∈ tier_chain cs → c ∈ cs ∧ named c ∧ allowed_cand c = true.
Proof.
  intros Hc. apply elem_of_BuildChain in Hc as ([Hin Hn] & Ha & _). split_and!; [|done|done].
  apply elem_of_cons in Hin as [->|Hin]; [by destruct Hn|done].
Qed.

Lemma tier_chain_nil cs :
  tier_chain cs = [] → ∀ c, c ∈ cs → named c → allowed_cand c = false.
Proof.
  intros Hnil c Hc Hn. destruct (allowed_cand c) eqn:Ha; [|done]. exfalso.
  eapply (BuildChain_nonempty _ c); [|exact Hnil]. apply elem_of_permitted.
  split; [|exact Ha]. split; [by apply elem_of_cons; right|done].
Qed.

Lemma selectCandidate_spec tier :
  match selectCandidate tier with
  | Ok c => c ∈ TierNamed tier ∧ named c ∧ allowed_cand c = true
  | Err ErrTierUnknown => TierNamed tier = []
  | Err ErrTierEmpty => ∀ c, c ∈ TierNamed tier → named c → allowed_cand c = false
  end.
Proof.
  unfold selectCandidate. destruct (TierNamed tier) as [|c0 cs] eqn:Ht; [done|].
  rewrite <- Ht. destruct (tier_chain (TierNamed tier)) as [|h l] eqn:Hch; [by apply tier_chain_nil|].
  destruct (find_first (λ c, negb (bool_decide (breakerState c = Some StateOpen))) (h :: l))
    as [c|] eqn:Hf; apply tier_chain_elem; rewrite Hch; [|set_solver].
  by apply find_first_Some in Hf as [? _].
Qed.

Lemma Escalate_up p tier up : Escalate p tier = Some up → up = pol_Complex p.
Proof. unfold Escalate. destruct (bool_decide _); congruence. Qed.

(** routing honours the caller and the allowlist.  An explicitly named
    model is never changed.  A routed request is served by a candidate of a
    declared tier that the team may use; that tier is the one the caller
    named, or the one its prompt's complexity maps to, or, only when nothing
    there is usable, the complex tier.  A 403 means the team may use nothing
    in the tier asked for. *)
Theorem route_sound cfg p req :
  (Routes p (r_Model req) = false → route (Some (cfg, p)) req = Ok (r_Model req, None)) ∧
  (∀ m plan, route (Some (cfg, p)) req = Ok (m, Some plan) →
     (∃ c, c ∈ TierNamed (pl_Tier plan) ∧ c_Model c = m ∧ allowed_cand c = true) ∧
     (r_Model req ≠ AutoModel → pl_Tier plan = r_Model req) ∧
     (r_Model req = AutoModel →
        pl_Tier plan = Tier_ p (pl_Level plan) ∨ pl_Tier plan = pol_Complex p)) ∧
  (∀ typ, route (Some (cfg, p)) req = Err (403, typ) →
     ∃ plan, Plan_ cfg p (r_Model req) (pr_Messages (toProviderRequest req)) = Some plan ∧
       ∀ c, c ∈ TierNamed (pl_Tier plan) → named c → allowed_cand c = false).
Proof.
  unfold route. split; [unfold Plan_; by intros ->|].
  destruct (Plan_ cfg p (r_Model req) _) as [plan|] eqn:Hp; [|split; intros; simplify_eq].
  assert (if bool_decide (r_Model req ≠ AutoModel) then pl_Pinned plan = true ∧ pl_Tier plan = r_Model req
          else pl_Tier plan = Tier_ p (pl_Level plan)) as Hplan.
  { unfold Plan_ in Hp. repeat case_match; simplify_eq; done. }
  pose proof (selectCandidate_spec (pl_Tier plan)) as Hsel.
  split.
  - intros m plan' Hr. destruct (selectCandidate (pl_Tier plan)) as [c|e].
    + simplify_eq/=. destruct Hsel as (? & ? & ?). split; [eauto|]. case_bool_decide; naive_solver.
    + destruct (pl_Pinned plan) eqn:Hpin; [by destruct e|].
      destruct (Escalate p (pl_Tier plan)) as [up|] eqn:He; [|by destruct e].
      pose proof (selectCandidate_spec up) as Hup.
      destruct (selectCandidate up) as [c|e']; [|by destruct e]. simplify_eq/=.
      destruct Hup as (? & ? & ?). split; [eauto|]. apply Escalate_up in He as ->.
      case_bool_decide; naive_solver.
  - intros typ Hr. exists plan. split; [done|].
    destruct (selectCandidate (pl_Tier plan)) as [c|[]]; [done| |done].
    repeat case_match; simplify_eq.
Qed.
End route.

(** ** No single feature dominates the score *)

Lemma saturate_range v scale : (0 <= saturate v scale)%Q ∧ (saturate v scale <= 1)%Q.
Proof.
  unfold saturate. destruct ((scale <=? 0) || (v <=? 0)) eqn:He; [split; lra|].
  apply orb_false_iff in He as [Hs%Z.leb_gt Hv%Z.leb_gt].
  split; [|apply Q.le_min_r]. apply Q.min_glb; [|lra].
  apply Qle_shift_div_l; [by apply inject_Z_pos|].
  assert (0 < inject_Z v)%Q by (by apply inject_Z_pos). lra.
Qed.
