(* ===== verification/CacheKey.v ===== *)
(** * internal/cache/key.go: the identity of a cacheable request

    A key is a fingerprint of everything that changes the meaning of an answer
    (tenant scope, model, sampling parameters, the conversation before the last
    message) and the last message, whose text is compared.  Entries live in the
    bucket of their fingerprint, so what the fingerprint separates, the cache
    can never mix up. *)

From Stdlib Require Import Ascii.
From S2P Require Import Prelude Text Float32 Sha256 Wire.

Definition keyPrefix : string := "switchyard:cache".

Record Scope := { sc_Org : string; sc_Team : string; sc_Isolated : bool }.

Definition Scope_ID (s : Scope) : string :=
  if sc_Isolated s || bool_decide (sc_Org s = ""%string)
  then ("team:" ++ sc_Team s)%string else ("org:" ++ sc_Org s)%string.

Record Key := {
  k_Fingerprint : string;
  k_Query : string;
  k_EntryID : string;
  k_TeamID : string;
  k_ScopeID : string
}.

(** What [writeField] adds to the hash: an eight-byte length, the name, a NUL,
    the value. *)
Definition writeField (name value : string) : string :=
  put_be 8 (Z.of_nat (String.length name + String.length value + 1))
    (name ++ String "000" value).

Definition normalizeQuery (s : string) : string := Join (Fields s) " ".

(** [n = -n] wraps on the least int64, whose digits are then none. *)
Definition appendInt (n : Z) : string :=
  if (n =? 0)%Z then "0"
  else let neg := (n <? 0)%Z in
       let n := if neg then wrap64 (- n) else n in
       ((if neg then "-" else "") ++ digits_loop 20 n "")%string.
Definition itoa (n : Z) : string := appendInt n.

(** A float32 by its bit pattern. *)
Definition ftoa (f : float32) : string := hex_encode (put_be 4 (f32_bits f) "").

Definition temp_field (t : option float32) : string :=
  match t with None => "nil" | Some f => ftoa f end.

Definition query_of (ms : list Message) : string :=
  match last ms with Some m => normalizeQuery (pm_Content m) | None => "" end.

(** [req.Messages[:n-1]] *)
Definition prefix_of (ms : list Message) : list Message := take (length ms - 1) ms.

Definition message_fields (m : Message) : list (string * string) :=
  [("role"%string, pm_Role m); ("msg"%string, pm_Content m)].

(** The fields the fingerprint hashes, in the order they are written. *)
Definition fingerprint_fields (scope : Scope) (req : Request) : list (string * string) :=
  [("scope"%string, Scope_ID scope); ("model"%string, pr_Model req);
   ("maxtok"%string, itoa (pr_MaxTokens req)); ("temp"%string, temp_field (pr_Temperature req))]
  ++ map (pair "stop"%string) (pr_Stop req)
  ++ flat_map message_fields (prefix_of (pr_Messages req)).

Definition hashed (fields : list (string * string)) : string :=
  cat (map (λ f, writeField f.1 f.2) fields).

Definition digest (fields : list (string * string)) : string :=
  hex_encode (sha256 (hashed fields)).

Definition entry_fields (fingerprint query : string) : list (string * string) :=
  [("fp"%string, fingerprint); ("q"%string, query)].

Definition NewKey (scope : Scope) (req : Request) : Key :=
  let query := query_of (pr_Messages req) in
  let fingerprint := digest (fingerprint_fields scope req) in
  {| k_Fingerprint := fingerprint;
     k_Query := query;
     k_EntryID := digest (entry_fields fingerprint query);
     k_TeamID := sc_Team scope;
     k_ScopeID := Scope_ID scope |}.

Definition entryKey (id : string) : string := (keyPrefix ++ ":entry:" ++ id)%string.
Definition EntryKey (k : Key) : string := entryKey (k_EntryID k).
Definition indexKey (fingerprint : string) : string := (keyPrefix ++ ":index:" ++ fingerprint)%string.
Definition IndexKey (k : Key) : string := indexKey (k_Fingerprint k).
Definition teamKey (teamID : string) : string := (keyPrefix ++ ":team:" ++ teamID)%string.
Definition TeamKey (k : Key) : string := teamKey (k_TeamID k).
Definition scopeKey (scopeID : string) : string := (keyPrefix ++ ":scope:" ++ scopeID)%string.
Definition ScopeKey (k : Key) : string := scopeKey (k_ScopeID k).

(** ** The framing is unambiguous *)

Fixpoint nul_free (s : string) : bool :=
  match s with
  | EmptyString => true
  | String c s' => negb (bool_decide (c = "000"%char)) && nul_free s'
  end.

Lemma nul_split n n' v v' :
  nul_free n = true → nul_free n' = true →
  (n ++ String "000" v = n' ++ String "000" v')%string → n = n' ∧ v = v'.
Proof.
  revert n'. induction n as [|c n IH]; intros [|c' n'] Hn Hn' H; simpl in Hn, Hn';
    rewrite ?andb_true_iff in *; rewrite ?negb_true_iff in *; rewrite ?bool_decide_eq_false in *.
  - by injection H as ->.
  - injection H as <- _. by destruct Hn'.
  - injection H as -> _. by destruct Hn.
  - injection H as -> H. destruct (IH n') as [-> ->]; [apply Hn|apply Hn'|exact H|done].
Qed.

(** A field a Go program can build: its name has no NUL (the names are
    literals) and its length is a Go [int]. *)
Definition field_ok (f : string * string) : Prop :=
  nul_free f.1 = true ∧ Z.of_nat (String.length f.1 + String.length f.2 + 1) < 2 ^ 63.

Lemma hashed_cons f fs : hashed (f :: fs) = (writeField f.1 f.2 ++ hashed fs)%string.
Proof. reflexivity. Qed.

Lemma hashed_cons_ne f fs : hashed (f :: fs) ≠ ""%string.
Proof.
  rewrite hashed_cons. intros H%(f_equal String.length).
  rewrite string_app_length in H. unfold writeField in H. rewrite put_be_length in H. simpl in H. lia.
Qed.

(** No two sequences of fields hash the same bytes. *)
Lemma hashed_inj fs fs' :
  Forall field_ok fs → Forall field_ok fs' → hashed fs = hashed fs' → fs = fs'.
Proof.
  intros Hfs. revert fs'. induction Hfs as [|[n v] fs [Hn Hlen] _ IH].
  { intros [|f' fs'] _ H; [done|]. by apply eq_sym, hashed_cons_ne in H. }
  intros [|[n' v'] fs'] Hfs' H; [by apply hashed_cons_ne in H|].
  inversion Hfs' as [|? ? [Hn' Hlen'] Hfs2]; subst. rewrite !hashed_cons in H. cbn [fst snd] in *.
  unfold writeField in H. rewrite put_be_app, (put_be_app _ (Z.of_nat (_ + String.length v' + _))) in H.
  rewrite !(string_app_assoc (put_be _ _ _)), <- !put_be_app in H.
  apply put_be_inj in H as [Hl H]; [|simpl; lia..].
  apply string_app_inv_length in H as [Hb Hrest].
  - apply nul_split in Hb as [-> ->]; [|done..]. by rewrite (IH fs').
  - rewrite !string_app_length. simpl. lia.
Qed.

(** ** What a fingerprint tells apart *)

Lemma appendInt_FormatInt n : in_int64 n → n ≠ int64_min → appendInt n = FormatInt n.
Proof.
  unfold in_int64, int64_min, int64_max. intros Hn Hmin. unfold appendInt, FormatInt.
  destruct (n =? 0); [done|]. destruct (Z.ltb_spec n 0).
  - rewrite wrap64_id by (unfold in_int64, int64_min, int64_max; lia). by rewrite Z.abs_neq by lia.
  - by rewrite Z.abs_eq by lia.
Qed.

Lemma itoa_inj n n' : in_int64 n → in_int64 n' → itoa n = itoa n' → n = n'.
Proof.
  intros Hn Hn'. unfold itoa.
  assert (∀ m, in_int64 m → appendInt m = "-"%string → m = int64_min) as Hdash.
  { intros m Hm H. destruct (decide (m = int64_min)); [done|].
    rewrite appendInt_FormatInt in H by done. apply (f_equal ParseInt) in H.
    rewrite ParseInt_FormatInt in H by done. discriminate H. }
  assert (appendInt int64_min = "-"%string) as Hmin by reflexivity.
  destruct (decide (n = int64_min)) as [->|H1]; [rewrite Hmin; intros H; by apply eq_sym, Hdash in H|].
  destruct (decide (n' = int64_min)) as [->|H2]; [rewrite Hmin; intros H; by apply Hdash in H|].
  rewrite !appendInt_FormatInt by done. intros H%(f_equal ParseInt).
  rewrite !ParseInt_FormatInt in H by done. by injection H.
Qed.

Definition temp_ok (t : option float32) : Prop :=
  match t with Some f => valid32 f = true | None => True end.

Lemma ftoa_length f : String.length (ftoa f) = 8%nat.
Proof.
  unfold ftoa. assert (∀ s, String.length (hex_encode s) = (2 * String.length s)%nat) as Hhex.
  { induction s as [|c s IH]; simpl; [done|]. rewrite IH. lia. }
  by rewrite Hhex, put_be_length.
Qed.

Lemma temp_field_inj t t' : temp_ok t → temp_ok t' → temp_field t = temp_field t' → t = t'.
Proof.
  destruct t as [f|], t' as [f'|]; simpl; intros Hf Hf' H; try done.
  all: try (apply (f_equal String.length) in H; rewrite ftoa_length in H; discriminate H).
  apply hex_encode_inj, put_be_inj in H as [H _]; [|by apply f32_bits_range..].
  f_equal. by apply f32_bits_inj.
Qed.

(** Two scopes share a cache exactly when both are the organisation's, or both
    are the one team's own. *)
Definition private (s : Scope) : bool := sc_Isolated s || bool_decide (sc_Org s = ""%string).
Definition shares (s s' : Scope) : Prop :=
  if private s then private s' = true ∧ sc_Team s = sc_Team s'
  else private s' = false ∧ sc_Org s = sc_Org s'.

Lemma Scope_ID_shares s s' : Scope_ID s = Scope_ID s' ↔ shares s s'.
Proof.
  unfold shares, Scope_ID. fold (private s) (private s').
  destruct (private s), (private s'); split.
  - intros H. split; [done|]. by apply (string_app_inv_prefix "team:").
  - by intros [_ ->].
  - intros H. discriminate H.
  - by intros [? _].
  - intros H. discriminate H.
  - by intros [? _].
  - intros H. split; [done|]. by apply (string_app_inv_prefix "org:").
  - by intros [_ ->].
Qed.

(** The parts of a request that two askers must agree on to share an answer. *)
Record same_question (s : Scope) (r : Request) (s' : Scope) (r' : Request) : Prop := {
  sq_scope : shares s s';
  sq_model : pr_Model r = pr_Model r';
  sq_max_tokens : pr_MaxTokens r = pr_MaxTokens r';
  sq_temperature : pr_Temperature r = pr_Temperature r';
  sq_stop : pr_Stop r = pr_Stop r';
  sq_context : prefix_of (pr_Messages r) = prefix_of (pr_Messages r')
}.

Lemma same_question_sym s r s' r' : same_question s r s' r' → same_question s' r' s r.
Proof. intros [H1 H2 H3 H4 H5 H6]. split; try done. by apply Scope_ID_shares, eq_sym, Scope_ID_shares. Qed.

Lemma same_question_trans s1 r1 s2 r2 s3 r3 :
  same_question s1 r1 s2 r2 → same_question s2 r2 s3 r3 → same_question s1 r1 s3 r3.
Proof.
  intros [A1 A2 A3 A4 A5 A6] [B1 B2 B3 B4 B5 B6]. split; try congruence.
  apply Scope_ID_shares. apply Scope_ID_shares in A1, B1. congruence.
Qed.

(** A request as the gateway can hold it. *)
Record request_ok (s : Scope) (r : Request) : Prop := {
  ro_fields : Forall field_ok (fingerprint_fields s r);
  ro_max_tokens : in_int64 (pr_MaxTokens r);
  ro_temperature : temp_ok (pr_Temperature r);
  ro_query : Z.of_nat (String.length (query_of (pr_Messages r))) < 2 ^ 62
}.

(** Two different inputs with one digest. *)
Definition sha256_collision (x y : string) : Prop := x ≠ y ∧ sha256 x = sha256 y.

Lemma digest_inj fs fs' :
  Forall field_ok fs → Forall field_ok fs' → digest fs = digest fs' →
  fs = fs' ∨ sha256_collision (hashed fs) (hashed fs').
Proof.
  intros Hfs Hfs' H. apply hex_encode_inj in H.
  destruct (decide (hashed fs = hashed fs')) as [He|]; [left|by right]. by apply hashed_inj.
Qed.

Lemma flat_messages_inj ms ms' :
  flat_map message_fields ms = flat_map message_fields ms' → ms = ms'.
Proof.
  revert ms'. induction ms as [|[r c] ms IH]; intros [|[r' c'] ms']; simpl; try done.
  intros [= -> -> H]. by rewrite (IH _ H).
Qed.

Lemma stops_then_messages stops stops' ms ms' :
  map (pair "stop"%string) stops ++ flat_map message_fields ms
    = map (pair "stop"%string) stops' ++ flat_map message_fields ms' →
  stops = stops' ∧ ms = ms'.
Proof.
  revert stops'. induction stops as [|x stops IH]; intros [|x' stops']; simpl.
  - intros H. split; [done|]. by apply flat_messages_inj.
  - destruct ms as [|m ms]; simpl; intros [=].
  - destruct ms' as [|m ms']; simpl; intros [=].
  - intros [= -> H]. by destruct (IH _ H) as [-> ->].
Qed.

Lemma hex_encode_length s : String.length (hex_encode s) = (2 * String.length s)%nat.
Proof. induction s as [|c s IH]; simpl; [done|]. rewrite IH. lia. Qed.

Lemma digest_length fs : (String.length (digest fs) ≤ 64)%nat.
Proof. unfold digest. rewrite hex_encode_length. pose proof (sha256_length (hashed fs)). lia. Qed.

Lemma fingerprint_length s r : Z.of_nat (String.length (k_Fingerprint (NewKey s r))) < 2 ^ 62.
Proof. pose proof (digest_length (fingerprint_fields s r)). cbn [NewKey k_Fingerprint]. lia. Qed.

Lemma entry_fields_ok fp q :
  Z.of_nat (String.length fp) < 2 ^ 62 → Z.of_nat (String.length q) < 2 ^ 62 →
  Forall field_ok (entry_fields fp q).
Proof. intros Hf Hq. repeat constructor; simpl; lia. Qed.

Lemma entry_id_inj fp q fp' q' :
  Z.of_nat (String.length fp) < 2 ^ 62 → Z.of_nat (String.length q) < 2 ^ 62 →
  Z.of_nat (String.length fp') < 2 ^ 62 → Z.of_nat (String.length q') < 2 ^ 62 →
  digest (entry_fields fp q) = digest (entry_fields fp' q') →
  (fp = fp' ∧ q = q') ∨
  sha256_collision (hashed (entry_fields fp q)) (hashed (entry_fields fp' q')).
Proof.
  intros H1 H2 H3 H4 H. apply digest_inj in H as [H|H]; [left|by right|by apply entry_fields_ok..].
  by injection H.
Qed.

Lemma fingerprint_separates s r s' r' :
  request_ok s r → request_ok s' r' → k_Fingerprint (NewKey s r) = k_Fingerprint (NewKey s' r') →
  same_question s r s' r' ∨
  sha256_collision (hashed (fingerprint_fields s r)) (hashed (fingerprint_fields s' r')).
Proof.
  intros [Hf Hm Ht Hq] [Hf' Hm' Ht' Hq'] H.
  apply digest_inj in H as [H|H]; [left|by right|done|done].
  unfold fingerprint_fields in H. injection H as Hid Hmod Htok Htemp Hrest.
  apply stops_then_messages in Hrest as [Hstop Hctx].
  split; [by apply Scope_ID_shares|done|by apply itoa_inj|by apply temp_field_inj|done|done].
Qed.

Lemma entry_separates s r s' r' :
  request_ok s r → request_ok s' r' → k_EntryID (NewKey s r) = k_EntryID (NewKey s' r') →
  (k_Fingerprint (NewKey s r) = k_Fingerprint (NewKey s' r') ∧ k_Query (NewKey s r) = k_Query (NewKey s' r')) ∨
  sha256_collision (hashed (entry_fields (k_Fingerprint (NewKey s r)) (k_Query (NewKey s r))))
    (hashed (entry_fields (k_Fingerprint (NewKey s' r')) (k_Query (NewKey s' r')))).
Proof.
  intros [_ _ _ Hq] [_ _ _ Hq'] H. by apply entry_id_inj; [apply fingerprint_length| |apply fingerprint_length| |].
Qed.

(** the cache's identity separates tenants and questions.  Two requests
    get the same fingerprint only if they are the same question: the same
    tenant scope (one shared organisation, or one team's own), model, token
    limit, temperature to the last bit, stop sequences and preceding
    conversation; or their fingerprint inputs are a SHA-256 collision.  They
    get the same entry id only if moreover their last messages have the same
    words, or there is again a collision. *)
Theorem NewKey_separates s r s' r' :
  let k := NewKey s r in
  let k' := NewKey s' r' in
  request_ok s r → request_ok s' r' →
  (k_Fingerprint k = k_Fingerprint k' →
   same_question s r s' r' ∨
   sha256_collision (hashed (fingerprint_fields s r)) (hashed (fingerprint_fields s' r'))) ∧
  (k_EntryID k = k_EntryID k' →
   (k_Fingerprint k = k_Fingerprint k' ∧ k_Query k = k_Query k') ∨
   sha256_collision (hashed (entry_fields (k_Fingerprint k) (k_Query k)))
     (hashed (entry_fields (k_Fingerprint k') (k_Query k')))).
Proof.
  intros k k' H H'. split; [by apply fingerprint_separates|by apply entry_separates].
Qed.

(** ** A run: two teams of one organisation, and one that opted out *)

Definition demo_question (q : string) : Request :=
  {| pr_Model := "gpt-4o"; pr_Messages := [{| pm_Role := "system"; pm_Content := "Be brief." |};
       {| pm_Role := "user"; pm_Content := q |}];
     pr_Temperature := Some f32_zero; pr_MaxTokens := 256; pr_Stream := false; pr_Stop := [] |}.

Definition demo_scope (org team : string) (isolated : bool) : Scope :=
  {| sc_Org := org; sc_Team := team; sc_Isolated := isolated |}.

Lemma request_ok_demo org team iso q :
  Z.of_nat (String.length org) < 2 ^ 32 → Z.of_nat (String.length team) < 2 ^ 32 →
  Z.of_nat (String.length (normalizeQuery q)) < 2 ^ 62 →
  request_ok (demo_scope org team iso) (demo_question q).
Proof.
  intros Ho Ht Hq. split; [|done|done|done].
  assert (Z.of_nat (String.length (Scope_ID (demo_scope org team iso))) < 2 ^ 33) as Hid.
  { unfold Scope_ID. simpl. destruct (_ || _); rewrite string_app_length; simpl; lia. }
  repeat constructor; cbn [fst snd String.length]; lia.
Qed.

Lemma NewKey_separates_witness :
  k_Fingerprint (NewKey (demo_scope "org1" "a" false) (demo_question "Why  is the sky blue?"))
    = k_Fingerprint (NewKey (demo_scope "org1" "b" false) (demo_question "What is 2+2?")) ∧
  (same_question (demo_scope "org1" "a" false) (demo_question "Why  is the sky blue?")
     (demo_scope "org1" "b" false) (demo_question "What is 2+2?") ∨
   sha256_collision
     (hashed (fingerprint_fields (demo_scope "org1" "a" false) (demo_question "Why  is the sky blue?")))
     (hashed (fingerprint_fields (demo_scope "org1" "b" false) (demo_question "What is 2+2?")))).
Proof.
  assert (k_Fingerprint (NewKey (demo_scope "org1" "a" false) (demo_question "Why  is the sky blue?"))
    = k_Fingerprint (NewKey (demo_scope "org1" "b" false) (demo_question "What is 2+2?"))) as H
    by (vm_compute; reflexivity).
  split; [exact H|].
  apply NewKey_separates; [apply request_ok_demo; closed|apply request_ok_demo; closed|exact H].
Defined.

(** The isolated team reads a bucket of its own; a reformatted question has the
    same entry. *)
Example isolated_bucket :
  k_Fingerprint (NewKey (demo_scope "org1" "a" true) (demo_question "hi"))
    ≠ k_Fingerprint (NewKey (demo_scope "org1" "a" false) (demo_question "hi")).
Proof. vm_compute. discriminate. Qed.

Example reformatted_query :
  k_EntryID (NewKey (demo_scope "org1" "a" false) (demo_question "Why  is the sky blue?"))
    = k_EntryID (NewKey (demo_scope "org1" "b" false) (demo_question " Why is
the sky blue? ")).
Proof. vm_compute. reflexivity. Qed.
