(* ===== verification/CacheStore.v ===== *)
(** * internal/cache/store.go and purge.go: the cache in Redis

    An entry is a hash with a deadline.  Sorted sets index the entries of a
    fingerprint (for the similarity scan), of a team (for purges) and of a
    tenant scope (for the entry cap).  [Put] is one pipeline, which other
    clients' commands may interleave and a lost connection may cut short; every
    command is atomic. *)

From Stdlib Require Import Ascii.
From S2P Require Import Prelude Redis Text Float32 Wire Sha256 CacheKey.

(** ** Hashes and sorted sets *)

(** A sorted set in ascending order of score, then of member. *)
Definition zset : Type := list (Z * string).

Inductive cval :=
| CHash (h : gmap string string)
| CZSet (z : zset).

Definition zless (x y : Z * string) : bool :=
  (x.1 <? y.1) || ((x.1 =? y.1) && bool_decide (String.compare x.2 y.2 = Lt)).

Fixpoint zinsert (x : Z * string) (z : zset) : zset :=
  match z with
  | [] => [x]
  | y :: z' => if zless x y then x :: z else y :: zinsert x z'
  end.

Definition zremove (ids : list string) (z : zset) : zset :=
  keep (λ x, negb (bool_decide (x.2 ∈ ids))) z.

Definition zadd (score : Z) (member : string) (z : zset) : zset :=
  zinsert (score, member) (zremove [member] z).

(** The commands the cache sends that change something. *)
Inductive command :=
| HSET (key : string) (fields : gmap string string)
| EXPIRE (key : string) (seconds : Z)
| ZADD (key : string) (score : Z) (member : string)
| ZREMRANGEBYRANK_top (key : string) (keep_top : Z)
| ZREM (key : string) (members : list string)
| HINCRBY (key field : string) (n : Z)
| DEL (keys : list string).

Section commands.
Context {db} `{!Redis cval db}.

(** An empty sorted set is no key at all. *)
Definition put_zset (t : Z) (key : string) (z : zset) (d : db) : db :=
  match z with [] => rdel key d | _ => rput t key (CZSet z) d end.

Fixpoint del_all (keys : list string) (d : db) : db :=
  match keys with [] => d | k :: ks => del_all ks (rdel k d) end.

(** The reply is an error when the key holds another type, or when HINCRBY
    meets a field that is no integer or leaves its range. *)
Definition exec (t : Z) (c : command) (d : db) : bool * db :=
  match c with
  | HSET key fields =>
      match rget t key d with
      | None => (true, rput t key (CHash fields) d)
      | Some (CHash h) => (true, rput t key (CHash (fields ∪ h)) d)
      | Some (CZSet _) => (false, d)
      end
  | EXPIRE key seconds => (true, rpexpire t key (seconds * 1000) d)
  | ZADD key score member =>
      match rget t key d with
      | None => (true, rput t key (CZSet (zadd score member [])) d)
      | Some (CZSet z) => (true, rput t key (CZSet (zadd score member z)) d)
      | Some (CHash _) => (false, d)
      end
  | ZREMRANGEBYRANK_top key n =>
      match rget t key d with
      | None => (true, d)
      | Some (CZSet z) => (true, put_zset t key (drop (length z - Z.to_nat n) z) d)
      | Some (CHash _) => (false, d)
      end
  | ZREM key members =>
      match rget t key d with
      | None => (true, d)
      | Some (CZSet z) => (true, put_zset t key (zremove members z) d)
      | Some (CHash _) => (false, d)
      end
  | HINCRBY key field n =>
      match rget t key d with
      | None => (true, rput t key (CHash {[ field := FormatInt n ]}) d)
      | Some (CHash h) =>
          let '(old, err) := match h !! field with Some s => ParseInt s | None => (0, None) end in
          if bool_decide (err = None) && (int64_min <=? old + n) && (old + n <=? int64_max)
          then (true, rput t key (CHash (<[field := FormatInt (old + n)]> h)) d)
          else (false, d)
      | Some (CZSet _) => (false, d)
      end
  | DEL keys => (true, del_all keys d)
  end.

(** A pipeline: the server runs every command, whatever the others reply. *)
Fixpoint exec_all (t : Z) (cs : list command) (d : db) : bool * db :=
  match cs with
  | [] => (true, d)
  | c :: cs' =>
      let '(ok, d) := exec t c d in
      let '(ok', d) := exec_all t cs' d in
      (ok && ok', d)
  end.

(** [None]: every reply arrived; [Some n]: the connection failed after the
    server had run [n] of the commands, and the caller sees an error.  A pipeline
    the client sends again after that is a cut run followed by another. *)
Definition exec_pipe (t : Z) (cut : option nat) (cs : list command) (d : db) : bool * db :=
  match cut with
  | None => exec_all t cs d
  | Some n => (false, (exec_all t (take n cs) d).2)
  end.

(** Reads. *)
Definition hgetall (t : Z) (key : string) (d : db) : option (gmap string string) :=
  match rget t key d with
  | None => Some ∅
  | Some (CHash h) => Some h
  | Some (CZSet _) => None
  end.
Definition zmembers (t : Z) (key : string) (d : db) : option zset :=
  match rget t key d with
  | None => Some []
  | Some (CZSet z) => Some z
  | Some (CHash _) => None
  end.
(** ZREVRANGE key 0 n-1 *)
Definition zrevrange (n : Z) (z : zset) : list string := take (Z.to_nat n) (reverse (map snd z)).
(** ZRANGE key 0 n-1 *)
Definition zrange (n : Z) (z : zset) : list string := take (Z.to_nat n) (map snd z).
End commands.

(** ** Entries *)

Record Entry := {
  e_Response : string;
  e_FinishReason : FinishReason;
  e_InputTokens : Z;
  e_OutputTokens : Z;
  e_Model : string;
  e_Provider : string;
  e_CreatedAt : option Z;
  e_Hits : Z;
  e_Embedding : list float32
}.

Fixpoint packVector (v : list float32) : string :=
  match v with [] => "" | f :: v' => (put_le 4 (f32_bits f) ++ packVector v')%string end.

(** Whole groups of four bytes; a shorter tail is dropped. *)
Fixpoint unpackVector (s : string) : list float32 :=
  match s with
  | String a (String b (String c (String d s'))) =>
      f32_frombits (get_le 4 (String a (String b (String c (String d EmptyString))))) :: unpackVector s'
  | _ => []
  end.

(** The fields [Put] writes, and what reading them back gives. *)
Definition entry_hash (e : Entry) (now : Z) : gmap string string :=
  list_to_map [
    ("response"%string, e_Response e); ("finish_reason"%string, e_FinishReason e);
    ("input_tokens"%string, FormatInt (e_InputTokens e));
    ("output_tokens"%string, FormatInt (e_OutputTokens e));
    ("model"%string, e_Model e); ("provider"%string, e_Provider e);
    ("created_at"%string, FormatInt now); ("hits"%string, FormatInt 0);
    ("embedding"%string, packVector (e_Embedding e))].

Definition field (h : gmap string string) (name : string) : string := default ""%string (h !! name).

Inductive cache_error := RedisError | DecodeTimestamp (err : num_error).

Definition decodeEntry (h : gmap string string) : result cache_error Entry :=
  match ParseInt (field h "created_at") with
  | (_, Some err) => Err (DecodeTimestamp err)
  | (created, None) =>
      Ok {| e_Response := field h "response"; e_FinishReason := field h "finish_reason";
            e_InputTokens := (ParseInt (field h "input_tokens")).1;
            e_OutputTokens := (ParseInt (field h "output_tokens")).1;
            e_Model := field h "model"; e_Provider := field h "provider";
            e_CreatedAt := Some created;
            e_Hits := (ParseInt (field h "hits")).1;
            e_Embedding := unpackVector (field h "embedding") |}
  end.

(** ** The store *)

Record Store := {
  maxCandidates : Z;
  maxScopeEntries : Z;
  readTimeout : Z;
  writeTimeout : Z
}.

Definition or_default (v dflt : Z) : Z := if v <=? 0 then dflt else v.

Definition NewStore (cfg : Store) : Store :=
  {| maxCandidates := or_default (maxCandidates cfg) 100;
     maxScopeEntries := or_default (maxScopeEntries cfg) 1000;
     readTimeout := or_default (readTimeout cfg) (50 * millisecond);
     writeTimeout := or_default (writeTimeout cfg) (500 * millisecond) |}.

Definition purgeBatch : nat := 200.

(** The score of an instant: [float64(now.UnixNano())], which rounds. *)
Definition score_of (nanos : Z) : Z :=
  match f64_of_Z nanos with
  | S754_finite s m e => (if s then -1 else 1) * (if 0 <=? e then Zpos m * 2 ^ e else Zpos m / 2 ^ (- e))
  | _ => 0
  end.

(** The client sends EXPIRE with whole seconds; how it rounds is its own. *)
Class RedisClient := {
  expireSeconds : Z → Z;
  expireSeconds_pos d : 0 < d → 1 ≤ expireSeconds d;
  expireSeconds_le d : second ≤ d → expireSeconds d * second ≤ d
}.

Section store.
Context {db} `{!Redis cval db} `{!RedisClient} (st : Store).

Definition fetch (t : Z) (f : net_fate) (id : string) (d : db) : result cache_error (option Entry) :=
  if answered f then
    match hgetall t (entryKey id) d with
    | None => Err RedisError
    | Some h =>
        if bool_decide (h = ∅) then Ok None
        else match decodeEntry h with Ok e => Ok (Some e) | Err err => Err err end
    end
  else Err RedisError.

Definition Exact (t : Z) (f : net_fate) (k : Key) (d : db) : result cache_error (option Entry) :=
  fetch t f (k_EntryID k) d.
Definition Fetch (t : Z) (f : net_fate) (id : string) (d : db) : result cache_error (option Entry) :=
  fetch t f id d.

(** The live ids with their embeddings, and the ids whose entry is gone. *)
Fixpoint load_each (t : Z) (ids : list string) (d : db)
    : option (list (string * list float32) * list string) :=
  match ids with
  | [] => Some ([], [])
  | id :: ids' =>
      match hgetall t (entryKey id) d, load_each t ids' d with
      | Some h, Some (live, stale) =>
          match h !! "embedding"%string with
          | None => Some (live, id :: stale)
          | Some raw => Some ((id, unpackVector raw) :: live, stale)
          end
      | _, _ => None
      end
  end.

Definition loadVectors (t : Z) (f : net_fate) (ids : list string) (d : db)
    : result cache_error (list (string * list float32) * list string) :=
  match ids with
  | [] => Ok ([], [])
  | _ => if answered f then match load_each t ids d with Some r => Ok r | None => Err RedisError end
         else Err RedisError
  end.

(** A command whose outcome the caller ignores. *)
Definition fire (t : Z) (f : net_fate) (c : command) (d : db) : db :=
  Nat.iter (runs f) (λ d, (exec t c d).2) d.

Definition Candidates (t : Z) (f1 f2 f3 : net_fate) (k : Key) (d : db)
    : result cache_error (list (string * list float32)) * db :=
  match (if answered f1 then zmembers t (IndexKey k) d else None) with
  | None => (Err RedisError, d)
  | Some z =>
      match loadVectors t f2 (zrevrange (maxCandidates st) z) d with
      | Err err => (Err err, d)
      | Ok (live, stale) =>
          (Ok live, match stale with [] => d | _ => fire t f3 (ZREM (IndexKey k) stale) d end)
      end
  end.

(** The pipeline of [Put]. *)
Definition put_commands (now : Z) (k : Key) (e : Entry) (ttl : Z) : list command :=
  let score := score_of now in
  [HSET (entryKey (k_EntryID k)) (entry_hash e now);
   EXPIRE (entryKey (k_EntryID k)) (expireSeconds ttl);
   ZADD (IndexKey k) score (k_EntryID k);
   ZREMRANGEBYRANK_top (IndexKey k) (maxCandidates st);
   EXPIRE (IndexKey k) (expireSeconds ttl)]
  ++ (if bool_decide (k_TeamID k = ""%string) then []
      else [ZADD (TeamKey k) score (k_EntryID k); EXPIRE (TeamKey k) (expireSeconds ttl)])
  ++ (if bool_decide (k_ScopeID k = ""%string) then []
      else [ZADD (ScopeKey k) score (k_EntryID k)]).

Fixpoint del_count (t : Z) (keys : list string) (d : db) : Z :=
  match keys with
  | [] => 0
  | k :: ks => (if rexists t k d then 1 else 0) + del_count t ks (rdel k d)
  end.

(** [fuel] is at least the number of batches left. *)
Fixpoint delete_batches (fuel : nat) (t : Z) (f : nat → net_fate) (keys : list string) (total : Z)
    (d : db) : result cache_error Z * db :=
  match fuel, keys with
  | O, _ | _, [] => (Ok total, d)
  | S fuel', _ =>
      let batch := take purgeBatch keys in
      match round_trip (f 0%nat) (λ d, (Some (del_count t batch d), del_all batch d)) d with
      | (Some n, d') => delete_batches fuel' t (λ n, f (S n)) (drop purgeBatch keys) (total + n) d'
      | (None, d') => (Err RedisError, d')
      end
  end.

Definition deleteKeys (t : Z) (f : nat → net_fate) (keys : list string) (d : db)
    : result cache_error Z * db := delete_batches (length keys) t f keys 0 d.
Definition deleteEntries (t : Z) (f : nat → net_fate) (ids : list string) (d : db)
    : result cache_error Z * db := deleteKeys t f (map entryKey ids) d.

(** [fz] is the fate of the final ZREM. *)
Definition trimScope (t : Z) (f : nat → net_fate) (fz : net_fate) (k : Key) (d : db) : db :=
  match answered (f 0%nat), zmembers t (ScopeKey k) d with
  | true, Some z =>
      let count := Z.of_nat (length z) in
      if count <=? maxScopeEntries st then d
      else if answered (f 1%nat) then
        match zrange (count - maxScopeEntries st) z with
        | [] => d
        | victims =>
            match deleteEntries t (λ n, f (S (S n))) victims d with
            | (Err _, d') => d'
            | (Ok _, d') => fire t fz (ZREM (ScopeKey k) victims) d'
            end
        end
      else d
  | _, _ => d
  end.

(** [clock] is [time.Now()], used when the entry carries no creation time. *)
Definition Put (t clock : Z) (cut : option nat) (f : nat → net_fate) (fz : net_fate)
    (k : Key) (e : Entry) (ttl : Z) (d : db) : bool * db :=
  let now := default clock (e_CreatedAt e) in
  match exec_pipe t cut (put_commands now k e ttl) d with
  | (false, d') => (false, d')
  | (true, d') =>
      (true, if bool_decide (k_ScopeID k = ""%string) then d' else trimScope t f fz k d')
  end.

Definition RecordHit (t : Z) (f : net_fate) (id : string) (d : db) : bool * db :=
  let '(ok, d') := round_trip f (λ d, let '(ok, d') := exec t (HINCRBY (entryKey id) "hits" 1) d in (Some ok, d')) d in
  (default false ok, d').

(** ** purge.go *)

Inductive purge_error := TeamRequired | PrefixNotHex | PurgeRedis (err : cache_error).

Record PurgeResult := {
  p_Scope : string; p_Target : string; p_Entries : Z; p_Indexes : Z }.

Definition PurgeTeam (t : Z) (f0 : net_fate) (f : nat → net_fate) (fd : net_fate) (teamID : string)
    (d : db) : result purge_error PurgeResult * db :=
  if bool_decide (trim_space teamID = ""%string) then (Err TeamRequired, d)
  else
    match (if answered f0 then zmembers t (teamKey teamID) d else None) with
    | None => (Err (PurgeRedis RedisError), d)
    | Some z =>
        match deleteEntries t f (map snd z) d with
        | (Err err, d') => (Err (PurgeRedis err), d')
        | (Ok removed, d') =>
            match round_trip fd (λ d, (Some tt, rdel (teamKey teamID) d)) d' with
            | (Some _, d'') => (Ok {| p_Scope := "team"; p_Target := teamID; p_Entries := removed;
                                      p_Indexes := 0 |}, d'')
            | (None, d'') => (Err (PurgeRedis RedisError), d'')
            end
        end
    end.

Definition is_hex_rune (r : Z) : bool := ((48 <=? r) && (r <=? 57)) || ((97 <=? r) && (r <=? 102)).
Definition isHex (s : string) : bool := forallb is_hex_rune (runes s).

(** SCAN: the batches of one full iteration for a pattern [p*].  A key that
    stays in place for the whole iteration is returned, perhaps twice. *)
Context (scan : string → db → list (list string)).

(** A limit of zero is none. *)
Fixpoint scan_loop (f : nat → net_fate) (batches : list (list string)) (limit : Z)
    (keys : list string) : result cache_error (list string) :=
  match batches with
  | [] => Ok keys
  | batch :: rest =>
      if answered (f 0%nat) then
        let keys := keys ++ batch in
        if (0 <? limit) && (limit <=? Z.of_nat (length keys)) then Ok keys
        else scan_loop (λ n, f (S n)) rest limit keys
      else Err RedisError
  end.
Definition scanKeys (f : nat → net_fate) (prefix : string) (limit : Z) (d : db)
    : result cache_error (list string) := scan_loop f (scan prefix d) limit [].

Definition PurgePrefix (t : Z) (fs f : nat → net_fate) (prefix : string) (d : db)
    : result purge_error PurgeResult * db :=
  if negb (isHex prefix) || bool_decide (prefix = ""%string) then (Err PrefixNotHex, d)
  else
    match scanKeys fs (keyPrefix ++ ":entry:" ++ prefix) 0 d with
    | Err err => (Err (PurgeRedis err), d)
    | Ok ids =>
        match deleteKeys t f ids d with
        | (Err err, d') => (Err (PurgeRedis err), d')
        | (Ok removed, d') => (Ok {| p_Scope := "prefix"; p_Target := prefix; p_Entries := removed;
                                     p_Indexes := 0 |}, d')
        end
    end.

Definition PurgeAll (t : Z) (fs : nat → nat → net_fate) (f1 f2 : nat → net_fate) (d : db)
    : result purge_error PurgeResult * db :=
  match scanKeys (fs 0%nat) (keyPrefix ++ ":entry:") 0 d,
        scanKeys (fs 1%nat) (keyPrefix ++ ":index:") 0 d,
        scanKeys (fs 2%nat) (keyPrefix ++ ":team:") 0 d,
        scanKeys (fs 3%nat) (keyPrefix ++ ":scope:") 0 d with
  | Ok entries, Ok indexes, Ok teams, Ok scopes =>
      match deleteKeys t f1 entries d with
      | (Err err, d') => (Err (PurgeRedis err), d')
      | (Ok entryCount, d') =>
          match deleteKeys t f2 (indexes ++ teams ++ scopes) d' with
          | (Err err, d'') => (Err (PurgeRedis err), d'')
          | (Ok indexCount, d'') => (Ok {| p_Scope := "all"; p_Target := ""; p_Entries := entryCount;
                                           p_Indexes := indexCount |}, d'')
          end
      end
  | _, _, _, _ => (Err (PurgeRedis RedisError), d)
  end.
End store.
