(* ===== verification/CacheStoreFacts.v ===== *)
(** * What the cache's Redis layer guarantees

    The encoding of entries loses nothing; [Put] keeps the similarity scan and
    a tenant's footprint bounded; and over every interleaving of the commands
    of any number of clients, cut short anywhere, what is found in a
    fingerprint's bucket was stored under that fingerprint. *)

From S2P Require Import Prelude Redis Text Float32 Wire Sha256 CacheKey CacheStore.

(** ** Key spaces *)

Ltac key_clash :=
  match goal with
  | H : _ = _ |- _ =>
      exfalso; unfold entryKey, indexKey, teamKey, scopeKey in H;
      apply (string_app_inv_prefix keyPrefix) in H; discriminate H
  end.

Lemma entryKey_inj a b : entryKey a = entryKey b → a = b.
Proof.
  unfold entryKey. intros H%(string_app_inv_prefix keyPrefix). by apply (string_app_inv_prefix ":entry:").
Qed.
Lemma indexKey_inj a b : indexKey a = indexKey b → a = b.
Proof.
  unfold indexKey. intros H%(string_app_inv_prefix keyPrefix). by apply (string_app_inv_prefix ":index:").
Qed.
Lemma scopeKey_inj a b : scopeKey a = scopeKey b → a = b.
Proof.
  unfold scopeKey. intros H%(string_app_inv_prefix keyPrefix). by apply (string_app_inv_prefix ":scope:").
Qed.
Lemma teamKey_inj a b : teamKey a = teamKey b → a = b.
Proof.
  unfold teamKey. intros H%(string_app_inv_prefix keyPrefix). by apply (string_app_inv_prefix ":team:").
Qed.

(** ** Encodings *)

Lemma unpack_pack v :
  Forall (λ f, valid32 f = true) v → unpackVector (packVector v) = v.
Proof.
  induction 1 as [|f v Hf _ IH]; [done|]. cbn [packVector].
  pose proof (put_le_length 4 (f32_bits f)) as Hl.
  assert (get_le 4 (put_le 4 (f32_bits f) ++ "") = f32_bits f) as Hg
    by (apply get_put_le; by apply f32_bits_range).
  destruct (put_le 4 (f32_bits f)) as [|a [|b [|c [|e [|]]]]]; try discriminate Hl.
  change (unpackVector (String a (String b (String c (String e (packVector v))))) = f :: v).
  cbn [unpackVector]. rewrite IH. f_equal.
  change (String a (String b (String c (String e ""))) ++ "")%string
    with (String a (String b (String c (String e "")))) in Hg.
  rewrite Hg. by apply f32_frombits_bits.
Qed.

(** [h] carries the fields of [e], whatever its hit count. *)
Definition written (e : Entry) (now : Z) (h : gmap string string) : Prop :=
  ∀ name, name ≠ "hits"%string → h !! name = entry_hash e now !! name.

(** A hash that only a hit counter was ever written to. *)
Definition corpse (h : gmap string string) : Prop :=
  ∀ name, name ≠ "hits"%string → h !! name = None.

Definition storable (e : Entry) (now : Z) : Prop :=
  in_int64 (e_InputTokens e) ∧ in_int64 (e_OutputTokens e) ∧ in_int64 now ∧
  Forall (λ f, valid32 f = true) (e_Embedding e).

(** What reading [e] back gives. *)
Definition stored (e : Entry) (now hits : Z) : Entry :=
  {| e_Response := e_Response e; e_FinishReason := e_FinishReason e;
     e_InputTokens := e_InputTokens e; e_OutputTokens := e_OutputTokens e;
     e_Model := e_Model e; e_Provider := e_Provider e; e_CreatedAt := Some now;
     e_Hits := hits; e_Embedding := e_Embedding e |}.

Lemma written_field e now h name v :
  written e now h → name ≠ "hits"%string → entry_hash e now !! name = Some v → field h name = v.
Proof. intros Hw Hn Hv. unfold field. by rewrite Hw, Hv. Qed.

Lemma decode_written e now h :
  storable e now → written e now h →
  decodeEntry h = Ok (stored e now (ParseInt (field h "hits")).1).
Proof.
  intros (Hi & Ho & Hn & Hv) Hw. unfold decodeEntry.
  rewrite (written_field e now h "created_at" (FormatInt now)) by done.
  rewrite ParseInt_FormatInt by done.
  rewrite (written_field e now h "response" (e_Response e)) by done.
  rewrite (written_field e now h "finish_reason" (e_FinishReason e)) by done.
  rewrite (written_field e now h "input_tokens" (FormatInt (e_InputTokens e))) by done.
  rewrite (written_field e now h "output_tokens" (FormatInt (e_OutputTokens e))) by done.
  rewrite (written_field e now h "model" (e_Model e)) by done.
  rewrite (written_field e now h "provider" (e_Provider e)) by done.
  rewrite (written_field e now h "embedding" (packVector (e_Embedding e))) by done.
  by rewrite !ParseInt_FormatInt, unpack_pack.
Qed.

Lemma decode_corpse h : corpse h → decodeEntry h = Err (DecodeTimestamp ErrSyntax).
Proof. intros Hc. unfold decodeEntry, field. by rewrite Hc. Qed.

Lemma written_fresh e now h : written e now h ∨ corpse h → written e now (entry_hash e now ∪ h).
Proof.
  intros Hh name Hn. rewrite lookup_union. destruct (entry_hash e now !! name) eqn:He; [by destruct (h !! name)|].
  rewrite (left_id_L None _). destruct Hh as [Hw|Hc]; [by rewrite Hw, He|by apply Hc].
Qed.

(** ** Sorted sets *)

Lemma elem_of_zinsert x y z : x ∈ zinsert y z ↔ x = y ∨ x ∈ z.
Proof. induction z as [|a z IH]; simpl; [set_solver|]. destruct (zless y a); set_solver. Qed.

Lemma length_zinsert x z : length (zinsert x z) = S (length z).
Proof. induction z as [|a z IH]; simpl; [done|]. destruct (zless x a); simpl; by rewrite ?IH. Qed.

Lemma elem_of_zremove x ids z : x ∈ zremove ids z ↔ x ∈ z ∧ x.2 ∉ ids.
Proof.
  unfold zremove. rewrite elem_of_keep. rewrite negb_true_iff, bool_decide_eq_false. done.
Qed.

(** Each member is in a sorted set once. *)
Definition zset_ok (z : zset) : Prop := NoDup (map snd z).

Lemma zset_ok_sublist z z' : z' `sublist_of` z → zset_ok z → zset_ok z'.
Proof.
  intros Hs Hz. eapply sublist_NoDup; [exact Hz|]. exact (fmap_sublist snd _ _ Hs).
Qed.

Lemma zset_ok_remove ids z : zset_ok z → zset_ok (zremove ids z).
Proof. apply zset_ok_sublist, keep_sublist. Qed.

Lemma zset_ok_drop n z : zset_ok z → zset_ok (drop n z).
Proof. apply zset_ok_sublist, sublist_drop. Qed.

Lemma zinsert_perm x z : zinsert x z ≡ₚ x :: z.
Proof.
  induction z as [|a z IH]; simpl; [done|]. destruct (zless x a); [done|]. rewrite IH. constructor.
Qed.

Lemma zset_ok_add score m z : zset_ok z → zset_ok (zadd score m z).
Proof.
  intros Hz. unfold zset_ok, zadd. rewrite zinsert_perm. simpl. constructor.
  - intros (x & Hx & Hin)%list_elem_of_fmap. apply elem_of_zremove in Hin. set_solver.
  - by apply zset_ok_remove.
Qed.

(** Removing the members of the first [n] leaves the rest. *)
Lemma zremove_take n z : zset_ok z → zremove (map snd (take n z)) z = drop n z.
Proof.
  intros Hz. unfold zremove. set (f := λ x, _).
  transitivity (keep f (take n z ++ drop n z)); [by rewrite take_drop|]. rewrite keep_app.
  subst f.
  rewrite keep_none, keep_all; [done| |].
  - intros x Hx. rewrite negb_true_iff, bool_decide_eq_false. intros Hin.
    unfold zset_ok in Hz. rewrite <- (take_drop n z), map_app in Hz.
    apply NoDup_app in Hz as (_ & Hdis & _). apply (Hdis _ Hin), list_elem_of_fmap. eauto.
  - intros x Hx. rewrite negb_false_iff, bool_decide_eq_true. apply list_elem_of_fmap. eauto.
Qed.

(** ** The invariant of the keyspace

    [Held k e]: some client has stored (or is storing) [e] under [k]. *)
Section isolation.
Context {db} `{!Redis cval db} `{!RedisClient} (st : Store) (Held : Key → Entry → Prop).

Definition entry_ok (id : string) (v : cval) : Prop :=
  match v with
  | CHash h => corpse h ∨ ∃ k e now, Held k e ∧ k_EntryID k = id ∧ written e now h
  | CZSet _ => False
  end.

Definition index_ok (fp : string) (v : cval) : Prop :=
  match v with
  | CZSet z => ∀ s id, (s, id) ∈ z → ∃ k e, Held k e ∧ k_EntryID k = id ∧ k_Fingerprint k = fp
  | CHash _ => False
  end.

Definition sorted_ok (v : cval) : Prop :=
  match v with CZSet z => zset_ok z | CHash _ => False end.

Record key_ok (key : string) (v : cval) : Prop := {
  ko_entry id : key = entryKey id → entry_ok id v;
  ko_index fp : key = indexKey fp → index_ok fp v;
  ko_sorted x : key = indexKey x ∨ key = teamKey x ∨ key = scopeKey x → sorted_ok v
}.

(** Every command some cache operation issues, of any client. *)
Inductive cache_command : command → Prop :=
| CC_put k e now ttl c : Held k e → c ∈ put_commands st now k e ttl → cache_command c
| CC_prune fp ids : cache_command (ZREM (indexKey fp) ids)
| CC_trim x ids : cache_command (ZREM (scopeKey x) ids)
| CC_hit id : cache_command (HINCRBY (entryKey id) "hits" 1)
| CC_del keys : cache_command (DEL keys).

Lemma key_ok_entry id v : entry_ok id v → key_ok (entryKey id) v.
Proof.
  intros Hv. split; intros x Hx; [by apply entryKey_inj in Hx as <-| |destruct Hx as [Hx|[Hx|Hx]]]; key_clash.
Qed.

Lemma key_ok_index fp z : index_ok fp (CZSet z) → zset_ok z → key_ok (indexKey fp) (CZSet z).
Proof. intros Hv Hz. split; intros x Hx; [key_clash|by apply indexKey_inj in Hx as <-|done]. Qed.

Lemma key_ok_other x z : zset_ok z → key_ok (teamKey x) (CZSet z) ∧ key_ok (scopeKey x) (CZSet z).
Proof. intros Hz. split; split; intros y Hy; try done; key_clash. Qed.

(** A sorted set may lose members. *)
Lemma key_ok_shrink key z z' : z' `sublist_of` z → key_ok key (CZSet z) → key_ok key (CZSet z').
Proof.
  intros Hs [He Hi Hz]. split; intros x Hx; [by destruct (He x Hx)| |by eapply zset_ok_sublist, Hz].
  intros s id Hin. apply (Hi x Hx s). by eapply elem_of_sublist.
Qed.

Lemma put_zset_inv t key z z' d :
  z' `sublist_of` z → key_ok key (CZSet z) → kv_inv key_ok t d → kv_inv key_ok t (put_zset t key z' d).
Proof.
  intros Hs Hz Hd. unfold put_zset. destruct z' as [|x z']; [by apply kv_inv_del|].
  apply kv_inv_put; [|done]. by eapply key_ok_shrink.
Qed.

Lemma del_all_inv t keys d : kv_inv key_ok t d → kv_inv key_ok t (del_all keys d).
Proof. revert d. induction keys as [|k ks IH]; intros d Hd; simpl; [done|]. by apply IH, kv_inv_del. Qed.

Lemma hset_written e now id h :
  entry_ok id (CHash h) ∨ h = ∅ → written e now (entry_hash e now ∪ h).
Proof.
  intros Hh name Hn. rewrite lookup_union.
  destruct (entry_hash e now !! name) eqn:He; [by destruct (h !! name)|].
  rewrite (left_id_L None _). destruct Hh as [[Hc|(k' & e' & now' & _ & _ & Hw)]| ->]; [by apply Hc| |done].
  rewrite Hw by done. clear -He. unfold entry_hash in *.
  rewrite <- not_elem_of_list_to_map in *. exact He.
Qed.

Lemma entry_ok_hset k e now id h :
  Held k e → k_EntryID k = id → entry_ok id (CHash h) ∨ h = ∅ →
  entry_ok id (CHash (entry_hash e now ∪ h)).
Proof. intros Hk Hid Hh. right. exists k, e, now. split_and!; [done|done|by eapply hset_written]. Qed.

Lemma entry_ok_hits id h v : entry_ok id (CHash h) → entry_ok id (CHash (<["hits"%string := v]> h)).
Proof.
  intros [Hc|(k & e & now & Hk & Hid & Hw)]; [left|right; exists k, e, now; split_and!; [done|done|]];
    intros name Hn; rewrite lookup_insert_ne by done; [by apply Hc|by apply Hw].
Qed.

Lemma index_ok_add fp k e s z :
  Held k e → k_Fingerprint k = fp → index_ok fp (CZSet z) → index_ok fp (CZSet (zadd s (k_EntryID k) z)).
Proof.
  intros Hk Hfp Hz s' id Hin. unfold zadd in Hin. apply elem_of_zinsert in Hin as [Heq|Hin]; [injection Heq as -> ->; by eauto|].
  apply elem_of_zremove in Hin as [Hin _]. by eapply Hz.
Qed.

Lemma exec_put_inv t k e now ttl c d :
  Held k e → c ∈ put_commands st now k e ttl → kv_inv key_ok t d → kv_inv key_ok t (exec t c d).2.
Proof.
  intros Hk Hc Hd. unfold put_commands in Hc.
  assert (∀ key v, rget t key d = Some v → key_ok key v) as Hget by (intros; eapply Hd; [done|eassumption]).
  rewrite !elem_of_app in Hc. destruct Hc as [Hc|[Hc|Hc]].
  - rewrite !elem_of_cons, elem_of_nil in Hc. destruct Hc as [->|[->|[->|[->|[->|[]]]]]]; cbn [exec].
    + destruct (rget t _ d) as [[h|z]|] eqn:Hg; [| |]; try done; apply kv_inv_put; try done; apply key_ok_entry.
      * eapply entry_ok_hset; [done|done|left]. by apply Hget in Hg as [Hg _ _]; apply Hg.
      * rewrite <- (right_id_L ∅ (∪) (entry_hash e now)). eapply entry_ok_hset; [done|done|by right].
    + by apply kv_inv_pexpire.
    + destruct (rget t _ d) as [[h|z]|] eqn:Hg; [done| |]; apply kv_inv_put; try done; apply key_ok_index.
      * eapply index_ok_add; [done|done|]. by apply Hget in Hg as [_ Hg _]; apply Hg.
      * apply zset_ok_add. apply Hget in Hg as [_ _ Hg]. by apply (Hg (k_Fingerprint k)); left.
      * eapply index_ok_add; [done|done|]. intros s id Hin. by apply elem_of_nil in Hin.
      * apply zset_ok_add. constructor.
    + destruct (rget t _ d) as [[h|z]|] eqn:Hg; try done. apply Hget in Hg.
      eapply put_zset_inv; [apply sublist_drop|done|done].
    + by apply kv_inv_pexpire.
  - case_bool_decide; [by apply elem_of_nil in Hc|].
    rewrite !elem_of_cons, elem_of_nil in Hc. destruct Hc as [->|[->|[]]]; cbn [exec]; [|by apply kv_inv_pexpire].
    destruct (rget t _ d) as [[h|z]|] eqn:Hg; [done| |]; apply kv_inv_put; try done; apply key_ok_other, zset_ok_add.
    + apply Hget in Hg as [_ _ Hg]. apply (Hg (k_TeamID k)). by right; left.
    + constructor.
  - case_bool_decide; [by apply elem_of_nil in Hc|].
    rewrite elem_of_cons, elem_of_nil in Hc. destruct Hc as [->|[]]; cbn [exec].
    destruct (rget t _ d) as [[h|z]|] eqn:Hg; [done| |]; apply kv_inv_put; try done; apply key_ok_other, zset_ok_add.
    + apply Hget in Hg as [_ _ Hg]. apply (Hg (k_ScopeID k)). by right; right.
    + constructor.
Qed.

(** Whatever any client sends, the invariant stays. *)
Lemma exec_inv t c d : cache_command c → kv_inv key_ok t d → kv_inv key_ok t (exec t c d).2.
Proof.
  intros Hc Hd.
  assert (∀ key v, rget t key d = Some v → key_ok key v) as Hget by (intros; eapply Hd; [done|eassumption]).
  assert (∀ key ids, kv_inv key_ok t (exec t (ZREM key ids) d).2) as Hrem.
  { intros key ids. cbn [exec]. destruct (rget t key d) as [[h|z]|] eqn:Hg; try done.
    eapply put_zset_inv; [apply keep_sublist|by apply Hget|done]. }
  destruct Hc as [k e now ttl c Hk Hin|fp ids|x ids|id|keys]; [by eapply exec_put_inv|done|done| |by apply del_all_inv].
  cbn [exec]. destruct (rget t (entryKey id) d) as [[h|z]|] eqn:Hg; [|done|].
  - destruct (match h !! _ with Some s => ParseInt s | None => (0, None) end) as [old err].
    destruct (_ && _); [|done]. apply kv_inv_put; [|done]. apply key_ok_entry, entry_ok_hits.
    apply Hget in Hg as [Hg _ _]. by apply Hg.
  - apply kv_inv_put; [|done]. apply key_ok_entry. left. intros name Hn. by rewrite lookup_singleton_ne.
Qed.

Lemma exec_all_inv t cs d :
  Forall cache_command cs → kv_inv key_ok t d → kv_inv key_ok t (exec_all t cs d).2.
Proof.
  intros Hcs. revert d. induction Hcs as [|c cs Hc _ IH]; intros d Hd; simpl; [done|].
  pose proof (exec_inv t c d Hc Hd) as Hd1. destruct (exec t c d) as [ok d1]. cbn [snd] in *.
  specialize (IH d1 Hd1). destruct (exec_all t cs d1) as [ok' d2]. done.
Qed.

Lemma fire_inv t f c d : cache_command c → kv_inv key_ok t d → kv_inv key_ok t (fire t f c d).
Proof. intros Hc Hd. unfold fire. induction (runs f) as [|n IH]; [done|]. by apply exec_inv. Qed.

Lemma delete_batches_inv fuel t f keys total d :
  kv_inv key_ok t d → kv_inv key_ok t (delete_batches fuel t f keys total d).2.
Proof.
  revert f keys total d. induction fuel as [|fuel IH]; intros f keys total d Hd; simpl; [done|].
  destruct keys as [|key keys]; [done|].
  destruct (f 0%nat); cbn [snd round_trip]; try apply IH; repeat apply del_all_inv; done.
Qed.

Lemma trimScope_inv t f fz k d : kv_inv key_ok t d → kv_inv key_ok t (trimScope st t f fz k d).
Proof.
  intros Hd. unfold trimScope. destruct (answered (f 0%nat)); [|done]. destruct (zmembers _ _ _) as [z|]; [|done].
  destruct (_ <=? _); [done|]. destruct (answered (f 1%nat)); [|done]. destruct (zrange _ z) as [|v vs]; [done|].
  pose proof (delete_batches_inv (length (map entryKey (v :: vs))) t (λ n, f (S (S n)))
    (map entryKey (v :: vs)) 0 d Hd) as Hd1.
  unfold deleteEntries, deleteKeys. destruct (delete_batches _ _ _ _ _ _) as [[n|err] d']; [|done].
  apply fire_inv; [constructor|done].
Qed.

(** A write, under every fate and cut. *)
Lemma Put_inv t clock cut f fz k e ttl d :
  Held k e → kv_inv key_ok t d → kv_inv key_ok t (Put st t clock cut f fz k e ttl d).2.
Proof.
  intros Hk Hd. unfold Put.
  assert (Forall cache_command (put_commands st (default clock (e_CreatedAt e)) k e ttl)) as Hcs
    by (apply Forall_forall; intros c Hc; by eapply CC_put).
  generalize dependent (put_commands st (default clock (e_CreatedAt e)) k e ttl). intros cs Hcs.
  assert (kv_inv key_ok t (exec_pipe t cut cs d).2) as H1.
  { destruct cut as [n|]; cbn [exec_pipe snd]; apply exec_all_inv; try done. by apply Forall_take. }
  destruct (exec_pipe t cut cs d) as [[] d']; [|done]. cbn [snd] in *.
  case_bool_decide; [done|]. by apply trimScope_inv.
Qed.

Lemma Candidates_inv t f1 f2 f3 k d :
  kv_inv key_ok t d → kv_inv key_ok t (Candidates st t f1 f2 f3 k d).2.
Proof.
  intros Hd. unfold Candidates. destruct (if answered f1 then _ else _) as [z|]; [|done].
  destruct (loadVectors _ _ _ _) as [[live stale]|]; [|done]. cbn [snd].
  destruct stale as [|x xs]; [done|]. apply fire_inv; [constructor|done].
Qed.

Lemma RecordHit_inv t f id d : kv_inv key_ok t d → kv_inv key_ok t (RecordHit t f id d).2.
Proof.
  intros Hd. unfold RecordHit. set (cmd := λ d : db, _).
  assert (∀ d, kv_inv key_ok t d → kv_inv key_ok t (cmd d).2) as Hcmd.
  { intros d' Hd'. pose proof (exec_inv _ _ _ (CC_hit id) Hd') as He. unfold cmd.
    by destruct (exec t (HINCRBY (entryKey id) "hits" 1) d'). }
  assert (kv_inv key_ok t (round_trip f cmd d).2) as Hr by (destruct f; simpl; auto).
  by destruct (round_trip f cmd d).
Qed.

(** What the reads return. *)
Lemma load_each_live t ids d live stale id v :
  load_each t ids d = Some (live, stale) → (id, v) ∈ live → id ∈ ids.
Proof.
  revert live stale. induction ids as [|i ids IH]; intros live stale; simpl; [by intros [= <- <-] ?%elem_of_nil|].
  destruct (hgetall _ _ _) as [h|]; [|done]. destruct (load_each t ids d) as [[l s]|]; [|done].
  destruct (h !! _); intros [= <- <-].
  - intros [Heq|Hin]%elem_of_cons; [injection Heq as -> ->|]; set_solver.
  - set_solver.
Qed.

Lemma Candidates_bucket t f1 f2 f3 k d live d' id v :
  kv_inv key_ok t d → Candidates st t f1 f2 f3 k d = (Ok live, d') → (id, v) ∈ live →
  ∃ k' e, Held k' e ∧ k_EntryID k' = id ∧ k_Fingerprint k' = k_Fingerprint k.
Proof.
  intros Hd. unfold Candidates. destruct (answered f1); [|done]. unfold zmembers.
  destruct (rget t (IndexKey k) d) as [[h|z]|] eqn:Hg; [done| |].
  - intros Hc Hin. unfold loadVectors in Hc.
    assert (id ∈ zrevrange (maxCandidates st) z) as Hz.
    { destruct (zrevrange (maxCandidates st) z) as [|x xs] eqn:Hz.
      - injection Hc as <- _. by apply elem_of_nil in Hin.
      - destruct (answered f2); [|done]. destruct (load_each t (x :: xs) d) as [[l s]|] eqn:Hl; [|done].
        injection Hc as <- _. by eapply load_each_live. }
    unfold zrevrange in Hz. apply elem_of_take in Hz as (i & Hi & _).
    apply list_elem_of_lookup_2 in Hi. rewrite elem_of_reverse in Hi.
    apply list_elem_of_fmap in Hi as ([s' id'] & -> & Hi). apply (Hd t) in Hg as [_ Hix _]; [|done].
    by apply (Hix (k_Fingerprint k) eq_refl s').
  - assert (zrevrange (maxCandidates st) [] = []) as -> by (unfold zrevrange; by destruct (Z.to_nat _)).
    simpl. intros [= <- _] Hin. by apply elem_of_nil in Hin.
Qed.

(** A corpse never decodes; any other entry is one that was stored. *)
Lemma fetch_held t f id d e :
  kv_inv key_ok t d → fetch t f id d = Ok (Some e) →
  ∃ k e0 now h, Held k e0 ∧ k_EntryID k = id ∧ written e0 now h ∧ decodeEntry h = Ok e.
Proof.
  intros Hd. unfold fetch, hgetall. destruct (answered f); [|done].
  destruct (rget t (entryKey id) d) as [[h|z]|] eqn:Hg; [|done|by rewrite bool_decide_true].
  case_bool_decide; [done|]. apply (Hd t) in Hg as [He _ _]; [|done].
  destruct (He id eq_refl) as [Hc|(k & e0 & now & Hk & Hid & Hw)]; [by rewrite decode_corpse|].
  destruct (decodeEntry h) as [e'|] eqn:Hdec; [|done]. intros [= <-]. by exists k, e0, now, h.
Qed.
End isolation.

(** ** Frames *)

Definition keys_of (c : command) : list string :=
  match c with
  | HSET k _ | EXPIRE k _ | ZADD k _ _ | ZREMRANGEBYRANK_top k _ | ZREM k _ | HINCRBY k _ _ => [k]
  | DEL ks => ks
  end.

Section frames.
Context {db} `{!Redis cval db}.

Lemma rget_put_zset_ne t t' key key' z (d : db) :
  key' ≠ key → rget t' key' (put_zset t key z d) = rget t' key' d.
Proof. intros Hne. unfold put_zset. destruct z; [rewrite rget_del_ne by congruence|rewrite rget_put_ne by congruence]; done. Qed.

Lemma rget_del_all_ne t keys key (d : db) : key ∉ keys → rget t key (del_all keys d) = rget t key d.
Proof.
  revert d. induction keys as [|k ks IH]; intros d Hn; simpl; [done|].
  rewrite IH by set_solver. rewrite rget_del_ne; set_solver.
Qed.

Lemma rget_del_all t keys key (d : db) : key ∈ keys → rget t key (del_all keys d) = None.
Proof.
  revert d. induction keys as [|k ks IH]; intros d Hin; simpl; [set_solver|].
  destruct (decide (key ∈ ks)) as [|Hn]; [by apply IH|].
  rewrite rget_del_all_ne by done. assert (key = k) as -> by set_solver. apply rget_del.
Qed.

Lemma exec_frame t t' c key (d : db) : key ∉ keys_of c → rget t' key (exec t c d).2 = rget t' key d.
Proof.
  intros Hn. destruct c as [k fs|k n|k sc m|k n|k ms|k fd n|ks]; simpl in Hn; cbn [exec snd];
    try (by rewrite rget_del_all_ne); apply not_elem_of_cons in Hn as [Hn _];
    try (rewrite rget_pexpire_ne by congruence; done);
    destruct (rget t k d) as [[h|z]|]; cbn [snd]; try done;
    try (rewrite rget_put_ne by congruence; done); try (by apply rget_put_zset_ne).
  destruct (match h !! fd with Some s => ParseInt s | None => (0, None) end) as [old err].
  destruct (bool_decide _ && _ && _); [|done]. cbn [snd]. by rewrite rget_put_ne by congruence.
Qed.

Lemma exec_all_app t cs cs' (d : db) :
  (exec_all t (cs ++ cs') d).2 = (exec_all t cs' (exec_all t cs d).2).2.
Proof.
  revert d. induction cs as [|c cs IH]; intros d; [done|]. cbn [app exec_all].
  destruct (exec t c d) as [ok d1]. specialize (IH d1).
  destruct (exec_all t (cs ++ cs') d1), (exec_all t cs d1). done.
Qed.

Lemma exec_all_frame t t' cs key (d : db) :
  Forall (λ c, key ∉ keys_of c) cs → rget t' key (exec_all t cs d).2 = rget t' key d.
Proof.
  intros Hcs. revert d. induction Hcs as [|c cs Hc _ IH]; intros d; [done|]. cbn [exec_all].
  pose proof (exec_frame t t' c key d Hc) as Hf. destruct (exec t c d) as [ok d1].
  specialize (IH d1). destruct (exec_all t cs d1). cbn [snd] in *. by rewrite IH.
Qed.

Lemma exec_all_cons t c cs (d : db) : (exec_all t (c :: cs) d).2 = (exec_all t cs (exec t c d).2).2.
Proof. cbn [exec_all]. destruct (exec t c d) as [ok d1]. cbn [fst snd]. by destruct (exec_all t cs d1). Qed.

Lemma exec_all_ok t c cs (d : db) :
  (exec_all t (c :: cs) d).1 = (exec t c d).1 && (exec_all t cs (exec t c d).2).1.
Proof. cbn [exec_all]. destruct (exec t c d) as [ok d1]. cbn [fst snd]. by destruct (exec_all t cs d1). Qed.

(** Deleting with every reply deletes every key. *)
Lemma delete_batches_all fuel t keys total (d : db) :
  (length keys ≤ fuel)%nat →
  ∃ n, delete_batches fuel t (λ _, Replied) keys total d = (Ok n, del_all keys d).
Proof.
  revert keys total d. induction fuel as [|fuel IH]; intros keys total d Hl.
  { destruct keys; [|simpl in Hl; lia]. by exists total. }
  destruct keys as [|key keys]; [by exists total|]. cbn [delete_batches round_trip].
  destruct (IH (drop purgeBatch (key :: keys)) (total + del_count t (take purgeBatch (key :: keys)) d)
    (del_all (take purgeBatch (key :: keys)) d)) as [n Hn].
  { rewrite length_drop. unfold purgeBatch. simpl length in *. lia. }
  exists n. rewrite Hn. f_equal.
  rewrite <- (take_drop purgeBatch (key :: keys)) at 3.
  generalize (take purgeBatch (key :: keys)), (drop purgeBatch (key :: keys)). clear. intros a b.
  revert d. induction a as [|x a IHa]; intros d; simpl; [done|apply IHa].
Qed.
End frames.

(** ** Bounds, round trip and deadline of a write *)

Section put.
Context {db} `{!Redis cval db} `{!RedisClient} (st : Store) (Held : Key → Entry → Prop).

Definition zlen_le (t : Z) (key : string) (n : Z) (d : db) : Prop :=
  ∀ z, zmembers t key d = Some z → Z.of_nat (length z) ≤ n.

Lemma index_commands_bounded t now k e ttl (d : db) :
  0 < maxCandidates st → 0 < ttl →
  zlen_le t (IndexKey k) (maxCandidates st) (exec_all t (put_commands st now k e ttl) d).2.
Proof.
  intros Hmax Httl z. unfold put_commands. rewrite exec_all_app.
  unfold zmembers. rewrite exec_all_frame.
  2:{ apply Forall_app. split; case_bool_decide; repeat constructor; simpl;
      intros Hin%list_elem_of_singleton; key_clash. }
  rewrite 2 exec_all_cons. set (d2 := (exec t _ (exec t _ d).2).2). rewrite 3 exec_all_cons.
  cbn [exec_all snd exec].
  set (d3 := (match rget t (IndexKey k) d2 with Some _ => _ | None => _ end).2).
  pose proof (expireSeconds_pos ttl Httl) as Hs.
  rewrite rget_pexpire by lia. destruct (Z.ltb_spec t (t + expireSeconds ttl * 1000)); [|lia].
  destruct (rget t (IndexKey k) d3) as [[h|z3]|] eqn:H3; cbn [snd]; rewrite ?H3; [done| |].
  - unfold put_zset. set (z4 := drop _ z3).
    assert (Z.of_nat (length z4) ≤ maxCandidates st) as Hl by (subst z4; rewrite length_drop; lia).
    destruct z4 as [|x z4]; [rewrite rget_del; intros [= <-]; simpl; lia|].
    rewrite rget_put_eq. by intros [= <-].
  - intros [= <-]. simpl. lia.
Qed.

(** The types of the keys a write touches make every command succeed. *)
Lemma put_commands_ok t now k e ttl (d : db) :
  Held k e → kv_inv (key_ok Held) t d → (exec_all t (put_commands st now k e ttl) d).1 = true.
Proof.
  intros Hk. assert (∀ cs, (∀ c, c ∈ cs → c ∈ put_commands st now k e ttl) →
    ∀ d, kv_inv (key_ok Held) t d → (exec_all t cs d).1 = true) as Hall; [|by intros Hd; apply Hall].
  induction cs as [|c cs IH]; intros Hcs d0 Hd; [done|]. rewrite exec_all_ok.
  assert (c ∈ put_commands st now k e ttl) as Hc by (apply Hcs; set_solver).
  assert (kv_inv (key_ok Held) t (exec t c d0).2) as Hd1 by (by eapply exec_put_inv).
  rewrite IH; [|set_solver|done]. rewrite andb_true_r. clear IH Hd1 Hcs.
  assert (∀ key v, rget t key d0 = Some v → key_ok Held key v) as Hget by (intros; eapply Hd; [done|eassumption]).
  unfold put_commands in Hc. rewrite !elem_of_app, !elem_of_cons, elem_of_nil in Hc.
  destruct Hc as [Hc|[Hc|Hc]];
    [destruct Hc as [->|[->|[->|[->|[->|[]]]]]]
    |case_bool_decide; rewrite ?elem_of_cons, ?elem_of_nil in Hc; [done|destruct Hc as [->|[->|[]]]]
    |case_bool_decide; rewrite ?elem_of_cons, ?elem_of_nil in Hc; [done|destruct Hc as [->|[]]]];
    cbn [exec]; try done;
    match goal with |- context [rget t ?key d0] => destruct (rget t key d0) as [[h|z]|] eqn:Hg end; try done;
    apply Hget in Hg as [He Hi Hs].
  - by destruct (He (k_EntryID k) eq_refl).
  - by destruct (Hi (k_Fingerprint k) eq_refl).
  - by destruct (Hi (k_Fingerprint k) eq_refl).
  - by destruct (Hs (k_TeamID k) ltac:(by right; left)).
  - by destruct (Hs (k_ScopeID k) ltac:(by right; right)).
Qed.

Lemma trimScope_bounded t k (d : db) :
  0 < maxScopeEntries st → kv_inv (key_ok Held) t d →
  let d' := trimScope st t (λ _, Replied) Replied k d in
  zlen_le t (ScopeKey k) (maxScopeEntries st) d' ∧ rget t (IndexKey k) d' = rget t (IndexKey k) d.
Proof.
  intros Hs Hd. unfold trimScope, zlen_le, zmembers. cbn [answered].
  destruct (rget t (ScopeKey k) d) as [[h|z]|] eqn:Hg; [by rewrite Hg| |].
  2:{ simpl length. destruct (Z.leb_spec (Z.of_nat 0) (maxScopeEntries st)); [|lia]. rewrite Hg. split; [|done].
      intros z [= <-]. simpl. lia. }
  destruct (Z.leb_spec (Z.of_nat (length z)) (maxScopeEntries st)) as [Hle|Hgt].
  { rewrite Hg. split; [|done]. by intros z' [= <-]. }
  set (n := Z.of_nat (length z) - maxScopeEntries st).
  assert (zset_ok z) as Hok.
  { pose proof Hg as Hg'. apply (Hd t) in Hg' as [_ _ Hg']; [|done]. apply (Hg' (k_ScopeID k)). by right; right. }
  destruct (zrange n z) as [|v vs] eqn:Hv.
  { apply (f_equal length) in Hv. unfold zrange in Hv. rewrite length_take, length_map in Hv. simpl in Hv. lia. }
  unfold deleteEntries, deleteKeys.
  destruct (delete_batches_all (length (map entryKey (v :: vs))) t (map entryKey (v :: vs)) 0 d
    ltac:(done)) as [m ->]. unfold fire. cbn [runs Nat.iter nat_rect exec].
  assert (∀ key, (∀ id, key ≠ entryKey id) → rget t key (del_all (map entryKey (v :: vs)) d) = rget t key d) as Hfr.
  { intros key Hkey. apply rget_del_all_ne. intros (id & -> & _)%list_elem_of_fmap. by eapply Hkey. }
  rewrite Hfr, Hg by (intros id ?; key_clash). cbn [snd]. split.
  - rewrite <- Hv. unfold zrange. change (map snd z) with (snd <$> z). rewrite <- fmap_take. rewrite zremove_take by done. unfold put_zset.
    intros z'. destruct (drop (Z.to_nat n) z) as [|x z2] eqn:Hdrop.
    + rewrite rget_del. intros [= <-]. simpl. lia.
    + rewrite rget_put_eq. intros [= <-]. rewrite <- Hdrop, length_drop. lia.
  - rewrite rget_put_zset_ne by (intros ?; key_clash). apply Hfr. intros id ?. key_clash.
Qed.

(** the cache stays bounded.  A write whose commands all reach Redis
    succeeds, and after it the fingerprint's bucket holds at most
    [MaxCandidates] entries (so a similarity scan compares at most that many
    vectors) and the tenant's scope at most [MaxScopeEntries], whatever they
    held before. *)
Theorem Put_bounded t clock k e ttl d :
  0 < maxCandidates st → 0 < maxScopeEntries st → 0 < ttl → k_ScopeID k ≠ ""%string →
  Held k e → kv_inv (key_ok Held) t d →
  let r := Put st t clock None (λ _, Replied) Replied k e ttl d in
  r.1 = true ∧ zlen_le t (IndexKey k) (maxCandidates st) r.2 ∧
  zlen_le t (ScopeKey k) (maxScopeEntries st) r.2.
Proof.
  intros Hc Hs Httl Hsc Hk Hd. unfold Put. cbn [exec_pipe]. set (now := default clock _).
  pose proof (index_commands_bounded t now k e ttl d Hc Httl) as Hidx.
  pose proof (put_commands_ok t now k e ttl d Hk Hd) as Hok.
  pose proof (exec_all_inv st Held t (put_commands st now k e ttl) d
    ltac:(apply Forall_forall; intros; by eapply CC_put) Hd) as Hd1.
  destruct (exec_all t _ d) as [[] d1]; [|done]. cbn [fst snd] in *.
  rewrite bool_decide_false by done.
  destruct (trimScope_bounded t k d1 Hs Hd1) as [H1 H2]. split_and!; [done| |done].
  unfold zlen_le, zmembers in *. by rewrite H2.
Qed.

(** C16: what is stored is served back, exactly and for its lifetime.  After a
    write whose commands reach Redis, in a scope with room left, the exact tier
    returns the entry with the same text, tokens, model, provider and embedding
    until its time to live has passed, and nothing afterwards. *)
Theorem Put_then_Exact t t' clock f fz k e ttl d :
  let now := default clock (e_CreatedAt e) in
  let r := Put st t clock None f fz k e ttl d in
  Held k e → kv_inv (key_ok Held) t d → storable e now → 0 < ttl → t ≤ t' →
  (∀ z, zmembers t (ScopeKey k) (exec_all t (put_commands st now k e ttl) d).2 = Some z →
        Z.of_nat (length z) ≤ maxScopeEntries st) →
  r.1 = true ∧
  Exact t' Replied k r.2 =
    Ok (if t' <? t + expireSeconds ttl * 1000 then Some (stored e now 0) else None).
Proof.
  intros now r Hk Hd Hst Httl Ht Hroom. subst r. unfold Put. cbn [exec_pipe]. fold now.
  pose proof (put_commands_ok t now k e ttl d Hk Hd) as Hok.
  set (old := match rget t (entryKey (k_EntryID k)) d with Some (CHash h) => h | _ => ∅ end).
  assert (entry_ok Held (k_EntryID k) (CHash old) ∨ old = ∅) as Hold.
  { subst old. destruct (rget t (entryKey (k_EntryID k)) d) as [[h|z]|] eqn:Hg; [left|by right..].
    apply (Hd t) in Hg as [Hg _ _]; [|done]. by apply Hg. }
  assert (rget t' (entryKey (k_EntryID k)) (exec_all t (put_commands st now k e ttl) d).2
    = if t' <? t + expireSeconds ttl * 1000 then Some (CHash (entry_hash e now ∪ old)) else None) as Hent.
  { unfold put_commands. cbn [app]. rewrite 2 exec_all_cons. rewrite exec_all_frame.
    2:{ repeat (constructor; [simpl; intros Hin%list_elem_of_singleton; key_clash|]).
        apply Forall_app. split; case_bool_decide; repeat constructor; simpl;
          intros Hin%list_elem_of_singleton; key_clash. }
    cbn [exec snd]. rewrite rget_pexpire by done. destruct (_ <? _); [|done]. subst old.
    destruct (rget t (entryKey (k_EntryID k)) d) as [[h|z]|] eqn:Hg; cbn [snd]; rewrite ?rget_put_eq.
    - done.
    - apply (Hd t) in Hg as [Hg _ _]; [|done]. by destruct (Hg (k_EntryID k) eq_refl).
    - by rewrite (right_id_L ∅ (∪)). }
  destruct (exec_all t _ d) as [[] d1]; [|done]. cbn [fst snd] in *. split; [done|].
  assert ((if bool_decide (k_ScopeID k = ""%string) then d1 else trimScope st t f fz k d1) = d1) as ->.
  { case_bool_decide; [done|]. unfold trimScope. destruct (answered (f 0%nat)); [|done].
    destruct (zmembers t (ScopeKey k) d1) as [z|]; [|done]. specialize (Hroom z eq_refl).
    by destruct (Z.leb_spec (Z.of_nat (length z)) (maxScopeEntries st)); [|lia]. }
  unfold Exact, fetch, hgetall. cbn [answered]. rewrite Hent. destruct (t' <? _); [|by rewrite bool_decide_true].
  assert ((entry_hash e now ∪ old) !! "hits"%string = Some "0"%string) as H0.
  { rewrite lookup_union. change (entry_hash e now !! "hits"%string) with (Some "0"%string).
    by destruct (old !! "hits"%string). }
  rewrite bool_decide_false by (intros Hemp; by rewrite Hemp in H0).
  rewrite (decode_written e now) by (done || by eapply hset_written). unfold field. by rewrite H0.
Qed.
End put.

(** ** Purges *)

Section purge.
Context {db} `{!Redis cval db} (scan : string → db → list (list string)).

(** A team's purge removes every entry its index lists. *)
Lemma PurgeTeam_removes t t' team z (d : db) :
  trim_space team ≠ ""%string → zmembers t (teamKey team) d = Some z →
  ∃ r, PurgeTeam t Replied (λ _, Replied) Replied team d = r ∧ is_ok r.1 = true ∧
    (∀ s id, (s, id) ∈ z → fetch t' Replied id r.2 = Ok None) ∧
    rget t' (teamKey team) r.2 = None.
Proof.
  intros Hteam Hz. eexists. split; [done|]. unfold PurgeTeam. cbn [answered]. rewrite bool_decide_false, Hz by done.
  unfold deleteEntries, deleteKeys.
  destruct (delete_batches_all (length (map entryKey (map snd z))) t (map entryKey (map snd z)) 0 d
    ltac:(done)) as [n ->]. cbn [fst snd is_ok round_trip]. split_and!; [done| |by rewrite rget_del].
  intros s id Hin. unfold fetch, hgetall. cbn [answered]. rewrite rget_del_ne by (intros ?; key_clash).
  rewrite rget_del_all; [by rewrite bool_decide_true|].
  apply list_elem_of_fmap. exists id. split; [done|]. apply list_elem_of_fmap. by exists (s, id).
Qed.

Lemma scan_loop_all batches keys :
  scan_loop (λ _, Replied) batches 0 keys = Ok (keys ++ concat batches).
Proof.
  revert keys. induction batches as [|b bs IH]; intros keys; simpl; [by rewrite app_nil_r|].
  by rewrite IH, <- (assoc_L (++)).
Qed.

(** Redis's guarantee for a full iteration. *)
Definition scan_complete (t : Z) (d : db) : Prop :=
  ∀ p key, is_Some (rget t key d) → String.prefix p key = true → key ∈ concat (scan p d).

(** a full purge leaves nothing.  When SCAN keeps its guarantee and every
    reply arrives, no key of the cache is readable afterwards: no entry, no
    fingerprint bucket, no team index, no scope index. *)
Theorem PurgeAll_leaves_nothing t d :
  scan_complete t d →
  let r := PurgeAll scan t (λ _ _, Replied) (λ _, Replied) (λ _, Replied) d in
  is_ok r.1 = true ∧
  ∀ key kind, kind ∈ [":entry:"; ":index:"; ":team:"; ":scope:"]%string →
    String.prefix (keyPrefix ++ kind) key = true → rget t key r.2 = None.
Proof.
  intros Hscan r. subst r. unfold PurgeAll, scanKeys. rewrite !scan_loop_all. cbn [app].
  set (E := concat (scan (keyPrefix ++ ":entry:")%string d)).
  set (I := concat (scan (keyPrefix ++ ":index:")%string d)).
  set (T := concat (scan (keyPrefix ++ ":team:")%string d)).
  set (S := concat (scan (keyPrefix ++ ":scope:")%string d)).
  unfold deleteKeys.
  destruct (delete_batches_all (length E) t E 0 d ltac:(done)) as [n ->].
  destruct (delete_batches_all (length (I ++ T ++ S)) t (I ++ T ++ S) 0 (del_all E d) ltac:(done)) as [m ->].
  split; [done|]. intros key kind Hkind Hp. cbn [snd].
  destruct (decide (key ∈ I ++ T ++ S)) as [|Hn]; [by apply rget_del_all|].
  rewrite rget_del_all_ne by done. destruct (decide (key ∈ E)) as [|Hn']; [by apply rget_del_all|].
  rewrite rget_del_all_ne by done. destruct (rget t key d) eqn:Hg; [exfalso|done].
  assert (∀ kd, String.prefix (keyPrefix ++ kd) key = true → key ∈ concat (scan (keyPrefix ++ kd)%string d)) as Hin
    by (intros kd Hkd; apply Hscan; [by rewrite Hg|done]).
  apply Hin in Hp. rewrite !elem_of_app in Hn.
  rewrite !elem_of_cons, elem_of_nil in Hkind.
  destruct Hkind as [->|[->|[->|[->|[]]]]]; tauto.
Qed.
End purge.

(** ** Runs *)

Lemma whole_seconds d : second ≤ d → 1 ≤ Z.quot d second ∧ Z.quot d second * second ≤ d.
Proof.
  unfold second, millisecond, microsecond, nanosecond. intros Hd. rewrite Z.quot_div_nonneg by lia.
  split; [apply Z.div_le_lower_bound; lia|]. pose proof (Z.mul_div_le d (1000 * (1000 * (1000 * 1)))). lia.
Qed.

Definition round_seconds (d : Z) : Z := if d <? second then 1 else Z.quot d second.

#[local] Program Instance go_redis : RedisClient := {| expireSeconds := round_seconds |}.
Next Obligation.
  intros d Hd. unfold round_seconds. destruct (Z.ltb_spec d second); [lia|]. by apply whole_seconds.
Qed.
Next Obligation.
  intros d Hd. unfold round_seconds. destruct (Z.ltb_spec d second); [lia|]. by apply whole_seconds.
Qed.

Definition demo_store : Store := NewStore {| maxCandidates := 2; maxScopeEntries := 2;
  readTimeout := 0; writeTimeout := 0 |}.

Definition demo_key (q : string) : Key := NewKey (demo_scope "org1" "acme" false) (demo_question q).

Definition demo_entry (answer : string) : Entry :=
  {| e_Response := answer; e_FinishReason := FinishStop; e_InputTokens := 12; e_OutputTokens := 3;
     e_Model := "gpt-4o"; e_Provider := "openai"; e_CreatedAt := Some 1700000000000000000;
     e_Hits := 0; e_Embedding := [f32_of_Z 1; f32_zero] |}.

Definition demo_put (t : Z) (q : string) (ttl : Z) (d : RedisMap.db cval) : RedisMap.db cval :=
  (Put demo_store t 0 None (λ _, Replied) Replied (demo_key q) (demo_entry "because") ttl d).2.

Definition demo_held (k : Key) (e : Entry) : Prop := True.

Lemma empty_inv t : kv_inv (key_ok demo_held) t (∅ : RedisMap.db cval).
Proof. intros t' k v _ H. discriminate H. Qed.

Lemma Put_bounded_witness :
  let d := (Put demo_store 0 0 None (λ _, Replied) Replied (demo_key "q1") (demo_entry "a") hour
              (∅ : RedisMap.db cval)).2 in
  zlen_le 0 (IndexKey (demo_key "q1")) 2 d ∧ zlen_le 0 (ScopeKey (demo_key "q1")) 2 d.
Proof.
  apply (Put_bounded demo_store demo_held 0 0 (demo_key "q1") (demo_entry "a") hour
    (∅ : RedisMap.db cval)); try closed; [exact I|apply empty_inv].
Defined.

Lemma Put_then_Exact_witness :
  Exact 3599999 Replied (demo_key "q1")
    (Put demo_store 0 0 None (λ _, Replied) Replied (demo_key "q1") (demo_entry "a") hour
       (∅ : RedisMap.db cval)).2 = Ok (Some (stored (demo_entry "a") 1700000000000000000 0)).
Proof.
  destruct (Put_then_Exact demo_store demo_held 0 3599999 0 (λ _, Replied) Replied (demo_key "q1")
    (demo_entry "a") hour (∅ : RedisMap.db cval)) as [_ H];
    [exact I|apply empty_inv| |closed|closed| |exact H].
  - repeat split; try (vm_compute; discriminate). repeat constructor.
  - intros z Hz. vm_compute in Hz. injection Hz as <-. vm_compute. discriminate.
Defined.

(** A purge can miss entries.  The team index expires with the shortest time to
    live of the team's last write, not with its longest-lived entry: here an
    entry stored for a day survives a purge an hour later, because a second
    answer was stored for one minute in between. *)
Definition purge_scenario : RedisMap.db cval := demo_put 1000 "q2" minute (demo_put 0 "q1" (24 * hour) ∅).

Theorem purge_misses_long_lived_entries :
  let t := 3600000 in
  let r := PurgeTeam t Replied (λ _, Replied) Replied "acme" purge_scenario in
  r.1 = Ok {| p_Scope := "team"; p_Target := "acme"; p_Entries := 0; p_Indexes := 0 |} ∧
  Exact t Replied (demo_key "q1") r.2 = Ok (Some (stored (demo_entry "because") 1700000000000000000 0)).
Proof. vm_compute. split; reflexivity. Qed.

(** A hit counted just after its entry expired leaves a hash that holds only the
    counter and never expires; reading it is an error, so every lookup of that
    question is reported as a degraded cache until the answer is stored anew. *)
Theorem late_hit_leaves_corpse :
  let id := k_EntryID (demo_key "q1") in
  let d := demo_put 0 "q1" minute ∅ in
  let d' := (RecordHit 60000 Replied id d).2 in
  fetch 59999 Replied id d = Ok (Some (stored (demo_entry "because") 1700000000000000000 0)) ∧
  fetch 60000 Replied id d = Ok None ∧
  fetch 10000000000 Replied id d' = Err (DecodeTimestamp ErrSyntax).
Proof. vm_compute. split_and!; reflexivity. Qed.

Definition map_scan (p : string) (d : RedisMap.db cval) : list (list string) :=
  [map fst (map_to_list (d : gmap string (cval * option Z)))].

Lemma PurgeAll_leaves_nothing_witness :
  rget 5 (entryKey (k_EntryID (demo_key "q1")))
    (PurgeAll map_scan 5 (λ _ _, Replied) (λ _, Replied) (λ _, Replied) purge_scenario).2 = None.
Proof.
  apply (PurgeAll_leaves_nothing map_scan 5 purge_scenario) with (kind := ":entry:"%string).
  - intros p key [v Hv] _. unfold map_scan. simpl. rewrite app_nil_r.
    apply list_elem_of_fmap. unfold rget, RedisMap.redis_map, RedisMap.get in Hv.
    destruct ((purge_scenario : gmap string (cval * option Z)) !! key) as [x|] eqn:Hx; [|discriminate Hv].
    exists (key, x). split; [done|]. by apply elem_of_map_to_list.
  - set_solver.
  - vm_compute. reflexivity.
Defined.
