(* ===== verification/CacheLookup.v ===== *)
(** * internal/cache: lookup.go, embed.go, ttl.go

    The two-tier lookup on the request path.  It is written against
    [EntryStore], the slice of the Redis layer it uses together with the
    embedding service and the clock, and fails open: whatever a dependency
    does, it returns a result.  [RedisStore] is the instance over the Redis
    layer, with other clients' commands interleaved between its calls. *)

From Stdlib Require Import Ascii.
From S2P Require Import Prelude Redis Text Float32 Wire Sha256 CacheKey CacheStore CacheStoreFacts.

(** ** embed.go *)

(** [Similarity] is the literal loop: products and sums in float32. *)
Definition dot (a b : list float32) : float32 :=
  foldl (λ acc p, f32_add acc (f32_mul p.1 p.2)) f32_zero (zip a b).
Definition Similarity (a b : list float32) : float32 :=
  if bool_decide (length a ≠ length b) then f32_zero else dot a b.

Definition sum_squares (v : list float32) : float64 :=
  foldl (λ acc x, f64_add acc (f64_mul (f32_to_f64 x) (f32_to_f64 x))) (S754_zero false) v.
Definition Normalize (v : list float32) : list float32 :=
  let sum := sum_squares v in
  if SFeqb sum (S754_zero false) then v
  else let inv := f64_to_f32 (f64_div (f64_of_Z 1) (f64_sqrt sum)) in
       map (λ x, f32_mul x inv) v.

Record EmbedConfig := {
  ec_BaseURL : string; ec_APIKey : string; ec_Model : string; ec_Dimensions : Z; ec_Timeout : Z }.

Inductive embed_config_error :=
| BaseURLRequired | APIKeyRequired | EmbedModelRequired | DimensionsPositive | TimeoutRequired.

Definition NewGemini (cfg : EmbedConfig) : result embed_config_error EmbedConfig :=
  if bool_decide (ec_BaseURL cfg = ""%string) then Err BaseURLRequired
  else if bool_decide (ec_APIKey cfg = ""%string) then Err APIKeyRequired
  else if bool_decide (ec_Model cfg = ""%string) then Err EmbedModelRequired
  else if ec_Dimensions cfg <=? 0 then Err DimensionsPositive
  else if ec_Timeout cfg <=? 0 then Err TimeoutRequired
  else Ok cfg.

(** Every failure is [ErrEmbedUnavailable]; the reason is for the log. *)
Inductive embed_error :=
| EmptyText | CallFailed | ReadFailed | BadStatus (code : Z) | BadBody | WrongDimensions (got : Z).

(** What the HTTP exchange produced: the call or the body read may fail; else
    a status, and the vector the body decodes to if it does. *)
Inductive embed_exchange :=
| NoResponse | BodyLost | Answered (status : Z) (values : option (list float32)).

Definition Embed (cfg : EmbedConfig) (exchange : string → embed_exchange) (text : string)
    : result embed_error (list float32) :=
  if bool_decide (trim_space text = ""%string) then Err EmptyText
  else
    match exchange text with
    | NoResponse => Err CallFailed
    | BodyLost => Err ReadFailed
    | Answered status values =>
        if 400 <=? status then Err (BadStatus status)
        else match values with
             | None => Err BadBody
             | Some v =>
                 if bool_decide (Z.of_nat (length v) ≠ ec_Dimensions cfg)
                 then Err (WrongDimensions (Z.of_nat (length v)))
                 else Ok (Normalize v)
             end
    end.

(** ** ttl.go *)

Record TTLRule := { tr_Name : string; tr_TTL : Z; tr_Patterns : list string }.
Record TTLPolicy := { tp_Default : Z; tp_Max : Z; tp_Rules : list TTLRule }.

(** [None] is "do not cache". *)
Definition clampTTL (d max : Z) : option Z :=
  if d <=? 0 then None
  else if (0 <? max) && (max <? d) then Some max
  else Some d.

Section ttl.
(** [strings.ToLower] and [strings.Contains]. *)
Context (ToLower : string → string) (Contains : string → string → bool).

Definition rule_matches (lowered : string) (r : TTLRule) : bool :=
  existsb (Contains lowered) (tr_Patterns r).

Definition TTLFor (p : TTLPolicy) (query : string) (override : option Z) : option Z :=
  match override with
  | Some d => clampTTL d (tp_Max p)
  | None =>
      match find_first (rule_matches (ToLower query)) (tp_Rules p) with
      | Some rule => clampTTL (tr_TTL rule) (tp_Max p)
      | None => clampTTL (tp_Default p) (tp_Max p)
      end
  end.

Definition MatchedRule (p : TTLPolicy) (query : string) : string :=
  match find_first (rule_matches (ToLower query)) (tp_Rules p) with
  | Some rule => tr_Name rule
  | None => ""
  end.

(** The first rule one of whose patterns occurs. *)
Lemma TTLFor_first_rule p query rules rule rest :
  tp_Rules p = rules ++ rule :: rest →
  (∀ r, r ∈ rules → rule_matches (ToLower query) r = false) →
  rule_matches (ToLower query) rule = true →
  TTLFor p query None = clampTTL (tr_TTL rule) (tp_Max p) ∧ MatchedRule p query = tr_Name rule.
Proof.
  intros Hp Hno Hyes. unfold TTLFor, MatchedRule. rewrite Hp. clear Hp.
  assert (find_first (rule_matches (ToLower query)) (rules ++ rule :: rest) = Some rule) as ->; [|done].
  induction rules as [|r rules IH]; simpl; [by rewrite Hyes|].
  rewrite Hno by set_solver. apply IH. set_solver.
Qed.

(** A lifetime is positive and within the maximum; a caller's override is
    obeyed up to the maximum, and zero opts out. *)
Lemma TTLFor_bounds p query override :
  0 < tp_Max p →
  match TTLFor p query override with
  | Some ttl => 0 < ttl ≤ tp_Max p
  | None => True
  end ∧
  (∀ d, override = Some d → TTLFor p query override = if d <=? 0 then None else Some (Z.min d (tp_Max p))).
Proof.
  intros Hmax.
  assert (∀ d, clampTTL d (tp_Max p) = if d <=? 0 then None else Some (Z.min d (tp_Max p))) as Hc.
  { intros d. unfold clampTTL. destruct (Z.leb_spec d 0); [done|].
    destruct (Z.ltb_spec 0 (tp_Max p)), (Z.ltb_spec (tp_Max p) d); simpl; f_equal; lia. }
  unfold TTLFor. split.
  - assert (∀ d, match clampTTL d (tp_Max p) with Some ttl => 0 < ttl ≤ tp_Max p | None => True end) as Hb.
    { intros d. rewrite Hc. destruct (Z.leb_spec d 0); [done|]. lia. }
    destruct override; [apply Hb|]. destruct (find_first _ _); apply Hb.
  - intros d ->. apply Hc.
Qed.
End ttl.

(** ** lookup.go *)

Inductive Tier := TierNone | TierExact | TierSemantic.

#[export] Instance Tier_eq_dec : EqDecision Tier.
Proof. solve_decision. Defined.

Record LookupConfig := { SemanticEnabled : bool; Threshold : float32 }.

Record Result := {
  Hit : bool;
  RTier : Tier;
  REntry : option Entry;
  RSimilarity : float32;
  REmbedding : list float32;
  RThreshold : float32;
  Latency : Z;
  EmbedLatency : Z
}.

(** The observer's calls: a finished lookup, or a dependency that failed. *)
Inductive cache_event :=
| ObserveLookup (team : string) (tier : Tier) (hit : bool) (similarity : float32) (latency : Z)
| ObserveDegraded (reason : string).

Class EntryStore (W : Type) := {
  es_now : W → Z;
  es_Exact : Key → W → result cache_error (option Entry) * W;
  es_Candidates : Key → W → result cache_error (list (string * list float32)) * W;
  es_Fetch : string → W → result cache_error (option Entry) * W;
  es_Put : Key → Entry → Z → W → bool * W;
  es_RecordHit : string → W → bool * W;
  es_embed : string → W → result embed_error (list float32) * W;
  es_observe : cache_event → W → W
}.

(** The scan keeps the best score so far, the earliest of equals. *)
Fixpoint nearest_loop (query : list float32) (cands : list (string * list float32))
    (bestID : string) (best : float32) : string * float32 :=
  match cands with
  | [] => (bestID, best)
  | (id, v) :: cands' =>
      if bool_decide (length v ≠ length query) then nearest_loop query cands' bestID best
      else let s := Similarity query v in
           if f_ltb best s then nearest_loop query cands' id s
           else nearest_loop query cands' bestID best
  end.

Definition nearest (query : list float32) (cands : list (string * list float32)) : string * float32 :=
  let '(bestID, best) := nearest_loop query cands "" (f32_of_Z (-2)) in
  if bool_decide (bestID = ""%string) then (""%string, f32_zero) else (bestID, best).

Section lookup.
Context {W} `{!EntryStore W} (cfg : LookupConfig) (has_embedder : bool).

Definition degrade (reason : string) (w : W) : W := es_observe (ObserveDegraded reason) w.

(** The hit counter's failure is only reported. *)
Definition recordHit (id : string) (w : W) : W :=
  let '(ok, w) := es_RecordHit id w in if ok then w else degrade "redis_write" w.

(** The result, stamped with the threshold and the time since [start]. *)
Definition finish (k : Key) (start : Z) (hit : bool) (tier : Tier) (entry : option Entry)
    (sim : float32) (embedding : list float32) (embedLatency : Z) (w : W) : Result * W :=
  let r := {| Hit := hit; RTier := tier; REntry := entry; RSimilarity := sim;
              REmbedding := embedding; RThreshold := Threshold cfg;
              Latency := es_now w - start; EmbedLatency := embedLatency |} in
  (r, es_observe (ObserveLookup (k_TeamID k) tier hit sim (Latency r)) w).

Definition Lookup (k : Key) (w : W) : Result * W :=
  let start := es_now w in
  let '(exact, w) := es_Exact k w in
  match exact with
  | Err _ => finish k start false TierExact None f32_zero [] 0 (degrade "redis_read" w)
  | Ok (Some entry) =>
      let w := recordHit (k_EntryID k) w in
      finish k start true TierExact (Some entry) (f32_of_Z 1) [] 0 w
  | Ok None =>
      if negb (SemanticEnabled cfg) || negb has_embedder
      then finish k start false TierExact None f32_zero [] 0 w
      else
        let embedStart := es_now w in
        let '(embedded, w) := es_embed (k_Query k) w in
        let embedLatency := es_now w - embedStart in
        match embedded with
        | Err _ => finish k start false TierSemantic None f32_zero [] embedLatency (degrade "embed" w)
        | Ok vector =>
            let '(cands, w) := es_Candidates k w in
            match cands with
            | Err _ => finish k start false TierSemantic None f32_zero vector embedLatency
                         (degrade "redis_index" w)
            | Ok cands =>
                let '(bestID, best) := nearest vector cands in
                if bool_decide (bestID = ""%string) || f_ltb best (Threshold cfg)
                then finish k start false TierSemantic None best vector embedLatency w
                else
                  let '(found, w) := es_Fetch bestID w in
                  match found with
                  | Err _ => finish k start false TierSemantic None best vector embedLatency
                               (degrade "redis_read" w)
                  | Ok None => finish k start false TierSemantic None best vector embedLatency w
                  | Ok (Some hitEntry) =>
                      let w := recordHit bestID w in
                      finish k start true TierSemantic (Some hitEntry) best vector embedLatency w
                  end
            end
        end
  end.

Definition Cache_Store (k : Key) (embedding : list float32) (e : Entry) (ttl : Z) (w : W) : W :=
  let e := {| e_Response := e_Response e; e_FinishReason := e_FinishReason e;
              e_InputTokens := e_InputTokens e; e_OutputTokens := e_OutputTokens e;
              e_Model := e_Model e; e_Provider := e_Provider e; e_CreatedAt := e_CreatedAt e;
              e_Hits := e_Hits e; e_Embedding := embedding |} in
  let '(ok, w) := es_Put k e ttl w in
  if ok then w else degrade "redis_write" w.
End lookup.

Definition Cacheable (resp : option Response) : bool :=
  match resp with
  | None => false
  | Some r => negb (bool_decide (rs_Content r = ""%string)) && bool_decide (rs_FinishReason r = FinishStop)
  end.

(** ** What a hit means *)

(** [(id, v)] of the candidates has the score [s], and none of the same
    dimension scores higher. *)
Definition best_match (query : list float32) (cands : list (string * list float32))
    (id : string) (s : float32) : Prop :=
  (∃ v, (id, v) ∈ cands ∧ length v = length query ∧ s = Similarity query v) ∧
  ∀ id' v', (id', v') ∈ cands → length v' = length query → f_ltb s (Similarity query v') = false.

Lemma nearest_loop_spec query cands bestID best id s :
  nearest_loop query cands bestID best = (id, s) →
  ((id, s) = (bestID, best) ∨
   ∃ v, (id, v) ∈ cands ∧ length v = length query ∧ s = Similarity query v) ∧
  (f_ltb s best = false ∧ (∀ x, f_ltb s x = true → f_ltb best x = true)) ∧
  ∀ id' v', (id', v') ∈ cands → length v' = length query → f_ltb s (Similarity query v') = false.
Proof.
  revert bestID best. induction cands as [|[i v] cands IH]; intros bestID best; simpl.
  { intros [= <- <-]. split_and!; [by left|apply f_ltb_irrefl|done|]. intros ? ? Hin. by apply elem_of_nil in Hin. }
  case_bool_decide as Hl.
  { intros (H1 & H2 & H3)%IH. split_and!; [destruct H1 as [|(u & ? & ?)]; [by left|right; exists u; set_solver]|apply H2|apply H2|].
    intros id' v' [Heq|Hin]%elem_of_cons Hv'; [injection Heq as -> ->; done|by eapply H3]. }
  assert (length v = length query) as Hlen by (apply dec_stable; tauto).
  destruct (f_ltb best (Similarity query v)) eqn:Hlt; intros (H1 & (H2a & H2b) & H3)%IH.
  - split_and!.
    + right. destruct H1 as [Heq|(u & ? & ?)]; [injection Heq as -> ->; exists v; set_solver|exists u; set_solver].
    + destruct (f_ltb s best) eqn:Hsb; [|done]. by rewrite (f_ltb_trans _ _ _ Hsb Hlt) in H2a.
    + intros x Hx. eapply f_ltb_trans; [exact Hlt|by apply H2b].
    + intros id' v' [Heq|Hin]%elem_of_cons Hv'; [injection Heq as -> ->|by eapply H3].
      destruct (f_ltb s (Similarity query v)) eqn:Hs; [|done].
      apply H2b in Hs. by rewrite f_ltb_irrefl in Hs.
  - split_and!; [destruct H1 as [|(u & ? & ?)]; [by left|right; exists u; set_solver]|done|done|].
    intros id' v' [Heq|Hin]%elem_of_cons Hv'; [injection Heq as -> ->|by eapply H3].
    destruct (f_ltb s (Similarity query v)) eqn:Hs; [|done]. apply H2b in Hs. congruence.
Qed.

Lemma nearest_best query cands id s :
  nearest query cands = (id, s) → id ≠ ""%string → best_match query cands id s.
Proof.
  unfold nearest. destruct (nearest_loop _ _ _ _) as [bid b] eqn:Hn.
  case_bool_decide; [by intros [= <- _]|]. intros [= -> ->] _.
  apply nearest_loop_spec in Hn as ([Heq|Hv] & _ & Hmax); [by injection Heq as ->|]. by split.
Qed.

Section lookup_facts.
Context {W} `{!EntryStore W} (cfg : LookupConfig) (has_embedder : bool).

(** The ways a lookup ends, with the calls it made. *)
Inductive looked_up (k : Key) (w : W) (r : Result) : Prop :=
| Missed : Hit r = false → REntry r = None → looked_up k w r
| HitExact e : Hit r = true → RTier r = TierExact → REntry r = Some e →
    (es_Exact k w).1 = Ok (Some e) → looked_up k w r
| HitSemantic w1 w2 w3 vector cands id e :
    Hit r = true → RTier r = TierSemantic → REntry r = Some e →
    es_Exact k w = (Ok None, w1) → SemanticEnabled cfg = true →
    es_embed (k_Query k) w1 = (Ok vector, w2) → es_Candidates k w2 = (Ok cands, w3) →
    best_match vector cands id (RSimilarity r) → f_ltb (RSimilarity r) (Threshold cfg) = false →
    (es_Fetch id w3).1 = Ok (Some e) → looked_up k w r.

Lemma Lookup_looked_up k w : looked_up k w (Lookup cfg has_embedder k w).1.
Proof.
  unfold Lookup. destruct (es_Exact k w) as [[[e|]|err] w1] eqn:He.
  - by apply (HitExact _ _ _ e); rewrite ?He.
  - destruct (negb (SemanticEnabled cfg) || negb has_embedder) eqn:Hs; [by apply Missed|].
    apply orb_false_iff in Hs as [Hs%negb_false_iff _].
    destruct (es_embed (k_Query k) w1) as [[vector|err] w2] eqn:Hv; [|by apply Missed].
    destruct (es_Candidates k w2) as [[cands|err] w3] eqn:Hc; [|by apply Missed].
    destruct (nearest vector cands) as [id s] eqn:Hn.
    destruct (bool_decide (id = ""%string) || f_ltb s (Threshold cfg)) eqn:Hb; [by apply Missed|].
    apply orb_false_iff in Hb as [Hid%bool_decide_eq_false Hth].
    destruct (es_Fetch id w3) as [[[e|]|err] w4] eqn:Hf; [|by apply Missed..].
    eapply (HitSemantic _ _ _ w1 w2 w3 vector cands id e); try done; [by apply nearest_best|by rewrite Hf].
  - by apply Missed.
Qed.

(** a lookup never invents an answer and never fails.  It always returns;
    it reports a hit only with an entry the store returned, either for the
    request's own entry id, or for the candidate of its fingerprint's bucket
    that scores highest against the request's embedding, and not below the
    threshold.  Every failure of Redis or of the embedding service is a
    miss. *)
Theorem Lookup_sound k w : looked_up k w (Lookup cfg has_embedder k w).1.
Proof. apply Lookup_looked_up. Qed.
End lookup_facts.

(** ** The instance over Redis *)

(** Before each call other clients may run commands and time may pass; the
    call's round trip then has a fate, and a pipeline cut short has run some
    number of its commands. *)
Record turn := {
  tn_elapsed : N; tn_commands : list command; tn_fate : net_fate; tn_ran : nat }.

Section redis_store.
Context {db} `{!Redis cval db} `{!RedisClient} (st : Store) (cfg : EmbedConfig).

Record cache_world := {
  cw_clock : Z;
  cw_db : db;
  cw_turns : list turn;
  cw_exchange : string → embed_exchange;
  cw_events : list cache_event
}.

(** Redis's clock, in milliseconds. *)
Definition cw_ms (w : cache_world) : Z := cw_clock w / millisecond.

Definition set_db (w : cache_world) (d : db) : cache_world :=
  {| cw_clock := cw_clock w; cw_db := d; cw_turns := cw_turns w; cw_exchange := cw_exchange w;
     cw_events := cw_events w |}.

Definition pipe_cut (tn : turn) : option nat :=
  match tn_fate tn with
  | Replied | Retried => None
  | NotSent => Some 0%nat
  | ReplyLost | RetryLost => Some (tn_ran tn)
  end.

Definition quiet : turn := {| tn_elapsed := 0; tn_commands := []; tn_fate := Replied; tn_ran := 0 |}.

Definition take_turn (w : cache_world) : turn * cache_world :=
  match cw_turns w with
  | [] => (quiet, w)
  | tn :: tns =>
      let clock := cw_clock w + Z.of_N (tn_elapsed tn) in
      (tn,
       {| cw_clock := clock;
          cw_db := (exec_all (clock / millisecond) (tn_commands tn) (cw_db w)).2;
          cw_turns := tns; cw_exchange := cw_exchange w; cw_events := cw_events w |})
  end.

#[export] Instance RedisStore : EntryStore cache_world := {|
  es_now := cw_clock;
  es_Exact k w := let '(tn, w) := take_turn w in (Exact (cw_ms w) (tn_fate tn) k (cw_db w), w);
  es_Candidates k w :=
    let '(tn, w) := take_turn w in let f := tn_fate tn in
    let '(r, d) := Candidates st (cw_ms w) f f f k (cw_db w) in (r, set_db w d);
  es_Fetch id w := let '(tn, w) := take_turn w in (Fetch (cw_ms w) (tn_fate tn) id (cw_db w), w);
  es_Put k e ttl w :=
    let '(tn, w) := take_turn w in
    let '(ok, d) := Put st (cw_ms w) (cw_clock w) (pipe_cut tn) (λ _, tn_fate tn) (tn_fate tn)
                      k e ttl (cw_db w) in
    (ok, set_db w d);
  es_RecordHit id w :=
    let '(tn, w) := take_turn w in
    let '(ok, d) := RecordHit (cw_ms w) (tn_fate tn) id (cw_db w) in (ok, set_db w d);
  es_embed text w := (Embed cfg (cw_exchange w) text, w);
  es_observe ev w :=
    {| cw_clock := cw_clock w; cw_db := cw_db w; cw_turns := cw_turns w;
       cw_exchange := cw_exchange w; cw_events := cw_events w ++ [ev] |}
|}.

(** ** Tenant isolation

    [Known s r]: someone has asked [r] in scope [s].  [Answers s r e]: [e] was
    stored as an answer to it. *)
Context (Known : Scope → Request → Prop) (Known_ok : ∀ s r, Known s r → request_ok s r).
Context (Answers : Scope → Request → Entry → Prop).

Definition Held (k : Key) (e : Entry) : Prop :=
  ∃ s r, Known s r ∧ Answers s r e ∧ k = NewKey s r.

(** Everything the gateway hashed for requests that were asked. *)
Inductive hashed_input : string → Prop :=
| HI_fingerprint s r : Known s r → hashed_input (hashed (fingerprint_fields s r))
| HI_entry s r : Known s r →
    hashed_input (hashed (entry_fields (k_Fingerprint (NewKey s r)) (k_Query (NewKey s r)))).

(** Two different inputs among those with the same SHA-256. *)
Definition collision_observed : Prop :=
  ∃ x y, hashed_input x ∧ hashed_input y ∧ sha256_collision x y.

Record world_ok (w : cache_world) : Prop := {
  wo_inv : kv_inv (key_ok Held) (cw_ms w) (cw_db w);
  wo_turns : Forall (λ tn, Forall (cache_command st Held) (tn_commands tn)) (cw_turns w)
}.

Lemma take_turn_ok w : world_ok w → world_ok (take_turn w).2.
Proof.
  intros [Hi Ht]. unfold take_turn. destruct (cw_turns w) as [|tn tns] eqn:Htn; [split; cbn [snd]; [done|rewrite Htn; constructor]|].
  inversion Ht; subst. split; [|done]. cbn [snd cw_ms cw_clock cw_db]. apply exec_all_inv with (st := st); [done|].
  eapply kv_inv_mono; [|exact Hi]. unfold cw_ms. apply Z.div_le_mono; [done|]. lia.
Qed.

Lemma set_db_ok w d : world_ok w → kv_inv (key_ok Held) (cw_ms w) d → world_ok (set_db w d).
Proof. intros [_ Ht] Hd. by split. Qed.

Lemma Exact_ok k w : world_ok w → world_ok (es_Exact k w).2.
Proof. intros Hw%take_turn_ok. cbn [es_Exact RedisStore]. destruct (take_turn w). exact Hw. Qed.

Lemma Candidates_ok k w : world_ok w → world_ok (es_Candidates k w).2.
Proof.
  intros Hw%take_turn_ok. cbn [es_Candidates RedisStore]. destruct (take_turn w) as [tn w1]. cbn [snd] in *.
  pose proof (Candidates_inv st Held (cw_ms w1) (tn_fate tn) (tn_fate tn) (tn_fate tn) k (cw_db w1)
    (wo_inv _ Hw)) as Hd.
  destruct (Candidates _ _ _ _ _ _ _) as [r d]. by apply set_db_ok.
Qed.

(** What was found under an id was stored under a key with that id. *)
Lemma same_id_same_question s r s' r' :
  Known s r → Known s' r' → k_EntryID (NewKey s r) = k_EntryID (NewKey s' r') →
  same_question s r s' r' ∨ collision_observed.
Proof.
  intros Hk Hk' Hid.
  destruct (entry_separates s r s' r' (Known_ok _ _ Hk) (Known_ok _ _ Hk') Hid) as [[Heq _]|Hc]; [|right; eexists _, _; split_and!; [by apply (HI_entry s r)|by apply (HI_entry s' r')|done]].
  destruct (fingerprint_separates s r s' r' (Known_ok _ _ Hk) (Known_ok _ _ Hk') Heq) as [Hq|Hc]; [by left|].
  right. eexists _, _. split_and!; [by apply (HI_fingerprint s r)|by apply (HI_fingerprint s' r')|done].
Qed.

Lemma same_fp_same_question s r s' r' :
  Known s r → Known s' r' → k_Fingerprint (NewKey s r) = k_Fingerprint (NewKey s' r') →
  same_question s r s' r' ∨ collision_observed.
Proof.
  intros Hk Hk' Heq.
  destruct (fingerprint_separates s r s' r' (Known_ok _ _ Hk) (Known_ok _ _ Hk') Heq) as [Hq|Hc]; [by left|].
  right. eexists _, _. split_and!; [by apply (HI_fingerprint s r)|by apply (HI_fingerprint s' r')|done].
Qed.

(** The same text from the same model. *)
Definition same_answer (e e0 : Entry) : Prop :=
  e_Response e = e_Response e0 ∧ e_FinishReason e = e_FinishReason e0 ∧
  e_Model e = e_Model e0 ∧ e_Provider e = e_Provider e0.

Lemma decode_same_answer h e e0 now : written e0 now h → decodeEntry h = Ok e → same_answer e e0.
Proof.
  intros Hw. unfold decodeEntry. destruct (ParseInt (field h "created_at")) as [c [err|]]; [done|].
  intros [= <-]. repeat split; simpl; by apply (written_field e0 now).
Qed.

(** An entry fetched under the id of a known request answers that request. *)
Lemma fetch_answers t f d e s r :
  Known s r → kv_inv (key_ok Held) t d → fetch t f (k_EntryID (NewKey s r)) d = Ok (Some e) →
  ∃ s' r' e0, Answers s' r' e0 ∧ same_answer e e0 ∧ (same_question s r s' r' ∨ collision_observed).
Proof.
  intros Hk Hd Hf.
  destruct (fetch_held Held _ _ _ _ _ Hd Hf) as (k' & e0 & now & h & (s' & r' & Hk' & Ha & ->) & Hid & Hw & Hdec).
  exists s', r', e0. split_and!; [done|by eapply decode_same_answer|]. by apply same_id_same_question.
Qed.

(** C15: the cache never crosses tenants or questions.  Whatever other clients
    store, count, prune, trim or purge between the calls of a lookup, and
    however their pipelines are cut short: an answer served from the cache,
    by the exact tier or by similarity, was stored as the answer to a request
    of the same scope (the same organisation's shared cache, or the same
    team's own), for the same model, limits, temperature, stop sequences and
    preceding conversation, unless two requests that were asked exhibit a
    SHA-256 collision. *)
Theorem Lookup_isolated lcfg has_embedder s r w e :
  Known s r → world_ok w →
  REntry (Lookup lcfg has_embedder (NewKey s r) w).1 = Some e →
  ∃ s' r' e0, Answers s' r' e0 ∧ same_answer e e0 ∧ (same_question s r s' r' ∨ collision_observed).
Proof.
  intros Hk Hw He. set (k := NewKey s r) in *.
  destruct (Lookup_looked_up lcfg has_embedder k w)
    as [_ Hno|e' _ _ He' Hex|w1 w2 w3 vector cands id e' _ _ He' Hex _ Hemb Hc Hbest _ Hf].
  - by rewrite Hno in He.
  - rewrite He in He'. injection He' as <-. cbn [es_Exact RedisStore] in Hex.
    pose proof (take_turn_ok w Hw) as Hw1. destruct (take_turn w) as [tn w1]. cbn [fst snd] in *.
    by eapply fetch_answers; [|apply Hw1|].
  - rewrite He in He'. injection He' as <-.
    pose proof (Exact_ok k w Hw) as Hw1. rewrite Hex in Hw1. cbn [snd] in Hw1.
    cbn [es_embed RedisStore] in Hemb. injection Hemb as _ <-.
    pose proof (Candidates_ok k w1 Hw1) as Hw3. rewrite Hc in Hw3. cbn [snd] in Hw3.
    destruct Hbest as [(v & Hin & _) _].
    assert (∃ s1 r1, Known s1 r1 ∧ k_EntryID (NewKey s1 r1) = id ∧
              k_Fingerprint (NewKey s1 r1) = k_Fingerprint k) as (s1 & r1 & Hk1 & Hid & Hfp).
    { cbn [es_Candidates RedisStore] in Hc. pose proof (take_turn_ok w1 Hw1) as Hw2.
      destruct (take_turn w1) as [tn w2]. cbn [snd] in Hw2.
      destruct (Candidates st _ _ _ _ k (cw_db w2)) as [rc d] eqn:Hcc. injection Hc as -> _.
      destruct (Candidates_bucket st Held _ _ _ _ _ _ _ _ _ _ (wo_inv _ Hw2) Hcc Hin)
        as (k1 & e1 & (s1 & r1 & Hk1 & _ & ->) & Hid & Hfp). by exists s1, r1. }
    cbn [es_Fetch RedisStore] in Hf. pose proof (take_turn_ok w3 Hw3) as Hw4.
    destruct (take_turn w3) as [tn w4]. cbn [fst snd] in *. rewrite <- Hid in Hf.
    destruct (fetch_answers _ _ _ _ s1 r1 Hk1 (wo_inv _ Hw4) Hf) as (s' & r' & e0 & Ha & Hsame & Hq).
    exists s', r', e0. split_and!; [done|done|].
    destruct Hq as [Hq|]; [|by right].
    destruct (same_fp_same_question s1 r1 s r Hk1 Hk Hfp) as [Hq1|]; [left|by right].
    by eapply same_question_trans; [apply same_question_sym|].
Qed.
End redis_store.

(** ** A run *)

Definition demo_known (s : Scope) (r : Request) : Prop :=
  s = demo_scope "org1" "acme" false ∧ r = demo_question "q1".
Definition demo_answers (s : Scope) (r : Request) (e : Entry) : Prop := e = demo_entry "a".

Definition demo_embed : EmbedConfig :=
  {| ec_BaseURL := "https://example"; ec_APIKey := "k"; ec_Model := "embed"; ec_Dimensions := 2;
     ec_Timeout := second |}.

#[local] Existing Instance go_redis.

(** An answer stored at time zero; a purge of another key runs before the
    lookup, whose embedding call is never needed. *)
Definition demo_world : cache_world (db := RedisMap.db cval) :=
  {| cw_clock := 0;
     cw_db := (Put demo_store 0 0 None (λ _, Replied) Replied (demo_key "q1") (demo_entry "a") hour ∅).2;
     cw_turns := [{| tn_elapsed := 1000000; tn_commands := [DEL [entryKey "other"]];
                     tn_fate := Replied; tn_ran := 0 |}];
     cw_exchange := λ _, NoResponse; cw_events := [] |}.

Definition demo_lookup : LookupConfig := {| SemanticEnabled := true; Threshold := f32_of_Z 1 |}.

Lemma Lookup_isolated_witness :
  let r := (Lookup (EntryStore0 := RedisStore demo_store demo_embed) demo_lookup true (demo_key "q1")
              demo_world).1 in
  REntry r = Some (stored (demo_entry "a") 1700000000000000000 0) ∧
  ∃ s' r' e0, demo_answers s' r' e0 ∧ same_answer (stored (demo_entry "a") 1700000000000000000 0) e0 ∧
    (same_question (demo_scope "org1" "acme" false) (demo_question "q1") s' r' ∨
     collision_observed demo_known).
Proof.
  assert (REntry (Lookup (EntryStore0 := RedisStore demo_store demo_embed) demo_lookup true (demo_key "q1")
    demo_world).1 = Some (stored (demo_entry "a") 1700000000000000000 0)) as He by (vm_compute; reflexivity).
  split; [exact He|].
  apply (Lookup_isolated demo_store demo_embed demo_known ltac:(intros s r [-> ->]; apply request_ok_demo; closed)
    demo_answers demo_lookup true (demo_scope "org1" "acme" false) (demo_question "q1") demo_world).
  - split; reflexivity.
  - split.
    + apply Put_inv; [exists (demo_scope "org1" "acme" false), (demo_question "q1"); repeat split|].
      intros t' k v _ H. discriminate H.
    + repeat constructor.
  - exact He.
Defined.
