(* ===== verification/CacheTune.v ===== *)
(** * internal/cache/tune.go: replaying the index at other thresholds

    The sweep scores every stored embedding against the entries of its bucket
    that existed before it, and counts for each threshold how many would have
    been served instead of paid for. *)

From S2P Require Import Prelude Redis Text Float32 Wire CacheKey CacheStore CacheStoreFacts CacheLookup.

Record SweepPoint := { sp_Threshold : float32; WouldHit : Z; Comparable : Z; HitRate : float64 }.
Record SweepBin := { Low : float32; High : float32; Count : Z }.
Record SweepReport := {
  Buckets : Z; Entries : Z; sr_Comparable : Z; Points : list SweepPoint;
  Distribution : list SweepBin }.

(** The closest predecessor of [later], from [-2]. *)
Definition best_of (later : list float32) (older : list (list float32)) : float32 :=
  foldl (λ best v,
    if bool_decide (length v ≠ length later) then best
    else let sc := Similarity later v in if f_ltb best sc then sc else best)
    (f32_of_Z (-2)) older.

(** One bucket, newest first; the loop runs from the oldest entry that has a
    predecessor to the newest. *)
Fixpoint bucket_scores (vectors : list (list float32)) : list float32 :=
  match vectors with
  | [] => []
  | later :: older =>
      bucket_scores older ++
      (let best := best_of later older in if f_ltb (f32_of_Z (-2)) best then [best] else [])
  end.

Fixpoint insert_threshold (t : float32) (l : list float32) : list float32 :=
  match l with
  | [] => [t]
  | x :: l' => if f_ltb t x then t :: l else x :: insert_threshold t l'
  end.
Definition sort_thresholds (l : list float32) : list float32 := foldl (λ acc t, insert_threshold t acc) [] l.

(** [0.5 + float32(i)*0.025] for [i] from 0 to 20. *)
Definition f32_ratio (n d : Z) : float32 := f64_to_f32 (f64_div (f64_of_Z n) (f64_of_Z d)).
Definition defaultThresholds : list float32 :=
  map (λ i, f32_add (f32_ratio 1 2) (f32_mul (f32_of_Z (Z.of_nat i)) (f32_ratio 25 1000))) (seq 0 21).

Definition sweep_point (bestScores : list float32) (t : float32) : SweepPoint :=
  let n := Z.of_nat (length bestScores) in
  let hits := countb (λ sc, f_geb sc t) bestScores in
  {| sp_Threshold := t; WouldHit := hits; Comparable := n;
     HitRate := if 0 <? n then f64_div (f64_of_Z hits) (f64_of_Z n) else S754_zero false |}.

(** *** The histogram *)

Definition histogramBins : Z := 20.

(** [int(x)] truncates; what no int holds converts to the least one. *)
Definition f_int (x : float32) : Z :=
  match x with
  | S754_zero _ => 0
  | S754_finite s m e =>
      let z := (if s then -1 else 1) * (if 0 <=? e then Zpos m * 2 ^ e else Zpos m / 2 ^ (- e)) in
      if (int64_min <=? z) && (z <=? int64_max) then z else int64_min
  | _ => int64_min
  end.

Definition empty_bins : list SweepBin :=
  map (λ i, {| Low := f32_ratio (Z.of_nat i) 20; High := f32_ratio (Z.of_nat i + 1) 20; Count := 0 |})
    (seq 0 (Z.to_nat histogramBins)).

Definition bin_of (sc : float32) : Z :=
  let sc := if f_ltb sc f32_zero then f32_zero else sc in
  let i := f_int (f32_mul sc (f32_of_Z histogramBins)) in
  if histogramBins <=? i then histogramBins - 1 else i.

Definition count_in (b : SweepBin) : SweepBin :=
  {| Low := Low b; High := High b; Count := Count b + 1 |}.

(** [None] is the index out of range of [bins[i]]. *)
Fixpoint fill (scores : list float32) (bins : list SweepBin) : option (list SweepBin) :=
  match scores with
  | [] => Some bins
  | sc :: scores' =>
      let i := bin_of sc in
      if i <? 0 then None
      else match bins !! Z.to_nat i with
           | None => None
           | Some b => fill scores' (<[Z.to_nat i := count_in b]> bins)
           end
  end.
Definition histogram (scores : list float32) : option (list SweepBin) := fill scores empty_bins.

(** The report of the buckets that were read. *)
Definition Sweep (thresholds : list float32) (buckets : list (list (list float32))) : option SweepReport :=
  let thresholds := sort_thresholds (match thresholds with [] => defaultThresholds | _ => thresholds end) in
  let bestScores := concat (map bucket_scores buckets) in
  match histogram bestScores with
  | None => None
  | Some distribution =>
      Some {| Buckets := Z.of_nat (length buckets);
              Entries := foldl (λ n b, n + Z.of_nat (length b)) 0 buckets;
              sr_Comparable := Z.of_nat (length bestScores);
              Points := map (sweep_point bestScores) thresholds;
              Distribution := distribution |}
  end.

Section load.
Context {db} `{!Redis cval db} (st : Store).

Definition scanIndexKeys (scan : string → db → list (list string)) (f : nat → net_fate) (maxBuckets : Z)
    (d : db) : result cache_error (list string) :=
  let maxBuckets := if maxBuckets <=? 0 then 1000 else maxBuckets in
  match scanKeys scan f (keyPrefix ++ ":index:") maxBuckets d with
  | Err e => Err e
  | Ok keys => Ok (take (Z.to_nat maxBuckets) keys)
  end.

Definition bucketVectors (t : Z) (f1 f2 : net_fate) (indexKey : string) (d : db)
    : result cache_error (list (list float32)) :=
  match (if answered f1 then zmembers t indexKey d else None) with
  | None => Err RedisError
  | Some z => match loadVectors t f2 (zrevrange (maxCandidates st) z) d with
              | Err e => Err e
              | Ok (live, _) => Ok (map snd live)
              end
  end.
End load.

(** ** The sweep replays the lookup's decision *)

Lemma best_of_nearest later older bestID best :
  foldl (λ best v, if bool_decide (length v ≠ length later) then best
                   else let sc := Similarity later v in if f_ltb best sc then sc else best) best (map snd older)
  = (nearest_loop later older bestID best).2.
Proof.
  revert bestID best. induction older as [|[id v] older IH]; intros bestID best; simpl; [done|].
  case_bool_decide; [apply IH|]. destruct (f_ltb best _); apply IH.
Qed.

Lemma countb_le {A} (f g : A → bool) l : (∀ x, f x = true → g x = true) → countb f l ≤ countb g l.
Proof.
  intros Hfg. induction l as [|x l IH]; simpl; [lia|].
  destruct (f x) eqn:Hf; [rewrite (Hfg x Hf)|destruct (g x)]; lia.
Qed.

Lemma f_geb_trans x y z : f_geb x y = true → f_geb y z = true → f_geb x z = true.
Proof.
  unfold f_geb, SFleb. intros H1 H2.
  destruct x as [sx|sx| |sx mx ex], y as [sy|sy| |sy my ey], z as [sz|sz| |sz mz ez];
    cbn [SFcompare] in *; try done; try (destruct sx; done); try (destruct sy; done);
    try (destruct sz; done); try (destruct sx, sy; done); try (destruct sy, sz; done);
    try (destruct sx, sz; done); try (destruct sx, sy, sz; done).
  destruct sx, sy, sz; try done; float_compare; simpl in *; try done; subst; try lia.
Qed.

(** The score the sweep counts for an entry is the one the lookup would have
    compared with the threshold, had the entry been the query and its
    predecessors the bucket, whatever their ids; and lowering the threshold
    never loses hits, nor can there be more hits than comparable entries. *)
Theorem sweep_replays_lookup later older scores t t' :
  best_of later (map snd older) = (nearest_loop later older "" (f32_of_Z (-2))).2 ∧
  (f_geb t' t = true → WouldHit (sweep_point scores t') ≤ WouldHit (sweep_point scores t)) ∧
  0 ≤ WouldHit (sweep_point scores t) ≤ Comparable (sweep_point scores t).
Proof.
  split_and!; [apply best_of_nearest| |apply countb_nonneg|apply countb_le_length].
  intros Ht. simpl. apply countb_le. intros x Hx. by eapply f_geb_trans.
Qed.

(** *** Every score lands in one bin *)

Definition total (bins : list SweepBin) : Z := foldr (λ b n, Count b + n) 0 bins.

Lemma total_insert i b bins :
  bins !! i = Some b → total (<[i := count_in b]> bins) = total bins + 1.
Proof.
  revert i. induction bins as [|x bins IH]; intros [|i]; simpl; try done.
  - intros [= ->]. lia.
  - intros H. rewrite IH by done. lia.
Qed.

Lemma fill_total scores bins :
  length bins = Z.to_nat histogramBins → Forall (λ sc, 0 ≤ bin_of sc) scores →
  ∃ bins', fill scores bins = Some bins' ∧ length bins' = length bins ∧
           total bins' = total bins + Z.of_nat (length scores).
Proof.
  intros Hlen Hs. revert bins Hlen. induction Hs as [|sc scores Hsc _ IH]; intros bins Hlen; simpl.
  { exists bins. split_and!; [done|done|lia]. }
  destruct (Z.ltb_spec (bin_of sc) 0); [lia|].
  assert (bin_of sc < histogramBins) as Hlt.
  { unfold bin_of. destruct (Z.leb_spec histogramBins (f_int (f32_mul (if f_ltb sc f32_zero then f32_zero else sc)
      (f32_of_Z histogramBins)))); unfold histogramBins in *; lia. }
  destruct (lookup_lt_is_Some_2 bins (Z.to_nat (bin_of sc))) as [b Hb]; [rewrite Hlen; lia|].
  rewrite Hb. destruct (IH (<[Z.to_nat (bin_of sc) := count_in b]> bins)) as (bins' & -> & Hl & Ht);
    [by rewrite length_insert|].
  exists bins'. rewrite Hl, length_insert, Ht, (total_insert _ b) by done. split_and!; [done|done|lia].
Qed.
