(* ===== verification/Chaos.v ===== *)
(** * internal/proxy/chaos.go: injected faults

    The fault-injection harness, its operator endpoints (internal/admin/chaos.go)
    and the adapter between the two (cmd/gateway/chaos.go).  [None] is the nil
    [*Chaos].  The wait of an injected delay is the [World] operation the retry
    loop uses: the select between a timer and the request's context. *)

From S2P Require Import Prelude Provider Retry.

Definition devEnvironment : string := "dev".

(** A named string, so an operator can name a mode that does not exist. *)
Definition ChaosMode : Type := string.
Definition ChaosError : ChaosMode := "error"%string.
Definition ChaosLatency : ChaosMode := "latency"%string.
Definition ChaosRateLimit : ChaosMode := "rate_limit"%string.
Definition ChaosDrop : ChaosMode := "drop"%string.
Definition ChaosPanic : ChaosMode := "panic"%string.

Definition chaosRateLimitRetryAfter : Z := second.

Record ChaosRule := { x_Provider : string; x_Model : string; x_Mode : ChaosMode; x_Latency : Z }.

Inductive chaos_error :=
| ErrChaosUnavailable | NoTarget | LatencyNotMeaningful (mode : string)
| LatencyRequired | UnknownMode (mode : string) | InRule (i : nat) (e : chaos_error).

Definition validate (r : ChaosRule) : option chaos_error :=
  if bool_decide (x_Provider r = ""%string) && bool_decide (x_Model r = ""%string) then Some NoTarget
  else if bool_decide (x_Mode r ∈ [ChaosError; ChaosRateLimit; ChaosDrop; ChaosPanic])
  then if negb (x_Latency r =? 0) then Some (LatencyNotMeaningful (x_Mode r)) else None
  else if bool_decide (x_Mode r = ChaosLatency)
  then if x_Latency r <=? 0 then Some LatencyRequired else None
  else Some (UnknownMode (x_Mode r)).

Definition matches (r : ChaosRule) (providerName model : string) : bool :=
  if bool_decide (x_Provider r ≠ ""%string) && bool_decide (x_Provider r ≠ providerName) then false
  else if bool_decide (x_Model r ≠ ""%string) && bool_decide (x_Model r ≠ model) then false
  else true.

Record Chaos := { available : bool; rules : list ChaosRule }.

Definition NewChaos (env : string) (enabled : bool) : Chaos :=
  {| available := bool_decide (env = devEnvironment) && enabled; rules := [] |}.

Definition Available (c : option Chaos) : bool :=
  match c with Some c => available c | None => false end.

Definition Rules (c : option Chaos) : list ChaosRule :=
  match c with Some c => rules c | None => [] end.

Fixpoint validate_rules (i : nat) (rs : list ChaosRule) : option chaos_error :=
  match rs with
  | [] => None
  | r :: rs' => match validate r with
                | Some e => Some (InRule i e)
                | None => validate_rules (S i) rs'
                end
  end.

Definition SetRules (c : Chaos) (rs : list ChaosRule) : option chaos_error * Chaos :=
  if negb (available c) then (Some ErrChaosUnavailable, c)
  else match validate_rules 0 rs with
       | Some e => (Some e, c)
       | None => (None, {| available := available c; rules := rs |})
       end.

Definition Clear (c : Chaos) : option chaos_error * Chaos :=
  if negb (available c) then (Some ErrChaosUnavailable, c)
  else (None, {| available := available c; rules := [] |}).

Definition chaosError (providerName model : string) (kind : Kind) (status : Z) (message : string) : Error :=
  {| e_Kind := kind; e_Provider := providerName; e_Model := model; e_StatusCode := status;
     e_Retryable := true; e_RetryAfter := 0; e_Message := message |}.

Definition chaosFault (rule : ChaosRule) (providerName model : string) : Error :=
  if bool_decide (x_Mode rule = ChaosRateLimit)
  then {| e_Kind := KindRateLimited; e_Provider := providerName; e_Model := model;
          e_StatusCode := 429; e_Retryable := true; e_RetryAfter := chaosRateLimitRetryAfter;
          e_Message := "chaos: injected rate limit" |}
  else if bool_decide (x_Mode rule = ChaosDrop)
  then chaosError providerName model KindNetworkError 0 "chaos: injected connection drop"
  else chaosError providerName model KindServerError 502 "chaos: injected provider error".

(** What [Apply] does to the call: lets it through, fails it, or panics. *)
Inductive injected := Pass | Fault (e : Error) | Panic.

Section apply.
Context {W : Type} `{!World W}.

Definition Apply (c : option Chaos) (providerName model : string) (w : W) : injected * W :=
  if negb (Available c) then (Pass, w)
  else match find_first (λ r, matches r providerName model) (Rules c) with
       | None => (Pass, w)
       | Some rule =>
           if bool_decide (x_Mode rule = ChaosPanic) then (Panic, w)
           else if bool_decide (x_Mode rule = ChaosLatency) then
             let '(cancelled, w) := wait (x_Latency rule) w in
             if cancelled
             then (Fault (chaosError providerName model KindTimeout 504
                     "chaos: injected latency exceeded the request deadline"), w)
             else (Pass, w)
           else (Fault (chaosFault rule providerName model), w)
       end.
End apply.

(** ** The operator's side *)

Record ChaosRuleSpec := { s_Provider : string; s_Model : string; s_Mode : string; s_LatencyMS : Z }.

(** cmd/gateway/chaos.go; durations are 64-bit nanoseconds. *)
Definition adapter_Rules (c : option Chaos) : list ChaosRuleSpec :=
  map (λ r, {| s_Provider := x_Provider r; s_Model := x_Model r; s_Mode := x_Mode r;
               s_LatencyMS := Z.quot (x_Latency r) millisecond |}) (Rules c).

Definition adapter_rule (s : ChaosRuleSpec) : ChaosRule :=
  {| x_Provider := s_Provider s; x_Model := s_Model s; x_Mode := s_Mode s;
     x_Latency := wrap64 (s_LatencyMS s * millisecond) |}.

Definition adapter_SetRules (c : Chaos) (specs : list ChaosRuleSpec) : option chaos_error * Chaos :=
  SetRules c (map adapter_rule specs).

(** Each endpoint answers a status and, on success, the rules it shows.  [body]
    is the decoded request, [None] when it is not valid JSON. *)
Inductive chaos_request := GetChaos | SetChaos (body : option (list ChaosRuleSpec)) | DeleteChaos.

Definition chaos_endpoint (c : Chaos) (q : chaos_request) : Z * list ChaosRuleSpec * Chaos :=
  if negb (available c) then (404, [], c)
  else match q with
       | GetChaos => (200, adapter_Rules (Some c), c)
       | SetChaos None => (400, [], c)
       | SetChaos (Some specs) =>
           match adapter_SetRules c specs with
           | (Some _, c) => (400, [], c)
           | (None, c) => (200, specs, c)
           end
       | DeleteChaos => match Clear c with
                        | (Some _, c) => (500, [], c)
                        | (None, c) => (200, [], c)
                        end
       end.

Definition chaos_run (c : Chaos) (qs : list chaos_request) : Chaos :=
  foldl (λ c q, (chaos_endpoint c q).2) c qs.

(** ** Containment *)

Lemma validate_rules_Forall i rs :
  validate_rules i rs = None ↔ Forall (λ r, validate r = None) rs.
Proof.
  revert i. induction rs as [|r rs IH]; intros i; simpl; [done|].
  rewrite Forall_cons. destruct (validate r); [naive_solver|]. rewrite IH. naive_solver.
Qed.

Record chaos_ok (env : string) (enabled : bool) (c : Chaos) : Prop := {
  ok_available : available c = bool_decide (env = devEnvironment) && enabled;
  ok_rules : Forall (λ r, validate r = None) (rules c);
  ok_off : available c = false → rules c = []
}.

Lemma chaos_endpoint_ok env enabled c q :
  chaos_ok env enabled c → chaos_ok env enabled (chaos_endpoint c q).2.
Proof.
  intros Hc. unfold chaos_endpoint, adapter_SetRules, SetRules, Clear.
  destruct (available c) eqn:Ha; simpl; [|done].
  destruct q as [|[specs|]|]; simpl; try done; [|destruct Hc; split; simpl; congruence || done].
  destruct (validate_rules 0 (map adapter_rule specs)) eqn:Hv; simpl; [done|].
  apply validate_rules_Forall in Hv. destruct Hc. split; simpl; [congruence|done|congruence].
Qed.

Lemma chaos_run_ok env enabled c qs :
  chaos_ok env enabled c → chaos_ok env enabled (chaos_run c qs).
Proof.
  revert c. induction qs as [|q qs IH]; intros c Hc; simpl; [done|]. by apply IH, chaos_endpoint_ok.
Qed.

Lemma NewChaos_ok env enabled : chaos_ok env enabled (NewChaos env enabled).
Proof. split; [done|constructor|done]. Qed.

(** A valid rule never targets everything. *)
Lemma valid_targets r :
  validate r = None →
  (∃ p, ∀ p' m, matches r p' m = true → p' = p) ∨ (∃ m, ∀ p m', matches r p m' = true → m' = m).
Proof.
  unfold validate. destruct (decide (x_Provider r = ""%string)) as [Hp|Hp].
  - rewrite (bool_decide_eq_true_2 _ Hp). simpl. destruct (decide (x_Model r = ""%string)) as [Hm|Hm].
    { by rewrite (bool_decide_eq_true_2 _ Hm). }
    intros _. right. exists (x_Model r). intros p m. unfold matches.
    destruct (_ && _); [done|]. rewrite (bool_decide_eq_true_2 _ Hm).
    case_bool_decide as He; [done|]. intros _. by destruct (decide (x_Model r = m)).
  - intros _. left. exists (x_Provider r). intros p m. unfold matches.
    rewrite (bool_decide_eq_true_2 _ Hp). case_bool_decide as He; [done|].
    intros _. by destruct (decide (x_Provider r = p)).
Qed.

Definition forged (e : Error) (providerName model : string) : Prop :=
  e_Provider e = providerName ∧ e_Model e = model ∧ e_Retryable e = true ∧
  ShouldFallback (ProviderError e) = true ∧ DefaultRetryable (e_Kind e) = true.

Lemma chaosFault_forged rule p m : forged (chaosFault rule p m) p m.
Proof. unfold chaosFault. repeat case_bool_decide; done. Qed.

Section contained.
Context {W : Type} `{!World W}.

(** the fault injector stays inside its fence.  Whatever sequence of
    operator calls a gateway receives, unless it was started in the dev
    environment with the harness enabled no call is ever delayed, failed or
    panicked and the endpoints answer 404; when it was, every active rule is
    valid and aims at one provider or one model, the first rule that matches a
    call decides it, a call no rule matches is untouched, and an injected
    failure names the call it replaced and is one the retry loop and the
    fallback chain treat as transient. *)
Theorem chaos_contained env enabled qs (providerName model : string) (w : W) :
  let c := chaos_run (NewChaos env enabled) qs in
  let '(r, w') := Apply (Some c) providerName model w in
  (env ≠ devEnvironment ∨ enabled = false →
     r = Pass ∧ w' = w ∧ ∀ q, (chaos_endpoint c q).1 = (404, [])) ∧
  Forall (λ rule, validate rule = None ∧
    ((∃ p, ∀ p' m, matches rule p' m = true → p' = p) ∨
     (∃ m, ∀ p m', matches rule p m' = true → m' = m))) (rules c) ∧
  match r with
  | Pass => True
  | Fault e => forged e providerName model
  | Panic => ∃ rule, find_first (λ r, matches r providerName model) (rules c) = Some rule ∧
                     x_Mode rule = ChaosPanic
  end ∧
  (find_first (λ r, matches r providerName model) (rules c) = None → r = Pass ∧ w' = w).
Proof.
  intros c. pose proof (chaos_run_ok _ _ _ qs (NewChaos_ok env enabled)) as [Ha Hr Ho].
  fold c in Ha, Hr, Ho. destruct (Apply (Some c) providerName model w) as [r w'] eqn:HA.
  split_and!.
  - intros Hoff. assert (available c = false) as Hf.
    { rewrite Ha. destruct Hoff as [Hne| ->]; [by rewrite bool_decide_eq_false_2|apply andb_false_r]. }
    unfold Apply, Available in HA. rewrite Hf in HA. simplify_eq/=. split_and!; try done.
    intros q. unfold chaos_endpoint. by rewrite Hf.
  - eapply Forall_impl; [exact Hr|]. intros rule Hv. split; [done|by apply valid_targets].
  - revert HA. unfold Apply, Rules. destruct (negb _); [by intros [= <- <-]|].
    destruct (find_first _ _) as [rule|] eqn:Hf; [|by intros [= <- <-]].
    destruct (bool_decide_reflect (x_Mode rule = ChaosPanic)); [intros ?; simplify_eq; eauto|].
    destruct (bool_decide (x_Mode rule = ChaosLatency)).
    + destruct (wait _ _) as [[] w1]; intros ?; simplify_eq; done.
    + intros ?. simplify_eq. apply chaosFault_forged.
  - intros Hf. revert HA. unfold Apply, Rules. rewrite Hf. destruct (negb _); by intros [= <- <-].
Qed.
End contained.

(** What an operator sets is what the endpoint shows, as long as the latencies
    fit a duration. *)
Lemma adapter_round_trip specs c c' :
  Forall (λ s, 0 ≤ s_LatencyMS s ≤ int64_max / millisecond) specs →
  adapter_SetRules c specs = (None, c') → adapter_Rules (Some c') = specs.
Proof.
  intros Hs. unfold adapter_SetRules, SetRules. destruct (negb _); [done|].
  destruct (validate_rules _ _); [done|]. intros [= <-]. unfold adapter_Rules. simpl.
  rewrite map_map. induction Hs as [|s specs Hs _ IH]; [done|]. simpl. f_equal; [|exact IH].
  destruct s as [p m mode ms]. simpl in *.
  assert (millisecond * (int64_max / millisecond) ≤ int64_max) by (by apply Z.mul_div_le).
  rewrite wrap64_id.
  - rewrite Z.quot_mul by done. done.
  - change millisecond with 1000000 in *. unfold in_int64, int64_min. lia.
Qed.

(** A latency too large for a duration is stored as a different one, and the
    endpoint shows the operator the number they sent. *)
Example latency_overflows :
  let spec := {| s_Provider := "openai"; s_Model := ""; s_Mode := ChaosLatency;
                 s_LatencyMS := 18446744073710 |} in
  let '(status, shown, c) := chaos_endpoint (NewChaos "dev" true) (SetChaos (Some [spec])) in
  status = 200 ∧ shown = [spec] ∧ map x_Latency (rules c) = [448384].
Proof. vm_compute. done. Qed.
