(* ===== verification/Stream.v ===== *)
(** * Responses on the wire: streaming, replay and success bodies

    The writing half of internal/proxy/handler.go (the loop of
    [streamChatCompletions] once a provider answered, [writeSSEJSON],
    [writeSuccess]) and of internal/proxy/cache.go ([serveFromCache],
    [serveStreamFromCache], [splitForReplay]), with the error event of
    internal/proxy/errors.go.  A handler's output is the sequence of operations
    it performs on its [http.ResponseWriter]; [accepts n] says what becomes of
    the [n]-th write: all of it is taken, or the connection fails after some
    bytes. *)

From S2P Require Import Prelude Text Json Provider Wire Sse Metrics Budget.
From S2P Require Import Fallback CacheStore.

Inductive op :=
| SetHeader (name value : string)
| WriteHeader (status : Z)
| Write (bytes delivered : string)
| Flush.

Record writer := { wr_ops : list op; wr_count : nat }.

Definition fresh_writer : writer := {| wr_ops := []; wr_count := 0 |}.

Definition emit (o : op) (w : writer) : writer :=
  {| wr_ops := wr_ops w ++ [o]; wr_count := wr_count w |}.

(** The bytes that reached the client. *)
Definition op_bytes (o : op) : string := match o with Write _ b => b | _ => "" end.
Definition delivered (ops : list op) : string := cat (map op_bytes ops).

(** ** The JSON bodies *)

Definition opt_field (name value : string) : list (string * json) :=
  if bool_decide (value = ""%string) then [] else [(name, JStr value)].

Definition choice_json (c : chatChunkChoice) : json :=
  JObj [("index"%string, JInt (ck_Index c));
        ("delta"%string, JObj (opt_field "role" (cd_Role (ck_Delta c))
                               ++ opt_field "content" (cd_Content (ck_Delta c))));
        ("finish_reason"%string, match ck_FinishReason c with Some s => JStr s | None => JNull end)].

Definition chunk_json (c : chatChunkResponse) : json :=
  JObj [("id"%string, JStr (ckr_ID c)); ("object"%string, JStr (ckr_Object c));
        ("created"%string, JInt (ckr_Created c)); ("model"%string, JStr (ckr_Model c));
        ("choices"%string, JArr (map choice_json (ckr_Choices c)))].

Definition response_json (r : chatResponse) : json :=
  JObj [("id"%string, JStr (cr_ID r)); ("object"%string, JStr (cr_Object r));
        ("created"%string, JInt (cr_Created r)); ("model"%string, JStr (cr_Model r));
        ("choices"%string, JArr (map (λ c,
           JObj [("index"%string, JInt (cc_Index c));
                 ("message"%string, JObj [("role"%string, JStr (m_Role (cc_Message c)));
                                          ("content"%string, JStr (m_Content (cc_Message c)))]);
                 ("finish_reason"%string, JStr (cc_FinishReason c))]) (cr_Choices r)));
        ("usage"%string, JObj [("prompt_tokens"%string, JInt (PromptTokens (cr_Usage r)));
                               ("completion_tokens"%string, JInt (CompletionTokens (cr_Usage r)));
                               ("total_tokens"%string, JInt (TotalTokens (cr_Usage r)))])].

(** [errorBody] without a breakdown: [code] is never set. *)
Definition error_json (typ message : string) : json :=
  JObj [("error"%string, JObj [("message"%string, JStr message); ("type"%string, JStr typ)])].

Definition upstream_message (e : Error) : string :=
  if bool_decide (e_Message e = ""%string) then "the upstream provider returned an error" else e_Message e.

Definition unexpected : string := "the gateway encountered an unexpected error".

(** The payload of [writeSSEError]. *)
Definition sse_error_json (err : go_error) : json :=
  match asProviderError err with
  | None => error_json "internal_error" unexpected
  | Some e => error_json (Kind_string (e_Kind e)) (upstream_message e)
  end.

Section writing.
Context (accepts : nat → option nat).

(** Whether the write succeeded. *)
Definition write (b : string) (w : writer) : bool * writer :=
  match accepts (wr_count w) with
  | None => (true, {| wr_ops := wr_ops w ++ [Write b b]; wr_count := S (wr_count w) |})
  | Some k => (false, {| wr_ops := wr_ops w ++ [Write b (String.substring 0 k b)]; wr_count := S (wr_count w) |})
  end.

Definition writeSSEJSON (v : json) (w : writer) : bool * writer :=
  let '(ok, w) := write "data: " w in
  if negb ok then (false, w)
  else let '(ok, w) := write (marshal v) w in
       if negb ok then (false, w) else write (LF_string ++ LF_string) w.

Definition writeSSEError (err : go_error) (w : writer) : bool * writer :=
  writeSSEJSON (sse_error_json err) w.

(** [json.Encoder] ends the value with a newline, in one write. *)
Definition encode (v : json) (w : writer) : writer := (write (marshal v ++ LF_string) w).2.

Definition writeError (status : Z) (typ message : string) (w : writer) : writer :=
  encode (error_json typ message) (emit (WriteHeader status) (emit (SetHeader "Content-Type" "application/json") w)).

Definition writeProviderErrorBody (err : go_error) (w : writer) : writer :=
  match asProviderError err with
  | None => writeError 500 "internal_error" unexpected w
  | Some e =>
      let w := match retryAfterHeader err with
               | Some s => emit (SetHeader "Retry-After" (FormatInt s)) w
               | None => w
               end in
      writeError (statusForKind (e_Kind e)) (Kind_string (e_Kind e)) (upstream_message e) w
  end.

Definition writeSuccess (requestID : string) (created : Z) (resp : Response) (w : writer) : writer :=
  encode (response_json (toChatResponse requestID created resp))
    (emit (SetHeader "Content-Type" "application/json") w).

Definition stream_headers (w : writer) : writer :=
  emit (SetHeader "Connection" "keep-alive")
    (emit (SetHeader "Cache-Control" "no-cache") (emit (SetHeader "Content-Type" "text/event-stream") w)).

(** ** The stream of a provider

    The chunks [Recv] yields and how it ends: cleanly, or with an error, at
    which time the client may be gone ([r.Context().Err() != nil]). *)
Inductive stream_end := StreamEOF | StreamError (e : go_error) (clientGone : bool).

Record provider_stream := { st_chunks : list Chunk; st_end : stream_end }.

(** How the handler's loop was left. *)
Inductive loop_exit := Completed | Disconnected | FailedFirst (e : go_error) | FailedLater (e : go_error) | WriteFailed.

Record loop_state := {
  ls_content : string; ls_finish : FinishReason; ls_usage : Usage; ls_sentAny : bool }.

Definition loop_start : loop_state :=
  {| ls_content := ""; ls_finish := ""; ls_usage := Usage_zero; ls_sentAny := false |}.

(** The accumulation at the head of the loop body. *)
Definition absorb (c : Chunk) (s : loop_state) : loop_state :=
  {| ls_content := ls_content s ++ ch_Content c;
     ls_finish := if bool_decide (ch_FinishReason c ≠ ""%string) then ch_FinishReason c else ls_finish s;
     ls_usage := default (ls_usage s) (ch_Usage c);
     ls_sentAny := ls_sentAny s |}.

Definition sent_one (s : loop_state) : loop_state :=
  {| ls_content := ls_content s; ls_finish := ls_finish s; ls_usage := ls_usage s; ls_sentAny := true |}.

Definition empty_chunk (c : Chunk) : bool :=
  bool_decide (ch_Content c = ""%string) && bool_decide (ch_FinishReason c = ""%string).

Section one_stream.
Context (id : string) (created : Z) (model : string).

Fixpoint stream_loop (chunks : list Chunk) (ending : stream_end) (s : loop_state) (w : writer)
    : loop_exit * loop_state * writer :=
  match chunks with
  | [] =>
      match ending with
      | StreamEOF => (Completed, s, w)
      | StreamError e true => (Disconnected, s, w)
      | StreamError e false =>
          if negb (ls_sentAny s) then (FailedFirst e, s, writeProviderErrorBody e w)
          else (FailedLater e, s, emit Flush (writeSSEError e w).2)
      end
  | c :: rest =>
      let s := absorb c s in
      if empty_chunk c then stream_loop rest ending s w
      else
        let '(ok, w) := writeSSEJSON (chunk_json (toChatChunk id created model c (negb (ls_sentAny s)))) w in
        if negb ok then (WriteFailed, s, w)
        else stream_loop rest ending (sent_one s) (emit Flush w)
  end.
End one_stream.

(** The deferred token count of [streamChatCompletions]. *)
Definition stream_tokens (req : chatRequest) (s : loop_state) : Z :=
  let actual := wrap64 (u_InputTokens (ls_usage s) + u_OutputTokens (ls_usage s)) in
  let len := Z.of_nat (String.length (ls_content s)) in
  if (actual =? 0) && (0 <? len)
  then wrap64 (estimateInputTokens req + Z.quot (len + charsPerToken - 1) charsPerToken)
  else actual.

(** What the handler does with a stream a provider opened: the operations on
    the response, the metrics, the token count, the passive health report, and
    the response it goes on to store and sample when the stream completed and
    its terminator was written.  The writer can flush: that it is an
    [http.Flusher] is a fact of its type, which net/http's own writer and each
    wrapper of the chain ([headerHook], [recorder], [panicWriter]) have, and the
    handler's test of it, with its 500 for a writer that is not one, comes before
    what is modelled here and in [serveStreamFromCache]. *)
Record streamed := {
  sd_exit : loop_exit;
  sd_writer : writer;
  sd_metrics : requestMetrics;
  sd_tokens : Z;
  sd_health : option (option go_error);
  sd_kept : option Response
}.

Definition serve_stream (calc : Cost.Calculator) (requestID : string) (created : Z)
    (servedProvider servedModel : string) (fellBack : bool) (firstByteLatency : Z) (req : chatRequest)
    (st : provider_stream) (m : requestMetrics) (w : writer) : streamed :=
  let m := m_served servedProvider servedModel fellBack firstByteLatency (mt_usage m) m in
  let w := stream_headers w in
  let '(exit, s, w) :=
    stream_loop (chatCompletionID requestID) created servedModel (st_chunks st) (st_end st) loop_start w in
  let tokens := stream_tokens req s in
  let stopped health := {| sd_exit := exit; sd_writer := w; sd_metrics := m; sd_tokens := tokens;
                           sd_health := health; sd_kept := None |} in
  match exit with
  | Disconnected | WriteFailed => stopped None
  | FailedFirst e | FailedLater e => stopped (Some (Some e))
  | Completed =>
      let m := m_served servedProvider servedModel fellBack firstByteLatency (ls_usage s) m in
      let m := default m (recordCost calc (Some m) servedModel (ls_usage s)) in
      let '(ok, w) := write sseDone w in
      if negb ok
      then {| sd_exit := exit; sd_writer := w; sd_metrics := m; sd_tokens := tokens;
              sd_health := Some None; sd_kept := None |}
      else {| sd_exit := exit; sd_writer := emit Flush w; sd_metrics := m; sd_tokens := tokens;
              sd_health := Some None;
              sd_kept := Some {| rs_Content := ls_content s; rs_FinishReason := ls_finish s;
                                 rs_Usage := ls_usage s; rs_Model := servedModel;
                                 rs_Provider := servedProvider; rs_Latency := 0 |} |}
  end.

(** ** Replaying a cached answer *)

Definition replayChunkRunes : nat := 24.

Fixpoint split_runes (fuel : nat) (rs : list Z) : list string :=
  match fuel, rs with
  | S fuel', _ :: _ => of_runes (take replayChunkRunes rs) :: split_runes fuel' (drop replayChunkRunes rs)
  | _, _ => []
  end.

Definition splitForReplay (content : string) : list string :=
  if bool_decide (content = ""%string) then [] else split_runes (length (runes content)) (runes content).

Definition entry_response (e : Entry) : Response :=
  {| rs_Content := CacheStore.e_Response e; rs_FinishReason := CacheStore.e_FinishReason e;
     rs_Usage := {| u_InputTokens := CacheStore.e_InputTokens e; u_OutputTokens := CacheStore.e_OutputTokens e |};
     rs_Model := CacheStore.e_Model e; rs_Provider := CacheStore.e_Provider e; rs_Latency := 0 |}.

Definition entry_metrics (e : Entry) (m : requestMetrics) : requestMetrics :=
  m_served (CacheStore.e_Provider e) (CacheStore.e_Model e) (mt_fellBack m) (mt_providerTime m)
    (rs_Usage (entry_response e)) m.

Definition serveFromCache (requestID : string) (created : Z) (e : Entry) (m : requestMetrics) (w : writer)
    : requestMetrics * writer :=
  (entry_metrics e m, writeSuccess requestID created (entry_response e) w).

Fixpoint replay_parts (id : string) (created : Z) (model : string) (parts : list string) (first : bool)
    (w : writer) : bool * bool * writer :=
  match parts with
  | [] => (true, first, w)
  | part :: rest =>
      let '(ok, w) := writeSSEJSON (chunk_json (toChatChunk id created model
        {| ch_Content := part; ch_FinishReason := ""; ch_Usage := None |} first)) w in
      if negb ok then (false, first, w) else replay_parts id created model rest false (emit Flush w)
  end.

Definition serveStreamFromCache (requestID : string) (created : Z) (e : Entry) (m : requestMetrics)
    (w : writer) : requestMetrics * writer :=
  let id := chatCompletionID requestID in
  let m := entry_metrics e m in
  let '(ok, first, w) := replay_parts id created (CacheStore.e_Model e) (splitForReplay (CacheStore.e_Response e)) true
                           (stream_headers w) in
  if negb ok then (m, w)
  else
    let '(ok, w) := writeSSEJSON (chunk_json (toChatChunk id created (CacheStore.e_Model e)
      {| ch_Content := ""; ch_FinishReason := CacheStore.e_FinishReason e; ch_Usage := None |} first)) w in
    if negb ok then (m, w)
    else
      let '(ok, w) := write sseDone (emit Flush w) in
      (m, if negb ok then w else emit Flush w).
End writing.
