(* ===== verification/StreamFacts.v ===== *)
(** * What a streaming client receives

    The client's side of the frames of [Stream]: it reads the body as
    Server-Sent Events, parses each payload and looks at the first choice.  The
    theorems compare that with what the provider generated, whatever becomes of
    the connection. *)

From S2P Require Import Prelude Text Json Provider Wire Sse Metrics Budget.
From S2P Require Import Fallback CacheStore Stream.

(** ** Operations and the bytes they deliver *)

Lemma delivered_app l l' : delivered (l ++ l') = (delivered l ++ delivered l')%string.
Proof. unfold delivered. by rewrite map_app, cat_app. Qed.

Lemma delivered_emit o w : op_bytes o = ""%string → delivered (wr_ops (emit o w)) = delivered (wr_ops w).
Proof.
  intros Ho. unfold emit. cbn [wr_ops]. rewrite delivered_app. unfold delivered at 2. simpl. rewrite Ho.
  by rewrite !string_app_nil_r.
Qed.

Definition str_prefix (a b : string) : Prop := ∃ t, b = (a ++ t)%string.

Lemma str_prefix_refl a : str_prefix a a.
Proof. exists ""%string. by rewrite string_app_nil_r. Qed.

Lemma str_prefix_app a b t : str_prefix a b → str_prefix a (b ++ t).
Proof. intros [u ->]. exists (u ++ t)%string. by rewrite string_app_assoc. Qed.

Lemma str_prefix_app_l p a b : str_prefix a b → str_prefix (p ++ a) (p ++ b).
Proof. intros [u ->]. exists u. by rewrite string_app_assoc. Qed.

Lemma substring_prefix k b : str_prefix (String.substring 0 k b) b.
Proof.
  revert k. induction b as [|c b IH]; intros k; [exists ""%string; by destruct k|].
  destruct k as [|k]; [by exists (String c b)|]. destruct (IH k) as [t Ht].
  exists t. change (String c b = String c (String.substring 0 k b ++ t)). by rewrite <- Ht.
Qed.

Lemma write_spec accepts b w :
  let '(ok, w') := write accepts b w in
  if ok then delivered (wr_ops w') = (delivered (wr_ops w) ++ b)%string
  else ∃ p, delivered (wr_ops w') = (delivered (wr_ops w) ++ p)%string ∧ str_prefix p b.
Proof.
  unfold write. destruct (accepts (wr_count w)) as [k|]; cbn [wr_ops]; rewrite delivered_app;
    unfold delivered at 2; simpl; rewrite string_app_nil_r; [|done].
  eexists. split; [done|apply substring_prefix].
Qed.

Lemma writeSSEJSON_spec accepts v w :
  let '(ok, w') := writeSSEJSON accepts v w in
  if ok then delivered (wr_ops w') = (delivered (wr_ops w) ++ frame (marshal v))%string
  else ∃ p, delivered (wr_ops w') = (delivered (wr_ops w) ++ p)%string ∧ str_prefix p (frame (marshal v)).
Proof.
  unfold writeSSEJSON, frame. pose proof (write_spec accepts "data: " w) as H1.
  destruct (write accepts "data: " w) as [[] w1]; cbn [negb].
  2: { destruct H1 as (p & Hp & Hpre). exists p. split; [done|by apply str_prefix_app]. }
  pose proof (write_spec accepts (marshal v) w1) as H2.
  destruct (write accepts (marshal v) w1) as [[] w2]; cbn [negb].
  2: { destruct H2 as (p & Hp & Hpre). exists ("data: " ++ p)%string.
       rewrite Hp, H1, string_app_assoc. split; [done|]. apply str_prefix_app_l. by apply str_prefix_app. }
  pose proof (write_spec accepts (LF_string ++ LF_string) w2) as H3.
  destruct (write accepts (LF_string ++ LF_string) w2) as [[] w3]; cbn [negb].
  - rewrite H3, H2, H1. by rewrite !string_app_assoc.
  - destruct H3 as (p & Hp & Hpre). exists ("data: " ++ marshal v ++ p)%string.
    rewrite Hp, H2, H1, !string_app_assoc. split; [done|]. by do 2 apply str_prefix_app_l.
Qed.

(** A writer that takes everything. *)
Definition steady : nat → option nat := λ _, None.

Lemma write_steady b w : (write steady b w).1 = true.
Proof. done. Qed.

Lemma writeSSEJSON_steady v w : (writeSSEJSON steady v w).1 = true.
Proof. done. Qed.

Definition bytes (w : writer) : string := delivered (wr_ops w).

(** ** The frames of a stream *)

Section frames.
Context (id : string) (created : Z) (model : string).

Definition chunk_payload (first : bool) (c : Chunk) : json := chunk_json (toChatChunk id created model c first).

(** The payloads written for the chunks, [first] while none has been sent. *)
Fixpoint payloads (first : bool) (chunks : list Chunk) : list json :=
  match chunks with
  | [] => []
  | c :: rest => if empty_chunk c then payloads first rest else chunk_payload first c :: payloads false rest
  end.

Definition absorb_all (chunks : list Chunk) (s : loop_state) : loop_state :=
  foldl (λ s c, if empty_chunk c then absorb c s else sent_one (absorb c s)) s chunks.

(** What the loop adds to the body at its end. *)
Definition exit_json (exit : loop_exit) : option json :=
  match exit with FailedLater e => Some (sse_error_json e) | _ => None end.

Definition ending_exit (ending : stream_end) (sent : bool) : loop_exit :=
  match ending with
  | StreamEOF => Completed
  | StreamError _ true => Disconnected
  | StreamError e false => if sent then FailedLater e else FailedFirst e
  end.

Definition error_body (exit : loop_exit) : string :=
  match exit with
  | FailedLater e => frame (marshal (sse_error_json e))
  | FailedFirst e =>
      match asProviderError e with
      | None => marshal (error_json "internal_error" unexpected) ++ LF_string
      | Some p => marshal (error_json (Kind_string (e_Kind p)) (upstream_message p)) ++ LF_string
      end
  | _ => ""
  end.

Lemma encode_spec accepts v w :
  ∃ p, bytes (encode accepts v w) = (bytes w ++ p)%string ∧ str_prefix p (marshal v ++ LF_string) ∧
       (accepts (wr_count w) = None → p = (marshal v ++ LF_string)%string).
Proof.
  unfold bytes, encode. pose proof (write_spec accepts (marshal v ++ LF_string) w) as H.
  destruct (write accepts _ w) as [[] w'] eqn:Hw; simpl.
  - eexists. split; [done|]. split; [apply str_prefix_refl|done].
  - destruct H as (p & Hp & Hpre). exists p. split; [done|]. split; [done|].
    intros Ha. unfold write in Hw. by rewrite Ha in Hw.
Qed.

Lemma error_body_spec accepts e w :
  ∃ p, bytes (writeProviderErrorBody accepts e w) = (bytes w ++ p)%string ∧
    str_prefix p (error_body (FailedFirst e)) ∧
    (accepts (wr_count w) = None → p = error_body (FailedFirst e)).
Proof.
  unfold writeProviderErrorBody, error_body, writeError.
  destruct (asProviderError e) as [pe|].
  - set (w1 := match retryAfterHeader e with Some s => emit _ w | None => w end).
    assert (bytes w1 = bytes w ∧ wr_count w1 = wr_count w) as [Hb Hc].
    { subst w1. destruct (retryAfterHeader e); [|done]. split; [by apply delivered_emit|done]. }
    set (w2 := emit (WriteHeader _) _). assert (bytes w2 = bytes w ∧ wr_count w2 = wr_count w) as [<- <-].
    { subst w2. split; [|done]. unfold bytes. by rewrite !delivered_emit by done. }
    apply encode_spec.
  - set (w2 := emit (WriteHeader _) _). assert (bytes w2 = bytes w ∧ wr_count w2 = wr_count w) as [<- <-].
    { subst w2. split; [|done]. unfold bytes. by rewrite !delivered_emit by done. }
    apply encode_spec.
Qed.

(** The loop, under any fate of the connection: either every write of it went
    through, and its state and its bytes are the chunks', or a write failed and
    the client has a prefix of those bytes. *)
Lemma stream_loop_spec accepts chunks ending s w :
  let ideal := (cat (map (λ v, frame (marshal v)) (payloads (negb (ls_sentAny s)) chunks))
    ++ error_body (ending_exit ending (ls_sentAny (absorb_all chunks s))))%string in
  let '(exit, s', w') := stream_loop accepts id created model chunks ending s w in
  (∃ p, bytes w' = (bytes w ++ p)%string ∧ str_prefix p ideal ∧
        (accepts = steady ∨ exit = Completed ∨ exit = Disconnected → p = ideal)) ∧
  ((exit = ending_exit ending (ls_sentAny (absorb_all chunks s)) ∧ s' = absorb_all chunks s) ∨
   (exit = WriteFailed ∧ accepts ≠ steady)).
Proof.
  revert s w. induction chunks as [|c rest IH]; intros s w.
  - cbn [payloads map cat foldr absorb_all foldl stream_loop]. change (cat []) with ""%string.
    cbv zeta. destruct ending as [|e []]; cbn [ending_exit error_body].
    + split; [|by left]. exists ""%string. by rewrite string_app_nil_r; split_and!; [|apply str_prefix_refl|].
    + split; [|by left]. exists ""%string. by rewrite string_app_nil_r; split_and!; [|apply str_prefix_refl|].
    + destruct (ls_sentAny s); cbn [negb]; (split; [|by left]).
      * unfold writeSSEError. pose proof (writeSSEJSON_spec accepts (sse_error_json e) w) as H.
        destruct (writeSSEJSON accepts (sse_error_json e) w) as [ok w'] eqn:Hw. cbn [snd].
        unfold bytes. rewrite delivered_emit by done. destruct ok.
        -- eexists. split; [exact H|]. split; [apply str_prefix_refl|done].
        -- destruct H as (p & Hp & Hpre). exists p. split; [done|]. split; [done|].
           by intros [->|[?|?]].
      * destruct (error_body_spec accepts e w) as (p & Hp & Hpre & Hall).
        exists p. split; [done|]. split; [done|]. intros [->|[?|?]]; [by apply Hall|done|done].
  - cbn [stream_loop payloads]. set (s1 := absorb c s).
    assert (ls_sentAny s1 = ls_sentAny s) as Hs1 by done.
    change (absorb_all (c :: rest) s) with
      (absorb_all rest (if empty_chunk c then s1 else sent_one s1)).
    destruct (empty_chunk c) eqn:Hc.
    + specialize (IH s1 w). rewrite Hs1 in IH. apply IH.
    + rewrite <- Hs1. fold (chunk_payload (negb (ls_sentAny s1)) c). set (v := chunk_payload _ c).
      pose proof (writeSSEJSON_spec accepts v w) as Hw.
      destruct (writeSSEJSON accepts v w) as [ok w1] eqn:Hwe. destruct ok; cbn [negb].
      * specialize (IH (sent_one s1) (emit Flush w1)).
        destruct (stream_loop accepts id created model rest ending (sent_one s1) (emit Flush w1))
          as [[exit s'] w']. destruct IH as ((p & Hp & Hpre & Hall) & Hend).
        split; [|done]. exists (frame (marshal v) ++ p)%string. cbn [map].
        change (cat (frame (marshal v) :: ?l)) with (frame (marshal v) ++ cat l)%string.
        rewrite string_app_assoc. split_and!.
        -- rewrite Hp. unfold bytes. rewrite delivered_emit by done. rewrite Hw. by rewrite string_app_assoc.
        -- by apply str_prefix_app_l.
        -- intros H. by rewrite Hall.
      * split; [|right; split; [done|]].
        -- destruct Hw as (p & Hp & Hpre). exists p. split; [done|]. split.
           ++ cbn [map]. change (cat (frame (marshal v) :: ?l)) with (frame (marshal v) ++ cat l)%string.
              rewrite string_app_assoc. by apply str_prefix_app.
           ++ intros [->|[?|?]]; [|done|done]. by pose proof (writeSSEJSON_steady v w) as Hs; rewrite Hwe in Hs.
        -- intros ->. by pose proof (writeSSEJSON_steady v w) as Hs; rewrite Hwe in Hs.
Qed.

Lemma absorb_all_content chunks s :
  ls_content (absorb_all chunks s) = (ls_content s ++ cat (map ch_Content chunks))%string.
Proof.
  revert s. induction chunks as [|c rest IH]; intros s; [by rewrite string_app_nil_r|].
  change (absorb_all (c :: rest) s) with
    (absorb_all rest (if empty_chunk c then absorb c s else sent_one (absorb c s))).
  rewrite IH. cbn [map]. change (cat (ch_Content c :: ?l)) with (ch_Content c ++ cat l)%string.
  destruct (empty_chunk c); cbn [ls_content absorb sent_one]; by rewrite string_app_assoc.
Qed.
End frames.

(** ** The client *)

Definition obj_get (k : string) (v : json) : option json :=
  match v with
  | JObj l => option_map snd (find_first (λ kv, bool_decide (kv.1 = k)) l)
  | _ => None
  end.

Definition str_get (k : string) (v : json) : string :=
  match obj_get k v with Some (JStr s) => s | _ => "" end.

Inductive client_event :=
| CText (role text : string) (finish : option string)
| CDone
| CError (typ message : string)
| CGarbled.

(** What a client of the OpenAI dialect makes of one payload. *)
Definition client_event_of (data : string) : client_event :=
  if bool_decide (data = "[DONE]"%string) then CDone
  else match parse data with
       | None => CGarbled
       | Some v =>
           match obj_get "error" v with
           | Some e => CError (str_get "type" e) (str_get "message" e)
           | None =>
               match obj_get "choices" v with
               | Some (JArr (c :: _)) =>
                   match obj_get "delta" c with
                   | Some d => CText (str_get "role" d) (str_get "content" d)
                                 (match obj_get "finish_reason" c with Some (JStr s) => Some s | _ => None end)
                   | None => CGarbled
                   end
               | _ => CGarbled
               end
           end
       end.

Definition client_text (evs : list client_event) : string :=
  cat (map (λ e, match e with CText _ t _ => t | _ => ""%string end) evs).

(** The client's reading of a whole body. *)
Definition client_view (body : string) : list client_event :=
  map (λ ev, client_event_of (ev_Data ev))
    (read_all (S (String.length body)) (newSSEReader body None)).1.

Definition chunk_view (first : bool) (c : Chunk) : client_event :=
  CText (if first then "assistant" else "") (ch_Content c)
    (if bool_decide (ch_FinishReason c = ""%string) then None else Some (wireFinishReason (ch_FinishReason c))).

Fixpoint views (first : bool) (chunks : list Chunk) : list client_event :=
  match chunks with
  | [] => []
  | c :: rest => if empty_chunk c then views first rest else chunk_view first c :: views false rest
  end.

Section client.
Context (id : string) (created : Z) (model : string)
  (Hid : valid_utf8 id = true) (Hcreated : in_int64 created) (Hmodel : valid_utf8 model = true).

Lemma wireFinishReason_valid r : valid_utf8 (wireFinishReason r) = true.
Proof. unfold wireFinishReason. by repeat case_bool_decide. Qed.

Lemma opt_field_ok name v :
  valid_utf8 name = true → valid_utf8 v = true →
  Forall (λ kv, valid_utf8 kv.1 = true ∧ json_ok kv.2) (opt_field name v).
Proof. intros ? ?. unfold opt_field. case_bool_decide; repeat constructor; done. Qed.

Lemma chunk_payload_ok first c :
  valid_utf8 (ch_Content c) = true →
  json_ok (chunk_payload id created model first c) ∧
  (height (chunk_payload id created model first c) ≤ maxNestingDepth)%nat.
Proof.
  intros Hc. split.
  - unfold json_ok, chunk_payload, chunk_json. apply json_all_obj.
    repeat (apply Forall_cons_2); [done|done| |done| |constructor].
    { split; [done|]. simpl. eauto. }
    split; [done|]. apply json_all_arr. apply Forall_singleton. unfold choice_json. apply json_all_obj.
    repeat (apply Forall_cons_2); [| | |constructor]; (split; [done|]).
    + simpl. exists 0. by split.
    + apply json_all_obj, Forall_app. split; apply opt_field_ok; try done. by destruct first.
    + simpl. case_bool_decide; [done|]. apply wireFinishReason_valid.
  - assert (height (chunk_payload id created model first c) ≤ 4)%nat as Hh.
    { unfold chunk_payload, chunk_json, toChatChunk, opt_field. simpl. unfold opt_field.
      repeat case_bool_decide; simpl; lia. }
    apply shallow. lia.
Qed.

Lemma not_done first c : marshal (chunk_payload id created model first c) ≠ "[DONE]"%string.
Proof. unfold chunk_payload, chunk_json. cbn [marshal]. discriminate. Qed.

Lemma chunk_client first c :
  valid_utf8 (ch_Content c) = true →
  client_event_of (marshal (chunk_payload id created model first c)) = chunk_view first c.
Proof.
  intros Hc. destruct (chunk_payload_ok first c Hc) as [Hok Hh]. unfold client_event_of.
  rewrite bool_decide_eq_false_2 by apply not_done. rewrite parse_marshal by done.
  unfold chunk_view, chunk_payload, chunk_json, choice_json, toChatChunk. cbn [map ckr_Choices ckr_ID
    ckr_Object ckr_Created ckr_Model ck_Index ck_Delta ck_FinishReason cd_Role cd_Content].
  unfold opt_field. clear.
  destruct first, (bool_decide_reflect (ch_Content c = ""%string)) as [Hx|Hx],
    (bool_decide (ch_FinishReason c = ""%string)); rewrite ?Hx; reflexivity.
Qed.

Lemma error_client typ message :
  valid_utf8 typ = true → valid_utf8 message = true →
  client_event_of (marshal (error_json typ message)) = CError typ message.
Proof.
  intros Ht Hm. unfold client_event_of. rewrite bool_decide_eq_false_2 by discriminate.
  rewrite parse_marshal; [done| |].
  - unfold json_ok, error_json. apply json_all_obj. apply Forall_singleton. split; [done|].
    apply json_all_obj. repeat (apply Forall_cons_2); [| |constructor]; by split.
  - apply shallow. simpl. lia.
Qed.

Definition contents_ok (chunks : list Chunk) : Prop := Forall (λ c, valid_utf8 (ch_Content c) = true) chunks.

Lemma payloads_client first chunks :
  contents_ok chunks →
  map client_event_of (map marshal (payloads id created model first chunks)) = views first chunks.
Proof.
  intros H. revert first. induction H as [|c rest Hc _ IH]; intros first; [done|]. cbn [payloads views].
  destruct (empty_chunk c); [apply IH|]. cbn [map]. by rewrite chunk_client, IH.
Qed.

Lemma views_text first chunks : client_text (views first chunks) = cat (map ch_Content chunks).
Proof.
  revert first. induction chunks as [|c rest IH]; intros first; [done|]. cbn [views map].
  change (cat (ch_Content c :: ?l)) with (ch_Content c ++ cat l)%string.
  destruct (empty_chunk c) eqn:He.
  - rewrite IH. unfold empty_chunk in He. apply andb_true_iff in He as [He _].
    apply bool_decide_eq_true in He. by rewrite He.
  - unfold client_text in *. cbn [map chunk_view].
    change (cat (ch_Content c :: ?l)) with (ch_Content c ++ cat l)%string. by rewrite IH.
Qed.

(** Every payload goes in one line the client's buffer holds. *)
Lemma payload_one_line first c :
  valid_utf8 (ch_Content c) = true →
  one_line (marshal (chunk_payload id created model first c)) = true.
Proof.
  intros Hc. apply marshal_one_line. destruct (chunk_payload_ok first c Hc) as [Hok _].
  revert Hok. unfold json_ok. generalize (chunk_payload id created model first c).
  intros v. induction v as [| | |s|l IH|l IH] using json_ind'; try done.
  - rewrite !json_all_arr. rewrite Forall_forall in IH. rewrite !Forall_forall.
    intros Hl x Hx. by apply IH, Hl.
  - rewrite !json_all_obj. rewrite Forall_forall in IH. rewrite !Forall_forall.
    intros Hl kv Hkv. destruct (Hl kv Hkv). split; [done|by apply IH].
Qed.

Definition short (v : json) : Prop := Z.of_nat (String.length (marshal v)) + 6 < maxStreamLineBytes.

Lemma payloads_fit first chunks :
  contents_ok chunks → Forall short (payloads id created model first chunks) →
  Forall fits (map marshal (payloads id created model first chunks)).
Proof.
  intros H. revert first. induction H as [|c rest Hc _ IH]; intros first; [constructor|]. cbn [payloads].
  destruct (empty_chunk c); [apply IH|]. intros [Hs Hrest]%Forall_cons. constructor; [|by apply IH].
  split; [by apply payload_one_line|exact Hs].
Qed.
End client.

(** Reading a body made of frames. *)
Lemma client_view_frames ps :
  Forall fits ps → client_view (cat (map frame ps)) = map client_event_of ps.
Proof.
  intros Hf. unfold client_view. pose proof (frames_length ps).
  rewrite read_frames by (done || lia). cbn [fst]. by rewrite map_map.
Qed.

(** ** A stream, end to end *)

(** What the theorem asks of the parties: text is UTF-8 and each payload goes
    in one line of the client's buffer. *)
Record sendable (requestID : string) (created : Z) (model : string) (st : provider_stream) : Prop := {
  sn_id : valid_utf8 (chatCompletionID requestID) = true;
  sn_created : in_int64 created;
  sn_model : valid_utf8 model = true;
  sn_contents : contents_ok (st_chunks st);
  sn_short : Forall short (payloads (chatCompletionID requestID) created model true (st_chunks st));
  sn_error e p : st_end st = StreamError e false → asProviderError e = Some p →
    valid_utf8 (upstream_message p) = true ∧ short (sse_error_json e)
}.

Lemma sent_views chunks s :
  ls_sentAny (absorb_all chunks s) = ls_sentAny s || negb (bool_decide (views true chunks = [])).
Proof.
  revert s. induction chunks as [|c rest IH]; intros s; [by rewrite orb_false_r|].
  change (absorb_all (c :: rest) s) with
    (absorb_all rest (if empty_chunk c then absorb c s else sent_one (absorb c s))).
  rewrite IH. cbn [views]. destruct (empty_chunk c); [done|]. simpl. by rewrite orb_true_r.
Qed.

Lemma cat_frames vs : cat (map (λ v, frame (marshal v)) vs) = cat (map frame (map marshal vs)).
Proof. by rewrite map_map. Qed.

Lemma fits_done : fits "[DONE]".
Proof. by split. Qed.

Lemma fits_error st requestID created model e :
  sendable requestID created model st → st_end st = StreamError e false →
  fits (marshal (sse_error_json e)) ∧
  client_event_of (marshal (sse_error_json e)) =
    match asProviderError e with
    | None => CError "internal_error" unexpected
    | Some p => CError (Kind_string (e_Kind p)) (upstream_message p)
    end.
Proof.
  intros Hs He. pose proof (sn_error _ _ _ _ Hs) as Herr. unfold sse_error_json in *.
  destruct (asProviderError e) as [p|] eqn:Hp.
  - destruct (Herr e p He Hp) as [Hv Hshort]. rewrite Hp in Hshort.
    assert (valid_utf8 (Kind_string (e_Kind p)) = true) by (by destruct (e_Kind p)).
    split; [|by apply error_client]. split; [|exact Hshort].
    apply marshal_one_line, json_all_obj, Forall_singleton. split; [done|].
    apply json_all_obj. repeat constructor.
  - split; [by split|by apply error_client].
Qed.

Section served.
Context (calc : Cost.Calculator) (requestID : string) (created : Z) (prov model : string)
  (fellBack : bool) (latency : Z) (req : chatRequest) (st : provider_stream) (m : requestMetrics).

Let id := chatCompletionID requestID.
Let chunks := st_chunks st.
Definition serve (accepts : nat → option nat) : streamed :=
  serve_stream accepts calc requestID created prov model fellBack latency req st m fresh_writer.

Definition final_state : loop_state := absorb_all chunks loop_start.
Definition final_exit : loop_exit := ending_exit (st_end st) (ls_sentAny final_state).

(** The body of a connection that takes everything. *)
Definition whole_body : string :=
  cat (map (λ v, frame (marshal v)) (payloads id created model true chunks))
  ++ error_body final_exit
  ++ (match final_exit with Completed => sseDone | _ => "" end).

Lemma serve_bytes accepts :
  str_prefix (bytes (sd_writer (serve accepts))) whole_body ∧
  (accepts = steady ∨ sd_kept (serve accepts) ≠ None → bytes (sd_writer (serve accepts)) = whole_body) ∧
  (sd_kept (serve accepts) ≠ None → final_exit = Completed ∧
     sd_kept (serve accepts) = Some {| rs_Content := ls_content final_state;
       rs_FinishReason := ls_finish final_state; rs_Usage := ls_usage final_state;
       rs_Model := model; rs_Provider := prov; rs_Latency := 0 |}) ∧
  (sd_exit (serve accepts) = final_exit ∧ sd_tokens (serve accepts) = stream_tokens req final_state ∨
   sd_exit (serve accepts) = WriteFailed).
Proof.
  unfold serve, serve_stream.
  pose proof (stream_loop_spec id created model accepts chunks (st_end st) loop_start
    (stream_headers fresh_writer)) as H.
  fold final_state final_exit in H. fold id chunks.
  destruct (stream_loop accepts id created model chunks (st_end st) loop_start (stream_headers fresh_writer))
    as [[exit s] w]. cbv zeta in H. destruct H as ((p & Hp & Hpre & Hall) & Hend).
  assert (bytes w = p) as <- by (rewrite Hp; done). clear Hp.
  unfold whole_body. rewrite <- string_app_assoc. cbn [negb ls_sentAny loop_start] in Hpre, Hall.
  set (I := (cat _ ++ error_body final_exit)%string) in *. clearbody I.
  destruct Hend as [[-> ->]|[-> Hne]].
  - destruct final_exit eqn:Hx; cbn [sd_kept sd_writer sd_exit sd_tokens].
    + specialize (Hall ltac:(by right; left)). pose proof (write_spec accepts sseDone w) as Hw.
      destruct (write accepts sseDone w) as [ok w'] eqn:Hwe. destruct ok; cbn [negb sd_kept sd_writer sd_exit sd_tokens].
      * unfold bytes in *. rewrite delivered_emit by done. rewrite Hw, Hall.
        split_and!; [apply str_prefix_refl|done|done|by left].
      * destruct Hw as (q & Hq & Hpq). unfold bytes in *. rewrite Hq, Hall.
        split_and!; [by apply str_prefix_app_l| |done|by left].
        intros [->|?]; [|done]. by pose proof (write_steady sseDone w) as Hs; rewrite Hwe in Hs.
    + rewrite string_app_nil_r. split_and!; [done| |done|by left]. intros [H|?]; [by apply Hall; left|done].
    + rewrite string_app_nil_r. split_and!; [done| |done|by left]. intros [H|?]; [by apply Hall; left|done].
    + rewrite string_app_nil_r. split_and!; [done| |done|by left]. intros [H|?]; [by apply Hall; left|done].
    + rewrite string_app_nil_r. split_and!; [done| |done|by left]. intros [H|?]; [by apply Hall; left|done].
  - cbn [sd_kept sd_writer sd_exit sd_tokens]. split_and!; [by apply str_prefix_app| |done|by right].
    intros [?|?]; done.
Qed.

(** What a client reads of a connection that takes everything. *)
Lemma whole_body_view :
  sendable requestID created model st →
  match st_end st with
  | StreamEOF => client_view whole_body = views true chunks ++ [CDone]
  | StreamError e true => client_view whole_body = views true chunks
  | StreamError e false =>
      views true chunks ≠ [] →
      client_view whole_body = views true chunks ++
        [match asProviderError e with
         | None => CError "internal_error" unexpected
         | Some p => CError (Kind_string (e_Kind p)) (upstream_message p)
         end]
  end.
Proof.
  intros Hs. pose proof (payloads_fit _ _ _ (sn_id _ _ _ _ Hs) (sn_created _ _ _ _ Hs)
    (sn_model _ _ _ _ Hs) true chunks (sn_contents _ _ _ _ Hs) (sn_short _ _ _ _ Hs)) as Hf.
  pose proof (payloads_client _ _ _ (sn_id _ _ _ _ Hs) (sn_created _ _ _ _ Hs)
    (sn_model _ _ _ _ Hs) true chunks (sn_contents _ _ _ _ Hs)) as Hc.
  fold id in Hf, Hc. unfold whole_body. rewrite cat_frames.
  set (ps := map marshal (payloads id created model true chunks)) in *. clearbody ps.
  assert (∀ p, fits p → client_view (cat (map frame ps) ++ frame p) = views true chunks ++ [client_event_of p]) as Hone.
  { intros p Hp. replace (cat (map frame ps) ++ frame p)%string with (cat (map frame (ps ++ [p])))
      by (rewrite map_app, cat_app; unfold cat; simpl; by rewrite string_app_nil_r).
    rewrite client_view_frames by (apply Forall_app; split; [done|by constructor]).
    by rewrite map_app, Hc. }
  unfold final_exit. destruct (st_end st) as [|e gone] eqn:He; cbn [ending_exit error_body].
  - change ("" ++ sseDone)%string with (frame "[DONE]"). by rewrite Hone by apply fits_done.
  - destruct gone.
    + rewrite !string_app_nil_r. by rewrite client_view_frames.
    + intros Hv. unfold final_state. rewrite sent_views. rewrite bool_decide_eq_false_2 by done.
      cbn [ls_sentAny loop_start orb negb error_body]. rewrite string_app_nil_r.
      destruct (fits_error st requestID created model e Hs He) as [Hfit Hev].
      rewrite Hone by done. by rewrite Hev.
Qed.

(** C13: a stream reaches the client intact.  Whatever the provider sends and
    whenever the connection breaks, the client receives a prefix of the bytes
    an unbroken connection would carry.  Those, read as Server-Sent Events and
    parsed, are the chunks that carry text or a finish reason, in order, the
    role on the first only; their text is exactly the text generated; they end
    with [[DONE]] when and only when the provider's stream ended cleanly, and
    with one error event when it failed after something was sent.  A response
    is kept, to be cached and sampled, only when the stream ended cleanly and
    the client was sent all of it, and its content is all that was generated. *)
Theorem stream_reaches_client accepts :
  sendable requestID created model st →
  let got := bytes (sd_writer (serve accepts)) in
  str_prefix got whole_body ∧
  bytes (sd_writer (serve steady)) = whole_body ∧
  match st_end st with
  | StreamEOF => client_view whole_body = views true chunks ++ [CDone]
  | StreamError e true => client_view whole_body = views true chunks
  | StreamError e false =>
      views true chunks ≠ [] →
      client_view whole_body = views true chunks ++
        [match asProviderError e with
         | None => CError "internal_error" unexpected
         | Some p => CError (Kind_string (e_Kind p)) (upstream_message p)
         end]
  end ∧
  client_text (views true chunks) = cat (map ch_Content chunks) ∧
  (∀ resp, sd_kept (serve accepts) = Some resp →
     st_end st = StreamEOF ∧ got = whole_body ∧ rs_Content resp = cat (map ch_Content chunks)).
Proof.
  intros Hs got. destruct (serve_bytes accepts) as (Hpre & Heq & Hkept & _).
  split_and!.
  - exact Hpre.
  - apply serve_bytes. by left.
  - by apply whole_body_view.
  - apply views_text.
  - intros resp Hr. assert (sd_kept (serve accepts) ≠ None) as Hne by (by rewrite Hr).
    destruct (Hkept Hne) as [Hx Hv]. rewrite Hv in Hr. injection Hr as <-. split_and!.
    + unfold final_exit in Hx. destruct (st_end st) as [|e []]; [done|done|]. simpl in Hx. by case_match.
    + apply Heq. by right.
    + simpl. unfold final_state. by rewrite absorb_all_content.
Qed.

(** Generated text is never counted as no tokens. *)
Lemma stream_tokens_nonzero s :
  0 < Z.of_nat (String.length (ls_content s)) ≤ 2 ^ 40 → exact_tokens (r_Messages req) ≤ 2 ^ 40 →
  in_int64 (u_InputTokens (ls_usage s) + u_OutputTokens (ls_usage s)) →
  stream_tokens req s ≠ 0.
Proof.
  intros Hc He Hu. unfold stream_tokens. rewrite wrap64_id by done.
  destruct (Z.ltb_spec 0 (Z.of_nat (String.length (ls_content s)))); [|lia].
  destruct (Z.eqb_spec (u_InputTokens (ls_usage s) + u_OutputTokens (ls_usage s)) 0); simpl; [|done].
  pose proof (exact_tokens_nonneg (r_Messages req)).
  rewrite estimateInputTokens_exact by (unfold int64_max; lia). unfold charsPerToken.
  set (n := Z.of_nat _) in *. assert (0 < Z.quot (n + 4 - 1) 4 ≤ n + 3).
  { rewrite Z.quot_div_nonneg by lia. Z.to_euclidean_division_equations; lia. }
  rewrite wrap64_id; [lia|]. unfold in_int64, int64_min, int64_max. lia.
Qed.
End served.

(** ** A replayed hit is a live stream *)

Lemma split_runes_cat n rs : (length rs ≤ n)%nat → cat (split_runes n rs) = of_runes rs.
Proof.
  revert rs. induction n as [|n IH]; intros [|r rs] Hl; try done; [simpl in Hl; lia|].
  change (split_runes (S n) (r :: rs)) with
    (of_runes (take replayChunkRunes (r :: rs)) :: split_runes n (drop replayChunkRunes (r :: rs))).
  change (cat (?s :: ?l)) with (s ++ cat l)%string.
  rewrite IH by (rewrite length_drop; simpl in *; lia).
  rewrite <- of_runes_app. by rewrite take_drop.
Qed.

Lemma split_runes_sizes n rs :
  Forall (λ p, ∃ l, p = of_runes l ∧ (1 ≤ length l ≤ replayChunkRunes)%nat) (split_runes n rs).
Proof.
  revert rs. induction n as [|n IH]; intros [|r rs]; try constructor; [|apply IH].
  eexists. split; [reflexivity|]. rewrite length_take. unfold replayChunkRunes. cbn [length]. lia.
Qed.

Lemma encode_rune_nonempty r : encode_rune r ≠ ""%string.
Proof. unfold encode_rune, encode_valid. by repeat case_match. Qed.

Lemma of_runes_nonempty l : l ≠ [] → of_runes l ≠ ""%string.
Proof.
  destruct l as [|r l]; [done|]. intros _. change (of_runes (r :: l)) with (encode_rune r ++ of_runes l)%string.
  pose proof (encode_rune_nonempty r). by destruct (encode_rune r).
Qed.

(** The parts put back together are the answer, and none is empty or longer
    than two dozen runes. *)
Lemma splitForReplay_spec content :
  valid_utf8 content = true →
  cat (splitForReplay content) = content ∧
  Forall (λ p, p ≠ ""%string ∧ ∃ l, p = of_runes l ∧ (1 ≤ length l ≤ replayChunkRunes)%nat)
    (splitForReplay content).
Proof.
  intros Hv. unfold splitForReplay. case_bool_decide as He; [by subst|]. split.
  - rewrite split_runes_cat by done. by apply of_runes_valid.
  - eapply Forall_impl; [apply split_runes_sizes|]. intros p (l & -> & Hl). split; [|eauto].
    apply of_runes_nonempty. by destruct l; [simpl in Hl; lia|].
Qed.

Definition text_chunk (t : string) : Chunk := {| ch_Content := t; ch_FinishReason := ""; ch_Usage := None |}.
Definition finish_chunk (f : FinishReason) : Chunk := {| ch_Content := ""; ch_FinishReason := f; ch_Usage := None |}.

(** The stream a cached entry stands for. *)
Definition replay_stream (e : Entry) : provider_stream :=
  {| st_chunks := map text_chunk (splitForReplay (CacheStore.e_Response e))
                  ++ [finish_chunk (CacheStore.e_FinishReason e)];
     st_end := StreamEOF |}.

Lemma replay_loop accepts id created model parts fin s w :
  Forall (λ p, p ≠ ""%string) parts → fin ≠ ""%string →
  let '(exit, s', w') :=
    stream_loop accepts id created model (map text_chunk parts ++ [finish_chunk fin]) StreamEOF s w in
  let '(ok, first, w1) := replay_parts accepts id created model parts (negb (ls_sentAny s)) w in
  if ok then
    let '(ok, w2) := writeSSEJSON accepts (chunk_json (toChatChunk id created model (finish_chunk fin) first)) w1 in
    if ok then exit = Completed ∧ w' = emit Flush w2 else exit = WriteFailed ∧ w' = w2
  else exit = WriteFailed ∧ w' = w1.
Proof.
  intros Hp Hfin. revert s w. induction Hp as [|p parts Hp _ IH]; intros s w.
  - cbn [map app stream_loop replay_parts]. unfold empty_chunk. cbn [ch_Content ch_FinishReason finish_chunk].
    rewrite (bool_decide_eq_false_2 (fin = ""%string)) by done. rewrite andb_false_r.
    change (ls_sentAny (absorb (finish_chunk fin) s)) with (ls_sentAny s). cbn [negb].
    fold (finish_chunk fin).
    destruct (writeSSEJSON accepts _ w) as [[] w2]; done.
  - cbn [map app stream_loop replay_parts]. unfold empty_chunk at 1. cbn [ch_Content ch_FinishReason text_chunk].
    rewrite (bool_decide_eq_false_2 (p = ""%string)) by done. cbn [andb].
    change (ls_sentAny (absorb (text_chunk p) s)) with (ls_sentAny s).
    fold (text_chunk p).
    destruct (writeSSEJSON accepts _ w) as [[] w2]; cbn [negb]; [|done].
    apply (IH (sent_one (absorb (text_chunk p) s)) (emit Flush w2)).
Qed.

(** C14: a cache hit served to a streaming client is, operation for operation
    and under any fate of the connection, the stream of a live provider that
    sends the cached text in pieces of at most two dozen code points, then its
    finish reason, and ends cleanly; the pieces put together are the cached
    text, byte for byte. *)
Theorem replay_is_live accepts calc requestID created e req m :
  valid_utf8 (CacheStore.e_Response e) = true → CacheStore.e_FinishReason e ≠ ""%string →
  let live := serve_stream accepts calc requestID created (CacheStore.e_Provider e) (CacheStore.e_Model e)
                (mt_fellBack m) (mt_providerTime m) req (replay_stream e) m fresh_writer in
  (serveStreamFromCache accepts requestID created e m fresh_writer).2 = sd_writer live ∧
  cat (map ch_Content (st_chunks (replay_stream e))) = CacheStore.e_Response e ∧
  Forall (λ c, ∃ l, ch_Content c = of_runes l ∧ (length l ≤ replayChunkRunes)%nat)
    (st_chunks (replay_stream e)).
Proof.
  intros Hv Hf. destruct (splitForReplay_spec _ Hv) as [Hcat Hparts]. split_and!.
  - unfold serveStreamFromCache, serve_stream. cbn [st_chunks st_end replay_stream].
    pose proof (replay_loop accepts (chatCompletionID requestID) created (CacheStore.e_Model e)
      (splitForReplay (CacheStore.e_Response e)) (CacheStore.e_FinishReason e) loop_start
      (stream_headers fresh_writer) ltac:(eapply Forall_impl; [exact Hparts|]; naive_solver) Hf) as H.
    destruct (stream_loop _ _ _ _ _ _ _ _) as [[exit s] w'].
    cbn [negb ls_sentAny loop_start] in H. fold (finish_chunk (CacheStore.e_FinishReason e)).
    destruct (replay_parts _ _ _ _ _ _ _) as [[ok first] w1]. destruct ok; cbn [negb];
      [|by destruct H as [-> ->]].
    destruct (writeSSEJSON _ _ w1) as [ok w2]. destruct ok; destruct H as [-> ->]; cbn [negb]; [|done].
    destruct (write accepts sseDone (emit Flush w2)) as [[] w3]; done.
  - cbn [st_chunks replay_stream]. rewrite map_app, map_map, cat_app.
    rewrite (map_ext _ (λ x, x)) by done. rewrite map_id, Hcat. cbn [map]. apply string_app_nil_r.
  - cbn [st_chunks replay_stream]. apply Forall_app. split.
    + apply Forall_map. eapply Forall_impl; [exact Hparts|]. intros p (_ & l & -> & Hl).
      exists l. split; [done|apply Hl].
    + constructor; [|constructor]. exists []. split; [done|apply Nat.le_0_l].
Qed.

(** ** Witnesses *)

Definition demo_stream : provider_stream :=
  {| st_chunks := [text_chunk ""; text_chunk "Hel"; text_chunk "lo"; finish_chunk "stop";
                   {| ch_Content := ""; ch_FinishReason := "";
                      ch_Usage := Some {| u_InputTokens := 7; u_OutputTokens := 2 |} |}];
     st_end := StreamEOF |}.

Definition demo_chat : chatRequest :=
  {| r_Model := "gpt-4o"; r_Messages := [{| m_Role := "user"; m_Content := "hi" |}];
     r_Temperature := None; r_MaxTokens := 16; r_Stream := true; r_Stop := [] |}.

Lemma demo_sendable : sendable "abc" 1700000000 "gpt-4o" demo_stream.
Proof.
  split.
  - vm_compute. reflexivity.
  - split; vm_compute; discriminate.
  - vm_compute. reflexivity.
  - repeat constructor.
  - set (l := payloads _ _ _ _ _). cut (forallb (λ v, Z.of_nat (String.length (marshal v)) + 6
      <? maxStreamLineBytes) l = true); [|vm_compute; reflexivity].
    intros H. apply Forall_forall. intros v Hv. unfold short. apply Z.ltb_lt.
    rewrite forallb_forall in H. apply H. by apply list_elem_of_In.
  - intros e p [=].
Qed.

(** A connection that fails in the middle of the second frame. *)
Definition demo_broken (n : nat) : option nat := if (n <? 4)%nat then None else Some 3%nat.

Lemma stream_reaches_client_witness :
  let r := serve (Cost.NewCalculator ∅) "abc" 1700000000 "openai" "gpt-4o" false 0 demo_chat demo_stream
             (new_metrics 0) in
  str_prefix (bytes (sd_writer (r demo_broken))) (bytes (sd_writer (r steady))) ∧
  client_view (bytes (sd_writer (r steady))) =
    [CText "assistant" "Hel" None; CText "" "lo" None; CText "" "" (Some "stop"%string); CDone].
Proof.
  destruct (stream_reaches_client (Cost.NewCalculator ∅) "abc" 1700000000 "openai" "gpt-4o" false 0
    demo_chat demo_stream (new_metrics 0) demo_broken demo_sendable) as (H1 & H2 & H3 & _).
  cbv zeta. rewrite H2. split; [exact H1|]. exact H3.
Defined.

Definition demo_cached : Entry :=
  {| CacheStore.e_Response := "a fairly long cached answer, cut in pieces";
     CacheStore.e_FinishReason := "stop"; CacheStore.e_InputTokens := 7;
     CacheStore.e_OutputTokens := 9; CacheStore.e_Model := "gpt-4o"; CacheStore.e_Provider := "openai";
     CacheStore.e_CreatedAt := Some 0; CacheStore.e_Hits := 0; CacheStore.e_Embedding := [] |}.

Lemma replay_is_live_witness :
  (serveStreamFromCache steady "abc" 1700000000 demo_cached (new_metrics 0) fresh_writer).2 =
    sd_writer (serve_stream steady (Cost.NewCalculator ∅) "abc" 1700000000 "openai" "gpt-4o" false 0
      demo_chat (replay_stream demo_cached) (new_metrics 0) fresh_writer).
Proof.
  exact (proj1 (replay_is_live steady (Cost.NewCalculator ∅) "abc" 1700000000 demo_cached demo_chat
    (new_metrics 0) ltac:(vm_compute; reflexivity) ltac:(discriminate))).
Defined.
