(* ===== verification/Decode.v ===== *)
(** * Reading a request: internal/proxy/handler.go's decode

    [json.Decoder] with [DisallowUnknownFields] into [chatRequest]: field names
    match without regard to case, a null leaves its field alone, and anything of
    the wrong type or name fails the whole body.  A repeated key is decoded
    again: a null keeps the first value, and a list is overwritten element by
    element, so that an element keeps what the second list leaves out. *)

From S2P Require Import Prelude Text Json Float32 Wire.

(** ** Fields of a struct *)

(** Go's simple case folding, on the runes that fold to an ASCII letter. *)
Definition fold_rune (r : Z) : Z :=
  if (65 <=? r) && (r <=? 90) then r + 32
  else if r =? 383 then 115
  else if r =? 8490 then 107
  else r.

Definition same_field (name key : string) : bool :=
  bool_decide (map fold_rune (runes key) = map fold_rune (runes name)).

Definition into_string (old : string) (v : json) : option string :=
  match v with JStr s => Some s | JNull => Some old | _ => None end.
Definition into_bool (old : bool) (v : json) : option bool :=
  match v with JBool b => Some b | JNull => Some old | _ => None end.
Definition into_int (old : Z) (v : json) : option Z :=
  match v with
  | JNum lit => match ParseInt lit with (n, None) => Some n | _ => None end
  | JNull => Some old
  | _ => None
  end.
(** A pointer: null makes it nil. *)
Definition into_float32_ptr (v : json) : option (option float32) :=
  match v with
  | JNum lit => match ParseFloat32 lit with Some x => Some (Some x) | None => None end
  | JNull => Some None
  | _ => None
  end.

(** The members of an object in order; [None] as soon as one does not fit. *)
Fixpoint into_fields {A} (set : string → json → A → option A) (ms : list (string * json)) (x : A) : option A :=
  match ms with
  | [] => Some x
  | (k, v) :: ms' => match set k v x with Some x' => into_fields set ms' x' | None => None end
  end.

Definition into_struct {A} (set : string → json → A → option A) (old : A) (v : json) : option A :=
  match v with JObj ms => into_fields set ms old | JNull => Some old | _ => None end.

(** A slice that is there already is overwritten in place: an element is decoded
    into the one at its index, and into zero past the end. *)
Fixpoint into_elems {A} (into : A → json → option A) (zero : A) (old : list A) (l : list json) : option (list A) :=
  match l with
  | [] => Some []
  | v :: l' =>
      match into (default zero (head old)) v, into_elems into zero (tail old) l' with
      | Some x, Some xs => Some (x :: xs)
      | _, _ => None
      end
  end.

Definition into_slice {A} (into : A → json → option A) (zero : A) (old : list A) (v : json) : option (list A) :=
  match v with JArr l => into_elems into zero old l | JNull => Some [] | _ => None end.

Lemma into_int_JInt old n : in_int64 n → into_int old (JInt n) = Some n.
Proof. intros Hn. unfold into_int, JInt. by rewrite ParseInt_FormatInt. Qed.

Lemma into_elems_fresh {A B} (into : A → json → option A) zero (g : B → json) (h : B → A) l :
  (∀ x, into zero (g x) = Some (h x)) → into_elems into zero [] (map g l) = Some (map h l).
Proof. intros Hx. induction l as [|x l IH]; [done|]. cbn [map into_elems head tail]. cbn. by rewrite Hx, IH. Qed.

(** ** wire.go *)

Definition set_message_field (k : string) (v : json) (m : chatMessage) : option chatMessage :=
  if same_field "role" k then
    match into_string (m_Role m) v with
    | Some s => Some {| m_Role := s; m_Content := m_Content m |} | None => None end
  else if same_field "content" k then
    match into_string (m_Content m) v with
    | Some s => Some {| m_Role := m_Role m; m_Content := s |} | None => None end
  else None.

Definition zero_message : chatMessage := {| m_Role := ""; m_Content := "" |}.

Definition into_messages : list chatMessage → json → option (list chatMessage) :=
  into_slice (into_struct set_message_field) zero_message.

(** [stopSequences.UnmarshalJSON] *)
Definition into_stop (old : list string) (v : json) : option (list string) :=
  match v with
  | JNull => Some old
  | JStr s => Some [s]
  | JArr l => into_elems into_string "" [] l
  | _ => None
  end.

Definition set_request_field (k : string) (v : json) (r : chatRequest) : option chatRequest :=
  let upd model messages temperature maxTokens stream stop :=
    {| r_Model := model; r_Messages := messages; r_Temperature := temperature;
       r_MaxTokens := maxTokens; r_Stream := stream; r_Stop := stop |} in
  if same_field "model" k then
    (λ s, upd s (r_Messages r) (r_Temperature r) (r_MaxTokens r) (r_Stream r) (r_Stop r))
      <$> into_string (r_Model r) v
  else if same_field "messages" k then
    (λ l, upd (r_Model r) l (r_Temperature r) (r_MaxTokens r) (r_Stream r) (r_Stop r)) <$> into_messages (r_Messages r) v
  else if same_field "temperature" k then
    (λ t, upd (r_Model r) (r_Messages r) t (r_MaxTokens r) (r_Stream r) (r_Stop r)) <$> into_float32_ptr v
  else if same_field "max_tokens" k then
    (λ n, upd (r_Model r) (r_Messages r) (r_Temperature r) n (r_Stream r) (r_Stop r))
      <$> into_int (r_MaxTokens r) v
  else if same_field "stream" k then
    (λ b, upd (r_Model r) (r_Messages r) (r_Temperature r) (r_MaxTokens r) b (r_Stop r))
      <$> into_bool (r_Stream r) v
  else if same_field "stop" k then
    (λ l, upd (r_Model r) (r_Messages r) (r_Temperature r) (r_MaxTokens r) (r_Stream r) l)
      <$> into_stop (r_Stop r) v
  else None.

Definition zero_request : chatRequest :=
  {| r_Model := ""; r_Messages := []; r_Temperature := None; r_MaxTokens := 0; r_Stream := false; r_Stop := [] |}.

Definition into_request (v : json) : option chatRequest := into_struct set_request_field zero_request v.

(** ** decode *)

Definition maxRequestBytes : Z := 1048576.

(** What [http.MaxBytesReader] lets through. *)
Fixpoint first_bytes (n : Z) (s : string) : string :=
  match s with
  | String c s' => if 0 <? n then String c (first_bytes (n - 1) s') else EmptyString
  | EmptyString => EmptyString
  end.

Inductive decode_error :=
| WrongContentType | TooLarge | BadJSON | Invalid (e : wire_error).

Definition decode_status (e : decode_error) : Z :=
  match e with WrongContentType => 415 | TooLarge => 413 | BadJSON | Invalid _ => 400 end.

(** [limited] is whether the decoder ran into the limit of the body reader
    before it had a value or a syntax error. *)
Definition decode (contentType body : string) (limited : bool) : result decode_error chatRequest :=
  if bool_decide (contentType ≠ ""%string) && negb (String.prefix "application/json" contentType)
  then Err WrongContentType
  else match parse_first (first_bytes maxRequestBytes body) with
       | None => Err (if limited && (maxRequestBytes <? Z.of_nat (String.length body)) then TooLarge else BadJSON)
       | Some v =>
           match into_request v with
           | None => Err BadJSON
           | Some req => match validate req with Some e => Err (Invalid e) | None => Ok req end
           end
       end.

(** ** The cache header *)

Definition maxCacheTTLSeconds : Z := 365 * 24 * 60 * 60.

(** [None] when the header says nothing usable. *)
Definition parseCacheTTLHeader (raw : string) : option Z :=
  if bool_decide (raw = ""%string) then None
  else match ParseInt raw with
       | (secs, None) => if (secs <? 0) || (maxCacheTTLSeconds <? secs) then None
                         else Some (wrap64 (secs * second))
       | (_, Some _) => None
       end.

(** At most a year, so the conversion to nanoseconds cannot overflow. *)
Lemma parseCacheTTLHeader_range raw d :
  parseCacheTTLHeader raw = Some d → 0 ≤ d ≤ maxCacheTTLSeconds * second ∧ d mod second = 0.
Proof.
  unfold parseCacheTTLHeader. intros H. repeat case_match; simplify_eq. bool_to_prop.
  assert (0 ≤ z * second ≤ maxCacheTTLSeconds * second) as Hr.
  { unfold maxCacheTTLSeconds, second, millisecond, microsecond, nanosecond in *. lia. }
  rewrite wrap64_id.
  - split; [done|]. apply Z.mod_mul. done.
  - unfold in_int64, int64_min, int64_max, maxCacheTTLSeconds, second, millisecond, microsecond, nanosecond in *.
    lia.
Qed.

(** ** Number literals *)

(** A whole JSON number, as the scanner takes it. *)
Definition number_literal (lit : string) : bool :=
  ascii_only lit && bool_decide (scan_number (units lit) = Some (lit, [])).

Lemma span_digits_ext us rest ds us' :
  delimited rest → span_digits us = (ds, us') → span_digits (us ++ rest) = (ds, us' ++ rest).
Proof.
  intros Hd. revert ds us'. induction us as [|[r bs] us IH]; intros ds us'; cbn [span_digits app].
  - intros [= <- <-]. destruct rest as [|[r bs] rest]; [done|]. destruct Hd as [Hd _]. cbn [span_digits app]. by rewrite Hd.
  - destruct (is_digit r); [|by intros [= <- <-]]. destruct (span_digits us) as [ds1 us1].
    intros [= <- <-]. by rewrite (IH _ _ eq_refl).
Qed.

Lemma digits1_ext us rest ds us' :
  delimited rest → digits1 us = Some (ds, us') → digits1 (us ++ rest) = Some (ds, us' ++ rest).
Proof.
  intros Hd. unfold digits1. destruct (span_digits us) as [ds1 us1] eqn:Hs.
  rewrite (span_digits_ext _ _ _ _ Hd Hs). destruct ds1; [done|]. by intros [= <- <-].
Qed.

Lemma scan_int_ext us rest i us' :
  delimited rest → scan_int us = Some (i, us') → scan_int (us ++ rest) = Some (i, us' ++ rest).
Proof.
  intros Hd. destruct us as [|[r bs] us]; [done|]. cbn [scan_int app]. destruct (r =? 48); [by intros [= <- <-]|].
  intros H. by apply (digits1_ext _ _ _ _ Hd) in H.
Qed.

Lemma scan_frac_ext us rest f us' :
  delimited rest → scan_frac us = Some (f, us') → scan_frac (us ++ rest) = Some (f, us' ++ rest).
Proof.
  intros Hd. destruct us as [|[r bs] us]; [intros [= <- <-]; by apply scan_tail|]. cbn [scan_frac app].
  destruct (r =? 46); [|by intros [= <- <-]]. destruct (digits1 us) as [[ds us1]|] eqn:H1; [|done].
  rewrite (digits1_ext _ _ _ _ Hd H1). by intros [= <- <-].
Qed.

Lemma scan_exp_ext us rest e us' :
  delimited rest → scan_exp us = Some (e, us') → scan_exp (us ++ rest) = Some (e, us' ++ rest).
Proof.
  intros Hd. destruct us as [|[r bs] us]; [intros [= <- <-]; by apply scan_tail|]. cbn [scan_exp app].
  destruct ((r =? 101) || (r =? 69)); [|by intros [= <- <-]].
  destruct us as [|[s b] us]; [done|]. cbn [app].
  destruct ((s =? 43) || (s =? 45)).
  - destruct (digits1 us) as [[ds us1]|] eqn:H1; [|done]. rewrite (digits1_ext _ _ _ _ Hd H1). by intros [= <- <-].
  - destruct (digits1 ((s, b) :: us)) as [[ds us1]|] eqn:H1; [|done].
    apply (digits1_ext _ rest _ _ Hd) in H1. cbn [app] in H1. rewrite H1. by intros [= <- <-].
Qed.

Lemma scan_number_ext us rest lit us' :
  delimited rest → scan_number us = Some (lit, us') → scan_number (us ++ rest) = Some (lit, us' ++ rest).
Proof.
  intros Hd. unfold scan_number. destruct us as [|[r bs] us]; [done|]. cbn [app].
  assert (∀ (sign : string) us1,
    match scan_int us1 with
    | Some (i, us) => match scan_frac us with
                      | Some (f, us) => match scan_exp us with
                                        | Some (e, us) => Some ((sign ++ i ++ f ++ e)%string, us)
                                        | None => None end
                      | None => None end
    | None => None end = Some (lit, us') →
    match scan_int (us1 ++ rest) with
    | Some (i, us) => match scan_frac us with
                      | Some (f, us) => match scan_exp us with
                                        | Some (e, us) => Some ((sign ++ i ++ f ++ e)%string, us)
                                        | None => None end
                      | None => None end
    | None => None end = Some (lit, us' ++ rest)) as Hparts.
  { intros sign us1. destruct (scan_int us1) as [[i us2]|] eqn:Hi; [|done]. rewrite (scan_int_ext _ _ _ _ Hd Hi).
    destruct (scan_frac us2) as [[f us3]|] eqn:Hf; [|done]. rewrite (scan_frac_ext _ _ _ _ Hd Hf).
    destruct (scan_exp us3) as [[e us4]|] eqn:He; [|done]. rewrite (scan_exp_ext _ _ _ _ Hd He). by intros [= <- <-]. }
  destruct (r =? 45); [apply Hparts|apply (Hparts ""%string ((r, bs) :: us))].
Qed.

Lemma scan_number_head us out : scan_number us = Some out → ∃ r bs us', us = (r, bs) :: us' ∧ (r = 45 ∨ 48 ≤ r ≤ 57).
Proof.
  unfold scan_number. destruct us as [|[r bs] us]; [done|]. intros H. exists r, bs, us. split; [done|].
  destruct (Z.eqb_spec r 45); [by left|]. right. cbn [scan_int] in H. destruct (Z.eqb_spec r 48); [lia|].
  unfold digits1 in H. cbn [span_digits] in H. destruct (is_digit r) eqn:Hd; [|done]. unfold is_digit in Hd. bool_to_prop. lia.
Qed.

Lemma reads_literal d lit : number_literal lit = true → reads d (JNum lit).
Proof.
  intros [Ha Hs%bool_decide_eq_true]%andb_true_iff.
  destruct (scan_number_head _ _ Hs) as (r & bs & us & Hu & Hr).
  assert (∀ rest, opens (units lit ++ rest)) as Ho.
  { intros rest. rewrite Hu. cbn [app]. apply opens_head; [|lia..]. rewrite !orb_false_iff, !Z.eqb_neq. lia. }
  split; cbn [marshal]; [by apply clean_ascii|done|]. intros rest Hd.
  pose proof (scan_number_ext _ rest _ _ Hd Hs) as Hx. pose proof (opens_skip _ (Ho rest)) as Hk. rewrite Hu in *.
  cbn [app] in *. assert (∀ k, k ≠ 45 → ¬ 48 ≤ k ≤ 57 → (r =? k) = false) as Hne.
  { intros k ? ?. apply Z.eqb_neq. lia. }
  destruct d; cbn [parse_value]; rewrite Hk, !Hne by lia; by rewrite Hx.
Qed.

(** ** A client's own encoding is read back

    How a client may write a request: the temperature as any number literal, or
    not at all; [stop] as a list, as a bare string or not at all; and whether it
    writes [max_tokens] and [stream].  The members come in the order the public
    schema lists them. *)

Inductive stop_form := StopList | StopString | StopAbsent.

Record spelling := {
  sp_temperature : option string; sp_stop : stop_form; sp_max_tokens : bool; sp_stream : bool }.

Definition plain : spelling :=
  {| sp_temperature := None; sp_stop := StopList; sp_max_tokens := true; sp_stream := true |}.

Definition stop_members (form : stop_form) (stop : list string) : list (string * json) :=
  match form with
  | StopList => [("stop"%string, JArr (map JStr stop))]
  | StopString => [("stop"%string, JStr (default ""%string (head stop)))]
  | StopAbsent => []
  end.

Definition request_json (sp : spelling) (r : chatRequest) : json :=
  JObj ([("model"%string, JStr (r_Model r));
         ("messages"%string, JArr (map (λ m, JObj [("role"%string, JStr (m_Role m));
                                                   ("content"%string, JStr (m_Content m))]) (r_Messages r)))]
        ++ match sp_temperature sp with Some lit => [("temperature"%string, JNum lit)] | None => [] end
        ++ (if sp_max_tokens sp then [("max_tokens"%string, JInt (r_MaxTokens r))] else [])
        ++ (if sp_stream sp then [("stream"%string, JBool (r_Stream r))] else [])
        ++ stop_members (sp_stop sp) (r_Stop r)).

(** The request is valid and is what this spelling can say: a member that is not
    written has its zero value, a bare stop string is a list of one. *)
Record client_request (sp : spelling) (r : chatRequest) : Prop := {
  cq_valid : validate r = None;
  cq_temp : match sp_temperature sp with
            | None => r_Temperature r = None
            | Some lit => number_literal lit = true ∧ ∃ x, ParseFloat32 lit = Some x ∧ r_Temperature r = Some x
            end;
  cq_max : in_int64 (r_MaxTokens r) ∧ (sp_max_tokens sp = false → r_MaxTokens r = 0);
  cq_stream : sp_stream sp = false → r_Stream r = false;
  cq_form : match sp_stop sp with
            | StopList => True | StopString => length (r_Stop r) = 1%nat | StopAbsent => r_Stop r = [] end;
  cq_model : valid_utf8 (r_Model r) = true;
  cq_messages : Forall (λ m, valid_utf8 (m_Role m) = true ∧ valid_utf8 (m_Content m) = true) (r_Messages r);
  cq_stop : Forall (λ s, valid_utf8 s = true) (r_Stop r)
}.

Lemma into_messages_json ms :
  into_elems (into_struct set_message_field) zero_message []
    (map (λ m, JObj [("role"%string, JStr (m_Role m)); ("content"%string, JStr (m_Content m))]) ms) = Some ms.
Proof. rewrite (into_elems_fresh _ _ _ id); [by rewrite map_id|]. by intros []. Qed.

Lemma into_stop_json l : into_elems into_string "" [] (map JStr l) = Some l.
Proof. rewrite (into_elems_fresh _ _ _ id); [by rewrite map_id|done]. Qed.

Lemma into_fields_app {A} (set : string → json → A → option A) ms ms' x y :
  into_fields set ms x = Some y → into_fields set (ms ++ ms') x = into_fields set ms' y.
Proof.
  revert x. induction ms as [|[k v] ms IH]; intros x; cbn [into_fields app]; [by intros [= ->]|].
  destruct (set k v x); [apply IH|done].
Qed.

(** What each group of members sets, on a request that has only the earlier ones. *)
Notation so_far m ms t n b := {| r_Model := m; r_Messages := ms; r_Temperature := t; r_MaxTokens := n; r_Stream := b; r_Stop := [] |}.

Lemma into_temperature sp r m ms :
  client_request sp r →
  into_fields set_request_field
    match sp_temperature sp with Some lit => [("temperature"%string, JNum lit)] | None => [] end
    (so_far m ms None 0 false) = Some (so_far m ms (r_Temperature r) 0 false).
Proof.
  intros [_ Ht _ _ _ _ _ _]. destruct (sp_temperature sp) as [lit|]; [|by rewrite Ht].
  destruct Ht as (_ & x & Hx & ->). cbn [into_fields].
  change (set_request_field "temperature" (JNum lit) (so_far m ms None 0 false)) with
    ((λ t, so_far m ms t 0 false) <$> into_float32_ptr (JNum lit)).
  unfold into_float32_ptr. by rewrite Hx.
Qed.

Lemma into_max_tokens sp r m ms t :
  client_request sp r →
  into_fields set_request_field (if sp_max_tokens sp then [("max_tokens"%string, JInt (r_MaxTokens r))] else [])
    (so_far m ms t 0 false) = Some (so_far m ms t (r_MaxTokens r) false).
Proof.
  intros [_ _ [Hm Hz] _ _ _ _ _]. destruct (sp_max_tokens sp); [|by rewrite Hz]. cbn [into_fields].
  change (set_request_field "max_tokens" (JInt (r_MaxTokens r)) (so_far m ms t 0 false)) with
    ((λ n, so_far m ms t n false) <$> into_int 0 (JInt (r_MaxTokens r))).
  by rewrite into_int_JInt.
Qed.

Lemma into_stream sp r m ms t n :
  client_request sp r →
  into_fields set_request_field (if sp_stream sp then [("stream"%string, JBool (r_Stream r))] else [])
    (so_far m ms t n false) = Some (so_far m ms t n (r_Stream r)).
Proof. intros [_ _ _ Hs _ _ _ _]. destruct (sp_stream sp); [done|by rewrite Hs]. Qed.

Lemma into_stops sp r m ms t n b :
  client_request sp r →
  into_fields set_request_field (stop_members (sp_stop sp) (r_Stop r)) (so_far m ms t n b) =
  Some {| r_Model := m; r_Messages := ms; r_Temperature := t; r_MaxTokens := n; r_Stream := b; r_Stop := r_Stop r |}.
Proof.
  intros [_ _ _ _ Hf _ _ _].
  assert (∀ v, set_request_field "stop" v (so_far m ms t n b) =
    (λ l, {| r_Model := m; r_Messages := ms; r_Temperature := t; r_MaxTokens := n; r_Stream := b; r_Stop := l |})
      <$> into_stop [] v) as Hset by done.
  destruct (sp_stop sp); cbn [stop_members into_fields].
  - rewrite Hset. cbn [into_stop]. by rewrite into_stop_json.
  - rewrite Hset. by destruct (r_Stop r) as [|x [|]].
  - by rewrite Hf.
Qed.

Lemma into_request_json sp r : client_request sp r → into_request (request_json sp r) = Some r.
Proof.
  intros Hc. unfold into_request, request_json, into_struct.
  rewrite (into_fields_app _ _ _ _ (so_far (r_Model r) (r_Messages r) None 0 false)).
  - rewrite (into_fields_app _ _ _ _ _ (into_temperature sp r _ _ Hc)).
    rewrite (into_fields_app _ _ _ _ _ (into_max_tokens sp r _ _ _ Hc)).
    rewrite (into_fields_app _ _ _ _ _ (into_stream sp r _ _ _ _ Hc)).
    rewrite (into_stops sp r _ _ _ _ _ Hc). by destruct r.
  - cbn [into_fields].
    change (set_request_field "model" (JStr (r_Model r)) zero_request) with (Some (so_far (r_Model r) [] None 0 false)).
    cbn beta iota. set (ms := map _ (r_Messages r)).
    change (set_request_field "messages" (JArr ms) (so_far (r_Model r) [] None 0 false)) with
      ((λ l, so_far (r_Model r) l None 0 false) <$> into_messages [] (JArr ms)).
    unfold into_messages. cbn [into_slice]. subst ms. by rewrite into_messages_json.
Qed.

Lemma messages_read d ms :
  Forall (λ m, valid_utf8 (m_Role m) = true ∧ valid_utf8 (m_Content m) = true) ms →
  reads (S (S d)) (JArr (map (λ m, JObj [("role"%string, JStr (m_Role m)); ("content"%string, JStr (m_Content m))]) ms)).
Proof.
  intros Hms. apply reads_arr, Forall_map. eapply Forall_impl; [exact Hms|]. intros m [Hr Hc].
  apply reads_obj. rewrite !Forall_cons, Forall_nil. split_and!; [done|by apply reads_str|done|by apply reads_str|done].
Qed.

(** The parser reads the text of the request as the members it was made of. *)
Lemma request_json_reads sp r d : client_request sp r → reads (S (S (S d))) (request_json sp r).
Proof.
  intros [_ Ht [Hm _] _ Hf Hmodel Hms Hst]. apply reads_obj. rewrite !Forall_app. split_and!.
  - rewrite !Forall_cons, Forall_nil. split_and!; [done|by apply reads_str|done|by apply messages_read|done].
  - destruct (sp_temperature sp) as [lit|]; [|done]. apply Forall_singleton. split; [done|]. apply reads_literal, Ht.
  - destruct (sp_max_tokens sp); [|done]. apply Forall_singleton. split; [done|]. by apply reads_num.
  - destruct (sp_stream sp); [|done]. apply Forall_singleton. split; [done|]. apply marshal_reads; [done|simpl; lia].
  - destruct (sp_stop sp); cbn [stop_members]; [| |done]; apply Forall_singleton; (split; [done|]).
    + apply reads_arr, Forall_map. eapply Forall_impl; [exact Hst|]. intros x Hx. by apply reads_str.
    + apply reads_str. by destruct Hst.
Qed.

Lemma first_bytes_all s n : Z.of_nat (String.length s) ≤ n → first_bytes n s = s.
Proof.
  revert n. induction s as [|c s IH]; intros n Hn; simpl in *; [done|].
  destruct (Z.ltb_spec 0 n); [|lia]. f_equal. apply IH. lia.
Qed.

(** C39: a valid request is read as it was written.  A client may write the
    temperature as any JSON number literal that a float32 can hold, with a
    fraction or an exponent, or leave it out; [stop] as a list, as a bare string
    or not at all; and leave out a zero [max_tokens] and a false [stream].
    [decode] returns the request with those very texts, numbers and flags, its
    temperature the float32 nearest to the literal.  The request is one that
    passes [validate], its texts are UTF-8 and its [max_tokens] fits 64 bits; the
    members are in the schema's order, with its names and without white space or
    a second value after them, the strings are escaped as Go's encoder does it,
    and the body has at most a megabyte under an absent or a JSON content type. *)
Theorem decode_round_trip (sp : spelling) (r : chatRequest) (contentType : string) (limited : bool)
    (client : client_request sp r)
    (small : Z.of_nat (String.length (marshal (request_json sp r))) ≤ maxRequestBytes)
    (json_type : contentType = ""%string ∨ String.prefix "application/json" contentType = true) :
  decode contentType (marshal (request_json sp r)) limited = Ok r.
Proof.
  unfold decode. rewrite first_bytes_all by done.
  replace (bool_decide (contentType ≠ ""%string) && negb (String.prefix "application/json" contentType)) with false.
  2:{ destruct json_type as [-> | ->]; [done|by rewrite andb_comm]. }
  assert (parse_first (marshal (request_json sp r)) = Some (request_json sp r)) as ->.
  { unfold parse_first. assert (∃ d, maxNestingDepth = S (S (S d))) as [d ->].
    { pose proof (shallow 3 ltac:(lia)) as H3. exists (maxNestingDepth - 3)%nat. lia. }
    pose proof (rd_parse _ _ (request_json_reads sp r d client) [] I) as Hp.
    rewrite app_nil_r in Hp. by rewrite Hp. }
  rewrite into_request_json by done. by rewrite (cq_valid _ _ client).
Qed.

Definition demo_client : chatRequest :=
  {| r_Model := "gpt-4o"; r_Messages := [{| m_Role := "user"; m_Content := "say hi" |}];
     r_Temperature := Some (f32_frombits 1060320051); r_MaxTokens := 0; r_Stream := true; r_Stop := ["END"%string] |}.
Definition demo_spelling : spelling :=
  {| sp_temperature := Some "7.0e-1"%string; sp_stop := StopString; sp_max_tokens := false; sp_stream := true |}.

Lemma decode_round_trip_witness :
  decode "application/json; charset=utf-8" (marshal (request_json demo_spelling demo_client)) false = Ok demo_client.
Proof.
  apply decode_round_trip.
  - split.
    + vm_compute. reflexivity.
    + split; [vm_compute; reflexivity|]. exists (f32_frombits 1060320051). split; vm_compute; reflexivity.
    + split; [split; vm_compute; discriminate|]. intros _. reflexivity.
    + discriminate.
    + reflexivity.
    + vm_compute. reflexivity.
    + constructor; [|constructor]. split; vm_compute; reflexivity.
    + constructor; [|constructor]. vm_compute. reflexivity.
  - vm_compute. discriminate.
  - right. reflexivity.
Defined.

(** What the decoder refuses: an unknown field, a fraction where an integer is
    meant, a string where a list is meant; and [stop] in both spellings. *)
Definition q : string := quote.
Definition demo_body (member : string) : string :=
  "{" ++ q ++ "model" ++ q ++ ":" ++ q ++ "m" ++ q ++ "," ++ q ++ "MESSAGES" ++ q ++ ":[{" ++ q ++ "role" ++ q
  ++ ":" ++ q ++ "user" ++ q ++ "}]," ++ member ++ "} trailing".
Example decode_demo :
  decode "" (demo_body (q ++ "max_token" ++ q ++ ":5")) false = Err BadJSON ∧
  decode "" (demo_body (q ++ "max_tokens" ++ q ++ ":5.0")) false = Err BadJSON ∧
  decode "" (demo_body (q ++ "max_tokens" ++ q ++ ":-5")) false = Err (Invalid NegativeMaxTokens) ∧
  decode "text/plain" (demo_body (q ++ "max_tokens" ++ q ++ ":5")) false = Err WrongContentType ∧
  map (λ stop, match decode "" (demo_body (q ++ "stop" ++ q ++ ":" ++ stop)) false with
               | Ok r => r_Stop r | Err _ => [] end)
    [q ++ "a" ++ q; "[" ++ q ++ "a" ++ q ++ "]"]%string = [["a"%string]; ["a"%string]].
Proof. split_and!; vm_compute; reflexivity. Qed.
