(* ===== verification/Http.v ===== *)
(** * internal/provider: configuration, HTTP mechanics and JSON shared by the adapters

    provider.go ([Config], [base], [validateConfig], the ping request), http.go
    ([postJSON], [openStream], [readStreamError], [parseRetryAfter],
    [truncateMessage]) and the decoding of a JSON body into a struct whose
    unknown fields are ignored.  The network is a parameter: what becomes of
    one request.  [http.ParseTime] is a parameter too. *)

From S2P Require Import Prelude Text Json Float32 Provider Wire Sse Decode.

(** ** Configuration *)

Record Config := {
  cf_Name : string; cf_Type : string; cf_BaseURL : string; cf_APIKey : string; cf_Timeout : Z;
  cf_Models : list string; cf_DefaultMaxTokens : Z; cf_PingModel : string }.

Inductive config_error := NameRequired | BaseURLRequired | TimeoutNotPositive | NoModels | MaxTokensNotPositive.

Definition validateConfig (cfg : Config) : option config_error :=
  if bool_decide (cf_Name cfg = ""%string) then Some NameRequired
  else if bool_decide (cf_BaseURL cfg = ""%string) then Some BaseURLRequired
  else if cf_Timeout cfg <=? 0 then Some TimeoutNotPositive
  else if bool_decide (cf_Models cfg = []) then Some NoModels
  else if cf_DefaultMaxTokens cfg <=? 0 then Some MaxTokensNotPositive
  else None.

(** [base]: the configuration and its models as a set. *)
Record base := { bs_cfg : Config; bs_models : gset string }.

Definition newBase (cfg : Config) : result config_error base :=
  match validateConfig cfg with
  | Some e => Err e
  | None => Ok {| bs_cfg := cfg; bs_models := list_to_set (cf_Models cfg) |}
  end.

Definition SupportsModel (b : base) (model : string) : bool := bool_decide (model ∈ bs_models b).

Definition pingModel (b : base) : option string :=
  if bool_decide (cf_PingModel (bs_cfg b) ≠ ""%string) then Some (cf_PingModel (bs_cfg b))
  else head (cf_Models (bs_cfg b)).

Definition pingRequest (model : string) : Request :=
  {| pr_Model := model; pr_Messages := [{| pm_Role := Role_string RoleUser; pm_Content := "ping" |}];
     pr_Temperature := None; pr_MaxTokens := 1; pr_Stream := false; pr_Stop := [] |}.

Definition malformedResponse (providerName model message : string) : Error :=
  {| e_Kind := KindServerError; e_Provider := providerName; e_Model := model; e_StatusCode := 0;
     e_Retryable := true; e_RetryAfter := 0; e_Message := message |}.

(** ** Messages copied from a provider *)

Definition maxErrorMessageBytes : Z := 256.

(** [strings.ToValidUTF8(s, "")] *)
Definition invalid_unit (u : Z * string) : bool := (u.1 =? RuneError) && (String.length u.2 =? 1)%nat.
Definition ToValidUTF8 (s : string) : string := cat (map snd (keep (λ u, negb (invalid_unit u)) (units s))).

Definition ellipsis : string := encode_rune 8230.

Definition truncateMessage (s : string) : string :=
  let s := trim_space s in
  if Z.of_nat (String.length s) <=? maxErrorMessageBytes then s
  else ToValidUTF8 (first_bytes maxErrorMessageBytes s) ++ ellipsis.

(** ** Requests and replies *)

Record http_call := { hc_url : string; hc_headers : list (string * string); hc_body : string }.

(** [http.NewRequestWithContext] refuses the URL; the call fails before a response
    ([context.DeadlineExceeded], a timed out [net.Error], or neither); or a response comes, with its body up to where
    reading it failed, if it did. *)
Inductive http_outcome :=
| NotBuilt
| Unreachable (deadline netTimeout : bool)
| Responded (status : Z) (retryAfter body : string) (cut : option (bool * bool)).

Definition maxResponseBytes : Z := 10 * 2 ^ 20.

(** [io.ReadAll] of a [LimitReader]: an error beyond the limit is not seen. *)
Definition readBody (body : string) (cut : option (bool * bool)) : result (bool * bool) string :=
  match cut with
  | Some e => if Z.of_nat (String.length body) <? maxResponseBytes then Err e else Ok (first_bytes maxResponseBytes body)
  | None => Ok (first_bytes maxResponseBytes body)
  end.

Definition transport (cfg : Config) (model : string) (e : bool * bool) : go_error :=
  ProviderError (NewTransportError (cf_Name cfg) model e.1 e.2).

Definition building_failed (cfg : Config) : go_error := OtherError ("building request for " ++ cf_Name cfg).

Record httpResult := { hr_Status : Z; hr_RetryAfter : string; hr_Body : string }.

Definition postJSON (cfg : Config) (model : string) (o : http_outcome) : result go_error httpResult :=
  match o with
  | NotBuilt => Err (building_failed cfg)
  | Unreachable d n => Err (transport cfg model (d, n))
  | Responded status ra body cut =>
      match readBody body cut with
      | Err e => Err (transport cfg model e)
      | Ok b => Ok {| hr_Status := status; hr_RetryAfter := ra; hr_Body := b |}
      end
  end.

Section retry_after.
Context (ParseTime : string → option Z).

Definition parseRetryAfter (header : string) (now : Z) : Z :=
  let header := trim_space header in
  if bool_decide (header = ""%string) then 0
  else match ParseInt header with
       | (secs, None) => if secs <=? 0 then 0 else wrap64 (secs * second)
       | _ => match ParseTime header with
              | Some t => if 0 <? t - now then t - now else 0
              | None => 0
              end
       end.

Definition with_retry_after (e : Error) (header : string) (now : Z) : Error :=
  {| e_Kind := e_Kind e; e_Provider := e_Provider e; e_Model := e_Model e; e_StatusCode := e_StatusCode e;
     e_Retryable := e_Retryable e; e_RetryAfter := parseRetryAfter header now; e_Message := e_Message e |}.

(** [readStreamError] *)
Definition readStreamError (cfg : Config) (model : string) (classify : string → Z → string → Error)
    (status : Z) (ra body : string) (cut : option (bool * bool)) (now : Z) : go_error :=
  match readBody body cut with
  | Err e => transport cfg model e
  | Ok b => ProviderError (with_retry_after (classify model status b) ra now)
  end.
End retry_after.

Definition with_kind (k : Kind) (retryable : bool) (e : Error) : Error :=
  {| e_Kind := k; e_Provider := e_Provider e; e_Model := e_Model e; e_StatusCode := e_StatusCode e;
     e_Retryable := retryable; e_RetryAfter := e_RetryAfter e; e_Message := e_Message e |}.

(** [strings.TrimSuffix(s, "/")] *)
Fixpoint trim_slash (s : string) : string :=
  match s with
  | EmptyString => EmptyString
  | String c EmptyString => if bool_decide (c = chr 47) then EmptyString else s
  | String c s' => String c (trim_slash s')
  end.

(** ** json.Unmarshal

    Fields a struct does not have are skipped; a field is found without regard
    to case. *)
Definition setters (A : Type) : Type := list (string * (json → A → option A)).

Fixpoint set_field {A} (fs : setters A) (k : string) (v : json) (x : A) : option A :=
  match fs with
  | [] => Some x
  | (name, set) :: fs' => if same_field name k then set v x else set_field fs' k v x
  end.

Definition unmarshal {A} (fs : setters A) (zero : A) (body : string) : option A :=
  match parse body with Some v => into_struct (set_field fs) zero v | None => None end.

(** A field of type [B] with its getter and its setter. *)
Definition field {A B} (into : B → json → option B) (get : A → B) (put : B → A → A) : json → A → option A :=
  λ v x, match into (get x) v with Some b => Some (put b x) | None => None end.

Definition into_pointer {A} (into : A → json → option A) (zero : A) (old : option A) (v : json) : option (option A) :=
  match v with
  | JNull => Some None
  | _ => match into (default zero old) v with Some x => Some (Some x) | None => None end
  end.

(** An [omitempty] field. *)
Definition omit {A} (empty : bool) (name : string) (v : A → json) (x : A) : list (string * json) :=
  if empty then [] else [(name, v x)].

Definition is_nil {A} (l : list A) : bool := match l with [] => true | _ => false end.
Definition strings_json (l : list string) : json := JArr (map JStr l).
