(* ===== verification/Adapters.v ===== *)
(** * The provider adapters: internal/provider's openai.go, anthropic.go, gemini.go, ollama.go

    One module per wire dialect: the request it sends, how it reads a response,
    a stream event and an error body.  The mechanics the four share ([Complete],
    [Stream], [Ping]) are written once over a record of those parts; the four
    adapters are its values.  [fmt32] is how [encoding/json] prints a float32. *)

From S2P Require Import Prelude Text Json Float32 Provider Wire Sse Decode Router Http.

(** A running stream reader. *)
Inductive reader :=
| SSEReader (D : Type) (decode : D → sseEvent → decoded * D) (d : D) (r : scanner)
| NDJSONReader (decode : string → decoded) (r : scanner).

Record dialect := {
  dl_url : Config → string → bool → string;
  dl_headers : Config → list (string * string);
  dl_request : Config → Request → bool → json;
  dl_response : Config → string → string → Z → result go_error Response;
  dl_classify : Config → string → Z → string → Error;
  dl_reader : Config → string → scanner → reader
}.

Definition stateless {D} (decode : sseEvent → decoded) : D → sseEvent → decoded * D := λ d ev, (decode ev, d).

Definition max_tokens (cfg : Config) (req : Request) : Z :=
  if pr_MaxTokens req =? 0 then cf_DefaultMaxTokens cfg else pr_MaxTokens req.

Definition served_model (echoed model : string) : string :=
  if bool_decide (echoed = ""%string) then model else echoed.

(** The message of an error body, or the body itself. *)
Definition error_message (field body : string) : string :=
  let m := truncateMessage field in if bool_decide (m = ""%string) then truncateMessage body else m.

Definition malformed {A} (cfg : Config) (model message : string) : result go_error A :=
  Err (ProviderError (malformedResponse (cf_Name cfg) model message)).

Definition decoding_failed (cfg : Config) : go_error := OtherError ("decoding " ++ cf_Name cfg ++ " stream").

Definition is_system (m : Message) : bool := bool_decide (pm_Role m = Role_string RoleSystem).
Definition system_prompt (req : Request) : string :=
  Join (map pm_Content (keep is_system (pr_Messages req))) (LF_string ++ LF_string).
Definition spoken (req : Request) : list Message := keep (λ m, negb (is_system m)) (pr_Messages req).

Definition message_json (m : Message) : json :=
  JObj [("role"%string, JStr (pm_Role m)); ("content"%string, JStr (pm_Content m))].

(** A message of a reply, its role and its content, as OpenAI and Ollama write it. *)
Definition message_fields : setters (string * string) :=
  [("role"%string, field into_string fst (λ s x, (s, x.2)));
   ("content"%string, field into_string snd (λ s x, (x.1, s)))].

Definition auth_header (name prefix key : string) : list (string * string) :=
  if bool_decide (key = ""%string) then [] else [(name, (prefix ++ key)%string)].

Definition temperature_field (fmt32 : float32 → string) (t : option float32) : list (string * json) :=
  match t with Some x => [("temperature"%string, JNum (fmt32 x))] | None => [] end.

(** ** OpenAI's dialect *)
Module OpenAI.
Record choice := { co_message : string * string; co_finish : string }.
Record response := { re_model : string; re_choices : list choice; re_prompt : Z; re_completion : Z }.
Record envelope := { en_message : string; en_type : string; en_code : string }.

Definition translateRequest (fmt32 : float32 → string) (cfg : Config) (req : Request) (stream : bool) : json :=
  JObj ([("model"%string, JStr (pr_Model req)); ("messages"%string, JArr (map message_json (pr_Messages req)))]
        ++ omit (max_tokens cfg req =? 0) "max_tokens" JInt (max_tokens cfg req)
        ++ temperature_field fmt32 (pr_Temperature req)
        ++ omit (is_nil (pr_Stop req)) "stop" strings_json (pr_Stop req)
        ++ omit (negb stream) "stream" JBool stream
        ++ (if stream then [("stream_options"%string, JObj [("include_usage"%string, JBool true)])] else [])).

Definition finishReason (s : string) : FinishReason :=
  if bool_decide (s = "stop"%string) then FinishStop
  else if bool_decide (s = "length"%string) then FinishLength
  else if bool_decide (s = "content_filter"%string) then FinishContentFilter
  else FinishOther.

Definition choice_fields : setters choice :=
  [("message"%string, field (into_struct (set_field message_fields)) co_message
      (λ m x, {| co_message := m; co_finish := co_finish x |}));
   ("finish_reason"%string, field into_string co_finish (λ s x, {| co_message := co_message x; co_finish := s |}))].

Definition usage_fields : setters (Z * Z) :=
  [("prompt_tokens"%string, field into_int fst (λ n x, (n, x.2)));
   ("completion_tokens"%string, field into_int snd (λ n x, (x.1, n)))].

Definition zero_choice : choice := {| co_message := ("", "")%string; co_finish := "" |}.
Definition zero_response : response := {| re_model := ""; re_choices := []; re_prompt := 0; re_completion := 0 |}.

Definition response_fields : setters response :=
  [("model"%string, field into_string re_model
      (λ s x, {| re_model := s; re_choices := re_choices x; re_prompt := re_prompt x; re_completion := re_completion x |}));
   ("choices"%string, field (into_slice (into_struct (set_field choice_fields)) zero_choice) re_choices
      (λ l x, {| re_model := re_model x; re_choices := l; re_prompt := re_prompt x; re_completion := re_completion x |}));
   ("usage"%string, field (into_struct (set_field usage_fields)) (λ x, (re_prompt x, re_completion x))
      (λ u x, {| re_model := re_model x; re_choices := re_choices x; re_prompt := u.1; re_completion := u.2 |}))].

Definition translateResponse (cfg : Config) (model raw : string) (latency : Z) : result go_error Response :=
  match unmarshal response_fields zero_response raw with
  | None => malformed cfg model "upstream returned a body that is not valid chat-completion JSON"
  | Some out =>
      match re_choices out with
      | [] => malformed cfg model "upstream returned no choices"
      | c :: _ =>
          Ok {| rs_Content := (co_message c).2; rs_FinishReason := finishReason (co_finish c);
                rs_Usage := {| u_InputTokens := re_prompt out; u_OutputTokens := re_completion out |};
                rs_Model := served_model (re_model out) model; rs_Provider := cf_Name cfg; rs_Latency := latency |}
      end
  end.

(** A delta's [finish_reason] is a pointer: null until the last one. *)
Record delta := { de_content : string; de_finish : option string }.
Record stream_chunk := { sk_choices : list delta; sk_usage : option (Z * Z) }.

Definition content_of : setters string := [("content"%string, field into_string id (λ s _, s))].

Definition delta_fields : setters delta :=
  [("delta"%string, field (into_struct (set_field content_of)) de_content
      (λ s x, {| de_content := s; de_finish := de_finish x |}));
   ("finish_reason"%string, field (into_pointer into_string "") de_finish
      (λ s x, {| de_content := de_content x; de_finish := s |}))].

Definition chunk_fields : setters stream_chunk :=
  [("choices"%string, field (into_slice (into_struct (set_field delta_fields)) {| de_content := ""; de_finish := None |})
      sk_choices (λ l x, {| sk_choices := l; sk_usage := sk_usage x |}));
   ("usage"%string, field (into_pointer (into_struct (set_field usage_fields)) (0, 0)) sk_usage
      (λ u x, {| sk_choices := sk_choices x; sk_usage := u |}))].

Definition decodeStreamEvent (cfg : Config) (ev : sseEvent) : decoded :=
  let data := trim_space (ev_Data ev) in
  if bool_decide (data = ""%string) then Ok (None, false)
  else if bool_decide (data = "[DONE]"%string) then Ok (None, true)
  else match unmarshal chunk_fields {| sk_choices := []; sk_usage := None |} data with
       | None => Err (decoding_failed cfg)
       | Some wire =>
           let usage := match sk_usage wire with
                        | Some u => Some {| u_InputTokens := u.1; u_OutputTokens := u.2 |} | None => None end in
           Ok (Some match sk_choices wire with
                    | [] => {| ch_Content := ""; ch_FinishReason := ""; ch_Usage := usage |}
                    | c :: _ => {| ch_Content := de_content c;
                                   ch_FinishReason := match de_finish c with Some s => finishReason s | None => ""%string end;
                                   ch_Usage := usage |}
                    end, false)
       end.

Definition envelope_fields : setters envelope :=
  [("message"%string, field into_string en_message (λ s x, {| en_message := s; en_type := en_type x; en_code := en_code x |}));
   ("type"%string, field into_string en_type (λ s x, {| en_message := en_message x; en_type := s; en_code := en_code x |}));
   ("code"%string, field into_string en_code (λ s x, {| en_message := en_message x; en_type := en_type x; en_code := s |}))].
Definition no_envelope : envelope := {| en_message := ""; en_type := ""; en_code := "" |}.
Definition error_fields : setters envelope :=
  [("error"%string, field (into_struct (set_field envelope_fields)) id (λ e _, e))].

Definition classify (cfg : Config) (model : string) (status : Z) (body : string) : Error :=
  let env := default no_envelope (unmarshal error_fields no_envelope body) in
  let e := NewHTTPError (cf_Name cfg) model status (error_message (en_message env) body) in
  if bool_decide (en_code env = "content_filter"%string) || bool_decide (en_type env = "content_filter"%string)
  then with_kind KindContentPolicy false e
  else if bool_decide (en_type env = "insufficient_quota"%string) then with_kind (e_Kind e) false e
  else e.

Definition adapter (fmt32 : float32 → string) : dialect := {|
  dl_url cfg _ _ := (trim_slash (cf_BaseURL cfg) ++ "/chat/completions")%string;
  dl_headers cfg := auth_header "Authorization" "Bearer " (cf_APIKey cfg);
  dl_request := translateRequest fmt32;
  dl_response := translateResponse;
  dl_classify := classify;
  dl_reader cfg _ r := SSEReader unit (stateless (decodeStreamEvent cfg)) tt r
|}.
End OpenAI.

(** ** Anthropic's dialect

    The system prompt is a field of its own, and a stream is a sequence of named
    events. *)
Module Anthropic.
Definition anthropicVersion : string := "2023-06-01".

Definition translateRequest (fmt32 : float32 → string) (cfg : Config) (req : Request) (stream : bool) : json :=
  JObj ([("model"%string, JStr (pr_Model req)); ("messages"%string, JArr (map message_json (spoken req)));
         ("max_tokens"%string, JInt (max_tokens cfg req))]
        ++ omit (bool_decide (system_prompt req = ""%string)) "system" JStr (system_prompt req)
        ++ temperature_field fmt32 (pr_Temperature req)
        ++ omit (is_nil (pr_Stop req)) "stop_sequences" strings_json (pr_Stop req)
        ++ omit (negb stream) "stream" JBool stream).

Record block := { bk_type : string; bk_text : string }.
Record response := { re_model : string; re_content : list block; re_stop : string; re_input : Z; re_output : Z }.

Definition block_fields : setters block :=
  [("type"%string, field into_string bk_type (λ s x, {| bk_type := s; bk_text := bk_text x |}));
   ("text"%string, field into_string bk_text (λ s x, {| bk_type := bk_type x; bk_text := s |}))].
Definition zero_block : block := {| bk_type := ""; bk_text := "" |}.

Definition usage_fields : setters (Z * Z) :=
  [("input_tokens"%string, field into_int fst (λ n x, (n, x.2)));
   ("output_tokens"%string, field into_int snd (λ n x, (x.1, n)))].

Definition zero_response : response := {| re_model := ""; re_content := []; re_stop := ""; re_input := 0; re_output := 0 |}.

Definition response_fields : setters response :=
  [("model"%string, field into_string re_model
      (λ s x, {| re_model := s; re_content := re_content x; re_stop := re_stop x; re_input := re_input x; re_output := re_output x |}));
   ("content"%string, field (into_slice (into_struct (set_field block_fields)) zero_block) re_content
      (λ l x, {| re_model := re_model x; re_content := l; re_stop := re_stop x; re_input := re_input x; re_output := re_output x |}));
   ("stop_reason"%string, field into_string re_stop
      (λ s x, {| re_model := re_model x; re_content := re_content x; re_stop := s; re_input := re_input x; re_output := re_output x |}));
   ("usage"%string, field (into_struct (set_field usage_fields)) (λ x, (re_input x, re_output x))
      (λ u x, {| re_model := re_model x; re_content := re_content x; re_stop := re_stop x; re_input := u.1; re_output := u.2 |}))].

Definition finishReason (s : string) : FinishReason :=
  if bool_decide (s = "end_turn"%string) || bool_decide (s = "stop_sequence"%string) then FinishStop
  else if bool_decide (s = "max_tokens"%string) then FinishLength
  else if bool_decide (s = "refusal"%string) then FinishContentFilter
  else FinishOther.

Definition is_text (b : block) : bool := bool_decide (bk_type b = "text"%string).

Definition translateResponse (cfg : Config) (model raw : string) (latency : Z) : result go_error Response :=
  match unmarshal response_fields zero_response raw with
  | None => malformed cfg model "upstream returned a body that is not a valid message"
  | Some out =>
      if is_nil (re_content out) then malformed cfg model "upstream returned no content blocks"
      else Ok {| rs_Content := cat (map bk_text (keep is_text (re_content out)));
                 rs_FinishReason := finishReason (re_stop out);
                 rs_Usage := {| u_InputTokens := re_input out; u_OutputTokens := re_output out |};
                 rs_Model := served_model (re_model out) model; rs_Provider := cf_Name cfg; rs_Latency := latency |}
  end.

(** The events: each type is the part of the JSON that is read. *)
Definition input_fields : setters Z := [("input_tokens"%string, field into_int id (λ n _, n))].
Definition start_message_fields : setters Z :=
  [("usage"%string, field (into_struct (set_field input_fields)) id (λ n _, n))].
Definition start_fields : setters Z :=
  [("message"%string, field (into_struct (set_field start_message_fields)) id (λ n _, n))].
Definition block_delta_fields : setters block :=
  [("delta"%string, field (into_struct (set_field block_fields)) id (λ b _, b))].
Definition stop_reason_fields : setters string := [("stop_reason"%string, field into_string id (λ s _, s))].
Definition output_fields : setters Z := [("output_tokens"%string, field into_int id (λ n _, n))].
Definition message_delta_fields : setters (string * Z) :=
  [("delta"%string, field (into_struct (set_field stop_reason_fields)) fst (λ s x, (s, x.2)));
   ("usage"%string, field (into_struct (set_field output_fields)) snd (λ n x, (x.1, n)))].

Record envelope := { en_type : string; en_message : string }.
Definition envelope_fields : setters envelope :=
  [("type"%string, field into_string en_type (λ s x, {| en_type := s; en_message := en_message x |}));
   ("message"%string, field into_string en_message (λ s x, {| en_type := en_type x; en_message := s |}))].
Definition no_envelope : envelope := {| en_type := ""; en_message := "" |}.
Definition error_fields : setters envelope :=
  [("error"%string, field (into_struct (set_field envelope_fields)) id (λ e _, e))].

(** The closure's [inputTokens] is carried from one event to the next. *)
Definition streamDecoder (cfg : Config) (model : string) (inputTokens : Z) (ev : sseEvent) : decoded * Z :=
  let data := trim_space (ev_Data ev) in
  if bool_decide (data = ""%string) then (Ok (None, false), inputTokens)
  else if bool_decide (ev_Event ev = "message_start"%string) then
    match unmarshal start_fields 0 data with
    | None => (Err (decoding_failed cfg), inputTokens)
    | Some n => (Ok (None, false), n)
    end
  else if bool_decide (ev_Event ev = "content_block_delta"%string) then
    (match unmarshal block_delta_fields zero_block data with
     | None => Err (decoding_failed cfg)
     | Some b => if bool_decide (bk_type b ≠ "text_delta"%string) then Ok (None, false)
                 else Ok (Some {| ch_Content := bk_text b; ch_FinishReason := ""; ch_Usage := None |}, false)
     end, inputTokens)
  else if bool_decide (ev_Event ev = "message_delta"%string) then
    (match unmarshal message_delta_fields (""%string, 0) data with
     | None => Err (decoding_failed cfg)
     | Some (stop, output) =>
         Ok (Some {| ch_Content := "";
                     ch_FinishReason := if bool_decide (stop = ""%string) then ""%string else finishReason stop;
                     ch_Usage := Some {| u_InputTokens := inputTokens; u_OutputTokens := output |} |}, false)
     end, inputTokens)
  else if bool_decide (ev_Event ev = "message_stop"%string) then (Ok (None, true), inputTokens)
  else if bool_decide (ev_Event ev = "error"%string) then
    (let env := default no_envelope (unmarshal error_fields no_envelope data) in
     Err (ProviderError {| e_Kind := KindServerError; e_Provider := cf_Name cfg; e_Model := model; e_StatusCode := 0;
                           e_Retryable := true; e_RetryAfter := 0; e_Message := truncateMessage (en_message env) |}),
     inputTokens)
  else (Ok (None, false), inputTokens).

Definition classify (cfg : Config) (model : string) (status : Z) (body : string) : Error :=
  let env := default no_envelope (unmarshal error_fields no_envelope body) in
  let e := NewHTTPError (cf_Name cfg) model status (error_message (en_message env) body) in
  if bool_decide (en_type env = "overloaded_error"%string) then with_kind KindServerError true e else e.

Definition adapter (fmt32 : float32 → string) : dialect := {|
  dl_url cfg _ _ := (trim_slash (cf_BaseURL cfg) ++ "/messages")%string;
  dl_headers cfg := ("anthropic-version"%string, anthropicVersion) :: auth_header "x-api-key" "" (cf_APIKey cfg);
  dl_request := translateRequest fmt32;
  dl_response := translateResponse;
  dl_classify := classify;
  dl_reader cfg model r := SSEReader Z (streamDecoder cfg model) 0 r
|}.
End Anthropic.

(** ** Gemini's dialect *)
Module Gemini.
(** [url.PathEscape] *)
Definition upper_hex (d : Z) : Ascii.ascii := chr (if d <? 10 then 48 + d else 55 + d).
Definition path_safe (z : Z) : bool :=
  (48 <=? z) && (z <=? 57) || (65 <=? z) && (z <=? 90) || (97 <=? z) && (z <=? 122) ||
  bool_decide (z ∈ [45; 95; 46; 126; 36; 38; 43; 61; 58; 64]).
Fixpoint PathEscape (s : string) : string :=
  match s with
  | EmptyString => EmptyString
  | String c s' =>
      if path_safe (byte c) then String c (PathEscape s')
      else String (chr 37) (String (upper_hex (byte c / 16)) (String (upper_hex (byte c mod 16)) (PathEscape s')))
  end.

Definition endpoint (cfg : Config) (model : string) (stream : bool) : string :=
  trim_slash (cf_BaseURL cfg) ++ "/models/" ++ PathEscape model ++
  (if stream then ":streamGenerateContent?alt=sse" else ":generateContent").

Definition geminiRole (r : string) : string :=
  if bool_decide (r = Role_string RoleAssistant) then "model" else r.

Definition content_json (role text : string) : json :=
  JObj (omit (bool_decide (role = ""%string)) "role" JStr role
        ++ [("parts"%string, JArr [JObj [("text"%string, JStr text)]])]).

Definition translateRequest (fmt32 : float32 → string) (cfg : Config) (req : Request) (_ : bool) : json :=
  JObj ([("contents"%string, JArr (map (λ m, content_json (geminiRole (pm_Role m)) (pm_Content m)) (spoken req)))]
        ++ omit (is_nil (keep is_system (pr_Messages req))) "systemInstruction" (content_json "") (system_prompt req)
        ++ [("generationConfig"%string,
             JObj (temperature_field fmt32 (pr_Temperature req)
                   ++ omit (max_tokens cfg req =? 0) "maxOutputTokens" JInt (max_tokens cfg req)
                   ++ omit (is_nil (pr_Stop req)) "stopSequences" strings_json (pr_Stop req)))]).

Record candidate := { ca_role : string; ca_parts : list string; ca_finish : string }.
Record response := {
  re_candidates : list candidate; re_blockReason : string; re_prompt : Z; re_output : Z; re_version : string }.

Definition part_fields : setters string := [("text"%string, field into_string id (λ s _, s))].
Definition content_fields : setters (string * list string) :=
  [("role"%string, field into_string fst (λ s x, (s, x.2)));
   ("parts"%string, field (into_slice (into_struct (set_field part_fields)) ""%string) snd (λ l x, (x.1, l)))].
Definition candidate_fields : setters candidate :=
  [("content"%string, field (into_struct (set_field content_fields)) (λ x, (ca_role x, ca_parts x))
      (λ c x, {| ca_role := c.1; ca_parts := c.2; ca_finish := ca_finish x |}));
   ("finishReason"%string, field into_string ca_finish
      (λ s x, {| ca_role := ca_role x; ca_parts := ca_parts x; ca_finish := s |}))].
Definition feedback_fields : setters string := [("blockReason"%string, field into_string id (λ s _, s))].
Definition usage_fields : setters (Z * Z) :=
  [("promptTokenCount"%string, field into_int fst (λ n x, (n, x.2)));
   ("candidatesTokenCount"%string, field into_int snd (λ n x, (x.1, n)))].

Definition zero_candidate : candidate := {| ca_role := ""; ca_parts := []; ca_finish := "" |}.
Definition zero_response : response :=
  {| re_candidates := []; re_blockReason := ""; re_prompt := 0; re_output := 0; re_version := "" |}.

Definition response_fields : setters response :=
  [("candidates"%string, field (into_slice (into_struct (set_field candidate_fields)) zero_candidate) re_candidates
      (λ l x, {| re_candidates := l; re_blockReason := re_blockReason x; re_prompt := re_prompt x;
                 re_output := re_output x; re_version := re_version x |}));
   ("promptFeedback"%string, field (into_struct (set_field feedback_fields)) re_blockReason
      (λ s x, {| re_candidates := re_candidates x; re_blockReason := s; re_prompt := re_prompt x;
                 re_output := re_output x; re_version := re_version x |}));
   ("usageMetadata"%string, field (into_struct (set_field usage_fields)) (λ x, (re_prompt x, re_output x))
      (λ u x, {| re_candidates := re_candidates x; re_blockReason := re_blockReason x; re_prompt := u.1;
                 re_output := u.2; re_version := re_version x |}));
   ("modelVersion"%string, field into_string re_version
      (λ s x, {| re_candidates := re_candidates x; re_blockReason := re_blockReason x; re_prompt := re_prompt x;
                 re_output := re_output x; re_version := s |}))].

Definition finishReason (s : string) : FinishReason :=
  if bool_decide (s = "STOP"%string) then FinishStop
  else if bool_decide (s = "MAX_TOKENS"%string) then FinishLength
  else if bool_decide (s ∈ ["SAFETY"; "RECITATION"; "BLOCKLIST"; "PROHIBITED_CONTENT"; "SPII"]%string)
  then FinishContentFilter
  else FinishOther.

Definition blocked (cfg : Config) (model reason : string) : go_error :=
  ProviderError {| e_Kind := KindContentPolicy; e_Provider := cf_Name cfg; e_Model := model; e_StatusCode := 200;
                   e_Retryable := false; e_RetryAfter := 0;
                   e_Message := "prompt blocked: " ++ truncateMessage reason |}.

Definition translateResponse (cfg : Config) (model raw : string) (latency : Z) : result go_error Response :=
  match unmarshal response_fields zero_response raw with
  | None => malformed cfg model "upstream returned a body that is not a valid generateContent response"
  | Some out =>
      if bool_decide (re_blockReason out ≠ ""%string) then Err (blocked cfg model (re_blockReason out))
      else match re_candidates out with
           | [] => malformed cfg model "upstream returned no candidates"
           | c :: _ =>
               Ok {| rs_Content := cat (ca_parts c); rs_FinishReason := finishReason (ca_finish c);
                     rs_Usage := {| u_InputTokens := re_prompt out; u_OutputTokens := re_output out |};
                     rs_Model := served_model (re_version out) model; rs_Provider := cf_Name cfg; rs_Latency := latency |}
           end
  end.

Definition decodeStreamEvent (cfg : Config) (model : string) (ev : sseEvent) : decoded :=
  let data := trim_space (ev_Data ev) in
  if bool_decide (data = ""%string) then Ok (None, false)
  else match unmarshal response_fields zero_response data with
       | None => Err (decoding_failed cfg)
       | Some wire =>
           if bool_decide (re_blockReason wire ≠ ""%string) then Err (blocked cfg model (re_blockReason wire))
           else
             let usage := if negb (re_prompt wire =? 0) || negb (re_output wire =? 0)
                          then Some {| u_InputTokens := re_prompt wire; u_OutputTokens := re_output wire |} else None in
             Ok (Some match re_candidates wire with
                      | [] => {| ch_Content := ""; ch_FinishReason := ""; ch_Usage := usage |}
                      | c :: _ =>
                          {| ch_Content := cat (ca_parts c);
                             ch_FinishReason := if bool_decide (ca_finish c = ""%string) then ""%string
                                                else finishReason (ca_finish c);
                             ch_Usage := usage |}
                      end, false)
       end.

Record envelope := { en_code : Z; en_message : string; en_status : string }.
Definition envelope_fields : setters envelope :=
  [("code"%string, field into_int en_code (λ n x, {| en_code := n; en_message := en_message x; en_status := en_status x |}));
   ("message"%string, field into_string en_message
      (λ s x, {| en_code := en_code x; en_message := s; en_status := en_status x |}));
   ("status"%string, field into_string en_status
      (λ s x, {| en_code := en_code x; en_message := en_message x; en_status := s |}))].
Definition no_envelope : envelope := {| en_code := 0; en_message := ""; en_status := "" |}.
Definition error_fields : setters envelope :=
  [("error"%string, field (into_struct (set_field envelope_fields)) id (λ e _, e))].

Definition classify (cfg : Config) (model : string) (status : Z) (body : string) : Error :=
  let env := default no_envelope (unmarshal error_fields no_envelope body) in
  let e := NewHTTPError (cf_Name cfg) model status (error_message (en_message env) body) in
  if bool_decide (en_status env = "RESOURCE_EXHAUSTED"%string) then with_kind KindRateLimited true e
  else if bool_decide (en_status env ∈ ["UNAUTHENTICATED"; "PERMISSION_DENIED"]%string) then with_kind KindAuthFailed false e
  else if bool_decide (en_status env ∈ ["INVALID_ARGUMENT"; "FAILED_PRECONDITION"; "NOT_FOUND"]%string)
  then with_kind KindInvalidRequest false e
  else if bool_decide (en_status env ∈ ["UNAVAILABLE"; "INTERNAL"; "DEADLINE_EXCEEDED"]%string)
  then with_kind KindServerError true e
  else e.

Definition adapter (fmt32 : float32 → string) : dialect := {|
  dl_url := endpoint;
  dl_headers cfg := auth_header "x-goog-api-key" "" (cf_APIKey cfg);
  dl_request := translateRequest fmt32;
  dl_response := translateResponse;
  dl_classify := classify;
  dl_reader cfg model r := SSEReader unit (stateless (decodeStreamEvent cfg model)) tt r
|}.
End Gemini.

(** ** Ollama's dialect: one JSON object per line *)
Module Ollama.
Definition translateRequest (fmt32 : float32 → string) (cfg : Config) (req : Request) (stream : bool) : json :=
  JObj [("model"%string, JStr (pr_Model req)); ("messages"%string, JArr (map message_json (pr_Messages req)));
        ("stream"%string, JBool stream);
        ("options"%string,
         JObj (temperature_field fmt32 (pr_Temperature req)
               ++ omit (max_tokens cfg req =? 0) "num_predict" JInt (max_tokens cfg req)
               ++ omit (is_nil (pr_Stop req)) "stop" strings_json (pr_Stop req)))].

Record response := {
  re_model : string; re_message : string * string; re_done : bool; re_doneReason : string; re_prompt : Z; re_eval : Z }.
Definition zero_response : response :=
  {| re_model := ""; re_message := ("", "")%string; re_done := false; re_doneReason := ""; re_prompt := 0; re_eval := 0 |}.

Definition response_fields : setters response :=
  [("model"%string, field into_string re_model
      (λ s x, {| re_model := s; re_message := re_message x; re_done := re_done x; re_doneReason := re_doneReason x;
                 re_prompt := re_prompt x; re_eval := re_eval x |}));
   ("message"%string, field (into_struct (set_field message_fields)) re_message
      (λ m x, {| re_model := re_model x; re_message := m; re_done := re_done x; re_doneReason := re_doneReason x;
                 re_prompt := re_prompt x; re_eval := re_eval x |}));
   ("done"%string, field into_bool re_done
      (λ b x, {| re_model := re_model x; re_message := re_message x; re_done := b; re_doneReason := re_doneReason x;
                 re_prompt := re_prompt x; re_eval := re_eval x |}));
   ("done_reason"%string, field into_string re_doneReason
      (λ s x, {| re_model := re_model x; re_message := re_message x; re_done := re_done x; re_doneReason := s;
                 re_prompt := re_prompt x; re_eval := re_eval x |}));
   ("prompt_eval_count"%string, field into_int re_prompt
      (λ n x, {| re_model := re_model x; re_message := re_message x; re_done := re_done x;
                 re_doneReason := re_doneReason x; re_prompt := n; re_eval := re_eval x |}));
   ("eval_count"%string, field into_int re_eval
      (λ n x, {| re_model := re_model x; re_message := re_message x; re_done := re_done x;
                 re_doneReason := re_doneReason x; re_prompt := re_prompt x; re_eval := n |}))].

Definition finishReason (s : string) : FinishReason :=
  if bool_decide (s = "stop"%string) then FinishStop
  else if bool_decide (s = "length"%string) then FinishLength
  else FinishOther.

Definition translateResponse (cfg : Config) (model raw : string) (latency : Z) : result go_error Response :=
  match unmarshal response_fields zero_response raw with
  | None => malformed cfg model "upstream returned a body that is not a valid chat response"
  | Some out =>
      Ok {| rs_Content := (re_message out).2; rs_FinishReason := finishReason (re_doneReason out);
            rs_Usage := {| u_InputTokens := re_prompt out; u_OutputTokens := re_eval out |};
            rs_Model := served_model (re_model out) model; rs_Provider := cf_Name cfg; rs_Latency := latency |}
  end.

Definition decodeStreamLine (cfg : Config) (line : string) : decoded :=
  match unmarshal response_fields zero_response line with
  | None => Err (decoding_failed cfg)
  | Some wire =>
      Ok (Some (if re_done wire
                then {| ch_Content := (re_message wire).2; ch_FinishReason := finishReason (re_doneReason wire);
                        ch_Usage := Some {| u_InputTokens := re_prompt wire; u_OutputTokens := re_eval wire |} |}
                else {| ch_Content := (re_message wire).2; ch_FinishReason := ""; ch_Usage := None |}), false)
  end.

Definition error_fields : setters string := [("error"%string, field into_string id (λ s _, s))].

(** Lowering only ASCII letters finds the ASCII words [strings.ToLower] finds. *)
Definition classify (cfg : Config) (model : string) (status : Z) (body : string) : Error :=
  let env := default ""%string (unmarshal error_fields ""%string body) in
  let e := NewHTTPError (cf_Name cfg) model status (error_message env body) in
  if (status =? 404) && contains (ToLower env) "not found" then with_kind KindInvalidRequest false e else e.

Definition adapter (fmt32 : float32 → string) : dialect := {|
  dl_url cfg _ _ := (trim_slash (cf_BaseURL cfg) ++ "/api/chat")%string;
  dl_headers _ := [];
  dl_request := translateRequest fmt32;
  dl_response := translateResponse;
  dl_classify := classify;
  dl_reader cfg _ r := NDJSONReader (decodeStreamLine cfg) r
|}.
End Ollama.

(** ** The operations of the Provider interface

    [net] is the network: what becomes of a request sent at a time; [clock] is
    when the reply's headers are looked at and [latency] how long it took. *)
Record provider := { pv_base : base; pv_dialect : dialect }.
Definition Name (p : provider) : string := cf_Name (bs_cfg (pv_base p)).
Definition Supports (p : provider) (model : string) : bool := SupportsModel (pv_base p) model.

Section operations.
Context (ParseTime : string → option Z) (net : http_call → http_outcome) (now latency : Z).

Definition call (p : provider) (req : Request) (stream : bool) : http_call :=
  let cfg := bs_cfg (pv_base p) in
  {| hc_url := dl_url (pv_dialect p) cfg (pr_Model req) stream;
     hc_headers := [("Content-Type", "application/json")]%string
                   ++ (if stream then [("Accept", "text/event-stream")]%string else [])
                   ++ dl_headers (pv_dialect p) cfg;
     hc_body := marshal (dl_request (pv_dialect p) cfg req stream) |}.

Definition Complete (p : provider) (req : Request) : result go_error Response :=
  let cfg := bs_cfg (pv_base p) in
  match postJSON cfg (pr_Model req) (net (call p req false)) with
  | Err e => Err e
  | Ok res =>
      if 400 <=? hr_Status res
      then Err (ProviderError (with_retry_after ParseTime
                  (dl_classify (pv_dialect p) cfg (pr_Model req) (hr_Status res) (hr_Body res)) (hr_RetryAfter res) now))
      else dl_response (pv_dialect p) cfg (pr_Model req) (hr_Body res) latency
  end.

Definition Stream_ (p : provider) (req : Request) : result go_error reader :=
  let cfg := bs_cfg (pv_base p) in
  match net (call p req true) with
  | NotBuilt => Err (building_failed cfg)
  | Unreachable d n => Err (transport cfg (pr_Model req) (d, n))
  | Responded status ra body cut =>
      if 400 <=? status
      then Err (readStreamError ParseTime cfg (pr_Model req) (dl_classify (pv_dialect p) cfg) status ra body cut now)
      else Ok (dl_reader (pv_dialect p) cfg (pr_Model req)
                 (new_scanner body ((λ _, OtherError "read") <$> cut)))
  end.

Definition Ping (p : provider) : option go_error :=
  match pingModel (pv_base p) with
  | None => Some (OtherError ("provider " ++ Name p ++ " has no models configured"))
  | Some model => match Complete p (pingRequest model) with Ok _ => None | Err e => Some e end
  end.
End operations.

Definition recv (r : reader) : option (received Chunk) * reader :=
  match r with
  | SSEReader D decode d s => let '(x, d, s) := Recv decode d s in (x, SSEReader D decode d s)
  | NDJSONReader decode s => let '(x, s) := ndjson_Recv decode s in (Some x, NDJSONReader decode s)
  end.

(** The chunks a caller of [Recv] gets until it says the stream is over. *)
Fixpoint receive_all (fuel : nat) (r : reader) : list Chunk * received unit :=
  match fuel with
  | O => ([], Broken ErrTooLong)
  | S fuel' =>
      match recv r with
      | (Some (Got c), r) => let '(cs, e) := receive_all fuel' r in (c :: cs, e)
      | (Some EndOfStream, _) => ([], EndOfStream)
      | (Some (Broken e), _) => ([], Broken e)
      | (None, _) => ([], Broken ErrTooLong)
      end
  end.

(** ** registry.go: newAdapter *)
Inductive registry_error :=
| NoProviders | DuplicateName (name : string) | BadConfig (e : config_error) | UnknownType (name type : string)
| ServedTwice (model first second : string).

Definition dialect_of (fmt32 : float32 → string) (type : string) : option dialect :=
  if bool_decide (type = "openai-compatible"%string) then Some (OpenAI.adapter fmt32)
  else if bool_decide (type = "anthropic"%string) then Some (Anthropic.adapter fmt32)
  else if bool_decide (type = "gemini"%string) then Some (Gemini.adapter fmt32)
  else if bool_decide (type = "ollama"%string) then Some (Ollama.adapter fmt32)
  else None.

Definition newAdapter (fmt32 : float32 → string) (cfg : Config) : result registry_error provider :=
  match dialect_of fmt32 (cf_Type cfg) with
  | None => Err (UnknownType (cf_Name cfg) (cf_Type cfg))
  | Some dl => match newBase cfg with Err e => Err (BadConfig e) | Ok b => Ok {| pv_base := b; pv_dialect := dl |} end
  end.
