(* ===== verification/AdapterFacts.v ===== *)
(** * What the provider adapters guarantee

    The readers turn a body of frames into the chunks its events decode to; each
    dialect's stream says what its plain response says; requests keep what the
    caller wrote; errors are classified within bounds. *)

From S2P Require Import Prelude Text Json Float32 Provider Wire Sse Stream StreamFacts Decode Router Http Adapters.

(** ** Text that was marshalled *)

Lemma valid_clean s : valid_utf8 s = true → clean s.
Proof.
  intros Hs. rewrite <- (of_runes_valid s Hs). unfold of_runes. apply clean_cat.
  apply Forall_map, Forall_true. intros r. apply clean_encode.
Qed.

Lemma valid_app s t : valid_utf8 s = true → valid_utf8 t = true → valid_utf8 (s ++ t) = true.
Proof.
  intros Hs Ht. unfold valid_utf8. rewrite (valid_clean s Hs). rewrite forallb_app.
  by apply andb_true_iff.
Qed.

Lemma valid_cat l : Forall (λ s, valid_utf8 s = true) l → valid_utf8 (cat l) = true.
Proof. induction 1; [done|]. by apply valid_app. Qed.

Lemma trim_units_ends a us b :
  is_space_rune a.1 = false → is_space_rune b.1 = false → trim_units (a :: us ++ [b]) = a :: us ++ [b].
Proof.
  intros Ha Hb. unfold trim_units. cbn [trim_left_units]. rewrite Ha, app_comm_cons, reverse_snoc.
  cbn [trim_left_units]. rewrite Hb, reverse_cons. by rewrite reverse_involutive.
Qed.

(** An object starts and ends with a brace: there is nothing to trim. *)
Lemma trim_marshal l :
  json_ok (JObj l) → (height (JObj l) ≤ maxNestingDepth)%nat → trim_space (marshal (JObj l)) = marshal (JObj l).
Proof.
  intros Hok Hh. destruct (decide (l = [])) as [->|Hne]; [done|].
  assert (clean (Join (map member l) ",")) as Hc.
  { apply json_all_obj in Hok. destruct maxNestingDepth as [|d]; [simpl in Hh; lia|]. apply height_obj in Hh.
    apply (members_read d l (length l) []); [done| |done]. rewrite Forall_forall in *. intros kv Hkv.
    destruct (Hok _ Hkv). split; [done|]. apply marshal_reads; [done|]. by apply Hh. }
  pose proof (bracketed_units (chr 123) (chr 125) _ [] eq_refl eq_refl Hc) as [_ Hu]. rewrite app_nil_r in Hu.
  change (marshal (JObj l)) with (String (chr 123) "" ++ Join (map member l) "," ++ String (chr 125) "")%string.
  unfold trim_space. rewrite Hu, trim_units_ends by done. by rewrite <- Hu, units_bytes.
Qed.

(** ** Reading frames *)

(** An event as a server writes it: its name, if it has one, and its data. *)
Definition event_frame (ev : sseEvent) : string :=
  (if bool_decide (ev_Event ev = ""%string) then "" else "event: " ++ ev_Event ev ++ LF_string) ++ frame (ev_Data ev).

Definition event_lines (ev : sseEvent) : list string :=
  (if bool_decide (ev_Event ev = ""%string) then [] else ["event: " ++ ev_Event ev]%string)
  ++ ["data: " ++ ev_Data ev; ""]%string.

Definition event_ok (ev : sseEvent) : Prop :=
  fits (ev_Data ev) ∧
  (ev_Event ev = ""%string ∨
   one_line (ev_Event ev) = true ∧ Z.of_nat (String.length (ev_Event ev)) < 100 ∧
   trim_space (" " ++ ev_Event ev) = ev_Event ev).

Lemma scan_line l rest :
  one_line l = true → Z.of_nat (String.length l) < maxStreamLineBytes →
  scan_lines (raw_lines (l ++ String LF rest) "") =
    let '(ls, long) := scan_lines (raw_lines rest "") in (l :: ls, long).
Proof.
  intros Hl Hn. rewrite raw_lines_line by done. change ("" ++ l)%string with l. cbn [scan_lines].
  unfold too_long at 1. destruct (Z.leb_spec maxStreamLineBytes (Z.of_nat (String.length l))); [lia|].
  by rewrite dropCR_one_line.
Qed.

Lemma event_frame_lines ev rest :
  event_ok ev →
  scan_lines (raw_lines (event_frame ev ++ rest) "") =
    let '(ls, long) := scan_lines (raw_lines rest "") in (event_lines ev ++ ls, long).
Proof.
  intros [Hf He]. pose proof (frame_lines [ev_Data ev] rest (Forall_cons_2 _ _ _ Hf (Forall_nil_2 _))) as HD.
  change (cat (map frame [ev_Data ev])) with (frame (ev_Data ev) ++ "")%string in HD.
  rewrite string_app_nil_r in HD. unfold event_frame, event_lines. case_bool_decide as Hn.
  - change ("" ++ frame (ev_Data ev))%string with (frame (ev_Data ev)). by rewrite HD.
  - destruct He as [?|(H1 & H2 & _)]; [done|]. unfold LF_string. rewrite !string_app_assoc.
    change (String LF "" ++ frame (ev_Data ev) ++ rest)%string with (String LF (frame (ev_Data ev) ++ rest)).
    rewrite <- (string_app_assoc "event: "), scan_line.
    + rewrite HD. by destruct (scan_lines (raw_lines rest "")).
    + by rewrite one_line_app, H1.
    + rewrite string_app_length. unfold maxStreamLineBytes. change (String.length "event: ") with 7%nat. lia.
Qed.

Definition body_of (evs : list sseEvent) : string := cat (map event_frame evs).

Lemma scanner_events evs :
  Forall event_ok evs →
  new_scanner (body_of evs) None = {| sc_lines := concat (map event_lines evs); sc_err := None |}.
Proof.
  intros H. unfold new_scanner.
  assert (scan_lines (raw_lines (body_of evs) "") = (concat (map event_lines evs), false)) as ->; [|done].
  induction H as [|ev evs He _ IH]; [done|].
  change (body_of (ev :: evs)) with (event_frame ev ++ body_of evs)%string.
  rewrite event_frame_lines by done. by rewrite IH.
Qed.

Lemma Next_event ev ls err :
  event_ok ev → Next {| sc_lines := event_lines ev ++ ls; sc_err := err |} =
    (Got ev, {| sc_lines := ls; sc_err := err |}).
Proof.
  intros [_ He]. unfold event_lines. case_bool_decide as Hn.
  - rewrite <- app_assoc. cbn [app]. rewrite Next_frame. by destruct ev; simpl in *; subst.
  - destruct He as [?|(_ & _ & Ht)]; [done|]. unfold Next. cbn [app sc_lines sc_err].
    assert (next_loop err (("event: " ++ ev_Event ev)%string :: ("data: " ++ ev_Data ev)%string :: ""%string :: ls) "" [] false
      = next_loop err (("data: " ++ ev_Data ev)%string :: ""%string :: ls) (ev_Event ev) [] true) as ->.
    { cbn [next_loop]. rewrite bool_decide_eq_false_2 by done.
      assert (HasPrefix ("event: " ++ ev_Event ev) "event:" = true) as -> by done.
      change ("event: " ++ ev_Event ev)%string with ("event:" ++ (" " ++ ev_Event ev))%string.
      by rewrite TrimPrefix_app, Ht. }
    cbn [next_loop]. rewrite bool_decide_eq_false_2 by done.
    assert (HasPrefix ("data: " ++ ev_Data ev) "event:" = false) as -> by done.
    assert (HasPrefix ("data: " ++ ev_Data ev) "data:" = true) as -> by done.
    change ("data: " ++ ev_Data ev)%string with ("data:" ++ (" " ++ ev_Data ev))%string.
    rewrite !TrimPrefix_app. rewrite bool_decide_eq_true_2 by done. by destruct ev.
Qed.

(** What a decoder makes of a sequence of events. *)
Section run.
Context {D : Type} (decode : D → sseEvent → decoded * D).

Fixpoint run (d : D) (evs : list sseEvent) : list Chunk * received unit :=
  match evs with
  | [] => ([], EndOfStream)
  | ev :: evs =>
      match decode d ev with
      | (Err e, _) => ([], Broken e)
      | (Ok (_, true), _) => ([], EndOfStream)
      | (Ok (None, false), d) => run d evs
      | (Ok (Some c, false), d) => let '(cs, e) := run d evs in (c :: cs, e)
      end
  end.

Lemma concat_lines_length evs : (length evs ≤ length (concat (map event_lines evs)))%nat.
Proof.
  induction evs as [|ev evs IH]; [done|]. cbn [map concat]. rewrite length_app. unfold event_lines at 1.
  rewrite length_app. cbn [length]. lia.
Qed.

Lemma recv_loop_events fuel d evs :
  Forall event_ok evs → (length evs < fuel)%nat →
  ∃ d' evs', (length evs' ≤ length evs)%nat ∧ Forall event_ok evs' ∧
    recv_loop decode fuel d {| sc_lines := concat (map event_lines evs); sc_err := None |} =
      (match run d evs with
       | (c :: _, _) => Some (Got c)
       | ([], EndOfStream) => Some EndOfStream
       | ([], Broken e) => Some (Broken e)
       | ([], Got _) => None
       end, d', {| sc_lines := concat (map event_lines evs'); sc_err := None |}) ∧
    ∀ c cs e, run d evs = (c :: cs, e) → run d' evs' = (cs, e) ∧ (length evs' < length evs)%nat.
Proof.
  intros H. revert fuel d. induction H as [|ev evs He Hevs IH]; intros fuel d Hf;
    (destruct fuel as [|fuel]; [simpl in Hf; lia|]).
  - exists d, []. split_and!; [done|constructor|done|done].
  - cbn [map concat recv_loop run length] in *. rewrite Next_event by done.
    destruct (decode d ev) as [[[[c|] []]|e] d'].
    1,3,5: (exists d', evs; split_and!; [lia|done|done|done]).
    + exists d', evs. destruct (run d' evs) as [cs e] eqn:Hr. split_and!; [lia|done|done|].
      intros c' cs' e' [= <- <- <-]. split; [done|lia].
    + destruct (IH fuel d' ltac:(lia)) as (d'' & evs' & Hl & Hok & Hrun & Hnext).
      exists d'', evs'. split_and!; [lia|done|done|]. intros c cs e Hc.
      destruct (Hnext _ _ _ Hc). split; [done|lia].
Qed.

Lemma run_not_got d evs cs : run d evs ≠ (cs, Got tt).
Proof.
  revert d cs. induction evs as [|ev evs IH]; intros d cs; [done|]. cbn [run].
  destruct (decode d ev) as [[[[c|] []]|e] d']; [done| |done|apply IH|done].
  destruct (run d' evs) as [cs' e] eqn:Hr. intros [= _ ->]. by eapply IH.
Qed.

Lemma receive_events n d evs :
  Forall event_ok evs → (length evs < n)%nat →
  receive_all n (SSEReader D decode d (new_scanner (body_of evs) None)) = run d evs.
Proof.
  intros Hok. rewrite scanner_events by done. revert d evs Hok.
  induction n as [|n IH]; intros d evs Hok Hn; [lia|]. cbn [receive_all recv]. unfold Recv. cbn [sc_lines].
  pose proof (concat_lines_length evs) as Hlen.
  edestruct (recv_loop_events (S (length (concat (map event_lines evs)))) d evs)
    as (d' & evs' & Hl & Hok' & -> & Hnext); [done|lia|].
  destruct (run d evs) as [[|c cs] e] eqn:Hr.
  - destruct e as [[]| |e]; try done. by apply run_not_got in Hr.
  - destruct (Hnext _ _ _ eq_refl) as [Hr' Hlt]. rewrite IH by (done || lia). by rewrite Hr'.
Qed.
End run.

(** One object per line. *)
Definition lines_of (payloads : list string) : string := cat (map (λ p, p ++ LF_string)%string payloads).
Definition line_ok (p : string) : Prop := fits p ∧ trim_space p = p ∧ p ≠ ""%string.
Definition data_event (p : string) : sseEvent := {| ev_Event := ""; ev_Data := p |}.
Definition on_data (decode : string → decoded) (ev : sseEvent) : decoded := decode (ev_Data ev).

Lemma scanner_payloads ps :
  Forall line_ok ps → new_scanner (lines_of ps) None = {| sc_lines := ps; sc_err := None |}.
Proof.
  intros H. unfold new_scanner.
  assert (scan_lines (raw_lines (lines_of ps) "") = (ps, false)) as ->; [|done].
  induction H as [|p ps [[Hp Hl] _] _ IH]; [done|].
  change (lines_of (p :: ps)) with ((p ++ String LF "") ++ lines_of ps)%string.
  rewrite string_app_assoc. change (String LF "" ++ lines_of ps)%string with (String LF (lines_of ps)).
  rewrite scan_line by (done || lia). by rewrite IH.
Qed.

Lemma ndjson_loop_lines decode ps :
  Forall line_ok ps →
  ∃ ps', Forall line_ok ps' ∧ (length ps' ≤ length ps)%nat ∧
    ndjson_loop None decode ps =
      (match run (stateless (on_data decode)) () (map data_event ps) with
       | (c :: _, _) => Got c
       | ([], EndOfStream) => EndOfStream
       | ([], Broken e) => Broken e
       | ([], Got _) => EndOfStream
       end, ps') ∧
    ∀ c cs e, run (stateless (on_data decode)) () (map data_event ps) = (c :: cs, e) →
      run (stateless (on_data decode)) () (map data_event ps') = (cs, e) ∧ (length ps' < length ps)%nat.
Proof.
  induction 1 as [|p ps (Hf & Ht & Hne) Hps IH]; [exists []; split_and!; [constructor|done..]|].
  cbn [map ndjson_loop run length]. rewrite Ht, bool_decide_eq_false_2 by done.
  change (stateless (on_data decode) () (data_event p)) with (decode p, ()).
  destruct (decode p) as [[[c|] []]|e].
  1,3,5: (exists ps; split_and!; [done|lia|done|done]).
  - exists ps. destruct (run _ _ (map data_event ps)) as [cs e] eqn:Hr. split_and!; [done|lia|done|].
    intros c' cs' e' [= <- <- <-]. split; [done|lia].
  - destruct IH as (ps' & Hok & Hl & Hrun & Hnext). exists ps'. split_and!; [done|lia|done|].
    intros c cs e Hc. destruct (Hnext _ _ _ Hc). split; [done|lia].
Qed.

Lemma receive_payloads n decode ps :
  Forall line_ok ps → (length ps < n)%nat →
  receive_all n (NDJSONReader decode (new_scanner (lines_of ps) None)) =
    run (stateless (on_data decode)) () (map data_event ps).
Proof.
  intros Hok. rewrite scanner_payloads by done. revert ps Hok.
  induction n as [|n IH]; intros ps Hok Hn; [lia|]. cbn [receive_all recv]. unfold ndjson_Recv. cbn [sc_lines sc_err].
  destruct (ndjson_loop_lines decode ps Hok) as (ps' & Hok' & Hl & -> & Hnext).
  destruct (run _ _ _) as [[|c cs] e] eqn:Hr.
  - destruct e as [[]| |e]; try done. by apply run_not_got in Hr.
  - destruct (Hnext _ _ _ eq_refl) as [Hr' Hlt]. rewrite IH by (done || lia). by rewrite Hr'.
Qed.
