(* ===== verification/AdapterStreams.v ===== *)
(** * Streaming and plain completions say the same

    The four providers' documented replies, written once as a plain body and once
    as a stream.  Read by the adapter of internal/provider that speaks the
    dialect, the two give the gateway the same text, finish reason and usage. *)

From S2P Require Import Prelude Text Json Float32 Provider Wire Metrics Sse Stream StreamFacts Decode Router Http Adapters AdapterFacts.

(** What a provider has to say: the text piece by piece, why it stopped, and what
    it counted. *)
Record reply := {
  rp_pieces : list string; rp_stop : string; rp_input : Z; rp_output : Z; rp_model : string }.

Record reply_ok (rp : reply) : Prop := {
  ro_pieces : Forall (λ s, valid_utf8 s = true) (rp_pieces rp);
  ro_stop : valid_utf8 (rp_stop rp) = true;
  ro_stops : rp_stop rp ≠ ""%string;
  ro_input : in_int64 (rp_input rp);
  ro_output : in_int64 (rp_output rp);
  ro_model : valid_utf8 (rp_model rp) = true
}.

Definition text (rp : reply) : string := cat (rp_pieces rp).

(** ** Bodies *)

Definition assistant_json (content : string) : json :=
  JObj [("role"%string, JStr "assistant"); ("content"%string, JStr content)].

Definition openai_usage (rp : reply) : json :=
  JObj [("prompt_tokens"%string, JInt (rp_input rp)); ("completion_tokens"%string, JInt (rp_output rp))].
Definition openai_plain (rp : reply) : json :=
  JObj [("object"%string, JStr "chat.completion"); ("model"%string, JStr (rp_model rp));
        ("choices"%string, JArr [JObj [("index"%string, JInt 0); ("message"%string, assistant_json (text rp));
                                       ("finish_reason"%string, JStr (rp_stop rp))]]);
        ("usage"%string, openai_usage rp)].
Definition openai_delta (delta : list (string * json)) (finish : json) : json :=
  JObj [("object"%string, JStr "chat.completion.chunk");
        ("choices"%string, JArr [JObj [("index"%string, JInt 0); ("delta"%string, JObj delta); ("finish_reason"%string, finish)]])].
Definition openai_payloads (rp : reply) : list json :=
  map (λ p, openai_delta [("content"%string, JStr p)] JNull) (rp_pieces rp)
  ++ [openai_delta [] (JStr (rp_stop rp)); JObj [("choices"%string, JArr []); ("usage"%string, openai_usage rp)]].
Definition openai_events (rp : reply) : list sseEvent :=
  map (λ v, data_event (marshal v)) (openai_payloads rp) ++ [data_event "[DONE]"].

Definition named (name : string) (v : json) : sseEvent := {| ev_Event := name; ev_Data := marshal v |}.
Definition anthropic_plain (rp : reply) : json :=
  JObj [("type"%string, JStr "message"); ("model"%string, JStr (rp_model rp));
        ("content"%string, JArr [JObj [("type"%string, JStr "text"); ("text"%string, JStr (text rp))]]);
        ("stop_reason"%string, JStr (rp_stop rp));
        ("usage"%string, JObj [("input_tokens"%string, JInt (rp_input rp)); ("output_tokens"%string, JInt (rp_output rp))])].
Definition anthropic_event (name : string) (fields : list (string * json)) : sseEvent :=
  named name (JObj (("type"%string, JStr name) :: fields)).
Definition anthropic_events (rp : reply) : list sseEvent :=
  [anthropic_event "message_start"
     [("message"%string, JObj [("model"%string, JStr (rp_model rp));
        ("usage"%string, JObj [("input_tokens"%string, JInt (rp_input rp)); ("output_tokens"%string, JInt 1)])])];
   anthropic_event "content_block_start" [("index"%string, JInt 0)];
   anthropic_event "ping" []]
  ++ map (λ p, anthropic_event "content_block_delta"
                 [("index"%string, JInt 0);
                  ("delta"%string, JObj [("type"%string, JStr "text_delta"); ("text"%string, JStr p)])]) (rp_pieces rp)
  ++ [anthropic_event "content_block_stop" [("index"%string, JInt 0)];
      anthropic_event "message_delta"
        [("delta"%string, JObj [("stop_reason"%string, JStr (rp_stop rp))]);
         ("usage"%string, JObj [("output_tokens"%string, JInt (rp_output rp))])];
      anthropic_event "message_stop" []].

Definition gemini_reply (model : string) (parts : list string) (finish : list (string * json)) (input output : Z) : json :=
  JObj [("candidates"%string,
         JArr [JObj ([("content"%string, JObj [("parts"%string, JArr (map (λ p, JObj [("text"%string, JStr p)]) parts));
                                               ("role"%string, JStr "model")])] ++ finish)]);
        ("usageMetadata"%string, JObj [("promptTokenCount"%string, JInt input); ("candidatesTokenCount"%string, JInt output)]);
        ("modelVersion"%string, JStr model)].
Definition gemini_plain (rp : reply) : json :=
  gemini_reply (rp_model rp) (rp_pieces rp) [("finishReason"%string, JStr (rp_stop rp))] (rp_input rp) (rp_output rp).
Definition gemini_events (rp : reply) : list sseEvent :=
  map (λ p, named "" (gemini_reply (rp_model rp) [p] [] (rp_input rp) 0)) (rp_pieces rp)
  ++ [named "" (gemini_reply (rp_model rp) [] [("finishReason"%string, JStr (rp_stop rp))] (rp_input rp) (rp_output rp))].

Definition ollama_counts (rp : reply) : list (string * json) :=
  [("done"%string, JBool true); ("done_reason"%string, JStr (rp_stop rp));
   ("prompt_eval_count"%string, JInt (rp_input rp)); ("eval_count"%string, JInt (rp_output rp))].
Definition ollama_object (rp : reply) (content : string) (fields : list (string * json)) : json :=
  JObj ([("model"%string, JStr (rp_model rp)); ("message"%string, assistant_json content)] ++ fields).
Definition ollama_plain (rp : reply) : json := ollama_object rp (text rp) (ollama_counts rp).
Definition ollama_payloads (rp : reply) : list json :=
  map (λ p, ollama_object rp p [("done"%string, JBool false)]) (rp_pieces rp) ++ [ollama_object rp "" (ollama_counts rp)].

(** ** Decoding what was marshalled *)

(** Well-formed values of bounded depth. *)
Definition small (d : nat) (v : json) : Prop := json_ok v ∧ (height v ≤ d)%nat.

Lemma small_obj d l : Forall (λ kv, valid_utf8 kv.1 = true ∧ small d kv.2) l → small (S d) (JObj l).
Proof.
  intros H. split; [apply json_all_obj|apply height_obj]; apply (Forall_impl _ _ _ H); unfold small; tauto.
Qed.
Lemma small_arr d l : Forall (small d) l → small (S d) (JArr l).
Proof. intros H. split; [apply json_all_arr|apply height_arr]; apply (Forall_impl _ _ _ H); unfold small; tauto. Qed.
Lemma small_str d s : valid_utf8 s = true → small d (JStr s).
Proof. split; [done|simpl; lia]. Qed.
Lemma small_int d n : in_int64 n → small d (JInt n).
Proof. split; [by exists n|simpl; lia]. Qed.
Lemma small_bool d b : small d (JBool b).
Proof. split; [done|simpl; lia]. Qed.
Lemma small_null d : small d JNull.
Proof. split; [done|simpl; lia]. Qed.

(** Checks a value built from literals and strings known to be well formed. *)
Ltac small :=
  repeat (cbn [fst snd app map]; lazymatch goal with
    | |- small _ JNull => apply small_null
    | |- small _ (JBool _) => apply small_bool
    | |- small _ (JStr _) => apply small_str
    | |- small _ (JInt _) => apply small_int
    | |- small _ (JArr _) => apply small_arr
    | |- small _ (JObj _) => apply small_obj
    | |- Forall _ [] => apply Forall_nil_2
    | |- Forall _ (_ :: _) => apply Forall_cons_2
    | |- _ ∧ _ => apply conj
    | H : valid_utf8 ?s = true |- valid_utf8 ?s = true => exact H
    | |- valid_utf8 _ = true => reflexivity
    | H : in_int64 ?n |- in_int64 ?n => exact H
    | |- in_int64 _ => by vm_compute
    end).

Lemma unmarshal_marshal {A} (fs : setters A) zero v :
  small 10 v → unmarshal fs zero (marshal v) = into_struct (set_field fs) zero v.
Proof. intros [Hok Hh]. unfold unmarshal. rewrite parse_marshal; [done|done|apply shallow; lia]. Qed.

(** Steps through the members of an object, deciding which field each one is. *)
Ltac read_fields :=
  repeat (first
    [ progress cbn [into_struct into_fields set_field app map into_string into_bool into_slice into_elems into_pointer
                    head tail default from_option fst snd id]
    | match goal with |- context [same_field ?a ?b] =>
        let r := eval vm_compute in (same_field a b) in change (same_field a b) with r; cbv iota end
    | rewrite into_int_JInt by (done || lia)
    | progress unfold field ]).

(** Compares literals. *)
Ltac decide_literals :=
  repeat match goal with |- context [bool_decide (?a = ?b)] =>
    let r := eval vm_compute in (bool_decide (a = b)) in
    match r with true => idtac | false => idtac end; change (bool_decide (a = b)) with r; cbv iota end.

Lemma trim_small l : small 10 (JObj l) → trim_space (marshal (JObj l)) = marshal (JObj l).
Proof. intros [Hok Hh]. apply trim_marshal; [done|]. apply shallow. lia. Qed.

Lemma text_valid rp : reply_ok rp → valid_utf8 (text rp) = true.
Proof. intros Hrp. apply valid_cat, Hrp. Qed.

(** ** What the handler's loop accumulates *)

Lemma absorb_app cs cs' s : absorb_all (cs ++ cs') s = absorb_all cs' (absorb_all cs s).
Proof. apply foldl_app. Qed.

Lemma absorb_pieces cs s :
  Forall (λ c, ch_FinishReason c = ""%string) cs →
  ls_content (absorb_all cs s) = (ls_content s ++ cat (map ch_Content cs))%string ∧
  ls_finish (absorb_all cs s) = ls_finish s.
Proof.
  intros H. revert s. induction H as [|c cs Hc _ IH]; intros s; [by rewrite string_app_nil_r|].
  change (absorb_all (c :: cs) s) with (absorb_all cs (if empty_chunk c then absorb c s else sent_one (absorb c s))).
  destruct (IH (if empty_chunk c then absorb c s else sent_one (absorb c s))) as [-> ->].
  assert (∀ b : bool, ls_content (if b then absorb c s else sent_one (absorb c s)) = (ls_content s ++ ch_Content c)%string ∧
    ls_finish (if b then absorb c s else sent_one (absorb c s)) = ls_finish s) as Hb.
  { intros b. destruct b; (split; [done|]); unfold absorb, sent_one; cbn [ls_finish]; by rewrite Hc, bool_decide_eq_false_2 by tauto. }
  destruct (Hb (empty_chunk c)) as [-> ->]. split; [|done]. by rewrite string_app_assoc.
Qed.

(** The handler has [content], [finish] and [usage] when the chunks are through. *)
Definition accumulates (cs : list Chunk) (content : string) (finish : FinishReason) (input output : Z) : Prop :=
  ls_content (absorb_all cs loop_start) = content ∧ ls_finish (absorb_all cs loop_start) = finish ∧
  ls_usage (absorb_all cs loop_start) = {| u_InputTokens := input; u_OutputTokens := output |}.

Definition last_chunk (finish : FinishReason) (input output : Z) : Chunk :=
  {| ch_Content := ""; ch_FinishReason := finish;
     ch_Usage := Some {| u_InputTokens := input; u_OutputTokens := output |} |}.

Lemma accumulates_last cs finish input output :
  Forall (λ c, ch_FinishReason c = ""%string) cs → finish ≠ ""%string →
  accumulates (cs ++ [last_chunk finish input output]) (cat (map ch_Content cs)) finish input output.
Proof.
  intros Hcs Hf. unfold accumulates. rewrite absorb_app. destruct (absorb_pieces cs loop_start Hcs) as [Hc _].
  set (s := absorb_all cs loop_start) in *.
  change (absorb_all [last_chunk finish input output] s) with
    (if empty_chunk (last_chunk finish input output) then absorb (last_chunk finish input output) s
     else sent_one (absorb (last_chunk finish input output) s)).
  assert (empty_chunk (last_chunk finish input output) = false) as ->.
  { unfold empty_chunk, last_chunk. cbn [ch_Content ch_FinishReason].
    by rewrite (bool_decide_eq_false_2 (finish = _)), andb_false_r. }
  unfold absorb, sent_one, last_chunk. cbn [ls_content ls_finish ls_usage ch_Content ch_FinishReason ch_Usage].
  rewrite Hc, string_app_nil_r. split_and!; [done|by rewrite bool_decide_eq_true_2|done].
Qed.

(** The usage may come after the finish reason. *)
Lemma accumulates_split cs finish input output :
  Forall (λ c, ch_FinishReason c = ""%string) cs → finish ≠ ""%string →
  accumulates (cs ++ [finish_chunk finish; last_chunk "" input output]) (cat (map ch_Content cs)) finish input output.
Proof.
  intros Hcs Hf. unfold accumulates. rewrite absorb_app. destruct (absorb_pieces cs loop_start Hcs) as [Hc _].
  set (s := absorb_all cs loop_start) in *.
  change (absorb_all [finish_chunk finish; last_chunk "" input output] s) with
    (absorb (last_chunk "" input output)
      (if empty_chunk (finish_chunk finish) then absorb (finish_chunk finish) s else sent_one (absorb (finish_chunk finish) s))).
  assert (empty_chunk (finish_chunk finish) = false) as ->.
  { unfold empty_chunk, finish_chunk. cbn [ch_Content ch_FinishReason].
    by rewrite (bool_decide_eq_false_2 (finish = _)), andb_false_r. }
  unfold absorb, sent_one, last_chunk, finish_chunk. cbn [ls_content ls_finish ls_usage ch_Content ch_FinishReason ch_Usage].
  rewrite Hc, !string_app_nil_r. rewrite (bool_decide_eq_false_2 (""%string ≠ _)) by tauto.
  split_and!; [done|by rewrite bool_decide_eq_true_2|done].
Qed.

Lemma contents_of_pieces {A} (f : A → Chunk) (g : A → string) l :
  (∀ p, ch_Content (f p) = g p) → map ch_Content (map f l) = map g l.
Proof. intros H. rewrite map_map. by apply map_ext. Qed.

Section reply.
Context (cfg : Config) (model : string) (rp : reply) (latency : Z) (Hrp : reply_ok rp).

Definition answer (finish : FinishReason) : Response :=
  {| rs_Content := text rp; rs_FinishReason := finish;
     rs_Usage := {| u_InputTokens := rp_input rp; u_OutputTokens := rp_output rp |};
     rs_Model := served_model (rp_model rp) model; rs_Provider := cf_Name cfg; rs_Latency := latency |}.

(** A decoder that turns every piece into its chunk turns the pieces into the chunks. *)
Lemma run_pieces {D} (decode : D → sseEvent → decoded * D) (d : D) (ev : string → sseEvent) (c : string → Chunk) rest :
  (∀ p, valid_utf8 p = true → decode d (ev p) = (Ok (Some (c p), false), d)) →
  run decode d (map ev (rp_pieces rp) ++ rest) =
    let '(cs, e) := run decode d rest in (map c (rp_pieces rp) ++ cs, e).
Proof.
  intros Hdec. destruct Hrp as [Hp _ _ _ _ _]. induction Hp as [|p ps Hv _ IH].
  - simpl. by destruct (run decode d rest).
  - cbn [map app run]. rewrite Hdec by done. rewrite IH. by destruct (run decode d rest).
Qed.

(** *** OpenAI *)

Lemma openai_response :
  OpenAI.translateResponse cfg model (marshal (openai_plain rp)) latency = Ok (answer (OpenAI.finishReason (rp_stop rp))).
Proof.
  pose proof (text_valid rp Hrp). destruct Hrp. unfold OpenAI.translateResponse.
  unfold openai_plain, openai_usage, assistant_json. rewrite unmarshal_marshal by small.
  unfold OpenAI.response_fields, OpenAI.choice_fields, message_fields, OpenAI.usage_fields. by read_fields.
Qed.

Lemma openai_event l c :
  small 10 (JObj l) →
  (into_struct (set_field OpenAI.chunk_fields) {| OpenAI.sk_choices := []; OpenAI.sk_usage := None |} (JObj l)) = Some c →
  OpenAI.decodeStreamEvent cfg (data_event (marshal (JObj l))) =
    Ok (Some match OpenAI.sk_choices c with
             | [] => {| ch_Content := ""; ch_FinishReason := "";
                        ch_Usage := (λ u : Z * Z, {| u_InputTokens := u.1; u_OutputTokens := u.2 |}) <$> OpenAI.sk_usage c |}
             | d :: _ => {| ch_Content := OpenAI.de_content d;
                            ch_FinishReason := match OpenAI.de_finish d with Some s => OpenAI.finishReason s | None => "" end%string;
                            ch_Usage := (λ u : Z * Z, {| u_InputTokens := u.1; u_OutputTokens := u.2 |}) <$> OpenAI.sk_usage c |}
             end, false).
Proof.
  intros Hs Hc. unfold OpenAI.decodeStreamEvent. cbn [ev_Data data_event]. rewrite trim_small by done.
  rewrite !bool_decide_eq_false_2 by discriminate. by rewrite unmarshal_marshal, Hc.
Qed.

Lemma openai_stream :
  run (stateless (OpenAI.decodeStreamEvent cfg)) () (openai_events rp) =
    (map text_chunk (rp_pieces rp)
     ++ [finish_chunk (OpenAI.finishReason (rp_stop rp));
         {| ch_Content := ""; ch_FinishReason := "";
            ch_Usage := Some {| u_InputTokens := rp_input rp; u_OutputTokens := rp_output rp |} |}], EndOfStream).
Proof.
  destruct Hrp. unfold openai_events, openai_payloads. rewrite map_app, map_map, <- app_assoc.
  rewrite (run_pieces _ () _ text_chunk).
  - cbn [map app run]. unfold stateless, openai_delta, openai_usage.
    rewrite (openai_event _ {| OpenAI.sk_choices := [{| OpenAI.de_content := ""; OpenAI.de_finish := Some (rp_stop rp) |}];
                               OpenAI.sk_usage := None |}) by (small || done).
    rewrite (openai_event _ {| OpenAI.sk_choices := []; OpenAI.sk_usage := Some (rp_input rp, rp_output rp) |}).
    + done.
    + small.
    + unfold OpenAI.chunk_fields, OpenAI.usage_fields. by read_fields.
  - intros p Hp. unfold stateless, openai_delta.
    by rewrite (openai_event _ {| OpenAI.sk_choices := [{| OpenAI.de_content := p; OpenAI.de_finish := None |}];
                                  OpenAI.sk_usage := None |}) by (small || done).
Qed.

(** *** Anthropic *)

Lemma anthropic_response :
  Anthropic.translateResponse cfg model (marshal (anthropic_plain rp)) latency =
    Ok (answer (Anthropic.finishReason (rp_stop rp))).
Proof.
  pose proof (text_valid rp Hrp). destruct Hrp. unfold Anthropic.translateResponse, anthropic_plain.
  rewrite unmarshal_marshal by small.
  unfold Anthropic.response_fields, Anthropic.block_fields, Anthropic.usage_fields. read_fields.
  unfold answer. do 2 f_equal. apply (string_app_nil_r (text rp)).
Qed.

Lemma anthropic_data name l : small 10 (JObj (("type"%string, JStr name) :: l)) →
  trim_space (ev_Data (anthropic_event name l)) = marshal (JObj (("type"%string, JStr name) :: l)).
Proof. intros Hs. unfold anthropic_event, named. cbn [ev_Data]. by rewrite trim_small. Qed.

(** An event whose name the decoder does not look at. *)
Lemma anthropic_skips name l n :
  small 10 (JObj (("type"%string, JStr name) :: l)) →
  name ∉ ["message_start"; "content_block_delta"; "message_delta"; "message_stop"; "error"]%string →
  Anthropic.streamDecoder cfg model n (anthropic_event name l) = (Ok (None, false), n).
Proof.
  intros Hs Hn. unfold Anthropic.streamDecoder. rewrite anthropic_data by done.
  rewrite (bool_decide_eq_false_2 (marshal _ = _)) by discriminate. cbn [ev_Event anthropic_event named].
  by rewrite !bool_decide_eq_false_2 by set_solver.
Qed.

Lemma anthropic_piece p n :
  valid_utf8 p = true →
  Anthropic.streamDecoder cfg model n (anthropic_event "content_block_delta"
    [("index"%string, JInt 0); ("delta"%string, JObj [("type"%string, JStr "text_delta"); ("text"%string, JStr p)])]) =
    (Ok (Some (text_chunk p), false), n).
Proof.
  intros Hp. unfold Anthropic.streamDecoder. rewrite anthropic_data by small.
  rewrite (bool_decide_eq_false_2 (marshal _ = _)) by discriminate. cbn [ev_Event anthropic_event named].
  decide_literals. rewrite unmarshal_marshal by small. unfold Anthropic.block_delta_fields, Anthropic.block_fields. by read_fields.
Qed.

Lemma anthropic_start n :
  Anthropic.streamDecoder cfg model n (anthropic_event "message_start"
     [("message"%string, JObj [("model"%string, JStr (rp_model rp));
        ("usage"%string, JObj [("input_tokens"%string, JInt (rp_input rp)); ("output_tokens"%string, JInt 1)])])]) =
    (Ok (None, false), rp_input rp).
Proof.
  destruct Hrp. unfold Anthropic.streamDecoder. rewrite anthropic_data by small.
  rewrite (bool_decide_eq_false_2 (marshal _ = _)) by discriminate. cbn [ev_Event anthropic_event named].
  decide_literals. rewrite unmarshal_marshal by small.
  unfold Anthropic.start_fields, Anthropic.start_message_fields, Anthropic.input_fields. by read_fields.
Qed.

Lemma anthropic_end :
  Anthropic.streamDecoder cfg model (rp_input rp) (anthropic_event "message_delta"
        [("delta"%string, JObj [("stop_reason"%string, JStr (rp_stop rp))]);
         ("usage"%string, JObj [("output_tokens"%string, JInt (rp_output rp))])]) =
    (Ok (Some (last_chunk (Anthropic.finishReason (rp_stop rp)) (rp_input rp) (rp_output rp)), false), rp_input rp).
Proof.
  destruct Hrp. unfold Anthropic.streamDecoder. rewrite anthropic_data by small.
  rewrite (bool_decide_eq_false_2 (marshal _ = _)) by discriminate. cbn [ev_Event anthropic_event named].
  decide_literals. rewrite unmarshal_marshal by small.
  unfold Anthropic.message_delta_fields, Anthropic.stop_reason_fields, Anthropic.output_fields. read_fields.
  by rewrite (bool_decide_eq_false_2 (rp_stop rp = _)).
Qed.

Lemma anthropic_stream :
  run (Anthropic.streamDecoder cfg model) 0 (anthropic_events rp) =
    (map text_chunk (rp_pieces rp)
     ++ [last_chunk (Anthropic.finishReason (rp_stop rp)) (rp_input rp) (rp_output rp)], EndOfStream).
Proof.
  unfold anthropic_events. cbn [app run]. rewrite anthropic_start.
  rewrite !anthropic_skips by (small || set_solver). rewrite (run_pieces _ _ _ text_chunk) by auto using anthropic_piece.
  cbn [run]. rewrite anthropic_skips by (small || set_solver). rewrite anthropic_end.
  unfold Anthropic.streamDecoder. rewrite anthropic_data by small.
  by rewrite (bool_decide_eq_false_2 (marshal _ = _)) by discriminate.
Qed.

(** *** Gemini *)

Lemma gemini_small m parts finish i o :
  valid_utf8 m = true → Forall (λ s, valid_utf8 s = true) parts → valid_utf8 finish = true → in_int64 i → in_int64 o →
  small 10 (gemini_reply m parts [("finishReason"%string, JStr finish)] i o) ∧ small 10 (gemini_reply m parts [] i o).
Proof.
  intros Hm Hparts Hf Hi Ho.
  assert (∀ d, Forall (small (S (S d))) (map (λ p, JObj [("text"%string, JStr p)]) parts)) as Hmap.
  { intros d. apply Forall_map, (Forall_impl _ _ _ Hparts). intros p Hp. small. }
  unfold gemini_reply. split; small; apply Hmap.
Qed.

Lemma gemini_parts parts :
  into_elems (into_struct (set_field Gemini.part_fields)) ""%string [] (map (λ p, JObj [("text"%string, JStr p)]) parts) =
    Some parts.
Proof. rewrite (into_elems_fresh _ _ _ id); [by rewrite map_id|done]. Qed.

Lemma gemini_decodes m parts (finish : string) fields i o :
  fields = [("finishReason"%string, JStr finish)] ∨ fields = [] ∧ finish = ""%string →
  small 10 (gemini_reply m parts fields i o) → in_int64 i → in_int64 o →
  unmarshal Gemini.response_fields Gemini.zero_response (marshal (gemini_reply m parts fields i o)) =
    Some {| Gemini.re_candidates := [{| Gemini.ca_role := "model"; Gemini.ca_parts := parts; Gemini.ca_finish := finish |}];
            Gemini.re_blockReason := ""; Gemini.re_prompt := i; Gemini.re_output := o; Gemini.re_version := m |}.
Proof.
  intros Hf Hs Hi Ho. rewrite unmarshal_marshal by done. unfold gemini_reply.
  unfold Gemini.response_fields, Gemini.candidate_fields, Gemini.content_fields, Gemini.usage_fields.
  destruct Hf as [->|[-> ->]]; read_fields; rewrite gemini_parts; by read_fields.
Qed.

Lemma gemini_response :
  Gemini.translateResponse cfg model (marshal (gemini_plain rp)) latency = Ok (answer (Gemini.finishReason (rp_stop rp))).
Proof.
  destruct Hrp. unfold Gemini.translateResponse, gemini_plain.
  rewrite (gemini_decodes _ _ (rp_stop rp)) by (auto; by apply gemini_small). done.
Qed.

Definition gemini_chunk (p : string) : Chunk :=
  {| ch_Content := cat [p]; ch_FinishReason := "";
     ch_Usage := if negb (rp_input rp =? 0) || negb (0 =? 0)
                 then Some {| u_InputTokens := rp_input rp; u_OutputTokens := 0 |} else None |}.

Lemma gemini_event fields parts finish o :
  fields = [("finishReason"%string, JStr finish)] ∨ fields = [] ∧ finish = ""%string →
  small 10 (gemini_reply (rp_model rp) parts fields (rp_input rp) o) → in_int64 o →
  Gemini.decodeStreamEvent cfg model (named "" (gemini_reply (rp_model rp) parts fields (rp_input rp) o)) =
    Ok (Some {| ch_Content := cat parts;
                ch_FinishReason := if bool_decide (finish = ""%string) then ""%string else Gemini.finishReason finish;
                ch_Usage := if negb (rp_input rp =? 0) || negb (o =? 0)
                            then Some {| u_InputTokens := rp_input rp; u_OutputTokens := o |} else None |}, false).
Proof.
  destruct Hrp. intros Hf Hs Ho. unfold Gemini.decodeStreamEvent. cbn [ev_Data named].
  set (v := gemini_reply _ _ _ _ _) in *. rewrite (trim_small _ Hs : trim_space (marshal v) = marshal v).
  rewrite (bool_decide_eq_false_2 (marshal _ = _)) by discriminate.
  subst v. by rewrite (gemini_decodes _ _ finish) by auto.
Qed.

Lemma gemini_stream :
  run (stateless (Gemini.decodeStreamEvent cfg model)) () (gemini_events rp) =
    (map gemini_chunk (rp_pieces rp)
     ++ [{| ch_Content := ""; ch_FinishReason := Gemini.finishReason (rp_stop rp);
            ch_Usage := if negb (rp_input rp =? 0) || negb (rp_output rp =? 0)
                        then Some {| u_InputTokens := rp_input rp; u_OutputTokens := rp_output rp |} else None |}],
     EndOfStream).
Proof.
  pose proof Hrp as []. unfold gemini_events. rewrite (run_pieces _ () _ gemini_chunk).
  - cbn [run]. unfold stateless. rewrite (gemini_event _ _ (rp_stop rp)); [|by left|by apply gemini_small|done].
    by rewrite (bool_decide_eq_false_2 (rp_stop rp = _)).
  - intros p Hp. unfold stateless. rewrite (gemini_event _ _ ""); [done|by right| |done].
    apply gemini_small with (finish := ""%string); [done|by apply Forall_singleton|done..].
Qed.

(** *** Ollama *)

Lemma ollama_small content fields :
  valid_utf8 content = true → fields = [("done"%string, JBool false)] ∨ fields = ollama_counts rp →
  small 10 (ollama_object rp content fields).
Proof. destruct Hrp. intros Hc [->| ->]; unfold ollama_object, ollama_counts, assistant_json; small. Qed.

Lemma ollama_response :
  Ollama.translateResponse cfg model (marshal (ollama_plain rp)) latency = Ok (answer (Ollama.finishReason (rp_stop rp))).
Proof.
  pose proof (text_valid rp Hrp). pose proof Hrp as []. unfold Ollama.translateResponse, ollama_plain.
  rewrite unmarshal_marshal by (apply ollama_small; auto).
  unfold ollama_object, ollama_counts, assistant_json, Ollama.response_fields, message_fields. by read_fields.
Qed.

Lemma ollama_stream :
  run (stateless (on_data (Ollama.decodeStreamLine cfg))) () (map data_event (map marshal (ollama_payloads rp))) =
    (map text_chunk (rp_pieces rp)
     ++ [last_chunk (Ollama.finishReason (rp_stop rp)) (rp_input rp) (rp_output rp)], EndOfStream).
Proof.
  pose proof Hrp as []. unfold ollama_payloads. rewrite !map_app, !map_map. rewrite (run_pieces _ () _ text_chunk).
  - cbn [map run]. unfold stateless, on_data. cbn [ev_Data data_event]. unfold Ollama.decodeStreamLine.
    rewrite unmarshal_marshal by (apply ollama_small; auto).
    unfold ollama_object, ollama_counts, assistant_json, Ollama.response_fields, message_fields. by read_fields.
  - intros p Hp. unfold stateless, on_data. cbn [ev_Data data_event]. unfold Ollama.decodeStreamLine.
    rewrite unmarshal_marshal by (apply ollama_small; auto).
    unfold ollama_object, assistant_json, Ollama.response_fields, message_fields. by read_fields.
Qed.
End reply.

(** ** The whole exchange *)

Definition plain_body (type : string) (rp : reply) : json :=
  if bool_decide (type = "openai-compatible"%string) then openai_plain rp
  else if bool_decide (type = "anthropic"%string) then anthropic_plain rp
  else if bool_decide (type = "gemini"%string) then gemini_plain rp
  else ollama_plain rp.

Definition stream_events (type : string) (rp : reply) : list sseEvent :=
  if bool_decide (type = "openai-compatible"%string) then openai_events rp
  else if bool_decide (type = "anthropic"%string) then anthropic_events rp
  else if bool_decide (type = "gemini"%string) then gemini_events rp
  else map data_event (map marshal (ollama_payloads rp)).

Definition stream_body (type : string) (rp : reply) : string :=
  if bool_decide (type = "ollama"%string) then lines_of (map ev_Data (stream_events type rp))
  else body_of (stream_events type rp).

(** Every line fits the scanner's buffer. *)
Definition short_lines (type : string) (rp : reply) : Prop :=
  Forall (λ ev, Z.of_nat (String.length (ev_Data ev)) + 6 < maxStreamLineBytes) (stream_events type rp).

Lemma small_one_line d v : small d v → one_line (marshal v) = true.
Proof.
  intros [Hok _]. apply marshal_one_line. revert Hok. unfold json_ok.
  induction v as [| | | |l IH|l IH] using json_ind'; try done; rewrite ?json_all_arr, ?json_all_obj; intros H;
    rewrite Forall_forall in *; naive_solver.
Qed.

(** One line of data under a name the reader gives back. *)
Definition well_framed (ev : sseEvent) : Prop :=
  one_line (ev_Data ev) = true ∧
  (ev_Event ev = ""%string ∨
   one_line (ev_Event ev) = true ∧ Z.of_nat (String.length (ev_Event ev)) < 100 ∧
   trim_space (" " ++ ev_Event ev) = ev_Event ev).

Lemma framed_data d v : small d v → well_framed (data_event (marshal v)).
Proof. intros H. split; [by eapply small_one_line|by left]. Qed.

Section frames.
Context (rp : reply) (Hrp : reply_ok rp).

Lemma openai_framed : Forall well_framed (openai_events rp).
Proof.
  pose proof Hrp as []. apply Forall_app. split; [|by repeat constructor]. apply Forall_map, Forall_app. split.
  - apply Forall_map, (Forall_impl _ _ _ ro_pieces0). intros p Hp. apply (framed_data 10). unfold openai_delta. small.
  - repeat apply Forall_cons_2; [..|apply Forall_nil_2]; apply (framed_data 10); unfold openai_delta, openai_usage; small.
Qed.

Lemma anthropic_framed : Forall well_framed (anthropic_events rp).
Proof.
  pose proof Hrp as []. unfold anthropic_events, anthropic_event, named, well_framed. cbn [app].
  repeat apply Forall_cons_2; try (split; [apply (small_one_line 10); small|right; by vm_compute]).
  apply Forall_app. split.
  - apply Forall_map, (Forall_impl _ _ _ ro_pieces0). intros p Hp.
    split; [apply (small_one_line 10); small|right; by vm_compute].
  - repeat apply Forall_cons_2; [..|apply Forall_nil_2]; (split; [apply (small_one_line 10); small|right; by vm_compute]).
Qed.

Lemma gemini_framed : Forall well_framed (gemini_events rp).
Proof.
  pose proof Hrp as []. apply Forall_app. split.
  - apply Forall_map, (Forall_impl _ _ _ ro_pieces0). intros p Hp. apply (framed_data 10).
    apply gemini_small with (finish := ""%string); [done|by apply Forall_singleton|done..].
  - apply Forall_singleton, (framed_data 10). by apply gemini_small.
Qed.

Lemma ollama_line v : small 10 v → (∃ l, v = JObj l) → Z.of_nat (String.length (marshal v)) + 6 < maxStreamLineBytes →
  line_ok (marshal v).
Proof.
  intros Hs [l ->] Hl. split; [split; [by eapply small_one_line|done]|]. split; [by apply trim_small|discriminate].
Qed.

Lemma ollama_lines : short_lines "ollama" rp → Forall line_ok (map marshal (ollama_payloads rp)).
Proof.
  pose proof Hrp as []. unfold short_lines. change (stream_events "ollama" rp) with (map data_event (map marshal (ollama_payloads rp))).
  rewrite !Forall_map. rewrite !Forall_forall. intros Hl v Hv.
  apply ollama_line; [| |by apply Hl]; unfold ollama_payloads in Hv; apply elem_of_app in Hv;
    rewrite list_elem_of_fmap, list_elem_of_singleton in Hv.
  - destruct Hv as [(p & -> & Hp)| ->]; apply ollama_small; auto. exact (proj1 (Forall_forall _ _) ro_pieces0 p Hp).
  - destruct Hv as [(p & -> & _)| ->]; by eexists.
Qed.
End frames.

Lemma dialect_cases fmt32 cfg p :
  newAdapter fmt32 cfg = Ok p →
  bs_cfg (pv_base p) = cfg ∧
  ((cf_Type cfg = "openai-compatible"%string ∧ pv_dialect p = OpenAI.adapter fmt32) ∨
   (cf_Type cfg = "anthropic"%string ∧ pv_dialect p = Anthropic.adapter fmt32) ∨
   (cf_Type cfg = "gemini"%string ∧ pv_dialect p = Gemini.adapter fmt32) ∨
   (cf_Type cfg = "ollama"%string ∧ pv_dialect p = Ollama.adapter fmt32)).
Proof.
  unfold newAdapter, dialect_of, newBase. repeat case_bool_decide; repeat case_match; intros; simplify_eq/=; split; auto.
Qed.

Lemma finish_nonempty s :
  OpenAI.finishReason s ≠ ""%string ∧ Anthropic.finishReason s ≠ ""%string ∧
  Gemini.finishReason s ≠ ""%string ∧ Ollama.finishReason s ≠ ""%string.
Proof.
  unfold OpenAI.finishReason, Anthropic.finishReason, Gemini.finishReason, Ollama.finishReason.
  split_and!; repeat case_match; done.
Qed.

Lemma pieces_unfinished {A} (f : A → Chunk) l :
  (∀ p, ch_FinishReason (f p) = ""%string) → Forall (λ c, ch_FinishReason c = ""%string) (map f l).
Proof. intros H. by apply Forall_map, Forall_true. Qed.

(** A stream in a dialect: how it is read, and to what it amounts. *)
Definition stream_answer (dl : dialect) (cfg : Config) (model : string) (rp : reply) (type : string)
    (finish : FinishReason) : Prop :=
  ∃ cs, (∀ n, (length (stream_events type rp) < n)%nat →
          receive_all n (dl_reader dl cfg model (new_scanner (stream_body type rp) None)) = (cs, EndOfStream)) ∧
        accumulates cs (text rp) finish (rp_input rp) (rp_output rp).

Lemma events_ok type rp :
  Forall well_framed (stream_events type rp) → short_lines type rp → Forall event_ok (stream_events type rp).
Proof.
  unfold short_lines. rewrite !Forall_forall. intros Hw Hs ev Hev. destruct (Hw ev Hev). split; [split; auto|done].
Qed.

Lemma text_chunks rp : text rp = cat (map ch_Content (map text_chunk (rp_pieces rp))).
Proof. unfold text. rewrite (contents_of_pieces _ id); [by rewrite map_id|done]. Qed.

Section answers.
Context (fmt32 : float32 → string) (cfg : Config) (model : string) (rp : reply) (Hrp : reply_ok rp).

Lemma openai_stream_answer :
  short_lines "openai-compatible" rp →
  stream_answer (OpenAI.adapter fmt32) cfg model rp "openai-compatible" (OpenAI.finishReason (rp_stop rp)).
Proof.
  intros Hs. eexists. split.
  - intros n Hn. apply events_ok in Hs; [|by apply openai_framed].
    etransitivity; [by apply receive_events|]. by apply openai_stream.
  - rewrite text_chunks. apply accumulates_split; [|apply finish_nonempty].
    by apply pieces_unfinished.
Qed.

Lemma anthropic_stream_answer :
  short_lines "anthropic" rp →
  stream_answer (Anthropic.adapter fmt32) cfg model rp "anthropic" (Anthropic.finishReason (rp_stop rp)).
Proof.
  intros Hs. eexists. split.
  - intros n Hn. apply events_ok in Hs; [|by apply anthropic_framed].
    etransitivity; [by apply receive_events|]. by apply anthropic_stream.
  - rewrite text_chunks. apply accumulates_last; [|apply finish_nonempty].
    by apply pieces_unfinished.
Qed.

(** Gemini's chunks carry a usage of their own; the last one wins, and where both
    its counts are zero none is sent and the loop's usage is what it started with. *)
Lemma gemini_accumulates finish :
  finish ≠ ""%string →
  accumulates (map (gemini_chunk rp) (rp_pieces rp)
     ++ [{| ch_Content := ""; ch_FinishReason := finish;
            ch_Usage := if negb (rp_input rp =? 0) || negb (rp_output rp =? 0)
                        then Some {| u_InputTokens := rp_input rp; u_OutputTokens := rp_output rp |} else None |}])
    (text rp) finish (rp_input rp) (rp_output rp).
Proof.
  intros Hf. assert (text rp = cat (map ch_Content (map (gemini_chunk rp) (rp_pieces rp)))) as ->.
  { unfold text. rewrite (contents_of_pieces _ id); [by rewrite map_id|]. intros p. apply string_app_nil_r. }
  assert (Forall (λ c, ch_FinishReason c = ""%string) (map (gemini_chunk rp) (rp_pieces rp))) as Hu
    by (by apply pieces_unfinished).
  destruct (negb (rp_input rp =? 0) || negb (rp_output rp =? 0)) eqn:Hz; [by apply accumulates_last|].
  apply orb_false_iff in Hz as [Hi Ho]. apply negb_false_iff, Z.eqb_eq in Hi, Ho.
  assert (ls_usage (absorb_all (map (gemini_chunk rp) (rp_pieces rp)) loop_start) = Usage_zero) as Hus.
  { clear Hu. generalize loop_start (eq_refl : ls_usage loop_start = Usage_zero).
    induction (rp_pieces rp) as [|p ps IH]; intros s Hs; [done|]. cbn [map]. apply IH. unfold gemini_chunk. rewrite Hi. cbn.
    by destruct (empty_chunk _). }
  destruct (absorb_pieces _ loop_start Hu) as [Hc _]. unfold accumulates. rewrite absorb_app.
  set (s := absorb_all _ loop_start) in *. cbn [absorb_all foldl].
  assert (∀ c b, ch_Content c = ""%string → ch_Usage c = None → ch_FinishReason c = finish →
    ls_content (if b : bool then absorb c s else sent_one (absorb c s)) = ls_content s ∧
    ls_finish (if b then absorb c s else sent_one (absorb c s)) = finish ∧
    ls_usage (if b then absorb c s else sent_one (absorb c s)) = ls_usage s) as Hlast.
  { intros c b H1 H2 H3. destruct b; unfold absorb, sent_one; cbn [ls_content ls_finish ls_usage];
      rewrite H1, H2, H3, string_app_nil_r, bool_decide_eq_true_2 by done; done. }
  edestruct Hlast as (-> & -> & ->); [done..|]. rewrite Hus, Hi, Ho. by rewrite Hc.
Qed.

Lemma gemini_stream_answer :
  short_lines "gemini" rp →
  stream_answer (Gemini.adapter fmt32) cfg model rp "gemini" (Gemini.finishReason (rp_stop rp)).
Proof.
  intros Hs. eexists. split.
  - intros n Hn. apply events_ok in Hs; [|by apply gemini_framed].
    etransitivity; [by apply receive_events|]. by apply gemini_stream.
  - apply gemini_accumulates, finish_nonempty.
Qed.

Lemma ollama_stream_answer :
  short_lines "ollama" rp →
  stream_answer (Ollama.adapter fmt32) cfg model rp "ollama" (Ollama.finishReason (rp_stop rp)).
Proof.
  intros Hs. eexists. split.
  - intros n Hn. unfold stream_body. rewrite bool_decide_eq_true_2 by done.
    change (stream_events "ollama" rp) with (map data_event (map marshal (ollama_payloads rp))) in *.
    rewrite length_map in Hn. rewrite map_map, map_id. cbn [dl_reader Ollama.adapter].
    etransitivity; [by apply receive_payloads; [apply ollama_lines|]|]. by apply ollama_stream.
  - rewrite text_chunks. apply accumulates_last; [|apply finish_nonempty]. by apply pieces_unfinished.
Qed.
End answers.

(** C11: For each of the four kinds of provider, streaming a reply and asking for
    it whole come to the same: when the provider answers both with its documented
    bodies, [Complete] returns the text, finish reason and usage, and [Stream]
    opens a reader whose chunks end with a clean end of stream and make the
    handler accumulate exactly that text, finish reason and usage, however the
    text was cut into pieces. *)
Theorem streaming_agrees fmt32 cfg p rp ParseTime net now latency req :
  newAdapter fmt32 cfg = Ok p → reply_ok rp → short_lines (cf_Type cfg) rp →
  Z.of_nat (String.length (marshal (plain_body (cf_Type cfg) rp))) ≤ maxResponseBytes →
  net (call p req false) = Responded 200 "" (marshal (plain_body (cf_Type cfg) rp)) None →
  net (call p req true) = Responded 200 "" (stream_body (cf_Type cfg) rp) None →
  ∃ resp r cs,
    Complete ParseTime net now latency p req = Ok resp ∧ Stream_ ParseTime net now p req = Ok r ∧
    (∀ n, (length (stream_events (cf_Type cfg) rp) < n)%nat → receive_all n r = (cs, EndOfStream)) ∧
    rs_Content resp = text rp ∧
    rs_Usage resp = {| u_InputTokens := rp_input rp; u_OutputTokens := rp_output rp |} ∧
    ls_content (absorb_all cs loop_start) = rs_Content resp ∧
    ls_finish (absorb_all cs loop_start) = rs_FinishReason resp ∧
    ls_usage (absorb_all cs loop_start) = rs_Usage resp.
Proof.
  intros Hp Hrp Hs Hl Hplain Hstream. destruct (dialect_cases _ _ _ Hp) as [Hcfg Hdl].
  unfold Complete, Stream_, postJSON, readBody. rewrite Hplain, Hstream, Hcfg. cbn [hr_Status hr_Body].
  rewrite first_bytes_all by done. change (400 <=? 200) with false. cbv iota.
  assert (∃ finish,
    dl_response (pv_dialect p) cfg (pr_Model req) (marshal (plain_body (cf_Type cfg) rp)) latency =
      Ok (answer cfg (pr_Model req) rp latency finish) ∧
    stream_answer (pv_dialect p) cfg (pr_Model req) rp (cf_Type cfg) finish) as (finish & -> & cs & Hcs & H1 & H2 & H3).
  { destruct Hdl as [[Ht Hd]|[[Ht Hd]|[[Ht Hd]|[Ht Hd]]]]; rewrite Ht, Hd in *; eexists; split;
      first [by apply openai_response|by apply openai_stream_answer|by apply anthropic_response
            |by apply anthropic_stream_answer|by apply gemini_response|by apply gemini_stream_answer
            |by apply ollama_response|by apply ollama_stream_answer]. }
  do 3 eexists. split_and!; [done|done|exact Hcs|done..].
Qed.
