(* ===== verification/AdapterErrors.v ===== *)
(** * Upstream failures, and one gateway behind another

    What an adapter makes of an error status; the OpenAI adapter reading what the
    gateway itself writes. *)

From S2P Require Import Prelude Text Json Float32 Provider Wire Metrics Sse Stream StreamFacts Decode Router Http Adapters AdapterFacts AdapterStreams.

(** ** Messages are cut *)

Lemma cat_keep_length (f : Z * string → bool) us :
  (String.length (cat (map snd (keep f us))) ≤ String.length (cat (map snd us)))%nat.
Proof.
  induction us as [|u us IH]; [done|]. cbn [keep map].
  change (cat (u.2 :: map snd us)) with (u.2 ++ cat (map snd us))%string. rewrite string_app_length.
  destruct (f u); [|lia]. cbn [map].
  change (cat (u.2 :: map snd (keep f us))) with (u.2 ++ cat (map snd (keep f us)))%string. rewrite string_app_length. lia.
Qed.

Lemma first_bytes_length n s : 0 ≤ n → Z.of_nat (String.length (first_bytes n s)) ≤ n.
Proof.
  revert n. induction s as [|c s IH]; intros n Hn; cbn [first_bytes]; [done|].
  destruct (Z.ltb_spec 0 n); [|done]. change (String.length (String c ?x)) with (S (String.length x)).
  specialize (IH (n - 1)). lia.
Qed.

Lemma truncateMessage_bounded s : Z.of_nat (String.length (truncateMessage s)) ≤ maxErrorMessageBytes + 3.
Proof.
  unfold truncateMessage. cbv zeta. destruct (Z.leb_spec (Z.of_nat (String.length (trim_space s))) maxErrorMessageBytes); [lia|].
  rewrite string_app_length. change (String.length ellipsis) with 3%nat. unfold ToValidUTF8.
  pose proof (cat_keep_length (λ u, negb (invalid_unit u)) (units (first_bytes maxErrorMessageBytes (trim_space s)))) as Hk.
  rewrite units_bytes in Hk. pose proof (first_bytes_length maxErrorMessageBytes (trim_space s) ltac:(done)). lia.
Qed.

Lemma error_message_bounded field body :
  Z.of_nat (String.length (error_message field body)) ≤ maxErrorMessageBytes + 3.
Proof. unfold error_message. cbv zeta. case_bool_decide; apply truncateMessage_bounded. Qed.

(** ** Classification *)

(** A failure whose kind says whether another attempt can help; only the kinds
    that pass may be tried again. *)
Record classified (name model : string) (status : Z) (e : Error) : Prop := {
  cl_kind : e_Kind e ≠ KindNone;
  cl_provider : e_Provider e = name;
  cl_model : e_Model e = model;
  cl_status : e_StatusCode e = status;
  cl_retry : e_Retryable e = true → DefaultRetryable (e_Kind e) = true;
  cl_message : Z.of_nat (String.length (e_Message e)) ≤ maxErrorMessageBytes + 3
}.

Lemma http_error_classified name model status message :
  400 ≤ status → Z.of_nat (String.length message) ≤ maxErrorMessageBytes + 3 →
  classified name model status (NewHTTPError name model status message).
Proof. intros Hs Hm. split; try done. cbn. rewrite KindForStatus_none. lia. Qed.

Lemma with_kind_classified name model status e k b :
  k ≠ KindNone → (b = true → DefaultRetryable k = true) → classified name model status e →
  classified name model status (with_kind k b e).
Proof. intros Hk Hb []. by split. Qed.

Lemma classify_classified fmt32 cfg p model status body :
  newAdapter fmt32 cfg = Ok p → 400 ≤ status →
  classified (cf_Name cfg) model status (dl_classify (pv_dialect p) cfg model status body).
Proof.
  intros Hp Hs. destruct (dialect_cases _ _ _ Hp) as [_ [[_ ->]|[[_ ->]|[[_ ->]|[_ ->]]]]]; cbn [dl_classify OpenAI.adapter
    Anthropic.adapter Gemini.adapter Ollama.adapter].
  - unfold OpenAI.classify. cbv zeta. set (e := NewHTTPError _ _ _ _).
    assert (classified (cf_Name cfg) model status e) as He by (apply http_error_classified; auto using error_message_bounded).
    repeat case_match; try done; apply with_kind_classified; try done. apply He.
  - unfold Anthropic.classify. cbv zeta. case_bool_decide; [apply with_kind_classified; [done..|]|];
      apply http_error_classified; auto using error_message_bounded.
  - unfold Gemini.classify. cbv zeta. repeat case_bool_decide; try (apply with_kind_classified; [done..|]);
      apply http_error_classified; auto using error_message_bounded.
  - unfold Ollama.classify. cbv zeta. case_match; [apply with_kind_classified; [done..|]|];
      apply http_error_classified; auto using error_message_bounded.
Qed.

(** C37: Every error status an adapter of any of the four kinds gets, on a plain or
    on a streaming call, comes back as the same provider failure: it names the
    provider and the model, carries the status and the parsed Retry-After, has a
    kind, is retryable only if that kind passes with time, and its message is at
    most 259 bytes whatever the body was.  If reading the body fails it is a
    transport failure instead. *)
Theorem upstream_failures_classified fmt32 cfg p ParseTime net now latency req status ra body cut :
  newAdapter fmt32 cfg = Ok p → 400 ≤ status →
  (∀ stream, net (call p req stream) = Responded status ra body cut) →
  ∃ e, Complete ParseTime net now latency p req = Err (ProviderError e) ∧
       Stream_ ParseTime net now p req = Err (ProviderError e) ∧
       match readBody body cut with
       | Ok _ => classified (cf_Name cfg) (pr_Model req) status e ∧ e_RetryAfter e = parseRetryAfter ParseTime ra now
       | Err c => e = NewTransportError (cf_Name cfg) (pr_Model req) c.1 c.2
       end.
Proof.
  intros Hp Hs Hnet. destruct (dialect_cases _ _ _ Hp) as [Hcfg _].
  unfold Complete, Stream_, postJSON, readStreamError. rewrite !Hnet, Hcfg.
  rewrite (proj2 (Z.leb_le 400 status)) by done. destruct (readBody body cut) as [b|c]; [|by eexists].
  cbn [hr_Status hr_Body hr_RetryAfter]. rewrite (proj2 (Z.leb_le 400 status)) by done.
  eexists. split; [done|]. split; [done|].
  destruct (classify_classified fmt32 cfg p (pr_Model req) status b Hp Hs) as [H1 H2 H3 H4 H5 H6]. by split.
Qed.

(** A delay in seconds is multiplied by a thousand million without a check: a
    large one wraps around. *)
Example retry_after_wraps : parseRetryAfter (λ _, None) "9223372037" 0 = -9223372036709551616.
Proof. reflexivity. Qed.

(** ** A gateway behind a gateway *)

(** The finish reasons the wire format has are read back; any other is written as
    ["stop"].  Usage is not on the wire. *)
Definition relayed_finish (f : FinishReason) : FinishReason := OpenAI.finishReason (wireFinishReason f).

Lemma relayed_finish_id f :
  f = FinishStop ∨ f = FinishLength ∨ f = FinishContentFilter → relayed_finish f = f.
Proof. by intros [->|[->| ->]]. Qed.

Definition relayed (c : Chunk) : Chunk :=
  {| ch_Content := ch_Content c;
     ch_FinishReason := if bool_decide (ch_FinishReason c = ""%string) then ""%string else relayed_finish (ch_FinishReason c);
     ch_Usage := None |}.

Definition relayed_response (cfg : Config) (model : string) (latency : Z) (resp : Response) : Response :=
  {| rs_Content := rs_Content resp; rs_FinishReason := relayed_finish (rs_FinishReason resp);
     rs_Usage := rs_Usage resp; rs_Model := served_model (rs_Model resp) model;
     rs_Provider := cf_Name cfg; rs_Latency := latency |}.

Section relay.
Context (id : string) (created : Z) (model : string)
  (Hid : valid_utf8 id = true) (Hcreated : in_int64 created) (Hmodel : valid_utf8 model = true).

Lemma chunk_payload_small first c :
  valid_utf8 (ch_Content c) = true → small 10 (chunk_payload id created model first c).
Proof.
  intros Hc. split; [by apply chunk_payload_ok|].
  unfold chunk_payload, chunk_json, toChatChunk, opt_field. simpl. unfold opt_field. repeat case_bool_decide; simpl; lia.
Qed.

Lemma openai_reads_chunk cfg first c :
  valid_utf8 (ch_Content c) = true →
  OpenAI.decodeStreamEvent cfg (data_event (marshal (chunk_payload id created model first c))) = Ok (Some (relayed c), false).
Proof.
  intros Hc. pose proof (chunk_payload_small first c Hc) as Hs. unfold chunk_payload, chunk_json in *.
  rewrite (openai_event _ _ {| OpenAI.sk_choices :=
    [{| OpenAI.de_content := ch_Content c;
        OpenAI.de_finish := if bool_decide (ch_FinishReason c = ""%string) then None
                            else Some (wireFinishReason (ch_FinishReason c)) |}]; OpenAI.sk_usage := None |} Hs).
  - unfold relayed, relayed_finish. cbn. by case_bool_decide.
  - unfold toChatChunk, choice_json, opt_field. cbn [map ckr_Choices ckr_ID ckr_Object ckr_Created ckr_Model ck_Index ck_Delta
      ck_FinishReason cd_Role cd_Content]. clear Hs.
    destruct first, (bool_decide_reflect (ch_Content c = ""%string)) as [Hx|Hx],
      (bool_decide (ch_FinishReason c = ""%string)); rewrite ?Hx; reflexivity.
Qed.

Lemma relay_run cfg first cs :
  contents_ok cs →
  run (stateless (OpenAI.decodeStreamEvent cfg)) ()
      (map data_event (map marshal (payloads id created model first cs) ++ ["[DONE]"%string])) =
    (map relayed (keep (λ c, negb (empty_chunk c)) cs), EndOfStream).
Proof.
  intros H. revert first. induction H as [|c cs Hc _ IH]; intros first; [done|]. cbn [payloads keep].
  destruct (empty_chunk c); cbn [negb]; [apply IH|]. cbn [map app run]. unfold stateless at 1.
  rewrite openai_reads_chunk by done. by rewrite IH.
Qed.
End relay.

Lemma payloads_length_le id created model first cs : (length (payloads id created model first cs) ≤ length cs)%nat.
Proof.
  revert first. induction cs as [|c cs IH]; intros first; [done|]. cbn [payloads].
  destruct (empty_chunk c); cbn [length]; [specialize (IH first)|specialize (IH false)]; lia.
Qed.

Lemma body_of_data ps : body_of (map data_event ps) = cat (map frame ps).
Proof. unfold body_of. rewrite map_map. done. Qed.

(** What the gateway writes for a stream that completes. *)
Definition gateway_stream (id : string) (created : Z) (model : string) (cs : list Chunk) : string :=
  cat (map frame (map marshal (payloads id created model true cs))) ++ sseDone.

Lemma response_json_small id created resp :
  valid_utf8 id = true → in_int64 created → valid_utf8 (rs_Model resp) = true → valid_utf8 (rs_Content resp) = true →
  in_int64 (u_InputTokens (rs_Usage resp)) → in_int64 (u_OutputTokens (rs_Usage resp)) →
  small 10 (response_json (toChatResponse id created resp)).
Proof.
  intros Hid Hc Hm Hx Hi Ho. assert (valid_utf8 (chatCompletionID id) = true) by (by apply valid_app).
  pose proof (wireFinishReason_valid (rs_FinishReason resp)).
  pose proof (wrap64_range (u_InputTokens (rs_Usage resp) + u_OutputTokens (rs_Usage resp))).
  unfold response_json, toChatResponse. cbn [cr_ID cr_Object cr_Created cr_Model cr_Choices cr_Usage map cc_Index cc_Message
    cc_FinishReason m_Role m_Content PromptTokens CompletionTokens TotalTokens]. small.
Qed.

(** C38: One gateway can be the provider of another: the OpenAI adapter, reading
    what this gateway streams, gets every chunk the gateway sent, in order, with
    its text and its finish reason, and then the end of the stream; and reading
    the gateway's plain response it gets the response back, usage included.  A
    finish reason outside the wire format's three is read as "stop". *)
Theorem gateway_relays cfg id created model cs resp latency n :
  valid_utf8 id = true → in_int64 created → valid_utf8 model = true → contents_ok cs →
  Forall short (payloads id created model true cs) →
  (S (length cs) < n)%nat →
  valid_utf8 (rs_Model resp) = true → valid_utf8 (rs_Content resp) = true →
  in_int64 (u_InputTokens (rs_Usage resp)) → in_int64 (u_OutputTokens (rs_Usage resp)) →
  receive_all n (SSEReader unit (stateless (OpenAI.decodeStreamEvent cfg)) ()
                   (newSSEReader (gateway_stream id created model cs) None)) =
    (map relayed (keep (λ c, negb (empty_chunk c)) cs), EndOfStream) ∧
  OpenAI.translateResponse cfg model (marshal (response_json (toChatResponse id created resp))) latency =
    Ok (relayed_response cfg model latency resp).
Proof.
  intros Hid Hc Hm Hcs Hl Hn Hrm Hrc Hi Ho. split.
  - set (ps := map marshal (payloads id created model true cs) ++ ["[DONE]"%string]).
    assert (gateway_stream id created model cs = body_of (map data_event ps)) as ->.
    { rewrite body_of_data. subst ps. rewrite map_app, cat_app. unfold gateway_stream. f_equal. }
    assert (Forall event_ok (map data_event ps)) as Hok.
    { apply Forall_map, Forall_app. split; [|apply Forall_singleton; split; [by vm_compute|by left]].
      apply (Forall_impl fits); [by apply payloads_fit|]. intros p Hp. split; [done|by left]. }
    etransitivity; [apply receive_events; [done|]|by apply relay_run].
    subst ps. rewrite length_map, length_app, length_map. cbn [length].
    pose proof (payloads_length_le id created model true cs). lia.
  - unfold OpenAI.translateResponse. rewrite unmarshal_marshal by (by apply response_json_small).
    unfold response_json, toChatResponse. cbn [cr_ID cr_Object cr_Created cr_Model cr_Choices cr_Usage map cc_Index cc_Message
      cc_FinishReason m_Role m_Content PromptTokens CompletionTokens TotalTokens].
    unfold OpenAI.response_fields, OpenAI.choice_fields, message_fields, OpenAI.usage_fields. read_fields.
    unfold relayed_response. by destruct (rs_Usage resp).
Qed.

(** ** Concrete runs *)

Definition claude : Config :=
  {| cf_Name := "claude"; cf_Type := "anthropic"; cf_BaseURL := "https://api.anthropic.com/v1/"; cf_APIKey := "k";
     cf_Timeout := 30 * second; cf_Models := ["haiku"%string]; cf_DefaultMaxTokens := 1024; cf_PingModel := "" |}.

Definition no_float (_ : float32) : string := "0".

Definition claude_provider : provider :=
  {| pv_base := {| bs_cfg := claude; bs_models := {["haiku"%string]} ∪ ∅ |}; pv_dialect := Anthropic.adapter no_float |}.

Definition hello : reply :=
  {| rp_pieces := ["he"; "llo"]%string; rp_stop := "end_turn"; rp_input := 7; rp_output := 2; rp_model := "haiku-1" |}.

Definition question : Request :=
  {| pr_Model := "haiku"; pr_Messages := [{| pm_Role := "system"; pm_Content := "be brief" |}; {| pm_Role := "user"; pm_Content := "hi" |}];
     pr_Temperature := None; pr_MaxTokens := 0; pr_Stream := false; pr_Stop := [] |}.

(** A server that answers a call that accepts an event stream with one. *)
Definition claude_server (c : http_call) : http_outcome :=
  if bool_decide (("Accept", "text/event-stream")%string ∈ hc_headers c)
  then Responded 200 "" (stream_body "anthropic" hello) None
  else Responded 200 "" (marshal (plain_body "anthropic" hello)) None.

Lemma hello_ok : reply_ok hello.
Proof. split; [by repeat constructor|reflexivity|discriminate|by vm_compute|by vm_compute|reflexivity]. Qed.

Lemma hello_short : short_lines "anthropic" hello.
Proof. unfold short_lines. apply (bool_decide_unpack _). vm_compute. exact I. Qed.

(** The request Anthropic gets has the system prompt in a field of its own. *)
Example claude_request :
  marshal (Anthropic.translateRequest no_float claude question false) =
    marshal (JObj [("model"%string, JStr "haiku");
                   ("messages"%string, JArr [JObj [("role"%string, JStr "user"); ("content"%string, JStr "hi")]]);
                   ("max_tokens"%string, JInt 1024); ("system"%string, JStr "be brief")]).
Proof. vm_compute. reflexivity. Qed.

Lemma streaming_agrees_witness :
  ∃ resp r cs,
    Complete (λ _, None) claude_server 0 5 claude_provider question = Ok resp ∧
    Stream_ (λ _, None) claude_server 0 claude_provider question = Ok r ∧
    receive_all 20 r = (cs, EndOfStream) ∧ ls_content (absorb_all cs loop_start) = rs_Content resp ∧
    rs_Content resp = "hello"%string.
Proof.
  destruct (streaming_agrees no_float claude claude_provider hello (λ _, None) claude_server 0 5 question)
    as (resp & r & cs & H1 & H2 & H3 & H4 & _ & H5 & _).
  - reflexivity.
  - apply hello_ok.
  - apply hello_short.
  - by vm_compute.
  - reflexivity.
  - reflexivity.
  - exists resp, r, cs. split; [exact H1|]. split; [exact H2|]. split; [apply H3; vm_compute; lia|]. split; [exact H5|exact H4].
Defined.

Lemma upstream_failures_classified_witness :
  ∃ e, Complete (λ _, None) (λ _, Responded 529 " 30 " "overloaded" None) 0 5 claude_provider question = Err (ProviderError e) ∧
       e_Kind e ≠ KindNone ∧ e_RetryAfter e = 30 * second.
Proof.
  destruct (upstream_failures_classified no_float claude claude_provider (λ _, None)
    (λ _, Responded 529 " 30 " "overloaded" None) 0 5 question 529 " 30 " "overloaded" None) as (e & H1 & _ & [H2 H3]).
  - reflexivity.
  - lia.
  - reflexivity.
  - exists e. split; [exact H1|]. split; [apply (cl_kind _ _ _ _ H2)|]. rewrite H3. reflexivity.
Defined.

Lemma gateway_relays_witness :
  receive_all 5 (SSEReader unit (stateless (OpenAI.decodeStreamEvent claude)) ()
      (newSSEReader (gateway_stream "r1" 1700000000 "haiku" [text_chunk "hi"; text_chunk ""; finish_chunk FinishStop]) None)) =
    ([text_chunk "hi"; finish_chunk FinishStop], EndOfStream).
Proof.
  apply (gateway_relays claude "r1" 1700000000 "haiku" [text_chunk "hi"; text_chunk ""; finish_chunk FinishStop]
    {| rs_Content := "hi"; rs_FinishReason := FinishStop; rs_Usage := Usage_zero; rs_Model := "haiku"; rs_Provider := "claude";
       rs_Latency := 1 |} 5 5).
  1-3, 6-10: by vm_compute.
  - by repeat constructor.
  - apply (bool_decide_unpack _). vm_compute. exact I.
Defined.
