(* ===== verification/ProviderRegistry.v ===== *)
(** * internal/provider/registry.go

    The providers by name and by model.  Pointer equality of two providers is
    equality of their names, which the registry keeps apart. *)

From S2P Require Import Prelude Text Json Float32 Provider Wire Sse Decode Router Http Adapters.

Record Registry := {
  byName : gmap string provider;
  byModel : gmap string provider;
  defaultMaxTokens : gmap string Z;
  order : list provider;
  configs : list Config
}.

Definition empty_registry : Registry :=
  {| byName := ∅; byModel := ∅; defaultMaxTokens := ∅; order := []; configs := [] |}.

(** The loop over a configuration's models. *)
Fixpoint add_models (p : provider) (cfg : Config) (models : list string) (r : Registry) : result registry_error Registry :=
  match models with
  | [] => Ok r
  | model :: models' =>
      match byModel r !! model with
      | Some existing => Err (ServedTwice model (Name existing) (cf_Name cfg))
      | None => add_models p cfg models'
                  {| byName := byName r; byModel := <[model := p]> (byModel r);
                     defaultMaxTokens := <[model := cf_DefaultMaxTokens cfg]> (defaultMaxTokens r);
                     order := order r; configs := configs r |}
      end
  end.

Section registry.
Context (fmt32 : float32 → string).

Definition add_config (cfg : Config) (r : Registry) : result registry_error Registry :=
  match byName r !! cf_Name cfg with
  | Some _ => Err (DuplicateName (cf_Name cfg))
  | None =>
      match newAdapter fmt32 cfg with
      | Err e => Err e
      | Ok p =>
          match add_models p cfg (cf_Models cfg) r with
          | Err e => Err e
          | Ok r => Ok {| byName := <[cf_Name cfg := p]> (byName r); byModel := byModel r;
                          defaultMaxTokens := defaultMaxTokens r; order := order r ++ [p]; configs := configs r ++ [cfg] |}
          end
      end
  end.

Fixpoint add_configs (cfgs : list Config) (r : Registry) : result registry_error Registry :=
  match cfgs with
  | [] => Ok r
  | cfg :: cfgs' => match add_config cfg r with Err e => Err e | Ok r => add_configs cfgs' r end
  end.

Definition NewRegistry (cfgs : list Config) : result registry_error Registry :=
  match cfgs with [] => Err NoProviders | _ => add_configs cfgs empty_registry end.

Definition ForModel (r : Registry) (model : string) : result go_error provider :=
  match byModel r !! model with Some p => Ok p | None => Err (Wrapped "resolving model" (ErrModelNotSupported model)) end.

Definition DefaultMaxTokensFor (r : Registry) (model : string) : option Z := defaultMaxTokens r !! model.

Definition ByName (r : Registry) (name : string) : option provider := byName r !! name.

Definition Providers (r : Registry) : list provider := order r.
Definition Configs (r : Registry) : list Config := configs r.

(** The models of each provider in turn, each provider's in any order. *)
Definition Models (r : Registry) : list string :=
  concat (map (λ p, (filter (λ kv, Name kv.2 = Name p) (map_to_list (byModel r))).*1) (order r)).

(** ** What a registry holds *)

(** The registry holds exactly the configurations in [cfgs]. *)
Record holds (cfgs : list Config) (r : Registry) : Prop := {
  ho_configs : configs r = cfgs;
  ho_names : NoDup (map cf_Name cfgs);
  ho_models : NoDup (concat (map cf_Models cfgs));
  ho_byName n p : byName r !! n = Some p ↔ ∃ cfg, cfg ∈ cfgs ∧ cf_Name cfg = n ∧ newAdapter fmt32 cfg = Ok p;
  ho_byModel m p : byModel r !! m = Some p ↔ ∃ cfg, cfg ∈ cfgs ∧ m ∈ cf_Models cfg ∧ newAdapter fmt32 cfg = Ok p;
  ho_tokens m n : defaultMaxTokens r !! m = Some n ↔ ∃ cfg, cfg ∈ cfgs ∧ m ∈ cf_Models cfg ∧ cf_DefaultMaxTokens cfg = n;
  ho_order : Forall2 (λ cfg p, newAdapter fmt32 cfg = Ok p) cfgs (order r)
}.

Lemma holds_empty : holds [] empty_registry.
Proof. split; try done; try constructor; try (intros; rewrite lookup_empty; split; [done|set_solver]); set_solver. Qed.

(** Adding the models: it fails exactly on one that is there, or twice. *)
Lemma add_models_spec p cfg models r :
  match add_models p cfg models r with
  | Ok r' =>
      NoDup models ∧ (∀ m, m ∈ models → byModel r !! m = None) ∧
      byName r' = byName r ∧ order r' = order r ∧ configs r' = configs r ∧
      (∀ m q, byModel r' !! m = Some q ↔ (m ∈ models ∧ q = p) ∨ byModel r !! m = Some q) ∧
      (∀ m n, defaultMaxTokens r' !! m = Some n ↔
        (m ∈ models ∧ n = cf_DefaultMaxTokens cfg) ∨ (m ∉ models ∧ defaultMaxTokens r !! m = Some n))
  | Err _ => ¬ NoDup models ∨ ∃ m, m ∈ models ∧ is_Some (byModel r !! m)
  end.
Proof.
  revert r. induction models as [|m models IH]; intros r; cbn [add_models].
  { split_and!; try done; try constructor; set_solver. }
  destruct (byModel r !! m) as [q|] eqn:Hm; [right; exists m; set_solver|].
  set (r1 := {| byName := _ |}). specialize (IH r1). destruct (add_models p cfg models r1) as [r'|e].
  - destruct IH as (Hnd & Hfresh & H1 & H2 & H3 & H4 & H5). unfold r1 in *. cbn [byName byModel order configs defaultMaxTokens] in *.
    assert (m ∉ models) as Hnot.
    { intros Hin. specialize (Hfresh m Hin). by rewrite lookup_insert_eq in Hfresh. }
    split_and!; [by constructor| |done|done|done| |].
    + intros m' [->|Hin]%elem_of_cons; [done|]. specialize (Hfresh m' Hin).
      destruct (decide (m' = m)) as [->|]; [done|]. by rewrite lookup_insert_ne in Hfresh.
    + intros m' q. rewrite H4, elem_of_cons. destruct (decide (m' = m)) as [->|Hne].
      * rewrite lookup_insert_eq, Hm. naive_solver.
      * rewrite lookup_insert_ne by done. naive_solver.
    + intros m' n. rewrite H5, not_elem_of_cons, elem_of_cons. destruct (decide (m' = m)) as [->|Hne].
      * rewrite lookup_insert_eq. naive_solver.
      * rewrite lookup_insert_ne by done. naive_solver.
  - destruct IH as [Hnd|(m' & Hin & Hs)].
    + left. by intros [_ ?]%NoDup_cons.
    + unfold r1 in Hs. cbn [byModel] in Hs. destruct (decide (m' = m)) as [->|Hne].
      * left. by intros [? _]%NoDup_cons.
      * right. exists m'. rewrite lookup_insert_ne in Hs by done. set_solver.
Qed.

Lemma newAdapter_name cfg p : newAdapter fmt32 cfg = Ok p → Name p = cf_Name cfg.
Proof. unfold newAdapter, newBase. repeat case_match; intros; by simplify_eq. Qed.

(** Configurations a registry can be made of. *)
Record acceptable (cfgs : list Config) : Prop := {
  ac_names : NoDup (map cf_Name cfgs);
  ac_models : NoDup (concat (map cf_Models cfgs));
  ac_adapters : Forall (λ cfg, ∃ p, newAdapter fmt32 cfg = Ok p) cfgs
}.

Lemma acceptable_app cfgs cfgs' : acceptable (cfgs ++ cfgs') → acceptable cfgs.
Proof.
  intros [H1 H2 H3]. rewrite !map_app in *. rewrite concat_app in H2. apply NoDup_app in H1 as [H1 _], H2 as [H2 _].
  apply Forall_app in H3 as [H3 _]. by split.
Qed.

Lemma in_models m cfgs : m ∈ concat (map cf_Models cfgs) ↔ ∃ cfg, cfg ∈ cfgs ∧ m ∈ cf_Models cfg.
Proof.
  induction cfgs as [|c cfgs IH]; [set_solver|]. cbn [map concat]. rewrite elem_of_app, IH. set_solver.
Qed.

Lemma add_config_holds cfg cfgs r r' :
  holds cfgs r → add_config cfg r = Ok r' → holds (cfgs ++ [cfg]) r'.
Proof.
  intros [H1 H2 H3 H4 H5 H6 H7]. unfold add_config. destruct (byName r !! cf_Name cfg) eqn:Hn; [done|].
  destruct (newAdapter fmt32 cfg) as [p|e] eqn:Hp; [|done].
  pose proof (add_models_spec p cfg (cf_Models cfg) r) as Hadd.
  destruct (add_models p cfg (cf_Models cfg) r) as [r1|e]; [|done]. intros [= <-].
  destruct Hadd as (Hnd & Hfresh & E1 & E2 & E3 & E4 & E5).
  assert (∀ c, c ∈ cfgs → ∃ q, newAdapter fmt32 c = Ok q) as Hall.
  { intros c Hc. clear -H7 Hc. induction H7; [set_solver|]. apply elem_of_cons in Hc as [->|?]; eauto. }
  assert (∀ m, m ∈ cf_Models cfg → m ∉ concat (map cf_Models cfgs)) as Hdis.
  { intros m Hm (c & Hc & Hmc)%in_models. destruct (Hall c Hc) as [q Hq]. specialize (Hfresh m Hm).
    rewrite (proj2 (H5 m q)) in Hfresh by eauto. done. }
  split; cbn [byName byModel defaultMaxTokens order configs].
  - by rewrite E3, H1.
  - rewrite map_app. apply NoDup_app. split; [done|]. split; [|apply NoDup_singleton]. cbn [map].
    intros n (c & -> & Hc)%list_elem_of_fmap Hcn%list_elem_of_singleton. destruct (Hall c Hc) as [q Hq].
    rewrite (proj2 (H4 (cf_Name cfg) q)) in Hn; [done|]. eauto.
  - rewrite map_app, concat_app. cbn [map concat]. rewrite app_nil_r. apply NoDup_app. split; [done|]. split; [|done].
    intros m Hm Hm'. by apply (Hdis m).
  - intros n q. destruct (decide (n = cf_Name cfg)) as [->|Hne].
    + rewrite lookup_insert_eq. split.
      * intros [= <-]. exists cfg. set_solver.
      * intros (c & [Hc|Hc%list_elem_of_singleton]%elem_of_app & Hcn & Hq); [|subst; congruence].
        rewrite (proj2 (H4 (cf_Name cfg) q)) in Hn; [done|]. eauto.
    + rewrite lookup_insert_ne by done. rewrite E1, H4. split; [set_solver|].
      intros (c & [Hc|Hc%list_elem_of_singleton]%elem_of_app & Hcn & Hq); [eauto|by subst].
  - intros m q. rewrite E4, H5. split.
    + intros [[Hm ->]|(c & Hc & ?)]; [exists cfg|exists c]; set_solver.
    + intros (c & [Hc|Hc%list_elem_of_singleton]%elem_of_app & Hm & Hq); [by right; eauto|subst; left; split; congruence].
  - intros m n. rewrite E5, H6. split.
    + intros [[Hm ->]|(_ & c & Hc & ?)]; [exists cfg|exists c]; set_solver.
    + intros (c & [Hc|Hc%list_elem_of_singleton]%elem_of_app & Hm & Hq); [right|subst; by left].
      split; [|by eauto]. intros Hbad. apply (Hdis m Hbad), in_models. eauto.
  - rewrite E2. apply Forall2_app; [done|]. by repeat constructor.
Qed.

Lemma add_config_ok cfg cfgs r :
  holds cfgs r → acceptable (cfgs ++ [cfg]) → ∃ r', add_config cfg r = Ok r'.
Proof.
  intros [H1 H2 H3 H4 H5 H6 H7] [A1 A2 A3]. unfold add_config.
  apply Forall_app in A3 as [_ [[p Hp] _]%Forall_cons]. rewrite map_app in A1. rewrite map_app, concat_app in A2.
  cbn [map concat] in A2. rewrite app_nil_r in A2. apply NoDup_app in A1 as (_ & A1 & _), A2 as (_ & A2 & A3).
  destruct (byName r !! cf_Name cfg) as [q|] eqn:Hn.
  { apply H4 in Hn as (c & Hc & Hcn & _). exfalso. apply (A1 (cf_Name cfg)); [|set_solver].
    rewrite <- Hcn. by apply list_elem_of_fmap_2. }
  rewrite Hp. pose proof (add_models_spec p cfg (cf_Models cfg) r) as Hadd.
  destruct (add_models p cfg (cf_Models cfg) r) as [r1|e]; [by eauto|exfalso].
  destruct Hadd as [?|(m & Hm & q & (c & Hc & Hmc & _)%H5)]; [done|]. apply (A2 m); [|done]. apply in_models. eauto.
Qed.

Lemma add_configs_holds cfgs done_ r r' :
  holds done_ r → add_configs cfgs r = Ok r' → holds (done_ ++ cfgs) r'.
Proof.
  revert done_ r. induction cfgs as [|cfg cfgs IH]; intros done_ r Hr; cbn [add_configs].
  { intros [= <-]. by rewrite app_nil_r. }
  destruct (add_config cfg r) as [r1|e] eqn:Hadd; [|done]. intros Hr'. rewrite cons_middle, app_assoc.
  eapply IH; [|done]. by eapply add_config_holds.
Qed.

Lemma add_configs_ok cfgs done_ r :
  holds done_ r → acceptable (done_ ++ cfgs) → ∃ r', add_configs cfgs r = Ok r'.
Proof.
  revert done_ r. induction cfgs as [|cfg cfgs IH]; intros done_ r Hr Hacc; cbn [add_configs]; [by eauto|].
  rewrite cons_middle, app_assoc in Hacc. destruct (add_config_ok cfg done_ r Hr) as [r1 Hadd]; [by eapply acceptable_app|].
  rewrite Hadd. eapply IH; [|done]. by eapply add_config_holds.
Qed.

(** A registry holds what it was made of, and can be made of anything with
    distinct names, distinct models and good configurations. *)
Lemma NewRegistry_holds cfgs r : NewRegistry cfgs = Ok r → holds cfgs r.
Proof.
  unfold NewRegistry. destruct cfgs as [|cfg cfgs]; [done|].
  apply (add_configs_holds (cfg :: cfgs) []), holds_empty.
Qed.

Lemma NewRegistry_ok cfgs : cfgs ≠ [] → acceptable cfgs → ∃ r, NewRegistry cfgs = Ok r.
Proof.
  intros Hne Hacc. unfold NewRegistry. destruct cfgs as [|cfg cfgs]; [done|].
  by apply (add_configs_ok (cfg :: cfgs) []); [apply holds_empty|].
Qed.

Lemma holds_acceptable cfgs r : holds cfgs r → acceptable cfgs.
Proof.
  intros [H1 H2 H3 _ _ _ H7]. split; [done|done|]. clear -H7. induction H7; constructor; eauto.
Qed.
End registry.
