(* ===== verification/Duration.v ===== *)
(** * time.ParseDuration and money, as configuration reads them

    Durations are sequences of decimal numbers with units, in nanoseconds; the
    library accumulates in uint64 with a check at every step, and multiplies a
    fraction in float64.  [usdToMicros] is internal/config's one conversion from
    a decimal price to integer micro-dollars. *)

From S2P Require Import Prelude Text Float32.

Definition is_dec (c : Ascii.ascii) : bool := (48 <=? byte c) && (byte c <=? 57).

(** [leadingInt]: [None] is [errLeadingInt]. *)
Fixpoint leadingInt (s : string) (x : Z) : option (Z * string) :=
  match s with
  | String c s' =>
      if is_dec c then
        if 2 ^ 63 / 10 <? x then None
        else let x := x * 10 + (byte c - 48) in if 2 ^ 63 <? x then None else leadingInt s' x
      else Some (x, s)
  | EmptyString => Some (x, s)
  end.

(** [leadingFraction]: the digits that fit, ten to their number, and the rest. *)
Fixpoint leadingFraction (s : string) (x : Z) (scale : float64) (overflow : bool) : Z * float64 * string :=
  match s with
  | String c s' =>
      if is_dec c then
        if overflow || ((2 ^ 63 - 1) / 10 <? x) then leadingFraction s' x scale true
        else let y := x * 10 + (byte c - 48) in
             if 2 ^ 63 <? y then leadingFraction s' x scale true
             else leadingFraction s' y (f64_mul scale (f64_of_Z 10)) overflow
      else (x, scale, s)
  | EmptyString => (x, scale, s)
  end.

(** The unit: everything up to a digit or a point. *)
Fixpoint cut_unit (s : string) : string * string :=
  match s with
  | String c s' => if is_dec c || bool_decide (c = chr 46) then (""%string, s)
                   else let '(u, r) := cut_unit s' in (String c u, r)
  | EmptyString => (""%string, ""%string)
  end.

Definition unit_of (u : string) : option Z :=
  if bool_decide (u = "ns"%string) then Some 1
  else if bool_decide (u = "us"%string ∨ u = bytes_of [194; 181; 115] ∨ u = bytes_of [206; 188; 115]) then Some 1000
  else if bool_decide (u = "ms"%string) then Some 1000000
  else if bool_decide (u = "s"%string) then Some second
  else if bool_decide (u = "m"%string) then Some (60 * second)
  else if bool_decide (u = "h"%string) then Some (3600 * second)
  else None.

(** [uint64(x)] of a float64 that is not negative: its integer part. *)
Definition f64_trunc (x : float64) : Z :=
  match x with
  | S754_finite _ m e => if 0 <=? e then Zpos m * 2 ^ e else Zpos m / 2 ^ (- e)
  | _ => 0
  end.

(** One number with its unit, and what is left of the string. *)
Definition duration_part (s : string) : option (Z * string) :=
  match s with
  | EmptyString => None
  | String c _ =>
      if negb (is_dec c || bool_decide (c = chr 46)) then None
      else match leadingInt s 0 with
           | None => None
           | Some (v, s1) =>
               let pre := negb (String.length s1 =? String.length s)%nat in
               let '(f, scale, s2, post) :=
                 match s1 with
                 | String d s' =>
                     if bool_decide (d = chr 46)
                     then let '(f, scale, s2) := leadingFraction s' 0 (f64_of_Z 1) false in
                          (f, scale, s2, negb (String.length s2 =? String.length s')%nat)
                     else (0, f64_of_Z 1, s1, false)
                 | EmptyString => (0, f64_of_Z 1, s1, false)
                 end in
               if negb pre && negb post then None
               else let '(u, s3) := cut_unit s2 in
                    match unit_of u with
                    | None => None
                    | Some unit =>
                        if 2 ^ 63 / unit <? v then None
                        else let v := v * unit in
                             let v := if 0 <? f
                                      then v + f64_trunc (f64_mul (f64_of_Z f) (f64_div (f64_of_Z unit) scale)) else v in
                             if 2 ^ 63 <? v then None else Some (v, s3)
                    end
           end
  end.

(** Each part takes at least its unit off the string. *)
Fixpoint duration_loop (fuel : nat) (s : string) (d : Z) : option Z :=
  match s with
  | EmptyString => Some d
  | _ =>
      match fuel with
      | O => None
      | S fuel' =>
          match duration_part s with
          | None => None
          | Some (v, s') => if 2 ^ 63 <? d + v then None else duration_loop fuel' s' (d + v)
          end
      end
  end.

Definition ParseDuration (s : string) : option Z :=
  let '(neg, s) := match s with
                   | String c s' => if bool_decide (c = chr 45) then (true, s')
                                    else if bool_decide (c = chr 43) then (false, s') else (false, s)
                   | EmptyString => (false, s)
                   end in
  if bool_decide (s = "0"%string) then Some 0
  else if bool_decide (s = ""%string) then None
  else match duration_loop (String.length s) s 0 with
       | None => None
       | Some d => if neg then Some (- d) else if 2 ^ 63 - 1 <? d then None else Some d
       end.

(** ** The loop never runs out of fuel *)

Lemma leadingInt_length s x v r : leadingInt s x = Some (v, r) → (String.length r ≤ String.length s)%nat ∧ (0 ≤ x → 0 ≤ v).
Proof.
  revert x. induction s as [|c s IH]; intros x; cbn [leadingInt]; [by intros [= <- <-]|].
  destruct (is_dec c) eqn:Hc; [|by intros [= <- <-]]. apply andb_true_iff in Hc as [Hc _]. apply Z.leb_le in Hc.
  repeat case_match; try done. intros Hr. apply IH in Hr as [Hr Hv]. split; [cbn; lia|]. intros. apply Hv. lia.
Qed.

Lemma leadingFraction_length s x scale o f sc r :
  leadingFraction s x scale o = (f, sc, r) → (String.length r ≤ String.length s)%nat.
Proof.
  revert x scale o. induction s as [|c s IH]; intros x scale o; cbn [leadingFraction]; [by intros [= _ _ <-]|].
  repeat case_match; try (intros Hr; apply IH in Hr; cbn; lia). by intros [= _ _ <-].
Qed.

Lemma cut_unit_length s u r : cut_unit s = (u, r) → (String.length u + String.length r = String.length s)%nat.
Proof.
  revert u. induction s as [|c s IH]; intros u; cbn [cut_unit]; [by intros [= <- <-]|].
  case_match; [by intros [= <- <-]|]. destruct (cut_unit s) as [u' r'] eqn:Hs. intros [= <- <-].
  cbn. rewrite <- (IH u'); [done|done].
Qed.

Lemma f64_trunc_nonneg x : 0 ≤ f64_trunc x.
Proof.
  destruct x as [| | |s m e]; cbn [f64_trunc]; try lia. destruct (Z.leb_spec 0 e).
  - pose proof (Z.pow_nonneg 2 e). lia.
  - apply Z.div_pos; [lia|]. apply Z.pow_pos_nonneg; lia.
Qed.

Lemma unit_of_pos u n : unit_of u = Some n → 0 < n ∧ u ≠ ""%string.
Proof. unfold unit_of. repeat case_bool_decide; intros; simplify_eq; unfold second; split; try lia; naive_solver. Qed.

Lemma duration_part_shrinks s v r :
  duration_part s = Some (v, r) → (String.length r < String.length s)%nat ∧ 0 ≤ v.
Proof.
  unfold duration_part. destruct s as [|c s]; [done|]. set (S0 := String c s). case_match; [done|].
  destruct (leadingInt S0 0) as [[v0 s1]|] eqn:Hi; [|done]. apply leadingInt_length in Hi as [Hl Hv0].
  assert (∀ f scale s2 post, (String.length s2 ≤ String.length s1)%nat →
    (if negb (negb (String.length s1 =? String.length S0)%nat) && negb post then None
     else let '(u, s3) := cut_unit s2 in
          match unit_of u with
          | None => None
          | Some unit =>
              if 2 ^ 63 / unit <? v0 then None
              else let v := v0 * unit in
                   let v := if 0 <? f then v + f64_trunc (f64_mul (f64_of_Z f) (f64_div (f64_of_Z unit) scale)) else v in
                   if 2 ^ 63 <? v then None else Some (v, s3)
          end) = Some (v, r) → (String.length r < String.length S0)%nat ∧ 0 ≤ v) as Hgo.
  { intros f scale s2 post H2. case_match; [done|]. destruct (cut_unit s2) as [u s3] eqn:Hu.
    apply cut_unit_length in Hu. destruct (unit_of u) as [n|] eqn:Hn; [|done]. apply unit_of_pos in Hn as [Hn Hne].
    case_match; [done|]. cbv zeta. case_match; [done|]. intros [= <- <-]. split.
    - destruct u; [done|]. cbn in Hu. lia.
    - pose proof (f64_trunc_nonneg (f64_mul (f64_of_Z f) (f64_div (f64_of_Z n) scale))).
      assert (0 ≤ v0 * n) by (apply Z.mul_nonneg_nonneg; lia). case_match; lia. }
  destruct s1 as [|d s']; [by apply (Hgo 0 (f64_of_Z 1) ""%string false)|].
  destruct (bool_decide (d = chr 46)); [|by apply (Hgo 0 (f64_of_Z 1) (String d s') false)].
  destruct (leadingFraction s' 0 (f64_of_Z 1) false) as [[f sc] s2] eqn:Hf. apply leadingFraction_length in Hf.
  apply (Hgo f sc s2). cbn. lia.
Qed.

(** With enough fuel the loop's answer does not depend on it. *)
Lemma duration_loop_fuel n m s d :
  (String.length s ≤ n)%nat → (String.length s ≤ m)%nat → duration_loop n s d = duration_loop m s d.
Proof.
  revert m s d. induction n as [|n IH]; intros m s d Hn Hm.
  { destruct s; [by destruct m|cbn in Hn; lia]. }
  destruct s as [|c s]; [by destruct m|]. destruct m as [|m]; [cbn in Hm; lia|]. cbn [duration_loop].
  destruct (duration_part (String c s)) as [[v r]|] eqn:Hp; [|done]. apply duration_part_shrinks in Hp as [Hl _].
  case_match; [done|]. apply IH; lia.
Qed.

Lemma duration_loop_range n s d v : 0 ≤ d ≤ 2 ^ 63 → duration_loop n s d = Some v → 0 ≤ v ≤ 2 ^ 63.
Proof.
  revert s d. induction n as [|n IH]; intros s d Hd; (destruct s as [|c s]; [by intros [= <-]|]); cbn [duration_loop]; [done|].
  destruct (duration_part (String c s)) as [[w r]|] eqn:Hp; [|done]. apply duration_part_shrinks in Hp as [_ Hw].
  destruct (Z.ltb_spec (2 ^ 63) (d + w)); [done|]. apply IH. lia.
Qed.

(** Whatever the string, a duration that parses is an int64. *)
Lemma ParseDuration_range s d : ParseDuration s = Some d → in_int64 d.
Proof.
  unfold ParseDuration. destruct (match s with EmptyString => (false, s) | String c s' => _ end) as [neg s1]. destruct (bool_decide _); [intros [= <-]; done|].
  destruct (bool_decide _); [done|]. destruct (duration_loop _ _ 0) as [v|] eqn:Hv; [|done].
  apply duration_loop_range in Hv; [|lia]. unfold in_int64, int64_min, int64_max.
  case_match; [intros [= <-]; lia|]. destruct (Z.ltb_spec (2 ^ 63 - 1) v); [done|]. intros [= <-]. lia.
Qed.

(** ** Money *)

Definition microsPerUSD : Z := 1000000.

(** [math.Round]: to the nearest integer, halves away from zero; then [int64]: a
    value that does not fit, or none at all, becomes the least int64 on amd64. *)
Definition round_int64 (x : float64) : Z :=
  match x with
  | S754_finite s m e =>
      let n := if 0 <=? e then Zpos m * 2 ^ e else (Zpos m + 2 ^ (- e - 1)) / 2 ^ (- e) in
      let n := if s then - n else n in
      if (int64_min <=? n) && (n <=? int64_max) then n else int64_min
  | S754_zero _ => 0
  | _ => int64_min
  end.

Definition usdToMicros (usd : float64) : Z := round_int64 (f64_mul usd (f64_of_Z microsPerUSD)).

Lemma usdToMicros_range usd : in_int64 (usdToMicros usd).
Proof.
  unfold usdToMicros, round_int64. destruct (f64_mul _ _) as [| | |s m e]; try done.
  cbv zeta. destruct (_ && _) eqn:Hb; [|done]. apply andb_true_iff in Hb as [H1 H2]. by apply Z.leb_le in H1, H2.
Qed.

Example durations :
  ParseDuration "30s" = Some (30 * second) ∧ ParseDuration "1h30m" = Some (5400 * second) ∧
  ParseDuration "1.5s" = Some 1500000000 ∧ ParseDuration "-250ms" = Some (-250000000) ∧
  ParseDuration "30" = None ∧ ParseDuration "" = None ∧ ParseDuration "9223372037s" = None.
Proof. vm_compute. done. Qed.

Example prices :
  usdToMicros (default S754_nan (ParseFloat64 "0.15")) = 150000 ∧
  usdToMicros (default S754_nan (ParseFloat64 "0.0000004")) = 0 ∧ usdToMicros S754_nan = int64_min.
Proof. vm_compute. done. Qed.
