(* ===== verification/ConfigProviders.v ===== *)
(** * internal/config/providers.go: providers, prices and tiers

    From the decoded file to validated configurations.  The YAML library and the
    environment are parameters.  Where the code ranges over a map whose keys are
    distinct, the model takes the union. *)

From S2P Require Import Prelude Text Json Float32 Provider Wire Sse Decode Router Http Adapters ProviderRegistry Duration.

Record modelEntry := { me_Name : string; me_InputPer1MU : float64; me_OutputPer1MU : float64 }.
Record providerEntry := {
  pe_Name : string; pe_Type : string; pe_Enabled : option bool; pe_BaseURL : string; pe_APIKeyEnv : string;
  pe_Timeout : string; pe_DefaultMaxTokens : Z; pe_PingModel : string; pe_Models : list modelEntry }.
Record tierEntry := { te_Provider : string; te_Model : string }.
Record providersFile := { pf_Providers : list providerEntry; pf_Tiers : gmap string (list tierEntry) }.

Record ModelPricing := { mp_InputPer1M : Z; mp_OutputPer1M : Z }.

Record Providers := {
  ps_Configs : list Config;
  ps_Pricing : gmap string ModelPricing;
  ps_Tiers : gmap string (list tierEntry)
}.

Inductive load_error :=
| Unreadable | Unparsable
| NoProvidersDefined | DuplicateProvider (name : string) | ModelUnderTwo (label : string) | AllDisabled
| FieldRequired (label field : string) | BadType (label type : string) | BadTimeout (label : string)
| ModelUnnamed (label : string) (j : nat) | ModelListedTwice (label model : string) | NegativePrice (label model : string)
| PingModelUnlisted (label model : string) | KeyUnset (label : string)
| TierUnnamed | TierEmpty (tier : string) | TierEntryIncomplete (tier : string) (i : nat)
| TierModelUnknown (tier model : string) | TierWrongProvider (tier model : string) | TierModelTwice (tier model : string).

Definition enabled (e : providerEntry) : bool := match pe_Enabled e with None => true | Some b => b end.

Definition known_type (t : string) : bool :=
  bool_decide (t ∈ ["openai-compatible"; "anthropic"; "gemini"; "ollama"]%string).

(** A price below zero; NaN is not. *)
Definition negative (x : float64) : bool := f_ltb x (S754_zero false).

(** The loop over an entry's models: their names in order, the prices, the names seen. *)
Fixpoint resolve_models (label : string) (j : nat) (ms : list modelEntry)
    (models : list string) (pricing : gmap string ModelPricing) (seen : gset string)
    : result load_error (list string * gmap string ModelPricing * gset string) :=
  match ms with
  | [] => Ok (models, pricing, seen)
  | m :: ms' =>
      if bool_decide (me_Name m = ""%string) then Err (ModelUnnamed label j)
      else if bool_decide (me_Name m ∈ seen) then Err (ModelListedTwice label (me_Name m))
      else if negative (me_InputPer1MU m) || negative (me_OutputPer1MU m) then Err (NegativePrice label (me_Name m))
      else resolve_models label (S j) ms' (models ++ [me_Name m])
             (<[me_Name m := {| mp_InputPer1M := usdToMicros (me_InputPer1MU m);
                                mp_OutputPer1M := usdToMicros (me_OutputPer1MU m) |}]> pricing)
             ({[me_Name m]} ∪ seen)
  end.

Section load.
Context (Getenv : string → string).

Definition resolveAPIKey (label type envVar : string) : result load_error string :=
  if bool_decide (type = "ollama"%string) then Ok ""%string
  else if bool_decide (envVar = ""%string) then Err (FieldRequired label "api_key_env")
  else if bool_decide (Getenv envVar = ""%string) then Err (KeyUnset label)
  else Ok (Getenv envVar).

Definition resolve (e : providerEntry) (label : string) : result load_error (Config * gmap string ModelPricing) :=
  if bool_decide (pe_Name e = ""%string) then Err (FieldRequired label "name")
  else if bool_decide (pe_BaseURL e = ""%string) then Err (FieldRequired label "base_url")
  else if pe_DefaultMaxTokens e <=? 0 then Err (FieldRequired label "default_max_tokens")
  else if is_nil (pe_Models e) then Err (FieldRequired label "models")
  else if negb (known_type (pe_Type e)) then Err (BadType label (pe_Type e))
  else if bool_decide (pe_Timeout e = ""%string) then Err (FieldRequired label "timeout")
  else match ParseDuration (pe_Timeout e) with
       | None => Err (BadTimeout label)
       | Some timeout =>
           if timeout <=? 0 then Err (BadTimeout label)
           else match resolve_models label 0 (pe_Models e) [] ∅ ∅ with
                | Err e => Err e
                | Ok (models, pricing, seen) =>
                    if bool_decide (pe_PingModel e ≠ ""%string ∧ pe_PingModel e ∉ seen)
                    then Err (PingModelUnlisted label (pe_PingModel e))
                    else match (if enabled e then resolveAPIKey label (pe_Type e) (pe_APIKeyEnv e) else Ok ""%string) with
                         | Err e => Err e
                         | Ok apiKey =>
                             Ok ({| cf_Name := pe_Name e; cf_Type := pe_Type e; cf_BaseURL := pe_BaseURL e;
                                    cf_APIKey := apiKey; cf_Timeout := timeout; cf_Models := models;
                                    cf_DefaultMaxTokens := pe_DefaultMaxTokens e; cf_PingModel := pe_PingModel e |}, pricing)
                         end
                end
       end.

(** The loop of [LoadProviders]. *)
Record loading := {
  ld_seenNames : gset string;
  ld_modelOwner : gmap string string;
  ld_modelProvider : gmap string string;
  ld_providerEnabled : gmap string bool;
  ld_configs : list Config;
  ld_pricing : gmap string ModelPricing
}.

Definition label_of (i : nat) (e : providerEntry) : string :=
  if bool_decide (pe_Name e = ""%string) then "providers[" ++ FormatInt (Z.of_nat i) ++ "]" else pe_Name e.

Definition load_entry (i : nat) (e : providerEntry) (s : loading) : result load_error loading :=
  let label := label_of i e in
  if bool_decide (pe_Name e ∈ ld_seenNames s ∧ pe_Name e ≠ ""%string) then Err (DuplicateProvider (pe_Name e))
  else match resolve e label with
       | Err err => Err err
       | Ok (cfg, pricing) =>
           if bool_decide (dom pricing ∩ dom (ld_modelOwner s) = ∅) then
             Ok {| ld_seenNames := {[pe_Name e]} ∪ ld_seenNames s;
                   ld_modelOwner := ((λ _, label) <$> pricing) ∪ ld_modelOwner s;
                   ld_modelProvider := ((λ _, pe_Name e) <$> pricing) ∪ ld_modelProvider s;
                   ld_providerEnabled := <[pe_Name e := enabled e]> (ld_providerEnabled s);
                   ld_configs := if enabled e then ld_configs s ++ [cfg] else ld_configs s;
                   ld_pricing := if enabled e then pricing ∪ ld_pricing s else ld_pricing s |}
           else Err (ModelUnderTwo label)
       end.

Fixpoint load_entries (i : nat) (es : list providerEntry) (s : loading) : result load_error loading :=
  match es with
  | [] => Ok s
  | e :: es' => match load_entry i e s with Err err => Err err | Ok s => load_entries (S i) es' s end
  end.

Definition loading_start : loading :=
  {| ld_seenNames := ∅; ld_modelOwner := ∅; ld_modelProvider := ∅; ld_providerEnabled := ∅; ld_configs := [];
     ld_pricing := ∅ |}.

(** ** Tiers *)

(** [sort.Strings] *)
Fixpoint insert_name (n : string) (l : list string) : list string :=
  match l with [] => [n] | x :: l' => if String.leb n x then n :: l else x :: insert_name n l' end.
Definition sort_names (l : list string) : list string := foldr insert_name [] l.

Section tiers.
Context (modelProvider : gmap string string) (providerEnabled : gmap string bool).

(** The loop over one tier's entries: the candidates kept, and whose tier each model is. *)
Fixpoint resolve_entries (name : string) (i : nat) (es : list tierEntry) (tierOfModel : gmap string string)
    : result load_error (list tierEntry * gmap string string) :=
  match es with
  | [] => Ok ([], tierOfModel)
  | e :: es' =>
      if bool_decide (te_Provider e = ""%string ∨ te_Model e = ""%string) then Err (TierEntryIncomplete name i)
      else match modelProvider !! te_Model e with
           | None => Err (TierModelUnknown name (te_Model e))
           | Some owner =>
               if bool_decide (owner ≠ te_Provider e) then Err (TierWrongProvider name (te_Model e))
               else match tierOfModel !! te_Model e with
                    | Some _ => Err (TierModelTwice name (te_Model e))
                    | None =>
                        match resolve_entries name (S i) es' (<[te_Model e := name]> tierOfModel) with
                        | Err err => Err err
                        | Ok (l, t) => Ok (if default false (providerEnabled !! te_Provider e) then e :: l else l, t)
                        end
                    end
           end
  end.

Fixpoint resolve_tiers (raw : gmap string (list tierEntry)) (names : list string)
    (tierOfModel : gmap string string) (out : gmap string (list tierEntry)) : result load_error (gmap string (list tierEntry)) :=
  match names with
  | [] => Ok out
  | name :: names' =>
      let entries := default [] (raw !! name) in
      if bool_decide (name = ""%string) then Err TierUnnamed
      else if is_nil entries then Err (TierEmpty name)
      else match resolve_entries name 0 entries tierOfModel with
           | Err err => Err err
           | Ok (l, t) => resolve_tiers raw names' t (<[name := l]> out)
           end
  end.

Definition resolveTiers (raw : gmap string (list tierEntry)) : result load_error (gmap string (list tierEntry)) :=
  resolve_tiers raw (sort_names (map_to_list raw).*1) ∅ ∅.
End tiers.

(** [file] is the file's bytes, and [Unmarshal] the YAML library. *)
Definition LoadProviders (Unmarshal : string → option providersFile) (file : option string) : result load_error Providers :=
  match file with
  | None => Err Unreadable
  | Some raw =>
      match Unmarshal raw with
      | None => Err Unparsable
      | Some f =>
          if is_nil (pf_Providers f) then Err NoProvidersDefined
          else match load_entries 0 (pf_Providers f) loading_start with
               | Err err => Err err
               | Ok s =>
                   if is_nil (ld_configs s) then Err AllDisabled
                   else match resolveTiers (ld_modelProvider s) (ld_providerEnabled s) (pf_Tiers f) with
                        | Err err => Err err
                        | Ok tiers => Ok {| ps_Configs := ld_configs s; ps_Pricing := ld_pricing s; ps_Tiers := tiers |}
                        end
               end
      end
  end.
End load.

(** ** A configuration that loads can serve *)

Section facts.
Context (fmt32 : float32 → string) (Getenv : string → string).

(** ** One entry *)

Lemma resolve_models_spec label j ms models pricing seen models' pricing' seen' :
  resolve_models label j ms models pricing seen = Ok (models', pricing', seen') →
  NoDup models → seen = list_to_set models → dom pricing = seen →
  NoDup models' ∧ models' = models ++ map me_Name ms ∧ seen' = list_to_set models' ∧ dom pricing' = seen'.
Proof.
  revert j models pricing seen. induction ms as [|m ms IH]; intros j models pricing seen; cbn [resolve_models].
  { intros [= <- <- <-] ? ? ?. by rewrite app_nil_r. }
  case_bool_decide; [done|]. case_bool_decide as Hs; [done|]. case_match; [done|]. intros Hr Hnd -> Hd.
  apply IH in Hr as (H1 & H2 & H3 & H4).
  - split_and!; [done|by rewrite H2, <- app_assoc|done|done].
  - apply NoDup_app. split; [done|]. split; [set_solver|apply NoDup_singleton].
  - rewrite list_to_set_app_L. set_solver.
  - rewrite dom_insert_L. by rewrite Hd.
Qed.

(** What [resolve] gives is a configuration an adapter can be made of. *)
Record resolved (e : providerEntry) (cfg : Config) (pricing : gmap string ModelPricing) : Prop := {
  rv_name : cf_Name cfg = pe_Name e;
  rv_nonempty : pe_Name e ≠ ""%string;
  rv_models : NoDup (cf_Models cfg);
  rv_pricing : dom pricing = list_to_set (cf_Models cfg);
  rv_tokens : 0 < cf_DefaultMaxTokens cfg;
  rv_timeout : 0 < cf_Timeout cfg;
  rv_ping : cf_PingModel cfg = ""%string ∨ cf_PingModel cfg ∈ cf_Models cfg;
  rv_adapter : ∃ p, newAdapter fmt32 cfg = Ok p
}.

Lemma known_type_dialect t : known_type t = true → ∃ dl, dialect_of fmt32 t = Some dl.
Proof.
  unfold known_type, dialect_of. intros H%bool_decide_eq_true. repeat case_bool_decide; eauto. exfalso. set_solver.
Qed.

Lemma resolve_resolved e label cfg pricing :
  resolve Getenv e label = Ok (cfg, pricing) → resolved e cfg pricing.
Proof.
  unfold resolve. repeat (case_bool_decide; [done|]). destruct (Z.leb_spec (pe_DefaultMaxTokens e) 0); [done|].
  destruct (pe_Models e) as [|m ms] eqn:Hms; [done|]. cbn [is_nil]. destruct (known_type (pe_Type e)) eqn:Ht; [|done]. cbn [negb].
  case_bool_decide; [done|]. destruct (ParseDuration (pe_Timeout e)) as [timeout|]; [|done].
  destruct (Z.leb_spec timeout 0); [done|].
  destruct (resolve_models label 0 (m :: ms) [] ∅ ∅) as [[[models pr] seen]|] eqn:Hm; [|done].
  apply resolve_models_spec in Hm as (Hnd & Hmo & -> & Hdom); [|constructor|done|set_solver].
  case_bool_decide as Hping; [done|].
  destruct (if enabled e then _ else _) as [apiKey|]; [|done]. intros [= <- <-].
  split; cbn [cf_Name cf_Models cf_DefaultMaxTokens cf_Timeout cf_PingModel]; try done.
  - destruct (decide (pe_PingModel e = ""%string)); [by left|right].
    destruct (decide (pe_PingModel e ∈ models)) as [|Hn]; [done|]. exfalso. apply Hping. set_solver.
  - unfold newAdapter. cbn [cf_Type]. destruct (known_type_dialect _ Ht) as [dl ->]. unfold newBase, validateConfig.
    cbn [cf_Name cf_BaseURL cf_Timeout cf_Models cf_DefaultMaxTokens]. rewrite !bool_decide_eq_false_2 by (done || (by subst models)).
    destruct (Z.leb_spec timeout 0), (Z.leb_spec (pe_DefaultMaxTokens e) 0); try lia. eauto.
Qed.

(** ** The loop over the entries *)

Record loaded (s : loading) : Prop := {
  lo_names : NoDup (map cf_Name (ld_configs s));
  lo_seen : ∀ cfg, cfg ∈ ld_configs s → cf_Name cfg ∈ ld_seenNames s;
  lo_models : NoDup (concat (map cf_Models (ld_configs s)));
  lo_owned : ∀ m, m ∈ concat (map cf_Models (ld_configs s)) → m ∈ dom (ld_modelOwner s);
  lo_same : dom (ld_modelProvider s) = dom (ld_modelOwner s);
  lo_adapters : Forall (λ cfg, (∃ p, newAdapter fmt32 cfg = Ok p) ∧ 0 < cf_DefaultMaxTokens cfg ∧ 0 < cf_Timeout cfg) (ld_configs s);
  lo_pricing : dom (ld_pricing s) = list_to_set (concat (map cf_Models (ld_configs s)));
  lo_provider : ∀ m p, ld_modelProvider s !! m = Some p → p ∈ ld_seenNames s;
  lo_enabled : ∀ m p, ld_modelProvider s !! m = Some p → ld_providerEnabled s !! p = Some true →
    ∃ cfg, cfg ∈ ld_configs s ∧ cf_Name cfg = p ∧ m ∈ cf_Models cfg
}.

Lemma loaded_start : loaded loading_start.
Proof. split; cbn; try constructor; set_solver. Qed.

Lemma list_to_set_models (l l' : list Config) :
  list_to_set (concat (map cf_Models (l ++ l'))) =@{gset string}
  list_to_set (concat (map cf_Models l)) ∪ list_to_set (concat (map cf_Models l')).
Proof. by rewrite map_app, concat_app, list_to_set_app_L. Qed.

Lemma load_entry_loaded i e s s' : loaded s → load_entry Getenv i e s = Ok s' → loaded s'.
Proof.
  intros [H1 H2 H3 H4 H5 H6 H7 H8 H9]. unfold load_entry. cbv zeta. case_bool_decide as Hdup; [done|].
  destruct (resolve Getenv e (label_of i e)) as [[cfg pricing]|] eqn:Hr; [|done]. apply resolve_resolved in Hr as [].
  destruct (bool_decide_reflect (dom pricing ∩ dom (ld_modelOwner s) = ∅)) as [Hdis|]; [|done]. intros [= <-].
  assert (pe_Name e ∉ ld_seenNames s) as Hfresh by (intros ?; by apply Hdup).
  assert (∀ m, m ∈ cf_Models cfg → m ∉ concat (map cf_Models (ld_configs s))) as Hnew.
  { intros m Hm Hin%H4. rewrite rv_pricing0 in Hdis. apply (not_elem_of_empty (C := gset string) m).
    rewrite <- Hdis, elem_of_intersection, elem_of_list_to_set. done. }
  assert (dom ((λ _, label_of i e) <$> pricing) = list_to_set (cf_Models cfg)) as Hd1 by (by rewrite dom_fmap_L).
  assert (dom ((λ _, pe_Name e) <$> pricing) = list_to_set (cf_Models cfg)) as Hd2 by (by rewrite dom_fmap_L).
  split; cbn [ld_configs ld_seenNames ld_modelOwner ld_modelProvider ld_providerEnabled ld_pricing].
  - destruct (enabled e); [|done]. rewrite map_app. apply NoDup_app. split; [done|]. split; [|apply NoDup_singleton].
    intros n (c & -> & Hc)%list_elem_of_fmap Hn%list_elem_of_singleton. apply H2 in Hc. rewrite Hn, rv_name0 in Hc. done.
  - intros c Hc. destruct (enabled e); [apply elem_of_app in Hc as [Hc|Hc%list_elem_of_singleton]|];
      [apply H2 in Hc|subst c; rewrite rv_name0|apply H2 in Hc]; set_solver.
  - destruct (enabled e); [|done]. rewrite map_app, concat_app. cbn [map concat]. rewrite app_nil_r.
    apply NoDup_app. split; [done|]. split; [|done]. intros m Hm Hm'. by apply (Hnew m).
  - intros m Hm. rewrite dom_union_L, Hd1. destruct (enabled e); [|set_solver].
    rewrite map_app, concat_app in Hm. cbn [map concat] in Hm. set_solver.
  - by rewrite !dom_union_L, Hd1, Hd2, H5.
  - destruct (enabled e); [|done]. apply Forall_app. split; [done|]. by apply Forall_singleton.
  - destruct (enabled e); [|done]. rewrite dom_union_L, list_to_set_models, H7. cbn [map concat]. set_solver.
  - intros m p [Hm|[_ Hm]]%lookup_union_Some_raw; [|by apply H8 in Hm; set_solver].
    apply lookup_fmap_Some in Hm as (? & <- & _). set_solver.
  - intros m p [Hm|[_ Hm]]%lookup_union_Some_raw Hen.
    + apply lookup_fmap_Some in Hm as (pr & <- & Hm). rewrite lookup_insert_eq in Hen. injection Hen as ->.
      exists cfg. split; [set_solver|]. split; [done|]. apply elem_of_dom_2 in Hm. rewrite rv_pricing0 in Hm. set_solver.
    + pose proof (H8 _ _ Hm) as Hp. rewrite lookup_insert_ne in Hen by (intros <-; done).
      destruct (H9 _ _ Hm Hen) as (c & Hc & ? & ?). exists c. destruct (enabled e); set_solver.
Qed.

Lemma load_entries_loaded i es s s' : loaded s → load_entries Getenv i es s = Ok s' → loaded s'.
Proof.
  revert i s. induction es as [|e es IH]; intros i s Hs; cbn [load_entries]; [by intros [= <-]|].
  destruct (load_entry Getenv i e s) as [s1|] eqn:He; [|done]. apply IH. by eapply load_entry_loaded.
Qed.

(** ** Tiers *)

Section tiers.
Context (modelProvider : gmap string string) (providerEnabled : gmap string bool).

(** A candidate that may be called: its model is served by its provider, which is on. *)
Definition live_entry (e : tierEntry) : Prop :=
  modelProvider !! te_Model e = Some (te_Provider e) ∧ providerEnabled !! te_Provider e = Some true.

Lemma resolve_entries_spec name i es t l t' :
  resolve_entries modelProvider providerEnabled name i es t = Ok (l, t') →
  t ⊆ t' ∧ NoDup (map te_Model l) ∧
  Forall (λ e, live_entry e ∧ t !! te_Model e = None ∧ t' !! te_Model e = Some name) l.
Proof.
  revert i t l t'. induction es as [|e es IH]; intros i t l t'; cbn [resolve_entries].
  { intros [= <- <-]. split_and!; [done|constructor|constructor]. }
  destruct (bool_decide _); [done|]. destruct (modelProvider !! te_Model e) as [owner|] eqn:Ho; [|done].
  destruct (bool_decide_reflect (owner ≠ te_Provider e)) as [|Heq]; [done|].
  destruct (t !! te_Model e) as [?|] eqn:Ht; [done|].
  destruct (resolve_entries _ _ name (S i) es (<[te_Model e:=name]> t)) as [[l1 t1]|] eqn:Hr; [|done].
  intros [= <- <-]. apply IH in Hr as (Hsub & Hnd & Hall).
  assert (t ⊆ t1) as Hsub' by (etransitivity; [by apply insert_subseteq|done]).
  assert (t1 !! te_Model e = Some name) as Hin 
    by (apply (lookup_weaken (<[te_Model e:=name]> t)); [by rewrite lookup_insert_eq|done]).
  assert (Forall (λ e', live_entry e' ∧ t !! te_Model e' = None ∧ t1 !! te_Model e' = Some name) l1) as Hl1.
  { apply (Forall_impl _ _ _ Hall). intros e' (H1 & H2 & H3). split_and!; [done| |done].
    destruct (decide (te_Model e' = te_Model e)) as [Hm|Hne]; [by rewrite Hm|]. by rewrite lookup_insert_ne in H2. }
  destruct (default false (providerEnabled !! te_Provider e)) eqn:Hen; [|done].
  split_and!; [done| |].
  - cbn [map]. constructor; [|done]. intros (e' & Hm & He')%list_elem_of_fmap.
    rewrite Forall_forall in Hall. destruct (Hall e' He') as (_ & H2 & _). by rewrite <- Hm, lookup_insert_eq in H2.
  - constructor; [|done]. split_and!; [|done|done]. split; [rewrite Ho; f_equal; by apply dec_stable|].
    by destruct (providerEnabled !! te_Provider e) as [[]|].
Qed.

(** [t] says which tier a model is in; the tiers resolved so far agree with it. *)
Definition tiers_ok (t : gmap string string) (out : gmap string (list tierEntry)) : Prop :=
  ∀ name l, out !! name = Some l →
    NoDup (map te_Model l) ∧ Forall (λ e, live_entry e ∧ t !! te_Model e = Some name) l.

Lemma resolve_tiers_spec raw names t out out' :
  tiers_ok t out → resolve_tiers modelProvider providerEnabled raw names t out = Ok out' → ∃ t', tiers_ok t' out'.
Proof.
  revert t out. induction names as [|name names IH]; intros t out Hok; cbn [resolve_tiers]; [intros [= <-]; eauto|].
  destruct (bool_decide _); [done|]. destruct (is_nil _); [done|].
  destruct (resolve_entries _ _ name 0 _ t) as [[l t1]|] eqn:Hr; [|done].
  apply resolve_entries_spec in Hr as (Hsub & Hnd & Hall). apply IH. intros n l' Hl'.
  destruct (decide (n = name)) as [->|Hne].
  - rewrite lookup_insert_eq in Hl'. injection Hl' as <-. split; [done|]. apply (Forall_impl _ _ _ Hall). tauto.
  - rewrite lookup_insert_ne in Hl' by done. destruct (Hok n l' Hl') as [H1 H2]. split; [done|].
    apply (Forall_impl _ _ _ H2). intros e [He Ht]. split; [done|]. by eapply lookup_weaken.
Qed.
End tiers.

(** ** What a loaded file guarantees *)

Record serviceable (ps : Providers) : Prop := {
  sv_configs : ps_Configs ps ≠ [];
  sv_acceptable : acceptable fmt32 (ps_Configs ps);
  sv_positive : Forall (λ cfg, 0 < cf_DefaultMaxTokens cfg ∧ 0 < cf_Timeout cfg) (ps_Configs ps);
  sv_priced : ∀ m, is_Some (ps_Pricing ps !! m) ↔ m ∈ concat (map cf_Models (ps_Configs ps));
  sv_tiers : ∀ name l, ps_Tiers ps !! name = Some l → NoDup (map te_Model l) ∧
    ∀ e, e ∈ l → ∃ cfg, cfg ∈ ps_Configs ps ∧ cf_Name cfg = te_Provider e ∧ te_Model e ∈ cf_Models cfg;
  sv_one_tier : ∀ n n' l l' e e', ps_Tiers ps !! n = Some l → ps_Tiers ps !! n' = Some l' →
    e ∈ l → e' ∈ l' → te_Model e = te_Model e' → n = n'
}.

Lemma LoadProviders_serviceable Unmarshal file ps :
  LoadProviders Getenv Unmarshal file = Ok ps → serviceable ps.
Proof.
  unfold LoadProviders. destruct file as [raw|]; [|done]. destruct (Unmarshal raw) as [f|]; [|done].
  destruct (is_nil (pf_Providers f)); [done|].
  destruct (load_entries Getenv 0 (pf_Providers f) loading_start) as [s|] eqn:Hs; [|done].
  apply load_entries_loaded in Hs; [|apply loaded_start]. destruct Hs.
  destruct (ld_configs s) as [|c cs] eqn:Hcs; [done|]. rewrite <- Hcs in *. destruct (is_nil (ld_configs s)); [done|].
  destruct (resolveTiers _ _ (pf_Tiers f)) as [tiers|] eqn:Ht; [|done]. intros [= <-].
  apply resolve_tiers_spec in Ht as [t Ht]; [|by intros ? ?; rewrite lookup_empty].
  split; cbn [ps_Configs ps_Pricing ps_Tiers].
  - by rewrite Hcs.
  - split; [done|done|]. apply (Forall_impl _ _ _ lo_adapters0). tauto.
  - apply (Forall_impl _ _ _ lo_adapters0). tauto.
  - intros m. rewrite <- elem_of_dom, lo_pricing0. apply elem_of_list_to_set.
  - intros name l Hl. destruct (Ht name l Hl) as [Hnd Hall]. split; [done|]. rewrite Forall_forall in Hall.
    intros e He. destruct (Hall e He) as [[H1 H2] _]. by apply (lo_enabled0 (te_Model e)).
  - intros n n' l l' e e' Hl Hl' He He' Hm. destruct (Ht n l Hl) as [_ H1], (Ht n' l' Hl') as [_ H2].
    rewrite Forall_forall in H1, H2. destruct (H1 e He) as [_ E1], (H2 e' He') as [_ E2]. congruence.
Qed.
End facts.
