(* ===== verification/Reload.v ===== *)
(** * cmd/gateway/reload.go: the live configuration and its replacement

    One generation of configuration is a registry, a price table and the tiers,
    built together; the store holds one generation and a reload replaces it whole
    or not at all.  The file is read twice, once to fingerprint it and once to
    load it, and may change in between. *)

From S2P Require Import Prelude Text Json Float32 Sha256 Budget Provider Chain Wire Sse Decode Router Http Adapters ProviderRegistry Duration ConfigProviders.

Record liveConfig := {
  lc_registry : Registry;
  lc_calc : Cost.Calculator;
  lc_tiers : gmap string (list Candidate);
  lc_tierNames : gmap string (list Candidate);
  lc_configHash : string
}.

Inductive live_error := HashError | LoadError (e : load_error) | RegistryError (e : registry_error).

Definition candidate_of (e : tierEntry) : Candidate := {| c_Provider := te_Provider e; c_Model := te_Model e |}.

(** [indexTiers]: the tiers by name, and the tier of every model in one. *)
Definition index_tier (byModel : gmap string (list Candidate)) (candidates : list Candidate) : gmap string (list Candidate) :=
  foldl (λ acc c, <[c_Model c := candidates]> acc) byModel candidates.

Definition indexTiers (tiers : gmap string (list tierEntry)) : gmap string (list Candidate) * gmap string (list Candidate) :=
  let byName := map candidate_of <$> tiers in
  (foldl (λ acc kv, index_tier acc kv.2) ∅ (map_to_list byName), byName).

Definition budget_pricing (p : ModelPricing) : Cost.Pricing :=
  {| Cost.InputPer1M := mp_InputPer1M p; Cost.OutputPer1M := mp_OutputPer1M p |}.

Definition configHash (file : option string) : option string :=
  match file with None => None | Some b => Some (hex_encode (sha256 b)) end.

Section live.
Context (fmt32 : float32 → string) (Getenv : string → string) (Unmarshal : string → option providersFile).

Definition loadLiveConfig (hashed file : option string) : result live_error (liveConfig * Z) :=
  match configHash hashed with
  | None => Err HashError
  | Some hash =>
      match LoadProviders Getenv Unmarshal file with
      | Err e => Err (LoadError e)
      | Ok providers =>
          match NewRegistry fmt32 (ps_Configs providers) with
          | Err e => Err (RegistryError e)
          | Ok registry =>
              let '(byModel, byName) := indexTiers (ps_Tiers providers) in
              Ok ({| lc_registry := registry;
                     lc_calc := Cost.NewCalculator (budget_pricing <$> ps_Pricing providers);
                     lc_tiers := byModel; lc_tierNames := byName; lc_configHash := hash |},
                  Z.of_nat (length (ps_Configs providers)))
          end
      end
  end.

(** [configStore]: its methods read through the current generation. *)
Definition configStore : Type := liveConfig.
Definition store_ForModel (s : configStore) (model : string) : result go_error provider := ForModel (lc_registry s) model.
Definition store_DefaultMaxTokensFor (s : configStore) (model : string) : option Z := DefaultMaxTokensFor (lc_registry s) model.
Definition TierFor (s : configStore) (model : string) : list Candidate := default [] (lc_tiers s !! model).
Definition TierNamed (s : configStore) (name : string) : list Candidate := default [] (lc_tierNames s !! name).
Definition store_Cost (s : configStore) (model : string) (i o : Z) : result Cost.cost_error Z := Cost.Cost (lc_calc s) model i o.
Definition store_Configs (s : configStore) : list Config := Configs (lc_registry s).

Record ReloadSummary := { rl_Providers : Z; rl_Teams : Z }.

(** [newReloader]'s closure, with the number of teams the team store has. *)
Definition reload (hashed file : option string) (teams : Z) (s : configStore) : result live_error ReloadSummary * configStore :=
  match loadLiveConfig hashed file with
  | Err e => (Err e, s)
  | Ok (next, n) => (Ok {| rl_Providers := n; rl_Teams := teams |}, next)
  end.

(** ** The index of tiers *)

Lemma index_tier_lookup acc cands m :
  index_tier acc cands !! m = if decide (m ∈ map c_Model cands) then Some cands else acc !! m.
Proof.
  unfold index_tier. assert (∀ l (acc : gmap string (list Candidate)), foldl (λ a c, <[c_Model c := cands]> a) acc l !! m =
    if decide (m ∈ map c_Model l) then Some cands else acc !! m) as H; [|apply H].
  intros l. induction l as [|c l IH]; intros a; cbn [foldl map]; [by rewrite decide_False by set_solver|].
  rewrite IH. destruct (decide (m ∈ map c_Model l)) as [Hin|Hin]; [by rewrite decide_True by set_solver|].
  destruct (decide (m = c_Model c)) as [->|Hne]; [rewrite lookup_insert_eq, decide_True by set_solver; done|].
  rewrite lookup_insert_ne by done. by rewrite decide_False by set_solver.
Qed.

Lemma index_all_lookup l acc m cands :
  foldl (λ acc (kv : string * list Candidate), index_tier acc kv.2) acc l !! m = Some cands →
  (∃ name, (name, cands) ∈ l ∧ m ∈ map c_Model cands) ∨ acc !! m = Some cands.
Proof.
  revert acc. induction l as [|[name cs] l IH]; intros acc; cbn [foldl]; [by right|].
  intros [(n & Hn & Hm)|Hacc]%IH; [left; exists n; set_solver|]. rewrite index_tier_lookup in Hacc. cbn [snd] in Hacc.
  destruct (decide (m ∈ map c_Model cs)); [|by right]. injection Hacc as ->. left. exists name. set_solver.
Qed.

Lemma indexTiers_lookup tiers m cands :
  (indexTiers tiers).1 !! m = Some cands →
  ∃ name l, tiers !! name = Some l ∧ cands = map candidate_of l ∧ m ∈ map te_Model l.
Proof.
  unfold indexTiers. cbn [fst]. intros [(name & Hin & Hm)|Hbad]%index_all_lookup; [|by rewrite lookup_empty in Hbad].
  apply elem_of_map_to_list, lookup_fmap_Some in Hin as (l & <- & Hl). exists name, l. split_and!; [done|done|].
  by rewrite map_map in Hm.
Qed.

Lemma index_all_covers l acc name cands m :
  (name, cands) ∈ l → m ∈ map c_Model cands →
  is_Some (foldl (λ acc (kv : string * list Candidate), index_tier acc kv.2) acc l !! m).
Proof.
  intros Hin Hm. revert acc Hin. induction l as [|kv l IH]; intros acc Hin; [set_solver|]. cbn [foldl].
  apply elem_of_cons in Hin as [<-|Hin]; [|by apply IH]. cbn [snd].
  assert (is_Some (index_tier acc cands !! m)) as Hs by (rewrite index_tier_lookup, decide_True by done; eauto).
  clear IH. revert Hs. generalize (index_tier acc cands). induction l as [|kv l IH]; intros a Hs; [done|]. cbn [foldl].
  apply IH. rewrite index_tier_lookup. case_decide; eauto.
Qed.

(** ** A generation is consistent *)

(** A candidate the registry resolves to the provider it names. *)
Definition resolves (s : liveConfig) (c : Candidate) : Prop :=
  ∃ p, store_ForModel s (c_Model c) = Ok p ∧ Name p = c_Provider c.

Record consistent (s : liveConfig) : Prop := {
  cn_served : ∀ m, is_Some (Cost.pricing (lc_calc s) !! m) ↔ ∃ p, store_ForModel s m = Ok p;
  cn_tokens : ∀ m p, store_ForModel s m = Ok p → ∃ n, store_DefaultMaxTokensFor s m = Some n ∧ 0 < n;
  cn_tiers : ∀ m, Forall (resolves s) (TierFor s m) ∧ NoDup (map c_Model (TierFor s m));
  cn_named : ∀ n, Forall (resolves s) (TierNamed s n);
  cn_member : ∀ n c, c ∈ TierNamed s n → TierFor s (c_Model c) = TierNamed s n;
  cn_own : ∀ m, TierFor s m ≠ [] → m ∈ map c_Model (TierFor s m)
}.

Lemma resolves_entry cfgs r cfg m :
  holds fmt32 cfgs r → cfg ∈ cfgs → m ∈ cf_Models cfg → ∃ p, ForModel r m = Ok p ∧ Name p = cf_Name cfg.
Proof.
  intros Hh Hc Hm. pose proof (holds_acceptable _ _ _ Hh) as Hacc.
  destruct (proj1 (Forall_forall _ _) (ac_adapters _ _ Hacc) cfg Hc) as [p Hp]. exists p. unfold ForModel.
  rewrite (proj2 (ho_byModel _ _ _ Hh m p)) by eauto. split; [done|]. by eapply newAdapter_name.
Qed.

Lemma ForModel_entry cfgs r m p :
  holds fmt32 cfgs r → ForModel r m = Ok p → ∃ cfg, cfg ∈ cfgs ∧ m ∈ cf_Models cfg ∧ newAdapter fmt32 cfg = Ok p.
Proof.
  intros Hh. unfold ForModel. destruct (byModel r !! m) as [q|] eqn:Hq; [|done]. intros [= <-]. by apply (ho_byModel _ _ _ Hh).
Qed.

Lemma live_consistent hashed file s n : loadLiveConfig hashed file = Ok (s, n) → consistent s.
Proof.
  unfold loadLiveConfig. destruct (configHash hashed) as [hash|]; [|done].
  destruct (LoadProviders Getenv Unmarshal file) as [ps|e] eqn:Hps; [|done].
  apply (LoadProviders_serviceable fmt32) in Hps. destruct Hps as [V1 V2 V3 V4 V5 V6].
  destruct (NewRegistry fmt32 (ps_Configs ps)) as [r|e] eqn:Hr; [|done]. apply NewRegistry_holds in Hr.
  pose proof (indexTiers_lookup (ps_Tiers ps)) as Hix.
  assert (∀ name l, ps_Tiers ps !! name = Some l → ∀ c, c ∈ map candidate_of l →
    is_Some ((indexTiers (ps_Tiers ps)).1 !! c_Model c)) as Hcov.
  { intros name l Hl c Hc. apply (index_all_covers _ _ name (map candidate_of l)); [|by apply list_elem_of_fmap_2].
    apply elem_of_map_to_list, lookup_fmap_Some. eauto. }
  unfold indexTiers in *. cbn [fst] in *. set (ix := foldl _ _ _) in *. intros [= <- _].
  assert (∀ name l, ps_Tiers ps !! name = Some l → ∀ c, c ∈ map candidate_of l →
    ∃ p, ForModel r (c_Model c) = Ok p ∧ Name p = c_Provider c) as Hres.
  { intros name l Hl c (e & -> & He)%list_elem_of_fmap. destruct (V5 name l Hl) as [_ He'].
    destruct (He' e He) as (cfg & Hc & Hn & Hm). cbn [c_Model c_Provider candidate_of]. rewrite <- Hn. by eapply resolves_entry. }
  assert (∀ l, map c_Model (map candidate_of l) = map te_Model l) as Hmm by (intros l; by rewrite map_map).
  split; unfold resolves, store_ForModel, store_DefaultMaxTokensFor, TierFor, TierNamed; cbn [lc_registry lc_calc lc_tiers lc_tierNames].
  - intros m. cbn. rewrite lookup_fmap, fmap_is_Some, V4, in_models. split.
    + intros (cfg & Hc & Hm). destruct (resolves_entry _ _ _ _ Hr Hc Hm) as (p & Hp & _). eauto.
    + intros [p Hp]. destruct (ForModel_entry _ _ _ _ Hr Hp) as (cfg & ? & ? & _). eauto.
  - intros m p Hp. destruct (ForModel_entry _ _ _ _ Hr Hp) as (cfg & Hc & Hm & _). exists (cf_DefaultMaxTokens cfg). split.
    + apply (ho_tokens _ _ _ Hr). eauto.
    + by apply (proj1 (Forall_forall _ _) V3 cfg Hc).
  - intros m. destruct (ix !! m) as [cands|] eqn:Hm; [|by split; constructor].
    apply Hix in Hm as (name & l & Hl & -> & _). cbn [from_option id]. split; [|rewrite Hmm; by eapply V5].
    apply Forall_forall. by eapply Hres.
  - intros n0. rewrite lookup_fmap. destruct (ps_Tiers ps !! n0) as [l|] eqn:Hl; [|constructor]. cbn [fmap option_fmap option_map from_option id].
    apply Forall_forall. by eapply Hres.
  - intros n0 c. rewrite lookup_fmap. destruct (ps_Tiers ps !! n0) as [l|] eqn:Hl; cbn [fmap option_fmap option_map from_option id]; [|set_solver].
    intros Hc. destruct (Hcov _ _ Hl c Hc) as [cands Hcands]. rewrite Hcands. cbn [from_option id].
    apply Hix in Hcands as (n' & l' & Hl' & -> & Hin). apply list_elem_of_fmap in Hc as (e & -> & He).
    apply list_elem_of_fmap in Hin as (e' & Hm & He'). assert (n0 = n') as -> by (by eapply (V6 n0 n' l l' e e')).
    congruence.
  - intros m. destruct (ix !! m) as [cands|] eqn:Hm; [|done]. cbn [from_option id]. intros _.
    apply Hix in Hm as (name & l & Hl & -> & Hin). by rewrite Hmm.
Qed.

(** What [LoadProviders] accepts, [NewRegistry] accepts. *)
Lemma registry_never_refuses hashed file e : loadLiveConfig hashed file ≠ Err (RegistryError e).
Proof.
  unfold loadLiveConfig. destruct (configHash hashed); [|done].
  destruct (LoadProviders Getenv Unmarshal file) as [ps|] eqn:Hps; [|done].
  apply (LoadProviders_serviceable fmt32) in Hps. destruct (NewRegistry_ok fmt32 (ps_Configs ps)) as [r ->]; [apply Hps..|].
  by destruct (indexTiers _).
Qed.

(** A number of reloads, one after the other: what the file was, and how many
    teams there were. *)
Record attempt := { at_hashed : option string; at_file : option string; at_teams : Z }.

Definition try_reload (s : configStore) (a : attempt) : configStore := (reload (at_hashed a) (at_file a) (at_teams a) s).2.
Definition reload_all (s : configStore) (l : list attempt) : configStore := foldl try_reload s l.

Lemma try_reload_consistent s a : consistent s → consistent (try_reload s a).
Proof.
  intros Hs. unfold try_reload, reload. destruct (loadLiveConfig _ _) as [[next n]|e] eqn:Hl; [|done].
  by eapply live_consistent.
Qed.

(** C12: Whatever the configuration files hold, what serves is consistent.  From the
    first load through any sequence of reloads, good or bad: a model has a price
    exactly if some provider serves it, and then it has a positive default of
    tokens; every candidate of every tier is served by the provider it names, once;
    a model is in one tier, and finds it by its own name.  A reload that fails
    leaves the store as it was, and fails because the file could not be read or was
    refused by the loader: the registry never refuses what the loader accepted. *)
Theorem reloads_keep_consistent hashed file s n attempts :
  loadLiveConfig hashed file = Ok (s, n) →
  consistent (reload_all s attempts) ∧
  ∀ a e s', reload (at_hashed a) (at_file a) (at_teams a) (reload_all s attempts) = (Err e, s') →
    s' = reload_all s attempts ∧
    ((e = HashError ∧ at_hashed a = None) ∨
     ∃ e', e = LoadError e' ∧ LoadProviders Getenv Unmarshal (at_file a) = Err e').
Proof.
  intros Hl. split.
  - unfold reload_all. apply live_consistent in Hl. clear -Hl. revert s Hl.
    induction attempts as [|a l IH]; intros s Hs; [done|]. by apply IH, try_reload_consistent.
  - intros a e s'. unfold reload. pose proof (registry_never_refuses (at_hashed a) (at_file a)) as Hnr.
    destruct (loadLiveConfig (at_hashed a) (at_file a)) as [[next k]|e'] eqn:Ha; [done|]. intros [= -> <-]. split; [done|].
    unfold loadLiveConfig, configHash in Ha. destruct (at_hashed a); [|left; split; congruence].
    destruct (LoadProviders Getenv Unmarshal (at_file a)) as [ps|le]; [|right; exists le; split; congruence].
    destruct (NewRegistry fmt32 _) as [r|re]; [by destruct (indexTiers _)|]. exfalso. by apply (Hnr re).
Qed.
End live.

(** ** A file with two providers, one of them off, and a reload that fails *)

Definition entry (name type model : string) (on : bool) : providerEntry :=
  {| pe_Name := name; pe_Type := type; pe_Enabled := Some on; pe_BaseURL := "http://x"; pe_APIKeyEnv := "KEY";
     pe_Timeout := "30s"; pe_DefaultMaxTokens := 1024; pe_PingModel := "";
     pe_Models := [{| me_Name := model; me_InputPer1MU := f64_of_Z 1; me_OutputPer1MU := f64_of_Z 2 |}] |}.

Definition demo_file : providersFile :=
  {| pf_Providers := [entry "openai" "openai-compatible" "gpt" true; entry "claude" "anthropic" "haiku" false;
                      entry "local" "ollama" "llama" true];
     pf_Tiers := {["fast"%string := [{| te_Provider := "openai"; te_Model := "gpt" |}; {| te_Provider := "claude"; te_Model := "haiku" |};
                                     {| te_Provider := "local"; te_Model := "llama" |}]]} |}.

(** A library that knows one file. *)
Definition demo_yaml (raw : string) : option providersFile := if bool_decide (raw = "good"%string) then Some demo_file else None.
Definition demo_env (_ : string) : string := "secret".

Definition demo_live : result live_error (liveConfig * Z) :=
  loadLiveConfig (λ _, ""%string) demo_env demo_yaml (Some "good"%string) (Some "good"%string).

Example demo_loads :
  match demo_live with
  | Ok (s, n) => n = 2 ∧ TierFor s "gpt" = [{| c_Provider := "openai"; c_Model := "gpt" |}; {| c_Provider := "local"; c_Model := "llama" |}]
                 ∧ TierFor s "haiku" = [] ∧ store_Cost s "gpt" 1000000 1000000 = Ok 3000000
  | Err _ => False
  end.
Proof. vm_compute. done. Qed.

Lemma reloads_keep_consistent_witness :
  match demo_live with
  | Ok (s, _) =>
      consistent (reload_all (λ _, ""%string) demo_env demo_yaml s [{| at_hashed := Some "bad"%string; at_file := Some "bad"%string; at_teams := 1 |}])
  | Err _ => False
  end.
Proof.
  pose proof demo_loads as Hl. destruct demo_live as [[s n]|e] eqn:Hd; [|exact Hl].
  apply (reloads_keep_consistent (λ _, ""%string) demo_env demo_yaml (Some "good"%string) (Some "good"%string) s n _ Hd).
Defined.
