(* ===== verification/Quality.v ===== *)
(** * internal/quality: sampling, judging and the scoring workers

    sample.go's policy, judge.go's transcript and reply parser, worker.go's
    bounded queue and its goroutines, and [considerQuality] of
    internal/proxy/quality.go.  The judge model and the database are outside:
    what they answer is a parameter of each step. *)

From S2P Require Import Prelude Text Json Float32 Wire Metrics Decode CacheStore CacheLookup.

(** ** sample.go *)

Record Candidate := {
  q_Routed : bool; q_Downgraded : bool; q_CacheHit : bool; q_CacheSemantic : bool;
  q_Similarity : float32; q_Threshold : float32; q_Flagged : bool }.

Record Config := { RoutedRate : float64; NearThresholdBand : float32 }.

Inductive Reason := ReasonFlagged | ReasonDowngraded | ReasonNearThreshold | ReasonRoutedSample.

#[export] Instance Reason_eq_dec : EqDecision Reason.
Proof. solve_decision. Defined.

Definition nearThreshold (cfg : Config) (c : Candidate) : bool :=
  f_geb (q_Similarity c) (q_Threshold c) &&
  f_ltb (q_Similarity c) (f32_add (q_Threshold c) (NearThresholdBand cfg)).

(** [None] is a nil sampler; [draw] is what [rand.Float64] would return. *)
Definition Decide (cfg : option Config) (draw : float64) (c : Candidate) : option Reason :=
  match cfg with
  | None => None
  | Some cfg =>
      if q_Flagged c then Some ReasonFlagged
      else if q_CacheHit c && q_CacheSemantic c && nearThreshold cfg c then Some ReasonNearThreshold
      else if q_Downgraded c then Some ReasonDowngraded
      else if q_Routed c && f_ltb draw (RoutedRate cfg) then Some ReasonRoutedSample
      else None
  end.

Record Sample := {
  s_RequestID : string; s_TeamID : string; s_Model : string; s_Provider : string;
  s_Reason : Reason; s_Prompt : list Message; s_Response : string }.

(** ** internal/proxy/quality.go *)

Definition quality_candidate (m : requestMetrics) (r : Result) : Candidate :=
  {| q_Routed := bool_decide (mt_routedTier m ≠ ""%string);
     q_Downgraded := match mt_routingSavingsMicros m with Some s => 0 <? s | None => false end;
     q_CacheHit := Hit r;
     q_CacheSemantic := bool_decide (RTier r = TierSemantic);
     q_Similarity := RSimilarity r; q_Threshold := RThreshold r; q_Flagged := false |}.

(** The sample it enqueues, if any.  [verifier] is the handler's, with its
    sampler; [m] the request's metrics, if it has any. *)
Definition considerQuality (verifier : option (option Config)) (draw : float64) (requestID : string)
    (m : option requestMetrics) (req : chatRequest) (servedModel servedProvider response : string)
    (cacheResult : Result) : option Sample :=
  match verifier, m with
  | Some cfg, Some m =>
      if bool_decide (response = ""%string) || bool_decide (mt_teamID m = ""%string) then None
      else match Decide cfg draw (quality_candidate m cacheResult) with
           | None => None
           | Some reason =>
               Some {| s_RequestID := requestID; s_TeamID := mt_teamID m; s_Model := servedModel;
                       s_Provider := servedProvider; s_Reason := reason;
                       s_Prompt := pr_Messages (toProviderRequest req); s_Response := response |}
           end
  | _, _ => None
  end.

(** ** judge.go *)

Definition minScore : float64 := f64_of_Z 1.
Definition maxScore : float64 := f64_of_Z 5.

Record Verdict := { v_Score : float64; v_Reason : string }.

Definition clamp (n : float64) : float64 :=
  if f_ltb n minScore then minScore else if f_ltb maxScore n then maxScore else n.

Definition LF : string := String (chr 10) "".

Definition transcript (s : Sample) : string :=
  ("## Request" ++ LF ++
   cat (map (λ m, "[" ++ pm_Role m ++ "] " ++ pm_Content m ++ LF)%string (s_Prompt s)) ++
   LF ++ "## Response" ++ LF ++ s_Response s)%string.

(** [strings.IndexByte] and [strings.LastIndexByte], as the text from the
    first and the text up to the last. *)
Fixpoint from_byte (c : Z) (s : string) : option string :=
  match s with
  | EmptyString => None
  | String d s' => if byte d =? c then Some s else from_byte c s'
  end.
Fixpoint upto_last (c : Z) (s : string) : option string :=
  match s with
  | EmptyString => None
  | String d s' => match upto_last c s' with
                   | Some t => Some (String d t)
                   | None => if byte d =? c then Some (String d EmptyString) else None
                   end
  end.

Definition set_verdict_field (k : string) (v : json) (x : Verdict) : option Verdict :=
  if same_field "score" k then
    match v with
    | JNum lit => match ParseFloat64 lit with
                  | Some n => Some {| v_Score := n; v_Reason := v_Reason x |} | None => None end
    | JNull => Some x
    | _ => None
    end
  else if same_field "reason" k then
    match into_string (v_Reason x) v with
    | Some s => Some {| v_Score := v_Score x; v_Reason := s |} | None => None end
  else Some x.

Definition zero_verdict : Verdict := {| v_Score := S754_zero false; v_Reason := "" |}.

(** The strict reading: the JSON between the outer braces, with a score. *)
Definition strict_verdict (raw : string) : option Verdict :=
  match from_byte 123 raw with
  | None => None
  | Some s =>
      match upto_last 125 s with
      | None => None
      | Some obj =>
          match parse obj with
          | None => None
          | Some v =>
              match into_struct set_verdict_field zero_verdict v with
              | Some x => if SFeqb (v_Score x) (S754_zero false) then None
                          else Some {| v_Score := clamp (v_Score x); v_Reason := v_Reason x |}
              | None => None
              end
          end
      end
  end.

(** The two patterns.  What follows a word is skipped up to the next digit, so
    a match at a position is unique. *)
Fixpoint eat_folded (word : list Z) (us : stream) : option stream :=
  match word, us with
  | [], _ => Some us
  | c :: word', (r, _) :: us' => if fold_rune r =? c then eat_folded word' us' else None
  | _, [] => None
  end.

Fixpoint skip_nondigits (n : nat) (us : stream) : stream :=
  match n, us with
  | S n', (r, _) :: us' => if is_digit r then us else skip_nondigits n' us'
  | _, _ => us
  end.

(** [[0-5](?:\.[0-9]+)?] *)
Definition score_number (us : stream) : option (string * stream) :=
  match us with
  | (r, bs) :: us' =>
      if (48 <=? r) && (r <=? 53) then
        match us' with
        | (dot, d) :: us2 =>
            if dot =? 46 then
              match digits1 us2 with
              | Some (ds, rest) => Some ((bs ++ d ++ ds)%string, rest)
              | None => Some (bs, us')
              end
            else Some (bs, us')
        | [] => Some (bs, us')
        end
      else None
  | [] => None
  end.

Definition or_else {A} (a b : option A) : option A := match a with Some _ => a | None => b end.

Definition after_word (word : string) (us : stream) : option string :=
  match eat_folded (runes word) us with
  | Some rest => option_map fst (score_number (skip_nondigits 15 rest))
  | None => None
  end.

Definition scoreRe_at (us : stream) : option string :=
  or_else (after_word "score" us) (or_else (after_word "rating" us) (after_word "rate" us)).

Definition re_space (r : Z) : bool := (r =? 32) || (r =? 9) || (r =? 10) || (r =? 12) || (r =? 13).
Fixpoint skip_re_space (us : stream) : stream :=
  match us with (r, _) :: us' => if re_space r then skip_re_space us' else us | [] => [] end.

Definition outOfFiveRe_at (us : stream) : option string :=
  match score_number us with
  | None => None
  | Some (lit, rest) =>
      match skip_re_space rest with
      | (slash, _) :: rest =>
          if slash =? 47 then
            match skip_re_space rest with
            | (five, _) :: _ => if five =? 53 then Some lit else None
            | [] => None
            end
          else None
      | [] => None
      end
  end.

(** The leftmost match. *)
Fixpoint find_match (at_ : stream → option string) (us : stream) : option string :=
  match at_ us with
  | Some m => Some m
  | None => match us with [] => None | _ :: us' => find_match at_ us' end
  end.

Definition parseVerdict (raw : string) : option Verdict :=
  let raw := trim_space raw in
  match strict_verdict raw with
  | Some v => Some v
  | None =>
      let try re := match find_match re (units raw) with
                    | Some lit => match ParseFloat64 lit with
                                  | Some n => Some {| v_Score := clamp n; v_Reason := raw |} | None => None end
                    | None => None
                    end in
      or_else (try scoreRe_at) (try outOfFiveRe_at)
  end.

(** The judge's request and the verdict of its reply.  [resolve] is whether the
    judge model is served; [complete] what its provider answers. *)
Inductive judge_error := JudgeUnresolved | JudgeCallFailed | NoScore.

Definition judge_request (rubric model : string) (s : Sample) : Request :=
  {| pr_Model := model;
     pr_Messages := [{| pm_Role := Role_string RoleSystem; pm_Content := rubric |};
                     {| pm_Role := Role_string RoleUser; pm_Content := transcript s |}];
     pr_Temperature := Some f32_zero; pr_MaxTokens := 200; pr_Stream := false; pr_Stop := [] |}.

Definition Score (rubric model : string) (resolve : string → bool)
    (complete : Request → option Response) (s : Sample) : result judge_error Verdict :=
  if negb (resolve model) then Err JudgeUnresolved
  else match complete (judge_request rubric model s) with
       | None => Err JudgeCallFailed
       | Some resp => match parseVerdict (rs_Content resp) with Some v => Ok v | None => Err NoScore end
       end.

Definition jq : string := quote.
Example parseVerdict_demo :
  map (λ raw, match parseVerdict raw with Some v => f32_bits (f64_to_f32 (v_Score v)) | None => 0 end)
    ["Sure! {" ++ jq ++ "score" ++ jq ++ ": 4.5, " ++ jq ++ "reason" ++ jq ++ ": null, " ++ jq ++ "x" ++ jq ++ ":[]}";
     "{" ++ jq ++ "score" ++ jq ++ ": 9}"; "SCORE: 3"; "I rate it 2.25 overall"; "it gets 4 / 5"; "ten out of ten";
     "Score: 10"; "{" ++ jq ++ "score" ++ jq ++ ": 0}"]%string
  = map (λ x, default 0 (f32_bits <$> ParseFloat32 x)) ["4.5"; "5"; "3"; "2.25"; "4"; "0"; "1"; "1"]%string.
Proof. vm_compute. reflexivity. Qed.

(** Prose is read up to the first digit that can be a score, so a judge that
    grades out of ten loses the second digit of its best mark, while the same
    number in JSON is clamped to five. *)
Theorem prose_ten_scores_one :
  option_map v_Score (parseVerdict "Score: 10/10. Excellent answer.") = Some minScore ∧
  option_map v_Score (parseVerdict ("{" ++ jq ++ "score" ++ jq ++ ": 10}")) = Some maxScore.
Proof. vm_compute. split; reflexivity. Qed.

(** ** Scores stay on the scale *)

Definition in_scale (x : float64) : Prop := f_geb x minScore = true ∧ f_geb maxScore x = true.

Lemma clamp_in_scale n : n ≠ S754_nan → in_scale (clamp n).
Proof.
  intros Hn. unfold clamp. destruct (f_ltb n minScore) eqn:H1; [by vm_compute|].
  destruct (f_ltb maxScore n) eqn:H2; [by vm_compute|].
  split; apply f_ltb_false; done.
Qed.

Lemma or_else_Some {A} (a b : option A) x : or_else a b = Some x → a = Some x ∨ b = Some x.
Proof. destruct a; [left|right]; done. Qed.

Lemma into_fields_verdict ms x y :
  into_fields set_verdict_field ms x = Some y → v_Score x ≠ S754_nan → v_Score y ≠ S754_nan.
Proof.
  revert x. induction ms as [|[k v] ms IH]; intros x; cbn [into_fields]; [by intros [= ->]|].
  destruct (set_verdict_field k v x) as [x'|] eqn:Hs; [|done]. intros Hy Hx. apply (IH x'); [done|].
  unfold set_verdict_field in Hs. destruct (same_field "score" k).
  - destruct v; simplify_eq; try done. destruct (ParseFloat64 lit) eqn:Hp; simplify_eq.
    by apply parse_float_not_nan in Hp.
  - destruct (same_field "reason" k); [|by simplify_eq]. destruct (into_string _ v); by simplify_eq.
Qed.

(** a stored quality score is always on the rubric's scale.  Whatever text
    the judge model answers, every verdict the parser extracts from it (as
    JSON, or from prose) is a number from one to five. *)
Theorem verdict_in_scale rubric model resolve complete s v (scored : Score rubric model resolve complete s = Ok v) :
  in_scale (v_Score v).
Proof.
  unfold Score in scored. destruct (negb _); [done|]. destruct (complete _) as [resp|]; [|done].
  destruct (parseVerdict (rs_Content resp)) as [v'|] eqn:Hp; simplify_eq.
  unfold parseVerdict in Hp. set (raw := trim_space _) in Hp.
  destruct (strict_verdict raw) as [v'|] eqn:Hs; simplify_eq.
  - unfold strict_verdict, into_struct in Hs. repeat case_match; simplify_eq; cbn [v_Score];
      apply clamp_in_scale; by eapply into_fields_verdict.
  - assert (∀ re v', match find_match re (units raw) with
      | Some lit => match ParseFloat64 lit with
                    | Some n => Some {| v_Score := clamp n; v_Reason := raw |} | None => None end
      | None => None end = Some v' → in_scale (v_Score v')) as Hre.
    { intros re v'. destruct (find_match re _) as [lit|]; [|done].
      destruct (ParseFloat64 lit) as [n|] eqn:Hn; [|done]. intros [= <-].
      apply clamp_in_scale. by eapply parse_float_not_nan. }
    apply or_else_Some in Hp as [Hp|Hp]; by eapply Hre.
Qed.

(** ** The policy *)

(** The risky answers are scored whatever the dice say; an answer that was
    neither routed nor a cache hit never is. *)
Lemma Decide_risky cfg draw c :
  q_Flagged c = true ∨ (q_CacheHit c = true ∧ q_CacheSemantic c = true ∧ nearThreshold cfg c = true) ∨
  q_Downgraded c = true →
  is_Some (Decide (Some cfg) draw c) ∧ Decide (Some cfg) draw c ≠ Some ReasonRoutedSample.
Proof.
  intros H. unfold Decide. destruct (q_Flagged c); [by eauto|].
  destruct (q_CacheHit c && q_CacheSemantic c && nearThreshold cfg c) eqn:Hn; [by eauto|].
  destruct (q_Downgraded c); [by eauto|]. destruct H as [H|[(H1 & H2 & H3)|H]]; try done.
  by rewrite H1, H2, H3 in Hn.
Qed.

Lemma considerQuality_sound verifier draw id m req model prov response r s :
  considerQuality verifier draw id m req model prov response r = Some s →
  s_Response s = response ∧ response ≠ ""%string ∧ s_RequestID s = id ∧ s_TeamID s ≠ ""%string ∧
  s_Reason s ≠ ReasonFlagged ∧
  (s_Reason s = ReasonNearThreshold → Hit r = true ∧ RTier r = TierSemantic).
Proof.
  unfold considerQuality. destruct verifier as [cfg|], m as [m|]; try done.
  destruct (_ || _) eqn:Hg; [done|]. apply orb_false_iff in Hg as [H1%bool_decide_eq_false H2%bool_decide_eq_false].
  destruct (Decide cfg draw _) as [reason|] eqn:Hd; [|done]. intros [= <-]. cbn. split_and!; try done;
    unfold Decide in Hd; destruct cfg as [cfg|]; try done; cbn in Hd; repeat case_match; simplify_eq; try done.
  intros _. apply andb_true_iff in H as [[H3 H4%bool_decide_eq_true]%andb_true_iff _]. done.
Qed.

(** ** worker.go *)

Record WorkerConfig := { wc_QueueSize : Z; wc_Concurrency : Z; wc_ScoreTimeout : Z }.

Definition wc_withDefaults (c : WorkerConfig) : WorkerConfig :=
  {| wc_QueueSize := if wc_QueueSize c <=? 0 then 256 else wc_QueueSize c;
     wc_Concurrency := if wc_Concurrency c <=? 0 then 4 else wc_Concurrency c;
     wc_ScoreTimeout := if wc_ScoreTimeout c <=? 0 then 20 * second else wc_ScoreTimeout c |}.

(** The queue, the samples being scored, and how the others ended: the counters
    [scored], [error] and [dropped], and those a panic took (the supervisor
    restarts the loop; nothing counts the sample).  [qw_scores] is the score
    column of the request rows. *)
Record Worker := {
  qw_queue : list Sample; qw_busy : list Sample; qw_scored : list (Sample * Verdict);
  qw_error : list Sample; qw_dropped : list Sample; qw_lost : list Sample;
  qw_scores : gmap string (float64 * Reason)
}.

Definition NewWorker : Worker :=
  {| qw_queue := []; qw_busy := []; qw_scored := []; qw_error := []; qw_dropped := []; qw_lost := [];
     qw_scores := ∅ |}.

Section worker.
Context (cfg : WorkerConfig).

Definition Enqueue (s : Sample) (w : Worker) : Worker :=
  if Z.of_nat (length (qw_queue w)) <? wc_QueueSize cfg
  then {| qw_queue := qw_queue w ++ [s]; qw_busy := qw_busy w; qw_scored := qw_scored w;
          qw_error := qw_error w; qw_dropped := qw_dropped w; qw_lost := qw_lost w; qw_scores := qw_scores w |}
  else {| qw_queue := qw_queue w; qw_busy := qw_busy w; qw_scored := qw_scored w;
          qw_error := qw_error w; qw_dropped := qw_dropped w ++ [s]; qw_lost := qw_lost w;
          qw_scores := qw_scores w |}.

(** An idle goroutine takes the oldest sample. *)
Definition take_sample (s : Sample) (rest : list Sample) (w : Worker) : Worker :=
  {| qw_queue := rest; qw_busy := s :: qw_busy w; qw_scored := qw_scored w; qw_error := qw_error w;
     qw_dropped := qw_dropped w; qw_lost := qw_lost w; qw_scores := qw_scores w |}.

(** logstore's [SetQualityScore]: the UPDATE touches the row if it is there. *)
Definition SetQualityScore (logged : bool) (id : string) (score : float64) (reason : Reason)
    (scores : gmap string (float64 * Reason)) : gmap string (float64 * Reason) :=
  if logged then <[id := (score, reason)]> scores else scores.

(** What scoring came to: the judge's answer or a panic in it, and whether the
    UPDATE succeeded and found the row. *)
Inductive score_fate :=
| Judged (v : result judge_error Verdict) (stored : bool) (logged : bool)
| ScorePanics.

(** [process], of a sample a goroutine holds; [busy] are the others'. *)
Definition process (f : score_fate) (s : Sample) (busy : list Sample) (w : Worker) : Worker :=
  match f with
  | ScorePanics =>
      {| qw_queue := qw_queue w; qw_busy := busy; qw_scored := qw_scored w; qw_error := qw_error w;
         qw_dropped := qw_dropped w; qw_lost := s :: qw_lost w; qw_scores := qw_scores w |}
  | Judged (Ok v) true logged =>
      {| qw_queue := qw_queue w; qw_busy := busy; qw_scored := (s, v) :: qw_scored w;
         qw_error := qw_error w; qw_dropped := qw_dropped w; qw_lost := qw_lost w;
         qw_scores := SetQualityScore logged (s_RequestID s) (v_Score v) (s_Reason s) (qw_scores w) |}
  | Judged _ _ _ =>
      {| qw_queue := qw_queue w; qw_busy := busy; qw_scored := qw_scored w; qw_error := s :: qw_error w;
         qw_dropped := qw_dropped w; qw_lost := qw_lost w; qw_scores := qw_scores w |}
  end.

(** The handlers and the goroutines interleave; the label is what a handler
    offered.  [judge] is what the judge model answers about a sample. *)
Inductive qstep (judge : Sample → result judge_error Verdict → Prop) : list Sample → Worker → Worker → Prop :=
| QEnqueue s w : qstep judge [s] w (Enqueue s w)
| QTake s rest w :
    qw_queue w = s :: rest → Z.of_nat (length (qw_busy w)) < wc_Concurrency cfg →
    qstep judge [] w (take_sample s rest w)
| QProcess f s b1 b2 w :
    qw_busy w = b1 ++ s :: b2 → (∀ v st lg, f = Judged v st lg → judge s v) →
    qstep judge [] w (process f s (b1 ++ b2) w).

Inductive qrun (judge : Sample → result judge_error Verdict → Prop) : list Sample → Worker → Prop :=
| QStart : qrun judge [] NewWorker
| QNext offered new w w' : qrun judge offered w → qstep judge new w w' → qrun judge (offered ++ new) w'.

Record worker_ok (judge : Sample → result judge_error Verdict → Prop) (offered : list Sample) (w : Worker) : Prop := {
  qo_all : offered ≡ₚ qw_queue w ++ qw_busy w ++ map fst (qw_scored w) ++ qw_error w ++ qw_lost w ++ qw_dropped w;
  qo_queue : Z.of_nat (length (qw_queue w)) ≤ wc_QueueSize cfg;
  qo_busy : Z.of_nat (length (qw_busy w)) ≤ wc_Concurrency cfg;
  qo_judged : ∀ s v, (s, v) ∈ qw_scored w → judge s (Ok v);
  qo_scores : ∀ id x reason, qw_scores w !! id = Some (x, reason) →
    ∃ s v, (s, v) ∈ qw_scored w ∧ s_RequestID s = id ∧ v_Score v = x ∧ s_Reason s = reason
}.

Lemma qstep_ok judge offered new w w' :
  qstep judge new w w' → worker_ok judge offered w → worker_ok judge (offered ++ new) w'.
Proof.
  intros Hs [Hall Hq Hb Hj Hsc]. destruct Hs as [s w|s rest w Hqe Hc|f s b1 b2 w Hbe Hf].
  - unfold Enqueue. destruct (Z.ltb_spec (Z.of_nat (length (qw_queue w))) (wc_QueueSize cfg));
      split; cbn [qw_queue qw_busy qw_scored qw_error qw_dropped qw_lost qw_scores]; try done.
    + rewrite Hall. solve_Permutation.
    + rewrite length_app. simpl. lia.
    + rewrite Hall. solve_Permutation.
  - rewrite app_nil_r. rewrite Hqe in *. split; cbn; try done.
    + rewrite Hall. solve_Permutation.
    + cbn in Hq. lia.
    + lia.
  - rewrite app_nil_r. rewrite Hbe in *. rewrite length_app in Hb. cbn [length] in Hb.
    assert (Z.of_nat (length (b1 ++ b2)) ≤ wc_Concurrency cfg) by (rewrite length_app; lia).
    assert (offered ≡ₚ s :: qw_queue w ++ (b1 ++ b2) ++ map fst (qw_scored w) ++ qw_error w ++ qw_lost w ++ qw_dropped w)
      as Hall' by (rewrite Hall; solve_Permutation).
    destruct f as [[v|e] [|] logged|]; cbn [process];
      (split; cbn [qw_queue qw_busy qw_scored qw_error qw_dropped qw_lost qw_scores]; try done;
       try (rewrite Hall'; cbn [map fst]; solve_Permutation)).
    + intros s' v' [[= -> ->]|Hin]%elem_of_cons; [by eapply Hf|by apply Hj].
    + intros id x reason. unfold SetQualityScore. destruct logged.
      * intros [(<- & [= <- <-])|(_ & Hl)]%lookup_insert_Some; [exists s, v; set_solver|].
        destruct (Hsc _ _ _ Hl) as (s' & v' & ? & ?). exists s', v'. set_solver.
      * intros Hl. destruct (Hsc _ _ _ Hl) as (s' & v' & ? & ?). exists s', v'. set_solver.
Qed.
End worker.

Lemma qrun_ok cfg judge offered w :
  0 < wc_QueueSize cfg → 0 < wc_Concurrency cfg → qrun cfg judge offered w → worker_ok cfg judge offered w.
Proof.
  intros HQ HC. induction 1 as [|offered new w w' _ IH Hs]; [|by eapply qstep_ok].
  split; cbn; try done; try lia. intros s v Hin. by apply elem_of_nil in Hin.
Qed.

Lemma wc_withDefaults_positive c :
  0 < wc_QueueSize (wc_withDefaults c) ∧ 0 < wc_Concurrency (wc_withDefaults c).
Proof. unfold wc_withDefaults. simpl. repeat case_match; bool_to_prop; lia. Qed.

(** quality scoring accounts for every sample and never holds a request
    up.  In any interleaving of handlers and scoring goroutines, with any judge
    answers, failures and panics, the samples offered are, each exactly once,
    queued, being scored, scored, failed, lost to a panic or dropped by a full
    queue; the queue and the number of concurrent judge calls stay within
    their bounds; and a score in the request table is the judge's own verdict
    on a sample of that request, with the reason it was taken for. *)
Theorem quality_samples_accounted conf judge offered w :
  let cfg := wc_withDefaults conf in
  qrun cfg judge offered w →
  offered ≡ₚ qw_queue w ++ qw_busy w ++ map fst (qw_scored w) ++ qw_error w ++ qw_lost w ++ qw_dropped w ∧
  Z.of_nat (length (qw_queue w)) ≤ wc_QueueSize cfg ∧
  Z.of_nat (length (qw_busy w)) ≤ wc_Concurrency cfg ∧
  (∀ id x reason, qw_scores w !! id = Some (x, reason) →
     ∃ s v, s ∈ offered ∧ judge s (Ok v) ∧ s_RequestID s = id ∧ v_Score v = x ∧ s_Reason s = reason).
Proof.
  intros cfg Hrun. destruct (wc_withDefaults_positive conf) as [HQ HC].
  destruct (qrun_ok _ _ _ _ HQ HC Hrun) as [Hall Hq Hb Hj Hs]. split_and!; try done.
  intros id x reason Hl. destruct (Hs _ _ _ Hl) as (s & v & Hin & H1 & H2 & H3). exists s, v.
  split_and!; try done; [|by apply Hj]. rewrite Hall. rewrite !elem_of_app. do 2 right. left.
  apply list_elem_of_In, in_map_iff. exists (s, v). split; [done|]. by apply list_elem_of_In.
Qed.

Definition demo_sample (id : string) : Sample :=
  {| s_RequestID := id; s_TeamID := "acme"; s_Model := "llama-3.3-70b"; s_Provider := "groq";
     s_Reason := ReasonDowngraded; s_Prompt := [{| pm_Role := "user"; pm_Content := "2+2?" |}];
     s_Response := "4" |}.
Definition demo_judge (s : Sample) : result judge_error Verdict :=
  Score "rubric" "gpt-4o" (λ _, true)
    (λ _, Some {| rs_Content := "Score: 4"; rs_FinishReason := FinishStop; rs_Usage := Usage_zero;
                  rs_Model := "gpt-4o"; rs_Provider := "openai"; rs_Latency := 0 |}) s.

Lemma verdict_in_scale_witness : in_scale (f64_of_Z 4).
Proof.
  apply (verdict_in_scale "rubric" "gpt-4o" (λ _, true)
    (λ _, Some {| rs_Content := "Score: 4"; rs_FinishReason := FinishStop; rs_Usage := Usage_zero;
                  rs_Model := "gpt-4o"; rs_Provider := "openai"; rs_Latency := 0 |}) (demo_sample "a")
    {| v_Score := f64_of_Z 4; v_Reason := "Score: 4" |}).
  vm_compute. reflexivity.
Defined.

(** Two samples for a queue of one: the first is scored, the second dropped. *)
Definition demo_workers : WorkerConfig := {| wc_QueueSize := 1; wc_Concurrency := 1; wc_ScoreTimeout := 0 |}.
Definition demo_worker_state : Worker :=
  let w := Enqueue (wc_withDefaults demo_workers) (demo_sample "b")
             (Enqueue (wc_withDefaults demo_workers) (demo_sample "a") NewWorker) in
  process (Judged (demo_judge (demo_sample "a")) true true) (demo_sample "a") []
    (take_sample (demo_sample "a") [] w).

Lemma quality_samples_accounted_witness :
  [demo_sample "a"; demo_sample "b"] ≡ₚ
    qw_queue demo_worker_state ++ qw_busy demo_worker_state ++ map fst (qw_scored demo_worker_state)
    ++ qw_error demo_worker_state ++ qw_lost demo_worker_state ++ qw_dropped demo_worker_state ∧
  qw_dropped demo_worker_state = [demo_sample "b"] ∧
  qw_scores demo_worker_state !! "a"%string = Some (f64_of_Z 4, ReasonDowngraded).
Proof.
  split; [|vm_compute; done].
  apply (quality_samples_accounted demo_workers (λ s v, v = demo_judge s)).
  eapply (QNext _ _ [demo_sample "a"; demo_sample "b"] []).
  - eapply (QNext _ _ [demo_sample "a"; demo_sample "b"] []).
    + eapply (QNext _ _ [demo_sample "a"] [demo_sample "b"]); [|apply QEnqueue].
      eapply (QNext _ _ [] [demo_sample "a"]); [apply QStart|apply QEnqueue].
    + apply (QTake _ _ (demo_sample "a") []); [reflexivity|vm_compute; reflexivity].
  - apply (QProcess _ _ (Judged (demo_judge (demo_sample "a")) true true) (demo_sample "a") [] []).
    + reflexivity.
    + by intros v st lg [= -> _ _].
Defined.
