(* ===== verification/ConfigFiles.v ===== *)
(** * internal/config: teams.go, router.go, cache.go and quality.go

    Validation of the other four configuration files, from what the YAML library
    decodes.  An optional file that does not exist turns its feature off.
    [strings.ToLower] is taken on ASCII letters, as in Router.v. *)

From S2P Require Import Prelude Text Float32 Auth CacheLookup Router Quality Http Duration.

(** Why a file is refused: the entry and the field. *)
Inductive file_error := FileUnreadable | FileUnparsable | Invalid (label field : string).

(** The file's bytes, nothing when there is no such file, or an error of the read. *)
Inductive file_read := Bytes (raw : string) | NotExist | ReadFailed.

Definition enabledOrDefault (b : option bool) : bool := match b with None => true | Some b => b end.

(** ** teams.go *)

Record teamEntry := {
  tm_ID : string; tm_Name : string; tm_APIKeyHash : string; tm_AllowedProviders : list string; tm_AllowedModels : list string;
  tm_RPM : Z; tm_TPM : Z; tm_MonthlyBudgetUSD : float64; tm_Priority : string; tm_IsAdmin : bool; tm_CacheIsolated : bool }.

Definition KeySourceConfig : string := "config".

Definition isSHA256Hex (s : string) : bool :=
  (String.length s =? 64)%nat &&
  forallb (λ c, (48 <=? c) && (c <=? 57) || (97 <=? c) && (c <=? 102)) (runes s).

Definition resolve_team (e : teamEntry) (label : string) : result file_error Team :=
  if bool_decide (tm_ID e = ""%string) then Err (Invalid label "id")
  else if bool_decide (tm_Name e = ""%string) then Err (Invalid label "name")
  else if negb (isSHA256Hex (tm_APIKeyHash e)) then Err (Invalid label "api_key_hash")
  else if is_nil (tm_AllowedProviders e) then Err (Invalid label "allowed_providers")
  else if is_nil (tm_AllowedModels e) then Err (Invalid label "allowed_models")
  else if tm_RPM e <=? 0 then Err (Invalid label "rate_limits.rpm")
  else if tm_TPM e <=? 0 then Err (Invalid label "rate_limits.tpm")
  else if SFleb (tm_MonthlyBudgetUSD e) (S754_zero false) then Err (Invalid label "monthly_budget_usd")
  else
    let team priority :=
      Ok {| t_ID := tm_ID e; t_Name := tm_Name e; t_OrganizationID := ""; t_KeyHash := tm_APIKeyHash e;
            t_AllowedProviders := tm_AllowedProviders e; t_AllowedModels := tm_AllowedModels e;
            t_RateLimits := {| RPM := tm_RPM e; TPM := tm_TPM e |};
            t_MonthlyBudgetMicros := usdToMicros (tm_MonthlyBudgetUSD e); t_Priority := priority;
            t_IsAdmin := tm_IsAdmin e; t_CacheIsolated := tm_CacheIsolated e; t_KeySource := KeySourceConfig;
            t_KeyMasked := ""; t_KeyCreatedAt := None |} in
    if bool_decide (tm_Priority e = "realtime"%string) then team PriorityRealtime
    else if bool_decide (tm_Priority e = "batch"%string) then team PriorityBatch
    else Err (Invalid label "priority").

Definition team_label (i : nat) (e : teamEntry) : string :=
  if bool_decide (tm_ID e = ""%string) then "teams[" ++ FormatInt (Z.of_nat i) ++ "]" else tm_ID e.

Fixpoint load_teams (i : nat) (es : list teamEntry) (seenIDs : gset string) (seenHashes : gmap string string)
    : result file_error (list Team) :=
  match es with
  | [] => Ok []
  | e :: es' =>
      if bool_decide (tm_ID e ∈ seenIDs ∧ tm_ID e ≠ ""%string) then Err (Invalid (tm_ID e) "id")
      else match resolve_team e (team_label i e) with
           | Err err => Err err
           | Ok team =>
               match seenHashes !! t_KeyHash team with
               | Some owner => Err (Invalid (t_ID team) "api_key_hash")
               | None =>
                   match load_teams (S i) es' ({[tm_ID e]} ∪ seenIDs) (<[t_KeyHash team := t_ID team]> seenHashes) with
                   | Err err => Err err
                   | Ok teams => Ok (team :: teams)
                   end
               end
           end
  end.

(** A file of teams must exist. *)
Definition LoadTeams (Unmarshal : string → option (list teamEntry)) (file : file_read) : result file_error (list Team) :=
  match file with
  | Bytes raw =>
      match Unmarshal raw with
      | None => Err FileUnparsable
      | Some es => if is_nil es then Err (Invalid "" "teams") else load_teams 0 es ∅ ∅
      end
  | _ => Err FileUnreadable
  end.

(** ** router.go *)

Record routerEntry := { re_Enabled : option bool; re_Simple : string; re_Complex : string; re_Classifier : ClassifierConfig }.
Record RouterCfg := { ro_Enabled : bool; ro_Policy : Policy; ro_Classifier : ClassifierConfig }.

Definition zero : QArith_base.Q := QArith_base.Qmake 0 1.
Definition no_weights : Weights :=
  {| w_Length := zero; w_Reasoning := zero; w_Constraints := zero; w_Context := zero; w_Format := zero; w_Simple := zero |}.
Definition no_classifier : ClassifierConfig :=
  {| Router.Threshold := zero; cc_Weights := no_weights;
     cc_Scales := {| s_LengthTokens := 0; s_ReasoningMatches := 0; s_ConstraintMatches := 0; s_FormatMatches := 0 |};
     lex_Reasoning := []; lex_Constraints := []; lex_Format := []; lex_Simple := [] |}.
Definition router_off : RouterCfg :=
  {| ro_Enabled := false; ro_Policy := {| pol_Simple := ""; pol_Complex := "" |}; ro_Classifier := no_classifier |}.

Fixpoint validateLexicon (name : string) (patterns : list string) : option file_error :=
  match patterns with
  | [] => None
  | p :: ps =>
      if bool_decide (trim_space p = ""%string) then Some (Invalid name "empty")
      else if bool_decide (p ≠ Router.ToLower p) then Some (Invalid name "lowercase")
      else validateLexicon name ps
  end.

(** The first complaint of several checks, in order. *)
Definition orElse {E} (x y : option E) : option E := match x with Some e => Some e | None => y end.
Definition require {E} (b : bool) (e : E) : option E := if b then None else Some e.

Definition validateScales (s : Scales) : option file_error :=
  orElse (require (0 <? s_LengthTokens s) (Invalid "scales" "length_tokens"))
  (orElse (require (0 <? s_ReasoningMatches s) (Invalid "scales" "reasoning_matches"))
  (orElse (require (0 <? s_ConstraintMatches s) (Invalid "scales" "constraint_matches"))
          (require (0 <? s_FormatMatches s) (Invalid "scales" "format_matches")))).

Definition validateLexicons (c : ClassifierConfig) : option file_error :=
  orElse (validateLexicon "reasoning" (lex_Reasoning c)) (orElse (validateLexicon "constraints" (lex_Constraints c))
  (orElse (validateLexicon "format" (lex_Format c)) (validateLexicon "simple" (lex_Simple c)))).

Definition load_router (e : routerEntry) : result file_error RouterCfg :=
  if negb (enabledOrDefault (re_Enabled e)) then Ok router_off
  else if bool_decide (re_Simple e = ""%string ∨ re_Complex e = ""%string) then Err (Invalid "policy" "required")
  else if bool_decide (re_Simple e = re_Complex e) then Err (Invalid "policy" "same")
  else if bool_decide (re_Simple e = AutoModel ∨ re_Complex e = AutoModel) then Err (Invalid "policy" "auto")
  else match orElse (validateScales (cc_Scales (re_Classifier e))) (validateLexicons (re_Classifier e)) with
       | Some err => Err err
       | None => Ok {| ro_Enabled := true; ro_Policy := {| pol_Simple := re_Simple e; pol_Complex := re_Complex e |};
                       ro_Classifier := re_Classifier e |}
       end.

(** A file that may be absent. *)
Definition load_optional {A B} (Unmarshal : string → option A) (off : B) (load : A → result file_error B) (file : file_read)
    : result file_error B :=
  match file with
  | NotExist => Ok off
  | ReadFailed => Err FileUnreadable
  | Bytes raw => match Unmarshal raw with None => Err FileUnparsable | Some e => load e end
  end.

Definition LoadRouter (Unmarshal : string → option routerEntry) : file_read → result file_error RouterCfg :=
  load_optional Unmarshal router_off load_router.

(** ** cache.go *)

Record ttlRuleEntry := { tl_Name : string; tl_TTL : string; tl_Patterns : list string }.
Record cacheEntry := {
  ce_Enabled : option bool; ce_ReadTimeout : string; ce_WriteTimeout : string; ce_MaxEntriesPerTenant : Z;
  ce_TTLDefault : string; ce_TTLMax : string; ce_TTLRules : list ttlRuleEntry;
  ce_SemanticEnabled : option bool; ce_Threshold : float32; ce_MaxCandidates : Z;
  ce_BaseURL : string; ce_APIKeyEnv : string; ce_Model : string; ce_Dimensions : Z; ce_EmbedTimeout : string }.

Record StoreConfig := { st_MaxCandidates : Z; st_MaxScopeEntries : Z; st_ReadTimeout : Z; st_WriteTimeout : Z }.
Record CacheCfg := { ca_Enabled : bool; ca_Store : StoreConfig; ca_Embed : EmbedConfig; ca_Look : LookupConfig; ca_TTL : TTLPolicy }.

Definition no_store : StoreConfig := {| st_MaxCandidates := 0; st_MaxScopeEntries := 0; st_ReadTimeout := 0; st_WriteTimeout := 0 |}.
Definition no_embed : EmbedConfig := {| ec_BaseURL := ""; ec_APIKey := ""; ec_Model := ""; ec_Dimensions := 0; ec_Timeout := 0 |}.
Definition cache_off : CacheCfg :=
  {| ca_Enabled := false; ca_Store := no_store; ca_Embed := no_embed;
     ca_Look := {| SemanticEnabled := false; CacheLookup.Threshold := f32_zero |};
     ca_TTL := {| tp_Default := 0; tp_Max := 0; tp_Rules := [] |} |}.

Definition parseCacheDuration (field value : string) (fallback : Z) : result file_error Z :=
  if bool_decide (value = ""%string) then Ok fallback
  else match ParseDuration value with None => Err (Invalid "cache" field) | Some d => Ok d end.

Definition hour : Z := 3600 * second.

Fixpoint resolve_rules (rules : list ttlRuleEntry) (seen : gset string) : result file_error (list TTLRule) :=
  match rules with
  | [] => Ok []
  | rule :: rules' =>
      if bool_decide (tl_Name rule = ""%string) then Err (Invalid "ttl.rules" "name")
      else if bool_decide (tl_Name rule ∈ seen) then Err (Invalid (tl_Name rule) "duplicate")
      else if is_nil (tl_Patterns rule) then Err (Invalid (tl_Name rule) "patterns")
      else match parseCacheDuration (tl_Name rule) (tl_TTL rule) 0 with
           | Err e => Err e
           | Ok d =>
               if d <? 0 then Err (Invalid (tl_Name rule) "ttl")
               else if existsb (λ p, bool_decide (trim_space p = ""%string)) (tl_Patterns rule)
                    then Err (Invalid (tl_Name rule) "pattern")
               else match resolve_rules rules' ({[tl_Name rule]} ∪ seen) with
                    | Err e => Err e
                    | Ok rs => Ok ({| tr_Name := tl_Name rule; tr_TTL := d; tr_Patterns := map Router.ToLower (tl_Patterns rule) |} :: rs)
                    end
           end
  end.

Definition resolveTTLPolicy (e : cacheEntry) : result file_error TTLPolicy :=
  match parseCacheDuration "ttl.default" (ce_TTLDefault e) hour with
  | Err err => Err err
  | Ok default_ =>
      if default_ <=? 0 then Err (Invalid "ttl" "default")
      else match parseCacheDuration "ttl.max" (ce_TTLMax e) (24 * hour) with
           | Err err => Err err
           | Ok max =>
               if max <? default_ then Err (Invalid "ttl" "max")
               else match resolve_rules (ce_TTLRules e) ∅ with
                    | Err err => Err err
                    | Ok rules => Ok {| tp_Default := default_; tp_Max := max; tp_Rules := rules |}
                    end
           end
  end.

Section cache.
Context (Getenv : string → string).

Definition embed_key (e : cacheEntry) : result file_error string :=
  if bool_decide (ce_APIKeyEnv e = ""%string) then Ok ""%string
  else if bool_decide (Getenv (ce_APIKeyEnv e) = ""%string) then Err (Invalid "embedding" "api_key_env")
  else Ok (Getenv (ce_APIKeyEnv e)).

Definition load_cache (e : cacheEntry) : result file_error CacheCfg :=
  if negb (enabledOrDefault (ce_Enabled e)) then Ok cache_off
  else match parseCacheDuration "read_timeout" (ce_ReadTimeout e) (50 * millisecond),
             parseCacheDuration "write_timeout" (ce_WriteTimeout e) (500 * millisecond), resolveTTLPolicy e with
       | Err err, _, _ => Err err
       | _, Err err, _ => Err err
       | _, _, Err err => Err err
       | Ok readTimeout, Ok writeTimeout, Ok ttl =>
           let semanticOn := enabledOrDefault (ce_SemanticEnabled e) in
           if ce_MaxCandidates e <? 0 then Err (Invalid "semantic" "max_candidates")
           else if ce_MaxEntriesPerTenant e <? 0 then Err (Invalid "cache" "max_entries_per_tenant")
           else if semanticOn && (f_ltb (ce_Threshold e) (f32_of_Z (-1)) || f_ltb (f32_of_Z 1) (ce_Threshold e))
                then Err (Invalid "semantic" "threshold")
           else
             let out embed :=
               {| ca_Enabled := true;
                  ca_Store := {| st_MaxCandidates := ce_MaxCandidates e; st_MaxScopeEntries := ce_MaxEntriesPerTenant e;
                                 st_ReadTimeout := readTimeout; st_WriteTimeout := writeTimeout |};
                  ca_Embed := embed;
                  ca_Look := {| SemanticEnabled := semanticOn; CacheLookup.Threshold := ce_Threshold e |};
                  ca_TTL := ttl |} in
             if negb semanticOn then Ok (out no_embed)
             else match parseCacheDuration "embedding.timeout" (ce_EmbedTimeout e) (5 * second) with
                  | Err err => Err err
                  | Ok timeout =>
                      match embed_key e with
                      | Err err => Err err
                      | Ok key => Ok (out {| ec_BaseURL := ce_BaseURL e; ec_APIKey := key; ec_Model := ce_Model e;
                                             ec_Dimensions := ce_Dimensions e; ec_Timeout := timeout |})
                      end
                  end
       end.

Definition LoadCache (Unmarshal : string → option cacheEntry) : file_read → result file_error CacheCfg :=
  load_optional Unmarshal cache_off load_cache.
End cache.

(** ** quality.go *)

Record qualityEntry := {
  qe_Enabled : option bool; qe_RoutedRate : float64; qe_NearThresholdBand : float32;
  qe_QueueSize : Z; qe_Concurrency : Z; qe_ScoreTimeout : string; qe_JudgeModel : string; qe_JudgeTimeout : string;
  qe_LowScoreThreshold : float64; qe_ExampleLimit : Z }.

Record QualityCfg := {
  qy_Enabled : bool; qy_Sampling : Quality.Config; qy_Worker : WorkerConfig; qy_JudgeModel : string; qy_JudgeTimeout : Z;
  qy_LowScoreThreshold : float64; qy_ExampleLimit : Z }.

Definition quality_off : QualityCfg :=
  {| qy_Enabled := false; qy_Sampling := {| RoutedRate := S754_zero false; NearThresholdBand := f32_zero |};
     qy_Worker := {| wc_QueueSize := 0; wc_Concurrency := 0; wc_ScoreTimeout := 0 |}; qy_JudgeModel := ""; qy_JudgeTimeout := 0;
     qy_LowScoreThreshold := S754_zero false; qy_ExampleLimit := 0 |}.

Definition parseQualityDuration (field value : string) (fallback : Z) : result file_error Z :=
  if bool_decide (value = ""%string) then Ok fallback
  else match ParseDuration value with
       | None => Err (Invalid "quality" field)
       | Some d => if d <=? 0 then Err (Invalid "quality" field) else Ok d
       end.

(** [x < lo || x > hi], false of a NaN. *)
Definition outside (lo hi x : spec_float) : bool := f_ltb x lo || f_ltb hi x.

Definition f64_is_zero (x : float64) : bool := match x with S754_zero _ => true | _ => false end.

Definition load_quality (e : qualityEntry) : result file_error QualityCfg :=
  if negb (enabledOrDefault (qe_Enabled e)) then Ok quality_off
  else if outside (S754_zero false) (f64_of_Z 1) (qe_RoutedRate e) then Err (Invalid "sampling" "routed_rate")
  else if outside f32_zero (f32_of_Z 1) (qe_NearThresholdBand e) then Err (Invalid "sampling" "near_threshold_band")
  else if bool_decide (qe_JudgeModel e = ""%string) then Err (Invalid "judge" "model")
  else match parseQualityDuration "worker.score_timeout" (qe_ScoreTimeout e) (20 * second),
             parseQualityDuration "judge.timeout" (qe_JudgeTimeout e) (20 * second) with
       | Err err, _ => Err err
       | _, Err err => Err err
       | Ok scoreTimeout, Ok judgeTimeout =>
           let lowScore := if f64_is_zero (qe_LowScoreThreshold e) then f64_of_Z 3 else qe_LowScoreThreshold e in
           let exampleLimit := if qe_ExampleLimit e =? 0 then 20 else qe_ExampleLimit e in
           if (qe_QueueSize e <? 0) || (qe_Concurrency e <? 0) then Err (Invalid "worker" "queue_size")
           else if outside (f64_of_Z 1) (f64_of_Z 5) lowScore then Err (Invalid "feedback" "low_score_threshold")
           else if exampleLimit <? 0 then Err (Invalid "feedback" "example_limit")
           else Ok {| qy_Enabled := true;
                      qy_Sampling := {| RoutedRate := qe_RoutedRate e; NearThresholdBand := qe_NearThresholdBand e |};
                      qy_Worker := {| wc_QueueSize := qe_QueueSize e; wc_Concurrency := qe_Concurrency e;
                                      wc_ScoreTimeout := scoreTimeout |};
                      qy_JudgeModel := qe_JudgeModel e; qy_JudgeTimeout := judgeTimeout;
                      qy_LowScoreThreshold := lowScore; qy_ExampleLimit := exampleLimit |}
       end.

Definition LoadQuality (Unmarshal : string → option qualityEntry) : file_read → result file_error QualityCfg :=
  load_optional Unmarshal quality_off load_quality.

(** ** What the files guarantee *)

(** A team the registry and the operations on it accept, but for two things the
    loader does not check: a name of blanks, and a budget that rounds to nothing. *)
Record loaded_team (t : Team) : Prop := {
  lt_id : t_ID t ≠ ""%string;
  lt_hash : t_KeyHash t ≠ ""%string;
  lt_valid : 0 < t_MonthlyBudgetMicros t → ∀ blank, blank (t_Name t) = false → Validate blank t = None
}.

Lemma resolve_team_loaded e label t : resolve_team e label = Ok t → loaded_team t ∧ t_ID t = tm_ID e.
Proof.
  unfold resolve_team. case_bool_decide; [done|]. case_bool_decide; [done|].
  destruct (isSHA256Hex (tm_APIKeyHash e)) eqn:Hh; [|done]. cbn [negb].
  destruct (tm_AllowedProviders e) eqn:Hp; [done|]. destruct (tm_AllowedModels e) eqn:Hm; [done|]. cbn [is_nil].
  destruct (Z.leb_spec (tm_RPM e) 0); [done|]. destruct (Z.leb_spec (tm_TPM e) 0); [done|].
  destruct (SFleb _ _); [done|]. cbv zeta.
  intros Ht. assert (∃ p, match p with PriorityOther _ => False | _ => True end ∧
    t = {| t_ID := tm_ID e; t_Name := tm_Name e; t_OrganizationID := ""; t_KeyHash := tm_APIKeyHash e;
           t_AllowedProviders := s :: l; t_AllowedModels := s0 :: l0; t_RateLimits := {| RPM := tm_RPM e; TPM := tm_TPM e |};
           t_MonthlyBudgetMicros := usdToMicros (tm_MonthlyBudgetUSD e); t_Priority := p;
           t_IsAdmin := tm_IsAdmin e; t_CacheIsolated := tm_CacheIsolated e; t_KeySource := KeySourceConfig;
           t_KeyMasked := ""; t_KeyCreatedAt := None |}) as (p & Hpr & ->).
  { case_bool_decide; [injection Ht as <-; by exists PriorityRealtime|].
    case_bool_decide; [injection Ht as <-; by exists PriorityBatch|done]. }
  split; [|done]. split; cbn [t_ID t_KeyHash t_Name t_MonthlyBudgetMicros]; [done| |].
  - intros Hx. by rewrite Hx in Hh.
  - intros Hb blank Hbl. unfold Validate, validateLimits. cbn [t_ID t_Name t_AllowedProviders t_AllowedModels t_RateLimits RPM TPM
      t_MonthlyBudgetMicros t_Priority]. rewrite !bool_decide_eq_false_2 by done. rewrite Hbl.
    destruct (Z.leb_spec (tm_RPM e) 0), (Z.leb_spec (tm_TPM e) 0), (Z.leb_spec (usdToMicros (tm_MonthlyBudgetUSD e)) 0); try lia.
    by destruct p.
Qed.

Lemma load_teams_spec i es ids hashes teams :
  load_teams i es ids hashes = Ok teams →
  Forall loaded_team teams ∧ NoDup (map t_ID teams) ∧ NoDup (map t_KeyHash teams) ∧
  Forall (λ t, t_ID t ∉ ids ∧ hashes !! t_KeyHash t = None) teams.
Proof.
  revert i ids hashes teams. induction es as [|e es IH]; intros i ids hashes teams; cbn [load_teams].
  { intros [= <-]. split_and!; constructor. }
  destruct (bool_decide_reflect (tm_ID e ∈ ids ∧ tm_ID e ≠ ""%string)) as [|Hdup]; [done|].
  destruct (resolve_team e (team_label i e)) as [t|] eqn:Ht; [|done]. apply resolve_team_loaded in Ht as [Ht Hid].
  destruct (hashes !! t_KeyHash t) eqn:Hh; [done|].
  destruct (load_teams (S i) es _ _) as [ts|] eqn:Hts; [|done]. intros [= <-].
  apply IH in Hts as (H1 & H2 & H3 & H4). rewrite Forall_forall in H4. cbn [map].
  split_and!; [by constructor| | |].
  - constructor; [|done]. intros (t' & Hx & Ht')%list_elem_of_fmap. destruct (H4 t' Ht') as [Hn _].
    apply not_elem_of_union in Hn as [Hn _]. apply Hn, elem_of_singleton. congruence.
  - constructor; [|done]. intros (t' & Hx & Ht')%list_elem_of_fmap. destruct (H4 t' Ht') as [_ Hn].
    by rewrite <- Hx, lookup_insert_eq in Hn.
  - constructor.
    + split; [|done]. rewrite Hid. intros Hin. apply Hdup. split; [done|]. rewrite <- Hid. apply Ht.
    + apply Forall_forall. intros t' Ht'. destruct (H4 t' Ht') as [Hn1 Hn2]. apply not_elem_of_union in Hn1.
      split; [tauto|]. apply lookup_insert_None in Hn2. tauto.
Qed.

(** Teams with distinct ids and distinct keys are all indexed. *)
Lemma index_loaded_teams teams r :
  Forall loaded_team teams → NoDup (map t_ID teams) → NoDup (map t_KeyHash teams) →
  Forall (λ t, byHash r !! t_KeyHash t = None) teams →
  ∃ r', index_teams teams r = Ok r' ∧
    (∀ id, byID r' !! id = match find_first (λ t, bool_decide (t_ID t = id)) teams with Some t => Some t | None => byID r !! id end) ∧
    (∀ h, byHash r' !! h = match find_first (λ t, bool_decide (t_KeyHash t = h)) teams with Some t => Some t | None => byHash r !! h end).
Proof.
  intros Hl. revert r. induction Hl as [|t ts Ht Hts IH]; intros r Hid Hh Hfresh; cbn [index_teams find_first]; [by exists r|].
  apply Forall_cons in Hfresh as [Hf Hfs]. cbn [map] in Hid, Hh. apply NoDup_cons in Hid as [Hid1 Hid], Hh as [Hh1 Hh].
  rewrite bool_decide_eq_false_2 by apply Ht. rewrite Hf.
  edestruct IH as (r' & -> & H1 & H2); [done|done| |].
  { rewrite Forall_forall in *. intros t' Ht'. cbn [byHash]. rewrite lookup_insert_ne; [by apply Hfs|].
    intros Heq. apply Hh1. rewrite Heq. by apply list_elem_of_fmap_2. }
  exists r'. split; [done|]. cbn [byID byHash] in *.
  assert (∀ (f : Team → string) l, f t ∉ map f l → find_first (λ t', bool_decide (f t' = f t)) l = None) as Hnone.
  { intros f l. induction l as [|x l IHl]; [done|]. cbn [map find_first]. intros Hn. apply not_elem_of_cons in Hn as [Hne Hn].
    rewrite bool_decide_eq_false_2 by congruence. by apply IHl. }
  split.
  - intros id. rewrite H1. case_bool_decide as Heq.
    + subst id. rewrite (Hnone t_ID) by done. by rewrite lookup_insert_eq.
    + by rewrite lookup_insert_ne.
  - intros h. rewrite H2. case_bool_decide as Heq.
    + subst h. rewrite (Hnone t_KeyHash) by done. by rewrite lookup_insert_eq.
    + by rewrite lookup_insert_ne.
Qed.

Lemma find_first_key (f : Team → string) teams t :
  NoDup (map f teams) → t ∈ teams → find_first (λ t', bool_decide (f t' = f t)) teams = Some t.
Proof.
  intros Hnd. induction teams as [|x l IH]; [set_solver|]. cbn [map] in Hnd. apply NoDup_cons in Hnd as [Hn Hnd].
  intros [->|Hin]%elem_of_cons; cbn [find_first]; [by rewrite bool_decide_eq_true_2|].
  rewrite bool_decide_eq_false_2; [by apply IH|]. intros Heq. apply Hn. rewrite Heq. by apply list_elem_of_fmap_2.
Qed.

(** A team file that loads gives a registry: [auth.NewRegistry] accepts the
    teams, every one of them is found by its id and by the hash of its key, and
    nothing else is; the ids are distinct, no hash is empty, and a team passes the
    validation the admin API applies to it unless its name is blank or its budget
    is so small that it rounded to zero micro-dollars. *)
Theorem loaded_teams_register Unmarshal file teams :
  LoadTeams Unmarshal file = Ok teams →
  ∃ r, Auth.NewRegistry teams = Ok r ∧ NoDup (t_ID <$> teams) ∧
    (∀ t, t ∈ teams → byID r !! t_ID t = Some t ∧ byHash r !! t_KeyHash t = Some t ∧ t_KeyHash t ≠ ""%string) ∧
    (∀ h t, byHash r !! h = Some t → t ∈ teams ∧ t_KeyHash t = h) ∧
    (∀ t blank, t ∈ teams → 0 < t_MonthlyBudgetMicros t → blank (t_Name t) = false → Validate blank t = None).
Proof.
  unfold LoadTeams. destruct file as [raw| |]; try done. destruct (Unmarshal raw) as [es|]; [|done].
  destruct (is_nil es); [done|]. intros (H1 & H2 & H3 & _)%load_teams_spec.
  destruct (index_loaded_teams teams {| byHash := ∅; byID := ∅ |} H1 H2 H3) as (r & Hr & E1 & E2).
  { apply Forall_true. intros. apply lookup_empty. }
  exists r. split; [done|]. split; [done|]. rewrite Forall_forall in H1. split_and!.
  - intros t Ht. rewrite E1, E2, !find_first_key by done. split_and!; [done|done|by apply H1].
  - intros h t. rewrite E2. cbn [byHash]. rewrite lookup_empty. clear. induction teams as [|x l IH]; [done|]. cbn [find_first].
    case_bool_decide as Hx; [intros [= <-]; split; [left|done]|]. intros Hf. destruct (IH Hf). split; [by right|done].
  - intros t blank Ht Hb Hbl. by apply (lt_valid t (H1 t Ht)).
Qed.

Definition demo_team (id hash : string) (budget : float64) : teamEntry :=
  {| tm_ID := id; tm_Name := "Team"; tm_APIKeyHash := hash; tm_AllowedProviders := ["p"%string]; tm_AllowedModels := ["m"%string];
     tm_RPM := 10; tm_TPM := 1000; tm_MonthlyBudgetUSD := budget; tm_Priority := "batch"; tm_IsAdmin := false; tm_CacheIsolated := false |}.

Definition hash_of (c : string) : string := cat (repeat c 64).

Lemma loaded_teams_register_witness :
  ∃ teams r, LoadTeams (λ _, Some [demo_team "a" (hash_of "a") (f64_of_Z 5); demo_team "b" (hash_of "b") (f64_of_Z 1)]) (Bytes "") = Ok teams ∧
    Auth.NewRegistry teams = Ok r ∧ length teams = 2%nat.
Proof.
  eexists. edestruct (loaded_teams_register (λ _, Some [demo_team "a" (hash_of "a") (f64_of_Z 5); demo_team "b" (hash_of "b") (f64_of_Z 1)])
    (Bytes "")) as (r & Hr & _); [vm_compute; reflexivity|].
  exists r. split; [vm_compute; reflexivity|]. split; [exact Hr|reflexivity].
Defined.

(** A positive budget below half a micro-dollar loads, as zero, which the admin
    API's validation refuses; so does one that is not a number. *)
Example tiny_budget_loads :
  match LoadTeams (λ _, Some [demo_team "a" (hash_of "a") (f64_div (f64_of_Z 1) (f64_of_Z 10000000))]) (Bytes "") with
  | Ok [t] => t_MonthlyBudgetMicros t = 0 ∧ Validate (λ _, false) t = Some (BadBudget 0)
  | _ => False
  end ∧
  match LoadTeams (λ _, Some [demo_team "a" (hash_of "a") S754_nan]) (Bytes "") with
  | Ok [t] => t_MonthlyBudgetMicros t = int64_min
  | _ => False
  end.
Proof. vm_compute. done. Qed.

(** The cache's lifetimes are in order, and the rules have names, patterns and a
    lifetime that is not negative. *)
Lemma resolve_rules_ok rules seen rs :
  resolve_rules rules seen = Ok rs → Forall (λ r, tr_Name r ≠ ""%string ∧ tr_Patterns r ≠ [] ∧ 0 ≤ tr_TTL r) rs.
Proof.
  revert seen rs. induction rules as [|r rules IH]; intros seen rs; cbn [resolve_rules]; [intros [= <-]; constructor|].
  case_bool_decide; [done|]. case_bool_decide; [done|]. destruct (tl_Patterns r) as [|p ps] eqn:Hp; [done|]. cbn [is_nil].
  destruct (parseCacheDuration _ _ _) as [d|]; [|done]. destruct (Z.ltb_spec d 0); [done|]. destruct (existsb _ _); [done|].
  destruct (resolve_rules rules _) as [rs'|] eqn:Hr; [|done]. intros [= <-]. constructor; [|by eapply IH]. by cbn.
Qed.

Lemma resolveTTLPolicy_ok e p :
  resolveTTLPolicy e = Ok p →
  0 < tp_Default p ≤ tp_Max p ∧ Forall (λ r, tr_Name r ≠ ""%string ∧ tr_Patterns r ≠ [] ∧ 0 ≤ tr_TTL r) (tp_Rules p).
Proof.
  unfold resolveTTLPolicy. destruct (parseCacheDuration _ _ _) as [d|]; [|done]. destruct (Z.leb_spec d 0); [done|].
  destruct (parseCacheDuration _ _ _) as [m|]; [|done]. destruct (Z.ltb_spec m d); [done|].
  destruct (resolve_rules _ _) as [rs|] eqn:Hr; [|done]. intros [= <-]. cbn. split; [lia|]. by eapply resolve_rules_ok.
Qed.

(** With the policy of a cache file that loads, a query nobody overrides and no
    rule matches is kept for exactly the default, and every lifetime is positive
    and at most the maximum. *)
Lemma loaded_cache_ttl Getenv Unmarshal file c Contains query override :
  LoadCache Getenv Unmarshal file = Ok c → ca_Enabled c = true →
  match TTLFor Router.ToLower Contains (ca_TTL c) query override with
  | Some ttl => 0 < ttl ≤ tp_Max (ca_TTL c)
  | None => True
  end ∧
  (MatchedRule Router.ToLower Contains (ca_TTL c) query = ""%string →
   TTLFor Router.ToLower Contains (ca_TTL c) query None = Some (tp_Default (ca_TTL c))).
Proof.
  unfold LoadCache, load_optional. destruct file as [raw| |]; [|by intros [= <-]|done]. destruct (Unmarshal raw) as [e|]; [|done].
  unfold load_cache. case_match; [by intros [= <-]|]. intros Hc _.
  assert (∃ ttl, resolveTTLPolicy e = Ok ttl ∧ ca_TTL c = ttl) as (ttl & Ht & ->).
  { destruct (parseCacheDuration "read_timeout" _ _); [|done]. destruct (parseCacheDuration "write_timeout" _ _); [|done].
    destruct (resolveTTLPolicy e) as [ttl|]; [|done]. exists ttl. split; [done|].
    cbv zeta in Hc. repeat case_match; by simplify_eq. }
  apply resolveTTLPolicy_ok in Ht as [Hd Hr]. split; [apply TTLFor_bounds; lia|].
  unfold MatchedRule, TTLFor. destruct (find_first _ (tp_Rules ttl)) as [r|] eqn:Hf.
  - intros Hn. exfalso. assert (r ∈ tp_Rules ttl) as Hin.
    { clear -Hf. induction (tp_Rules ttl) as [|x l IH]; [done|]. cbn [find_first] in Hf.
      destruct (rule_matches _ _ x); [injection Hf as ->; left|right; by apply IH]. }
    rewrite Forall_forall in Hr. by destruct (Hr r Hin).
  - intros _. unfold clampTTL. destruct (Z.leb_spec (tp_Default ttl) 0), (Z.ltb_spec (tp_Max ttl) (tp_Default ttl)); try lia.
    by rewrite andb_false_r.
Qed.

(** A routing file that loads names two different tiers, neither of them the
    keyword, and its scales divide. *)
Lemma loaded_router Unmarshal file r :
  LoadRouter Unmarshal file = Ok r → ro_Enabled r = true →
  Escalate (ro_Policy r) (pol_Simple (ro_Policy r)) = Some (pol_Complex (ro_Policy r)) ∧
  pol_Simple (ro_Policy r) ≠ AutoModel ∧ pol_Complex (ro_Policy r) ≠ AutoModel ∧
  0 < s_LengthTokens (cc_Scales (ro_Classifier r)) ∧ 0 < s_ReasoningMatches (cc_Scales (ro_Classifier r)) ∧
  0 < s_ConstraintMatches (cc_Scales (ro_Classifier r)) ∧ 0 < s_FormatMatches (cc_Scales (ro_Classifier r)).
Proof.
  unfold LoadRouter, load_optional. destruct file as [raw| |]; [|by intros [= <-]|done]. destruct (Unmarshal raw) as [e|]; [|done].
  unfold load_router. case_match; [by intros [= <-]|]. case_bool_decide; [done|]. case_bool_decide; [done|]. case_bool_decide; [done|].
  destruct (orElse _ _) eqn:Ho; [done|]. intros [= <-] _. cbn [ro_Policy ro_Classifier pol_Simple pol_Complex].
  assert (validateScales (cc_Scales (re_Classifier e)) = None) as Hv by (by destruct (validateScales _)).
  unfold validateScales, require in Hv. split_and!; [|naive_solver|naive_solver|..].
  - unfold Escalate. cbn. rewrite bool_decide_eq_true_2; [done|naive_solver].
  - destruct (Z.ltb_spec 0 (s_LengthTokens (cc_Scales (re_Classifier e)))); done.
  - repeat (match goal with H : context [?a <? ?b] |- _ => destruct (Z.ltb_spec a b) end; try done).
  - repeat (match goal with H : context [?a <? ?b] |- _ => destruct (Z.ltb_spec a b) end; try done).
  - repeat (match goal with H : context [?a <? ?b] |- _ => destruct (Z.ltb_spec a b) end; try done).
Qed.
