(* ===== verification/TeamStore.v ===== *)
(** * internal/teamstore: teams in Postgres behind a snapshot

    store.go and seed.go.  The teams table is a finite map of rows with the
    constraints of migrations/0008_teams.sql (the columns' checks, the primary
    key, the unique index on key hashes, the reference to organizations); a
    statement takes effect whole or not at all, and its reply may be lost.  The
    gateway authenticates against a snapshot of the table, which a write goes
    through and a refresh replaces.  [now()] of the database and [time.Now] of
    the gateway are different clocks, so the time a key was made may differ
    between the two: nothing below depends on it. *)

From S2P Require Import Prelude Text Auth AuthFacts ConfigFiles.

(** ** The table *)

Record row := { rw_team : Team; rw_deleted : bool }.
Record tables := { tb_teams : gmap string row; tb_orgs : gset string }.

Definition int32_max : Z := 2 ^ 31 - 1.

Definition known_source (s : string) : bool :=
  bool_decide (s ∈ ["config"; "rotated"; "revoked"; "created"]%string).

(** The checks of the columns. *)
Definition row_ok (t : Team) : bool :=
  match t_Priority t with PriorityOther _ => false | _ => true end &&
  (0 <? RPM (t_RateLimits t)) && (RPM (t_RateLimits t) <=? int32_max) &&
  (0 <? TPM (t_RateLimits t)) && (TPM (t_RateLimits t) <=? int32_max) &&
  (0 <? t_MonthlyBudgetMicros t) && (t_MonthlyBudgetMicros t <=? int64_max) &&
  negb (bool_decide (t_AllowedProviders t = [])) && negb (bool_decide (t_AllowedModels t = [])) &&
  (bool_decide (t_KeyHash t = ""%string) || isSHA256Hex (t_KeyHash t)) && known_source (t_KeySource t).

(** No other row holds the hash; an absent one is NULL and held by any number. *)
Definition hash_free (id hash : string) (rows : gmap string row) : bool :=
  bool_decide (hash = ""%string) ||
  bool_decide (map_Forall (λ id' rw, id' = id ∨ t_KeyHash (rw_team rw) ≠ hash) rows).

Inductive sql_result := Rows (n : Z) | DuplicateID | NoOrganization | Refused.

(** [UPDATE teams SET ... WHERE id = $1 AND deleted_at IS NULL] *)
Definition update_row (id : string) (f : Team → Team) (delete_ : bool) (db : tables) : sql_result * tables :=
  match tb_teams db !! id with
  | Some rw =>
      if rw_deleted rw then (Rows 0, db)
      else let t := f (rw_team rw) in
           if row_ok t && hash_free id (t_KeyHash t) (tb_teams db)
           then (Rows 1, {| tb_teams := <[id := {| rw_team := t; rw_deleted := delete_ |}]> (tb_teams db); tb_orgs := tb_orgs db |})
           else (Refused, db)
  | None => (Rows 0, db)
  end.

(** [insertTeamSQL] *)
Definition insert_row (t : Team) (db : tables) : sql_result * tables :=
  if negb (row_ok t) then (Refused, db)
  else match tb_teams db !! t_ID t with
       | Some _ => (DuplicateID, db)
       | None =>
           if negb (hash_free (t_ID t) (t_KeyHash t) (tb_teams db)) then (Refused, db)
           else if bool_decide (t_OrganizationID t ∉ tb_orgs db) then (NoOrganization, db)
           else (Rows 1, {| tb_teams := <[t_ID t := {| rw_team := t; rw_deleted := false |}]> (tb_teams db); tb_orgs := tb_orgs db |})
       end.

Definition run_sql (fate : db_fate) (stmt : tables → sql_result * tables) (db : tables) : option sql_result * tables :=
  match fate with
  | DbAnswers => let '(x, db) := stmt db in (Some x, db)
  | DbUnreachable => (None, db)
  | DbReplyLost => (None, (stmt db).2)
  end.

(** ** store.go *)

Record snapshot := { sn_registry : Registry; sn_loadedAt : Z; sn_degraded : bool }.

Inductive store_error :=
| RegistryErr (e : registry_error) | QueryFailed | ErrUnknownOrganization | InvalidTeam (e : team_error) | EmptyNewHash | NoTeams.

Definition DefaultOrgID : string := "personal".
Definition KeySourceCreated : string := "created".

Definition store_get (id : string) (s : snapshot) : result store_error Team :=
  match Get id (sn_registry s) with Ok t => Ok t | Err e => Err (RegistryErr e) end.

Definition with_registry (r : Registry) (s : snapshot) : snapshot :=
  {| sn_registry := r; sn_loadedAt := sn_loadedAt s; sn_degraded := sn_degraded s |}.

(** The rows that are not deleted, and the registry they make. *)
Definition live (db : tables) : gmap string Team :=
  omap (λ rw, if rw_deleted rw then None else Some (rw_team rw)) (tb_teams db).

Definition loadRegistry (db : tables) : result store_error Registry :=
  match (map_to_list (live db)).*2 with
  | [] => Err NoTeams
  | teams => match NewRegistry teams with Ok r => Ok r | Err e => Err (RegistryErr e) end
  end.

Definition New_ (reachable : bool) (now : Z) (db : tables) : result store_error snapshot :=
  if negb reachable then Err QueryFailed
  else match loadRegistry db with
       | Err e => Err e
       | Ok r => Ok {| sn_registry := r; sn_loadedAt := now; sn_degraded := false |}
       end.

Definition markDegraded (s : snapshot) : snapshot :=
  {| sn_registry := sn_registry s; sn_loadedAt := sn_loadedAt s; sn_degraded := true |}.

Definition Refresh (reachable : bool) (now : Z) (db : tables) (s : snapshot) : option store_error * snapshot :=
  match New_ reachable now db with
  | Err e => (Some e, markDegraded s)
  | Ok s => (None, s)
  end.

Definition Degraded (s : snapshot) : bool * Z := (sn_degraded s, sn_loadedAt s).

(** [exec] *)
Definition exec (x : option sql_result) : option store_error :=
  match x with
  | Some (Rows n) => if n =? 0 then Some (RegistryErr ErrUnknownTeam) else None
  | _ => Some QueryFailed
  end.

Definition removed (id : string) (r : Registry) : result registry_error Team * Registry :=
  match Remove id r with
  | (Err ErrUnknownTeam, r) =>
      (Ok {| t_ID := id; t_Name := ""; t_OrganizationID := ""; t_KeyHash := ""; t_AllowedProviders := []; t_AllowedModels := [];
             t_RateLimits := {| RPM := 0; TPM := 0 |}; t_MonthlyBudgetMicros := 0; t_Priority := PriorityOther "";
             t_IsAdmin := false; t_CacheIsolated := false; t_KeySource := ""; t_KeyMasked := ""; t_KeyCreatedAt := None |}, r)
  | x => x
  end.

Definition added (t : Team) (r : Registry) : result registry_error Team * Registry :=
  match Add t r with
  | (None, r) => (Ok t, r)
  | (Some ErrTeamExists, r) => (Get (t_ID t) r, r)
  | (Some e, r) => (Err e, r)
  end.

(** A change that Postgres has, and what it does to the snapshot's registry.
    [now] is the gateway's clock when the change is applied. *)
Inductive change :=
| ChUpdate (id : string) (patch : TeamPatch) | ChRotate (now : Z) (id newHash newMasked : string)
| ChRevoke (id : string) | ChDelete (id : string) | ChCreate (t : Team).

Definition ch_id (c : change) : string :=
  match c with ChUpdate id _ | ChRotate _ id _ _ | ChRevoke id | ChDelete id => id | ChCreate t => t_ID t end.

Definition ch_apply (c : change) : Registry → result registry_error Team * Registry :=
  match c with
  | ChUpdate id patch => Update id patch
  | ChRotate now id newHash newMasked => RotateKey now id newHash newMasked
  | ChRevoke id => RevokeKey id
  | ChDelete id => removed id
  | ChCreate t => added t
  end.

(** [writeThrough] *)
Definition writeThrough (c : change) (s : snapshot) : result store_error Team * snapshot :=
  let '(res, r) := ch_apply c (sn_registry s) in
  let s := with_registry r s in
  (match res with Ok t => Ok t | Err _ => store_get (ch_id c) s end, s).

(** Every write has two halves, between which anything else may happen: the
    statement, and then the write-through of what it did. *)
Definition persist (fate : db_fate) (c : change) (f : Team → Team) (delete_ : bool) (db : tables)
    : result store_error change * tables :=
  let '(x, db) := run_sql fate (update_row (ch_id c) f delete_) db in
  (match exec x with Some e => Err e | None => Ok c end, db).

Definition persist_Update (fate : db_fate) (id : string) (patch : TeamPatch) (db : tables) (s : snapshot)
    : result store_error change * tables :=
  match store_get id s with
  | Err e => (Err e, db)
  | Ok current =>
      match Apply patch current with
      | Err e => (Err (InvalidTeam e), db)
      | Ok updated =>
          persist fate (ChUpdate id patch) (λ t, with_limits t (t_RateLimits updated) (t_MonthlyBudgetMicros updated)) false db
      end
  end.

(** [dbnow] is the database's clock. *)
Definition persist_RotateKey (fate : db_fate) (dbnow now : Z) (id newHash newMasked : string) (db : tables)
    : result store_error change * tables :=
  if bool_decide (newHash = ""%string) then (Err EmptyNewHash, db)
  else persist fate (ChRotate now id newHash newMasked) (λ t, with_key t newHash KeySourceRotated newMasked (Some dbnow)) false db.

Definition persist_RevokeKey (fate : db_fate) (id : string) (db : tables) : result store_error change * tables :=
  persist fate (ChRevoke id) (λ t, with_key t "" KeySourceRevoked "" None) false db.

Definition persist_Delete (fate : db_fate) (id : string) (db : tables) : result store_error change * tables :=
  persist fate (ChDelete id) (λ t, with_key t "" KeySourceRevoked "" None) true db.

Definition blank (name : string) : bool := bool_decide (trim_space name = ""%string).

(** The defaults [Create] fills in. *)
Definition created_team (now : Z) (t : Team) : Team :=
  {| t_ID := t_ID t; t_Name := t_Name t;
     t_OrganizationID := if bool_decide (t_OrganizationID t = ""%string) then DefaultOrgID else t_OrganizationID t;
     t_KeyHash := t_KeyHash t; t_AllowedProviders := t_AllowedProviders t; t_AllowedModels := t_AllowedModels t;
     t_RateLimits := t_RateLimits t; t_MonthlyBudgetMicros := t_MonthlyBudgetMicros t; t_Priority := t_Priority t;
     t_IsAdmin := t_IsAdmin t; t_CacheIsolated := t_CacheIsolated t;
     t_KeySource := if bool_decide (t_KeySource t = ""%string) then KeySourceCreated else t_KeySource t;
     t_KeyMasked := t_KeyMasked t;
     t_KeyCreatedAt := match t_KeyCreatedAt t with None => Some now | Some x => Some x end |}.

Definition persist_Create (fate : db_fate) (now : Z) (t : Team) (db : tables) : result store_error change * tables :=
  match Validate blank t with
  | Some e => (Err (InvalidTeam e), db)
  | None =>
      let t := created_team now t in
      let '(x, db) := run_sql fate (insert_row t) db in
      (match x with
       | Some (Rows _) => Ok (ChCreate t)
       | Some DuplicateID => Err (RegistryErr ErrTeamExists)
       | Some NoOrganization => Err ErrUnknownOrganization
       | _ => Err QueryFailed
       end, db)
  end.

(** The calls themselves, from one half to the other. *)
Inductive store_call :=
| CallUpdate (id : string) (patch : TeamPatch) | CallRotateKey (dbnow now : Z) (id newHash newMasked : string)
| CallRevokeKey (id : string) | CallDelete (id : string) | CallCreate (now : Z) (t : Team).

Definition begin_call (fate : db_fate) (call : store_call) (db : tables) (s : snapshot) : result store_error change * tables :=
  match call with
  | CallUpdate id patch => persist_Update fate id patch db s
  | CallRotateKey dbnow now id h m => persist_RotateKey fate dbnow now id h m db
  | CallRevokeKey id => persist_RevokeKey fate id db
  | CallDelete id => persist_Delete fate id db
  | CallCreate now t => persist_Create fate now t db
  end.

Definition run_call (fate : db_fate) (call : store_call) (st : tables * snapshot) : result store_error Team * (tables * snapshot) :=
  let '(x, db) := begin_call fate call st.1 st.2 in
  match x with
  | Err e => (Err e, (db, st.2))
  | Ok c => let '(res, s) := writeThrough c st.2 in (res, (db, s))
  end.

Definition store_Authenticate (HashKey : string → string) (rawKey : string) (s : snapshot) : result registry_error Team :=
  Authenticate HashKey rawKey (sn_registry s).
Definition store_List (s : snapshot) : list Team := List_ (sn_registry s).

(** ** seed.go

    One transaction: an error rolls everything back. *)
Fixpoint insert_all (teams : list Team) (db : tables) : option tables :=
  match teams with
  | [] => Some db
  | t :: ts => match insert_row t db with (Rows _, db) => insert_all ts db | _ => None end
  end.

Definition in_default_org (t : Team) : Team :=
  {| t_ID := t_ID t; t_Name := t_Name t; t_OrganizationID := DefaultOrgID; t_KeyHash := t_KeyHash t;
     t_AllowedProviders := t_AllowedProviders t; t_AllowedModels := t_AllowedModels t; t_RateLimits := t_RateLimits t;
     t_MonthlyBudgetMicros := t_MonthlyBudgetMicros t; t_Priority := t_Priority t; t_IsAdmin := t_IsAdmin t;
     t_CacheIsolated := t_CacheIsolated t; t_KeySource := t_KeySource t; t_KeyMasked := t_KeyMasked t;
     t_KeyCreatedAt := t_KeyCreatedAt t |}.

Definition Seed (teams : list Team) (db : tables) : option Z * tables :=
  if bool_decide (tb_teams db ≠ ∅) then (Some 0, db)
  else match insert_all (map in_default_org teams) {| tb_teams := tb_teams db; tb_orgs := {[DefaultOrgID]} ∪ tb_orgs db |} with
       | Some db' => (Some (Z.of_nat (length teams)), db')
       | None => (None, db)
       end.
