(* ===== verification/TeamStoreFacts.v ===== *)
(** * What the team store guarantees

    One replica of the gateway, its table shared with others: writes reach the
    table and the snapshot in two steps, a refresh queries the table and swaps
    the snapshot in two steps, and anything may happen in between. *)

From S2P Require Import Prelude Text Auth AuthFacts ConfigFiles TeamStore.

(** ** The table's invariant *)

Record db_ok (db : tables) : Prop := {
  do_id id rw : tb_teams db !! id = Some rw → t_ID (rw_team rw) = id;
  do_unique id1 id2 rw1 rw2 :
    tb_teams db !! id1 = Some rw1 → tb_teams db !! id2 = Some rw2 →
    t_KeyHash (rw_team rw1) = t_KeyHash (rw_team rw2) → t_KeyHash (rw_team rw1) ≠ ""%string → id1 = id2;
  do_deleted id rw : tb_teams db !! id = Some rw → rw_deleted rw = true → t_KeyHash (rw_team rw) = ""%string;
  do_row id rw : tb_teams db !! id = Some rw → row_ok (rw_team rw) = true
}.

Lemma live_lookup db id t :
  live db !! id = Some t ↔ tb_teams db !! id = Some {| rw_team := t; rw_deleted := false |}.
Proof.
  unfold live. rewrite lookup_omap_Some. split.
  - intros ([t' d] & Hd & Hl). simpl in Hd. destruct d; by simplify_eq.
  - intros Hl. eexists. by split; [|exact Hl].
Qed.

Lemma live_insert db id t d orgs :
  live {| tb_teams := <[id := {| rw_team := t; rw_deleted := d |}]> (tb_teams db); tb_orgs := orgs |} =
  if d then delete id (live db) else <[id := t]> (live db).
Proof.
  unfold live. simpl. destruct d; [by rewrite omap_insert_None|by erewrite omap_insert_Some].
Qed.

Lemma hash_free_spec id h rows :
  hash_free id h rows = true → h ≠ ""%string →
  ∀ id' rw, rows !! id' = Some rw → t_KeyHash (rw_team rw) = h → id' = id.
Proof.
  unfold hash_free. intros [?%bool_decide_eq_true|Hf%bool_decide_eq_true]%orb_true_iff Hne; [done|].
  intros id' rw Hl Hk. destruct (Hf id' rw Hl); [done|congruence].
Qed.

(** A row that fits the constraints keeps the table well formed. *)
Lemma insert_db_ok db t d :
  db_ok db → row_ok t = true → hash_free (t_ID t) (t_KeyHash t) (tb_teams db) = true →
  (d = true → t_KeyHash t = ""%string) →
  db_ok {| tb_teams := <[t_ID t := {| rw_team := t; rw_deleted := d |}]> (tb_teams db); tb_orgs := tb_orgs db |}.
Proof.
  intros Hok Hrow Hfree Hd. pose proof (hash_free_spec _ _ _ Hfree) as Hu. split; simpl.
  - intros id rw [[<- <-]|[_ H]]%lookup_insert_Some; [done|by eapply do_id].
  - intros id1 id2 rw1 rw2 [[<- <-]|[? H1]]%lookup_insert_Some [[<- <-]|[? H2]]%lookup_insert_Some; simpl.
    + done.
    + intros Heq Hne. symmetry. by eapply Hu.
    + intros Heq Hne. eapply Hu; [|done|done]. congruence.
    + by apply (do_unique _ Hok id1 id2 rw1 rw2).
  - intros id rw [[<- <-]|[_ H]]%lookup_insert_Some; simpl; [done|by eapply do_deleted].
  - intros id rw [[<- <-]|[_ H]]%lookup_insert_Some; [done|by eapply do_row].
Qed.

Lemma update_row_cases id f d db x db' :
  update_row id f d db = (x, db') →
  (db' = db ∧ exec (Some x) ≠ None) ∨
  ∃ t, live db !! id = Some t ∧ x = Rows 1 ∧ row_ok (f t) = true ∧ hash_free id (t_KeyHash (f t)) (tb_teams db) = true ∧
    db' = {| tb_teams := <[id := {| rw_team := f t; rw_deleted := d |}]> (tb_teams db); tb_orgs := tb_orgs db |}.
Proof.
  unfold update_row. destruct (tb_teams db !! id) as [[t dl]|] eqn:Hl; simpl; [|intros [= <- <-]; by left].
  destruct dl; [intros [= <- <-]; by left|].
  destruct (row_ok (f t) && hash_free id (t_KeyHash (f t)) (tb_teams db)) eqn:Hc; [|intros [= <- <-]; by left].
  apply andb_true_iff in Hc as [H1 H2]. intros [= <- <-]. right. exists t. split; [by apply live_lookup|done].
Qed.

Lemma insert_row_cases t db x db' :
  insert_row t db = (x, db') →
  (db' = db ∧ (∀ n, x ≠ Rows n)) ∨
  (tb_teams db !! t_ID t = None ∧ x = Rows 1 ∧ row_ok t = true ∧ hash_free (t_ID t) (t_KeyHash t) (tb_teams db) = true ∧
   db' = {| tb_teams := <[t_ID t := {| rw_team := t; rw_deleted := false |}]> (tb_teams db); tb_orgs := tb_orgs db |}).
Proof.
  unfold insert_row. destruct (row_ok t); [|intros [= <- <-]; by left].
  destruct (tb_teams db !! t_ID t) eqn:Hl; [intros [= <- <-]; by left|].
  destruct (hash_free _ _ _) eqn:Hh; [|intros [= <- <-]; by left]. simpl.
  case_bool_decide; intros [= <- <-]; [by left|by right].
Qed.

(** What a call did to the table: nothing, or one row put. *)
Inductive put (db : tables) : tables → Prop :=
| PutNothing : put db db
| PutRow t d :
    row_ok t = true → hash_free (t_ID t) (t_KeyHash t) (tb_teams db) = true → (d = true → t_KeyHash t = ""%string) →
    (∀ rw, tb_teams db !! t_ID t = Some rw → rw_deleted rw = false) →
    put db {| tb_teams := <[t_ID t := {| rw_team := t; rw_deleted := d |}]> (tb_teams db); tb_orgs := tb_orgs db |}.

Lemma put_ok db db' : db_ok db → put db db' → db_ok db'.
Proof. intros Hok []; [done|by apply insert_db_ok]. Qed.

(** A deleted team's row is never touched again, so its id is never reused. *)
Lemma put_deleted db db' id rw :
  put db db' → tb_teams db !! id = Some rw → rw_deleted rw = true → tb_teams db' !! id = Some rw.
Proof.
  intros [|t d _ _ _ Hl] Hid Hd; [done|]. simpl. rewrite lookup_insert_ne; [done|].
  intros <-. apply Hl in Hid. congruence.
Qed.

Lemma update_row_put id f d db :
  db_ok db → (∀ t, t_ID (f t) = t_ID t) → (d = true → ∀ t, t_KeyHash (f t) = ""%string) →
  put db (update_row id f d db).2.
Proof.
  intros Hok Hf Hd. destruct (update_row id f d db) as [x db'] eqn:Hu. simpl.
  apply update_row_cases in Hu as [[-> _]|(t & Hl & _ & Hr & Hh & ->)]; [constructor|].
  apply live_lookup in Hl as Hlk. apply (do_id _ Hok) in Hlk as Hl'. simpl in Hl'.
  assert (t_ID (f t) = id) as <- by (by rewrite Hf). apply PutRow; [done|done|intros H; by apply Hd|].
  intros rw. rewrite Hlk. by intros [= <-].
Qed.

Lemma insert_row_put t db : put db (insert_row t db).2.
Proof.
  destruct (insert_row t db) as [x db'] eqn:Hi. simpl.
  apply insert_row_cases in Hi as [[-> _]|(Hn & _ & Hr & Hh & ->)]; [constructor|]. apply PutRow; [done..|].
  intros rw. by rewrite Hn.
Qed.

Lemma run_sql_put fate stmt db : put db (stmt db).2 → put db (run_sql fate stmt db).2.
Proof. destruct fate; simpl; [by destruct (stmt db)|constructor|done]. Qed.

Lemma persist_put fate c f d db :
  db_ok db → (∀ t, t_ID (f t) = t_ID t) → (d = true → ∀ t, t_KeyHash (f t) = ""%string) →
  put db (persist fate c f d db).2.
Proof.
  intros Hok Hf Hd. pose proof (run_sql_put fate _ db (update_row_put (ch_id c) f d db Hok Hf Hd)) as H.
  unfold persist. by destruct (run_sql _ _ db).
Qed.

Lemma begin_call_put fate call db s : db_ok db → put db (begin_call fate call db s).2.
Proof.
  intros Hok. destruct call as [id p|dbnow now id h m|id|id|now t]; simpl.
  - unfold persist_Update. destruct (store_get id s) as [cur|]; [|constructor].
    destruct (Apply p cur); [|constructor]. by apply persist_put.
  - unfold persist_RotateKey. case_bool_decide; [constructor|]. by apply persist_put.
  - by apply persist_put.
  - by apply persist_put.
  - unfold persist_Create. destruct (Validate _ _); [constructor|].
    pose proof (run_sql_put fate _ db (insert_row_put (created_team now t) db)) as H.
    by destruct (run_sql _ _ db).
Qed.

(** ** What is loaded *)

Lemma index_all teams r :
  NoDup (t_ID <$> teams) →
  (∀ t1 t2, t1 ∈ teams → t2 ∈ teams → t_KeyHash t1 = t_KeyHash t2 → t_KeyHash t1 ≠ ""%string → t1 = t2) →
  (∀ t, t ∈ teams → t_KeyHash t ≠ ""%string → byHash r !! t_KeyHash t = None) →
  ∃ r', index_teams teams r = Ok r' ∧ (∀ t, t ∈ teams → byID r' !! t_ID t = Some t) ∧
    (∀ id, id ∉ t_ID <$> teams → byID r' !! id = byID r !! id).
Proof.
  revert r. induction teams as [|t ts IH]; intros r Hnd Hu Hfresh; simpl; [exists r; split_and!; set_solver|].
  apply NoDup_cons in Hnd as [Hn Hnd].
  set (r1 := {| byHash := if bool_decide (t_KeyHash t = ""%string) then byHash r else <[t_KeyHash t := t]> (byHash r);
                byID := <[t_ID t := t]> (byID r) |}).
  assert (index_teams (t :: ts) r = index_teams ts r1) as Heq.
  { simpl. unfold r1. case_bool_decide; [done|]. by rewrite Hfresh by (done || left). }
  destruct (IH r1) as (r' & Hr & H1 & H2); [done| | |].
  { intros t1 t2 ? ?. apply Hu; by right. }
  { intros t' Ht' Hne. unfold r1. simpl. case_bool_decide; [apply Hfresh; [by right|done]|].
    rewrite lookup_insert_ne; [apply Hfresh; [by right|done]|]. intros Hk.
    apply Hn. rewrite (Hu t t'); [by apply list_elem_of_fmap_2|left|by right|done|done]. }
  exists r'. split; [by rewrite <- Hr, <- Heq|]. split.
  - intros t' [->|Ht']%elem_of_cons; [|by apply H1]. rewrite H2 by done. apply lookup_insert_eq.
  - intros id Hid. apply not_elem_of_cons in Hid as [? Hid]. rewrite H2 by done. by apply lookup_insert_ne.
Qed.

Lemma live_elem db t :
  db_ok db → t ∈ (map_to_list (live db)).*2 ↔ live db !! t_ID t = Some t.
Proof.
  intros Hok. rewrite list_elem_of_fmap. split.
  - intros ([id t'] & -> & Hin%elem_of_map_to_list). simpl.
    pose proof Hin as Hid%live_lookup%(do_id _ Hok). simpl in Hid. by rewrite Hid.
  - intros Hl. exists (t_ID t, t). split; [done|]. by apply elem_of_map_to_list.
Qed.

Lemma live_ids db : db_ok db → t_ID <$> (map_to_list (live db)).*2 = (map_to_list (live db)).*1.
Proof.
  intros Hok. rewrite <- list_fmap_compose. apply Forall_fmap_ext. apply Forall_forall.
  intros [id t] Hin%elem_of_map_to_list%live_lookup. exact (do_id _ Hok _ _ Hin).
Qed.

(** What a load yields, and that it fails on an empty table only. *)
Lemma loadRegistry_live db :
  db_ok db →
  match loadRegistry db with
  | Ok r => reg_ok r ∧ byID r = live db ∧ live db ≠ ∅
  | Err e => e = NoTeams ∧ live db = ∅
  end.
Proof.
  intros Hok. pose proof (live_elem db) as Hel. pose proof (live_ids db Hok) as Hids.
  pose proof (NoDup_fst_map_to_list (live db)) as Hnd. unfold loadRegistry.
  destruct ((map_to_list (live db)).*2) as [|t0 ts] eqn:Hm.
  { split; [done|]. apply fmap_nil_inv in Hm. by apply map_to_list_empty_iff. }
  rewrite <- Hm in *. rewrite <- Hids in Hnd. clear Hids.
  destruct (index_all ((map_to_list (live db)).*2) {| byHash := ∅; byID := ∅ |}) as (r & Hr & H1 & H2); [done| |done|].
  { intros t1 t2 E1%Hel E2%Hel Hk Hne; [|done..].
    assert (t_ID t1 = t_ID t2) as Hid.
    { eapply (do_unique _ Hok); [by apply live_lookup|by apply live_lookup|done|done]. }
    congruence. }
  unfold NewRegistry. rewrite Hr. split; [|split].
  - eapply index_teams_ok; [..|exact Hr]; [by split|done|done].
  - apply map_eq. intros id. destruct (live db !! id) as [t|] eqn:Hl.
    + assert (t_ID t = id) as <- by (apply live_lookup in Hl; exact (do_id _ Hok _ _ Hl)). apply H1, Hel; done.
    + rewrite H2; [done|]. intros (t & -> & Ht)%list_elem_of_fmap. apply Hel in Ht; [|done]. congruence.
  - intros He. rewrite He, map_to_list_empty in Hm. done.
Qed.

(** ** A replica and its table *)

(** [id]'s row is there and holds [h]. *)
Definition holds (db : tables) (id h : string) : Prop := ∃ t, live db !! id = Some t ∧ t_KeyHash t = h.

(** The key a change puts in the snapshot. *)
Definition wrote (c : change) (id h : string) : Prop :=
  match c with
  | ChRotate _ id' h' _ => id = id' ∧ h = h'
  | ChCreate t => id = t_ID t ∧ h = t_KeyHash t
  | _ => False
  end.

(** What a snapshot may know: the tables there have been since it was queried,
    and the changes whose write-through was under way when it was. *)
Record window := { wn_tables : list tables; wn_late : list change }.

Definition later (db : tables) (v : window) : window := {| wn_tables := wn_tables v ++ [db]; wn_late := wn_late v |}.

Definition covered (v : window) (id h : string) : Prop :=
  (∃ db, db ∈ wn_tables v ∧ holds db id h) ∨ (∃ c, c ∈ wn_late v ∧ wrote c id h).

Record world := {
  w_db : tables;
  w_snap : snapshot;
  w_pending : list change;
  w_loading : option (Registry * window);
  w_window : window
}.

(** The table changes: every window sees it. *)
Definition moved (db : tables) (pending : list change) (w : world) : world :=
  {| w_db := db; w_snap := w_snap w; w_pending := pending;
     w_loading := match w_loading w with Some (r, v) => Some (r, later db v) | None => None end;
     w_window := later db (w_window w) |}.

Inductive wstep (w : world) : world → Prop :=
| WBegin fate call x db :
    begin_call fate call (w_db w) (w_snap w) = (x, db) →
    wstep w (moved db (match x with Ok c => w_pending w ++ [c] | Err _ => w_pending w end) w)
| WApply l1 c l2 :
    w_pending w = l1 ++ c :: l2 →
    wstep w {| w_db := w_db w; w_snap := (writeThrough c (w_snap w)).2; w_pending := l1 ++ l2;
               w_loading := w_loading w; w_window := w_window w |}
| WElsewhere fate call s x db :
    begin_call fate call (w_db w) s = (x, db) → wstep w (moved db (w_pending w) w)
| WQuery r :
    loadRegistry (w_db w) = Ok r →
    wstep w {| w_db := w_db w; w_snap := w_snap w; w_pending := w_pending w;
               w_loading := Some (r, {| wn_tables := [w_db w]; wn_late := w_pending w |}); w_window := w_window w |}
| WSwap now r v :
    w_loading w = Some (r, v) →
    wstep w {| w_db := w_db w; w_snap := {| sn_registry := r; sn_loadedAt := now; sn_degraded := false |};
               w_pending := w_pending w; w_loading := None; w_window := v |}
| WRefreshFails :
    wstep w {| w_db := w_db w; w_snap := markDegraded (w_snap w); w_pending := w_pending w;
               w_loading := None; w_window := w_window w |}.

Definition started (db : tables) (s : snapshot) : world :=
  {| w_db := db; w_snap := s; w_pending := []; w_loading := None;
     w_window := {| wn_tables := [db]; wn_late := [] |} |}.

(** *** Its invariant *)

Record view_ok (r : Registry) (v : window) (w : world) : Prop := {
  vo_reg : reg_ok r;
  vo_keys id t : byID r !! id = Some t → t_KeyHash t ≠ ""%string → covered v id (t_KeyHash t);
  vo_pending c id h : c ∈ w_pending w → wrote c id h → covered v id h
}.

Record world_ok (w : world) : Prop := {
  wo_db : db_ok (w_db w);
  wo_snap : view_ok (sn_registry (w_snap w)) (w_window w) w;
  wo_loading r v : w_loading w = Some (r, v) → view_ok r v w
}.

Lemma covered_later db v id h : covered v id h → covered (later db v) id h.
Proof.
  intros [(x & Hx & Hh)|Hl]; [|by right]. left. exists x. split; [|done]. apply elem_of_app. by left.
Qed.

Lemma covered_now db v id h : holds db id h → covered (later db v) id h.
Proof. intros Hh. left. exists db. split; [|done]. apply elem_of_app. right. by apply list_elem_of_singleton. Qed.

(** A statement that was answered left the key it wrote in the table. *)
Lemma persist_holds fate c f d db c' db' h :
  persist fate c f d db = (Ok c', db') → d = false → (∀ t, t_KeyHash (f t) = h) → holds db' (ch_id c) h.
Proof.
  unfold persist, run_sql. destruct fate; [|done|done]. destruct (update_row (ch_id c) f d db) as [x db1] eqn:Hu.
  intros Hp -> Hf. apply update_row_cases in Hu as [[-> Hx]|(t & Hl & -> & _ & _ & ->)].
  - by destruct (exec (Some x)).
  - injection Hp as _ <-. exists (f t). rewrite live_insert. split; [apply lookup_insert_eq|done].
Qed.

Lemma persist_same fate c f d db c' db' : persist fate c f d db = (Ok c', db') → c' = c.
Proof. unfold persist. destruct (run_sql _ _ db) as [x db1]. destruct (exec x); [done|]. by intros [= <- _]. Qed.

Lemma begin_call_wrote fate call db s c db' id h :
  begin_call fate call db s = (Ok c, db') → wrote c id h → holds db' id h.
Proof.
  destruct call as [id0 p|dbnow now id0 h0 m|id0|id0|now t]; simpl.
  - unfold persist_Update. destruct (store_get id0 s) as [cur|]; [|done]. destruct (Apply p cur); [|done].
    by intros ->%persist_same.
  - unfold persist_RotateKey. case_bool_decide; [done|]. intros Hp. pose proof Hp as ->%persist_same.
    intros [-> ->]. by eapply (persist_holds _ _ _ _ _ _ _ h0) in Hp.
  - by intros ->%persist_same.
  - by intros ->%persist_same.
  - unfold persist_Create. destruct (Validate _ _); [done|]. unfold run_sql. destruct fate; [|done|done].
    destruct (insert_row (created_team now t) db) as [x db1] eqn:Hi.
    apply insert_row_cases in Hi as [[-> Hx]|(_ & -> & _ & _ & ->)].
    + destruct x; try done. by destruct (Hx n).
    + intros [= <- <-] [-> ->]. exists (created_team now t). rewrite live_insert. split; [apply lookup_insert_eq|done].
Qed.

(** A change keeps the registry's indexes, and the only new key is its own. *)
Lemma ch_apply_keys c r id t :
  reg_ok r → byID (ch_apply c r).2 !! id = Some t → t_KeyHash t ≠ ""%string →
  (∃ t', byID r !! id = Some t' ∧ t_KeyHash t' = t_KeyHash t) ∨ wrote c id (t_KeyHash t).
Proof.
  intros Hok. assert (byID r !! id = Some t → ∃ t', byID r !! id = Some t' ∧ t_KeyHash t' = t_KeyHash t) as Hsame by eauto.
  destruct c as [i p|now i h m|i|i|u]; simpl.
  - unfold Update. destruct (byID r !! i) as [e|] eqn:He; [|eauto]. destruct (Apply p e) as [u|] eqn:Ha; [|eauto]. simpl.
    apply Apply_identity in Ha as [_ Hk]. intros [[<- <-]|[_ H]]%lookup_insert_Some _; [|eauto]. left. eauto.
  - unfold RotateKey. destruct (byID r !! i) as [e|] eqn:He; [|eauto]. case_bool_decide; [eauto|].
    destruct (match byHash r !! h with Some _ => _ | None => _ end); [eauto|]. simpl.
    intros [[<- <-]|[_ H']]%lookup_insert_Some _; [by right|eauto].
  - unfold RevokeKey. destruct (byID r !! i) as [e|] eqn:He; [|eauto]. simpl.
    intros [[<- <-]|[_ H]]%lookup_insert_Some ?; [done|eauto].
  - unfold removed, Remove. destruct (byID r !! i) as [e|] eqn:He; simpl; [|eauto].
    intros [_ H]%lookup_delete_Some _; eauto.
  - unfold added, Add. destruct (byID r !! t_ID u) as [e|] eqn:He; [eauto|]. case_bool_decide; simpl.
    + intros [[<- <-]|[_ H']]%lookup_insert_Some ?; [done|eauto].
    + destruct (byHash r !! t_KeyHash u); [eauto|]. simpl.
      intros [[<- <-]|[_ H']]%lookup_insert_Some _; [by right|eauto].
Qed.

Lemma ch_apply_ok c r : reg_ok r → reg_ok (ch_apply c r).2.
Proof.
  intros Hok. destruct c as [i p|now i h m|i|i|u]; simpl.
  - eapply rstep_ok; [done|apply RUpdate].
  - eapply rstep_ok; [done|apply RRotate].
  - eapply rstep_ok; [done|apply RRevoke].
  - pose proof (rstep_ok _ _ Hok (RRemove r i)) as H. unfold removed. by destruct (Remove i r) as [[?|[]] ?].
  - pose proof (rstep_ok _ _ Hok (RAdd r u)) as H. unfold added. by destruct (Add u r) as [[[]|] ?].
Qed.

Lemma view_moved r v w db pending :
  view_ok r v w → (∀ c, c ∈ pending → c ∈ w_pending w ∨ ∀ id h, wrote c id h → holds db id h) →
  view_ok r (later db v) (moved db pending w).
Proof.
  intros [H1 H2 H3] Hp. split; [done| |].
  - intros id t Ht Hne. by apply covered_later, H2.
  - simpl. intros c id h Hc Hw. destruct (Hp c Hc) as [Hin|Hh].
    + by eapply covered_later, H3.
    + by eapply covered_now, Hh.
Qed.

Lemma moved_ok w db pending :
  world_ok w → db_ok db → (∀ c, c ∈ pending → c ∈ w_pending w ∨ ∀ id h, wrote c id h → holds db id h) →
  world_ok (moved db pending w).
Proof.
  intros [H1 H2 H3] Hdb Hp. split; [done|by apply view_moved|]. simpl. intros r v Hl.
  destruct (w_loading w) as [[r' v']|]; [|done]. injection Hl as <- <-. apply view_moved; [by apply H3|done].
Qed.

Lemma view_fewer r v w w' : view_ok r v w → (∀ c, c ∈ w_pending w' → c ∈ w_pending w) → view_ok r v w'.
Proof. intros [H1 H2 H3] Hp. split; [done|done|]. intros c id h Hc. by apply H3, Hp. Qed.

Lemma writeThrough_registry c s : sn_registry (writeThrough c s).2 = (ch_apply c (sn_registry s)).2.
Proof. unfold writeThrough. by destruct (ch_apply c _). Qed.

Lemma world_step_ok w w' : world_ok w → wstep w w' → world_ok w'.
Proof.
  intros Hok. pose proof Hok as [Hdb Hs Hl].
  intros [fate call x db Hb|l1 c l2 Hp|fate call s x db Hb|r Hr|now r v Hr|].
  - pose proof (begin_call_put fate call _ (w_snap w) Hdb) as Hput. rewrite Hb in Hput. simpl in Hput.
    apply moved_ok; [done|by eapply put_ok|]. destruct x as [c|]; [|by left].
    intros c' [Hc| ->%list_elem_of_singleton]%elem_of_app; [by left|right].
    intros id h. by eapply begin_call_wrote.
  - assert (∀ c', c' ∈ l1 ++ l2 → c' ∈ w_pending w) as Hsub.
    { intros c'. rewrite Hp. set_solver. }
    split; simpl; [done| |intros r v Hrv; eapply view_fewer; [by apply Hl|done]].
    split; simpl; rewrite ?writeThrough_registry.
    + apply ch_apply_ok, Hs.
    + intros id t Ht Hne. destruct (ch_apply_keys c _ id t (vo_reg _ _ _ Hs) Ht Hne) as [(t' & Ht' & Hk)|Hw].
      * rewrite <- Hk in *. by apply (vo_keys _ _ _ Hs).
      * eapply (vo_pending _ _ _ Hs); [|exact Hw]. rewrite Hp. set_solver.
    + intros c' id h Hc'. apply (vo_pending _ _ _ Hs). by apply Hsub.
  - pose proof (begin_call_put fate call _ s Hdb) as Hput. rewrite Hb in Hput. simpl in Hput.
    apply moved_ok; [done|by eapply put_ok|by left].
  - split; simpl; [done|by eapply view_fewer|]. intros r' v' [= <- <-].
    pose proof (loadRegistry_live _ Hdb) as Hload. rewrite Hr in Hload. destruct Hload as (Hreg & Hby & _).
    split; [done| |intros c id h Hc Hw; right; by exists c].
    intros id t Ht _. left. exists (w_db w). split; [left|]. exists t. by rewrite <- Hby.
  - split; simpl; [done| |done]. eapply view_fewer; [by apply Hl|done].
  - split; simpl; [done| |done]. by eapply view_fewer.
Qed.

(** ** One replica, no lost answers *)

(** A team but for the time its key was made, which the database's clock and the
    gateway's disagree on. *)
Definition erase (t : Team) : Team := with_key t (t_KeyHash t) (t_KeySource t) (t_KeyMasked t) None.

Record coherent (db : tables) (s : snapshot) : Prop := {
  co_reg : reg_ok (sn_registry s);
  co_rows : erase <$> byID (sn_registry s) = erase <$> live db
}.

Lemma erase_inv t t' : erase t = erase t' → t' = with_key t (t_KeyHash t) (t_KeySource t) (t_KeyMasked t) (t_KeyCreatedAt t').
Proof. destruct t, t'. unfold erase, with_key. simpl. intros H. injection H. intros. by subst. Qed.

Lemma coherent_row db s id t :
  coherent db s → live db !! id = Some t → ∃ e, byID (sn_registry s) !! id = Some e ∧ erase e = erase t.
Proof.
  intros [_ Hc] Hl. pose proof (f_equal (.!! id) Hc) as H. simpl in H. rewrite !lookup_fmap, Hl in H. simpl in H.
  destruct (byID _ !! id) as [e|]; [|done]. apply (inj Some) in H. by exists e.
Qed.

Lemma coherent_entry db s id e :
  coherent db s → byID (sn_registry s) !! id = Some e → ∃ t, live db !! id = Some t ∧ erase e = erase t.
Proof.
  intros [_ Hc] Hl. pose proof (f_equal (.!! id) Hc) as H. simpl in H. rewrite !lookup_fmap, Hl in H. simpl in H.
  destruct (live db !! id) as [t|]; [|done]. apply (inj Some) in H. by exists t.
Qed.

(** A key free in the table is free in the snapshot. *)
Lemma coherent_free db s id h :
  coherent db s → hash_free id h (tb_teams db) = true → h ≠ ""%string →
  ∀ o, byHash (sn_registry s) !! h = Some o → t_ID o = id.
Proof.
  intros Hc Hf Hne o Ho. destruct (ro_hash _ (co_reg _ _ Hc) _ _ Ho Hne) as [Hk Hi].
  destruct (coherent_entry _ _ _ _ Hc Hi) as (t & Ht%live_lookup & He).
  eapply (hash_free_spec id h _ Hf Hne); [exact Ht|]. simpl. rewrite <- Hk. apply erase_inv in He as ->. done.
Qed.

Lemma coherent_put db s id u t orgs loaded deg byHash' :
  coherent db s → erase u = erase t →
  reg_ok {| byHash := byHash'; byID := <[id := u]> (byID (sn_registry s)) |} →
  coherent {| tb_teams := <[id := {| rw_team := t; rw_deleted := false |}]> (tb_teams db); tb_orgs := orgs |}
           {| sn_registry := {| byHash := byHash'; byID := <[id := u]> (byID (sn_registry s)) |}; sn_loadedAt := loaded; sn_degraded := deg |}.
Proof. intros [_ Hc] He Hr. split; [done|]. rewrite live_insert. simpl. by rewrite !fmap_insert, Hc, He. Qed.

(** The change a call persisted, applied to a snapshot that agreed with the
    table before, makes it agree after, and succeeds. *)
Definition follows (c : change) (db' : tables) (s : snapshot) : Prop :=
  coherent db' (writeThrough c s).2 ∧
  ∃ t, (writeThrough c s).1 = Ok t ∧ t_ID t = ch_id c ∧
    match c with ChDelete id => live db' !! id = None | _ => erase <$> live db' !! ch_id c = Some (erase t) end.

Lemma follows_put c db s u t byHash' :
  coherent db s → erase u = erase t → t_ID u = ch_id c → match c with ChDelete _ => False | _ => True end →
  ch_apply c (sn_registry s) = (Ok u, {| byHash := byHash'; byID := <[ch_id c := u]> (byID (sn_registry s)) |}) →
  follows c {| tb_teams := <[ch_id c := {| rw_team := t; rw_deleted := false |}]> (tb_teams db); tb_orgs := tb_orgs db |} s.
Proof.
  intros Hc He Hid Hnd Ha. pose proof (ch_apply_ok c _ (co_reg _ _ Hc)) as Hr. unfold follows, writeThrough.
  rewrite Ha in *. simpl in *. split; [by apply coherent_put|]. exists u. split; [done|]. split; [done|].
  rewrite live_insert. destruct c; try done; simpl; by rewrite lookup_insert_eq, He.
Qed.

Lemma persist_follows c f d db s :
  coherent db s →
  (∀ t e, live db !! ch_id c = Some t → byID (sn_registry s) !! ch_id c = Some e → erase e = erase t →
     hash_free (ch_id c) (t_KeyHash (f t)) (tb_teams db) = true →
     follows c {| tb_teams := <[ch_id c := {| rw_team := f t; rw_deleted := d |}]> (tb_teams db); tb_orgs := tb_orgs db |} s) →
  match persist DbAnswers c f d db with (Ok c', db') => follows c' db' s | (Err _, db') => db' = db end.
Proof.
  intros Hc Hf. unfold persist, run_sql. destruct (update_row (ch_id c) f d db) as [x db'] eqn:Hu.
  apply update_row_cases in Hu as [[-> Hx]|(t & Hl & -> & _ & Hh & ->)].
  - by destruct (exec (Some x)).
  - simpl. destruct (coherent_row _ _ _ _ Hc Hl) as (e & He & Hee). by apply (Hf t e).
Qed.

Lemma begin_call_follows call db s :
  coherent db s →
  match begin_call DbAnswers call db s with (Ok c, db') => follows c db' s | (Err _, db') => db' = db end.
Proof.
  intros Hc. pose proof (ro_id _ (co_reg _ _ Hc)) as Hids. destruct call as [id p|dbnow now id h m|id|id|now t]; simpl.
  - unfold persist_Update, store_get, Get. destruct (byID (sn_registry s) !! id) as [e|] eqn:He; [|done].
    destruct (Apply p e) as [u|] eqn:Ha; [|done]. apply persist_follows; [done|]. simpl. intros t e' Hl He' Hee _.
    assert (e' = e) as -> by congruence. pose proof (Hids _ _ He) as Hid.
    apply (follows_put (ChUpdate id p) _ _ u _ (<[t_KeyHash u := u]> (byHash (sn_registry s)))); [done| | |done|].
    + unfold Apply in Ha. case_match; [done|]. injection Ha as <-. by apply erase_inv in Hee as ->.
    + simpl. apply Apply_identity in Ha as [-> _]. done.
    + simpl. unfold Update. by rewrite He, Ha.
  - unfold persist_RotateKey. destruct (bool_decide_reflect (h = ""%string)) as [|Hne]; [done|].
    apply persist_follows; [done|]. simpl. intros t e Hl He Hee Hf.
    set (u := with_key e h KeySourceRotated m (Some now)).
    apply (follows_put (ChRotate now id h m) _ _ u _ (<[h := u]> (delete (t_KeyHash e) (byHash (sn_registry s))))); [done| | |done|].
    + by apply erase_inv in Hee as ->.
    + exact (Hids _ _ He).
    + simpl. unfold RotateKey. rewrite He, bool_decide_eq_false_2 by done.
      destruct (byHash (sn_registry s) !! h) as [o|] eqn:Ho; [|done].
      by rewrite bool_decide_eq_false_2 by (intros Hx; apply Hx; by eapply coherent_free).
  - apply persist_follows; [done|]. simpl. intros t e Hl He Hee _.
    apply (follows_put (ChRevoke id) _ _ (with_key e "" KeySourceRevoked "" None) _ (delete (t_KeyHash e) (byHash (sn_registry s)))); [done| | |done|].
    + by apply erase_inv in Hee as ->.
    + exact (Hids _ _ He).
    + simpl. unfold RevokeKey. by rewrite He.
  - apply persist_follows; [done|]. simpl. intros t e Hl He Hee _. pose proof (ch_apply_ok (ChDelete id) _ (co_reg _ _ Hc)) as Hr.
    unfold follows, writeThrough. simpl in *. unfold removed, Remove in *. rewrite He in *. simpl in *.
    split; [split; [done|]|exists e; split_and!; [done|by apply Hids|]].
    + rewrite live_insert. simpl. by rewrite !fmap_delete, (co_rows _ _ Hc).
    + rewrite live_insert. apply lookup_delete_eq.
  - unfold persist_Create. destruct (Validate _ _); [done|]. unfold run_sql. generalize (created_team now t). clear t. intros u.
    destruct (insert_row u db) as [x db'] eqn:Hi. apply insert_row_cases in Hi as [[-> Hx]|(Hn & -> & _ & Hh & ->)].
    { destruct x; try done. by destruct (Hx n). }
    assert (byID (sn_registry s) !! t_ID u = None) as Hnone.
    { destruct (byID (sn_registry s) !! t_ID u) as [e|] eqn:He; [|done].
      destruct (coherent_entry _ _ _ _ Hc He) as (t' & Ht'%live_lookup & _). congruence. }
    apply (follows_put (ChCreate u) _ _ u _ (if bool_decide (t_KeyHash u = ""%string) then byHash (sn_registry s)
       else <[t_KeyHash u := u]> (byHash (sn_registry s)))); [done..|].
    simpl. unfold added, Add. rewrite Hnone. destruct (bool_decide_reflect (t_KeyHash u = ""%string)) as [|Hne]; [done|].
    destruct (byHash (sn_registry s) !! t_KeyHash u) as [o|] eqn:Ho; [|done]. exfalso.
    pose proof (coherent_free _ _ _ _ Hc Hh Hne o Ho) as Hid.
    destruct (ro_hash _ (co_reg _ _ Hc) _ _ Ho Hne) as [_ Hi]. congruence.
Qed.

(** ** The promises *)

Definition to_option {E A} (x : result E A) : option A := match x with Ok a => Some a | Err _ => None end.

(** The specification: the table alone, asked on every request. *)
Definition table_Authenticate (HashKey : string → string) (rawKey : string) (db : tables) : option Team :=
  find_first (λ t, bool_decide (t_KeyHash t = HashKey rawKey)) (map_to_list (live db)).*2.

Inductive sstep (st : tables * snapshot) : tables * snapshot → Prop :=
| SCall fate call : fate ≠ DbReplyLost → sstep st (run_call fate call st).2
| SRefresh reachable now : sstep st (st.1, (Refresh reachable now st.1 st.2).2).

(** Only a deletion leaves a deletion to apply. *)
Lemma begin_call_change fate call db s c db' :
  begin_call fate call db s = (Ok c, db') →
  match call with CallDelete id => c = ChDelete id | _ => ∀ id, c ≠ ChDelete id end.
Proof.
  destruct call as [id p|dbnow now id h m|id|id|now t]; simpl.
  - unfold persist_Update. destruct (store_get id s) as [cur|]; [|done]. destruct (Apply p cur); [|done]. by intros ->%persist_same.
  - unfold persist_RotateKey. case_bool_decide; [done|]. by intros ->%persist_same.
  - by intros ->%persist_same.
  - by intros ->%persist_same.
  - unfold persist_Create. destruct (Validate _ _); [done|]. destruct (run_sql _ _ db) as [[[]|] ?]; try done. by intros [= <- _].
Qed.

Lemma run_call_unreachable call st :
  ∃ e, run_call DbUnreachable call st = (Err e, st).
Proof.
  destruct st as [db s]. unfold run_call.
  assert (∃ e, begin_call DbUnreachable call db s = (Err e, db)) as [e He]; [|by exists e; simpl; rewrite He].
  destruct call as [id p|dbnow now id h m|id|id|now t]; simpl.
  - unfold persist_Update. destruct (store_get id s) as [cur|]; [|eauto]. destruct (Apply p cur); [|eauto]. eexists. reflexivity.
  - unfold persist_RotateKey. case_bool_decide; eexists; reflexivity.
  - eexists. reflexivity.
  - eexists. reflexivity.
  - unfold persist_Create. destruct (Validate _ _); eexists; reflexivity.
Qed.

Lemma begin_call_ok fate call db s : db_ok db → db_ok (begin_call fate call db s).2.
Proof. intros Hok. eapply put_ok; [done|by apply begin_call_put]. Qed.

Lemma run_call_db fate call st : (run_call fate call st).2.1 = (begin_call fate call st.1 st.2).2.
Proof.
  unfold run_call. destruct (begin_call fate call st.1 st.2) as [[c|e] db]; [|done]. by destruct (writeThrough c st.2).
Qed.

Lemma New_coherent reachable now db s : db_ok db → New_ reachable now db = Ok s → coherent db s.
Proof.
  intros Hok. unfold New_. destruct reachable; [|done]. simpl. pose proof (loadRegistry_live db Hok) as Hl.
  destruct (loadRegistry db) as [r|]; [|done]. destruct Hl as (Hr & Hb & _). intros [= <-]. split; [done|]. simpl. by rewrite Hb.
Qed.

Lemma sstep_coherent st st' :
  db_ok st.1 ∧ coherent st.1 st.2 → sstep st st' → db_ok st'.1 ∧ coherent st'.1 st'.2.
Proof.
  destruct st as [db s]. simpl. intros [Hok Hc] [fate call Hf|reachable now].
  - split; [rewrite run_call_db; by apply begin_call_ok|]. destruct fate; [|by destruct (run_call_unreachable call (db, s)) as [e ->]|done].
    pose proof (begin_call_follows call db s Hc) as Hb. unfold run_call. simpl.
    destruct (begin_call DbAnswers call db s) as [[c|e] db']; simpl; [|by subst].
    destruct Hb as [Hb _]. by destruct (writeThrough c s).
  - split; [done|]. simpl. unfold Refresh. destruct (New_ reachable now db) as [s'|e] eqn:Hn; simpl; [by eapply New_coherent|].
    destruct Hc. by split.
Qed.

Section promises.
Context (HashKey : string → string).
Hypothesis HashKey_nonempty : ∀ raw, HashKey raw ≠ ""%string.

Lemma table_Authenticate_spec db raw t :
  db_ok db → table_Authenticate HashKey raw db = Some t ↔ live db !! t_ID t = Some t ∧ t_KeyHash t = HashKey raw.
Proof.
  intros Hok. unfold table_Authenticate. split.
  - intros [Ht Hk%bool_decide_eq_true]%find_first_Some. apply live_elem in Ht; done.
  - intros [Hl Hk]. destruct (find_first _ _) as [u|] eqn:Hf.
    + apply find_first_Some in Hf as [Hu%live_elem Hku%bool_decide_eq_true]; [|done]. f_equal.
      assert (t_ID u = t_ID t) as Hid.
      { eapply (do_unique _ Hok); [by apply live_lookup|by apply live_lookup|simpl; congruence|]. simpl. rewrite Hku. apply HashKey_nonempty. }
      congruence.
    + apply live_elem in Hl; [|done]. apply (find_first_None _ _ Hf) in Hl. by rewrite bool_decide_eq_true_2 in Hl.
Qed.

Lemma coherent_Authenticate db s raw :
  db_ok db → coherent db s →
  erase <$> to_option (store_Authenticate HashKey raw s) = erase <$> table_Authenticate HashKey raw db.
Proof.
  intros Hok Hc. pose proof (Authenticate_spec HashKey HashKey_nonempty (sn_registry s) raw) as Ha.
  pose proof (table_Authenticate_spec db raw) as Ht. unfold store_Authenticate.
  destruct (Authenticate HashKey raw (sn_registry s)) as [e|x] eqn:He; simpl.
  - destruct (proj1 (Ha e (co_reg _ _ Hc)) eq_refl) as [Hi Hk]. destruct (coherent_entry _ _ _ _ Hc Hi) as (t & Hl & Hee).
    pose proof (erase_inv _ _ Hee) as Htt. assert (t_ID t = t_ID e ∧ t_KeyHash t = HashKey raw) as [Hid Hkt] by (by rewrite Htt).
    assert (table_Authenticate HashKey raw db = Some t) as ->; [|simpl; by rewrite Hee].
    apply Ht; [done|]. split; [by rewrite Hid|done].
  - destruct (table_Authenticate HashKey raw db) as [t|] eqn:Htt; [|done]. exfalso.
    destruct (proj1 (Ht t Hok) eq_refl) as [Hl Hk].
    destruct (coherent_row _ _ _ _ Hc Hl) as (e & Hi & Hee). symmetry in Hee.
    pose proof (erase_inv _ _ Hee) as Hte. assert (t_ID e = t_ID t ∧ t_KeyHash e = HashKey raw) as [Hid Hkt] by (by rewrite Hte).
    rewrite <- Hid in Hi. assert (@Err registry_error Team x = Ok e) as Hx; [|done]. apply Ha; [apply Hc|done].
Qed.

(** C32: One replica whose statements are answered or never run is the table
    itself.  After any sequence of creations, limit changes, rotations,
    revocations, deletions and refreshes, failed refreshes and failed writes
    included, a key authenticates as exactly the team whose row holds its hash,
    with the limits and key of that row, and [Get] is the row; a write that
    succeeds returns what the table then holds, and one that fails leaves the
    table as it was. *)
Theorem one_replica_is_the_table db0 s0 now db s :
  db_ok db0 → New_ true now db0 = Ok s0 → rtc sstep (db0, s0) (db, s) →
  (∀ raw, erase <$> to_option (store_Authenticate HashKey raw s) = erase <$> table_Authenticate HashKey raw db) ∧
  (∀ id, erase <$> to_option (store_get id s) = erase <$> live db !! id) ∧
  (∀ call t st', run_call DbAnswers call (db, s) = (Ok t, st') →
     match call with
     | CallDelete id => live st'.1 !! id = None
     | _ => erase <$> live st'.1 !! t_ID t = Some (erase t)
     end) ∧
  (∀ call e st', run_call DbAnswers call (db, s) = (Err e, st') → st' = (db, s)).
Proof.
  intros Hok Hnew Hrun.
  assert (db_ok (db, s).1 ∧ coherent (db, s).1 (db, s).2) as [Hdb Hc].
  { eapply (rtc_ind_r (λ st, db_ok st.1 ∧ coherent st.1 st.2)); [| |exact Hrun].
    - split; [done|by eapply New_coherent].
    - intros x y _ Hs Hx. by eapply sstep_coherent. }
  simpl in Hdb, Hc. split; [intros raw; by apply coherent_Authenticate|]. split; [|split].
  - intros id. rewrite <- !lookup_fmap, <- (co_rows _ _ Hc), lookup_fmap. unfold store_get, Get. by destruct (byID _ !! id).
  - intros call t st'. pose proof (begin_call_follows call db s Hc) as Hb. unfold run_call. simpl.
    destruct (begin_call DbAnswers call db s) as [[c|e] db'] eqn:Hbc; [|done].
    destruct Hb as (_ & u & Hu & Hid & Hrow). destruct (writeThrough c s) as [res s']. simpl in Hu. subst res.
    intros [= <- <-]. simpl. rewrite Hid.
    apply begin_call_change in Hbc. destruct call; [| | |by subst c|]; destruct c; try done; by destruct (Hbc _ eq_refl).
  - intros call e st'. pose proof (begin_call_follows call db s Hc) as Hb. unfold run_call. simpl.
    destruct (begin_call DbAnswers call db s) as [[c|e'] db']; [|by intros [= _ <-]; subst].
    destruct Hb as (_ & u & Hu & _). destruct (writeThrough c s) as [res s']. simpl in Hu. by subst res.
Qed.

(** C33: A key that was taken away dies everywhere by the next refresh.  Whatever
    this replica and the others write, however their statements, write-throughs
    and refreshes interleave and whichever answers are lost, a key authenticates
    here only as a team that held it in the table at some moment since the query
    behind the current snapshot, or that was given it by a write of this replica
    still being applied at that query; a refresh that reaches a table with any
    team succeeds, and then knows exactly the table's keys; and a deleted team
    never comes back. *)
Theorem revocation_window db0 s0 now w :
  db_ok db0 → New_ true now db0 = Ok s0 → rtc wstep (started db0 s0) w →
  (∀ raw t, store_Authenticate HashKey raw (w_snap w) = Ok t → covered (w_window w) (t_ID t) (HashKey raw)) ∧
  (live (w_db w) ≠ ∅ → ∀ now', ∃ s', Refresh true now' (w_db w) (w_snap w) = (None, s') ∧
     ∀ raw t, store_Authenticate HashKey raw s' = Ok t ↔ live (w_db w) !! t_ID t = Some t ∧ t_KeyHash t = HashKey raw) ∧
  (∀ id rw w', tb_teams (w_db w) !! id = Some rw → rw_deleted rw = true → wstep w w' → tb_teams (w_db w') !! id = Some rw).
Proof.
  intros Hok Hnew Hrun. assert (world_ok w) as [Hdb Hs Hl].
  { eapply (rtc_ind_r world_ok); [| |exact Hrun]; [|intros x y _ Hxy Hx; by eapply world_step_ok].
    pose proof (loadRegistry_live db0 Hok) as Hload. unfold New_ in Hnew. simpl in Hnew.
    destruct (loadRegistry db0) as [r|]; [|done]. injection Hnew as <-. destruct Hload as (Hr & Hb & _).
    split; [done| |done]. split; [done| |by intros ????%elem_of_nil].
    intros id t Ht _. left. exists db0. split; [left|]. exists t. by rewrite <- Hb. }
  split; [|split].
  - intros raw t [Hi Hk]%(Authenticate_spec HashKey HashKey_nonempty); [|apply Hs]. rewrite <- Hk.
    eapply (vo_keys _ _ _ Hs); [done|]. rewrite Hk. apply HashKey_nonempty.
  - intros Hne now'. unfold Refresh, New_. simpl. pose proof (loadRegistry_live _ Hdb) as Hload.
    destruct (loadRegistry (w_db w)) as [r|]; [|by destruct Hload]. destruct Hload as (Hr & Hb & _).
    eexists. split; [done|]. intros raw t. unfold store_Authenticate. simpl. rewrite <- Hb. by apply Authenticate_spec.
  - intros id rw w' Hid Hd [fate call x db Hbc|? ? ? ?|fate call s x db Hbc|? ?|? ? ? ?|]; simpl; [|done| |done..].
    + eapply put_deleted; [|done|done]. pose proof (begin_call_put fate call _ (w_snap w) Hdb) as Hp. by rewrite Hbc in Hp.
    + eapply put_deleted; [|done|done]. pose proof (begin_call_put fate call _ s Hdb) as Hp. by rewrite Hbc in Hp.
Qed.
End promises.

(** ** The seed *)

Lemma insert_all_ok teams db db' : db_ok db → insert_all teams db = Some db' → db_ok db'.
Proof.
  revert db. induction teams as [|t ts IH]; intros db Hok; simpl; [by intros [= <-]|].
  pose proof (insert_row_put t db) as Hp. destruct (insert_row t db) as [[n| | |] db1]; try done.
  apply IH. by eapply put_ok.
Qed.

(** A seeded table is well formed, and a table with any team is left alone. *)
Lemma Seed_ok teams db n db' :
  db_ok db → Seed teams db = (n, db') → db_ok db' ∧ (tb_teams db ≠ ∅ → n = Some 0 ∧ db' = db).
Proof.
  intros Hok. unfold Seed. case_bool_decide as He; [by intros [= <- <-]|].
  destruct (insert_all _ _) as [db1|] eqn:Hi; intros [= <- <-]; split; try done.
  eapply insert_all_ok; [|exact Hi]. by destruct Hok.
Qed.

(** ** Witnesses *)

Module demo.
Definition HashKey (raw : string) : string :=
  if bool_decide (raw = "ka"%string) then hash_of "a" else if bool_decide (raw = "kb"%string) then hash_of "b" else hash_of "c".
Definition team (id hash : string) : Team :=
  {| t_ID := id; t_Name := id; t_OrganizationID := ""; t_KeyHash := hash; t_AllowedProviders := ["p"%string];
     t_AllowedModels := ["m"%string]; t_RateLimits := {| RPM := 10; TPM := 1000 |}; t_MonthlyBudgetMicros := 5000000;
     t_Priority := PriorityBatch; t_IsAdmin := false; t_CacheIsolated := false; t_KeySource := "config"; t_KeyMasked := "";
     t_KeyCreatedAt := None |}.
Definition empty : tables := {| tb_teams := ∅; tb_orgs := ∅ |}.
Definition db : tables := (Seed [team "a" (hash_of "a"); team "b" (hash_of "b")] empty).2.
Definition s : snapshot :=
  match New_ true 0 db with Ok s => s | Err _ => {| sn_registry := {| byHash := ∅; byID := ∅ |}; sn_loadedAt := 0; sn_degraded := true |} end.
Definition patch (rpm tpm : option Z) : TeamPatch := {| p_RPM := rpm; p_TPM := tpm; p_MonthlyBudgetMicros := None |}.
Definition limits (st : tables * snapshot) : option RateLimits := t_RateLimits <$> live st.1 !! "a"%string.
End demo.

Lemma demo_key_nonempty raw : demo.HashKey raw ≠ ""%string.
Proof. unfold demo.HashKey. repeat case_bool_decide; by vm_compute. Qed.

Lemma demo_db_ok : db_ok demo.db.
Proof.
  destruct (Seed [demo.team "a" (hash_of "a"); demo.team "b" (hash_of "b")] demo.empty) as [n db'] eqn:Hs.
  assert (db_ok demo.empty) as He by (split; intros *; simpl; by rewrite lookup_empty).
  apply Seed_ok in Hs as Hok; [|done]. unfold demo.db. rewrite Hs. apply Hok.
Qed.

(** Two replicas with snapshots of one table: the second to change a limit
    writes its own stale value of the other limit over the first's change. *)
Example stale_replica_reverts_limits :
  let st1 := (run_call DbAnswers (CallUpdate "a" (demo.patch (Some 100) None)) (demo.db, demo.s)).2 in
  let st2 := (run_call DbAnswers (CallUpdate "a" (demo.patch None (Some 2000))) (st1.1, demo.s)).2 in
  demo.limits st1 = Some {| RPM := 100; TPM := 1000 |} ∧ demo.limits st2 = Some {| RPM := 10; TPM := 2000 |}.
Proof. vm_compute. done. Qed.

(** A refresh that queried before a revocation and swaps after it brings the key
    back, on the replica that revoked it, until the next refresh. *)
Example refresh_in_flight_revives_key :
  match New_ true 0 demo.db with
  | Ok queried =>
      let '(res, (db, s)) := run_call DbAnswers (CallRevokeKey "a") (demo.db, demo.s) in
      is_ok res = true ∧ is_ok (store_Authenticate demo.HashKey "ka" s) = false ∧
      is_ok (store_Authenticate demo.HashKey "ka" queried) = true ∧ table_Authenticate demo.HashKey "ka" db = None
  | Err _ => False
  end.
Proof. vm_compute. done. Qed.

Lemma one_replica_is_the_table_witness :
  let st := (run_call DbAnswers (CallRotateKey 5 7 "a" (hash_of "c") "sk-c") (demo.db, demo.s)).2 in
  erase <$> to_option (store_Authenticate demo.HashKey "kc" st.2) = erase <$> table_Authenticate demo.HashKey "kc" st.1 ∧
  is_Some (table_Authenticate demo.HashKey "kc" st.1) ∧ table_Authenticate demo.HashKey "ka" st.1 = None.
Proof.
  set (st := (run_call DbAnswers (CallRotateKey 5 7 "a" (hash_of "c") "sk-c") (demo.db, demo.s)).2). cbv zeta.
  destruct (one_replica_is_the_table demo.HashKey demo_key_nonempty demo.db demo.s 0 st.1 st.2) as [Ha _].
  - exact demo_db_ok.
  - vm_compute. reflexivity.
  - apply rtc_once. rewrite <- surjective_pairing. by apply SCall.
  - split; [apply Ha|]. split; [vm_compute; by eexists|vm_compute; reflexivity].
Defined.

Lemma revocation_window_witness :
  let w := moved (begin_call DbAnswers (CallRevokeKey "a") demo.db demo.s).2 [] (started demo.db demo.s) in
  covered (w_window w) "a" (demo.HashKey "ka") ∧ live (w_db w) !! "a"%string ≠ None.
Proof.
  set (w := moved (begin_call DbAnswers (CallRevokeKey "a") demo.db demo.s).2 [] (started demo.db demo.s)). cbv zeta.
  destruct (revocation_window demo.HashKey demo_key_nonempty demo.db demo.s 0 w) as [Ha _].
  - exact demo_db_ok.
  - vm_compute. reflexivity.
  - apply rtc_once. 
    exact (WElsewhere (started demo.db demo.s) DbAnswers (CallRevokeKey "a") demo.s _ _ (surjective_pairing _)).
  - split; [|vm_compute; done].
    destruct (store_Authenticate demo.HashKey "ka" (w_snap w)) as [t|] eqn:Ht; [|vm_compute in Ht; discriminate Ht].
    assert (t_ID t = "a"%string) as Hid by (vm_compute in Ht; injection Ht as <-; reflexivity).
    pose proof (Ha _ _ Ht) as Hc. rewrite Hid in Hc. exact Hc.
Defined.
