(* ===== verification/LogWriter.v ===== *)
(** * internal/logstore/writer.go: the request log's buffered writer

    Handlers offer rows to a bounded queue without blocking; one goroutine
    batches them into Postgres under [telemetry.Supervise].  The state machine
    has one step per select of the loop: a row taken, a tick, a panic of the
    driver (recovered by the supervisor, which starts the loop again with an
    empty batch), and shutdown.  The database is the [requests] table keyed by
    id, with the insert's [ON CONFLICT (id) DO NOTHING]: it outlives the process,
    other replicas insert into it and retention deletes from it. *)

From S2P Require Import Prelude Metrics.

Record Record_ := {
  lr_ID : string; lr_Timestamp : Z; lr_TeamID : string; lr_RequestedModel : string;
  lr_ServedModel : string; lr_Provider : string; lr_StatusCode : Z;
  lr_InputTokens : Z; lr_OutputTokens : Z; lr_CostMicros : Z; lr_Latency : Z; lr_Overhead : Z;
  lr_Fallback : bool; lr_CacheHit : option bool; lr_TraceID : string; lr_FallbackCostDeltaMicros : option Z;
  lr_RoutingTier : string; lr_RoutingReason : string; lr_RoutingSavingsMicros : option Z
}.

Record Config := { QueueSize : Z; BatchSize : Z; FlushInterval : Z; FlushTimeout : Z }.

Definition withDefaults (c : Config) : Config :=
  {| QueueSize := if QueueSize c <=? 0 then 4096 else QueueSize c;
     BatchSize := if BatchSize c <=? 0 then 100 else BatchSize c;
     FlushInterval := if FlushInterval c <=? 0 then second else FlushInterval c;
     FlushTimeout := if FlushTimeout c <=? 0 then 5 * second else FlushTimeout c |}.

(** What the database did to the table: one insert of this writer or of another
    replica, or a deletion of the rows with these ids. *)
Inductive db_event := Inserted (mine : bool) (r : Record_) | Deleted (ids : string → bool).

(** The table, what happened to it since this writer began, and how the rows
    ended: written, failed with their batch, or dropped by a full queue, as the
    counters say; [lw_lost] are those of a batch whose flush panicked, which
    nothing counts. *)
Record Writer := {
  lw_queue : list Record_;
  lw_batch : list Record_;
  lw_rows : gmap string Record_;
  lw_events : list db_event;
  lw_written : list Record_;
  lw_failed : list Record_;
  lw_dropped : list Record_;
  lw_lost : list Record_;
  lw_done : bool
}.

(** [rows] is what the table holds when the gateway starts. *)
Definition NewWriter (rows : gmap string Record_) : Writer :=
  {| lw_queue := []; lw_batch := []; lw_rows := rows; lw_events := []; lw_written := []; lw_failed := [];
     lw_dropped := []; lw_lost := []; lw_done := false |}.

(** INSERT ... ON CONFLICT (id) DO NOTHING *)
Definition insert_row (rows : gmap string Record_) (r : Record_) : gmap string Record_ :=
  match rows !! lr_ID r with Some _ => rows | None => <[lr_ID r := r]> rows end.

Definition apply_event (rows : gmap string Record_) (e : db_event) : gmap string Record_ :=
  match e with
  | Inserted _ r => insert_row rows r
  | Deleted ids => filter (λ kv : string * Record_, ids kv.1 = false) rows
  end.

(** The database executes these statements. *)
Definition db_execute (es : list db_event) (w : Writer) : Writer :=
  {| lw_queue := lw_queue w; lw_batch := lw_batch w; lw_rows := foldl apply_event (lw_rows w) es;
     lw_events := lw_events w ++ es; lw_written := lw_written w; lw_failed := lw_failed w;
     lw_dropped := lw_dropped w; lw_lost := lw_lost w; lw_done := lw_done w |}.

Section writer.
Context (cfg : Config).

Definition Write (r : Record_) (w : Writer) : Writer :=
  if Z.of_nat (length (lw_queue w)) <? QueueSize cfg
  then {| lw_queue := lw_queue w ++ [r]; lw_batch := lw_batch w; lw_rows := lw_rows w; lw_events := lw_events w;
          lw_written := lw_written w; lw_failed := lw_failed w; lw_dropped := lw_dropped w;
          lw_lost := lw_lost w; lw_done := lw_done w |}
  else {| lw_queue := lw_queue w; lw_batch := lw_batch w; lw_rows := lw_rows w; lw_events := lw_events w;
          lw_written := lw_written w; lw_failed := lw_failed w; lw_dropped := lw_dropped w ++ [r];
          lw_lost := lw_lost w; lw_done := lw_done w |}.

(** How a flush ends.  The batch is one implicit transaction: its rows are
    inserted together or not at all.  The database may have committed it although
    the reply is lost or late, which [Close] reports as an error, and although the
    driver panics. *)
Inductive flush_fate := Stored | FlushFailed (committed : bool) | FlushPanicked (committed : bool).

Definition flush_commits (f : flush_fate) : bool :=
  match f with Stored => true | FlushFailed c | FlushPanicked c => c end.

Definition flush (f : flush_fate) (w : Writer) : Writer :=
  match lw_batch w with
  | [] => w
  | batch =>
      let w := db_execute (if flush_commits f then map (Inserted true) batch else []) w in
      {| lw_queue := lw_queue w; lw_batch := []; lw_rows := lw_rows w; lw_events := lw_events w;
         lw_written := match f with Stored => lw_written w ++ batch | _ => lw_written w end;
         lw_failed := match f with FlushFailed _ => lw_failed w ++ batch | _ => lw_failed w end;
         lw_dropped := lw_dropped w;
         lw_lost := match f with FlushPanicked _ => lw_lost w ++ batch | _ => lw_lost w end;
         lw_done := lw_done w |}
  end.

(** [case rec := <-w.queue] *)
Definition receive (f : flush_fate) (w : Writer) : Writer :=
  match lw_queue w with
  | [] => w
  | r :: q =>
      let w := {| lw_queue := q; lw_batch := lw_batch w ++ [r]; lw_rows := lw_rows w; lw_events := lw_events w;
                  lw_written := lw_written w; lw_failed := lw_failed w; lw_dropped := lw_dropped w;
                  lw_lost := lw_lost w; lw_done := lw_done w |} in
      if BatchSize cfg <=? Z.of_nat (length (lw_batch w)) then flush f w else w
  end.

Definition tick (f : flush_fate) (w : Writer) : Writer := flush f w.

(** The whole queue joins the batch, which is flushed once; then [Run] closes
    [done], after a panic too: the supervisor returns once ctx is cancelled. *)
Definition finalFlush (f : flush_fate) (w : Writer) : Writer :=
  let w := {| lw_queue := []; lw_batch := lw_batch w ++ lw_queue w; lw_rows := lw_rows w; lw_events := lw_events w;
              lw_written := lw_written w; lw_failed := lw_failed w; lw_dropped := lw_dropped w;
              lw_lost := lw_lost w; lw_done := lw_done w |} in
  let w := flush f w in
  {| lw_queue := lw_queue w; lw_batch := lw_batch w; lw_rows := lw_rows w; lw_events := lw_events w;
     lw_written := lw_written w; lw_failed := lw_failed w; lw_dropped := lw_dropped w;
     lw_lost := lw_lost w; lw_done := true |}.

(** What this writer had inserted. *)
Definition own_rows (es : list db_event) : list Record_ :=
  omap (λ e, match e with Inserted true r => Some r | _ => None end) es.

(** One step of the handlers, of the loop, or of the other users of the table;
    the loop takes no step once done. *)
Inductive wstep : list Record_ → Writer → Writer → Prop :=
| StepWrite r w : wstep [r] w (Write r w)
| StepReceive f w : lw_done w = false → lw_queue w ≠ [] → wstep [] w (receive f w)
| StepTick f w : lw_done w = false → wstep [] w (tick f w)
| StepShutdown f w : lw_done w = false → wstep [] w (finalFlush f w)
| StepElsewhere es w : own_rows es = [] → wstep [] w (db_execute es w).

(** A run on a table and the rows offered during it, in order. *)
Inductive wrun (rows : gmap string Record_) : list Record_ → Writer → Prop :=
| RunStart : wrun rows [] (NewWriter rows)
| RunStep offered new w w' : wrun rows offered w → wstep new w w' → wrun rows (offered ++ new) w'.

(** ** Every row is accounted for *)

Definition accepted (w : Writer) : list Record_ :=
  lw_queue w ++ lw_batch w ++ lw_written w ++ lw_failed w ++ lw_lost w.

(** The table is what its history makes of it, and this writer's part of the
    history is every written row and only rows that ended. *)
Record stored_ok (rows : gmap string Record_) (w : Writer) : Prop := {
  so_rows : lw_rows w = foldl apply_event rows (lw_events w);
  so_written : lw_written w ⊆+ own_rows (lw_events w);
  so_mine : own_rows (lw_events w) ⊆+ lw_written w ++ lw_failed w ++ lw_lost w
}.

Record writer_ok (rows : gmap string Record_) (offered : list Record_) (w : Writer) : Prop := {
  wo_all : offered ≡ₚ accepted w ++ lw_dropped w;
  wo_queue : Z.of_nat (length (lw_queue w)) ≤ QueueSize cfg;
  wo_batch : Z.of_nat (length (lw_batch w)) < BatchSize cfg;
  wo_done : lw_done w = true → lw_batch w = [];
  wo_stored : stored_ok rows w
}.

Lemma own_rows_app es es' : own_rows (es ++ es') = own_rows es ++ own_rows es'.
Proof. apply omap_app. Qed.

Lemma own_rows_batch batch : own_rows (map (Inserted true) batch) = batch.
Proof. induction batch as [|r batch IH]; [done|]. cbn. by f_equal. Qed.

(** A flush empties the batch and keeps the account. *)
Lemma flush_account offered f w :
  offered ≡ₚ accepted w ++ lw_dropped w →
  let w' := flush f w in
  offered ≡ₚ accepted w' ++ lw_dropped w' ∧ lw_batch w' = [] ∧ lw_queue w' = lw_queue w ∧ lw_done w' = lw_done w.
Proof.
  intros Hp. cbv zeta. unfold flush. destruct (lw_batch w) as [|r batch] eqn:Hb; [done|].
  unfold accepted in *. rewrite Hb in Hp.
  destruct f; cbn [db_execute lw_batch lw_queue lw_written lw_failed lw_dropped lw_lost lw_done];
    split_and!; try done; rewrite Hp; solve_Permutation.
Qed.

(** It has its rows inserted when the database commits, whatever is reported. *)
Lemma flush_stored rows f w : stored_ok rows w → stored_ok rows (flush f w).
Proof.
  intros [Hr Hw Hm]. unfold flush. destruct (lw_batch w) as [|r batch] eqn:Hb; [done|].
  generalize (r :: batch). clear Hb r batch. intros batch.
  split; cbn [db_execute lw_rows lw_events lw_written lw_failed lw_lost].
  - by rewrite foldl_app, Hr.
  - destruct f as [|[]|[]]; cbn [flush_commits]; rewrite own_rows_app, ?own_rows_batch; cbn; rewrite ?app_nil_r; try done;
      [by apply submseteq_app|by apply submseteq_inserts_r..].
  - assert (∀ l l', l ≡ₚ (lw_written w ++ lw_failed w ++ lw_lost w) ++ batch →
      l' = own_rows (lw_events w) ++ batch ∨ l' = own_rows (lw_events w) → l' ⊆+ l) as Hadd.
    { intros l l' -> [->| ->]; [by apply submseteq_app|by apply submseteq_inserts_r]. }
    destruct f as [|[]|[]]; cbn [flush_commits]; rewrite own_rows_app, ?own_rows_batch; cbn; rewrite ?app_nil_r;
      (eapply Hadd; [solve_Permutation|]); by (left + right).
Qed.

Lemma wstep_ok rows offered new w w' :
  0 < QueueSize cfg → 0 < BatchSize cfg →
  wstep new w w' → writer_ok rows offered w → writer_ok rows (offered ++ new) w'.
Proof.
  intros HQ HB Hs [Hall Hq Hbt Hd Hst]. destruct Hs as [r w|f w Hnd Hne|f w Hnd|f w Hnd|es w Hes].
  - unfold Write. destruct (Z.ltb_spec (Z.of_nat (length (lw_queue w))) (QueueSize cfg));
      split; unfold accepted in *; cbn [lw_batch lw_queue lw_written lw_failed lw_dropped lw_lost lw_done];
      try done; try (by destruct Hst); try (rewrite Hall; solve_Permutation).
    rewrite length_app. simpl. lia.
  - rewrite app_nil_r. unfold receive. destruct (lw_queue w) as [|r q] eqn:Hqe; [done|].
    set (w1 := {| lw_queue := q |}).
    assert (offered ≡ₚ accepted w1 ++ lw_dropped w1) as Hall1.
    { rewrite Hall. unfold accepted. rewrite Hqe. cbn. solve_Permutation. }
    assert (stored_ok rows w1) as Hst1 by (by destruct Hst).
    destruct (Z.leb_spec (BatchSize cfg) (Z.of_nat (length (lw_batch w1)))) as [Hfull|Hroom].
    + destruct (flush_account offered f w1 Hall1) as (H1 & H2 & H3 & H4).
      split; try done; [rewrite H3; cbn in *; lia|rewrite H2; simpl; lia|by apply flush_stored].
    + split; try done; [cbn in *; lia|]. intros Hdn. cbn in Hdn. congruence.
  - rewrite app_nil_r. destruct (flush_account offered f w Hall) as (H1 & H2 & H3 & H4).
    unfold tick. split; try done; [rewrite H3; lia|rewrite H2; simpl; lia|by apply flush_stored].
  - rewrite app_nil_r. unfold finalFlush. set (w1 := {| lw_queue := [] |}).
    assert (offered ≡ₚ accepted w1 ++ lw_dropped w1) as Hall1.
    { rewrite Hall. unfold accepted. cbn. solve_Permutation. }
    destruct (flush_account offered f w1 Hall1) as (H1 & H2 & H3 & H4).
    assert (stored_ok rows (flush f w1)) as Hst1 by (apply flush_stored; by destruct Hst).
    split; try done; cbn [lw_queue lw_batch]; [rewrite H3; simpl; lia|rewrite H2; simpl; lia|by destruct Hst1].
  - rewrite app_nil_r. split; try done. destruct Hst as [Hr Hw Hm]. split; cbn [db_execute lw_rows lw_events lw_written lw_failed lw_lost].
    + by rewrite foldl_app, Hr.
    + by rewrite own_rows_app, Hes, app_nil_r.
    + by rewrite own_rows_app, Hes, app_nil_r.
Qed.

Lemma wrun_ok rows offered w :
  0 < QueueSize cfg → 0 < BatchSize cfg → wrun rows offered w → writer_ok rows offered w.
Proof.
  intros HQ HB. induction 1 as [|offered new w w' _ IH Hs]; [|by eapply wstep_ok].
  split; simpl; try done; lia.
Qed.

(** Nothing is left behind by a shutdown, and the loop never writes after it. *)
Lemma shutdown_drains f w : lw_queue (finalFlush f w) = [] ∧ lw_batch (finalFlush f w) = [].
Proof. unfold finalFlush, flush. cbn [lw_batch lw_queue]. by destruct (lw_batch w ++ lw_queue w). Qed.
End writer.

(** ** What the history leaves in the table *)

Definition inserted_rows (es : list db_event) : list Record_ :=
  omap (λ e, match e with Inserted _ r => Some r | Deleted _ => None end) es.

(** Some deletion took this id. *)
Definition id_deleted (es : list db_event) (id : string) : Prop :=
  ∃ ids, Deleted ids ∈ es ∧ ids id = true.

Lemma id_deleted_cons e es id : id_deleted es id → id_deleted (e :: es) id.
Proof. intros (ids & Hin & Hid). exists ids. split; [by right|done]. Qed.

Lemma apply_event_source rows e id r :
  apply_event rows e !! id = Some r → rows !! id = Some r ∨ (∃ b, e = Inserted b r) ∧ lr_ID r = id.
Proof.
  destruct e as [b x|ids]; cbn [apply_event].
  - unfold insert_row. destruct (rows !! lr_ID x); [by left|].
    intros [[<- <-]|[_ H]]%lookup_insert_Some; [right; split; [by exists b|done]|by left].
  - intros [H _]%map_lookup_filter_Some. by left.
Qed.

(** Every row was there before or was inserted. *)
Lemma rows_source es rows id r :
  foldl apply_event rows es !! id = Some r → rows !! id = Some r ∨ r ∈ inserted_rows es ∧ lr_ID r = id.
Proof.
  revert rows. induction es as [|e es IH]; intros rows; cbn [foldl]; [by left|].
  intros [[H|[[b ->] Hid]]%apply_event_source|[Hin Hid]]%IH.
  - by left.
  - right. split; [by left|done].
  - right. split; [|done]. destruct e; cbn; [by right|done].
Qed.

(** What stays unless it is deleted. *)
Lemma rows_stay es rows id r :
  rows !! id = Some r → ¬ id_deleted es id → foldl apply_event rows es !! id = Some r.
Proof.
  revert rows. induction es as [|e es IH]; intros rows Hr Hd; [done|]. cbn [foldl].
  apply IH; [|intros H; by apply Hd, id_deleted_cons]. destruct e as [b x|ids]; cbn [apply_event].
  - unfold insert_row. destruct (rows !! lr_ID x) eqn:Hx; [done|]. rewrite lookup_insert_ne by congruence. done.
  - apply map_lookup_filter_Some. split; [done|]. cbn. destruct (ids id) eqn:Hi; [|done].
    destruct Hd. exists ids. split; [by left|done].
Qed.

(** Without a deletion of its id, the first row there keeps its place. *)
Lemma rows_first es rows id :
  ¬ id_deleted es id →
  foldl apply_event rows es !! id =
    match rows !! id with Some r => Some r | None => find_first (λ r, bool_decide (lr_ID r = id)) (inserted_rows es) end.
Proof.
  revert rows. induction es as [|e es IH]; intros rows Hd; cbn [foldl]; [by destruct (rows !! id)|].
  destruct (rows !! id) as [r|] eqn:Hr; [by apply (rows_stay (e :: es))|].
  rewrite IH by (intros H; by apply Hd, id_deleted_cons). destruct e as [b x|ids]; cbn [apply_event].
  - change (inserted_rows (Inserted b x :: es)) with (x :: inserted_rows es). cbn [find_first]. unfold insert_row.
    destruct (decide (lr_ID x = id)) as [<-|Hne].
    + by rewrite Hr, lookup_insert_eq, bool_decide_eq_true_2.
    + rewrite bool_decide_eq_false_2 by done. destruct (rows !! lr_ID x); [by rewrite Hr|].
      by rewrite lookup_insert_ne, Hr.
  - by rewrite (proj2 (map_lookup_filter_None _ _ _) (or_introl Hr)).
Qed.

Lemma own_rows_inserted es : own_rows es ⊆ inserted_rows es.
Proof.
  intros r ([b x|ids] & He & Hr)%list_elem_of_omap; [|done]. destruct b; [|done]. injection Hr as <-.
  apply list_elem_of_omap. by exists (Inserted true x).
Qed.

Lemma withDefaults_positive c : 0 < QueueSize (withDefaults c) ∧ 0 < BatchSize (withDefaults c).
Proof. unfold withDefaults. simpl. repeat case_match; bool_to_prop; lia. Qed.

(** C40: the request log loses no row silently while its database driver does
    not panic.  Take the table as the gateway finds it, and let other replicas
    insert into it and retention delete from it at any point.  At any point of
    any run the rows offered by the handlers are, each exactly once, queued, in
    the batch, counted as written, counted as failed with their batch, dropped by
    a full queue, or lost to a panic of the driver; the queue and the batch stay
    within their bounds, so a handler never waits.  Every written row has been
    inserted, and of this writer's rows only written, failed and lost ones have:
    a failed or lost batch may have been committed although its reply did not
    arrive.  The table holds only rows that it held at the start or that were
    inserted, by whomever; and under an id that no deletion has taken it holds
    what it held at the start or else the first row inserted with that id, so
    that a written row is there unless its id was taken before it or deleted.  A
    shutdown leaves the queue and the batch empty; rows offered afterwards stay
    queued. *)
Theorem log_rows_accounted conf rows offered w :
  let cfg := withDefaults conf in
  wrun cfg rows offered w →
  offered ≡ₚ lw_queue w ++ lw_batch w ++ lw_written w ++ lw_failed w ++ lw_lost w ++ lw_dropped w ∧
  Z.of_nat (length (lw_queue w)) ≤ QueueSize cfg ∧ Z.of_nat (length (lw_batch w)) < BatchSize cfg ∧
  lw_written w ⊆+ own_rows (lw_events w) ∧ own_rows (lw_events w) ⊆+ lw_written w ++ lw_failed w ++ lw_lost w ∧
  (∀ id r, lw_rows w !! id = Some r → rows !! id = Some r ∨ r ∈ inserted_rows (lw_events w)) ∧
  (∀ id, ¬ id_deleted (lw_events w) id →
     lw_rows w !! id =
       match rows !! id with
       | Some r => Some r
       | None => find_first (λ r, bool_decide (lr_ID r = id)) (inserted_rows (lw_events w))
       end) ∧
  (∀ r, r ∈ lw_written w → ¬ id_deleted (lw_events w) (lr_ID r) → is_Some (lw_rows w !! lr_ID r)) ∧
  (∀ f, lw_queue (finalFlush f w) = [] ∧ lw_batch (finalFlush f w) = []).
Proof.
  intros cfg Hrun. destruct (withDefaults_positive conf) as [HQ HB]. fold cfg in HQ, HB.
  pose proof (wrun_ok cfg _ _ _ HQ HB Hrun) as [Hall Hq Hb Hd [Hr Hw Hm]].
  split_and!; try done; [rewrite Hall; unfold accepted; solve_Permutation| | | |intros f; apply shutdown_drains].
  - intros id r Hl. rewrite Hr in Hl. apply rows_source in Hl as [H|[H _]]; [by left|by right].
  - intros id Hnd. rewrite Hr. by apply rows_first.
  - intros r Hin Hnd. rewrite Hr, rows_first by done. destruct (rows !! lr_ID r); [done|].
    destruct (find_first _ _) eqn:Hff; [done|]. exfalso.
    assert (r ∈ inserted_rows (lw_events w)) as Hi by (apply own_rows_inserted; by eapply elem_of_submseteq).
    apply (find_first_None _ _ Hff) in Hi. by apply bool_decide_eq_false in Hi.
Qed.

Definition demo_row (id : string) (cost : Z) : Record_ :=
  {| lr_ID := id; lr_Timestamp := 0; lr_TeamID := "acme"; lr_RequestedModel := "gpt-4o";
     lr_ServedModel := "gpt-4o"; lr_Provider := "openai"; lr_StatusCode := 200; lr_InputTokens := 1;
     lr_OutputTokens := 1; lr_CostMicros := cost; lr_Latency := 0; lr_Overhead := 0;
     lr_Fallback := false; lr_CacheHit := None; lr_TraceID := ""; lr_FallbackCostDeltaMicros := None;
     lr_RoutingTier := ""; lr_RoutingReason := ""; lr_RoutingSavingsMicros := None |}.

Definition demo_conf : Config := {| QueueSize := 1; BatchSize := 2; FlushInterval := 0; FlushTimeout := 0 |}.

Definition demo_rows : gmap string Record_ := {["old"%string := demo_row "old" 7]}.

(** Three rows for a queue of one: the first is stored but its reply is lost, the
    second is dropped, another replica inserted_rows, and the third is stored at
    shutdown. *)
Definition demo_final : Writer :=
  let cfg := withDefaults demo_conf in
  finalFlush Stored (Write cfg (demo_row "c" 3)
    (db_execute [Inserted false (demo_row "x" 9)]
      (tick (FlushFailed true) (receive cfg Stored (Write cfg (demo_row "b" 2) (Write cfg (demo_row "a" 1) (NewWriter demo_rows))))))).

Lemma demo_run : wrun (withDefaults demo_conf) demo_rows [demo_row "a" 1; demo_row "b" 2; demo_row "c" 3] demo_final.
Proof.
  change [demo_row "a" 1; demo_row "b" 2; demo_row "c" 3]
    with ((((((([] ++ [demo_row "a" 1]) ++ [demo_row "b" 2]) ++ []) ++ []) ++ []) ++ [demo_row "c" 3]) ++ []).
  eapply RunStep; [eapply RunStep; [eapply RunStep; [eapply RunStep; [eapply RunStep; [eapply RunStep; [eapply RunStep|]|]|]|]|]|];
    [apply RunStart|apply StepWrite|apply StepWrite|apply StepReceive|apply StepTick|apply StepElsewhere|apply StepWrite|apply StepShutdown]; done.
Qed.

(** The first row counts as failed and is in the table. *)
Lemma log_rows_accounted_witness :
  [demo_row "a" 1; demo_row "b" 2; demo_row "c" 3] ≡ₚ
    lw_queue demo_final ++ lw_batch demo_final ++ lw_written demo_final ++ lw_failed demo_final
    ++ lw_lost demo_final ++ lw_dropped demo_final ∧
  map lr_ID (lw_written demo_final) = ["c"%string] ∧ map lr_ID (lw_failed demo_final) = ["a"%string] ∧
  lw_rows demo_final !! "a"%string = Some (demo_row "a" 1).
Proof.
  destruct (log_rows_accounted demo_conf demo_rows _ _ demo_run) as (Hall & _ & _ & _ & _ & _ & Hfirst & _).
  split; [exact Hall|]. split; [vm_compute; reflexivity|]. split; [vm_compute; reflexivity|].
  rewrite (Hfirst "a"%string); [vm_compute; reflexivity|].
  intros (ids & Hin & _). change (lw_events demo_final) with
    [Inserted true (demo_row "a" 1); Inserted false (demo_row "x" 9); Inserted true (demo_row "c" 3)] in Hin.
  apply elem_of_cons in Hin as [Hin|Hin]; [discriminate Hin|]. apply elem_of_cons in Hin as [Hin|Hin]; [discriminate Hin|].
  apply list_elem_of_singleton in Hin. discriminate Hin.
Defined.

(** A caller chooses the id of its rows through X-Request-ID, and the insert
    keeps the first row of an id: a second request sent under the same id is
    counted as written and never appears in the table. *)
Theorem reused_request_id_hides_request (id : string) c1 c2 :
  let cfg := withDefaults demo_conf in
  let w := tick Stored (receive cfg Stored (Write cfg (demo_row id c2)
             (receive cfg Stored (Write cfg (demo_row id c1) (NewWriter ∅))))) in
  map lr_CostMicros (lw_written w) = [c1; c2] ∧ lw_rows w !! id = Some (demo_row id c1).
Proof.
  intros cfg w.
  change w with {| lw_queue := []; lw_batch := [];
    lw_rows := insert_row (insert_row ∅ (demo_row id c1)) (demo_row id c2);
    lw_events := [Inserted true (demo_row id c1); Inserted true (demo_row id c2)];
    lw_written := [demo_row id c1; demo_row id c2]; lw_failed := []; lw_dropped := []; lw_lost := [];
    lw_done := false |}.
  split; [done|]. cbn [lw_rows]. unfold insert_row. cbn [lr_ID demo_row].
  by rewrite lookup_empty, !lookup_insert_eq.
Qed.
