(* ===== verification/Retention.v ===== *)
(** * internal/logstore/retention.go: rolling the request log up

    One sweep statement selects the oldest expired rows, adds their sums to the
    daily table and deletes them, atomically.  The detail table is the list of
    its rows; the daily table maps a day, a team, a provider and a model to
    totals.  A statement's round trip may fail before it ran or after. *)

From stdpp Require Import sorting.
From S2P Require Import Prelude Redis Calendar LogWriter.

Record RetentionConfig := { Window : Z; rc_Interval : Z; rc_BatchSize : Z; MaxBatches : Z }.

Definition withDefaults (c : RetentionConfig) : RetentionConfig :=
  {| Window := Window c;
     rc_Interval := if rc_Interval c <=? 0 then hour else rc_Interval c;
     rc_BatchSize := if rc_BatchSize c <=? 0 then 5000 else rc_BatchSize c;
     MaxBatches := if MaxBatches c <=? 0 then 200 else MaxBatches c |}.

(** ** The daily table *)

Record totals := {
  t_requests : Z; t_errors : Z; t_input : Z; t_output : Z; t_cost : Z; t_delta : Z; t_savings : Z }.

Definition zero_totals : totals :=
  {| t_requests := 0; t_errors := 0; t_input := 0; t_output := 0; t_cost := 0; t_delta := 0; t_savings := 0 |}.

Definition add_totals (a b : totals) : totals :=
  {| t_requests := t_requests a + t_requests b; t_errors := t_errors a + t_errors b;
     t_input := t_input a + t_input b; t_output := t_output a + t_output b;
     t_cost := t_cost a + t_cost b; t_delta := t_delta a + t_delta b;
     t_savings := t_savings a + t_savings b |}.

(** A null column adds nothing to its sum. *)
Definition row_totals (r : Record_) : totals :=
  {| t_requests := 1; t_errors := if 400 <=? lr_StatusCode r then 1 else 0;
     t_input := lr_InputTokens r; t_output := lr_OutputTokens r; t_cost := lr_CostMicros r;
     t_delta := default 0 (lr_FallbackCostDeltaMicros r);
     t_savings := default 0 (lr_RoutingSavingsMicros r) |}.

(** The UTC day, the team, the provider and the served model. *)
Definition group : Type := Z * string * string * string.
Definition group_of (r : Record_) : group :=
  (lr_Timestamp r / day, lr_TeamID r, lr_Provider r, lr_ServedModel r).

Notation daily_table := (gmap group totals).

(** GROUP BY, then ON CONFLICT DO UPDATE adding what was there. *)
Definition add_row (r : Record_) (g : daily_table) : daily_table :=
  <[group_of r := add_totals (row_totals r) (default zero_totals (g !! group_of r))]> g.
Definition grouped (rows : list Record_) : daily_table := foldr add_row ∅ rows.
Definition rolled (doomed : list Record_) (daily : daily_table) : daily_table :=
  union_with (λ d e, Some (add_totals d e)) daily (grouped doomed).

(** ** The sweep *)

Record tables := { tb_requests : list Record_; tb_daily : daily_table }.

Definition older (a b : Record_) : Prop := lr_Timestamp a ≤ lr_Timestamp b.
#[export] Instance older_dec : RelDecision older.
Proof. intros a b. unfold older. apply _. Defined.

Definition expired (cutoff : Z) (r : Record_) : bool := lr_Timestamp r <? cutoff.

(** WHERE ts < cutoff ORDER BY ts LIMIT n *)
Definition doomed (cutoff limit : Z) (rows : list Record_) : list Record_ :=
  take (Z.to_nat limit) (merge_sort older (keep (expired cutoff) rows)).

Definition id_in (ids : list string) (r : Record_) : bool := bool_decide (lr_ID r ∈ ids).

(** The one statement: how many rows it removed, and the tables after it. *)
Definition sweepSQL (cutoff limit : Z) (t : tables) : Z * tables :=
  let d := doomed cutoff limit (tb_requests t) in
  let ids := map lr_ID d in
  let removed := keep (id_in ids) (tb_requests t) in
  (Z.of_nat (length removed),
   {| tb_requests := keep (λ r, negb (id_in ids r)) (tb_requests t);
      tb_daily := rolled d (tb_daily t) |}).

Inductive sweep_error := AcquireFailed | LockFailed | SweepFailed.

(** What taking a connection and the advisory lock comes to. *)
Inductive lock_fate := NoConnection | NoReply | HeldElsewhere | LockGot.

(** The loop of [Sweep] over the batches left, with what became of each
    statement; the total and the error, if any. *)
Fixpoint sweep_loop (batches : nat) (f : nat → db_fate) (cutoff limit total : Z) (t : tables)
    : Z * option sweep_error * tables :=
  match batches with
  | O => (total, None, t)
  | S batches' =>
      match f 0%nat with
      | DbUnreachable => (total, Some SweepFailed, t)
      | DbReplyLost => (total, Some SweepFailed, (sweepSQL cutoff limit t).2)
      | DbAnswers =>
          let '(n, t) := sweepSQL cutoff limit t in
          if n <? limit then (total + n, None, t)
          else sweep_loop batches' (λ i, f (S i)) cutoff limit (total + n) t
      end
  end.

(** [cfg] has its defaults filled in, by [NewRetainer]. *)
Definition Sweep (cfg : RetentionConfig) (now : Z) (lock : lock_fate) (f : nat → db_fate) (t : tables)
    : Z * option sweep_error * tables :=
  if Window cfg <=? 0 then (0, None, t)
  else match lock with
       | NoConnection => (0, Some AcquireFailed, t)
       | NoReply => (0, Some LockFailed, t)
       | HeldElsewhere => (0, None, t)
       | LockGot => sweep_loop (Z.to_nat (MaxBatches cfg)) f (now - Window cfg) (rc_BatchSize cfg) 0 t
       end.

(** ** Conservation *)

Lemma add_totals_assoc a b c : add_totals a (add_totals b c) = add_totals (add_totals a b) c.
Proof. unfold add_totals. f_equal; simpl; lia. Qed.
Lemma add_totals_comm a b : add_totals a b = add_totals b a.
Proof. unfold add_totals. f_equal; simpl; lia. Qed.
Lemma add_totals_zero a : add_totals a zero_totals = a.
Proof. destruct a. unfold add_totals. simpl. f_equal; lia. Qed.

(** What a group holds in the detail rows, in the daily table, and in both. *)
Definition detail (g : group) (rows : list Record_) : totals :=
  foldr (λ r acc, if bool_decide (group_of r = g) then add_totals (row_totals r) acc else acc)
    zero_totals rows.
Definition day_total (g : group) (d : daily_table) : totals := default zero_totals (d !! g).
Definition balance (g : group) (t : tables) : totals :=
  add_totals (detail g (tb_requests t)) (day_total g (tb_daily t)).

Lemma grouped_detail g rows : day_total g (grouped rows) = detail g rows.
Proof.
  induction rows as [|r rows IH]; [done|].
  unfold grouped, detail in *. cbn [foldr]. rewrite <- IH. unfold day_total, add_row.
  case_bool_decide as Hg.
  - subst g. by rewrite lookup_insert_eq.
  - by rewrite lookup_insert_ne.
Qed.

Lemma rolled_total g d daily :
  day_total g (rolled d daily) = add_totals (detail g d) (day_total g daily).
Proof.
  rewrite <- grouped_detail. unfold day_total, rolled. rewrite lookup_union_with.
  destruct (daily !! g) as [a|], (grouped d !! g) as [b|]; simpl.
  - apply add_totals_comm.
  - by rewrite add_totals_comm, add_totals_zero.
  - by rewrite add_totals_zero.
  - by rewrite add_totals_zero.
Qed.

Lemma detail_perm g l l' : l ≡ₚ l' → detail g l = detail g l'.
Proof.
  induction 1 as [|r l l' _ IH|r r' l|l l' l'' _ IH1 _ IH2]; simpl; [done|by rewrite IH| |congruence].
  repeat case_bool_decide; try done. rewrite !add_totals_assoc. f_equal. apply add_totals_comm.
Qed.

Lemma detail_split g (f : Record_ → bool) l :
  detail g l = add_totals (detail g (keep f l)) (detail g (keep (λ r, negb (f r)) l)).
Proof.
  induction l as [|r l IH]; simpl; [done|]. destruct (f r); simpl; case_bool_decide; rewrite IH.
  - apply add_totals_assoc.
  - done.
  - rewrite !add_totals_assoc. f_equal. apply add_totals_comm.
  - done.
Qed.

(** Distinct ids: the rows deleted are the rows selected. *)
Lemma keep_ids sel rows :
  NoDup (map lr_ID rows) → sel ⊆+ rows → keep (id_in (map lr_ID sel)) rows ≡ₚ sel.
Proof.
  intros Hnd [rest Hp]%submseteq_Permutation.
  assert (keep (id_in (map lr_ID sel)) rows ≡ₚ keep (id_in (map lr_ID sel)) (sel ++ rest)) as -> by (by apply keep_perm).
  assert (NoDup (map lr_ID (sel ++ rest))) as Hnd'.
  { by rewrite <- (Permutation_map lr_ID Hp). }
  rewrite map_app in Hnd'. apply NoDup_app in Hnd' as (_ & Hdis & _).
  rewrite keep_app. rewrite keep_all, keep_none, app_nil_r; [done| |].
  - intros r Hr. unfold id_in. apply bool_decide_eq_false. intros Hin.
    apply (Hdis _ Hin). apply list_elem_of_In, in_map, list_elem_of_In, Hr.
  - intros r Hr. unfold id_in. apply bool_decide_eq_true.
    apply list_elem_of_In, in_map, list_elem_of_In, Hr.
Qed.

Lemma doomed_submseteq cutoff limit rows : doomed cutoff limit rows ⊆+ rows.
Proof.
  unfold doomed. etransitivity; [apply sublist_submseteq, sublist_take|].
  rewrite merge_sort_Permutation. apply sublist_submseteq, keep_sublist.
Qed.

Lemma doomed_expired cutoff limit rows r : r ∈ doomed cutoff limit rows → expired cutoff r = true.
Proof.
  intros Hr%elem_of_take. destruct Hr as (i & Hi & _). apply list_elem_of_lookup_2 in Hi.
  rewrite merge_sort_Permutation in Hi. by apply elem_of_keep in Hi as [_ ?].
Qed.

Lemma id_in_unique sel rows r :
  NoDup (map lr_ID rows) → sel ⊆+ rows → r ∈ rows → id_in (map lr_ID sel) r = true → r ∈ sel.
Proof.
  intros Hnd Hsel Hr Hid. rewrite <- (keep_ids sel rows Hnd Hsel). by apply elem_of_keep.
Qed.

(** One statement: the rows that leave the detail table are the selected
    ones, so each group's balance stands and no fresh row is touched. *)
Section statement.
Variables (cutoff limit : Z) (t : tables).
Hypothesis ids : NoDup (map lr_ID (tb_requests t)).

Lemma removed_doomed :
  keep (id_in (map lr_ID (doomed cutoff limit (tb_requests t)))) (tb_requests t) ≡ₚ
  doomed cutoff limit (tb_requests t).
Proof. apply keep_ids; [done|apply doomed_submseteq]. Qed.

Lemma sweepSQL_balance g : balance g (sweepSQL cutoff limit t).2 = balance g t.
Proof.
  unfold balance, sweepSQL. cbn [snd tb_requests tb_daily]. rewrite rolled_total.
  rewrite (detail_split g (id_in (map lr_ID (doomed cutoff limit (tb_requests t)))) (tb_requests t)).
  rewrite (detail_perm g _ _ removed_doomed). rewrite !add_totals_assoc. f_equal. apply add_totals_comm.
Qed.

Lemma sweepSQL_ids : NoDup (map lr_ID (tb_requests (sweepSQL cutoff limit t).2)).
Proof.
  eapply sublist_NoDup; [exact ids|]. cbn. apply (fmap_sublist lr_ID). apply keep_sublist.
Qed.

Lemma sweepSQL_fresh :
  keep (λ r, negb (expired cutoff r)) (tb_requests (sweepSQL cutoff limit t).2) =
  keep (λ r, negb (expired cutoff r)) (tb_requests t).
Proof.
  apply keep_keep. intros r Hr He. apply negb_true_iff in He. apply negb_true_iff, not_true_is_false.
  intros Hid%(id_in_unique _ _ _ ids); [|apply doomed_submseteq|done].
  apply doomed_expired in Hid. congruence.
Qed.

Lemma sweepSQL_count :
  (sweepSQL cutoff limit t).1 =
    Z.min (Z.max 0 limit) (Z.of_nat (length (keep (expired cutoff) (tb_requests t)))) ∧
  Z.of_nat (length (tb_requests (sweepSQL cutoff limit t).2)) + (sweepSQL cutoff limit t).1 =
    Z.of_nat (length (tb_requests t)).
Proof.
  cbn. split.
  - rewrite removed_doomed. unfold doomed. rewrite length_take, merge_sort_Permutation. lia.
  - pose proof (Permutation_length (keep_Permutation
      (id_in (map lr_ID (doomed cutoff limit (tb_requests t)))) (tb_requests t))) as Hl.
    rewrite length_app in Hl. lia.
Qed.

(** Fewer rows than the limit: nothing expired is left. *)
Lemma sweepSQL_short r :
  (sweepSQL cutoff limit t).1 < limit → r ∈ tb_requests (sweepSQL cutoff limit t).2 →
  expired cutoff r = false.
Proof.
  intros Hn Hr. rewrite (proj1 sweepSQL_count) in Hn. apply not_true_is_false. intros He.
  cbn in Hr. apply elem_of_keep in Hr as [Hr Hid]. apply negb_true_iff in Hid.
  unfold id_in in Hid. apply bool_decide_eq_false in Hid. apply Hid.
  apply list_elem_of_In, in_map, list_elem_of_In. unfold doomed.
  rewrite take_ge by (rewrite merge_sort_Permutation; lia).
  rewrite merge_sort_Permutation. by apply elem_of_keep.
Qed.
End statement.

(** ** The loop *)

Record swept (cutoff limit total : Z) (n : nat) (t : tables) (out : Z * option sweep_error * tables) : Prop := {
  sw_balance g : balance g out.2 = balance g t;
  sw_fresh : keep (λ r, negb (expired cutoff r)) (tb_requests out.2) =
             keep (λ r, negb (expired cutoff r)) (tb_requests t);
  sw_count : Z.of_nat (length (tb_requests out.2)) + (out.1.1 - total) ≤ Z.of_nat (length (tb_requests t));
  sw_exact : out.1.2 = None →
    Z.of_nat (length (tb_requests out.2)) + (out.1.1 - total) = Z.of_nat (length (tb_requests t));
  sw_done : out.1.2 = None → out.1.1 - total < Z.of_nat n * limit →
    ∀ r, r ∈ tb_requests out.2 → expired cutoff r = false }.

Lemma sweep_loop_swept cutoff limit n f total t :
  0 ≤ limit → NoDup (map lr_ID (tb_requests t)) →
  swept cutoff limit total n t (sweep_loop n f cutoff limit total t).
Proof.
  intros Hlim. induction n as [|n IH] in f, total, t |- *; intros Hids; cbn [sweep_loop].
  { split; simpl; intros; first [done|lia]. }
  pose proof (sweepSQL_count cutoff limit t Hids) as [Hn Hlen].
  pose proof (sweepSQL_balance cutoff limit t Hids) as Hbal.
  pose proof (sweepSQL_fresh cutoff limit t Hids) as Hfresh.
  pose proof (sweepSQL_short cutoff limit t) as Hshort.
  pose proof (sweepSQL_ids cutoff limit t Hids) as Hids'.
  destruct (f 0%nat); [|by split; simpl; intros; first [done|lia]|].
  2:{ destruct (sweepSQL cutoff limit t) as [k t']. simpl in *. split; simpl; intros; first [done|lia|auto]. }
  destruct (sweepSQL cutoff limit t) as [k t']. simpl in *. destruct (Z.ltb_spec k limit).
  { split; cbn [fst snd]; [exact Hbal|exact Hfresh|lia|lia|]. intros _ _ r. by apply Hshort. }
  destruct (IH (λ i, f (S i)) (total + k) t' Hids') as [b fr c e d].
  split; [by intros; rewrite b|by rewrite fr|lia| |].
  - intros He. specialize (e He). lia.
  - intros He Hlt. apply (d He). lia.
Qed.

(** request-log retention neither loses nor double-counts: for every
    configuration, lock outcome and pattern of failures, a sweep leaves each
    group's requests, errors, tokens and cost, summed over the detail rows and
    the daily table, unchanged.  It never removes a row inside the window, its
    count never exceeds the rows removed, and a sweep that ends without an
    error, holding the lock and short of its batch allowance, leaves no expired
    row behind. *)
Theorem Sweep_conserves (cfg : RetentionConfig) (now : Z) (lock : lock_fate) (f : nat → db_fate) (t : tables)
    (ids : NoDup (map lr_ID (tb_requests t))) :
  let cfg := withDefaults cfg in
  let cutoff := now - Window cfg in
  let out := Sweep cfg now lock f t in
  let removed := Z.of_nat (length (tb_requests t)) - Z.of_nat (length (tb_requests out.2)) in
  (∀ g, balance g out.2 = balance g t) ∧
  keep (λ r, negb (expired cutoff r)) (tb_requests out.2) =
    keep (λ r, negb (expired cutoff r)) (tb_requests t) ∧
  out.1.1 ≤ removed ∧ (out.1.2 = None → out.1.1 = removed) ∧
  (out.1.2 = None → lock = LockGot → 0 < Window cfg → out.1.1 < MaxBatches cfg * rc_BatchSize cfg →
   ∀ r, r ∈ tb_requests out.2 → cutoff ≤ lr_Timestamp r).
Proof.
  cbn zeta. unfold Sweep. set (c := withDefaults cfg).
  assert (0 < rc_BatchSize c ∧ 0 < MaxBatches c) as [Hb Hm].
  { unfold c, withDefaults; simpl. split; case_match; lia. }
  destruct (Z.leb_spec (Window c) 0) as [Hw|Hw].
  { repeat split; intros; simpl in *; try done; lia. }
  destruct lock; try (repeat split; intros; simpl in *; try done; lia).
  destruct (sweep_loop_swept (now - Window c) (rc_BatchSize c) (Z.to_nat (MaxBatches c)) f 0 t)
    as [b fr ct ex dn]; [lia|done|].
  split_and!; [done|done|lia|intros He; specialize (ex He); lia|].
  intros He _ _ Hlt r Hr. specialize (dn He). unfold expired in dn.
  apply Z.ltb_ge. apply dn; [lia|done].
Qed.

(** Three rows, two of them past a one-day window, in batches of one. *)
Definition demo_at (id : string) (ts cost : Z) : Record_ :=
  {| lr_ID := id; lr_Timestamp := ts; lr_TeamID := "acme"; lr_RequestedModel := "gpt-4o";
     lr_ServedModel := "gpt-4o"; lr_Provider := "openai"; lr_StatusCode := 200; lr_InputTokens := 1;
     lr_OutputTokens := 1; lr_CostMicros := cost; lr_Latency := 0; lr_Overhead := 0;
     lr_Fallback := false; lr_CacheHit := None; lr_TraceID := ""; lr_FallbackCostDeltaMicros := None;
     lr_RoutingTier := ""; lr_RoutingReason := ""; lr_RoutingSavingsMicros := None |}.
Definition demo_retention : RetentionConfig :=
  {| Window := day; rc_Interval := 0; rc_BatchSize := 1; MaxBatches := 0 |}.
Definition demo_tables : tables :=
  {| tb_requests := [demo_at "b" 7 20; demo_at "a" 5 10; demo_at "c" (3 * day) 40]; tb_daily := ∅ |}.
Definition demo_swept := Sweep (withDefaults demo_retention) (3 * day) LockGot (λ _, DbAnswers) demo_tables.

Lemma Sweep_conserves_witness :
  (∀ g, balance g demo_swept.2 = balance g demo_tables) ∧
  demo_swept.1 = (2, None) ∧ map lr_ID (tb_requests demo_swept.2) = ["c"%string] ∧
  t_cost (day_total (0, "acme", "openai", "gpt-4o")%string (tb_daily demo_swept.2)) = 30.
Proof.
  split; [|vm_compute; done].
  assert (NoDup (map lr_ID (tb_requests demo_tables))) as ids
    by (apply (bool_decide_unpack _); vm_compute; exact I).
  exact (proj1 (Sweep_conserves demo_retention (3 * day) LockGot (λ _, DbAnswers) demo_tables ids)).
Defined.
