(* ===== verification/LogQuery.v ===== *)
(** * internal/logstore/query.go: reading the request log

    The filtered, cursor-paginated query and the sums behind the dashboards, as
    what their SQL selects from the two tables of [Retention].  [lt] is the
    database's collation of ids.  A time is its nanoseconds from the Unix epoch,
    the zero [time.Time] being the first of January of year one; the session's
    time zone is UTC, as the server's default is.  A null text column is the
    empty string, which is how the writer stores it. *)

From stdpp Require Import sorting.
From Stdlib Require Import Ascii.
From S2P Require Import Prelude Text Base64 Calendar LogWriter Retention.

(** ** Cursors *)

Record Cursor := { c_TS : Z; c_ID : string }.

Definition no_cursor : Cursor := {| c_TS := zero_time; c_ID := "" |}.
Definition IsZero (c : Cursor) : bool := bool_decide (c_ID c = ""%string) && time_IsZero (c_TS c).

(** [UnixNano] wraps outside the years 1678 to 2262. *)
Definition Encode (c : Cursor) : string :=
  if IsZero c then "" else EncodeToString (FormatInt (wrap64 (c_TS c)) ++ String "|" (c_ID c)).

Inductive cursor_error := BadBase64 | Malformed | BadTimestamp.

Definition DecodeCursor (s : string) : result cursor_error Cursor :=
  if bool_decide (s = ""%string) then Ok no_cursor
  else match DecodeString s with
       | None => Err BadBase64
       | Some raw =>
           match Cut "|" raw with
           | None => Err Malformed
           | Some (nanos, id) =>
               if bool_decide (id = ""%string) then Err Malformed
               else match ParseInt nanos with
                    | (n, None) => Ok {| c_TS := n; c_ID := id |}
                    | (_, Some _) => Err BadTimestamp
                    end
           end
       end.

(** ** Query *)

Record Filter_ := {
  f_TeamIDs : option (list string); f_Provider : string; f_Model : string;
  f_StatusCode : Z; f_StatusMin : Z; f_StatusMax : Z; f_CacheHit : option bool; f_Fallback : option bool;
  f_Since : Z; f_Until : Z; f_Limit : Z; f_Cursor : Cursor }.

Definition DefaultPageSize : Z := 50.
Definition MaxPageSize : Z := 500.

Definition page_size (limit : Z) : Z :=
  let limit := if limit <=? 0 then DefaultPageSize else limit in
  if MaxPageSize <? limit then MaxPageSize else limit.

Definition in_teams (ids : option (list string)) (team : string) : bool :=
  match ids with None => true | Some ids => bool_decide (team ∈ ids) end.

Definition opt_eqb (want have : option bool) : bool :=
  match want with None => true | Some b => bool_decide (have = Some b) end.

Section query.
Context (lt : string → string → bool).

(** [(ts, id) < (cursor)] *)
Definition precedes (ts : Z) (id : string) (c : Cursor) : bool :=
  (ts <? c_TS c) || ((ts =? c_TS c) && lt id (c_ID c)).

(** The WHERE clause but for the cursor. *)
Definition selects (f : Filter_) (r : Record_) : bool :=
  in_teams (f_TeamIDs f) (lr_TeamID r) &&
  (bool_decide (f_Provider f = ""%string) || bool_decide (lr_Provider r = f_Provider f)) &&
  (bool_decide (f_Model f = ""%string) || bool_decide (lr_RequestedModel r = f_Model f) || bool_decide (lr_ServedModel r = f_Model f)) &&
  ((f_StatusCode f =? 0) || (lr_StatusCode r =? f_StatusCode f)) &&
  ((f_StatusMin f =? 0) || (f_StatusMin f <=? lr_StatusCode r)) &&
  ((f_StatusMax f =? 0) || (lr_StatusCode r <=? f_StatusMax f)) &&
  opt_eqb (f_CacheHit f) (lr_CacheHit r) && opt_eqb (f_Fallback f) (Some (lr_Fallback r)) &&
  (time_IsZero (f_Since f) || (f_Since f <=? lr_Timestamp r)) &&
  (time_IsZero (f_Until f) || (lr_Timestamp r <? f_Until f)).

Definition after_cursor (c : Cursor) (r : Record_) : bool := IsZero c || precedes (lr_Timestamp r) (lr_ID r) c.

(** [ORDER BY ts DESC, id DESC] *)
Definition newest_first (a b : Record_) : Prop :=
  lr_Timestamp b < lr_Timestamp a ∨
  lr_Timestamp a = lr_Timestamp b ∧ (lr_ID a = lr_ID b ∨ lt (lr_ID b) (lr_ID a) = true).

#[export] Instance newest_first_dec : RelDecision newest_first.
Proof. intros a b. unfold newest_first. apply _. Defined.

Definition ordered (f : Filter_) (c : Cursor) (rows : list Record_) : list Record_ :=
  merge_sort newest_first (keep (λ r, selects f r && after_cursor c r) rows).

Record Page := { Records : list Record_; NextCursor : string }.

(** The status columns are smallints: a parameter that is not one is refused by
    the driver before the statement runs. *)
Definition int16 (z : Z) : bool := (- 2 ^ 15 <=? z) && (z <? 2 ^ 15).

Definition Query (reachable : bool) (f : Filter_) (t : tables) : option Page :=
  if negb (reachable && int16 (f_StatusCode f) && int16 (f_StatusMin f) && int16 (f_StatusMax f)) then None
  else
    let limit := Z.to_nat (page_size (f_Limit f)) in
    let rows := take (limit + 1) (ordered f (f_Cursor f) (tb_requests t)) in
    if (limit <? length rows)%nat
    then let records := take limit rows in
         Some {| Records := records;
                 NextCursor := match last records with
                               | Some r => Encode {| c_TS := lr_Timestamp r; c_ID := lr_ID r |}
                               | None => ""
                               end |}
    else Some {| Records := rows; NextCursor := "" |}.
End query.

(** One row by id, inside the caller's teams. *)
Definition Get (id : string) (teamIDs : option (list string)) (t : tables) : option Record_ :=
  find_first (λ r, bool_decide (lr_ID r = id) && in_teams teamIDs (lr_TeamID r)) (tb_requests t).

(** ** Sums *)

(** [SELECT k, SUM(v) GROUP BY k] *)
Definition add_line {K} `{Countable K} (line : K * Z) (m : gmap K Z) : gmap K Z :=
  <[line.1 := line.2 + default 0 (m !! line.1)]> m.
Definition sum_by {K} `{Countable K} (lines : list (K * Z)) : gmap K Z := foldr add_line ∅ lines.

(** [::bigint] refuses a sum that does not fit. *)
Definition fits {K} `{Countable K} (m : gmap K Z) : bool :=
  bool_decide (map_Forall (λ _ v, int64_min ≤ v ∧ v ≤ int64_max) m).

Definition g_day (g : group) : Z := g.1.1.1.
Definition g_team (g : group) : string := g.1.1.2.
Definition g_provider (g : group) : string := g.1.2.
Definition g_model (g : group) : string := g.2.

Definition SpendByTeamSince (since : Z) (t : tables) : option (gmap string Z) :=
  let live := map (λ r, (lr_TeamID r, lr_CostMicros r)) (keep (λ r, since <=? lr_Timestamp r) (tb_requests t)) in
  let rolled := map (λ x, (g_team x.1, t_cost x.2)) (keep (λ x, since / day <=? g_day x.1) (map_to_list (tb_daily t))) in
  let m := sum_by (live ++ rolled) in
  if fits m then Some m else None.

Inductive CostBucket := CostHourly | CostDaily.
Inductive CostDimension := CostByProvider | CostByModel | CostByTeam.

Record CostQuery := { q_Since : Z; q_Bucket : CostBucket; q_Dimension : CostDimension; q_TeamIDs : option (list string) }.
Record CostCell := { cc_Bucket : Z; cc_Key : string; cc_Micros : Z }.

(** [columns], on a row and on a rolled-up group *)
Definition live_column (d : CostDimension) (r : Record_) : string :=
  match d with CostByProvider => lr_Provider r | CostByModel => lr_ServedModel r | CostByTeam => lr_TeamID r end.
Definition rolled_column (d : CostDimension) (g : group) : string :=
  match d with CostByProvider => g_provider g | CostByModel => g_model g | CostByTeam => g_team g end.

(** [date_trunc] *)
Definition trunc (b : CostBucket) (ts : Z) : Z :=
  match b with CostHourly => ts / hour * hour | CostDaily => ts / day * day end.

Definition cost_lines (q : CostQuery) (t : tables) : list (Z * string * Z) :=
  map (λ r, (trunc (q_Bucket q) (lr_Timestamp r), live_column (q_Dimension q) r, lr_CostMicros r))
    (keep (λ r, (q_Since q <=? lr_Timestamp r) && in_teams (q_TeamIDs q) (lr_TeamID r)) (tb_requests t)) ++
  match q_Bucket q with
  | CostHourly => []
  | CostDaily =>
      map (λ x, (g_day x.1 * day, rolled_column (q_Dimension q) x.1, t_cost x.2))
        (keep (λ x, (q_Since q / day <=? g_day x.1) && in_teams (q_TeamIDs q) (g_team x.1)) (map_to_list (tb_daily t)))
  end.

Definition earlier (a b : CostCell) : Prop := cc_Bucket a ≤ cc_Bucket b.
#[export] Instance earlier_dec : RelDecision earlier.
Proof. intros a b. unfold earlier. apply _. Defined.

Definition CostSeries (q : CostQuery) (t : tables) : option (list CostCell) :=
  let m := sum_by (cost_lines q t) in
  if fits m
  then Some (merge_sort earlier (map (λ x, {| cc_Bucket := x.1.1; cc_Key := x.1.2; cc_Micros := x.2 |}) (map_to_list m)))
  else None.

(** ** Attribution *)

Definition in_scope (since : Z) (teamIDs : option (list string)) (r : Record_) : bool :=
  (since <=? lr_Timestamp r) && in_teams teamIDs (lr_TeamID r).

Definition sum (l : list Z) : Z := foldr Z.add 0 l.

(** A [SUM] scanned into an int64. *)
Definition scan (z : Z) : option Z := if (int64_min <=? z) && (z <=? int64_max) then Some z else None.

Record FallbackAttribution := { ExtraMicros : Z; SavedMicros : Z }.
Definition NetMicros (a : FallbackAttribution) : Z := wrap64 (ExtraMicros a - SavedMicros a).

Definition deltas (since : Z) (teamIDs : option (list string)) (t : tables) : list Z :=
  omap lr_FallbackCostDeltaMicros (keep (in_scope since teamIDs) (tb_requests t)).

Definition FallbackCostSince (since : Z) (teamIDs : option (list string)) (t : tables) : option FallbackAttribution :=
  let d := deltas since teamIDs t in
  match scan (sum (keep (λ z, 0 <? z) d)), scan (- sum (keep (λ z, z <? 0) d)) with
  | Some extra, Some saved => Some {| ExtraMicros := extra; SavedMicros := saved |}
  | _, _ => None
  end.

Record RoutingSavings := { rs_SavedMicros : Z; Routed : Z; Downgraded : Z }.

Definition RoutingSavingsSince (since : Z) (teamIDs : option (list string)) (t : tables) : option RoutingSavings :=
  let s := omap lr_RoutingSavingsMicros (keep (in_scope since teamIDs) (tb_requests t)) in
  match scan (sum s) with
  | Some saved =>
      Some {| rs_SavedMicros := saved; Routed := Z.of_nat (length s); Downgraded := Z.of_nat (length (keep (λ z, 0 <? z) s)) |}
  | None => None
  end.

Record CacheSavingsGroup := { cg_Model : string; cg_Hits : Z; cg_InputTokens : Z; cg_OutputTokens : Z; cg_Misses : Z }.
Record CacheSavings := { cs_Groups : list CacheSavingsGroup; cs_Hits : Z; cs_Misses : Z }.

(** The rows of one served model, of those the cache was asked about. *)
Definition cache_group (model : string) (rows : list Record_) : CacheSavingsGroup :=
  let of_model := keep (λ r, bool_decide (lr_ServedModel r = model)) rows in
  let hits := keep (λ r, bool_decide (lr_CacheHit r = Some true)) of_model in
  {| cg_Model := model; cg_Hits := Z.of_nat (length hits);
     cg_InputTokens := sum (map lr_InputTokens hits); cg_OutputTokens := sum (map lr_OutputTokens hits);
     cg_Misses := Z.of_nat (length (keep (λ r, bool_decide (lr_CacheHit r = Some false)) of_model)) |}.

Definition consulted (since : Z) (teamIDs : option (list string)) (t : tables) : list Record_ :=
  keep (λ r, in_scope since teamIDs r && bool_decide (lr_CacheHit r ≠ None)) (tb_requests t).

(** GROUP BY served_model yields each model once, in no order that matters. *)
Definition CacheSavingsSince (since : Z) (teamIDs : option (list string)) (t : tables) : CacheSavings :=
  let rows := consulted since teamIDs t in
  let groups := map (λ m, cache_group m rows) (remove_dups (map lr_ServedModel rows)) in
  {| cs_Groups := keep (λ g, 0 <? cg_Hits g) groups; cs_Hits := sum (map cg_Hits groups); cs_Misses := sum (map cg_Misses groups) |}.
