(* ===== verification/LogQueryFacts.v ===== *)
(** * What the request log's readers guarantee

    A cursor survives its encoding; following cursors reads every row once,
    whatever arrives in the meantime; and retention does not change the sums. *)

From stdpp Require Import sorting.
From Stdlib Require Import Ascii.
From S2P Require Import Prelude Text Base64 Redis Calendar LogWriter Retention LogQuery.

(** ** Cursors *)

Lemma FormatInt_no_bar n : free "|" (FormatInt n) = true.
Proof.
  apply FormatInt_free; [done|]. change (byte "|") with 124. lia.
Qed.

(** A cursor of a row comes back as it was. *)
Lemma cursor_round_trip ts id :
  in_int64 ts → id ≠ ""%string → DecodeCursor (Encode {| c_TS := ts; c_ID := id |}) = Ok {| c_TS := ts; c_ID := id |}.
Proof.
  intros Hts Hid. unfold Encode, IsZero. cbn [c_TS c_ID]. rewrite bool_decide_eq_false_2 by done. cbn [andb].
  rewrite wrap64_id by done. unfold DecodeCursor. rewrite bool_decide_eq_false_2.
  - rewrite base64_round_trip, Cut_app by apply FormatInt_no_bar.
    rewrite bool_decide_eq_false_2 by done. by rewrite ParseInt_FormatInt.
  - intros He%EncodeToString_nil. by destruct (FormatInt ts).
Qed.

(** ** Pages *)

Lemma keep_ext {A} (f h : A → bool) l : (∀ x, x ∈ l → f x = h x) → keep f l = keep h l.
Proof.
  induction l as [|x l IH]; intros Hfh; simpl; [done|]. rewrite (Hfh x) by left. rewrite IH; [done|].
  intros y Hy. apply Hfh. by right.
Qed.

(** What Postgres promises of a deterministic collation: a total order in which
    only equal strings tie. *)
Class Collation (lt : string → string → bool) : Prop := {
  collate_irrefl a : lt a a = false;
  collate_trans a b c : lt a b = true → lt b c = true → lt a c = true;
  collate_total a b : lt a b = true ∨ a = b ∨ lt b a = true
}.

(** The rows of a table have distinct, nonempty ids and times of this epoch. *)
Record rows_ok (rows : list Record_) : Prop := {
  ro_ids : NoDup (map lr_ID rows);
  ro_named r : r ∈ rows → lr_ID r ≠ ""%string;
  ro_times r : r ∈ rows → in_int64 (lr_Timestamp r)
}.

Section pages.
Context (lt : string → string → bool) `{!Collation lt}.

(** [a] comes strictly before [b], newest first. *)
Definition ahead (a b : Record_) : Prop :=
  lr_Timestamp b < lr_Timestamp a ∨ lr_Timestamp a = lr_Timestamp b ∧ lt (lr_ID b) (lr_ID a) = true.

Definition at_row (r : Record_) : Cursor := {| c_TS := lr_Timestamp r; c_ID := lr_ID r |}.

Lemma precedes_ahead a b : precedes lt (lr_Timestamp b) (lr_ID b) (at_row a) = true ↔ ahead a b.
Proof.
  unfold precedes, ahead. simpl. rewrite orb_true_iff, andb_true_iff, Z.ltb_lt, Z.eqb_eq. intuition congruence.
Qed.

#[local] Instance newest_first_trans : Transitive (newest_first lt).
Proof.
  intros a b c. unfold newest_first. pose proof (collate_trans (lr_ID c) (lr_ID b) (lr_ID a)) as Ht.
  intros [H1|[H1 [E1|E1]]] [H2|[H2 [E2|E2]]]; try (left; lia); right; (split; [congruence|]).
  - left. congruence.
  - right. by rewrite E1.
  - right. by rewrite <- E2.
  - right. auto.
Qed.

#[local] Instance newest_first_total : Total (newest_first lt).
Proof.
  intros a b. unfold newest_first. destruct (Z.lt_trichotomy (lr_Timestamp a) (lr_Timestamp b)) as [H|[H|H]]; [by right; left| |by left; left].
  destruct (collate_total (lr_ID a) (lr_ID b)) as [E|[E|E]].
  - right. right. auto.
  - left. right. auto.
  - left. right. auto.
Qed.

Lemma ahead_asym a b : ahead a b → ¬ ahead b a.
Proof.
  intros [H|[H E]] [H'|[H' E']]; try lia. pose proof (collate_irrefl (lr_ID a)) as Hi.
  rewrite (collate_trans _ _ _ E' E) in Hi. done.
Qed.

Lemma ahead_trans a b c : ahead a b → ahead b c → ahead a c.
Proof.
  intros [H|[H E]] [H'|[H' E']]; try (left; lia). right. split; [congruence|]. by eapply collate_trans.
Qed.

Lemma ahead_irrefl a : ¬ ahead a a.
Proof. intros Ha. by apply (ahead_asym a a). Qed.

Lemma newest_ahead a b : newest_first lt a b → lr_ID a ≠ lr_ID b → ahead a b.
Proof. intros [H|[H [E|E]]] Hne; [by left|done|by right]. Qed.
Lemma strictly_sorted l : StronglySorted (newest_first lt) l → NoDup (map lr_ID l) → StronglySorted ahead l.
Proof.
  induction 1 as [|a l Hl IH Ha]; [constructor|]. intros [Hn Hnd]%NoDup_cons. constructor; [by apply IH|].
  rewrite Forall_forall in Ha |- *. intros b Hb. apply newest_ahead; [by apply Ha|].
  intros Heq. apply Hn. rewrite Heq. by apply list_elem_of_fmap_2.
Qed.

Lemma ordered_elem f c rows r :
  r ∈ ordered lt f c rows ↔ r ∈ rows ∧ selects f r = true ∧ after_cursor lt c r = true.
Proof. unfold ordered. rewrite merge_sort_Permutation, elem_of_keep, andb_true_iff. done. Qed.

Lemma ordered_ids f c rows : NoDup (map lr_ID rows) → NoDup (map lr_ID (ordered lt f c rows)).
Proof.
  intros Hnd. unfold ordered. rewrite (Permutation_map lr_ID (merge_sort_Permutation _ _)).
  eapply sublist_NoDup; [exact Hnd|]. apply (fmap_sublist lr_ID), keep_sublist.
Qed.

Lemma ordered_sorted f c rows : NoDup (map lr_ID rows) → StronglySorted ahead (ordered lt f c rows).
Proof.
  intros Hnd. apply strictly_sorted; [|by apply ordered_ids]. apply Sorted_StronglySorted; [apply _|]. apply Sorted_merge_sort, _.
Qed.

Lemma after_ahead c a b : after_cursor lt c a = true → ahead a b → after_cursor lt c b = true.
Proof.
  unfold after_cursor. destruct (IsZero c); [done|]. simpl. destruct c as [ts id].
  set (r := {| lr_ID := id; lr_Timestamp := ts; lr_TeamID := ""; lr_RequestedModel := ""; lr_ServedModel := ""; lr_Provider := "";
    lr_StatusCode := 0; lr_InputTokens := 0; lr_OutputTokens := 0; lr_CostMicros := 0; lr_Latency := 0; lr_Overhead := 0;
    lr_Fallback := false; lr_CacheHit := None; lr_TraceID := ""; lr_FallbackCostDeltaMicros := None; lr_RoutingTier := "";
    lr_RoutingReason := ""; lr_RoutingSavingsMicros := None |}).
  change {| c_TS := ts; c_ID := id |} with (at_row r). rewrite !precedes_ahead. apply ahead_trans.
Qed.

Lemma at_row_after r x : lr_ID r ≠ ""%string → after_cursor lt (at_row r) x = true ↔ ahead r x.
Proof.
  intros Hne. unfold after_cursor, IsZero. simpl. rewrite bool_decide_eq_false_2 by done. simpl. apply precedes_ahead.
Qed.

Lemma sorted_last l1 r l2 x :
  StronglySorted ahead (l1 ++ [r] ++ l2) → x ∈ l1 ++ [r] ++ l2 → (x ∈ l2 ↔ ahead r x).
Proof.
  intros Hs Hx. apply StronglySorted_app in Hs as (H1 & _ & Hs). apply StronglySorted_app in Hs as (H2 & _ & _).
  split; [intros H; by apply H2; [left|]|]. intros Ha. apply elem_of_app in Hx as [Hx|[->%list_elem_of_singleton|Hx]%elem_of_app]; [| |done].
  - exfalso. apply (ahead_asym _ _ Ha). apply H1; [done|]. apply elem_of_app. by left; left.
  - by destruct (ahead_irrefl r).
Qed.

#[local] Instance ahead_anti : AntiSymm (=) ahead.
Proof. intros a b H1 H2. by destruct (ahead_asym a b). Qed.

(** The rows after the last of a page are the rest. *)
Lemma ordered_rest f c rows l1 r l2 :
  NoDup (map lr_ID rows) → lr_ID r ≠ ""%string →
  ordered lt f c rows = l1 ++ [r] ++ l2 → ordered lt f (at_row r) rows = l2.
Proof.
  intros Hnd Hne Ho. pose proof (ordered_sorted f c rows Hnd) as Hs. pose proof (ordered_ids f c rows Hnd) as Hi.
  assert (∀ x, x ∈ ordered lt f c rows → x ∈ l2 ↔ ahead r x) as Hl2.
  { intros x. rewrite Ho in *. by apply sorted_last. }
  assert (r ∈ ordered lt f c rows) as Hr by (rewrite Ho; apply elem_of_app; right; by left).
  apply ordered_elem in Hr as (_ & _ & Hrc). rewrite Ho in Hs, Hi.
  apply (StronglySorted_unique ahead); [by apply ordered_sorted| |].
  - apply StronglySorted_app in Hs as (_ & _ & Hs). by apply StronglySorted_app in Hs as (_ & _ & Hs).
  - apply NoDup_Permutation.
    + by eapply NoDup_fmap_1, ordered_ids.
    + rewrite !map_app in Hi. apply NoDup_app in Hi as (_ & _ & Hi). apply NoDup_app in Hi as (_ & _ & Hi). by eapply NoDup_fmap_1.
    + intros x. rewrite ordered_elem, at_row_after by done. split.
      * intros (Hx & Hsel & Ha). apply Hl2; [|done]. apply ordered_elem. split_and!; [done|done|by eapply after_ahead].
      * intros Hx. assert (x ∈ ordered lt f c rows) as Hin by (rewrite Ho; apply elem_of_app; right; by right).
        pose proof Hin as (? & ? & _)%ordered_elem. split_and!; [done|done|by apply Hl2].
Qed.
Definition with_cursor (f : Filter_) (c : Cursor) : Filter_ :=
  {| f_TeamIDs := f_TeamIDs f; f_Provider := f_Provider f; f_Model := f_Model f; f_StatusCode := f_StatusCode f;
     f_StatusMin := f_StatusMin f; f_StatusMax := f_StatusMax f; f_CacheHit := f_CacheHit f; f_Fallback := f_Fallback f;
     f_Since := f_Since f; f_Until := f_Until f; f_Limit := f_Limit f; f_Cursor := c |}.

Definition status_ok (f : Filter_) : Prop := int16 (f_StatusCode f) = true ∧ int16 (f_StatusMin f) = true ∧ int16 (f_StatusMax f) = true.

Definition limit_of (f : Filter_) : nat := Z.to_nat (page_size (f_Limit f)).

Lemma limit_pos f : (0 < limit_of f)%nat.
Proof. unfold limit_of, page_size, DefaultPageSize, MaxPageSize. repeat case_match; lia. Qed.

(** One page: everything that is left, or the first rows of it and where to go on. *)
Lemma Query_page f c t :
  status_ok f →
  ∃ p, Query lt true (with_cursor f c) t = Some p ∧
    ((Records p = ordered lt f c (tb_requests t) ∧ NextCursor p = ""%string) ∨
     ∃ l1 r l2, ordered lt f c (tb_requests t) = l1 ++ [r] ++ l2 ∧ Records p = l1 ++ [r] ∧
       NextCursor p = Encode (at_row r) ∧ length (l1 ++ [r]) = limit_of f).
Proof.
  intros (H1 & H2 & H3). pose proof (limit_pos f) as Hpos. unfold Query. simpl. rewrite H1, H2, H3. simpl.
  fold (limit_of f). change (ordered lt (with_cursor f c) c (tb_requests t)) with (ordered lt f c (tb_requests t)).
  set (l := ordered lt f c (tb_requests t)). rewrite length_take.
  destruct (Nat.ltb_spec (limit_of f) ((limit_of f + 1) `min` length l)) as [Hl|Hl].
  - eexists. split; [done|]. right. rewrite take_take. replace (limit_of f `min` (limit_of f + 1))%nat with (limit_of f) by lia.
    assert (length (take (limit_of f) l) = limit_of f) as Hlen by (rewrite length_take; lia).
    destruct (take (limit_of f) l) as [|r l1 _] eqn:Ht using rev_ind; [simpl in Hlen; lia|].
    exists l1, r, (drop (limit_of f) l). cbn [Records NextCursor]. rewrite last_snoc.
    split_and!; [by rewrite <- (take_drop (limit_of f) l) at 1; rewrite Ht, <- app_assoc|done|done|done].
  - eexists. split; [done|]. left. split; [|done]. simpl. apply take_ge. lia.
Qed.

(** Following the cursors, the table being [at_ i] when page [i] is read. *)
Fixpoint read_all (fuel : nat) (at_ : nat → tables) (f : Filter_) (c : Cursor) : option (list Record_) :=
  match fuel with
  | O => None
  | S fuel' =>
      match Query lt true (with_cursor f c) (at_ 0%nat) with
      | None => None
      | Some p =>
          if bool_decide (NextCursor p = ""%string) then Some (Records p)
          else match DecodeCursor (NextCursor p) with
               | Ok c' => match read_all fuel' (λ i, at_ (S i)) f c' with Some l => Some (Records p ++ l) | None => None end
               | Err _ => None
               end
      end
  end.

Lemma Encode_row r : lr_ID r ≠ ""%string → Encode (at_row r) ≠ ""%string.
Proof.
  intros Hne. unfold Encode, IsZero. cbn [at_row c_ID c_TS]. rewrite bool_decide_eq_false_2 by done. cbn [andb].
  intros He%EncodeToString_nil. by destruct (FormatInt _).
Qed.

Record reads (fuel : nat) (at_ : nat → tables) (f : Filter_) (c : Cursor) (l : list Record_) : Prop := {
  rd_sorted : StronglySorted ahead l;
  rd_sound r : r ∈ l → selects f r = true ∧ after_cursor lt c r = true ∧ ∃ i, (i < fuel)%nat ∧ r ∈ tb_requests (at_ i);
  rd_complete r : (∀ i, (i < fuel)%nat → r ∈ tb_requests (at_ i)) → selects f r = true → after_cursor lt c r = true → r ∈ l
}.

Lemma read_all_reads fuel at_ f c l :
  status_ok f → (∀ i, rows_ok (tb_requests (at_ i))) → read_all fuel at_ f c = Some l → reads fuel at_ f c l.
Proof.
  intros Hst. revert at_ c l. induction fuel as [|fuel IH]; intros at_ c l Hrows; cbn [read_all]; [done|].
  pose proof (Hrows 0%nat) as Hr0. pose proof (ordered_sorted f c _ (ro_ids _ Hr0)) as Hs.
  destruct (Query_page f c (at_ 0%nat) Hst) as (p & -> & [[HR HN]|(l1 & r & l2 & Ho & HR & HN & _)]).
  { rewrite HN, bool_decide_eq_true_2 by done. intros [= <-]. rewrite HR. split; [done| |].
    - intros x (Hx & Hsel & Ha)%ordered_elem. split_and!; [done|done|]. exists 0%nat. split; [lia|done].
    - intros x Hx Hsel Ha. apply ordered_elem. split_and!; [apply Hx; lia|done|done]. }
  assert (r ∈ ordered lt f c (tb_requests (at_ 0%nat))) as Hr by (rewrite Ho; apply elem_of_app; right; by left).
  apply ordered_elem in Hr as (Hr & Hrsel & Hrc). pose proof (ro_named _ Hr0 _ Hr) as Hne.
  rewrite HN, bool_decide_eq_false_2 by (by apply Encode_row). rewrite HR. unfold at_row at 1.
  rewrite cursor_round_trip by (done || by apply (ro_times _ Hr0)).
  destruct (read_all fuel _ f _) as [l'|] eqn:Hl'; [|done]. intros [= <-].
  destruct (IH _ _ _ (λ i, Hrows (S i)) Hl') as [S1 S2 S3]. fold (at_row r) in S2, S3. rewrite Ho in Hs.
  assert (∀ x, x ∈ l1 ++ [r] → x = r ∨ ahead x r) as Hpage.
  { intros x [Hx| ->%list_elem_of_singleton]%elem_of_app; [right|by left].
    apply StronglySorted_app in Hs as (H1 & _). apply H1; [done|]. by left. }
  split.
  - apply StronglySorted_app_2; [|by rewrite app_assoc in Hs; apply StronglySorted_app in Hs as (_ & Hs & _)|done].
    intros x y Hx (_ & Ha%at_row_after & _)%S2; [|done]. destruct (Hpage x Hx) as [->|Hx']; [done|by eapply ahead_trans].
  - intros x [Hx|Hx]%elem_of_app.
    + assert (x ∈ ordered lt f c (tb_requests (at_ 0%nat))) as Hin by (rewrite Ho, app_assoc; apply elem_of_app; by left).
      apply ordered_elem in Hin as (? & ? & ?). split_and!; [done|done|]. exists 0%nat. split; [lia|done].
    + apply S2 in Hx as (Hsel & Ha & i & Hi & Hx). split_and!; [done| |exists (S i); split; [lia|done]].
      eapply after_ahead; [exact Hrc|by apply at_row_after].
  - intros x Hx Hsel Ha. apply elem_of_app.
    assert (x ∈ ordered lt f c (tb_requests (at_ 0%nat))) as Hin by (apply ordered_elem; split_and!; [apply Hx; lia|done|done]).
    rewrite Ho in Hin. pose proof (sorted_last l1 r l2 x Hs Hin) as Hl2. rewrite app_assoc in Hin.
    apply elem_of_app in Hin as [Hin|Hin]; [by left|right]. apply S3; [|done|].
    + intros i Hi. apply (Hx (S i)). lia.
    + apply at_row_after; [done|]. by apply Hl2.
Qed.

Lemma read_all_total fuel t f c :
  status_ok f → rows_ok (tb_requests t) → (length (ordered lt f c (tb_requests t)) < fuel * limit_of f)%nat →
  read_all fuel (λ _, t) f c = Some (ordered lt f c (tb_requests t)).
Proof.
  intros Hst Hrows. revert c. induction fuel as [|fuel IH]; intros c Hlen; cbn [read_all]; [lia|].
  destruct (Query_page f c t Hst) as (p & -> & [[HR HN]|(l1 & r & l2 & Ho & HR & HN & Hlim)]).
  { by rewrite HN, bool_decide_eq_true_2, HR. }
  assert (r ∈ ordered lt f c (tb_requests t)) as (Hr & _)%ordered_elem by (rewrite Ho; apply elem_of_app; right; by left).
  pose proof (ro_named _ Hrows _ Hr) as Hne.
  rewrite HN, bool_decide_eq_false_2 by (by apply Encode_row). unfold at_row at 1.
  rewrite cursor_round_trip by (done || by apply (ro_times _ Hrows)). fold (at_row r).
  pose proof (ordered_rest f c _ l1 r l2 (ro_ids _ Hrows) Hne Ho) as Hrest.
  rewrite IH by (rewrite Hrest; rewrite Ho, app_assoc, length_app, Hlim in Hlen; lia).
  by rewrite HR, Hrest, Ho, app_assoc.
Qed.

(** C30: Following the cursors reads the log exactly once.  However the table
    changes between pages, with rows arriving and expiring, the rows read are
    strictly newest first, so none is read twice, each matches the filter, its
    team scope included, and each matching row that was there throughout is
    read; and over a table that does not change the reading ends, after one page
    more than the matching rows fill, with all of them in order. *)
Theorem pages_read_log_once f at_ :
  status_ok f → (∀ i, rows_ok (tb_requests (at_ i))) →
  (∀ fuel l, read_all fuel at_ f no_cursor = Some l →
     StronglySorted ahead l ∧
     (∀ r, r ∈ l → selects f r = true ∧ in_teams (f_TeamIDs f) (lr_TeamID r) = true ∧ ∃ i, r ∈ tb_requests (at_ i)) ∧
     (∀ r, (∀ i, r ∈ tb_requests (at_ i)) → selects f r = true → r ∈ l)) ∧
  (∀ fuel i, (length (keep (selects f) (tb_requests (at_ i))) < fuel * limit_of f)%nat →
     ∃ l, read_all fuel (λ _, at_ i) f no_cursor = Some l ∧ l ≡ₚ keep (selects f) (tb_requests (at_ i))).
Proof.
  intros Hst Hrows. split.
  - intros fuel l [S1 S2 S3]%read_all_reads; [|done|done]. split_and!; [done| |].
    + intros r (Hsel & _ & i & _ & Hi)%S2. split_and!; [done| |by exists i]. unfold selects in Hsel.
      by repeat (apply andb_true_iff in Hsel as [Hsel _]).
    + intros r Hr Hsel. by apply S3.
  - intros fuel i Hlen.
    assert (ordered lt f no_cursor (tb_requests (at_ i)) ≡ₚ keep (selects f) (tb_requests (at_ i))) as Hp.
    { unfold ordered. rewrite merge_sort_Permutation. rewrite (keep_ext _ (selects f)); [done|].
      intros r _. change (after_cursor lt no_cursor r) with true. apply andb_true_r. }
    eexists. split; [apply read_all_total; [done|done|by rewrite Hp]|done].
Qed.
End pages.

(** ** Sums survive retention *)

Section sums.
Context {K : Type} `{Countable K}.
Implicit Types (m : gmap K Z) (l : list (K * Z)).

(** Totals key by key. *)
Definition madd m m' : gmap K Z := union_with (λ a b, Some (a + b)) m m'.

Ltac madd_solve := apply map_eq; intros i; unfold madd; rewrite ?lookup_union_with, ?lookup_empty;
  repeat match goal with |- context [?m !! i] => destruct (m !! i) end; simpl; try done; f_equal; lia.

Lemma madd_comm m m' : madd m m' = madd m' m.
Proof. madd_solve. Qed.
Lemma madd_assoc m m' m'' : madd m (madd m' m'') = madd (madd m m') m''.
Proof. madd_solve. Qed.
Lemma madd_empty_l m : madd ∅ m = m.
Proof. madd_solve. Qed.
Lemma madd_empty_r m : madd m ∅ = m.
Proof. madd_solve. Qed.
Lemma madd_left_comm m m' m'' : madd m (madd m' m'') = madd m' (madd m m'').
Proof. by rewrite !madd_assoc, (madd_comm m m'). Qed.

Lemma sum_by_cons k v l : sum_by ((k, v) :: l) = madd {[k := v]} (sum_by l).
Proof.
  unfold sum_by. cbn [foldr]. fold (sum_by l). unfold add_line. cbn [fst snd]. apply map_eq. intros i. unfold madd.
  rewrite lookup_union_with. destruct (decide (k = i)) as [->|Hne].
  - rewrite lookup_insert_eq, lookup_singleton_eq. destruct (sum_by l !! i); simpl; f_equal; lia.
  - rewrite lookup_insert_ne, lookup_singleton_ne by done. by destruct (sum_by l !! i).
Qed.

Lemma sum_by_app l l' : sum_by (l ++ l') = madd (sum_by l) (sum_by l').
Proof.
  induction l as [|[k v] l IH]; [symmetry; apply madd_empty_l|]. cbn [app]. by rewrite !sum_by_cons, IH, madd_assoc.
Qed.

Lemma sum_by_perm l l' : l ≡ₚ l' → sum_by l = sum_by l'.
Proof.
  induction 1 as [|[k v] l l' _ IH|[k v] [k' v'] l|l l' l'' _ IH1 _ IH2]; [done|by rewrite !sum_by_cons, IH| |congruence].
  by rewrite !sum_by_cons, madd_left_comm.
Qed.

(** A report: the groups of a day and the rows of a group, by a key of the group. *)
Context (φ : group → bool) (κ : group → K).

Definition row_lines (rows : list Record_) : list (K * Z) :=
  map (λ r, (κ (group_of r), lr_CostMicros r)) (keep (λ r, φ (group_of r)) rows).
Definition day_lines (d : gmap group totals) : list (K * Z) :=
  map (λ x, (κ x.1, t_cost x.2)) (keep (λ x, φ x.1) (map_to_list d)).
Definition report (t : tables) : gmap K Z := sum_by (row_lines (tb_requests t) ++ day_lines (tb_daily t)).

Definition one (g : group) (x : totals) : gmap K Z := if φ g then {[κ g := t_cost x]} else ∅.

Lemma one_add g x y : one g (add_totals x y) = madd (one g x) (one g y).
Proof.
  unfold one. destruct (φ g); [|by rewrite madd_empty_l]. apply map_eq. intros i. unfold madd. rewrite lookup_union_with.
  destruct (decide (κ g = i)) as [<-|Hne]; [by rewrite !lookup_singleton_eq|by rewrite !lookup_singleton_ne].
Qed.

Lemma day_new d g x : d !! g = None → sum_by (day_lines (<[g := x]> d)) = madd (one g x) (sum_by (day_lines d)).
Proof.
  intros Hn. unfold day_lines.
  erewrite sum_by_perm by (apply Permutation_map, keep_perm, map_to_list_insert, Hn). cbn [keep]. cbn [fst].
  unfold one. destruct (φ g); cbn [map fst snd]; [apply sum_by_cons|by rewrite madd_empty_l].
Qed.

Lemma day_put d g x :
  sum_by (day_lines (<[g := add_totals x (default zero_totals (d !! g))]> d)) = madd (one g x) (sum_by (day_lines d)).
Proof.
  destruct (d !! g) as [y|] eqn:Hg; simpl.
  - rewrite <- (insert_id d g y Hg) at 2. rewrite <- (insert_delete_eq d g y), <- (insert_delete_eq d g (add_totals x y)).
    rewrite !day_new by apply lookup_delete_eq. by rewrite one_add, madd_assoc.
  - rewrite add_totals_zero. by apply day_new.
Qed.

Lemma row_lines_cons r rows : sum_by (row_lines (r :: rows)) = madd (one (group_of r) (row_totals r)) (sum_by (row_lines rows)).
Proof.
  unfold row_lines, one. cbn [keep]. destruct (φ (group_of r)); cbn [map]; [apply sum_by_cons|by rewrite madd_empty_l].
Qed.

Lemma day_grouped rows : sum_by (day_lines (grouped rows)) = sum_by (row_lines rows).
Proof.
  induction rows as [|r rows IH]; [done|]. rewrite row_lines_cons, <- IH.
  unfold grouped. cbn [foldr]. fold (grouped rows). unfold add_row. apply day_put.
Qed.

Lemma day_union d e :
  sum_by (day_lines (union_with (λ a b, Some (add_totals a b)) d e)) = madd (sum_by (day_lines d)) (sum_by (day_lines e)).
Proof.
  induction e as [|g x e Hg IH] using map_ind.
  { assert (union_with (λ a b, Some (add_totals a b)) d ∅ = d) as ->; [|by rewrite madd_empty_r].
    apply map_eq. intros i. rewrite lookup_union_with, lookup_empty. by destruct (d !! i). }
  rewrite day_new, madd_left_comm, <- IH, <- day_put by done. do 3 f_equal. apply map_eq. intros i.
  rewrite lookup_union_with. destruct (decide (g = i)) as [<-|Hne].
  - rewrite !lookup_insert_eq, lookup_union_with, Hg. destruct (d !! g) as [y|]; simpl; f_equal.
    + apply add_totals_comm.
    + by rewrite add_totals_zero.
  - by rewrite !lookup_insert_ne, lookup_union_with by done.
Qed.

Lemma row_lines_perm rows rows' : rows ≡ₚ rows' → sum_by (row_lines rows) = sum_by (row_lines rows').
Proof. intros Hp. by apply sum_by_perm, Permutation_map, keep_perm. Qed.

Lemma row_lines_app rows rows' : sum_by (row_lines (rows ++ rows')) = madd (sum_by (row_lines rows)) (sum_by (row_lines rows')).
Proof. unfold row_lines. by rewrite keep_app, map_app, sum_by_app. Qed.

Lemma sweepSQL_report cutoff limit t :
  NoDup (map lr_ID (tb_requests t)) → report (sweepSQL cutoff limit t).2 = report t.
Proof.
  intros Hids. unfold report, sweepSQL. cbn [snd tb_requests tb_daily]. rewrite !sum_by_app. unfold rolled.
  rewrite day_union, day_grouped. rewrite <- (row_lines_perm _ _ (removed_doomed cutoff limit t Hids)).
  rewrite (madd_comm (sum_by (day_lines (tb_daily t)))), madd_assoc, <- row_lines_app. f_equal. apply row_lines_perm.
  rewrite Permutation_app_comm. apply keep_Permutation.
Qed.

Lemma sweep_loop_report n f cutoff limit total t :
  NoDup (map lr_ID (tb_requests t)) → report (sweep_loop n f cutoff limit total t).2 = report t.
Proof.
  revert f total t. induction n as [|n IH]; intros f total t Hids; cbn [sweep_loop]; [done|].
  pose proof (sweepSQL_report cutoff limit t Hids) as Hr. pose proof (sweepSQL_ids cutoff limit t Hids) as Hids'.
  destruct (f 0%nat); [|done|by simpl]. destruct (sweepSQL cutoff limit t) as [k t']. simpl in *.
  destruct (k <? limit); [done|]. by rewrite IH.
Qed.

Lemma Sweep_report cfg now lock f t :
  NoDup (map lr_ID (tb_requests t)) → report (Sweep cfg now lock f t).2 = report t.
Proof.
  intros Hids. unfold Sweep. destruct (Window cfg <=? 0); [done|]. destruct lock; try done. by apply sweep_loop_report.
Qed.
End sums.

Lemma day_since since ts : since mod day = 0 → (since <=? ts) = (since / day <=? ts / day).
Proof.
  intros Hm. assert (0 < day) by (vm_compute; done). pose proof (Z.div_mod since day ltac:(lia)) as Hs.
  destruct (Z.leb_spec since ts), (Z.leb_spec (since / day) (ts / day)); try done; exfalso.
  - assert (since / day ≤ ts / day) by (by apply Z.div_le_mono). lia.
  - pose proof (Z.div_mod ts day ltac:(lia)). pose proof (Z.mod_pos_bound ts day ltac:(lia)). nia.
Qed.

Lemma SpendByTeamSince_report since t :
  since mod day = 0 →
  SpendByTeamSince since t = let m := report (λ g, since / day <=? g_day g) g_team t in if fits m then Some m else None.
Proof.
  intros Hs. unfold SpendByTeamSince, report, row_lines, day_lines.
  rewrite (keep_ext (λ r, since <=? lr_Timestamp r) (λ r, since / day <=? g_day (group_of r))); [done|].
  intros r _. by apply day_since.
Qed.

Lemma cost_lines_report q t :
  q_Bucket q = CostDaily → q_Since q mod day = 0 →
  sum_by (cost_lines q t) = report (λ g, (q_Since q / day <=? g_day g) && in_teams (q_TeamIDs q) (g_team g))
                              (λ g, (g_day g * day, rolled_column (q_Dimension q) g)) t.
Proof.
  intros Hb Hs. unfold cost_lines, report, row_lines, day_lines. rewrite Hb. f_equal. f_equal.
  rewrite (keep_ext _ (λ r, (q_Since q / day <=? g_day (group_of r)) && in_teams (q_TeamIDs q) (g_team (group_of r)))).
  - apply map_ext. intros r. unfold trunc. by destruct (q_Dimension q).
  - intros r _. by rewrite (day_since _ (lr_Timestamp r)).
Qed.

(** C31: The reports do not move when the log is rolled up.  For every sweep,
    whatever its configuration, lock and failures, the spend per team since a
    midnight, which reconciliation holds against the budget counters, and the
    daily cost series since a midnight, by provider, model or team and within any
    teams, are after it what they were before it. *)
Theorem retention_keeps_reports cfg now lock f t since :
  NoDup (map lr_ID (tb_requests t)) → since mod day = 0 →
  let t' := (Sweep cfg now lock f t).2 in
  SpendByTeamSince since t' = SpendByTeamSince since t ∧
  (∀ dim teams, let q := {| q_Since := since; q_Bucket := CostDaily; q_Dimension := dim; q_TeamIDs := teams |} in
     CostSeries q t' = CostSeries q t).
Proof.
  intros Hids Hs. cbn zeta. split.
  - rewrite !SpendByTeamSince_report by done. by rewrite Sweep_report.
  - intros dim teams. unfold CostSeries. by rewrite !cost_lines_report, Sweep_report.
Qed.

(** A series since the middle of a day counts the rolled-up rows of its first
    day whole, so its first bucket grows when older rows are rolled up: here
    from nothing to the thirty micro-dollars spent before it begins. *)
Example midday_series_moves :
  let q := {| q_Since := day / 2; q_Bucket := CostDaily; q_Dimension := CostByTeam; q_TeamIDs := None |} in
  map cc_Micros <$> CostSeries q demo_tables = Some [40] ∧ map cc_Micros <$> CostSeries q demo_swept.2 = Some [30; 40].
Proof. vm_compute. done. Qed.

(** ** Attribution *)

Lemma sum_cons z l : sum (z :: l) = z + sum l.
Proof. done. Qed.

Lemma sum_signs l : sum l = sum (keep (λ z, 0 <? z) l) + sum (keep (λ z, z <? 0) l).
Proof.
  induction l as [|z l IH]; [done|]. cbn [keep].
  destruct (Z.ltb_spec 0 z), (Z.ltb_spec z 0); rewrite ?sum_cons, IH; lia.
Qed.

(** What fallbacks cost and saved nets to the sum of the logged deltas. *)
Lemma fallback_nets since teams t a :
  FallbackCostSince since teams t = Some a → ExtraMicros a - SavedMicros a = sum (deltas since teams t).
Proof.
  unfold FallbackCostSince. rewrite (sum_signs (deltas since teams t)).
  generalize (sum (keep (λ z, 0 <? z) (deltas since teams t))), (sum (keep (λ z, z <? 0) (deltas since teams t))). intros x y.
  destruct (scan x) as [x'|] eqn:Hx, (scan (- y)) as [y'|] eqn:Hy; try done. intros [= <-]. simpl.
  unfold scan in *. repeat case_match; simplify_eq. lia.
Qed.

(** ** Witnesses *)

Definition byte_order (a b : string) : bool := bool_decide (String.le a b ∧ a ≠ b).

#[export] Instance byte_order_collation : Collation byte_order.
Proof.
  split.
  - intros a. apply bool_decide_eq_false. tauto.
  - intros a b c [H1 N1]%bool_decide_eq_true [H2 N2]%bool_decide_eq_true. apply bool_decide_eq_true.
    split; [by etransitivity|]. intros ->. apply N1. by apply (anti_symm String.le).
  - intros a b. unfold byte_order. destruct (decide (a = b)) as [->|Hne]; [by right; left|].
    destruct (total String.le a b) as [H|H]; [left|right; right]; apply bool_decide_eq_true; split; congruence.
Qed.

Definition demo_filter : Filter_ :=
  {| f_TeamIDs := Some ["acme"%string]; f_Provider := ""; f_Model := ""; f_StatusCode := 0; f_StatusMin := 200; f_StatusMax := 299;
     f_CacheHit := None; f_Fallback := None; f_Since := zero_time; f_Until := zero_time; f_Limit := 1; f_Cursor := no_cursor |}.

Lemma demo_rows_ok : rows_ok (tb_requests demo_tables).
Proof.
  split.
  - apply (bool_decide_unpack _). vm_compute. exact I.
  - apply Forall_forall. apply (bool_decide_unpack _). vm_compute. exact I.
  - apply Forall_forall. unfold in_int64. apply (bool_decide_unpack _). vm_compute. exact I.
Qed.

Lemma pages_read_log_once_witness :
  read_all byte_order 4 (λ _, demo_tables) demo_filter no_cursor = Some [demo_at "c" (3 * day) 40; demo_at "b" 7 20; demo_at "a" 5 10] ∧
  StronglySorted (ahead byte_order) [demo_at "c" (3 * day) 40; demo_at "b" 7 20; demo_at "a" 5 10].
Proof.
  assert (read_all byte_order 4 (λ _, demo_tables) demo_filter no_cursor =
    Some [demo_at "c" (3 * day) 40; demo_at "b" 7 20; demo_at "a" 5 10]) as Hr by (vm_compute; reflexivity).
  split; [exact Hr|].
  apply (pages_read_log_once byte_order demo_filter (λ _, demo_tables)) in Hr as [Hs _]; [exact Hs| |].
  - split; [|split]; reflexivity.
  - intros _. exact demo_rows_ok.
Defined.

Lemma retention_keeps_reports_witness :
  SpendByTeamSince 0 demo_swept.2 = SpendByTeamSince 0 demo_tables ∧ SpendByTeamSince 0 demo_tables = Some {["acme"%string := 70]}.
Proof.
  split; [|vm_compute; reflexivity].
  apply (retention_keeps_reports (Retention.withDefaults demo_retention) (3 * day) LockGot (λ _, DbAnswers) demo_tables 0);
    [apply demo_rows_ok|reflexivity].
Defined.
