(* ===== verification/Token.v ===== *)
(** * Signed values: identity/token.go, the sealing of handlers.go and csrf.go

    One secret signs three kinds of cookie: the access token, the state of a
    sign-in in progress and the CSRF token.  [crypto/hmac] over SHA-256 is
    executable (RFC 2104); nothing is proved of its strength.  A time is its
    nanoseconds from the Unix epoch; randomness is the bytes that were read, or
    [None] when reading them failed. *)

From Stdlib Require Import Ascii.
From S2P Require Import Prelude Text Base64 Json Sha256 Decode.

(** ** crypto/hmac *)

Fixpoint xor_pad (n : nat) (pad : Z) (key : string) : string :=
  match n with
  | O => EmptyString
  | S n' =>
      match key with
      | EmptyString => String (chr pad) (xor_pad n' pad EmptyString)
      | String c key' => String (chr (Z.lxor (byte c) pad)) (xor_pad n' pad key')
      end
  end.

Definition hmac (secret m : string) : string :=
  let key := if (64 <? String.length secret)%nat then sha256 secret else secret in
  sha256 (xor_pad 64 92 key ++ sha256 (xor_pad 64 54 key ++ m)).

Example hmac_rfc4231 :
  hex_encode (hmac "Jefe" "what do ya want for nothing?") = "5bdcc146bf60754e6a042426089575c75a003f089d2739839dec58b964ec3843"%string.
Proof. vm_compute. reflexivity. Qed.

(** ** token.go *)

Definition headerSegment : string :=
  EncodeToString ("{" ++ quote ++ "alg" ++ quote ++ ":" ++ quote ++ "HS256" ++ quote ++ "," ++
                  quote ++ "typ" ++ quote ++ ":" ++ quote ++ "JWT" ++ quote ++ "}").

Record Claims := {
  cm_UserID : string; cm_OrgID : string; cm_Superadmin : bool; cm_SessionID : string; cm_IssuedAt : Z; cm_ExpiresAt : Z
}.

Definition no_claims : Claims :=
  {| cm_UserID := ""; cm_OrgID := ""; cm_Superadmin := false; cm_SessionID := ""; cm_IssuedAt := 0; cm_ExpiresAt := 0 |}.

Definition claims_json (c : Claims) : json :=
  JObj [("sub", JStr (cm_UserID c)); ("org", JStr (cm_OrgID c)); ("sa", JBool (cm_Superadmin c));
        ("sid", JStr (cm_SessionID c)); ("iat", JInt (cm_IssuedAt c)); ("exp", JInt (cm_ExpiresAt c))]%string.

(** [json.Unmarshal]: an unknown field is passed over. *)
Definition set_claim (k : string) (v : json) (c : Claims) : option Claims :=
  let '(Build_Claims u o sa sid iat exp) := c in
  if same_field "sub" k then (λ x, Build_Claims x o sa sid iat exp) <$> into_string u v
  else if same_field "org" k then (λ x, Build_Claims u x sa sid iat exp) <$> into_string o v
  else if same_field "sa" k then (λ x, Build_Claims u o x sid iat exp) <$> into_bool sa v
  else if same_field "sid" k then (λ x, Build_Claims u o sa x iat exp) <$> into_string sid v
  else if same_field "iat" k then (λ x, Build_Claims u o sa sid x exp) <$> into_int iat v
  else if same_field "exp" k then (λ x, Build_Claims u o sa sid iat x) <$> into_int exp v
  else Some c.

Definition decode_claims (payload : string) : option Claims :=
  match parse payload with Some v => into_struct set_claim no_claims v | None => None end.

(** [time.Unix(sec, 0)]: seconds are counted from year one in 64 bits. *)
Definition unix_time (sec : Z) : Z := (wrap64 (sec + 62135596800) - 62135596800) * second.

Inductive token_error := ErrTokenInvalid | ErrTokenExpired.

Section signed.
Context (secret : string).

(** [signer.sign] and [Handlers.sign] *)
Definition sign (body : string) : string := hmac secret body.

Definition dot (a b : string) : string := a ++ String "." b.

(** The body and its signature, as every signed cookie ends. *)
Definition stamped (body : string) : string := dot body (EncodeToString (sign body)).

Definition token_body (c : Claims) : string := dot headerSegment (EncodeToString (marshal (claims_json c))).

Definition mint (c : Claims) : string := stamped (token_body c).

Definition verify (token : string) (now : Z) : result token_error Claims :=
  match CutLast "." token with
  | None => Err ErrTokenInvalid
  | Some (body, sig) =>
      if bool_decide (DecodeString sig = Some (sign body)) then
        match Cut "." body with
        | None => Err ErrTokenInvalid
        | Some (_, encoded) =>
            match DecodeString encoded with
            | None => Err ErrTokenInvalid
            | Some payload =>
                match decode_claims payload with
                | None => Err ErrTokenInvalid
                | Some c =>
                    if bool_decide (cm_UserID c = ""%string) || bool_decide (cm_OrgID c = ""%string) then Err ErrTokenInvalid
                    else if (cm_ExpiresAt c <=? 0) || (unix_time (cm_ExpiresAt c) <? now) then Err ErrTokenExpired
                    else Ok c
                end
            end
        end
      else Err ErrTokenInvalid
  end.

(** ** handlers.go: the state of a sign-in in progress *)

Definition seal (state verifier : string) : string := stamped (dot state verifier).

Definition open (value : string) : option (string * string) :=
  match CutLast "." value with
  | None => None
  | Some (payload, sig) =>
      if bool_decide (DecodeString sig = Some (sign payload)) then
        match Cut "." payload with
        | Some (state, verifier) =>
            if bool_decide (state = ""%string) || bool_decide (verifier = ""%string) then None else Some (state, verifier)
        | None => None
        end
      else None
  end.

(** ** csrf.go *)

Definition newCSRFToken (rand : option string) : option string :=
  stamped ∘ EncodeToString <$> rand.

Definition validCSRFToken (v : string) : bool :=
  match Cut "." v with
  | Some (nonce, sig) => negb (bool_decide (nonce = ""%string)) && bool_decide (DecodeString sig = Some (sign nonce))
  | None => false
  end.

(** ** Facts *)

(** The strings of a token are UTF-8, as those of its user row are, and its
    times are 64-bit integers. *)
Record claims_ok (c : Claims) : Prop := {
  co_user : valid_utf8 (cm_UserID c) = true;
  co_org : valid_utf8 (cm_OrgID c) = true;
  co_session : valid_utf8 (cm_SessionID c) = true;
  co_issued : in_int64 (cm_IssuedAt c);
  co_expires : in_int64 (cm_ExpiresAt c)
}.

Lemma decode_claims_marshal c : claims_ok c → decode_claims (marshal (claims_json c)) = Some c.
Proof.
  intros [Hu Ho Hs Hi He]. unfold decode_claims. rewrite parse_marshal.
  - destruct c as [u o sa sid iat exp]. cbn [cm_UserID cm_OrgID cm_SessionID cm_IssuedAt cm_ExpiresAt cm_Superadmin] in *.
    unfold claims_json, no_claims. cbn [into_struct into_fields cm_UserID cm_OrgID cm_Superadmin cm_SessionID cm_IssuedAt cm_ExpiresAt].
    repeat first
      [ rewrite into_int_JInt by done
      | match goal with |- context [same_field ?a ?b] =>
          let x := eval vm_compute in (same_field a b) in change (same_field a b) with x end
      | progress cbn [set_claim into_string into_bool fmap option_fmap option_map into_fields] ].
    done.
  - unfold json_ok, claims_json. apply json_all_obj. rewrite !Forall_cons, Forall_nil. split_and!; try done;
    [by exists (cm_IssuedAt c)|by exists (cm_ExpiresAt c)].
  - apply shallow. vm_compute. lia.
Qed.

Lemma dot_free a : free "." (EncodeToString a) = true.
Proof. by apply EncodeToString_free. Qed.

Lemma open_stamped body : CutLast "." (stamped body) = Some (body, EncodeToString (sign body)).
Proof. apply CutLast_app, dot_free. Qed.

Lemma stamped_signed body :
  bool_decide (DecodeString (EncodeToString (sign body)) = Some (sign body)) = true.
Proof. apply bool_decide_eq_true_2, base64_round_trip. Qed.

Lemma cut_token_body c : Cut "." (token_body c) = Some (headerSegment, EncodeToString (marshal (claims_json c))).
Proof. apply Cut_app, dot_free. Qed.

(** What [verify] accepts. *)
Lemma verify_inv token now c :
  verify token now = Ok c →
  ∃ body sig head encoded payload,
    CutLast "." token = Some (body, sig) ∧ DecodeString sig = Some (sign body) ∧
    Cut "." body = Some (head, encoded) ∧ DecodeString encoded = Some payload ∧ decode_claims payload = Some c ∧
    cm_UserID c ≠ ""%string ∧ cm_OrgID c ≠ ""%string ∧ 0 < cm_ExpiresAt c ∧ now ≤ unix_time (cm_ExpiresAt c).
Proof.
  unfold verify. intros H. repeat (case_match; try done). simplify_eq.
  repeat match goal with
  | H : bool_decide _ = true |- _ => apply bool_decide_eq_true in H
  | H : _ || _ = false |- _ => apply orb_false_iff in H as [? ?]
  | H : bool_decide _ = false |- _ => apply bool_decide_eq_false in H
  | H : (_ <=? _) = false |- _ => apply Z.leb_gt in H
  | H : (_ <? _) = false |- _ => apply Z.ltb_ge in H
  end.
  by do 5 eexists.
Qed.

(** A minted token verifies as what was minted, until it expires. *)
Lemma verify_mint c now :
  claims_ok c → cm_UserID c ≠ ""%string → cm_OrgID c ≠ ""%string →
  verify (mint c) now =
  (if (cm_ExpiresAt c <=? 0) || (unix_time (cm_ExpiresAt c) <? now) then Err ErrTokenExpired else Ok c).
Proof.
  intros Hc Hu Ho. unfold verify, mint. rewrite open_stamped, stamped_signed, cut_token_body, base64_round_trip.
  rewrite decode_claims_marshal by done. by rewrite !bool_decide_eq_false_2 by done.
Qed.

Lemma open_inv value state verifier :
  open value = Some (state, verifier) →
  ∃ payload sig, CutLast "." value = Some (payload, sig) ∧ DecodeString sig = Some (sign payload) ∧
                 payload = dot state verifier ∧ state ≠ ""%string ∧ verifier ≠ ""%string.
Proof.
  unfold open. intros H. repeat (case_match; try done). simplify_eq.
  repeat match goal with
  | H : bool_decide _ = true |- _ => apply bool_decide_eq_true in H
  | H : _ || _ = false |- _ => apply orb_false_iff in H as [? ?]
  | H : bool_decide _ = false |- _ => apply bool_decide_eq_false in H
  | H : Cut _ _ = Some _ |- _ => apply Cut_inv in H as [? ?]
  end.
  by do 2 eexists.
Qed.

(** A sealed state opens as what was sealed. *)
Lemma open_seal state verifier :
  free "." state = true → state ≠ ""%string → verifier ≠ ""%string → open (seal state verifier) = Some (state, verifier).
Proof.
  intros Hf Hs Hv. unfold open, seal. rewrite open_stamped, stamped_signed. unfold dot.
  by rewrite Cut_app, !bool_decide_eq_false_2 by done.
Qed.

(** A CSRF token is valid as issued. *)
Lemma valid_newCSRFToken rand v : newCSRFToken (Some rand) = Some v → rand ≠ ""%string → validCSRFToken v = true.
Proof.
  intros [= <-] Hr. unfold validCSRFToken, compose, stamped, dot. rewrite Cut_app by apply dot_free.
  rewrite stamped_signed, bool_decide_eq_false_2; [done|]. by intros H%EncodeToString_nil.
Qed.

(** The three kinds of body share the key and are told apart by their shape
    alone: a CSRF token holds one separator and is neither of the others. *)
Lemma csrf_is_no_token rand v now : newCSRFToken (Some rand) = Some v → verify v now = Err ErrTokenInvalid ∧ open v = None.
Proof.
  intros [= <-]. unfold verify, open, compose. rewrite open_stamped, stamped_signed.
  by rewrite Cut_None by apply dot_free.
Qed.

(** An access token, though, opens as the state of a sign-in. *)
Lemma token_opens_as_state c : open (mint c) = Some (headerSegment, EncodeToString (marshal (claims_json c))).
Proof.
  unfold open, mint. rewrite open_stamped, stamped_signed, cut_token_body.
  rewrite !bool_decide_eq_false_2; [done| |by vm_compute].
  by intros H%EncodeToString_nil.
Qed.

End signed.
