(* ===== verification/OAuth.v ===== *)
(** * internal/oauth: signing in with Google

    The authorize URL, PKCE, the code exchange and the profile read from the ID
    token.  The network is an operation of the configuration: it gets the form
    and answers with a status and a body, or fails. *)

From Stdlib Require Import Ascii.
From S2P Require Import Prelude Text Base64 Json Sha256 Decode Token.

(** ** net/url *)

Definition upper_hex (d : Z) : ascii := chr (if d <? 10 then 48 + d else 55 + d).

Definition unreserved (b : Z) : bool :=
  ((65 <=? b) && (b <=? 90)) || ((97 <=? b) && (b <=? 122)) || ((48 <=? b) && (b <=? 57)) ||
  (b =? 45) || (b =? 95) || (b =? 46) || (b =? 126).

Fixpoint QueryEscape (s : string) : string :=
  match s with
  | EmptyString => EmptyString
  | String c s' =>
      let b := byte c in
      if unreserved b then String c (QueryEscape s')
      else if b =? 32 then String "+" (QueryEscape s')
      else String "%" (String (upper_hex (b / 16)) (String (upper_hex (b mod 16)) (QueryEscape s')))
  end.

(** [url.Values.Encode]: one value to a key, the keys sorted. *)
Definition encode_values (kvs : list (string * string)) : string :=
  Join (map (λ kv, QueryEscape kv.1 ++ "=" ++ QueryEscape kv.2)%string kvs) "&".

(** ** google.go *)

Definition authEndpoint : string := "https://accounts.google.com/o/oauth2/v2/auth".
Definition tokenEndpoint : string := "https://oauth2.googleapis.com/token".
Definition scopes : string := "openid email profile".
Definition maxTokenBody : Z := 1048576.
Definition validIssuers : list string := ["accounts.google.com"; "https://accounts.google.com"]%string.

(** A body that could not be read to its end is [None]. *)
Record token_reply := { tr_status : Z; tr_body : option string }.

Record OAuthConfig := {
  oc_ClientID : string; oc_ClientSecret : string; oc_RedirectURL : string;
  oc_HTTPClient : string → string → option token_reply;
  oc_authEndpoint : string; oc_tokenEndpoint : string
}.

Record Profile := { pf_Sub : string; pf_Email : string; pf_EmailVerified : bool; pf_Name : string; pf_Picture : string }.

Definition authURL (c : OAuthConfig) : string :=
  if bool_decide (oc_authEndpoint c = ""%string) then authEndpoint else oc_authEndpoint c.
Definition tokenURL (c : OAuthConfig) : string :=
  if bool_decide (oc_tokenEndpoint c = ""%string) then tokenEndpoint else oc_tokenEndpoint c.

Definition randomToken (rand : option string) : option string := EncodeToString <$> rand.
Definition challenge (verifier : string) : string := EncodeToString (sha256 verifier).

Definition AuthURL (c : OAuthConfig) (state verifier : string) : string :=
  authURL c ++ "?" ++ encode_values
    [("client_id", oc_ClientID c); ("code_challenge", challenge verifier); ("code_challenge_method", "S256");
     ("redirect_uri", oc_RedirectURL c); ("response_type", "code"); ("scope", scopes); ("state", state)]%string.

Inductive id_token_error :=
| NotThreeSegments | PayloadNotBase64 | PayloadNotJSON | WrongIssuer | WrongAudience | WrongParty | IDExpired | MissingSubOrEmail.
Inductive oauth_error :=
| TokenCallFailed | TokenBodyUnread | TokenUndecodable | TokenRefused | NoIDToken
| ErrInvalidIDToken (why : id_token_error) | ErrEmailNotVerified.

Record claims := {
  ic_Iss : string; ic_Aud : string; ic_Azp : string; ic_Sub : string; ic_Exp : Z;
  ic_Email : string; ic_EmailVerified : bool; ic_Name : string; ic_Picture : string
}.

Definition set_id_claim (k : string) (v : json) (c : claims) : option claims :=
  let '(Build_claims iss aud azp sub exp email ver name pic) := c in
  if same_field "iss" k then (λ x, Build_claims x aud azp sub exp email ver name pic) <$> into_string iss v
  else if same_field "aud" k then (λ x, Build_claims iss x azp sub exp email ver name pic) <$> into_string aud v
  else if same_field "azp" k then (λ x, Build_claims iss aud x sub exp email ver name pic) <$> into_string azp v
  else if same_field "sub" k then (λ x, Build_claims iss aud azp x exp email ver name pic) <$> into_string sub v
  else if same_field "exp" k then (λ x, Build_claims iss aud azp sub x email ver name pic) <$> into_int exp v
  else if same_field "email" k then (λ x, Build_claims iss aud azp sub exp x ver name pic) <$> into_string email v
  else if same_field "email_verified" k then (λ x, Build_claims iss aud azp sub exp email x name pic) <$> into_bool ver v
  else if same_field "name" k then (λ x, Build_claims iss aud azp sub exp email ver x pic) <$> into_string name v
  else if same_field "picture" k then (λ x, Build_claims iss aud azp sub exp email ver name x) <$> into_string pic v
  else Some c.

Definition decode_id_claims (payload : string) : option claims :=
  match parse payload with Some v => into_struct set_id_claim (Build_claims "" "" "" "" 0 "" false "" "") v | None => None end.

Definition profileFromIDToken (c : OAuthConfig) (idToken : string) (now : Z) : result oauth_error Profile :=
  match Split "." idToken with
  | [_; encoded; _] =>
      match DecodeString encoded with
      | None => Err (ErrInvalidIDToken PayloadNotBase64)
      | Some payload =>
          match decode_id_claims payload with
          | None => Err (ErrInvalidIDToken PayloadNotJSON)
          | Some cl =>
              if negb (bool_decide (ic_Iss cl ∈ validIssuers)) then Err (ErrInvalidIDToken WrongIssuer)
              else if negb (bool_decide (ic_Aud cl = oc_ClientID c)) then Err (ErrInvalidIDToken WrongAudience)
              else if negb (bool_decide (ic_Azp cl = ""%string)) && negb (bool_decide (ic_Azp cl = oc_ClientID c))
              then Err (ErrInvalidIDToken WrongParty)
              else if (ic_Exp cl <=? 0) || (unix_time (ic_Exp cl) <? now) then Err (ErrInvalidIDToken IDExpired)
              else if bool_decide (ic_Sub cl = ""%string) || bool_decide (ic_Email cl = ""%string)
              then Err (ErrInvalidIDToken MissingSubOrEmail)
              else if negb (ic_EmailVerified cl) then Err ErrEmailNotVerified
              else Ok {| pf_Sub := ic_Sub cl; pf_Email := ic_Email cl; pf_EmailVerified := true;
                         pf_Name := ic_Name cl; pf_Picture := ic_Picture cl |}
          end
      end
  | _ => Err (ErrInvalidIDToken NotThreeSegments)
  end.

Definition token_form (c : OAuthConfig) (code verifier : string) : string :=
  encode_values
    [("client_id", oc_ClientID c); ("client_secret", oc_ClientSecret c); ("code", code); ("code_verifier", verifier);
     ("grant_type", "authorization_code"); ("redirect_uri", oc_RedirectURL c)]%string.

(** [id_token] and [error] *)
Definition set_token_field (k : string) (v : json) (t : string * string) : option (string * string) :=
  if same_field "id_token" k then (λ x, (x, t.2)) <$> into_string t.1 v
  else if same_field "error" k then (λ x, (t.1, x)) <$> into_string t.2 v
  else Some t.

Definition Exchange (c : OAuthConfig) (code verifier : string) (now : Z) : result oauth_error Profile :=
  match oc_HTTPClient c (tokenURL c) (token_form c code verifier) with
  | None => Err TokenCallFailed
  | Some resp =>
      match tr_body resp with
      | None => Err TokenBodyUnread
      | Some body =>
          match parse (first_bytes maxTokenBody body) ≫= into_struct set_token_field (""%string, ""%string) with
          | None => Err TokenUndecodable
          | Some (idToken, error) =>
              if negb (tr_status resp =? 200) || negb (bool_decide (error = ""%string)) then Err TokenRefused
              else if bool_decide (idToken = ""%string) then Err NoIDToken
              else profileFromIDToken c idToken now
          end
      end
  end.

(** ** What a profile means *)

(** The claims of an ID token that Google issued to this client, that has not
    expired and whose address Google has verified. *)
Record vouched (clientID : string) (now : Z) (cl : claims) : Prop := {
  vc_issuer : ic_Iss cl ∈ validIssuers;
  vc_audience : ic_Aud cl = clientID;
  vc_party : ic_Azp cl = ""%string ∨ ic_Azp cl = clientID;
  vc_live : 0 < ic_Exp cl ∧ now ≤ unix_time (ic_Exp cl);
  vc_subject : ic_Sub cl ≠ ""%string;
  vc_email : ic_Email cl ≠ ""%string;
  vc_verified : ic_EmailVerified cl = true
}.

Lemma profile_vouched c idToken now p :
  profileFromIDToken c idToken now = Ok p →
  ∃ head encoded sig payload cl,
    Split "." idToken = [head; encoded; sig] ∧ DecodeString encoded = Some payload ∧ decode_id_claims payload = Some cl ∧
    vouched (oc_ClientID c) now cl ∧ pf_Sub p = ic_Sub cl ∧ pf_Email p = ic_Email cl ∧ pf_EmailVerified p = true.
Proof.
  unfold profileFromIDToken. intros H. repeat (case_match; try done). simplify_eq.
  repeat match goal with
  | H : negb _ = false |- _ => apply negb_false_iff in H
  | H : negb _ && negb _ = false |- _ => rewrite <- negb_orb in H
  | H : _ || _ = false |- _ => apply orb_false_iff in H as [? ?]
  | H : _ || _ = true |- _ => apply orb_true_iff in H
  | H : bool_decide _ = true |- _ => apply bool_decide_eq_true in H
  | H : bool_decide _ = false |- _ => apply bool_decide_eq_false in H
  | H : (_ <=? _) = false |- _ => apply Z.leb_gt in H
  | H : (_ <? _) = false |- _ => apply Z.ltb_ge in H
  end.
  do 5 eexists. split_and!; try done. split; try done.
  match goal with H : _ ∨ _ |- _ => destruct H as [H|H]; apply bool_decide_eq_true in H; auto end.
Qed.

Lemma Exchange_vouched c code verifier now p :
  Exchange c code verifier now = Ok p →
  ∃ cl, vouched (oc_ClientID c) now cl ∧ pf_Sub p = ic_Sub cl ∧ pf_Email p = ic_Email cl ∧ pf_EmailVerified p = true.
Proof.
  unfold Exchange. intros H. repeat (case_match; try done).
  apply profile_vouched in H as (? & ? & ? & ? & cl & _ & _ & _ & H). by exists cl.
Qed.

(** An escaped value cannot close its parameter or open another. *)
Lemma QueryEscape_free s : free "&" (QueryEscape s) = true ∧ free "=" (QueryEscape s) = true.
Proof.
  assert (∀ d, 0 ≤ d < 16 → upper_hex d ≠ "&"%char ∧ upper_hex d ≠ "="%char) as Hd.
  { intros d Hd. unfold upper_hex. split; intros H; apply (f_equal byte) in H; rewrite byte_chr in H by (destruct (d <? 10); lia);
      [change (byte "&") with 38 in H|change (byte "=") with 61 in H]; destruct (Z.ltb_spec d 10); lia. }
  induction s as [|c s [IH1 IH2]]; [done|]. cbn [QueryEscape]. pose proof (byte_range c) as Hb.
  destruct (unreserved (byte c)) eqn:Hu; [|destruct (byte c =? 32)]; cbn [free].
  - rewrite IH1, IH2, !bool_decide_eq_false_2; [done| |]; intros ->; by vm_compute in Hu.
  - by rewrite IH1, IH2.
  - destruct (Hd (byte c / 16)) as [H1 H2]; [Z.to_euclidean_division_equations; lia|].
    destruct (Hd (byte c mod 16)) as [H3 H4]; [Z.to_euclidean_division_equations; lia|].
    by rewrite IH1, IH2, !(bool_decide_eq_false_2 _ H1), !(bool_decide_eq_false_2 _ H2), (bool_decide_eq_false_2 _ H3), (bool_decide_eq_false_2 _ H4).
Qed.
