(* ===== verification/IdentityStore.v ===== *)
(** * identity/store.go, session.go and user.go: users, organisations, sessions

    The tables of migrations/0009_identity.sql as finite maps with their
    constraints; [email_verified_at] and [password_hash] are not read by
    anything and left out.  A transaction takes effect whole or not at all, and
    the reply to its commit may be lost; [now] is the database's [now()], fixed
    at its start.  Randomness is the bytes read, or [None].  Unicode's lower case
    (Go's and the database's) and the database's intervals are parameters. *)

From Stdlib Require Import Ascii.
From S2P Require Import Prelude Text Base64 Json Float32 Sha256 Decode Duration OAuth.

(** ** The tables *)

(** A null [google_sub] or owner is the empty string, as the columns are read. *)
Record User := {
  u_ID : string; u_OrganizationID : string; u_Email : string; u_Name : string; u_AvatarURL : string;
  u_GoogleSub : string; u_IsSuperadmin : bool; u_CreatedAt : Z; u_LastLoginAt : Z }.

Record Organization := { o_Name : string; o_OwnerUserID : string }.

Record session_row := {
  s_UserID : string; s_Hash : string; s_IssuedAt : Z; s_ExpiresAt : Z;
  s_RevokedAt : option Z; s_RotatedTo : option string; s_UserAgent : string; s_IP : string }.

(** An entry of [audit_log]: filed against no organisation, as a superadmin's. *)
Record bootstrap_entry := { be_ID : string; be_TS : Z; be_Actor : string; be_Action : string; be_Before : json; be_After : json }.

Record id_tables := {
  it_users : gmap string User; it_orgs : gmap string Organization;
  it_sessions : gmap string session_row; it_audit : list bootstrap_entry }.

Definition with_users f (t : id_tables) : id_tables := Build_id_tables (f (it_users t)) (it_orgs t) (it_sessions t) (it_audit t).
Definition with_orgs f (t : id_tables) : id_tables := Build_id_tables (it_users t) (f (it_orgs t)) (it_sessions t) (it_audit t).
Definition with_sessions f (t : id_tables) : id_tables := Build_id_tables (it_users t) (it_orgs t) (f (it_sessions t)) (it_audit t).
Definition with_audit f (t : id_tables) : id_tables := Build_id_tables (it_users t) (it_orgs t) (it_sessions t) (f (it_audit t)).

(** What a text column of a UTF-8 database takes. *)
Definition pg_text (s : string) : bool := valid_utf8 s && free (chr 0) s.

(** What becomes of a transaction: it commits and answers, some step of it fails
    and it is rolled back, or it commits and the answer is lost. *)
Inductive tx_fate := TxCommits | TxFails | TxReplyLost.

Inductive identity_error :=
| UnverifiedProfile | ErrEmailTaken | ErrNoSession | ErrSessionExpired | ErrTokenReused | RandFailed | DbFailed.

Definition transact {A} (fate : tx_fate) (body : id_tables → result identity_error (A * id_tables)) (t : id_tables)
  : result identity_error A * id_tables :=
  match fate, body t with
  | TxFails, _ => (Err DbFailed, t)
  | _, Err e => (Err e, t)
  | TxCommits, Ok (a, t') => (Ok a, t')
  | TxReplyLost, Ok (_, t') => (Err DbFailed, t')
  end.

(** ** Ids and strings *)

Definition newID (prefix : string) (rand : option string) : option string :=
  (λ b, prefix ++ hex_encode b)%string <$> rand.

Definition newRefreshToken (rand : option string) : option string := EncodeToString <$> rand.

Definition hashToken (raw : string) : string := hex_encode (sha256 raw).

Definition truncate (s : string) (n : nat) : string := if (n <? String.length s)%nat then String.substring 0 n s else s.

(** [d.Seconds()] *)
Definition Seconds (d : Z) : float64 :=
  f64_add (f64_of_Z (Z.quot d second)) (f64_div (f64_of_Z (Z.rem d second)) (f64_of_Z second)).

Definition orgNameFor (name email : string) : string :=
  if negb (bool_decide (trim_space name = ""%string)) then trim_space name
  else match Cut "@" email with
       | Some (local, _) => if bool_decide (local = ""%string) then "Personal" else local
       | None => "Personal"
       end.

Section store.
Context (ToLower pg_lower : string → string) (make_interval : float64 → Z).

Definition normalizeEmail (email : string) : string := ToLower (trim_space email).

Record IdStore := { is_superadminEmail : string; is_defaultOrgID : string; is_defaultOrgName : string }.

Definition NewIdStore (superadminEmail defaultOrgID defaultOrgName : string) : IdStore :=
  {| is_superadminEmail := normalizeEmail superadminEmail; is_defaultOrgID := defaultOrgID; is_defaultOrgName := defaultOrgName |}.

(** ** Sign-in *)

Definition user_where (f : User → bool) (users : gmap string User) : option User :=
  snd <$> head (map_to_list (filter (λ kv : string * User, f kv.2 = true) users)).

Definition has_sub (sub : string) (u : User) : bool := bool_decide (u_GoogleSub u = sub).
Definition has_email (email : string) (u : User) : bool := bool_decide (u_Email u = email).

(** The statement's [RETURNING] row. *)
Definition signed_in (now : Z) (p : Profile) (u : User) : User :=
  {| u_ID := u_ID u; u_OrganizationID := u_OrganizationID u; u_Email := u_Email u; u_Name := pf_Name p;
     u_AvatarURL := pf_Picture p; u_GoogleSub := u_GoogleSub u; u_IsSuperadmin := u_IsSuperadmin u;
     u_CreatedAt := u_CreatedAt u; u_LastLoginAt := now |}.

(** [Ok None] is [pgx.ErrNoRows]. *)
Definition signInExisting (now : Z) (p : Profile) (t : id_tables) : result identity_error (option (User * id_tables)) :=
  match user_where (has_sub (pf_Sub p)) (it_users t) with
  | None => Ok None
  | Some u =>
      if pg_text (pf_Name p) && pg_text (pf_Picture p)
      then let u' := signed_in now p u in Ok (Some (u', with_users <[u_ID u := u']> t))
      else Err DbFailed
  end.

(** [INSERT INTO users]: the primary key, the unique email and subject, the
    checks; the organisation is there, its insert has just run. *)
Definition insert_user (u : User) (t : id_tables) : option id_tables :=
  if bool_decide (it_users t !! u_ID u = None) && bool_decide (is_Some (it_orgs t !! u_OrganizationID u)) &&
     negb (bool_decide (u_Email u = ""%string)) && bool_decide (u_Email u = pg_lower (u_Email u)) &&
     bool_decide (user_where (has_email (u_Email u)) (it_users t) = None) &&
     bool_decide (user_where (has_sub (u_GoogleSub u)) (it_users t) = None) &&
     pg_text (u_Email u) && pg_text (u_Name u) && pg_text (u_AvatarURL u) && pg_text (u_GoogleSub u)
  then Some (with_users <[u_ID u := u]> t)
  else None.

(** [ON CONFLICT (id) DO NOTHING] *)
Definition insert_org (id name : string) (t : id_tables) : id_tables :=
  match it_orgs t !! id with
  | Some _ => t
  | None => with_orgs <[id := {| o_Name := name; o_OwnerUserID := "" |}]> t
  end.

(** [UPDATE organizations SET owner_user_id = $2 WHERE id = $1 AND owner_user_id IS NULL] *)
Definition set_owner (id userID : string) (t : id_tables) : id_tables :=
  match it_orgs t !! id with
  | Some o => if bool_decide (o_OwnerUserID o = ""%string)
              then with_orgs <[id := {| o_Name := o_Name o; o_OwnerUserID := userID |}]> t else t
  | None => t
  end.

(** The bytes a sign-in draws, in the order it draws them. *)
Record draws := { dr_user : option string; dr_org : option string; dr_grant : option string; dr_owner : option string }.

Definition is_bootstrap (s : IdStore) (email : string) : bool :=
  negb (bool_decide (is_superadminEmail s = ""%string)) && bool_decide (email = is_superadminEmail s).

Definition create (s : IdStore) (rnd : draws) (now : Z) (p : Profile) (email : string) (t : id_tables)
  : result identity_error (User * id_tables) :=
  match newID "usr_" (dr_user rnd) with
  | None => Err RandFailed
  | Some userID =>
      let superadmin := is_bootstrap s email in
      let org := if superadmin then Some (is_defaultOrgID s, is_defaultOrgName s)
                 else (λ id, (id, orgNameFor (pf_Name p) email)) <$> newID "org_" (dr_org rnd) in
      match org with
      | None => Err RandFailed
      | Some (orgID, orgName) =>
          if negb (pg_text orgName) then Err DbFailed
          else
            let t := insert_org orgID orgName t in
            let u := {| u_ID := userID; u_OrganizationID := orgID; u_Email := email; u_Name := pf_Name p;
                        u_AvatarURL := pf_Picture p; u_GoogleSub := pf_Sub p; u_IsSuperadmin := false;
                        u_CreatedAt := now; u_LastLoginAt := now |} in
            match insert_user u t with
            | None => Err DbFailed
            | Some t => Ok (u, if superadmin then t else set_owner orgID userID t)
            end
      end
  end.

Definition bootstrapReason : string := "bootstrap: email matched SWITCHYARD_SUPERADMIN_EMAIL".

(** The maps are marshalled with their keys sorted; the id is a primary key. *)
Definition audit (rand : option string) (now : Z) (actor action : string) (before after : json) (t : id_tables)
  : result identity_error id_tables :=
  match newID "" rand with
  | None => Err RandFailed
  | Some id =>
      if existsb (λ e, bool_decide (be_ID e = id)) (it_audit t) then Err DbFailed
      else Ok (with_audit (cons {| be_ID := id; be_TS := now; be_Actor := actor; be_Action := action;
                                   be_Before := before; be_After := after |}) t)
  end.

Definition as_superadmin (u : User) : User :=
  {| u_ID := u_ID u; u_OrganizationID := u_OrganizationID u; u_Email := u_Email u; u_Name := u_Name u;
     u_AvatarURL := u_AvatarURL u; u_GoogleSub := u_GoogleSub u; u_IsSuperadmin := true;
     u_CreatedAt := u_CreatedAt u; u_LastLoginAt := u_LastLoginAt u |}.

Definition grant (rnd : draws) (now : Z) (u : User) (t : id_tables) : result identity_error (User * id_tables) :=
  if u_IsSuperadmin u then Ok (u, t)
  else match audit (dr_grant rnd) now (u_ID u) "user.superadmin.grant"
               (JObj [("is_superadmin", JBool false)]%string)
               (JObj [("is_superadmin", JBool true); ("reason", JStr bootstrapReason)]%string) t with
       | Err e => Err e
       | Ok t => Ok (as_superadmin u, with_users (alter as_superadmin (u_ID u)) t)
       end.

Definition claim_default_org (s : IdStore) (rnd : draws) (now : Z) (u : User) (t : id_tables)
  : result identity_error (User * id_tables) :=
  match it_orgs t !! is_defaultOrgID s with
  | None => Ok (u, t)
  | Some o =>
      if negb (bool_decide (o_OwnerUserID o = ""%string)) then Ok (u, t)
      else match audit (dr_owner rnd) now (u_ID u) "organization.owner.set"
                   (JObj [("organization_id", JStr (is_defaultOrgID s)); ("owner_user_id", JNull)]%string)
                   (JObj [("organization_id", JStr (is_defaultOrgID s)); ("owner_user_id", JStr (u_ID u));
                          ("reason", JStr bootstrapReason)]%string) t with
           | Err e => Err e
           | Ok t => Ok (u, set_owner (is_defaultOrgID s) (u_ID u) t)
           end
  end.

Definition applyBootstrap (s : IdStore) (rnd : draws) (now : Z) (u : User) (t : id_tables)
  : result identity_error (User * id_tables) :=
  if is_bootstrap s (u_Email u) then
    match grant rnd now u t with
    | Err e => Err e
    | Ok (u, t) => claim_default_org s rnd now u t
    end
  else Ok (u, t).

Definition sign_in_body (s : IdStore) (rnd : draws) (now : Z) (p : Profile) (t : id_tables)
  : result identity_error (User * bool * id_tables) :=
  match signInExisting now p t with
  | Err e => Err e
  | Ok (Some (u, t)) =>
      match applyBootstrap s rnd now u t with Ok (u, t) => Ok (u, false, t) | Err e => Err e end
  | Ok None =>
      let email := normalizeEmail (pf_Email p) in
      match user_where (has_email email) (it_users t) with
      | Some _ => Err ErrEmailTaken
      | None =>
          match create s rnd now p email t with
          | Err e => Err e
          | Ok (u, t) => match applyBootstrap s rnd now u t with Ok (u, t) => Ok (u, true, t) | Err e => Err e end
          end
      end
  end.

Definition FindOrCreateGoogleUser (s : IdStore) (fate : tx_fate) (rnd : draws) (now : Z) (p : Profile) (t : id_tables)
  : result identity_error (User * bool) * id_tables :=
  if bool_decide (pf_Sub p = ""%string) || negb (pf_EmailVerified p) then (Err UnverifiedProfile, t)
  else transact fate (sign_in_body s rnd now p) t.

(** A read that may fail. *)
Definition userByID (reached : bool) (id : string) (t : id_tables) : result identity_error User :=
  if reached then match it_users t !! id with Some u => Ok u | None => Err ErrNoSession end else Err DbFailed.

(** ** Sessions *)

Record Session := { se_ID : string; se_Raw : string }.

(** What a session is made from: the bytes of its id and token, the client, its
    lifetime. *)
Record issue_args := { ia_id : option string; ia_token : option string; ia_UserAgent : string; ia_IP : string; ia_ttl : Z }.

(** The primary key, the unique hash, the reference to the user; a SHA-256 in
    hex always passes the hash's check. *)
Definition insertSession (now : Z) (userID : string) (a : issue_args) (t : id_tables)
  : result identity_error (Session * id_tables) :=
  match newID "ses_" (ia_id a), newRefreshToken (ia_token a) with
  | Some id, Some raw =>
      let r := {| s_UserID := userID; s_Hash := hashToken raw; s_IssuedAt := now;
                  s_ExpiresAt := now + make_interval (Seconds (ia_ttl a)); s_RevokedAt := None; s_RotatedTo := None;
                  s_UserAgent := truncate (ia_UserAgent a) 512; s_IP := ia_IP a |} in
      if bool_decide (it_sessions t !! id = None) && bool_decide (is_Some (it_users t !! userID)) &&
         bool_decide (map_Forall (λ _ r', s_Hash r' ≠ s_Hash r) (it_sessions t)) &&
         pg_text (s_UserAgent r) && pg_text (s_IP r)
      then Ok ({| se_ID := id; se_Raw := raw |}, with_sessions <[id := r]> t)
      else Err DbFailed
  | _, _ => Err RandFailed
  end.

Definition CreateSession (fate : tx_fate) (now : Z) (userID : string) (a : issue_args) (t : id_tables)
  : result identity_error Session * id_tables :=
  transact fate (insertSession now userID a) t.

Definition find_session (hash : string) (rows : gmap string session_row) : option (string * session_row) :=
  head (map_to_list (filter (λ kv : string * session_row, bool_decide (s_Hash kv.2 = hash) = true) rows)).

Definition revoked (r : session_row) : bool := bool_decide (is_Some (s_RevokedAt r)).
Definition rotated (r : session_row) : bool := bool_decide (is_Some (s_RotatedTo r)).
Definition expired (now : Z) (r : session_row) : bool := s_ExpiresAt r <? now.

Definition revoke_at (now : Z) (r : session_row) : session_row :=
  {| s_UserID := s_UserID r; s_Hash := s_Hash r; s_IssuedAt := s_IssuedAt r; s_ExpiresAt := s_ExpiresAt r;
     s_RevokedAt := match s_RevokedAt r with Some x => Some x | None => Some now end; s_RotatedTo := s_RotatedTo r;
     s_UserAgent := s_UserAgent r; s_IP := s_IP r |}.

Definition rotate_to (now : Z) (next : string) (r : session_row) : session_row :=
  {| s_UserID := s_UserID r; s_Hash := s_Hash r; s_IssuedAt := s_IssuedAt r; s_ExpiresAt := s_ExpiresAt r;
     s_RevokedAt := Some now; s_RotatedTo := Some next; s_UserAgent := s_UserAgent r; s_IP := s_IP r |}.

(** The sessions that [UPDATE sessions SET revoked_at = now() WHERE user_id = $1
    AND revoked_at IS NULL] finds, and the update of those it found: a row that
    changed in between is looked at again. *)
Definition unrevoked_of (user : string) (rows : gmap string session_row) : gset string :=
  dom (filter (λ kv : string * session_row, s_UserID kv.2 = user ∧ revoked kv.2 = false) rows).

Definition revoke_found (now : Z) (ids : gset string) (rows : gmap string session_row) : gmap string session_row :=
  map_imap (λ id r, Some (if bool_decide (id ∈ ids) then revoke_at now r else r)) rows.

(** The exchange itself, after the row has been found, locked and judged. *)
Definition exchange_body (now : Z) (old : string) (user : string) (a : issue_args) (t : id_tables)
  : result identity_error (User * Session * id_tables) :=
  match insertSession now user a t with
  | Err e => Err e
  | Ok (next, t) =>
      let t := with_sessions (alter (rotate_to now (se_ID next)) old) t in
      match it_users t !! user with
      | Some u => Ok (u, next, t)
      | None => Err ErrNoSession
      end
  end.

Definition rotate_body (now : Z) (raw : string) (a : issue_args) (t : id_tables)
  : result identity_error (User * Session * id_tables + unit * id_tables) :=
  match find_session (hashToken raw) (it_sessions t) with
  | None => Err ErrNoSession
  | Some (old, r) =>
      if revoked r || rotated r
      then Ok (inr (tt, with_sessions (λ rows, revoke_found now (unrevoked_of (s_UserID r) rows) rows) t))
      else if expired now r then Err ErrSessionExpired
      else match exchange_body now old (s_UserID r) a t with Ok x => Ok (inl x) | Err e => Err e end
  end.

(** Detecting a replay commits the revocation and answers with an error. *)
Definition RotateSession (fate : tx_fate) (now : Z) (raw : string) (a : issue_args) (t : id_tables)
  : result identity_error (User * Session) * id_tables :=
  let '(x, t) := transact fate (λ t, match rotate_body now raw a t with
                                     | Ok (inl (u, next, t)) => Ok (Some (u, next), t)
                                     | Ok (inr (_, t)) => Ok (None, t)
                                     | Err e => Err e
                                     end) t in
  (match x with Ok (Some r) => Ok r | Ok None => Err ErrTokenReused | Err e => Err e end, t).

Definition RevokeSession (fate : tx_fate) (now : Z) (raw : string) (t : id_tables) : result identity_error unit * id_tables :=
  transact fate (λ t, Ok (tt, with_sessions (λ rows, match find_session (hashToken raw) rows with
                                                     | Some (id, _) => alter (revoke_at now) id rows
                                                     | None => rows
                                                     end) t)) t.

End store.
