(* ===== verification/Sessions.v ===== *)
(** * Refresh sessions under interleaving

    [RotateSession] is a transaction of several statements, and replicas and
    browser tabs run them at the same time.  Each step below is one of its
    statements under the database's default isolation: a locked row keeps other
    writers waiting, an update looks at the rows that were there when it began,
    and a row it had to wait for is looked at again.  A transaction's own writes
    show when it commits. *)

From S2P Require Import Prelude Text Json Float32 OAuth IdentityStore.

Section sessions.
Context (make_interval : float64 → Z).

(** An open transaction: it holds the lock of the row it selected, or is
    revoking the rows it found. *)
Inductive rotation :=
| Held (now : Z) (old : string) (r : session_row) (a : issue_args)
| Revoking (now : Z) (old user : string) (ids : gset string).

Definition locked_row (x : rotation) : string := match x with Held _ old _ _ | Revoking _ old _ _ => old end.

Inductive session_event := SignedIn (id user : string) | Exchanged (old id user : string) | Replayed (user : string).

Record sworld := { sw_tables : id_tables; sw_open : gmap nat rotation; sw_log : list session_event }.

Definition rows (w : sworld) : gmap string session_row := it_sessions (sw_tables w).
Definition open_tx (tx : nat) (x : rotation) (w : sworld) : sworld :=
  {| sw_tables := sw_tables w; sw_open := <[tx := x]> (sw_open w); sw_log := sw_log w |}.
Definition close_tx (tx : nat) (t : id_tables) (log : list session_event) (w : sworld) : sworld :=
  {| sw_tables := t; sw_open := delete tx (sw_open w); sw_log := log |}.

(** No other transaction than [tx] holds the row. *)
Definition unlocked (w : sworld) (tx : option nat) (id : string) : Prop :=
  ∀ tx' x, sw_open w !! tx' = Some x → Some tx' ≠ tx → locked_row x ≠ id.

Definition spent (r : session_row) : bool := revoked r || rotated r.

Inductive label := LSignIn | LSelect (tx : nat) | LExchange (tx : nat) | LUpdate (tx : nat) | LRevoke (tx : nat) | LAbort (tx : nat) | LLogout | LUsers.

Inductive session_step : label → sworld → sworld → Prop :=
| ss_sign_in w now user a sess t :
    insertSession make_interval now user a (sw_tables w) = Ok (sess, t) →
    session_step LSignIn w {| sw_tables := t; sw_open := sw_open w; sw_log := SignedIn (se_ID sess) user :: sw_log w |}
| ss_select w tx now raw a old r :
    sw_open w !! tx = None →
    find_session (hashToken raw) (rows w) = Some (old, r) →
    unlocked w None old →
    session_step (LSelect tx) w (open_tx tx (Held now old r a) w)
| ss_exchange w tx now old r a u next t :
    sw_open w !! tx = Some (Held now old r a) →
    spent r = false → expired now r = false →
    exchange_body make_interval now old (s_UserID r) a (sw_tables w) = Ok (u, next, t) →
    session_step (LExchange tx) w (close_tx tx t (Exchanged old (se_ID next) (s_UserID r) :: sw_log w) w)
| ss_update w tx now old r a :
    sw_open w !! tx = Some (Held now old r a) →
    spent r = true →
    session_step (LUpdate tx) w (open_tx tx (Revoking now old (s_UserID r) (unrevoked_of (s_UserID r) (rows w))) w)
| ss_revoke w tx now old user ids :
    sw_open w !! tx = Some (Revoking now old user ids) →
    (∀ id r, rows w !! id = Some r → id ∈ ids → revoked r = false → unlocked w (Some tx) id) →
    session_step (LRevoke tx) w
      (close_tx tx (with_sessions (revoke_found now ids) (sw_tables w)) (Replayed user :: sw_log w) w)
| ss_abort w tx :
    session_step (LAbort tx) w (close_tx tx (sw_tables w) (sw_log w) w)
| ss_logout w now raw old r :
    find_session (hashToken raw) (rows w) = Some (old, r) →
    unlocked w None old →
    session_step LLogout w
      {| sw_tables := with_sessions (alter (revoke_at now) old) (sw_tables w); sw_open := sw_open w; sw_log := sw_log w |}
| ss_users w t :
    it_sessions t = rows w →
    session_step LUsers w {| sw_tables := t; sw_open := sw_open w; sw_log := sw_log w |}.

Definition sstep (w w' : sworld) : Prop := ∃ l, session_step l w w'.

(** ** Rows *)

Lemma find_session_Some hash m id r : find_session hash m = Some (id, r) → m !! id = Some r ∧ s_Hash r = hash.
Proof.
  unfold find_session. intros H%head_Some_elem_of. apply elem_of_map_to_list in H.
  apply map_lookup_filter_Some in H as [H Hh]. simpl in Hh. by apply bool_decide_eq_true in Hh.
Qed.

Lemma revoke_found_lookup now ids m id :
  revoke_found now ids m !! id = (λ r, if bool_decide (id ∈ ids) then revoke_at now r else r) <$> m !! id.
Proof. unfold revoke_found. rewrite map_lookup_imap. by destruct (m !! id). Qed.

Lemma revoke_at_revoked now r : revoked (revoke_at now r) = true.
Proof. unfold revoked. apply bool_decide_eq_true_2. simpl. destruct (s_RevokedAt r); by eexists. Qed.

Lemma rotate_to_revoked now id r : revoked (rotate_to now id r) = true.
Proof. apply bool_decide_eq_true_2. by eexists. Qed.

Lemma rotate_to_rotated now id r : rotated (rotate_to now id r) = true.
Proof. apply bool_decide_eq_true_2. by eexists. Qed.

Lemma revoke_at_spent now r : revoked r = true → revoke_at now r = r.
Proof. intros [x Hx]%bool_decide_eq_true. destruct r; simpl in *. unfold revoke_at. simpl. by rewrite Hx. Qed.

Lemma elem_of_unrevoked user m id :
  id ∈ unrevoked_of user m ↔ ∃ r, m !! id = Some r ∧ s_UserID r = user ∧ revoked r = false.
Proof.
  unfold unrevoked_of. rewrite elem_of_dom. split.
  - intros [r [H [H1 H2]]%map_lookup_filter_Some]. by exists r.
  - intros (r & H & H1 & H2). exists r. by apply map_lookup_filter_Some.
Qed.

(** What may happen to a row: its identity stays, and what it was spent on. *)
Record row_ages (r r' : session_row) : Prop := {
  ra_user : s_UserID r' = s_UserID r;
  ra_hash : s_Hash r' = s_Hash r;
  ra_revoked : revoked r = true → revoked r' = true;
  ra_rotated x : s_RotatedTo r = Some x → s_RotatedTo r' = Some x
}.

Definition ages (m m' : gmap string session_row) : Prop :=
  ∀ id r, m !! id = Some r → ∃ r', m' !! id = Some r' ∧ row_ages r r'.

#[global] Instance row_ages_preorder : PreOrder row_ages.
Proof.
  split.
  - by intros r.
  - intros r1 r2 r3 [] []. split; [congruence|congruence|auto|auto].
Qed.

#[global] Instance ages_preorder : PreOrder ages.
Proof.
  split.
  - intros m id r H. exists r. split; [done|]. reflexivity.
  - intros m1 m2 m3 H12 H23 id r H1. destruct (H12 _ _ H1) as (r2 & H2 & A12). destruct (H23 _ _ H2) as (r3 & H3 & A23).
    exists r3. split; [done|]. by etrans.
Qed.

Lemma revoke_at_ages now r : row_ages r (revoke_at now r).
Proof. split; [done|done|intros _; apply revoke_at_revoked|done]. Qed.

Lemma ages_insert m id r : m !! id = None → ages m (<[id := r]> m).
Proof. intros Hn id' r' H. exists r'. rewrite lookup_insert_ne by congruence. by split. Qed.

Lemma ages_alter f m id : (∀ r, m !! id = Some r → row_ages r (f r)) → ages m (alter f id m).
Proof.
  intros Hf id' r H. destruct (decide (id = id')) as [->|Hne].
  - rewrite lookup_alter_eq, H. simpl. eexists. split; [done|]. by apply Hf.
  - rewrite lookup_alter_ne by done. exists r. by split.
Qed.

Lemma ages_revoke now ids m : ages m (revoke_found now ids m).
Proof.
  intros id r H. rewrite revoke_found_lookup, H. simpl. eexists. split; [done|].
  case_bool_decide; [apply revoke_at_ages|reflexivity].
Qed.

(** What an insert did. *)
Lemma insertSession_inv now user a t sess t' :
  insertSession make_interval now user a t = Ok (sess, t') →
  ∃ r, it_sessions t !! se_ID sess = None ∧ t' = with_sessions <[se_ID sess := r]> t ∧
       s_UserID r = user ∧ s_Hash r = hashToken (se_Raw sess) ∧ s_RevokedAt r = None ∧ s_RotatedTo r = None ∧
       map_Forall (λ _ r', s_Hash r' ≠ s_Hash r) (it_sessions t) ∧ is_Some (it_users t !! user) ∧
       s_ExpiresAt r = now + make_interval (Seconds (ia_ttl a)).
Proof.
  unfold insertSession. destruct (newID _ _) as [id|]; [|done]. destruct (newRefreshToken _) as [raw|]; [|done].
  intros H. case_match eqn:Hc; [|done]. injection H as <- <-. rewrite !andb_true_iff in Hc.
  destruct Hc as [[[[H1 H2] H3] _] _]. apply bool_decide_eq_true in H1, H2, H3. simpl in *. eexists.
  by split_and!; [done|reflexivity|..].
Qed.

Lemma exchange_inv now old user a t u next t' :
  exchange_body make_interval now old user a t = Ok (u, next, t') →
  ∃ t1, insertSession make_interval now user a t = Ok (next, t1) ∧
        t' = with_sessions (alter (rotate_to now (se_ID next)) old) t1 ∧ it_users t1 !! user = Some u.
Proof.
  unfold exchange_body. destruct (insertSession _ _ _ _ _) as [[next' t1]|]; [|done].
  intros H. case_match eqn:Hu; [|done]. injection H as <- <- <-. by exists t1.
Qed.

(** ** The invariant *)

Definition issued (e : session_event) : option (string * string) :=
  match e with SignedIn id user | Exchanged _ id user => Some (id, user) | Replayed _ => None end.
Definition exchanged (e : session_event) : option string := match e with Exchanged old _ _ => Some old | _ => None end.
Definition is_sign_in (user : string) (e : session_event) : bool :=
  match e with SignedIn _ u => bool_decide (u = user) | _ => false end.

(** The table and the history: tokens are distinct, an exchanged one is revoked,
    every session comes from one sign-in or exchange, none is exchanged twice, and
    a user has no more live sessions than sign-ins. *)
Record rows_log (m : gmap string session_row) (log : list session_event) : Prop := {
  rl_hashes id1 id2 r1 r2 : m !! id1 = Some r1 → m !! id2 = Some r2 → s_Hash r1 = s_Hash r2 → id1 = id2;
  rl_rotated id r : m !! id = Some r → rotated r = true → revoked r = true;
  rl_ids : NoDup (omap issued log).*1;
  rl_in id user : (id, user) ∈ omap issued log → ∃ r, m !! id = Some r ∧ s_UserID r = user;
  rl_from id r : m !! id = Some r → (id, s_UserID r) ∈ omap issued log;
  rl_once : NoDup (omap exchanged log);
  rl_spent old : old ∈ omap exchanged log → ∃ r, m !! old = Some r ∧ rotated r = true;
  rl_count user : Z.of_nat (size (unrevoked_of user m)) ≤ countb (is_sign_in user) log
}.

(** A locked row is as the transaction read it, and has one holder. *)
Record locks_ok (m : gmap string session_row) (open : gmap nat rotation) : Prop := {
  lo_held tx now old r a : open !! tx = Some (Held now old r a) → m !! old = Some r;
  lo_one tx1 tx2 x1 x2 : open !! tx1 = Some x1 → open !! tx2 = Some x2 → locked_row x1 = locked_row x2 → tx1 = tx2
}.

Record sessions_ok (w : sworld) : Prop := {
  so_rows : rows_log (rows w) (sw_log w);
  so_locks : locks_ok (rows w) (sw_open w)
}.

(** ** Counting the live sessions *)

Lemma rotated_Some r : rotated r = true ↔ is_Some (s_RotatedTo r).
Proof. apply bool_decide_eq_true. Qed.

Lemma unrevoked_aged user m m' :
  (∀ id r', m' !! id = Some r' → ∃ r, m !! id = Some r ∧ row_ages r r') → unrevoked_of user m' ⊆ unrevoked_of user m.
Proof.
  intros Hm id (r' & H & Hu & Hr)%elem_of_unrevoked. destruct (Hm _ _ H) as (r & H0 & [Hu' _ Hr' _]).
  apply elem_of_unrevoked. exists r. split_and!; [done|congruence|]. destruct (revoked r); [|done]. by rewrite Hr' in Hr.
Qed.

Lemma unrevoked_insert user id r m :
  m !! id = None → revoked r = false →
  unrevoked_of user (<[id := r]> m) = (if bool_decide (s_UserID r = user) then {[id]} else ∅) ∪ unrevoked_of user m.
Proof.
  intros Hn Hr. apply set_eq. intros id'. rewrite elem_of_union, !elem_of_unrevoked. split.
  - intros (r' & [[<- <-]|[Hne H]]%lookup_insert_Some & Hu & Hr').
    + left. rewrite bool_decide_eq_true_2 by done. set_solver.
    + right. by exists r'.
  - intros [H|(r' & H & Hu & Hr')].
    + case_bool_decide; [|set_solver]. apply elem_of_singleton in H as ->. exists r. by rewrite lookup_insert_eq.
    + exists r'. rewrite lookup_insert_ne by congruence. done.
Qed.

(** One session takes the place of another. *)
Lemma unrevoked_exchange user m now old ro id r :
  m !! old = Some ro → revoked ro = false → m !! id = None → s_UserID r = s_UserID ro → revoked r = false →
  (size (unrevoked_of user (alter (rotate_to now id) old (<[id := r]> m))) ≤ size (unrevoked_of user m))%nat.
Proof.
  intros Hold Hr0 Hn Hu Hr. assert (id ≠ old) as Hne by congruence.
  assert (Hsub : unrevoked_of user (alter (rotate_to now id) old (<[id := r]> m)) ⊆
    (if bool_decide (s_UserID r = user) then {[id]} else ∅) ∪ unrevoked_of user m ∖ {[old]}).
  { intros x (rx & Hl & Hux & Hrx)%elem_of_unrevoked. destruct (decide (old = x)) as [<-|Hxo].
    - rewrite lookup_alter_eq, lookup_insert_ne, Hold in Hl by done. injection Hl as <-. by rewrite rotate_to_revoked in Hrx.
    - rewrite lookup_alter_ne in Hl by done. assert (x ∈ unrevoked_of user (<[id := r]> m)) as Hx'
        by (apply elem_of_unrevoked; by exists rx).
      rewrite unrevoked_insert in Hx' by done. set_solver. }
  apply subseteq_size in Hsub. etrans; [exact Hsub|]. clear Hsub. case_bool_decide as Hcase.
  - assert (old ∈ unrevoked_of user m) as Hin by (apply elem_of_unrevoked; exists ro; split_and!; congruence).
    assert (id ∉ unrevoked_of user m) as Hid by (intros (? & ? & _)%elem_of_unrevoked; congruence).
    pose proof (f_equal size (union_difference_singleton_L _ _ Hin)) as He.
    rewrite size_union, size_singleton in He by set_solver. rewrite size_union, size_singleton by set_solver. lia.
  - rewrite union_empty_l_L. apply subseteq_size. set_solver.
Qed.

(** ** The table and the history *)

Lemma rows_log_aged m m' log :
  (∀ id r', m' !! id = Some r' → ∃ r, m !! id = Some r ∧ row_ages r r' ∧ (rotated r' = true → revoked r' = true)) →
  ages m m' → rows_log m log → rows_log m' log.
Proof.
  intros Hback Hages [Hh Hrot Hids Hin Hfrom Hone Hsp Hc]. split; [| |done| | |done| |].
  - intros id1 id2 r1 r2 H1 H2 Heq. destruct (Hback _ _ H1) as (r1' & ? & [_ E1 _ _] & _).
    destruct (Hback _ _ H2) as (r2' & ? & [_ E2 _ _] & _). eapply Hh; [done..|congruence].
  - intros id r H. by destruct (Hback _ _ H) as (_ & _ & _ & ?).
  - intros id user H. destruct (Hin _ _ H) as (r & H1 & <-). destruct (Hages _ _ H1) as (r' & H2 & [Hu _ _ _]). by exists r'.
  - intros id r' H. destruct (Hback _ _ H) as (r & H1 & [-> _ _ _] & _). by apply Hfrom.
  - intros old H. destruct (Hsp _ H) as (r & H1 & [x Hx]%rotated_Some). destruct (Hages _ _ H1) as (r' & H2 & [_ _ _ Hro]).
    exists r'. split; [done|]. apply rotated_Some. exists x. by apply Hro.
  - intros user. etrans; [|apply Hc]. apply inj_le, subseteq_size, unrevoked_aged.
    intros id r' H. destruct (Hback _ _ H) as (r & ? & ? & _). by exists r.
Qed.

Lemma rows_log_replayed m log user : rows_log m log → rows_log m (Replayed user :: log).
Proof. intros [? ? ? ? ? ? ? Hc]. by split. Qed.

(** A revocation, of the rows [f] picks. *)
Lemma rows_log_revoke m m' log now (f : string → bool) :
  (∀ id, m' !! id = (λ r, if f id then revoke_at now r else r) <$> m !! id) → rows_log m log → rows_log m' log.
Proof.
  intros Hm Hrl. eapply rows_log_aged; [| |exact Hrl].
  - intros id r'. rewrite Hm. intros (r & Hid & H)%fmap_Some. exists r. split; [done|].
    destruct (f id) eqn:?; subst; split.
    + apply revoke_at_ages.
    + intros _. apply revoke_at_revoked.
    + reflexivity.
    + by eapply rl_rotated.
  - intros id r H. rewrite Hm, H. eexists. split; [done|]. destruct (f id); [apply revoke_at_ages|reflexivity].
Qed.

Lemma fresh_unissued m log id : rows_log m log → m !! id = None → id ∉ (omap issued log).*1.
Proof.
  intros Hrl Hn ([id' user] & Hid & H)%list_elem_of_fmap. simpl in Hid. subst id'. apply (rl_in _ _ Hrl) in H as (r & H & _).
  congruence.
Qed.

Lemma hashes_insert (m : gmap string session_row) id r :
  (∀ id1 id2 r1 r2, m !! id1 = Some r1 → m !! id2 = Some r2 → s_Hash r1 = s_Hash r2 → id1 = id2) →
  map_Forall (λ _ r', s_Hash r' ≠ s_Hash r) m →
  ∀ id1 id2 r1 r2, <[id := r]> m !! id1 = Some r1 → <[id := r]> m !! id2 = Some r2 → s_Hash r1 = s_Hash r2 → id1 = id2.
Proof.
  intros Hh Hf id1 id2 r1 r2 [[<- <-]|[? H1]]%lookup_insert_Some [[<- <-]|[? H2]]%lookup_insert_Some Heq; [done| | |by eapply Hh].
  - by destruct (Hf _ _ H2).
  - by destruct (Hf _ _ H1).
Qed.

(** A new session, entered under [e]; what is left is to count it. *)
Lemma rows_log_issue m log id r e :
  rows_log m log → m !! id = None → map_Forall (λ _ r', s_Hash r' ≠ s_Hash r) m →
  revoked r = false → rotated r = false → e = SignedIn id (s_UserID r) → rows_log (<[id := r]> m) (e :: log).
Proof.
  intros Hrl Hn Hf Hr Hro ->. pose proof (fresh_unissued _ _ _ Hrl Hn) as Hfresh.
  destruct Hrl as [Hh Hrot Hids Hin Hfrom Hone Hsp Hc]. split; cbn [omap list_omap issued exchanged fmap list_fmap fst].
  - by apply hashes_insert.
  - intros id' r' [[<- <-]|[_ H]]%lookup_insert_Some; [by rewrite Hro|by apply (Hrot id')].
  - by apply NoDup_cons.
  - intros id' user [[= -> ->]|H]%elem_of_cons; [exists r; by rewrite lookup_insert_eq|].
    destruct (Hin _ _ H) as (r' & H' & ?). exists r'. rewrite lookup_insert_ne by congruence. done.
  - intros id' r' [[<- <-]|[_ H]]%lookup_insert_Some; [by left|right; by apply Hfrom].
  - done.
  - intros old H. destruct (Hsp _ H) as (r' & H' & ?). exists r'. rewrite lookup_insert_ne by congruence. done.
  - intros user. rewrite unrevoked_insert by done. cbn [countb is_sign_in].
    pose proof (size_union_alt (if bool_decide (s_UserID r = user) then {[id]} else ∅) (unrevoked_of user m)) as Hs.
    specialize (Hc user). assert (size (unrevoked_of user m ∖ (if bool_decide (s_UserID r = user) then {[id]} else ∅)) ≤ size (unrevoked_of user m))%nat
      by (apply subseteq_size; set_solver).
    case_bool_decide; [rewrite size_singleton in Hs|rewrite size_empty in Hs]; lia.
Qed.

(** An exchange: the new session takes the place of the old one. *)
Lemma rows_log_exchange m log now old ro id r :
  rows_log m log → m !! old = Some ro → spent ro = false → m !! id = None → s_UserID r = s_UserID ro →
  map_Forall (λ _ r', s_Hash r' ≠ s_Hash r) m → revoked r = false → rotated r = false →
  rows_log (alter (rotate_to now id) old (<[id := r]> m)) (Exchanged old id (s_UserID ro) :: log).
Proof.
  intros Hrl Hold [Hr0 Ht0]%orb_false_iff Hn Hu Hf Hr Hro. assert (id ≠ old) as Hne by congruence.
  pose proof (rows_log_issue _ _ id r _ Hrl Hn Hf Hr Hro eq_refl) as Hi.
  assert (Hex : old ∉ omap exchanged log).
  { intros (r' & H & Hx)%(rl_spent _ _ Hrl). rewrite Hold in H. injection H as <-. by rewrite Ht0 in Hx. }
  assert (Hal : ages (<[id := r]> m) (alter (rotate_to now id) old (<[id := r]> m))).
  { apply ages_alter. intros r'. rewrite lookup_insert_ne, Hold by done. intros [= <-].
    split; [done|done|done|]. intros x Hx. assert (rotated ro = true) by (apply rotated_Some; by exists x). congruence. }
  assert (Hback : ∀ id' r', alter (rotate_to now id) old (<[id := r]> m) !! id' = Some r' →
    ∃ r0, <[id := r]> m !! id' = Some r0 ∧ row_ages r0 r' ∧ (rotated r' = true → revoked r' = true)).
  { intros id' r' H. destruct (decide (old = id')) as [<-|Ho].
    - destruct (Hal old ro) as (r'' & H' & Ha); [by rewrite lookup_insert_ne|]. rewrite H in H'. injection H' as <-.
      exists ro. rewrite lookup_insert_ne by done. split_and!; [done|done|].
      rewrite lookup_alter_eq, lookup_insert_ne, Hold in H by done. injection H as <-. intros _. apply rotate_to_revoked.
    - rewrite lookup_alter_ne in H by done. exists r'. split_and!; [done|reflexivity|by eapply rl_rotated]. }
  pose proof (rows_log_aged _ _ _ Hback Hal Hi) as [Hh Hrot Hids Hin Hfrom Hone Hsp _]. rewrite <- Hu. split; try done.
  - cbn [omap list_omap exchanged]. apply NoDup_cons. by split; [|apply (rl_once _ _ Hrl)].
  - cbn [omap list_omap exchanged]. intros x [->|Hx]%elem_of_cons; [|by apply Hsp].
    exists (rotate_to now id ro). rewrite lookup_alter_eq, lookup_insert_ne, Hold by done. split; [done|].
    apply rotate_to_rotated.
  - intros user. cbn [countb is_sign_in]. etrans; [|exact (rl_count _ _ Hrl user)].
    by apply inj_le, unrevoked_exchange with ro.
Qed.

End sessions.
