(* ===== verification/SessionFacts.v ===== *)
(** * What refresh sessions guarantee

    A refresh token is exchanged once, a user has no more live sessions than
    sign-ins, and a replayed token ends every session that was there when the
    replay was noticed, whatever runs at the same time. *)

From Stdlib Require Import Ascii.
From S2P Require Import Prelude Text Base64 Json Float32 Sha256 OAuth IdentityStore Sessions.

Section facts.
Context (make_interval : float64 → Z).

Notation session_step := (session_step make_interval).
Notation sstep := (sstep make_interval).
Notation RotateSession := (RotateSession make_interval).

(** ** Locks *)

Lemma locks_delete m open tx : locks_ok m open → locks_ok m (delete tx open).
Proof.
  intros [Hh Ho]. split.
  - intros tx' now old r a [_ H]%lookup_delete_Some. by eapply Hh.
  - intros tx1 tx2 x1 x2 [_ H1]%lookup_delete_Some [_ H2]%lookup_delete_Some. by apply Ho.
Qed.

Lemma locks_rows m m' open :
  (∀ tx now old r a, open !! tx = Some (Held now old r a) → m !! old = Some r → m' !! old = Some r) →
  locks_ok m open → locks_ok m' open.
Proof. intros Hm [Hh Ho]. split; [|done]. intros tx now old r a H. eapply Hm; [done|]. by eapply Hh. Qed.

Lemma locks_insert m open tx x :
  (∀ now old r a, x = Held now old r a → m !! old = Some r) →
  (∀ tx' x', open !! tx' = Some x' → tx' ≠ tx → locked_row x' ≠ locked_row x) →
  locks_ok m open → locks_ok m (<[tx := x]> open).
Proof.
  intros Hx Hu [Hh Ho]. split.
  - intros tx' now old r a [[_ ->]|[_ H]]%lookup_insert_Some; [by eapply Hx|by eapply Hh].
  - intros tx1 tx2 x1 x2 [[<- <-]|[? H1]]%lookup_insert_Some [[<- <-]|[? H2]]%lookup_insert_Some Hl; [done| | |by eapply Ho].
    + by destruct (Hu _ _ H2).
    + by destruct (Hu _ _ H1).
Qed.

(** ** Every step keeps the invariant *)

Lemma issue_ok now user a w sess t :
  sessions_ok w → insertSession make_interval now user a (sw_tables w) = Ok (sess, t) →
  rows_log (it_sessions t) (SignedIn (se_ID sess) user :: sw_log w) ∧ locks_ok (it_sessions t) (sw_open w).
Proof.
  intros [Hr Hl] (r & Hn & -> & Hu & _ & Hrv & Hro & Hf & _)%insertSession_inv. simpl. split.
  - apply rows_log_issue; [done|done|done|..|by rewrite Hu]; [unfold revoked; by rewrite Hrv|unfold rotated; by rewrite Hro].
  - eapply locks_rows; [|exact Hl]. intros tx now' old r' a' _ H. unfold rows in H. by rewrite lookup_insert_ne by congruence.
Qed.

Lemma exchange_ok now old r a w tx u next t :
  sessions_ok w → sw_open w !! tx = Some (Held now old r a) → spent r = false →
  exchange_body make_interval now old (s_UserID r) a (sw_tables w) = Ok (u, next, t) →
  sessions_ok (close_tx tx t (Exchanged old (se_ID next) (s_UserID r) :: sw_log w) w).
Proof.
  intros Hok Htx Hsp (t1 & (r' & Hn & -> & Hu & _ & Hrv & Hro & Hf & _)%insertSession_inv & -> & _)%exchange_inv.
  destruct Hok as [Hr Hl]. pose proof (lo_held _ _ Hl _ _ _ _ _ Htx) as Hold. split; unfold rows, close_tx; simpl.
  - apply rows_log_exchange; try done; [unfold revoked; by rewrite Hrv|unfold rotated; by rewrite Hro].
  - eapply locks_rows; [|apply locks_delete, Hl]. intros tx' now' old' r'' a' [Hne Htx']%lookup_delete_Some H. unfold rows in *.
    assert (old ≠ old') by (intros <-; by destruct Hne; eapply (lo_one _ _ Hl)).
    rewrite lookup_alter_ne by done. by rewrite lookup_insert_ne by congruence.
Qed.

(** A revocation of the rows [f] picks, none of them in another's hands. *)
Lemma revoke_ok now w (f : string → bool) m' open :
  (∀ id, m' !! id = (λ r, if f id then revoke_at now r else r) <$> rows w !! id) →
  (∀ tx now' old r a, open !! tx = Some (Held now' old r a) → f old = true → revoked r = true) →
  locks_ok (rows w) open → rows_log (rows w) (sw_log w) → rows_log m' (sw_log w) ∧ locks_ok m' open.
Proof.
  intros Hm Hf Hl Hr. split; [by eapply rows_log_revoke|].
  eapply locks_rows; [|exact Hl]. intros tx now' old r a Htx H. rewrite Hm, H. simpl.
  destruct (f old) eqn:Hfo; [|done]. by rewrite revoke_at_spent by (by eapply Hf).
Qed.

Lemma session_step_ok l w w' : session_step l w w' → sessions_ok w → sessions_ok w'.
Proof.
  intros Hs Hok. pose proof Hok as [Hr Hl].
  destruct Hs as [w now user a sess t Hi|w tx now raw a old r Htx Hf Hu|w tx now old r a u next t Htx Hsp _ Hx|w tx now old r a Htx Hsp
                 |w tx now old user ids Htx Hw|w tx|w now raw old r Hf Hu|w t Ht].
  - by destruct (issue_ok _ _ _ _ _ _ Hok Hi).
  - apply find_session_Some in Hf as [Hf _]. split; [done|]. apply locks_insert; [by intros ? ? ? ? [= <- <- <- <-]| |done].
    intros tx' x' H _. by apply (Hu tx' x').
  - by eapply exchange_ok.
  - split; [done|]. apply locks_insert; [done| |done]. intros tx' x' H Hne Heq. destruct Hne. by eapply (lo_one _ _ Hl).
  - destruct (revoke_ok now w (λ id, bool_decide (id ∈ ids)) (revoke_found now ids (rows w)) (delete tx (sw_open w))) as [H1 H2];
      [intros id; by rewrite revoke_found_lookup| |by apply locks_delete|done|split; [by apply rows_log_replayed|done]].
    intros tx' now' old' r a [Hne H]%lookup_delete_Some Hin%bool_decide_eq_true.
    destruct (revoked r) eqn:Hrv; [done|]. pose proof (lo_held _ _ Hl _ _ _ _ _ H) as Hrow.
    destruct (Hw _ _ Hrow Hin Hrv tx' _ H); [congruence|done].
  - split; [done|by apply locks_delete].
  - apply find_session_Some in Hf as [Hf _].
    destruct (revoke_ok now w (λ id, bool_decide (id = old)) (alter (revoke_at now) old (rows w)) (sw_open w)) as [H1 H2]; [| |done|done|done].
    + intros id. destruct (decide (old = id)) as [->|Hne].
      * by rewrite lookup_alter_eq, bool_decide_eq_true_2.
      * rewrite lookup_alter_ne, bool_decide_eq_false_2 by congruence. by destruct (rows w !! id).
    + intros tx' now' old' r' a H ->%bool_decide_eq_true. by destruct (Hu _ _ H).
  - unfold rows in *. split; unfold rows; simpl; by rewrite Ht.
Qed.

Lemma run_keeps_ok w w' : rtc sstep w w' → sessions_ok w → sessions_ok w'.
Proof. induction 1 as [|w w1 w2 [l Hs] _ IH]; intros Hok; [done|]. apply IH. by eapply session_step_ok. Qed.

Lemma run_ok t w : it_sessions t = ∅ → rtc sstep {| sw_tables := t; sw_open := ∅; sw_log := [] |} w → sessions_ok w.
Proof.
  intros Ht Hrun. apply (run_keeps_ok _ _ Hrun).
  split; unfold rows; simpl; rewrite Ht; split; try done; try (by constructor); try (by intros ? ?%elem_of_nil).
  intros id user H. by apply elem_of_nil in H.
Qed.

Lemma session_step_ages l w w' : session_step l w w' → sessions_ok w → ages (rows w) (rows w').
Proof.
  intros Hs [Hr Hl]. destruct Hs as [w now user a sess t Hi| |w tx now old r a u next t Htx Hsp _ Hx| |w tx now old user ids _ _| |w now raw old r _ _|w t Ht];
    unfold rows in *; simpl; try reflexivity.
  - apply insertSession_inv in Hi as (r & Hn & -> & _). by apply ages_insert.
  - apply exchange_inv in Hx as (t1 & (r' & Hn & -> & _)%insertSession_inv & -> & _). simpl.
    pose proof (lo_held _ _ Hl _ _ _ _ _ Htx) as Hold. etrans; [by apply ages_insert|]. apply ages_alter.
    rewrite lookup_insert_ne by congruence. intros r0 H. rewrite Hold in H. injection H as <-.
    apply orb_false_iff in Hsp as [_ Hsp]. split; [done|done|intros _; apply rotate_to_revoked|]. intros x Hx.
    assert (rotated r = true) by (apply rotated_Some; by exists x). congruence.
  - apply ages_revoke.
  - apply ages_alter. intros r0 _. apply revoke_at_ages.
  - by rewrite Ht.
Qed.

Lemma run_ages w w' : rtc sstep w w' → sessions_ok w → ages (rows w) (rows w').
Proof.
  induction 1 as [|w w1 w2 [l Hs] _ IH]; intros Hok; [reflexivity|].
  etrans; [by eapply session_step_ages|]. apply IH. by eapply session_step_ok.
Qed.

(** ** Exchanging a token *)

Lemma find_session_unique hash m id r :
  (∀ id1 id2 r1 r2, m !! id1 = Some r1 → m !! id2 = Some r2 → s_Hash r1 = s_Hash r2 → id1 = id2) →
  m !! id = Some r → s_Hash r = hash → find_session hash m = Some (id, r).
Proof.
  intros Hh H Hr. destruct (find_session hash m) as [[id' r']|] eqn:Hf.
  - apply find_session_Some in Hf as [Hf Hr']. assert (id' = id) as -> by (eapply Hh; [done..|congruence]). congruence.
  - unfold find_session in Hf. apply head_None in Hf. apply map_to_list_empty_iff in Hf.
    assert (filter (λ kv : string * session_row, bool_decide (s_Hash kv.2 = hash) = true) m !! id = Some r) as Hx.
    { apply map_lookup_filter_Some. split; [done|]. simpl. by apply bool_decide_eq_true_2. }
    by rewrite Hf, lookup_empty in Hx.
Qed.

(** A spent token is answered as a replay. *)
Lemma RotateSession_spent now raw a t id r :
  find_session (hashToken raw) (it_sessions t) = Some (id, r) → spent r = true →
  (RotateSession TxCommits now raw a t).1 = Err ErrTokenReused.
Proof. intros Hf Hsp. unfold IdentityStore.RotateSession, transact, rotate_body. rewrite Hf. unfold spent in Hsp. by rewrite Hsp. Qed.

Lemma revoked_all now user m : unrevoked_of user (revoke_found now (unrevoked_of user m) m) = ∅.
Proof.
  apply set_eq. intros id. split; [|set_solver]. intros (r' & H & Hu & Hr)%elem_of_unrevoked.
  rewrite revoke_found_lookup in H. apply fmap_Some in H as (r & Hid & ->). case_bool_decide as Hin.
  - by rewrite revoke_at_revoked in Hr.
  - destruct Hin. apply elem_of_unrevoked. by exists r.
Qed.

(** Run by itself, the transaction is its steps: an exchange, or a replay after
    which the user has no session left. *)
Lemma RotateSession_steps now raw a w :
  sw_open w = ∅ →
  match RotateSession TxCommits now raw a (sw_tables w) with
  | (Ok (u, next), t) =>
      ∃ old user, rtc sstep w {| sw_tables := t; sw_open := ∅; sw_log := Exchanged old (se_ID next) user :: sw_log w |}
  | (Err ErrTokenReused, t) =>
      ∃ user, rtc sstep w {| sw_tables := t; sw_open := ∅; sw_log := Replayed user :: sw_log w |} ∧
              unrevoked_of user (it_sessions t) = ∅
  | (Err _, t) => t = sw_tables w
  end.
Proof.
  intros Ho. unfold IdentityStore.RotateSession, transact, rotate_body.
  destruct (find_session _ _) as [[old r]|] eqn:Hf; [|done].
  assert (Hsel : sstep w (open_tx 0 (Held now old r a) w)).
  { exists (LSelect 0). eapply ss_select; [by rewrite Ho|exact Hf|]. intros tx' x. by rewrite Ho. }
  assert (Hdel : ∀ x y : rotation, delete 0%nat (<[0%nat := y]> (<[0%nat := x]> (sw_open w))) = ∅).
  { intros x y. by rewrite insert_insert_eq, delete_insert_id, Ho by (by rewrite Ho). }
  change (revoked r || rotated r) with (spent r). destruct (spent r) eqn:Hsp.
  - exists (s_UserID r). split; [|apply revoked_all]. eapply rtc_l; [exact Hsel|].
    eapply rtc_l; [exists (LUpdate 0); eapply ss_update; [apply lookup_insert_eq|exact Hsp]|].
    apply rtc_once. exists (LRevoke 0). cbn [sw_open open_tx sw_tables sw_log].
    rewrite <- (Hdel (Held now old r a) (Revoking now old (s_UserID r) (unrevoked_of (s_UserID r) (rows w)))).
    eapply (ss_revoke _ (open_tx 0 _ (open_tx 0 _ w))); [apply lookup_insert_eq|].
    intros id r' _ _ _ tx' x. simpl. rewrite insert_insert_eq, Ho. intros [[<- _]|[_ ?]]%lookup_insert_Some; [congruence|by rewrite lookup_empty in *].
  - destruct (expired now r) eqn:He; [done|].
    destruct (exchange_body _ _ _ _ _ _) as [[[u next] t]|e] eqn:Hx.
    + exists old, (s_UserID r). eapply rtc_l; [exact Hsel|]. apply rtc_once. exists (LExchange 0).
      replace (∅ : gmap nat rotation) with (delete 0%nat (sw_open (open_tx 0 (Held now old r a) w)))
        by (simpl; by rewrite delete_insert_id, Ho by (by rewrite Ho)).
      eapply (ss_exchange _ (open_tx 0 _ w)); [apply lookup_insert_eq|done..].
    + assert (e ≠ ErrTokenReused) by (unfold exchange_body, insertSession in Hx; repeat case_match; by simplify_eq).
      by destruct e.
Qed.

(** C28: a refresh token is good for one exchange, and live sessions are sign-ins.
    However sign-ins, exchanges, replays and logouts interleave, statement by
    statement and with any of them failing: no token is exchanged twice; every
    session in the table was issued by one sign-in or one exchange, to its user;
    an exchanged token is answered as a replay from then on; and a user never
    holds more live sessions than the times the user signed in. *)
Theorem refresh_token_single_use t w (fresh : it_sessions t = ∅)
    (run : rtc sstep {| sw_tables := t; sw_open := ∅; sw_log := [] |} w) :
  NoDup (omap exchanged (sw_log w)) ∧
  NoDup (omap issued (sw_log w)).*1 ∧
  (∀ id r, rows w !! id = Some r → (id, s_UserID r) ∈ omap issued (sw_log w)) ∧
  (∀ old raw now a, old ∈ omap exchanged (sw_log w) → s_Hash <$> rows w !! old = Some (hashToken raw) →
     (RotateSession TxCommits now raw a (sw_tables w)).1 = Err ErrTokenReused) ∧
  (∀ user, Z.of_nat (size (unrevoked_of user (rows w))) ≤ countb (is_sign_in user) (sw_log w)).
Proof.
  destruct (run_ok _ _ fresh run) as [[Hh Hrot Hids Hin Hfrom Hone Hsp Hc] _]. split_and!; [done..| |done].
  intros old raw now a Hold Hraw. destruct (Hsp _ Hold) as (r & Hr & Hro). rewrite Hr in Hraw. injection Hraw as Hraw.
  apply RotateSession_spent with old r; [by apply find_session_unique|]. unfold spent. by rewrite Hro, orb_true_r.
Qed.

(** C29: a replayed refresh token ends the user's sessions.  When a spent token is
    presented, every session the user had when the revocation began is revoked
    once it commits and stays revoked, and its token is answered as a replay
    whatever happens later; a session that is live right after was issued since
    the revocation began. *)
Theorem replay_ends_sessions t w0 w1 w2 w3 w4 tx now old user ids (fresh : it_sessions t = ∅)
    (before : rtc sstep {| sw_tables := t; sw_open := ∅; sw_log := [] |} w0)
    (begins : session_step (LUpdate tx) w0 w1) (found : sw_open w1 !! tx = Some (Revoking now old user ids))
    (meanwhile : rtc sstep w1 w2) (kept : sw_open w2 !! tx = Some (Revoking now old user ids))
    (commits : session_step (LRevoke tx) w2 w3) (later : rtc sstep w3 w4) :
  (∀ id r, rows w1 !! id = Some r → s_UserID r = user →
     (∃ r', rows w4 !! id = Some r' ∧ revoked r' = true) ∧
     ∀ raw now' a, s_Hash r = hashToken raw → (RotateSession TxCommits now' raw a (sw_tables w4)).1 = Err ErrTokenReused) ∧
  (∀ id r, rows w3 !! id = Some r → s_UserID r = user → revoked r = false → rows w1 !! id = None).
Proof.
  pose proof (run_ok _ _ fresh before) as H0. pose proof (session_step_ok _ _ _ begins H0) as H1.
  pose proof (run_keeps_ok _ _ meanwhile H1) as H2.
  pose proof (session_step_ok _ _ _ commits H2) as H3.
  pose proof (run_keeps_ok _ _ later H3) as H4.
  inversion begins as [| | |? ? now0 old0 r0 a0 Htx Hsp| | | |]; subst. simpl in found. rewrite lookup_insert_eq in found. injection found as <- <- <- <-.
  inversion commits as [| | | |? ? now2 old2 user2 ids2 Htx2 _| | |]; subst. rewrite kept in Htx2. injection Htx2 as <- <- <- <-.
  assert (Hgone : ∀ id r, rows w0 !! id = Some r → s_UserID r = s_UserID r0 →
    ∃ r3, revoke_found now0 (unrevoked_of (s_UserID r0) (rows w0)) (rows w2) !! id = Some r3 ∧ revoked r3 = true ∧ s_Hash r3 = s_Hash r).
  { intros id r Hr Hu. destruct (run_ages _ _ meanwhile H1 id r Hr) as (r2 & Hr2 & [_ Hh Hrv _]).
    rewrite revoke_found_lookup, Hr2. simpl. eexists. split; [done|]. case_bool_decide as Hin.
    - split; [apply revoke_at_revoked|done].
    - split; [|done]. apply Hrv. destruct (revoked r) eqn:Hr'; [done|]. destruct Hin. apply elem_of_unrevoked. by exists r. }
  split.
  - intros id r Hr Hu. destruct (Hgone id r Hr Hu) as (r3 & Hr3 & Hrv & Hh).
    destruct (run_ages _ _ later H3 id r3 Hr3) as (r4 & Hr4 & [_ Hh4 Hrv4 _]). split; [exists r4; auto|].
    intros raw now' a Hraw. apply RotateSession_spent with id r4; [|unfold spent; by rewrite Hrv4].
    apply find_session_unique; [apply (so_rows _ H4)|done|congruence].
  - intros id r Hr3 Hu Hrv. destruct (rows w0 !! id) as [r1|] eqn:Hr1; [|done].
    destruct (run_ages _ _ meanwhile H1 id r1 Hr1) as (r2 & Hr2 & [Hu2 _ _ _]).
    assert (s_UserID r1 = s_UserID r0) as Hu1.
    { unfold rows in Hr3. simpl in Hr3. rewrite revoke_found_lookup in Hr3. unfold rows in Hr2. rewrite Hr2 in Hr3. simpl in Hr3.
      rewrite <- Hu, <- Hu2. case_bool_decide; by injection Hr3 as <-. }
    destruct (Hgone id r1 Hr1 Hu1) as (r3 & Hr3' & Hrv3 & _). unfold rows in Hr3, Hr3'. simpl in Hr3. rewrite Hr3 in Hr3'. congruence.
Qed.

End facts.

(** ** Concrete runs *)

Module session_demo.

Definition whole_seconds (x : float64) : Z := Duration.f64_trunc x * second.
Definition ann : User :=
  {| u_ID := "usr_a"; u_OrganizationID := "org_a"; u_Email := "a@x.io"; u_Name := "Ann"; u_AvatarURL := ""; u_GoogleSub := "1";
     u_IsSuperadmin := false; u_CreatedAt := 0; u_LastLoginAt := 0 |}.
Definition t0 : id_tables :=
  {| it_users := {["usr_a"%string := ann]}; it_orgs := {["org_a"%string := {| o_Name := "Ann"; o_OwnerUserID := "usr_a" |}]};
     it_sessions := ∅; it_audit := [] |}.
Definition w0 : sworld := {| sw_tables := t0; sw_open := ∅; sw_log := [] |}.

(** The tokens are [EncodeToString] of one letter, the ids its hex. *)
Definition args (c : string) : issue_args :=
  {| ia_id := Some c; ia_token := Some c; ia_UserAgent := "curl"; ia_IP := "10.0.0.1"; ia_ttl := 3600 * second |}.
Definition raw (c : string) : string := EncodeToString c.
Definition id (c : string) : string := "ses_" ++ hex_encode c.

Definition tables_of {A} (r : result identity_error (A * id_tables)) : id_tables :=
  match r with Ok (_, t) => t | Err _ => t0 end.
Definition row_at (c : string) (t : id_tables) : session_row :=
  default {| s_UserID := ""; s_Hash := ""; s_IssuedAt := 0; s_ExpiresAt := 0; s_RevokedAt := None; s_RotatedTo := None;
             s_UserAgent := ""; s_IP := "" |} (it_sessions t !! id c).

(** Ann signs in as [A] and exchanges it for [B]. *)
Definition t1 := tables_of (insertSession whole_seconds 10 "usr_a" (args "A") t0).
Definition t2 := tables_of (exchange_body whole_seconds 20 (id "A") "usr_a" (args "B") t1).
Definition log1 := [SignedIn (id "A") "usr_a"].
Definition log2 := Exchanged (id "A") (id "B") "usr_a" :: log1.
Definition w1 : sworld := {| sw_tables := t1; sw_open := ∅; sw_log := log1 |}.
Definition first_A : rotation := Held 20 (id "A") (row_at "A" t1) (args "B").
Definition w2 : sworld := close_tx 0 t2 log2 (open_tx 0 first_A w1).

(** The replay of [A] is noticed by one transaction while another is exchanging
    [B] for [C]. *)
Definition held_A : rotation := Held 30 (id "A") (row_at "A" t2) (args "X").
Definition held_B : rotation := Held 30 (id "B") (row_at "B" t2) (args "C").
Definition ids : gset string := unrevoked_of "usr_a" (it_sessions t2).
Definition w4 : sworld := open_tx 2 held_B (open_tx 1 held_A w2).
Definition revoking : rotation := Revoking 30 (id "A") "usr_a" ids.
Definition w5 : sworld := open_tx 1 revoking w4.
Definition t6 := tables_of (exchange_body whole_seconds 30 (id "B") "usr_a" (args "C") t2).
Definition w6 : sworld := close_tx 2 t6 (Exchanged (id "B") (id "C") "usr_a" :: log2) w5.
Definition w7 : sworld := close_tx 1 (with_sessions (revoke_found 30 ids) t6) (Replayed "usr_a" :: sw_log w6) w6.

Notation step := (session_step whole_seconds).

Lemma sign_in_A : step LSignIn w0 w1.
Proof.
  apply (ss_sign_in whole_seconds w0 10 "usr_a" (args "A") {| se_ID := id "A"; se_Raw := raw "A" |} t1). vm_compute. reflexivity.
Qed.

Lemma select_A : step (LSelect 0) w1 (open_tx 0 first_A w1).
Proof. apply (ss_select whole_seconds w1 0 20 (raw "A")); [done|vm_compute; reflexivity|]. intros tx x. cbn [sw_open w1]. by intros ?%lookup_empty_Some. Qed.

Lemma exchange_A : step (LExchange 0) (open_tx 0 first_A w1) w2.
Proof.
  apply (ss_exchange whole_seconds (open_tx 0 first_A w1) 0 20 (id "A") (row_at "A" t1) (args "B") ann {| se_ID := id "B"; se_Raw := raw "B" |} t2);
    vm_compute; reflexivity.
Qed.

Lemma run_2 : rtc (sstep whole_seconds) w0 w2.
Proof.
  eapply rtc_l; [exists LSignIn; exact sign_in_A|]. eapply rtc_l; [exists (LSelect 0); exact select_A|].
  apply rtc_once. exists (LExchange 0). exact exchange_A.
Qed.

Lemma run_4 : rtc (sstep whole_seconds) w0 w4.
Proof.
  etrans; [exact run_2|]. eapply rtc_l; [exists (LSelect 1)|apply rtc_once; exists (LSelect 2)].
  - apply (ss_select whole_seconds w2 1 30 (raw "A")); [done|vm_compute; reflexivity|].
    intros tx x. unfold w2. cbn [sw_open open_tx close_tx w1]. rewrite delete_insert_id by done. by intros ?%lookup_empty_Some.
  - apply (ss_select whole_seconds (open_tx 1 held_A w2) 2 30 (raw "B")); [done|vm_compute; reflexivity|].
    intros tx x. unfold w2. cbn [sw_open open_tx close_tx w1]. rewrite delete_insert_id by done.
    intros [[_ <-]|[_ H%lookup_empty_Some]]%lookup_insert_Some; [|done]. intros _. by vm_compute.
Qed.

Lemma notice_A : step (LUpdate 1) w4 w5.
Proof. apply (ss_update whole_seconds w4 1 30 (id "A") (row_at "A" t2) (args "X")); vm_compute; reflexivity. Qed.

Lemma exchange_B : step (LExchange 2) w5 w6.
Proof.
  apply (ss_exchange whole_seconds w5 2 30 (id "B") (row_at "B" t2) (args "C") ann {| se_ID := id "C"; se_Raw := raw "C" |} t6);
    vm_compute; reflexivity.
Qed.

Lemma revoke_A : step (LRevoke 1) w6 w7.
Proof.
  apply (ss_revoke whole_seconds w6 1 30 (id "A") "usr_a" ids); [vm_compute; reflexivity|].
  intros i r _ _ _ tx x H Hne. exfalso. apply Hne. f_equal. revert H. unfold w6, w5, w4, w2. cbn [sw_open open_tx close_tx w1].
  rewrite delete_insert_id by done. rewrite lookup_delete_Some, !lookup_insert_Some. naive_solver.
Qed.

(** An exchange that was under way when the replay was noticed outlives it: the
    update revokes the sessions it finds, and does not find the one the exchange
    is about to commit. *)
Example exchange_outlives_replay :
  rtc (sstep whole_seconds) w0 w7 ∧ sw_log w7 = Replayed "usr_a" :: sw_log w6 ∧ unrevoked_of "usr_a" (rows w7) = {[id "C"]}.
Proof.
  split_and!; [|done|by vm_compute]. etrans; [exact run_4|]. eapply rtc_l; [exists (LUpdate 1); exact notice_A|].
  eapply rtc_l; [exists (LExchange 2); exact exchange_B|]. apply rtc_once. exists (LRevoke 1). exact revoke_A.
Qed.

Lemma refresh_token_single_use_witness :
  NoDup (omap exchanged (sw_log w2)) ∧
  (RotateSession whole_seconds TxCommits 25 (raw "A") (args "D") (sw_tables w2)).1 = Err ErrTokenReused ∧
  Z.of_nat (size (unrevoked_of "usr_a" (rows w2))) ≤ 1.
Proof.
  destruct (refresh_token_single_use whole_seconds t0 w2 eq_refl run_2) as (H1 & _ & _ & H2 & H3).
  split_and!; [exact H1|apply (H2 (id "A")); [left|vm_compute; reflexivity]|exact (H3 "usr_a"%string)].
Defined.

Lemma replay_ends_sessions_witness :
  (RotateSession whole_seconds TxCommits 40 (raw "B") (args "D") (sw_tables w7)).1 = Err ErrTokenReused.
Proof.
  destruct (replay_ends_sessions whole_seconds t0 w4 w5 w6 w7 w7 1 30 (id "A") "usr_a" ids eq_refl run_4 notice_A) as [H _].
  - vm_compute. reflexivity.
  - apply rtc_once. exists (LExchange 2). exact exchange_B.
  - vm_compute. reflexivity.
  - exact revoke_A.
  - apply rtc_refl.
  - apply (H (id "B") (row_at "B" t2)); vm_compute; reflexivity.
Defined.

(** [truncate] counts bytes: a user agent whose 512th byte falls inside a
    character is cut to text the database refuses, and the sign-in fails. *)
Example long_agent_breaks_sign_in :
  let agent := (String.concat "" (repeat "x" 511) ++ encode_rune 233)%string in
  valid_utf8 agent = true ∧
  insertSession whole_seconds 10 "usr_a" {| ia_id := Some "A"%string; ia_token := Some "A"%string; ia_UserAgent := agent; ia_IP := ""; ia_ttl := second |} t0 = Err DbFailed.
Proof. split; vm_compute; reflexivity. Qed.

End session_demo.
