(* ===== verification/AuthHandlers.v ===== *)
(** * identity/handlers.go, csrf.go, middleware.go and me.go: the /auth endpoints

    Sign-in, refresh, logout and the two middlewares of the admin listener.  A
    handler takes the request, what the world does to it (clocks, the fates of
    its transactions, the bytes it draws) and the tables, and gives the response
    with the cookies it sets, in order, and the tables.  Log lines are left out. *)

From Stdlib Require Import Ascii.
From S2P Require Import Prelude Text Base64 Json Float32 Sha256 Duration Token OAuth IdentityStore.

Definition stateCookie : string := "sy_oauth".
Definition stateTTL : Z := 10 * minute.
Definition sessionCookie : string := "sy_session".
Definition refreshCookie : string := "sy_refresh".
Definition csrfCookie : string := "sy_csrf".
Definition refreshPath : string := "/auth".
Definition signinFailed : string := "signin_failed".
Definition CSRFHeader : string := "X-CSRF-Token".

(** [rq_Query] and [rq_CSRF] are empty when the parameter or header is absent. *)
Record auth_request := {
  rq_Method : string; rq_Cookie : string → option string; rq_Query : string → string; rq_CSRF : string;
  rq_UserAgent : string; rq_RemoteAddr : string }.

(** Every cookie is [SameSite=Lax]. *)
Record http_cookie := { ck_Name : string; ck_Value : string; ck_Path : string; ck_HttpOnly : bool; ck_Secure : bool; ck_MaxAge : Z }.

Record meView := {
  me_ID : string; me_Email : string; me_Name : string; me_AvatarURL : string; me_OrganizationID : string;
  me_IsSuperadmin : bool; me_SessionExpiresAt : Z; me_RoutingOptions : list string }.

Inductive auth_body := NoBody | ErrorBody (errType : string) | MeBody (v : meView).

Record auth_response := { rs_Cookies : list http_cookie; rs_Status : Z; rs_Location : string; rs_Body : auth_body }.

(** What happens to one request: the gateway's and the database's clocks, the
    fates of the sign-in's and the session's transactions and of a read, and the
    bytes drawn for the ids, the state, the verifier and the CSRF token. *)
Record auth_weather := {
  ax_now : Z; ax_db_now : Z; ax_users : tx_fate; ax_sessions : tx_fate; ax_read : bool; ax_draws : draws;
  ax_session_id : option string; ax_refresh : option string; ax_state : option string; ax_verifier : option string;
  ax_csrf : option string }.

(** [net.SplitHostPort]'s host *)
Definition SplitHost (hostport : string) : option string :=
  match CutLast ":" hostport with
  | None => None
  | Some (before, port) =>
      match hostport with
      | String "[" rest =>
          match Cut "]" rest with
          | Some (host, after) =>
              if bool_decide (after = String ":" port) && free "[" rest && free "]" after then Some host else None
          | None => None
          end
      | _ => if free ":" before && free "[" hostport && free "]" hostport then Some before else None
      end
  end.

Definition clientIP (q : auth_request) : string :=
  match SplitHost (rq_RemoteAddr q) with
  | Some host => truncate host 64
  | None => truncate (rq_RemoteAddr q) 64
  end.

Example clientIP_demo :
  map SplitHost ["10.0.0.1:443"; "[::1]:80"; "::1:80"; "10.0.0.1"; "[::1]"; "[::1]x:80"; ":80"]%string
  = [Some "10.0.0.1"; Some "::1"; None; None; None; None; Some ""]%string.
Proof. vm_compute. reflexivity. Qed.

Section handlers.
Context (ToLower pg_lower : string → string) (make_interval : float64 → Z).

Record AuthConfig := {
  ac_OAuth : OAuthConfig; ac_Secret : string; ac_SuccessURL : string; ac_FailureURL : string; ac_Secure : bool;
  ac_AccessTTL : Z; ac_RefreshTTL : Z; ac_RoutingOptions : option (list string); ac_store : IdStore }.

Context (cfg : AuthConfig).

Definition secret : string := ac_Secret cfg.

Definition setCookie (name value path : string) (maxAge : Z) (httpOnly : bool) : http_cookie :=
  {| ck_Name := name; ck_Value := value; ck_Path := path; ck_HttpOnly := httpOnly; ck_Secure := ac_Secure cfg; ck_MaxAge := maxAge |}.

Definition clearCookie (name path : string) : http_cookie :=
  setCookie name "" path (-1) (negb (bool_decide (name = csrfCookie))).

Definition clearSession : list http_cookie :=
  [clearCookie sessionCookie "/"; clearCookie refreshCookie refreshPath; clearCookie csrfCookie "/"].

Definition redirect (cookies : list http_cookie) (url : string) : auth_response :=
  {| rs_Cookies := cookies; rs_Status := 302; rs_Location := url; rs_Body := NoBody |}.
Definition writeJSONError (cookies : list http_cookie) (status : Z) (errType : string) : auth_response :=
  {| rs_Cookies := cookies; rs_Status := status; rs_Location := ""; rs_Body := ErrorBody errType |}.
Definition no_content (cookies : list http_cookie) : auth_response :=
  {| rs_Cookies := cookies; rs_Status := 204; rs_Location := ""; rs_Body := NoBody |}.

Definition fail (cookies : list http_cookie) : auth_response :=
  redirect cookies (ac_FailureURL cfg ++ "?error=" ++ signinFailed).
Definition reject (cookies : list http_cookie) (errType : string) : auth_response := writeJSONError cookies 400 errType.

(** [int(d.Seconds())] *)
Definition whole_seconds (d : Z) : Z := f64_trunc (Seconds d).

Definition start (wx : auth_weather) (t : id_tables) : auth_response * id_tables :=
  match randomToken (ax_state wx), randomToken (ax_verifier wx) with
  | Some state, Some verifier =>
      (redirect [setCookie stateCookie (seal secret state verifier) refreshPath (whole_seconds stateTTL) true]
         (AuthURL (ac_OAuth cfg) state verifier), t)
  | _, _ => (fail [], t)
  end.

Definition session_claims (now : Z) (u : User) (sess : Session) : Claims :=
  {| cm_UserID := u_ID u; cm_OrgID := u_OrganizationID u; cm_Superadmin := u_IsSuperadmin u; cm_SessionID := se_ID sess;
     cm_IssuedAt := now / second; cm_ExpiresAt := (now + ac_AccessTTL cfg) / second |}.

(** The cookies that were set, and whether all went well: a failure to draw the
    CSRF token comes after the first two. *)
Definition setSessionCookies (wx : auth_weather) (u : User) (sess : Session) (newCSRF : bool) : list http_cookie * bool :=
  let signed :=
    [setCookie sessionCookie (mint secret (session_claims (ax_now wx) u sess)) "/" (whole_seconds (ac_AccessTTL cfg)) true;
     setCookie refreshCookie (se_Raw sess) refreshPath (whole_seconds (ac_RefreshTTL cfg)) true] in
  if newCSRF then
    match newCSRFToken secret (ax_csrf wx) with
    | Some csrf => (signed ++ [setCookie csrfCookie csrf "/" (whole_seconds (ac_RefreshTTL cfg)) false], true)
    | None => (signed, false)
    end
  else (signed, true).

Definition session_args (wx : auth_weather) (q : auth_request) : issue_args :=
  {| ia_id := ax_session_id wx; ia_token := ax_refresh wx; ia_UserAgent := rq_UserAgent q; ia_IP := clientIP q;
     ia_ttl := ac_RefreshTTL cfg |}.

Definition issue (wx : auth_weather) (q : auth_request) (u : User) (t : id_tables) : list http_cookie * bool * id_tables :=
  match CreateSession make_interval (ax_sessions wx) (ax_db_now wx) (u_ID u) (session_args wx q) t with
  | (Err _, t) => ([], false, t)
  | (Ok sess, t) => let '(cs, ok) := setSessionCookies wx u sess true in (cs, ok, t)
  end.

Definition callback (wx : auth_weather) (q : auth_request) (t : id_tables) : auth_response * id_tables :=
  let cleared := [clearCookie stateCookie refreshPath] in
  match rq_Cookie q stateCookie with
  | None => (reject cleared "missing_state", t)
  | Some cookie =>
      match open secret cookie with
      | None => (reject cleared "invalid_state", t)
      | Some (state, verifier) =>
          if negb (bool_decide (state = rq_Query q "state")) then (reject cleared "state_mismatch", t)
          else if negb (bool_decide (rq_Query q "error" = ""%string)) then (fail cleared, t)
          else if bool_decide (rq_Query q "code" = ""%string) then (reject cleared "missing_code", t)
          else match Exchange (ac_OAuth cfg) (rq_Query q "code") verifier (ax_now wx) with
               | Err _ => (fail cleared, t)
               | Ok profile =>
                   match FindOrCreateGoogleUser ToLower pg_lower (ac_store cfg) (ax_users wx) (ax_draws wx) (ax_db_now wx) profile t with
                   | (Err _, t) => (fail cleared, t)
                   | (Ok (user, _), t) =>
                       let '(cs, ok, t) := issue wx q user t in
                       if ok then (redirect (cleared ++ cs) (ac_SuccessURL cfg), t) else (fail (cleared ++ cs), t)
                   end
               end
      end
  end.

Definition refresh (wx : auth_weather) (q : auth_request) (t : id_tables) : auth_response * id_tables :=
  match rq_Cookie q refreshCookie with
  | None => (writeJSONError clearSession 401 "no_session", t)
  | Some raw =>
      if bool_decide (raw = ""%string) then (writeJSONError clearSession 401 "no_session", t)
      else match RotateSession make_interval (ax_sessions wx) (ax_db_now wx) raw (session_args wx q) t with
           | (Err _, t) => (writeJSONError clearSession 401 "session_invalid", t)
           | (Ok (user, sess), t) =>
               let '(cs, ok) := setSessionCookies wx user sess false in
               if ok then (no_content cs, t) else (writeJSONError cs 500 "refresh_failed", t)
           end
  end.

Definition logout (wx : auth_weather) (q : auth_request) (t : id_tables) : auth_response * id_tables :=
  match rq_Cookie q refreshCookie with
  | None => (no_content clearSession, t)
  | Some raw =>
      if bool_decide (raw = ""%string) then (no_content clearSession, t)
      else match RevokeSession (ax_sessions wx) (ax_db_now wx) raw t with
           | (Err _, t) => (writeJSONError clearSession 503 "revoke_failed", t)
           | (Ok _, t) => (no_content clearSession, t)
           end
  end.

Definition me (wx : auth_weather) (q : auth_request) (t : id_tables) : auth_response :=
  match rq_Cookie q sessionCookie with
  | None => writeJSONError [] 401 "no_session"
  | Some cookie =>
      if bool_decide (cookie = ""%string) then writeJSONError [] 401 "no_session"
      else match verify secret cookie (ax_now wx) with
           | Err _ => writeJSONError [] 401 "session_invalid"
           | Ok c =>
               match userByID (ax_read wx) (cm_UserID c) t with
               | Err _ => writeJSONError clearSession 401 "session_invalid"
               | Ok u =>
                   {| rs_Cookies := []; rs_Status := 200; rs_Location := "";
                      rs_Body := MeBody {| me_ID := u_ID u; me_Email := u_Email u; me_Name := u_Name u;
                                           me_AvatarURL := u_AvatarURL u; me_OrganizationID := u_OrganizationID u;
                                           me_IsSuperadmin := u_IsSuperadmin u;
                                           me_SessionExpiresAt := unix_time (cm_ExpiresAt c);
                                           me_RoutingOptions := default [] (ac_RoutingOptions cfg) |} |}
               end
           end
  end.

(** ** The middlewares *)

Definition safe_method (m : string) : bool := bool_decide (m ∈ ["GET"; "HEAD"; "OPTIONS"]%string).

Definition rejectCSRF : auth_response := writeJSONError [] 403 "csrf_failed".

(** [None]: the request goes on. *)
Definition RequireCSRF (q : auth_request) : option auth_response :=
  if safe_method (rq_Method q) then None
  else match rq_Cookie q csrfCookie with
       | None => Some rejectCSRF
       | Some cookie =>
           if bool_decide (cookie = ""%string) then Some rejectCSRF
           else if bool_decide (rq_CSRF q = ""%string) then Some rejectCSRF
           else if negb (validCSRFToken secret cookie) then Some rejectCSRF
           else if negb (bool_decide (cookie = rq_CSRF q)) then Some rejectCSRF
           else None
       end.

(** [Ok]: the request goes on with these claims attached. *)
Definition RequireSession (now : Z) (q : auth_request) : result auth_response Claims :=
  match rq_Cookie q sessionCookie with
  | None => Err (writeJSONError [] 401 "no_session")
  | Some cookie =>
      if bool_decide (cookie = ""%string) then Err (writeJSONError [] 401 "no_session")
      else match verify secret cookie now with
           | Err ErrTokenExpired => Err (writeJSONError [] 401 "session_expired")
           | Err ErrTokenInvalid => Err (writeJSONError [] 401 "session_invalid")
           | Ok c => Ok c
           end
  end.

(** ** Routes *)

Inductive auth_route := GETGoogle | GETCallback | GETMe | POSTRefresh | POSTLogout.

(** The method is part of the route, and the two that change state are behind
    the CSRF check. *)
Definition method_of (r : auth_route) : string := match r with POSTRefresh | POSTLogout => "POST" | _ => "GET" end.

Definition Routes (r : auth_route) (wx : auth_weather) (q : auth_request) (t : id_tables) : auth_response * id_tables :=
  let guarded h := match RequireCSRF q with Some resp => (resp, t) | None => h wx q t end in
  match r with
  | GETGoogle => start wx t
  | GETCallback => callback wx q t
  | GETMe => (me wx q t, t)
  | POSTRefresh => guarded refresh
  | POSTLogout => guarded logout
  end.

End handlers.
