(* ===== verification/IdentityFacts.v ===== *)
(** * What signing in guarantees

    Users keep their organisation; a superadmin's address was the configured one
    at some time and the grant is in the audit log; an organisation other than the
    default one has one user, and everybody in the default one had the configured
    address when they first signed in. *)

From Stdlib Require Import Ascii.
From S2P Require Import Prelude Text Base64 Json Float32 Sha256 Duration Token OAuth IdentityStore Sessions SessionFacts AuthHandlers.

(** ** Ids are text *)

Lemma ascii_valid s : ascii_only s = true → valid_utf8 s = true.
Proof.
  induction s as [|c s IH]; [done|]. cbn [ascii_only]. intros [Hc%Z.ltb_lt Hs]%andb_true_iff.
  unfold valid_utf8. rewrite ascii_units by done. cbn [forallb fst snd]. fold (valid_utf8 s). rewrite IH by done.
  pose proof (byte_range c). rewrite bool_decide_eq_true_2; [done|]. rewrite encode1 by lia. cbn. by rewrite chr_byte.
Qed.

Lemma hex_ascii s : ascii_only (hex_encode s) = true.
Proof.
  induction s as [|c s IH]; [done|]. cbn [hex_encode ascii_only]. pose proof (byte_range c).
  destruct (hex_digit_ascii (byte c / 16)) as [H1 _]; [dm|]. destruct (hex_digit_ascii (byte c mod 16)) as [H2 _]; [dm|].
  by rewrite IH, !(proj2 (Z.ltb_lt _ _)) by done.
Qed.

Lemma ascii_app s s' : ascii_only (s ++ s') = ascii_only s && ascii_only s'.
Proof. induction s as [|c s IH]; [done|]. rewrite string_app_cons. cbn [ascii_only]. by rewrite IH, andb_assoc. Qed.

Lemma newID_valid prefix rand id : ascii_only prefix = true → newID prefix rand = Some id → valid_utf8 id = true.
Proof. intros Hp (b & _ & ->)%fmap_Some. apply ascii_valid. by rewrite ascii_app, Hp, hex_ascii. Qed.

(** ** Users *)

(** What may happen to a user: the row stays, with its organisation, address and
    subject, and is never demoted. *)
Record user_keeps (u u' : User) : Prop := {
  uk_org : u_OrganizationID u' = u_OrganizationID u;
  uk_email : u_Email u' = u_Email u;
  uk_sub : u_GoogleSub u' = u_GoogleSub u;
  uk_super : u_IsSuperadmin u = true → u_IsSuperadmin u' = true
}.

#[global] Instance user_keeps_preorder : PreOrder user_keeps.
Proof. split; [by intros u|]. intros u1 u2 u3 [] []. split; [congruence..|auto]. Qed.

Definition users_keep (m m' : gmap string User) : Prop :=
  ∀ id u, m !! id = Some u → ∃ u', m' !! id = Some u' ∧ user_keeps u u'.

#[global] Instance users_keep_preorder : PreOrder users_keep.
Proof.
  split.
  - intros m id u H. exists u. split; [done|]. reflexivity.
  - intros m1 m2 m3 H12 H23 id u H1. destruct (H12 _ _ H1) as (u2 & H2 & A12). destruct (H23 _ _ H2) as (u3 & H3 & A23).
    exists u3. split; [done|]. by etrans.
Qed.

Lemma user_where_Some f m u : (∀ id u, m !! id = Some u → u_ID u = id) → user_where f m = Some u → m !! u_ID u = Some u ∧ f u = true.
Proof.
  unfold user_where. intros Hk ([id u'] & H%head_Some_elem_of & ->)%fmap_Some. simpl.
  apply elem_of_map_to_list, map_lookup_filter_Some in H as [H Hf]. by rewrite (Hk _ _ H).
Qed.

Lemma user_where_None f m id u : user_where f m = None → m !! id = Some u → f u = false.
Proof.
  unfold user_where. intros Hn H. destruct (f u) eqn:Hf; [|done]. apply fmap_None in Hn. apply head_None, map_to_list_empty_iff in Hn.
  assert (filter (λ kv : string * User, f kv.2 = true) m !! id = Some u) as Hx by (by apply map_lookup_filter_Some).
  by rewrite Hn, lookup_empty in Hx.
Qed.

Section identity.
Context (ToLower pg_lower : string → string).

(** The bootstrap addresses, in their normal form, that the gateway has ever run
    with: the address is read from the environment at every start and nobody is
    demoted when it changes. *)
Context (held : list string).

Definition was_bootstrap (email : string) : Prop := email ≠ ""%string ∧ email ∈ held.

(** The grant that made a superadmin is in the audit log. *)
Definition granted (t : id_tables) (id : string) : Prop :=
  ∃ e, e ∈ it_audit t ∧ be_Actor e = id ∧ be_Action e = "user.superadmin.grant"%string.

Record tables_ok (s : IdStore) (t : id_tables) : Prop := {
  to_key id u : it_users t !! id = Some u → u_ID u = id;
  to_text id u : it_users t !! id = Some u → valid_utf8 id = true ∧ valid_utf8 (u_OrganizationID u) = true;
  to_org id u : it_users t !! id = Some u → is_Some (it_orgs t !! u_OrganizationID u);
  to_super id u : it_users t !! id = Some u → u_IsSuperadmin u = true → was_bootstrap (u_Email u) ∧ granted t id;
  to_default id u : it_users t !! id = Some u → u_OrganizationID u = is_defaultOrgID s → was_bootstrap (u_Email u);
  to_email id u id' u' : it_users t !! id = Some u → it_users t !! id' = Some u' → u_Email u = u_Email u' → id = id';
  to_sub id u id' u' : it_users t !! id = Some u → it_users t !! id' = Some u' → u_GoogleSub u = u_GoogleSub u' → id = id';
  to_alone id u id' u' : it_users t !! id = Some u → it_users t !! id' = Some u' → u_OrganizationID u = u_OrganizationID u' →
    u_OrganizationID u ≠ is_defaultOrgID s → id = id'
}.

Definition known (s : IdStore) : Prop := is_superadminEmail s ∈ held.

Lemma bootstrap_was s e : known s → is_bootstrap s e = true → was_bootstrap e.
Proof.
  unfold known, is_bootstrap, was_bootstrap. intros Hk [H1 ->%bool_decide_eq_true]%andb_true_iff. split; [|done].
  by apply negb_true_iff, bool_decide_eq_false in H1.
Qed.

(** What a transaction of the store may do besides. *)
Record tables_keep (t t' : id_tables) : Prop := {
  tk_users : users_keep (it_users t) (it_users t');
  tk_sessions : it_sessions t' = it_sessions t;
  tk_orgs : dom (it_orgs t) ⊆ dom (it_orgs t');
  tk_audit e : e ∈ it_audit t → e ∈ it_audit t'
}.

#[global] Instance tables_keep_preorder : PreOrder tables_keep.
Proof.
  split.
  - intros t. by split.
  - intros t1 t2 t3 [U1 S1 O1 A1] [U2 S2 O2 A2]. split; [by etrans|congruence|by etrans|auto].
Qed.

(** An update of one user's row that keeps what it must. *)
Lemma update_user_ok s t u u' :
  tables_ok s t → it_users t !! u_ID u = Some u → u_ID u' = u_ID u → user_keeps u u' →
  (u_IsSuperadmin u' = true → u_IsSuperadmin u = true ∨ was_bootstrap (u_Email u) ∧ granted t (u_ID u)) →
  tables_ok s (with_users <[u_ID u := u']> t) ∧ tables_keep t (with_users <[u_ID u := u']> t).
Proof.
  intros Ht Hu Hid Hkp Hg. pose proof Hkp as [Ho He Hsb Hs].
  assert (Hback : ∀ id x, <[u_ID u := u']> (it_users t) !! id = Some x →
    ∃ y, it_users t !! id = Some y ∧ u_OrganizationID x = u_OrganizationID y ∧ u_Email x = u_Email y ∧ u_GoogleSub x = u_GoogleSub y).
  { intros id x [[<- <-]|[_ H]]%lookup_insert_Some; [by exists u|by exists x]. }
  split.
  - split; simpl.
    + intros id x [[<- <-]|[_ H]]%lookup_insert_Some; [done|by apply (to_key s t)].
    + intros id x (y & Hy & -> & _ & _)%Hback. by apply (to_text s t Ht).
    + intros id x (y & Hy & -> & _ & _)%Hback. by apply (to_org s t Ht id).
    + intros id x [[<- <-]|[_ H]]%lookup_insert_Some Hx; [|by apply (to_super s t Ht)].
      rewrite He. destruct (Hg Hx) as [Hsu|H]; [by apply (to_super s t Ht)|done].
    + intros id x (y & Hy & -> & -> & _)%Hback. by apply (to_default s t Ht id).
    + intros id x id' x' (y & Hy & _ & -> & _)%Hback (y' & Hy' & _ & -> & _)%Hback. by apply (to_email s t Ht).
    + intros id x id' x' (y & Hy & _ & _ & ->)%Hback (y' & Hy' & _ & _ & ->)%Hback. by apply (to_sub s t Ht).
    + intros id x id' x' (y & Hy & -> & _ & _)%Hback (y' & Hy' & -> & _ & _)%Hback. by apply (to_alone s t Ht).
  - split; simpl; [|done|done|done]. intros id x H. destruct (decide (u_ID u = id)) as [<-|Hne].
    + exists u'. rewrite lookup_insert_eq. split; [done|]. rewrite Hu in H. injection H as <-. done.
    + exists x. rewrite lookup_insert_ne by done. split; [done|reflexivity].
Qed.

Lemma tables_ok_ext s t t' :
  tables_ok s t → it_users t' = it_users t → dom (it_orgs t) ⊆ dom (it_orgs t') → (∀ e, e ∈ it_audit t → e ∈ it_audit t') →
  it_sessions t' = it_sessions t → tables_ok s t' ∧ tables_keep t t'.
Proof.
  intros [Hk Ht Ho Hs Hd He Hsb Ha] Hu Hor Hau Hse. split.
  - split; rewrite Hu; try done.
    + intros id u H%Ho. apply elem_of_dom, Hor, elem_of_dom, H.
    + intros id u H Hsu. destruct (Hs _ _ H Hsu) as [Hb (e & He' & Hac)]. split; [done|]. exists e. split; [by apply Hau|done].
  - split; [rewrite Hu; reflexivity|done|done|done].
Qed.

Lemma insert_org_dom id name t : dom (it_orgs t) ⊆ dom (it_orgs (insert_org id name t)).
Proof. unfold insert_org. case_match; [done|]. simpl. set_solver. Qed.

Lemma insert_org_users id name t : it_users (insert_org id name t) = it_users t.
Proof. unfold insert_org. by case_match. Qed.

Lemma insert_org_ok s id name t : tables_ok s t → tables_ok s (insert_org id name t) ∧ tables_keep t (insert_org id name t).
Proof.
  intros Ht. apply (tables_ok_ext s); [done|apply insert_org_users|apply insert_org_dom|unfold insert_org; by case_match..].
Qed.

Lemma set_owner_ok s id user t : tables_ok s t → tables_ok s (set_owner id user t) ∧ tables_keep t (set_owner id user t).
Proof.
  intros Ht. unfold set_owner. case_match; [case_bool_decide|]; [apply (tables_ok_ext s); simpl; done || set_solver|split; [done|reflexivity]..].
Qed.

Lemma set_owner_users id user t : it_users (set_owner id user t) = it_users t.
Proof. unfold set_owner. by repeat case_match. Qed.

Lemma audit_inv rand now actor action before after t t' :
  audit rand now actor action before after t = Ok t' →
  ∃ e, be_Actor e = actor ∧ be_Action e = action ∧ t' = with_audit (cons e) t.
Proof. unfold audit. intros H. repeat (case_match; try done). injection H as <-. eexists. split; [|split; [|reflexivity]]; done. Qed.

(** ** The store's transaction *)

Lemma signInExisting_ok s now p t u t' :
  tables_ok s t → signInExisting now p t = Ok (Some (u, t')) →
  tables_ok s t' ∧ tables_keep t t' ∧ it_users t' !! u_ID u = Some u ∧ u_GoogleSub u = pf_Sub p.
Proof.
  intros Ht. unfold signInExisting. destruct (user_where _ _) as [u0|] eqn:Hw; [|done]. case_match; [|done]. intros [= <- <-].
  apply user_where_Some in Hw as [Hu Hf%bool_decide_eq_true]; [|apply (to_key s t Ht)].
  destruct (update_user_ok s t u0 (signed_in now p u0) Ht Hu eq_refl) as [H1 H2]; [by split|by left|].
  split_and!; [done|done|apply lookup_insert_eq|done].
Qed.

Lemma insert_user_inv u t t' :
  insert_user pg_lower u t = Some t' →
  it_users t !! u_ID u = None ∧ is_Some (it_orgs t !! u_OrganizationID u) ∧
  user_where (has_email (u_Email u)) (it_users t) = None ∧ user_where (has_sub (u_GoogleSub u)) (it_users t) = None ∧ t' = with_users <[u_ID u := u]> t.
Proof.
  unfold insert_user. case_match eqn:Hc; [|done]. intros [= <-]. rewrite !andb_true_iff in Hc.
  destruct Hc as [[[[[[[[[H1 H2] _] _] H3] H4] _] _] _] _]. apply bool_decide_eq_true in H1, H2, H3, H4. done.
Qed.

(** A new user's row. *)
Lemma insert_user_ok s u t t' :
  tables_ok s t → insert_user pg_lower u t = Some t' → u_IsSuperadmin u = false →
  valid_utf8 (u_ID u) = true → valid_utf8 (u_OrganizationID u) = true →
  (u_OrganizationID u = is_defaultOrgID s → was_bootstrap (u_Email u)) →
  (∀ id x, it_users t !! id = Some x → u_OrganizationID x = u_OrganizationID u → u_OrganizationID u = is_defaultOrgID s) →
  tables_ok s t' ∧ tables_keep t t' ∧ it_users t' !! u_ID u = Some u.
Proof.
  intros [Hk Htx Ho Hs Hd He Hsb Ha] (Hn & Horg & Hem & Hsub & ->)%insert_user_inv Hsu Hv Hvo Hdef Hnew.
  assert (Hfree : ∀ id x, it_users t !! id = Some x → u_Email x ≠ u_Email u).
  { intros id x H. apply (user_where_None _ _ _ _ Hem) in H. by apply bool_decide_eq_false in H. }
  assert (Hfree' : ∀ id x, it_users t !! id = Some x → u_GoogleSub x ≠ u_GoogleSub u).
  { intros id x H. apply (user_where_None _ _ _ _ Hsub) in H. by apply bool_decide_eq_false in H. }
  split_and!; [| |apply lookup_insert_eq].
  - split; simpl.
    + intros id x [[<- <-]|[_ H]]%lookup_insert_Some; [done|by apply Hk].
    + intros id x [[<- <-]|[_ H]]%lookup_insert_Some; [done|by apply Htx].
    + intros id x [[<- <-]|[_ H]]%lookup_insert_Some; [done|by apply (Ho id)].
    + intros id x [[<- <-]|[_ H]]%lookup_insert_Some Hx; [congruence|by apply Hs].
    + intros id x [[<- <-]|[_ H]]%lookup_insert_Some; [done|by apply (Hd id)].
    + intros id x id' x' [[<- <-]|[_ H]]%lookup_insert_Some [[<- <-]|[_ H']]%lookup_insert_Some Heq; [done| | |by eapply He].
      * by destruct (Hfree _ _ H').
      * by destruct (Hfree _ _ H).
    + intros id x id' x' [[<- <-]|[_ H]]%lookup_insert_Some [[<- <-]|[_ H']]%lookup_insert_Some Heq; [done| | |by eapply Hsb].
      * by destruct (Hfree' _ _ H').
      * by destruct (Hfree' _ _ H).
    + intros id x id' x' [[<- <-]|[_ H]]%lookup_insert_Some [[<- <-]|[_ H']]%lookup_insert_Some Heq Hnd; [done| | |by eapply Ha].
      * destruct Hnd. by apply (Hnew _ _ H').
      * destruct Hnd. rewrite Heq. by apply (Hnew _ _ H).
  - split; simpl; [|done|done|done]. intros id x H. exists x. rewrite lookup_insert_ne by congruence. split; [done|reflexivity].
Qed.

(** The id drawn for a new organisation is new. *)
Definition fresh_org (s : IdStore) (rnd : draws) (t : id_tables) : Prop :=
  ∀ id, newID "org_" (dr_org rnd) = Some id → it_orgs t !! id = None ∧ id ≠ is_defaultOrgID s.

(** What every transaction that returns a user leaves: the tables in order, and
    the user as the row has it. *)
Definition returns (s : IdStore) (t : id_tables) (u : User) (t' : id_tables) : Prop :=
  tables_ok s t' ∧ tables_keep t t' ∧ it_users t' !! u_ID u = Some u.

(** The organisation a new user gets has nobody in it, unless it is the default one. *)
Lemma new_org_alone s rnd email t orgID orgName (name : string) :
  known s → tables_ok s t → fresh_org s rnd t → valid_utf8 (is_defaultOrgID s) = true →
  (if is_bootstrap s email then Some (is_defaultOrgID s, is_defaultOrgName s)
   else (λ id, (id, name)) <$> newID "org_" (dr_org rnd)) = Some (orgID, orgName) →
  valid_utf8 orgID = true ∧ (orgID = is_defaultOrgID s → was_bootstrap email) ∧
  ∀ id x, it_users t !! id = Some x → u_OrganizationID x = orgID → orgID = is_defaultOrgID s.
Proof.
  intros Hkn Ht Hf Hv. destruct (is_bootstrap s email) eqn:Hb.
  - intros [= <- <-]. split_and!; [done| |done]. intros _. by apply (bootstrap_was s).
  - destruct (newID _ _) as [id0|] eqn:Hid; [|done]. intros [= <- <-]. destruct (Hf _ Hid) as [Hn Hd]. split_and!.
    + by apply (newID_valid "org_" _ _ eq_refl Hid).
    + done.
    + intros id x H <-. destruct (to_org _ _ Ht _ _ H). congruence.
Qed.

Lemma create_ok s rnd now p email t u t' :
  known s → tables_ok s t → fresh_org s rnd t → valid_utf8 (is_defaultOrgID s) = true →
  create pg_lower s rnd now p email t = Ok (u, t') → returns s t u t' ∧ u_GoogleSub u = pf_Sub p.
Proof.
  intros Hkn Ht Hf Hv. unfold create. destruct (newID "usr_" _) as [userID|] eqn:Huid; [|done].
  destruct (if is_bootstrap s email then _ else _) as [[orgID orgName]|] eqn:Horg; [|done].
  destruct (new_org_alone _ _ _ _ _ _ _ Hkn Ht Hf Hv Horg) as (Hvo & Hdef & Hnew).
  destruct (negb (pg_text orgName)); [done|]. cbn zeta. destruct (insert_user _ _ _) as [t1|] eqn:Hi; [|done]. intros [= <- <-].
  destruct (insert_org_ok s orgID orgName t Ht) as [Ht0 Hk0].
  apply (insert_user_ok s) in Hi as (H1 & H2 & H3); try done.
  - split; [|done]. destruct (is_bootstrap s email); [split_and!; [done|by etrans|done]|].
    destruct (set_owner_ok s orgID userID t1 H1) as [H4 H5]. split_and!; [done|by etrans; [|etrans]|by rewrite set_owner_users].
  - by apply (newID_valid "usr_" _ _ eq_refl Huid).
  - intros id x. rewrite insert_org_users. apply Hnew.
Qed.

Lemma grant_ok s rnd now u t u' t' :
  known s → tables_ok s t → it_users t !! u_ID u = Some u → is_bootstrap s (u_Email u) = true → grant rnd now u t = Ok (u', t') →
  returns s t u' t' ∧ u_GoogleSub u' = u_GoogleSub u.
Proof.
  intros Hkn Ht Hu Hb. unfold grant. destruct (u_IsSuperadmin u) eqn:Hsu.
  { intros [= <- <-]. split; [|done]. by split_and!. }
  destruct (audit _ _ _ _ _ _ _) as [t1|] eqn:Ha; [|done]. intros [= <- <-].
  apply audit_inv in Ha as (e & He1 & He2 & ->). split; [|done].
  destruct (tables_ok_ext s t (with_audit (cons e) t) Ht) as [H1 H2]; [done|done|intros e' ?; by right|done|].
  replace (with_users (alter as_superadmin (u_ID u)) _) with (with_users <[u_ID u := as_superadmin u]> (with_audit (cons e) t)).
  - destruct (update_user_ok s (with_audit (cons e) t) u (as_superadmin u) H1 Hu eq_refl) as [H3 H4]; [by split|..].
    + intros _. right. split; [by apply (bootstrap_was s)|]. exists e. split; [by left|done].
    + split_and!; [done|by etrans|apply lookup_insert_eq].
  - unfold with_users, with_audit. f_equal. simpl. apply map_eq. intros id. destruct (decide (u_ID u = id)) as [<-|Hne].
    + by rewrite lookup_insert_eq, lookup_alter_eq, Hu.
    + by rewrite lookup_insert_ne, lookup_alter_ne.
Qed.

Lemma claim_ok s rnd now u t u' t' :
  tables_ok s t → it_users t !! u_ID u = Some u → claim_default_org s rnd now u t = Ok (u', t') → returns s t u' t' ∧ u' = u.
Proof.
  intros Ht Hu. unfold claim_default_org. assert (returns s t u t) by (by split_and!).
  destruct (it_orgs t !! _) as [o|]; [|by intros [= <- <-]]. case_match; [by intros [= <- <-]|].
  destruct (audit _ _ _ _ _ _ _) as [t1|] eqn:Ha; [|done]. intros [= <- <-]. apply audit_inv in Ha as (e & _ & _ & ->).
  destruct (tables_ok_ext s t (with_audit (cons e) t) Ht) as [H1 H2]; [done|done|intros e' ?; by right|done|].
  destruct (set_owner_ok s (is_defaultOrgID s) (u_ID u) _ H1) as [H3 H4].
  split; [|done]. split_and!; [done|by etrans|by rewrite set_owner_users].
Qed.

Lemma applyBootstrap_ok s rnd now u t u' t' :
  known s → tables_ok s t → it_users t !! u_ID u = Some u → applyBootstrap s rnd now u t = Ok (u', t') →
  returns s t u' t' ∧ u_GoogleSub u' = u_GoogleSub u.
Proof.
  intros Hkn Ht Hu. unfold applyBootstrap. destruct (is_bootstrap s (u_Email u)) eqn:Hb.
  - destruct (grant _ _ _ _) as [[u1 t1]|] eqn:Hg; [|done]. apply (grant_ok s) in Hg as [(H1 & H2 & H3) Hsub]; try done.
    intros Hc. apply (claim_ok s) in Hc as [(H4 & H5 & H6) ->]; try done. split; [|done]. split_and!; [done|by etrans|done].
  - intros [= <- <-]. split; [|done]. by split_and!.
Qed.

Lemma sign_in_ok s rnd now p t u b t' :
  known s → tables_ok s t → fresh_org s rnd t → valid_utf8 (is_defaultOrgID s) = true →
  sign_in_body ToLower pg_lower s rnd now p t = Ok (u, b, t') → returns s t u t' ∧ u_GoogleSub u = pf_Sub p.
Proof.
  intros Hkn Ht Hf Hv. unfold sign_in_body. destruct (signInExisting _ _ _) as [[[u0 t0]|]|] eqn:Hs; [| |done].
  - apply (signInExisting_ok s) in Hs as (H1 & H2 & H3 & Hsub); [|done].
    destruct (applyBootstrap _ _ _ _ _) as [[u1 t1]|] eqn:Hb; [|done]. intros [= <- <- <-].
    apply (applyBootstrap_ok s) in Hb as [(H4 & H5 & H6) Hsub']; try done. split; [|congruence]. split_and!; [done|by etrans|done].
  - destruct (user_where _ _) eqn:Hw; [done|]. destruct (create _ _ _ _ _ _ _) as [[u0 t0]|] eqn:Hc; [|done].
    apply create_ok in Hc as [(H1 & H2 & H3) Hsub]; try done.
    destruct (applyBootstrap _ _ _ _ _) as [[u1 t1]|] eqn:Hb; [|done]. intros [= <- <- <-].
    apply (applyBootstrap_ok s) in Hb as [(H4 & H5 & H6) Hsub']; try done. split; [|congruence]. split_and!; [done|by etrans|done].
Qed.

(** Whatever becomes of the transaction, the tables are in order; and a user who
    is returned is the row of the profile's subject. *)
Lemma FindOrCreate_ok s fate rnd now p t :
  known s → tables_ok s t → fresh_org s rnd t → valid_utf8 (is_defaultOrgID s) = true →
  let '(x, t') := FindOrCreateGoogleUser ToLower pg_lower s fate rnd now p t in
  tables_ok s t' ∧ tables_keep t t' ∧
  ∀ u b, x = Ok (u, b) → it_users t' !! u_ID u = Some u ∧ u_GoogleSub u = pf_Sub p.
Proof.
  intros Hkn Ht Hf Hv. unfold FindOrCreateGoogleUser. destruct (bool_decide _ || _); [by split_and!|]. unfold transact.
  destruct (sign_in_body _ _ _ _ _ _ _) as [[[u b] t1]|] eqn:Hs; [|by destruct fate; split_and!].
  apply sign_in_ok in Hs as [(H1 & H2 & H3) Hsub]; [|done..].
  destruct fate; split_and!; try done. by intros ? ? [= <- <-].
Qed.

End identity.

(** A later address does not disturb what was granted under the earlier ones. *)
Lemma tables_ok_weaken held held' s t : held ⊆ held' → tables_ok held s t → tables_ok held' s t.
Proof.
  intros Hsub [H1 H2 H3 H4 H5 H6 H7 H8]. unfold was_bootstrap in *. split; try done.
  - intros id u Hu Hs. destruct (H4 id u Hu Hs) as [[? ?%Hsub] ?]. done.
  - intros id u Hu Hd. destruct (H5 id u Hu Hd) as [? ?%Hsub]. done.
Qed.

Lemma tables_ok_empty held s t : it_users t = ∅ → tables_ok held s t.
Proof. intros He. split; rewrite He; intros; by simplify_map_eq. Qed.
