(* ===== verification/AuthHandlersFacts.v ===== *)
(** * Who the admin listener lets in

    Every request may be an attacker's: its cookies, query and headers are
    arbitrary, but for one thing.  A signature under the gateway's secret that a
    cookie carries is one the gateway has sent ([unforged]): what HMAC-SHA256 is
    trusted for. *)

From Stdlib Require Import Ascii.
From S2P Require Import Prelude Text Base64 Json Float32 Sha256 Duration Token OAuth IdentityStore Sessions SessionFacts AuthHandlers IdentityFacts.

(** ** Cookie values *)

Lemma stamped_inj secret b b' : stamped secret b = stamped secret b' → b = b'.
Proof. intros H. pose proof (open_stamped secret b) as H1. rewrite H, open_stamped in H1. by injection H1. Qed.

Lemma stamped_dot secret b : free "." (stamped secret b) = false.
Proof.
  destruct (free "." (stamped secret b)) eqn:Hf; [|done]. apply CutLast_None in Hf. by rewrite open_stamped in Hf.
Qed.

Lemma encoded_not_stamped secret a b : EncodeToString a ≠ stamped secret b.
Proof. intros H. pose proof (stamped_dot secret b) as Hs. by rewrite <- H, dot_free in Hs. Qed.

Lemma unix_time_le sec : 0 ≤ sec → unix_time sec ≤ sec * second.
Proof.
  intros H. unfold unix_time. apply Z.mul_le_mono_nonneg_r; [by vm_compute|]. unfold wrap64.
  pose proof (Z.mod_le (sec + 62135596800 + 2 ^ 63) (2 ^ 64)). lia.
Qed.

(** ** Sessions *)

Section store.
Context (make_interval : float64 → Z).

Definition sessions_age (t t' : id_tables) : Prop := ages (it_sessions t) (it_sessions t').

#[global] Instance sessions_age_preorder : PreOrder sessions_age.
Proof. split; [intros t; unfold sessions_age; reflexivity|]. intros t1 t2 t3 H1 H2. unfold sessions_age in *. by etrans. Qed.

Lemma CreateSession_ok fate now user a t :
  let '(x, t') := CreateSession make_interval fate now user a t in
  it_users t' = it_users t ∧ it_orgs t' = it_orgs t ∧ it_audit t' = it_audit t ∧ sessions_age t t' ∧
  ∀ sess, x = Ok sess → (∃ r, it_sessions t' !! se_ID sess = Some r ∧ s_UserID r = user) ∧
                        valid_utf8 (se_ID sess) = true ∧ ∃ b, se_Raw sess = EncodeToString b.
Proof.
  unfold CreateSession, transact. destruct (insertSession _ _ _ _ _) as [[sess t1]|] eqn:Hi;
    [|by destruct fate; split_and!; try done; apply ages_preorder].
  pose proof Hi as (r & Hn & -> & Hu & _)%insertSession_inv.
  assert (valid_utf8 (se_ID sess) = true ∧ ∃ b, se_Raw sess = EncodeToString b) as Hv.
  { unfold insertSession in Hi. destruct (newID _ _) as [id|] eqn:Hid; [|done]. destruct (newRefreshToken _) as [raw|] eqn:Hraw; [|done].
    apply fmap_Some in Hraw as (b & _ & ->). case_match; [|done]. injection Hi as <- _. simpl.
    split; [by apply (newID_valid "ses_" _ _ eq_refl Hid)|by exists b]. }
  destruct fate; split_and!; try done; try (by apply ages_preorder); try (by apply ages_insert).
  intros sess' [= <-]. split; [|done]. exists r. split; [apply lookup_insert_eq|done].
Qed.

Lemma RotateSession_ok fate now raw a t :
  let '(x, t') := RotateSession make_interval fate now raw a t in
  it_users t' = it_users t ∧ it_orgs t' = it_orgs t ∧ it_audit t' = it_audit t ∧ sessions_age t t' ∧
  ∀ u sess, x = Ok (u, sess) →
    (∃ user r, it_users t !! user = Some u ∧ it_sessions t' !! se_ID sess = Some r ∧ s_UserID r = user) ∧
    valid_utf8 (se_ID sess) = true ∧ ∃ b, se_Raw sess = EncodeToString b.
Proof.
  unfold RotateSession, transact, rotate_body.
  destruct (find_session _ _) as [[old r]|] eqn:Hf; [|by destruct fate; split_and!; try done; apply ages_preorder].
  apply find_session_Some in Hf as [Hf _]. destruct (revoked r || rotated r) eqn:Hsp.
  { destruct fate; split_and!; try done; try (by apply ages_preorder); try (by apply ages_revoke). }
  destruct (expired now r); [by destruct fate; split_and!; try done; apply ages_preorder|].
  destruct (exchange_body _ _ _ _ _ _) as [[[u next] t1]|] eqn:Hx; [|by destruct fate; split_and!; try done; apply ages_preorder].
  apply exchange_inv in Hx as (t2 & Hi & -> & Hu).
  pose proof (CreateSession_ok TxCommits now (s_UserID r) a t) as Hc. unfold CreateSession, transact in Hc. rewrite Hi in Hc.
  destruct Hc as (Hu2 & Ho2 & Ha2 & Hg2 & Hs2). destruct (Hs2 next eq_refl) as ((r2 & Hr2 & Hu3) & Hv & Hb).
  apply orb_false_iff in Hsp as [_ Hro].
  assert (sessions_age t (with_sessions (alter (rotate_to now (se_ID next)) old) t2)) as Hg.
  { etrans; [exact Hg2|]. apply insertSession_inv in Hi as (r' & Hn & -> & _). apply ages_alter. simpl.
    rewrite lookup_insert_ne by congruence. intros r0 H. rewrite Hf in H. injection H as <-.
    split; [done|done|intros _; apply rotate_to_revoked|]. intros x Hx.
    assert (rotated r = true) by (apply rotated_Some; by exists x). congruence. }
  destruct fate; split_and!; try done; try (by apply ages_preorder).
  intros u' sess' [= <- <-]. split; [|done]. rewrite Hu2 in Hu. exists (s_UserID r).
  destruct (decide (old = se_ID next)) as [->|Hne].
  - exists (rotate_to now (se_ID next) r2). simpl. rewrite lookup_alter_eq, Hr2. by split_and!.
  - exists r2. simpl. rewrite lookup_alter_ne by done. by split_and!.
Qed.

Lemma RevokeSession_ok fate now raw t :
  let '(x, t') := RevokeSession fate now raw t in
  it_users t' = it_users t ∧ it_orgs t' = it_orgs t ∧ it_audit t' = it_audit t ∧ sessions_age t t'.
Proof.
  unfold RevokeSession, transact.
  assert (∀ rows, ages rows (match find_session (hashToken raw) rows with Some (id, _) => alter (revoke_at now) id rows | None => rows end)) as Hg.
  { intros rows. destruct (find_session _ rows) as [[id r]|]; [|reflexivity]. apply ages_alter. intros r' _. apply revoke_at_ages. }
  destruct fate; split_and!; try done; try (by apply ages_preorder); apply Hg.
Qed.

End store.

(** ** The world of the endpoints *)

Section world.
Context (ToLower pg_lower : string → string) (make_interval : float64 → Z) (cfg : AuthConfig) (held : list string).

Notation key := (ac_Secret cfg).
Notation s := (ac_store cfg).
Notation tables_ok := (IdentityFacts.tables_ok held).

Definition unforged (sent : list http_cookie) (q : auth_request) : Prop :=
  ∀ name v body sig, rq_Cookie q name = Some v → CutLast "." v = Some (body, sig) → DecodeString sig = Some (sign key body) →
    ∃ c, c ∈ sent ∧ ck_Value c = stamped key body.

(** The clock counts seconds in 64 bits; the bytes drawn for a verifier are not
    by chance the claims of a token, nor those of an organisation's id used. *)
Record fair (wx : auth_weather) (t : id_tables) : Prop := {
  fa_clock : in_int64 (ax_now wx / second) ∧ in_int64 ((ax_now wx + ac_AccessTTL cfg) / second);
  fa_verifier b : ax_verifier wx = Some b → decode_claims b = None;
  fa_org : fresh_org s (ax_draws wx) t
}.

(** A token that speaks for a user: the row is there with this organisation, the
    session was issued to the user, and the token lives for the access lifetime
    from when it was made, [n]. *)
Record backed (t : id_tables) (c : Claims) (u : User) (n : Z) : Prop := {
  bk_user : it_users t !! cm_UserID c = Some u;
  bk_org : u_OrganizationID u = cm_OrgID c;
  bk_super : cm_Superadmin c = true → u_IsSuperadmin u = true;
  bk_session : ∃ r, it_sessions t !! cm_SessionID c = Some r ∧ s_UserID r = cm_UserID c;
  bk_ok : claims_ok c;
  bk_expires : cm_ExpiresAt c = (n + ac_AccessTTL cfg) / second
}.

Definition signed_ok (t : id_tables) (body : string) : Prop :=
  (∃ c u n, body = token_body c ∧ backed t c u n) ∨
  (∃ a b, body = dot (EncodeToString a) (EncodeToString b) ∧ decode_claims b = None) ∨
  (∃ a, body = EncodeToString a).

Definition sent_ok (t : id_tables) (sent : list http_cookie) : Prop :=
  ∀ c body, c ∈ sent → ck_Value c = stamped key body → signed_ok t body.

Definition evolves (t t' : id_tables) : Prop := users_keep (it_users t) (it_users t') ∧ sessions_age t t'.

#[global] Instance evolves_preorder : PreOrder evolves.
Proof.
  split; [intros t; by split|]. intros t1 t2 t3 [U1 S1] [U2 S2]. split; by etrans.
Qed.

Lemma signed_ok_later t t' body : evolves t t' → signed_ok t body → signed_ok t' body.
Proof.
  intros [Hu Hs] [(c & u & n & -> & [H1 H2 H3 (r & Hr & Hru) H5 H6])|H]; [left|by right].
  destruct (Hu _ _ H1) as (u' & Hu' & [Ho _ _ Hsu]). destruct (Hs _ _ Hr) as (r' & Hr' & [Hru' _ _ _]).
  exists c, u', n. split; [done|]. split; [done|congruence|auto| |done|done]. exists r'. split; [done|congruence].
Qed.

Lemma sent_ok_later t t' sent : evolves t t' → sent_ok t sent → sent_ok t' sent.
Proof. intros He Hs c body Hc Hv. eapply signed_ok_later; [exact He|]. by eapply Hs. Qed.

Lemma sent_ok_app t cs cs' : sent_ok t cs → sent_ok t cs' → sent_ok t (cs ++ cs').
Proof. intros H1 H2 c body [Hc|Hc]%elem_of_app; [by apply H1|by apply H2]. Qed.

(** A cookie that carries no signature. *)
Lemma sent_ok_plain t cs :
  Forall (λ c, free "." (ck_Value c) = true) cs → sent_ok t cs.
Proof.
  intros Hf c body Hc Hv. rewrite Forall_forall in Hf. specialize (Hf c Hc). by rewrite Hv, stamped_dot in Hf.
Qed.

Lemma sent_ok_stamped t name path age h body : signed_ok t body → sent_ok t [setCookie cfg name (stamped key body) path age h].
Proof. intros Hb c b ->%list_elem_of_singleton He. simpl in He. by apply stamped_inj in He as <-. Qed.

Lemma clearSession_ok t : sent_ok t (clearSession cfg).
Proof. apply sent_ok_plain. by repeat constructor. Qed.

Lemma cleared_state_ok t : sent_ok t [clearCookie cfg stateCookie refreshPath].
Proof. apply sent_ok_plain. by repeat constructor. Qed.

Lemma session_cookies_ok wx u sess b t :
  tables_ok s t → in_int64 (ax_now wx / second) ∧ in_int64 ((ax_now wx + ac_AccessTTL cfg) / second) →
  it_users t !! u_ID u = Some u → (∃ r, it_sessions t !! se_ID sess = Some r ∧ s_UserID r = u_ID u) → valid_utf8 (se_ID sess) = true →
  (∃ x, se_Raw sess = EncodeToString x) → sent_ok t (setSessionCookies cfg wx u sess b).1.
Proof.
  intros Ht Hw Hu Hr Hv [x Hx].
  assert (Hm : sent_ok t [setCookie cfg sessionCookie (mint key (session_claims cfg (ax_now wx) u sess)) "/" (whole_seconds (ac_AccessTTL cfg)) true]).
  { apply sent_ok_stamped. left. exists (session_claims cfg (ax_now wx) u sess), u, (ax_now wx). split; [done|].
    destruct (to_text _ _ _ Ht _ _ Hu) as [Hv1 Hv2]. destruct Hw. by split. }
  assert (Hp : ∀ path age h, sent_ok t [setCookie cfg refreshCookie (se_Raw sess) path age h]).
  { intros path age h. apply sent_ok_plain. constructor; [|done]. simpl. rewrite Hx. apply dot_free. }
  unfold setSessionCookies. destruct b; [destruct (newCSRFToken _ _) as [csrf|] eqn:Hc|]; simpl.
  - apply (sent_ok_app _ [_] [_; _]); [done|]. apply (sent_ok_app _ [_] [_]); [apply Hp|].
    apply fmap_Some in Hc as (a & _ & ->). apply sent_ok_stamped. right; right. by exists a.
  - by apply (sent_ok_app _ [_] [_]).
  - by apply (sent_ok_app _ [_] [_]).
Qed.

(** ** Every endpoint keeps the world in order *)

Lemma tables_ok_same t t' :
  it_users t' = it_users t → it_orgs t' = it_orgs t → it_audit t' = it_audit t → tables_ok s t → tables_ok s t'.
Proof. intros Hu Ho Ha [H1 H2 H3 H4 H5 H6 H7 H8]. unfold granted in *. by split; rewrite ?Hu, ?Ho; unfold granted; rewrite ?Ha. Qed.

Definition serves (t : id_tables) (out : auth_response * id_tables) : Prop :=
  tables_ok s out.2 ∧ evolves t out.2 ∧ sent_ok out.2 (rs_Cookies out.1).

Lemma serves_same t resp : tables_ok s t → sent_ok t (rs_Cookies resp) → serves t (resp, t).
Proof. intros. split_and!; [done|reflexivity|done]. Qed.

Lemma serves_sessions t t' resp :
  tables_ok s t → it_users t' = it_users t → it_orgs t' = it_orgs t → it_audit t' = it_audit t → sessions_age t t' →
  sent_ok t' (rs_Cookies resp) → serves t (resp, t').
Proof.
  intros Ht Hu Ho Ha Hs Hc. split_and!; [by eapply tables_ok_same|split; [simpl; rewrite Hu; reflexivity|done]|done].
Qed.

Lemma start_serves wx t : tables_ok s t → fair wx t → serves t (start cfg wx t).
Proof.
  intros Ht Hw. unfold start. destruct (randomToken (ax_state wx)) as [state|] eqn:Hs; [|by apply serves_same; [|apply sent_ok_plain]].
  destruct (randomToken (ax_verifier wx)) as [verifier|] eqn:Hv; [|by apply serves_same; [|apply sent_ok_plain]].
  apply serves_same; [done|]. apply sent_ok_stamped. right; left.
  apply fmap_Some in Hs as (a & _ & ->). apply fmap_Some in Hv as (b & Hb & ->). exists a, b. split; [done|]. by eapply fa_verifier.
Qed.

Lemma issue_serves wx q u t :
  tables_ok s t → in_int64 (ax_now wx / second) ∧ in_int64 ((ax_now wx + ac_AccessTTL cfg) / second) →
  it_users t !! u_ID u = Some u →
  let '(cs, _, t') := issue make_interval cfg wx q u t in tables_ok s t' ∧ evolves t t' ∧ sent_ok t' cs.
Proof.
  intros Ht Hw Hu. unfold issue.
  pose proof (CreateSession_ok make_interval (ax_sessions wx) (ax_db_now wx) (u_ID u) (session_args cfg wx q) t) as Hc.
  destruct (CreateSession _ _ _ _ _ _) as [[sess|e] t']; destruct Hc as (H1 & H2 & H3 & H4 & H5).
  - destruct (H5 sess eq_refl) as (Hr & Hv & Hb).
    assert (tables_ok s t') as Ht' by (by eapply tables_ok_same).
    pose proof (session_cookies_ok wx u sess true t' Ht' Hw) as Hk. rewrite H1 in Hk. specialize (Hk Hu Hr Hv Hb).
    destruct (setSessionCookies cfg wx u sess true) as [cs ok]. split_and!; [done| |done]. split; [rewrite H1; reflexivity|done].
  - split_and!; [by eapply tables_ok_same|split; [rewrite H1; reflexivity|done]|by apply sent_ok_plain].
Qed.

Lemma callback_serves wx q t :
  known held s → tables_ok s t → fair wx t → valid_utf8 (is_defaultOrgID s) = true →
  serves t (callback ToLower pg_lower make_interval cfg wx q t).
Proof.
  intros Hkn Ht Hw Hd. unfold callback. pose proof (λ t, cleared_state_ok t) as Hcl.
  destruct (rq_Cookie q stateCookie) as [cookie|]; [|by apply serves_same].
  destruct (open _ cookie) as [[state verifier]|]; [|by apply serves_same].
  destruct (negb _); [by apply serves_same|]. destruct (negb _); [by apply serves_same|]. destruct (bool_decide _); [by apply serves_same|].
  destruct (Exchange _ _ _ _) as [profile|]; [|by apply serves_same].
  pose proof (FindOrCreate_ok ToLower pg_lower held s (ax_users wx) (ax_draws wx) (ax_db_now wx) profile t Hkn Ht (fa_org _ _ Hw) Hd) as Hf.
  destruct (FindOrCreateGoogleUser _ _ _ _ _ _ _ _) as [[[user b]|e] t1]; destruct Hf as (H1 & [Hk Hks _ _] & H2);
    assert (sessions_age t t1) as Hsa by (unfold sessions_age; rewrite Hks; reflexivity).
  - destruct (H2 _ _ eq_refl) as [Hu _]. pose proof (issue_serves wx q user t1 H1 (fa_clock _ _ Hw) Hu) as Hi.
    destruct (issue _ _ _ _ _ _) as [[cs ok] t2]. destruct Hi as (H3 & H4 & H5).
    assert (evolves t t2) by (etrans; [by split|exact H4]).
    destruct ok; (split_and!; [done|done|]); simpl; by apply (sent_ok_app _ [_] cs).
  - split_and!; [done|by split|done].
Qed.

Lemma refresh_serves wx q t : tables_ok s t → fair wx t → serves t (refresh make_interval cfg wx q t).
Proof.
  intros Ht Hw. unfold refresh. pose proof (λ t, clearSession_ok t) as Hcl.
  destruct (rq_Cookie q refreshCookie) as [raw|]; [|by apply serves_same]. case_bool_decide; [by apply serves_same|].
  pose proof (RotateSession_ok make_interval (ax_sessions wx) (ax_db_now wx) raw (session_args cfg wx q) t) as Hr.
  destruct (RotateSession _ _ _ _ _ _) as [[[u sess]|e] t1]; destruct Hr as (H1 & H2 & H3 & H4 & H5).
  - destruct (H5 _ _ eq_refl) as ((user & r & Hu & Hr & Hru) & Hv & Hb). pose proof (to_key _ _ _ Ht _ _ Hu) as <-.
    assert (tables_ok s t1) as Ht1 by (by eapply tables_ok_same).
    pose proof (session_cookies_ok wx u sess false t1 Ht1 (fa_clock _ _ Hw)) as Hk. rewrite H1 in Hk.
    specialize (Hk Hu (ex_intro _ r (conj Hr Hru)) Hv Hb).
    destruct (setSessionCookies cfg wx u sess false) as [cs []]; by apply serves_sessions.
  - by apply serves_sessions.
Qed.

Lemma logout_serves wx q t : tables_ok s t → serves t (logout cfg wx q t).
Proof.
  intros Ht. unfold logout. pose proof (λ t, clearSession_ok t) as Hcl.
  destruct (rq_Cookie q refreshCookie) as [raw|]; [|by apply serves_same]. case_bool_decide; [by apply serves_same|].
  pose proof (RevokeSession_ok (ax_sessions wx) (ax_db_now wx) raw t) as Hr.
  destruct (RevokeSession _ _ _ _) as [[] t1]; destruct Hr as (H1 & H2 & H3 & H4); by apply serves_sessions.
Qed.

Lemma Routes_serves r wx q t :
  known held s → tables_ok s t → fair wx t → valid_utf8 (is_defaultOrgID s) = true →
  serves t (Routes ToLower pg_lower make_interval cfg r wx q t).
Proof.
  intros Hkn Ht Hw Hd. destruct r; cbn [Routes].
  - by apply start_serves.
  - by apply callback_serves.
  - apply serves_same; [done|]. unfold me. pose proof (clearSession_ok t). repeat case_match; try done; by apply sent_ok_plain.
  - destruct (RequireCSRF cfg q) as [resp|] eqn:Hc; [|by apply refresh_serves]. apply serves_same; [done|].
    unfold RequireCSRF in Hc. repeat case_match; simplify_eq; by apply sent_ok_plain.
  - destruct (RequireCSRF cfg q) as [resp|] eqn:Hc; [|by apply logout_serves]. apply serves_same; [done|].
    unfold RequireCSRF in Hc. repeat case_match; simplify_eq; by apply sent_ok_plain.
Qed.

(** What an unforged token that verifies was made from. *)
Lemma verified_backed t sent q now c :
  sent_ok t sent → unforged sent q → RequireSession cfg now q = Ok c → ∃ u n, backed t c u n ∧ now ≤ n + ac_AccessTTL cfg.
Proof.
  intros Hs Hq. unfold RequireSession. destruct (rq_Cookie q sessionCookie) as [v|] eqn:Hv; [|done]. case_bool_decide; [done|].
  destruct (verify _ v now) as [c'|[]] eqn:Hver; [|done|done]. intros [= <-].
  apply verify_inv in Hver as (body & sig & hd & enc & payload & Hcut & Hsig & Hb & Henc & Hdec & _ & _ & Hpos & Hnow).
  destruct (Hq _ _ _ _ Hv Hcut Hsig) as (ck & Hck & Hval). destruct (Hs _ _ Hck Hval) as [(c & u & n & -> & Hbk)|[(a & b & -> & Hno)|(a & ->)]].
  - rewrite cut_token_body in Hb. apply (inj Some) in Hb. apply pair_eq in Hb as [_ <-]. rewrite base64_round_trip in Henc. apply (inj Some) in Henc as <-.
    rewrite decode_claims_marshal in Hdec by apply (bk_ok _ _ _ _ Hbk). apply (inj Some) in Hdec as <-. exists u, n. split; [done|].
    rewrite (bk_expires _ _ _ _ Hbk) in *. etrans; [exact Hnow|]. etrans; [apply unix_time_le; lia|].
    pose proof (Z.mul_div_le (n + ac_AccessTTL cfg) second ltac:(by vm_compute)). lia.
  - unfold dot in Hb. rewrite Cut_app in Hb by apply dot_free. injection Hb as <- <-. rewrite base64_round_trip in Henc. by simplify_eq.
  - by rewrite Cut_None in Hb by apply dot_free.
Qed.

(** ** What it takes to get a session *)

(** Of the cookies that are set, the session cookies with a value. *)
Definition session_values (cs : list http_cookie) : list string :=
  map ck_Value (keep (λ c, bool_decide (ck_Name c = sessionCookie) && negb (bool_decide (ck_Value c = ""%string))) cs).

Lemma session_values_new wx u sess b :
  session_values (setSessionCookies cfg wx u sess b).1 = [mint key (session_claims cfg (ax_now wx) u sess)].
Proof.
  assert (∀ c, mint key c ≠ ""%string) as Hm.
  { intros c H. pose proof (stamped_dot key (token_body c)) as Hd. unfold mint in H. by rewrite H in Hd. }
  assert (∀ cs, session_values (setCookie cfg sessionCookie (mint key (session_claims cfg (ax_now wx) u sess)) "/" (whole_seconds (ac_AccessTTL cfg)) true
    :: cs) = mint key (session_claims cfg (ax_now wx) u sess) :: session_values cs) as Hc.
  { intros cs. unfold session_values. cbn [keep setCookie ck_Name ck_Value]. by rewrite (bool_decide_eq_true_2 (sessionCookie = sessionCookie)), (bool_decide_eq_false_2 _ (Hm _)) by done. }
  unfold setSessionCookies. destruct b; [destruct (newCSRFToken _ _)|]; cbn [app fst]; rewrite Hc; done.
Qed.

(** A sign-in that was started with this state and that Google vouches for:
    Google's claims [cl] passed the checks, the tables the callback leaves have
    one row with their subject, and the cookie is minted from that row, for a
    session of that user which the callback has put in the tables. *)
Definition signed_in_now (wx : auth_weather) (q : auth_request) (t' : id_tables) (value : string) : Prop :=
  ∃ cookie verifier p cl u sess row,
    rq_Cookie q stateCookie = Some cookie ∧ open key cookie = Some (rq_Query q "state", verifier) ∧
    Exchange (ac_OAuth cfg) (rq_Query q "code") verifier (ax_now wx) = Ok p ∧
    vouched (oc_ClientID (ac_OAuth cfg)) (ax_now wx) cl ∧ pf_Sub p = ic_Sub cl ∧
    it_users t' !! u_ID u = Some u ∧ u_GoogleSub u = ic_Sub cl ∧
    (∀ id u', it_users t' !! id = Some u' → u_GoogleSub u' = ic_Sub cl → id = u_ID u) ∧
    it_sessions t' !! se_ID sess = Some row ∧ s_UserID row = u_ID u ∧
    value = mint key (session_claims cfg (ax_now wx) u sess).

(** A live refresh token, behind the CSRF check. *)
Definition refreshed_now (wx : auth_weather) (q : auth_request) (t : id_tables) (value : string) : Prop :=
  ∃ raw old row u sess,
    RequireCSRF cfg q = None ∧ rq_Cookie q refreshCookie = Some raw ∧
    find_session (hashToken raw) (it_sessions t) = Some (old, row) ∧ spent row = false ∧ expired (ax_db_now wx) row = false ∧
    it_users t !! s_UserID row = Some u ∧ u_ID u = s_UserID row ∧ value = mint key (session_claims cfg (ax_now wx) u sess).

Lemma callback_session wx q t value :
  known held s → tables_ok s t → fair wx t → valid_utf8 (is_defaultOrgID s) = true →
  let out := callback ToLower pg_lower make_interval cfg wx q t in
  value ∈ session_values (rs_Cookies out.1) → signed_in_now wx q out.2 value.
Proof.
  intros Hkn Ht Hw Hd. unfold callback. assert (Hn : value ∉ session_values []) by (by intros ?%elem_of_nil).
  destruct (rq_Cookie q stateCookie) as [cookie|] eqn:Hck; [|done]. destruct (open _ cookie) as [[state verifier]|] eqn:Ho; [|done].
  destruct (bool_decide_reflect (state = rq_Query q "state")) as [->|]; [|done]. cbn [negb].
  destruct (negb _); [done|]. destruct (bool_decide _); [done|]. destruct (Exchange _ _ _ _) as [p|] eqn:He; [|done].
  pose proof (FindOrCreate_ok ToLower pg_lower held s (ax_users wx) (ax_draws wx) (ax_db_now wx) p t Hkn Ht (fa_org _ _ Hw) Hd) as Hf.
  destruct (FindOrCreateGoogleUser _ _ _ _ _ _ _ _) as [[[user b]|e] t1]; [|done]. destruct Hf as (Ht1 & _ & Hf).
  destruct (Hf _ _ eq_refl) as [Hu Hsub]. destruct (Exchange_vouched _ _ _ _ _ He) as (cl & Hv & Hs & _).
  unfold issue. pose proof (CreateSession_ok make_interval (ax_sessions wx) (ax_db_now wx) (u_ID user) (session_args cfg wx q) t1) as Hc.
  destruct (CreateSession _ _ _ _ _ _) as [[sess|] t2]; [|done]. destruct Hc as (Hu2 & _ & _ & _ & Hc).
  destruct (Hc _ eq_refl) as ((row & Hrow & Huser) & _).
  pose proof (session_values_new wx user sess true) as Hval. destruct (setSessionCookies cfg wx user sess true) as [cs ok].
  assert (session_values (clearCookie cfg stateCookie refreshPath :: cs) = session_values cs) as Hskip by done.
  intros Hin. assert (value ∈ session_values cs) as Hin' by (rewrite <- Hskip; by destruct ok).
  cbn [fst] in Hval. rewrite Hval in Hin'. apply list_elem_of_singleton in Hin' as ->.
  clear Hin Hval Hskip Hn. cut (signed_in_now wx q t2 (mint key (session_claims cfg (ax_now wx) user sess))); [by destruct ok|].
  exists cookie, verifier, p, cl, user, sess, row. rewrite Hu2. split_and!; try done; [congruence|].
  intros id u' Hu' Hs'. eapply (to_sub _ _ _ Ht1); [done..|congruence].
Qed.

Lemma refresh_session wx q t value :
  tables_ok s t → RequireCSRF cfg q = None → value ∈ session_values (rs_Cookies (refresh make_interval cfg wx q t).1) → refreshed_now wx q t value.
Proof.
  intros Ht Hcs. unfold refresh. assert (Hn : value ∉ session_values []) by (by intros ?%elem_of_nil).
  destruct (rq_Cookie q refreshCookie) as [raw|] eqn:Hck; [|done]. case_bool_decide; [done|].
  unfold RotateSession, transact, rotate_body. destruct (find_session _ _) as [[old row]|] eqn:Hf; [|by destruct (ax_sessions wx)].
  change (revoked row || rotated row) with (spent row). destruct (spent row) eqn:Hsp; [by destruct (ax_sessions wx)|].
  destruct (expired _ row) eqn:Hex; [by destruct (ax_sessions wx)|].
  destruct (exchange_body _ _ _ _ _ _) as [[[u sess] t1]|] eqn:Hx; [|by destruct (ax_sessions wx)].
  destruct (ax_sessions wx); [|done|done]. pose proof (session_values_new wx u sess false) as Hval.
  destruct (setSessionCookies cfg wx u sess false) as [cs ok]. cbn [fst] in Hval.
  intros Hin. assert (value ∈ session_values cs) as Hin' by (by destruct ok).
  rewrite Hval in Hin'. apply list_elem_of_singleton in Hin' as ->.
  apply exchange_inv in Hx as (t2 & (r' & _ & -> & _)%insertSession_inv & _ & Hu).
  exists raw, old, row, u, sess. split_and!; try done. by apply (to_key _ _ _ Ht).
Qed.

Lemma Routes_session r wx q t value :
  known held s → valid_utf8 (is_defaultOrgID s) = true → tables_ok s t → fair wx t →
  let out := Routes ToLower pg_lower make_interval cfg r wx q t in
  value ∈ session_values (rs_Cookies out.1) →
  (r = GETCallback ∧ signed_in_now wx q out.2 value) ∨ (r = POSTRefresh ∧ refreshed_now wx q t value).
Proof.
  intros Hkn Hd Ht Hw out set_. subst out.
  assert (Hn : value ∉ session_values []) by (by intros ?%elem_of_nil).
  destruct r; cbn [Routes] in *.
  - unfold start in set_. by repeat case_match.
  - left. split; [done|]. by apply callback_session.
  - exfalso. unfold me in set_. by repeat case_match.
  - right. split; [done|]. destruct (RequireCSRF cfg q) as [resp|] eqn:Hc; [|by apply refresh_session].
    exfalso. unfold RequireCSRF in Hc. by repeat case_match; simplify_eq.
  - exfalso. destruct (RequireCSRF cfg q) as [resp|] eqn:Hc; [unfold RequireCSRF in Hc; by repeat case_match; simplify_eq|].
    unfold logout in set_. destruct (rq_Cookie _ _); [|done]. case_bool_decide; [done|]. by destruct (RevokeSession _ _ _ _) as [[] ?].
Qed.

End world.

(** ** Any number of runs of the gateway *)

Section runs.
Context (ToLower pg_lower : string → string) (make_interval : float64 → Z) (cfg : AuthConfig).

(** The gateway started with another bootstrap address, in its normal form; the
    empty one turns the bootstrap off.  The rest of its configuration is [cfg]. *)
Definition at_address (a : string) : AuthConfig :=
  {| ac_OAuth := ac_OAuth cfg; ac_Secret := ac_Secret cfg; ac_SuccessURL := ac_SuccessURL cfg;
     ac_FailureURL := ac_FailureURL cfg; ac_Secure := ac_Secure cfg; ac_AccessTTL := ac_AccessTTL cfg;
     ac_RefreshTTL := ac_RefreshTTL cfg; ac_RoutingOptions := ac_RoutingOptions cfg;
     ac_store := {| is_superadminEmail := a; is_defaultOrgID := is_defaultOrgID (ac_store cfg);
                    is_defaultOrgName := is_defaultOrgName (ac_store cfg) |} |}.

(** The tables, every cookie that was ever set, and the bootstrap addresses that
    requests were served under. *)
Record auth_world := { au_tables : id_tables; au_sent : list http_cookie; au_held : list string }.

(** One request, served by a gateway that runs with the address [a]. *)
Inductive auth_step : auth_world → auth_world → Prop :=
| as_serve w a r wx q resp t :
    unforged cfg (au_sent w) q → fair cfg wx (au_tables w) → rq_Method q = method_of r →
    Routes ToLower pg_lower make_interval (at_address a) r wx q (au_tables w) = (resp, t) →
    auth_step w {| au_tables := t; au_sent := rs_Cookies resp ++ au_sent w; au_held := a :: au_held w |}.

(** Nobody has signed in yet; there may be organisations, which the import of the
    teams makes. *)
Definition new_world (orgs : gmap string Organization) : auth_world :=
  {| au_tables := {| it_users := ∅; it_orgs := orgs; it_sessions := ∅; it_audit := [] |}; au_sent := []; au_held := [] |}.

Record world_ok (w : auth_world) : Prop := {
  wo_tables : tables_ok (au_held w) (ac_store cfg) (au_tables w);
  wo_sent : sent_ok cfg (au_tables w) (au_sent w)
}.

(** The address matters to nothing but the bootstrap. *)
Lemma tables_ok_at held a t : tables_ok held (ac_store cfg) t ↔ tables_ok held (ac_store (at_address a)) t.
Proof. split; by intros []. Qed.

Lemma fair_at a wx t : fair cfg wx t → fair (at_address a) wx t.
Proof. by intros []. Qed.

Lemma sent_ok_at a t cs : sent_ok (at_address a) t cs → sent_ok cfg t cs.
Proof.
  intros H c body Hc Hv. destruct (H c body Hc Hv) as [(cl & u & n & Hb & Hbk)|Hr]; [left|by right].
  exists cl, u, n. split; [done|]. by destruct Hbk.
Qed.

Lemma known_at a held : known (a :: held) (ac_store (at_address a)).
Proof. unfold known. by left. Qed.

Lemma run_world_ok w w' :
  valid_utf8 (is_defaultOrgID (ac_store cfg)) = true → rtc auth_step w w' → world_ok w → world_ok w'.
Proof.
  intros Hd. induction 1 as [|w w1 w2 Hs _ IH]; intros Hw; [done|]. apply IH. clear IH.
  destruct Hs as [w a r wx q resp t _ Hf _ Hr]. destruct Hw as [Ht Hse].
  apply (tables_ok_weaken _ (a :: au_held w)) in Ht; [|by intros x ?; right].
  destruct (Routes_serves ToLower pg_lower make_interval (at_address a) (a :: au_held w) r wx q (au_tables w))
    as (H1 & H2 & H3); [apply known_at|by apply tables_ok_at|by apply fair_at|done|].
  rewrite Hr in H1, H2, H3. simpl in *. split; simpl; [by apply (tables_ok_at _ a)|].
  apply sent_ok_app; [by apply (sent_ok_at a)|]. by eapply sent_ok_later.
Qed.

Lemma reached_ok orgs w :
  valid_utf8 (is_defaultOrgID (ac_store cfg)) = true → rtc auth_step (new_world orgs) w → world_ok w.
Proof.
  intros Hd Hr. apply (run_world_ok _ _ Hd Hr). split; [by apply tables_ok_empty|]. intros ck body H. by apply elem_of_nil in H.
Qed.


End runs.

(** ** A sign-in, run *)

Module auth_demo.

Definition lower (s : string) : string := s.
Definition interval (x : float64) : Z := f64_trunc x * second.

Definition id_claims : json :=
  JObj [("iss", JStr "accounts.google.com"); ("aud", JStr "client"); ("sub", JStr "42"); ("exp", JInt 1800000000);
        ("email", JStr "boss@x.io"); ("email_verified", JBool true); ("name", JStr "Boss")]%string.
Definition google (_ _ : string) : option token_reply :=
  Some {| tr_status := 200;
          tr_body := Some (marshal (JObj [("id_token"%string, JStr ("h." ++ EncodeToString (marshal id_claims) ++ ".s"))])) |}.

Definition cfg : AuthConfig :=
  {| ac_OAuth := {| oc_ClientID := "client"; oc_ClientSecret := "shh"; oc_RedirectURL := "https://x.io/cb";
                    oc_HTTPClient := google; oc_authEndpoint := ""; oc_tokenEndpoint := "" |};
     ac_Secret := "key"; ac_SuccessURL := "/"; ac_FailureURL := "/login"; ac_Secure := true;
     ac_AccessTTL := 15 * minute; ac_RefreshTTL := 720 * 60 * minute; ac_RoutingOptions := None;
     ac_store := NewIdStore lower "boss@x.io" "personal" "Personal" |}.

Definition t0 : id_tables := {| it_users := ∅; it_orgs := ∅; it_sessions := ∅; it_audit := [] |}.
Definition wx : auth_weather :=
  {| ax_now := 1700000000 * second; ax_db_now := 1700000000 * second; ax_users := TxCommits; ax_sessions := TxCommits;
     ax_read := true; ax_draws := {| dr_user := Some "u"; dr_org := Some "o"; dr_grant := Some "g"; dr_owner := Some "w" |};
     ax_session_id := Some "s"; ax_refresh := Some "r"; ax_state := Some "state"; ax_verifier := Some "verifier";
     ax_csrf := Some "csrf" |}%string.

Definition no_cookies (_ : string) : option string := None.
Definition request (cookies : string → option string) (state : string) : auth_request :=
  {| rq_Method := "GET"; rq_Cookie := cookies; rq_Query := λ k, if bool_decide (k = "state"%string) then state
                                                      else if bool_decide (k = "code"%string) then "code" else "";
     rq_CSRF := ""; rq_UserAgent := "Firefox"; rq_RemoteAddr := "10.0.0.1:5000" |}.

Notation serve := (Routes lower lower interval cfg).

Definition state : string := EncodeToString "state".
Definition q1 : auth_request := request no_cookies "".
Definition out1 := serve GETGoogle wx q1 t0.

(** The browser comes back from Google with the sealed state. *)
Definition q2 : auth_request :=
  request (λ n, if bool_decide (n = stateCookie) then Some (seal "key" state (EncodeToString "verifier")) else None) state.
Definition out2 := serve GETCallback wx q2 t0.

Definition boss_claims : Claims :=
  {| cm_UserID := "usr_75"; cm_OrgID := "personal"; cm_Superadmin := true; cm_SessionID := "ses_73";
     cm_IssuedAt := 1700000000; cm_ExpiresAt := 1700000900 |}.
Definition q3 : auth_request :=
  request (λ n, if bool_decide (n = sessionCookie) then Some (mint "key" boss_claims) else None) "".

Definition boss : string := "boss@x.io".
Definition w0 : auth_world := new_world ∅.
Definition w1 : auth_world := {| au_tables := t0; au_sent := rs_Cookies out1.1 ++ []; au_held := [""%string] |}.
Definition w2 : auth_world := {| au_tables := out2.2; au_sent := rs_Cookies out2.1 ++ au_sent w1; au_held := [boss; ""%string] |}.

(** Presenting what was sent forges nothing. *)
Lemma replayed sent q :
  (∀ name v, rq_Cookie q name = Some v → ∃ b c, v = stamped "key" b ∧ c ∈ sent ∧ ck_Value c = v) → unforged cfg sent q.
Proof.
  intros H name v body sig Hv Hc _. destruct (H _ _ Hv) as (b & c & -> & Hin & Hval). exists c. split; [done|].
  rewrite open_stamped in Hc. by simplify_eq.
Qed.

Lemma t0_orgs id : it_orgs t0 !! id = None.
Proof. apply lookup_empty. Qed.

Lemma wx_fair t : (∀ id, it_orgs t !! id = None) → fair cfg wx t.
Proof.
  intros Hn. split; [split; by vm_compute|by intros b [= <-]; vm_compute|]. intros id [= <-]. split; [apply Hn|by vm_compute].
Qed.

Lemma sign_in_run : rtc (auth_step lower lower interval cfg) w0 w2.
Proof.
  eapply rtc_l; [|apply rtc_once].
  - apply (as_serve lower lower interval cfg w0 "" GETGoogle wx q1 out1.1 t0); [by intros name v body sig H|apply wx_fair, t0_orgs|done|].
    vm_compute. reflexivity.
  - apply (as_serve lower lower interval cfg w1 boss GETCallback wx q2 out2.1 out2.2); [|apply wx_fair, t0_orgs|done|apply surjective_pairing].
    apply replayed. intros name v. cbn [q2 request rq_Cookie]. case_bool_decide; [|done]. intros [= <-].
    exists (dot state (EncodeToString "verifier")), (setCookie cfg stateCookie (seal "key" state (EncodeToString "verifier")) "/auth" 600 true).
    split_and!; [done| |done]. apply (list_elem_of_lookup_2 _ 0). vm_compute. reflexivity.
Qed.

Lemma q3_unforged : unforged cfg (au_sent w2) q3.
Proof.
  apply replayed. intros name v. cbn [q3 request rq_Cookie]. case_bool_decide; [|done]. intros [= <-].
  exists (token_body boss_claims), (setCookie cfg sessionCookie (mint "key" boss_claims) "/" 900 true).
  split_and!; [done| |done]. apply (list_elem_of_lookup_2 _ 1). vm_compute. reflexivity.
Qed.



(** A second after its lifetime the token is refused; the session is still
    there to be refreshed. *)
Example token_expires : RequireSession cfg (1700000901 * second) q3 = Err (writeJSONError [] 401 "session_expired").
Proof. vm_compute. reflexivity. Qed.

(** When the CSRF token cannot be drawn the browser is told that the sign-in
    failed, with the session's cookies in the same response. *)
Example failed_sign_in_signs_in :
  let unlucky := {| ax_now := ax_now wx; ax_db_now := ax_db_now wx; ax_users := TxCommits; ax_sessions := TxCommits; ax_read := true;
                    ax_draws := ax_draws wx; ax_session_id := ax_session_id wx; ax_refresh := ax_refresh wx; ax_state := ax_state wx;
                    ax_verifier := ax_verifier wx; ax_csrf := None |} in
  let resp := (serve GETCallback unlucky q2 t0).1 in
  rs_Location resp = "/login?error=signin_failed"%string ∧ session_values (rs_Cookies resp) = [mint "key" boss_claims].
Proof. split; vm_compute; reflexivity. Qed.

End auth_demo.
