(* ===== verification/AdminTeams.v ===== *)
(** * internal/admin: the organisation's own surface

    gate.go's scoping, teams.go's eight endpoints and the audit trail they write
    through (audit.go of this package and of internal/logstore).  The state is
    the teams table and its snapshot, the audit table, and the Redis counters
    the budget is read from and reset in.  Each call to one of them has its own
    fate.  A response carries its status, its error's type and its view; error
    texts are fixed or name what the caller sent. *)

From S2P Require Import Prelude Redis Text Json Float32 Sha256 Calendar Budget Auth AuthFacts Decode Http Duration ConfigFiles TeamStore.

(** ** gate.go *)

Record Caller := { cl_UserID : string; cl_OrgID : string; cl_IsSuperadmin : bool; cl_SessionID : string }.

(** A request as a handler sees it: the session's caller, the peer address, the
    path's [{id}], [r.URL.Query().Get] and the body. *)
Record admin_request := {
  q_caller : option Caller; q_RemoteAddr : string; q_id : string; q_query : string → string; q_body : string }.

Definition q_team (q : admin_request) : string := q_query q "team".

(** A value of an audit entry's delta. *)
Inductive delta := DInt (n : Z) | DFloat (x : float64) | DText (s : string) | DTexts (l : list string) | DFlag (b : bool).

Record AuditEntry := {
  ae_ActorUserID : string; ae_ActorAddr : string; ae_Action : string; ae_OrganizationID : string; ae_Superadmin : bool;
  ae_TargetTeamID : string; ae_Before : gmap string delta; ae_After : gmap string delta }.

Definition actorID (q : admin_request) : string :=
  match q_caller q with
  | Some c => if bool_decide (cl_UserID c = ""%string) then "unknown" else cl_UserID c
  | None => "unknown"
  end.

Definition stampActor (q : admin_request) (targetOrg action target : string) (before after : gmap string delta) : AuditEntry :=
  {| ae_ActorUserID := actorID q; ae_ActorAddr := q_RemoteAddr q; ae_Action := action; ae_OrganizationID := targetOrg;
     ae_Superadmin := match q_caller q with Some c => cl_IsSuperadmin c | None => false end;
     ae_TargetTeamID := target; ae_Before := before; ae_After := after |}.

Record admin_error := { er_status : Z; er_type : string }.

Definition no_session : admin_error := {| er_status := 401; er_type := "no_session" |}.
Definition team_not_found : admin_error := {| er_status := 404; er_type := "team_not_found" |}.
Definition invalid_request : admin_error := {| er_status := 400; er_type := "invalid_request_error" |}.
Definition internal_error : admin_error := {| er_status := 500; er_type := "internal_error" |}.
Definition audit_unavailable : admin_error := {| er_status := 503; er_type := "audit_unavailable" |}.
Definition team_exists : admin_error := {| er_status := 409; er_type := "team_exists" |}.
Definition superadmin_required : admin_error := {| er_status := 403; er_type := "superadmin_required" |}.

(** [requireSuperadmin]: [None] passes. *)
Definition requireSuperadmin (q : admin_request) : option admin_error :=
  match q_caller q with
  | None => Some no_session
  | Some c => if cl_IsSuperadmin c then None else Some superadmin_required
  end.

Definition own (c : Caller) (t : Team) : bool := bool_decide (t_OrganizationID t = cl_OrgID c).

(** The team ids a caller's reads are limited to; [None] is no limit.  The code
    sorts them, to no effect on what they select. *)
Definition orgScope (q : admin_request) (s : snapshot) : result admin_error (option (list string)) :=
  match q_caller q with
  | None => Err no_session
  | Some c =>
      let mine := Ok (Some (map t_ID (keep (own c) (store_List s)))) in
      if bool_decide (q_team q ≠ ""%string) then
        if cl_IsSuperadmin c then Ok (Some [q_team q])
        else if existsb (λ t, bool_decide (t_ID t = q_team q) && own c t) (store_List s) then Ok (Some [q_team q])
        else mine
      else if cl_IsSuperadmin c then Ok None else mine
  end.

Definition teamInScope (q : admin_request) (s : snapshot) : result admin_error Team :=
  match q_caller q with
  | None => Err no_session
  | Some c =>
      match store_get (q_id q) s with
      | Err _ => Err team_not_found
      | Ok t => if negb (cl_IsSuperadmin c) && negb (own c t) then Err team_not_found else Ok t
      end
  end.

(** ** teams.go: views *)

Definition microsToUSD (micros : Z) : float64 := f64_div (f64_of_Z micros) (f64_of_Z microsPerUSD).

Record keyView := { kv_Source : string; kv_Masked : string; kv_CreatedAt : option Z }.

Record teamView := {
  tv_ID : string; tv_Name : string; tv_OrganizationID : string; tv_AllowedProviders : list string; tv_AllowedModels : list string;
  tv_RateLimits : RateLimits; tv_MonthlyBudgetUSD : float64; tv_SpentUSD : option float64; tv_BudgetUtilization : option float64;
  tv_Priority : Priority; tv_IsAdmin : bool; tv_Key : keyView }.

Definition keyViewOf (t : Team) : keyView :=
  {| kv_Source := if bool_decide (t_KeySource t = ""%string) then KeySourceConfig else t_KeySource t;
     kv_Masked := t_KeyMasked t; kv_CreatedAt := t_KeyCreatedAt t |}.

Definition newTeamView (t : Team) (spentMicros : option Z) : teamView :=
  {| tv_ID := t_ID t; tv_Name := t_Name t; tv_OrganizationID := t_OrganizationID t; tv_AllowedProviders := t_AllowedProviders t;
     tv_AllowedModels := t_AllowedModels t; tv_RateLimits := t_RateLimits t; tv_MonthlyBudgetUSD := microsToUSD (t_MonthlyBudgetMicros t);
     tv_SpentUSD := microsToUSD <$> spentMicros;
     tv_BudgetUtilization := match spentMicros with
                             | Some n => if 0 <? t_MonthlyBudgetMicros t then Some (f64_div (f64_of_Z n) (f64_of_Z (t_MonthlyBudgetMicros t))) else None
                             | None => None
                             end;
     tv_Priority := t_Priority t; tv_IsAdmin := t_IsAdmin t; tv_Key := keyViewOf t |}.

(** ** teams.go: bodies *)

(** [DisallowUnknownFields] *)
Fixpoint strict_field {A} (fs : setters A) (k : string) (v : json) (x : A) : option A :=
  match fs with
  | [] => None
  | (name, set) :: fs' => if same_field name k then set v x else strict_field fs' k v x
  end.

Definition decode_strict {A} (fs : setters A) (zero : A) (body : string) : option A :=
  match parse_first body with Some v => into_struct (strict_field fs) zero v | None => None end.

Definition into_float64 (old : float64) (v : json) : option float64 :=
  match v with JNum lit => ParseFloat64 lit | JNull => Some old | _ => None end.

Record teamPatchRequest := { pr_RPM : option Z; pr_TPM : option Z; pr_MonthlyBudgetUSD : option float64 }.

Definition patch_fields : setters teamPatchRequest :=
  [("rpm"%string, field (into_pointer into_int 0) pr_RPM (λ b x, {| pr_RPM := b; pr_TPM := pr_TPM x; pr_MonthlyBudgetUSD := pr_MonthlyBudgetUSD x |}));
   ("tpm"%string, field (into_pointer into_int 0) pr_TPM (λ b x, {| pr_RPM := pr_RPM x; pr_TPM := b; pr_MonthlyBudgetUSD := pr_MonthlyBudgetUSD x |}));
   ("monthly_budget_usd"%string, field (into_pointer into_float64 (f64_of_Z 0)) pr_MonthlyBudgetUSD
      (λ b x, {| pr_RPM := pr_RPM x; pr_TPM := pr_TPM x; pr_MonthlyBudgetUSD := b |}))].

Definition decode_patch : string → option teamPatchRequest :=
  decode_strict patch_fields {| pr_RPM := None; pr_TPM := None; pr_MonthlyBudgetUSD := None |}.

Record createTeamRequest := {
  cr_Name : string; cr_OrganizationID : string; cr_Priority : string; cr_RPM : Z; cr_TPM : Z; cr_MonthlyBudgetUSD : float64;
  cr_AllowedProviders : list string; cr_AllowedModels : list string; cr_IsAdmin : bool }.

Definition set_create (name org prio : string) (rpm tpm : Z) (usd : float64) (ps ms : list string) (adm : bool) : createTeamRequest :=
  {| cr_Name := name; cr_OrganizationID := org; cr_Priority := prio; cr_RPM := rpm; cr_TPM := tpm; cr_MonthlyBudgetUSD := usd;
     cr_AllowedProviders := ps; cr_AllowedModels := ms; cr_IsAdmin := adm |}.

Definition create_fields : setters createTeamRequest :=
  let texts := into_slice into_string ""%string in
  [("name"%string, field into_string cr_Name (λ b x, set_create b (cr_OrganizationID x) (cr_Priority x) (cr_RPM x) (cr_TPM x) (cr_MonthlyBudgetUSD x) (cr_AllowedProviders x) (cr_AllowedModels x) (cr_IsAdmin x)));
   ("organization_id"%string, field into_string cr_OrganizationID (λ b x, set_create (cr_Name x) b (cr_Priority x) (cr_RPM x) (cr_TPM x) (cr_MonthlyBudgetUSD x) (cr_AllowedProviders x) (cr_AllowedModels x) (cr_IsAdmin x)));
   ("priority"%string, field into_string cr_Priority (λ b x, set_create (cr_Name x) (cr_OrganizationID x) b (cr_RPM x) (cr_TPM x) (cr_MonthlyBudgetUSD x) (cr_AllowedProviders x) (cr_AllowedModels x) (cr_IsAdmin x)));
   ("rpm"%string, field into_int cr_RPM (λ b x, set_create (cr_Name x) (cr_OrganizationID x) (cr_Priority x) b (cr_TPM x) (cr_MonthlyBudgetUSD x) (cr_AllowedProviders x) (cr_AllowedModels x) (cr_IsAdmin x)));
   ("tpm"%string, field into_int cr_TPM (λ b x, set_create (cr_Name x) (cr_OrganizationID x) (cr_Priority x) (cr_RPM x) b (cr_MonthlyBudgetUSD x) (cr_AllowedProviders x) (cr_AllowedModels x) (cr_IsAdmin x)));
   ("monthly_budget_usd"%string, field into_float64 cr_MonthlyBudgetUSD (λ b x, set_create (cr_Name x) (cr_OrganizationID x) (cr_Priority x) (cr_RPM x) (cr_TPM x) b (cr_AllowedProviders x) (cr_AllowedModels x) (cr_IsAdmin x)));
   ("allowed_providers"%string, field texts cr_AllowedProviders (λ b x, set_create (cr_Name x) (cr_OrganizationID x) (cr_Priority x) (cr_RPM x) (cr_TPM x) (cr_MonthlyBudgetUSD x) b (cr_AllowedModels x) (cr_IsAdmin x)));
   ("allowed_models"%string, field texts cr_AllowedModels (λ b x, set_create (cr_Name x) (cr_OrganizationID x) (cr_Priority x) (cr_RPM x) (cr_TPM x) (cr_MonthlyBudgetUSD x) (cr_AllowedProviders x) b (cr_IsAdmin x)));
   ("is_admin"%string, field into_bool cr_IsAdmin (λ b x, set_create (cr_Name x) (cr_OrganizationID x) (cr_Priority x) (cr_RPM x) (cr_TPM x) (cr_MonthlyBudgetUSD x) (cr_AllowedProviders x) (cr_AllowedModels x) b))].

Definition decode_create : string → option createTeamRequest := decode_strict create_fields (set_create "" "" "" 0 0 (f64_of_Z 0) [] [] false).

(** ** Keys *)

Definition HashKey (raw : string) : string := hex_encode (sha256 raw).

(** [rand] is sixteen bytes of the system's entropy, or its failure. *)
Definition GenerateKey (teamID : string) (rand : option string) : option string :=
  match rand with Some b => Some ("sk-switchyard-" ++ teamID ++ "-" ++ hex_encode b)%string | None => None end.

(** ** teams.go: handlers *)

Definition limitsDelta (t : Team) : gmap string delta :=
  {["rpm"%string := DInt (RPM (t_RateLimits t)); "tpm"%string := DInt (TPM (t_RateLimits t));
    "monthly_budget_usd"%string := DFloat (microsToUSD (t_MonthlyBudgetMicros t))]}.

Definition priority_string (p : Priority) : string :=
  match p with PriorityRealtime => "realtime" | PriorityBatch => "batch" | PriorityOther s => s end.
Definition priority_of (s : string) : Priority :=
  if bool_decide (s = "realtime"%string) then PriorityRealtime else if bool_decide (s = "batch"%string) then PriorityBatch else PriorityOther s.

Definition teamSettings (t : Team) : gmap string delta :=
  let d := <["name"%string := DText (t_Name t)]> (<["priority"%string := DText (priority_string (t_Priority t))]>
    (<["allowed_providers"%string := DTexts (t_AllowedProviders t)]> (<["allowed_models"%string := DTexts (t_AllowedModels t)]>
    (<["is_admin"%string := DFlag (t_IsAdmin t)]> (limitsDelta t))))) in
  if bool_decide (t_OrganizationID t = ""%string) then d else <["organization_id"%string := DText (t_OrganizationID t)]> d.

(** The body's own values replace the team's in the entry. *)
Definition requested (before : Team) (b : teamPatchRequest) : gmap string delta :=
  let d := limitsDelta before in
  let d := match pr_RPM b with Some n => <["rpm"%string := DInt n]> d | None => d end in
  let d := match pr_TPM b with Some n => <["tpm"%string := DInt n]> d | None => d end in
  match pr_MonthlyBudgetUSD b with Some x => <["monthly_budget_usd"%string := DFloat x]> d | None => d end.

Definition validateAllowlists (configs : list (string * list string)) (ps ms : list string) : bool :=
  forallb (λ p, existsb (λ c, bool_decide (c.1 = p)) configs) ps &&
  forallb (λ m, existsb (λ c, bool_decide (m ∈ c.2)) configs) ms.

Definition createOrgFor (q : admin_request) (req : string) : result admin_error string :=
  match q_caller q with
  | None => Err no_session
  | Some c =>
      if cl_IsSuperadmin c then Ok (if bool_decide (req = ""%string) then cl_OrgID c else req)
      else if bool_decide (req ≠ ""%string) && bool_decide (req ≠ cl_OrgID c) then Err invalid_request
      else Ok (cl_OrgID c)
  end.

Inductive admin_response :=
| AErr (e : admin_error) | ATeams (views : list teamView) | ATeam (view : teamView)
| AKey (apiKey : string) (key : keyView) | ACreated (team : teamView) (apiKey : string) (key : keyView) | ANoContent.

(** What becomes of each call a request makes, and what the clocks and the
    entropy source say meanwhile. *)
Record weather := {
  wx_audit : db_fate; wx_store : db_fate; wx_spent : nat → net_fate; wx_reset : net_fate;
  wx_rand : option string; wx_now : Z; wx_dbnow : Z; wx_redis : Z }.

Section handlers.
Context {db : Type} `{!Redis Z db}.
Context (audit_wired : bool) (configs : list (string * list string)).

Record admin_state := { a_tables : tables; a_snap : snapshot; a_audit : list AuditEntry; a_redis : db }.

(** [recordAudit] and [RecordAudit]: whether it reported success. *)
Definition recordAudit (fate : db_fate) (e : AuditEntry) (st : admin_state) : bool * admin_state :=
  let written := {| a_tables := a_tables st; a_snap := a_snap st; a_audit := a_audit st ++ [e]; a_redis := a_redis st |} in
  if negb audit_wired then (true, st)
  else match fate with
       | DbAnswers => (true, written)
       | DbUnreachable => (false, st)
       | DbReplyLost => (false, written)
       end.

Definition call_store (fate : db_fate) (call : store_call) (st : admin_state) : result store_error Team * admin_state :=
  let '(res, (t, s)) := run_call fate call (a_tables st, a_snap st) in
  (res, {| a_tables := t; a_snap := s; a_audit := a_audit st; a_redis := a_redis st |}).

Definition readSpent (wx : weather) (i : nat) (teamID : string) (st : admin_state) : option Z :=
  match Tracker.Spent (wx_now wx) (wx_redis wx) (wx_spent wx i) teamID (a_redis st) with Ok n => Some n | Err _ => None end.

Fixpoint views (wx : weather) (i : nat) (teams : list Team) (st : admin_state) : list teamView :=
  match teams with [] => [] | t :: ts => newTeamView t (readSpent wx i (t_ID t) st) :: views wx (S i) ts st end.

Definition listTeams (wx : weather) (q : admin_request) (st : admin_state) : admin_response :=
  match q_caller q with
  | None => AErr no_session
  | Some c => ATeams (views wx 0 (keep (λ t, cl_IsSuperadmin c || own c t) (store_List (a_snap st))) st)
  end.

Definition getTeam (wx : weather) (q : admin_request) (st : admin_state) : admin_response :=
  match teamInScope q (a_snap st) with
  | Err e => AErr e
  | Ok t => ATeam (newTeamView t (readSpent wx 0 (t_ID t) st))
  end.

Definition is_unknown_team (e : store_error) : bool := match e with RegistryErr ErrUnknownTeam => true | _ => false end.

(** The shape of every change of a team: find it, record the entry, and only
    then call the store. *)
Definition audited (wx : weather) (q : admin_request) (org target action : string) (before after : gmap string delta)
    (call : store_call) (failed : store_error → admin_error) (done_ : Team → admin_state → admin_response) (st : admin_state)
    : admin_response * admin_state :=
  match recordAudit (wx_audit wx) (stampActor q org action target before after) st with
  | (false, st) => (AErr audit_unavailable, st)
  | (true, st) =>
      match call_store (wx_store wx) call st with
      | (Err e, st) => (AErr (failed e), st)
      | (Ok t, st) => (done_ t st, st)
      end
  end.

Definition patchTeam (wx : weather) (q : admin_request) (st : admin_state) : admin_response * admin_state :=
  match teamInScope q (a_snap st) with
  | Err e => (AErr e, st)
  | Ok before =>
      match decode_patch (q_body q) with
      | None => (AErr invalid_request, st)
      | Some body =>
          let patch := {| p_RPM := pr_RPM body; p_TPM := pr_TPM body; p_MonthlyBudgetMicros := usdToMicros <$> pr_MonthlyBudgetUSD body |} in
          audited wx q (t_OrganizationID before) (t_ID before) "team.patch" (limitsDelta before) (requested before body)
            (CallUpdate (t_ID before) patch) (λ e, if is_unknown_team e then team_not_found else invalid_request)
            (λ t st, ATeam (newTeamView t (readSpent wx 0 (t_ID before) st))) st
      end
  end.

Definition resetBudget (wx : weather) (q : admin_request) (st : admin_state) : admin_response * admin_state :=
  match teamInScope q (a_snap st) with
  | Err e => (AErr e, st)
  | Ok team =>
      let beforeUSD := microsToUSD (default 0 (readSpent wx 0 (t_ID team) st)) in
      let e := stampActor q (t_OrganizationID team) "team.budget_reset" (t_ID team)
                 {["spent_usd"%string := DFloat beforeUSD]} {["spent_usd"%string := DFloat (f64_of_Z 0)]} in
      match recordAudit (wx_audit wx) e st with
      | (false, st) => (AErr audit_unavailable, st)
      | (true, st) =>
          let '(err, r) := Tracker.Reset (wx_now wx) (wx_reset wx) (t_ID team) (a_redis st) in
          let st := {| a_tables := a_tables st; a_snap := a_snap st; a_audit := a_audit st; a_redis := r |} in
          match err with
          | Some _ => (AErr {| er_status := 503; er_type := "budget_reset_failed" |}, st)
          | None => (ATeam (newTeamView team (Some 0)), st)
          end
      end
  end.

Definition rotateKey (wx : weather) (q : admin_request) (st : admin_state) : admin_response * admin_state :=
  match teamInScope q (a_snap st) with
  | Err e => (AErr e, st)
  | Ok before =>
      match GenerateKey (t_ID before) (wx_rand wx) with
      | None => (AErr internal_error, st)
      | Some raw =>
          audited wx q (t_OrganizationID before) (t_ID before) "key.rotate" {["key_source"%string := DText (kv_Source (keyViewOf before))]}
            {["key_source"%string := DText KeySourceRotated]}
            (CallRotateKey (wx_dbnow wx) (wx_now wx) (t_ID before) (HashKey raw) (MaskKey raw))
            (λ e, if is_unknown_team e then team_not_found else internal_error) (λ t _, AKey raw (keyViewOf t)) st
      end
  end.

Definition revokeKey (wx : weather) (q : admin_request) (st : admin_state) : admin_response * admin_state :=
  match teamInScope q (a_snap st) with
  | Err e => (AErr e, st)
  | Ok before =>
      audited wx q (t_OrganizationID before) (t_ID before) "key.revoke" {["key_source"%string := DText (kv_Source (keyViewOf before))]}
        {["key_source"%string := DText KeySourceRevoked]} (CallRevokeKey (t_ID before))
        (λ e, if is_unknown_team e then team_not_found else internal_error) (λ t _, ATeam (newTeamView t None)) st
  end.

Definition deleteTeam (wx : weather) (q : admin_request) (st : admin_state) : admin_response * admin_state :=
  match teamInScope q (a_snap st) with
  | Err e => (AErr e, st)
  | Ok before =>
      audited wx q (t_OrganizationID before) (t_ID before) "team.delete" (teamSettings before) {["deleted"%string := DFlag true]}
        (CallDelete (t_ID before)) (λ e, if is_unknown_team e then team_not_found else internal_error) (λ _ _, ANoContent) st
  end.

Definition new_team (id orgID : string) (b : createTeamRequest) : Team :=
  {| t_ID := id; t_Name := trim_space (cr_Name b); t_OrganizationID := orgID; t_KeyHash := ""; t_AllowedProviders := cr_AllowedProviders b;
     t_AllowedModels := cr_AllowedModels b; t_RateLimits := {| RPM := cr_RPM b; TPM := cr_TPM b |};
     t_MonthlyBudgetMicros := usdToMicros (cr_MonthlyBudgetUSD b); t_Priority := priority_of (cr_Priority b); t_IsAdmin := cr_IsAdmin b;
     t_CacheIsolated := false; t_KeySource := ""; t_KeyMasked := ""; t_KeyCreatedAt := None |}.

Definition createTeam (wx : weather) (q : admin_request) (st : admin_state) : admin_response * admin_state :=
  match decode_create (q_body q) with
  | None => (AErr invalid_request, st)
  | Some body =>
      let id := of_runes (Slug (runes (cr_Name body))) in
      if bool_decide (id = ""%string) then (AErr invalid_request, st)
      else match createOrgFor q (cr_OrganizationID body) with
      | Err e => (AErr e, st)
      | Ok orgID =>
          let team := new_team id orgID body in
          if bool_decide (is_Some (Validate blank team)) then (AErr invalid_request, st)
          else if negb (validateAllowlists configs (t_AllowedProviders team) (t_AllowedModels team)) then (AErr invalid_request, st)
          else if is_ok (store_get id (a_snap st)) then (AErr team_exists, st)
          else match GenerateKey id (wx_rand wx) with
          | None => (AErr internal_error, st)
          | Some raw =>
              let team := with_key team (HashKey raw) KeySourceCreated (MaskKey raw) (Some (wx_now wx)) in
              audited wx q (t_OrganizationID team) id "team.create" ∅ (teamSettings team) (CallCreate (wx_now wx) team)
                (λ e, match e with
                      | RegistryErr ErrTeamExists => team_exists
                      | ErrUnknownOrganization => invalid_request
                      | _ => internal_error
                      end)
                (λ t _, ACreated (newTeamView t None) raw (keyViewOf t)) st
          end
      end
  end.

Inductive route := GETTeams | GETTeam | PATCHTeam | DELETETeam | POSTReset | POSTRotate | DELETEKey | POSTTeams.

Definition serve (r : route) (wx : weather) (q : admin_request) (st : admin_state) : admin_response * admin_state :=
  match r with
  | GETTeams => (listTeams wx q st, st)
  | GETTeam => (getTeam wx q st, st)
  | PATCHTeam => patchTeam wx q st
  | DELETETeam => deleteTeam wx q st
  | POSTReset => resetBudget wx q st
  | POSTRotate => rotateKey wx q st
  | DELETEKey => revokeKey wx q st
  | POSTTeams => createTeam wx q st
  end.
End handlers.
