(* ===== verification/AdminTeamsFacts.v ===== *)
(** * What the team endpoints guarantee

    A signed-in user reaches the teams of their own organisation and no others,
    and nothing changes that the audit log has not recorded first. *)

From S2P Require Import Prelude Redis Text Json Budget Auth AuthFacts TeamStore TeamStoreFacts AdminTeams.

(** ** One call changes one team *)

Definition call_target (call : store_call) : string :=
  match call with
  | CallUpdate id _ | CallRotateKey _ _ id _ _ | CallRevokeKey id | CallDelete id => id
  | CallCreate _ t => t_ID t
  end.

(** What a call may do to a row: nothing, or replace it by one of the same
    organisation; a row that appears is the created team's. *)
Record row_step (call : store_call) (db db' : tables) : Prop := {
  rs_others id : id ≠ call_target call → tb_teams db' !! id = tb_teams db !! id;
  rs_org id rw : tb_teams db !! id = Some rw →
    ∃ rw', tb_teams db' !! id = Some rw' ∧ t_OrganizationID (rw_team rw') = t_OrganizationID (rw_team rw);
  rs_new id rw : tb_teams db !! id = None → tb_teams db' !! id = Some rw →
    ∃ now t, call = CallCreate now t ∧ rw_team rw = created_team now t;
  rs_kept id rw : (∃ now t, call = CallCreate now t) → tb_teams db !! id = Some rw → tb_teams db' !! id = Some rw
}.

Lemma row_step_refl call db : row_step call db db.
Proof. split; [done|intros id rw H; by exists rw|intros; congruence|done]. Qed.

Lemma update_row_step call id f d db :
  id = call_target call → (∀ t, t_OrganizationID (f t) = t_OrganizationID t) → (∀ now t, call ≠ CallCreate now t) →
  row_step call db (update_row id f d db).2.
Proof.
  intros -> Hf Hnc. destruct (update_row _ f d db) as [x db'] eqn:Hu. simpl.
  apply update_row_cases in Hu as [[-> _]|(t & Hl%live_lookup & _ & _ & _ & ->)]; [apply row_step_refl|].
  split; simpl.
  - intros id Hne. by rewrite lookup_insert_ne.
  - intros id rw Hid. destruct (decide (call_target call = id)) as [<-|Hne].
    + rewrite lookup_insert_eq. eexists. split; [done|]. simpl. rewrite Hf. rewrite Hl in Hid. by injection Hid as <-.
    + rewrite lookup_insert_ne by done. by exists rw.
  - intros id rw Hn [[<- _]|[_ H]]%lookup_insert_Some; congruence.
  - intros id rw (now & t' & Hc). by destruct (Hnc now t').
Qed.

Lemma insert_row_step now t db : row_step (CallCreate now t) db (insert_row (created_team now t) db).2.
Proof.
  destruct (insert_row _ db) as [x db'] eqn:Hi. simpl.
  apply insert_row_cases in Hi as [[-> _]|(Hn & _ & _ & _ & ->)]; [apply row_step_refl|]. simpl in *.
  split; simpl.
  - intros id Hne. by rewrite lookup_insert_ne.
  - intros id rw Hid. rewrite lookup_insert_ne by congruence. by exists rw.
  - intros id rw Hnone [[<- <-]|[_ H]]%lookup_insert_Some; [|congruence]. by exists now, t.
  - intros id rw _ Hid. rewrite lookup_insert_ne; congruence.
Qed.

Lemma run_sql_step call fate stmt db : row_step call db (stmt db).2 → row_step call db (run_sql fate stmt db).2.
Proof. destruct fate; simpl; [by destruct (stmt db)|intros _; apply row_step_refl|done]. Qed.

Lemma persist_step call fate c f d db :
  ch_id c = call_target call → (∀ t, t_OrganizationID (f t) = t_OrganizationID t) → (∀ now t, call ≠ CallCreate now t) →
  row_step call db (persist fate c f d db).2.
Proof.
  intros Hc Hf Hnc. pose proof (run_sql_step call fate _ db (update_row_step call (ch_id c) f d db Hc Hf Hnc)) as H.
  unfold persist. by destruct (run_sql _ _ db).
Qed.

Lemma begin_call_step fate call db s : row_step call db (begin_call fate call db s).2.
Proof.
  destruct call as [id p|dbnow now id h m|id|id|now t]; simpl.
  - unfold persist_Update. destruct (store_get id s) as [cur|]; [|apply row_step_refl].
    destruct (Apply p cur); [|apply row_step_refl]. by apply persist_step.
  - unfold persist_RotateKey. case_bool_decide; [apply row_step_refl|]. by apply persist_step.
  - by apply persist_step.
  - by apply persist_step.
  - unfold persist_Create. destruct (Validate _ _); [apply row_step_refl|].
    pose proof (run_sql_step (CallCreate now t) fate _ db (insert_row_step now t db)) as H. by destruct (run_sql _ _ db).
Qed.

(** ** The snapshot and the table agree on whose team it is *)

Record teams_ok (db : tables) (s : snapshot) : Prop := {
  tk_db : db_ok db;
  tk_reg : reg_ok (sn_registry s);
  tk_org id t : byID (sn_registry s) !! id = Some t →
    ∃ rw, tb_teams db !! id = Some rw ∧ t_OrganizationID (rw_team rw) = t_OrganizationID t
}.

(** A change keeps whose team each is; only a creation adds one. *)
Lemma ch_apply_org c r id t :
  reg_ok r → byID (ch_apply c r).2 !! id = Some t →
  (∃ t', byID r !! id = Some t' ∧ t_OrganizationID t' = t_OrganizationID t) ∨ c = ChCreate t ∧ id = t_ID t.
Proof.
  intros Hok. assert (byID r !! id = Some t → ∃ t', byID r !! id = Some t' ∧ t_OrganizationID t' = t_OrganizationID t) as Hsame by eauto.
  destruct c as [i p|now i h m|i|i|u]; simpl.
  - unfold Update. destruct (byID r !! i) as [e|] eqn:He; [|eauto]. destruct (Apply p e) as [u|] eqn:Ha; [|eauto]. simpl.
    intros [[<- <-]|[_ H]]%lookup_insert_Some; [|eauto]. left. exists e. split; [done|].
    unfold Apply in Ha. case_match; [done|]. by injection Ha as <-.
  - unfold RotateKey. destruct (byID r !! i) as [e|] eqn:He; [|eauto]. case_bool_decide; [eauto|].
    destruct (match byHash r !! h with Some _ => _ | None => _ end); [eauto|]. simpl.
    intros [[<- <-]|[_ H']]%lookup_insert_Some; [|eauto]. left. by exists e.
  - unfold RevokeKey. destruct (byID r !! i) as [e|] eqn:He; [|eauto]. simpl.
    intros [[<- <-]|[_ H]]%lookup_insert_Some; [|eauto]. left. by exists e.
  - unfold removed, Remove. destruct (byID r !! i) as [e|] eqn:He; simpl; [|eauto].
    intros [_ H]%lookup_delete_Some; eauto.
  - unfold added, Add. destruct (byID r !! t_ID u) as [e|] eqn:He; [eauto|]. case_bool_decide; simpl.
    + intros [[<- <-]|[_ H']]%lookup_insert_Some; [by right|eauto].
    + destruct (byHash r !! t_KeyHash u); [eauto|]. simpl. intros [[<- <-]|[_ H']]%lookup_insert_Some; [by right|eauto].
Qed.

Lemma ch_apply_result c r t r' :
  ch_apply c r = (Ok t, r') → (∃ id, c = ChDelete id) ∨ byID r' !! ch_id c = Some t.
Proof.
  destruct c as [i p|now i h m|i|i|u]; simpl.
  - unfold Update. destruct (byID r !! i) as [e|]; [|done]. destruct (Apply p e); [|done].
    intros [= <- <-]. right. apply lookup_insert_eq.
  - unfold RotateKey. destruct (byID r !! i) as [e|]; [|done]. case_bool_decide; [done|].
    destruct (match byHash r !! h with Some _ => _ | None => _ end); [done|]. intros [= <- <-]. right. apply lookup_insert_eq.
  - unfold RevokeKey. destruct (byID r !! i) as [e|]; [|done]. intros [= <- <-]. right. apply lookup_insert_eq.
  - left. by exists i.
  - unfold added, Add. destruct (byID r !! t_ID u) as [e|] eqn:He.
    + intros [= Hg <-]. right. unfold Get in Hg. rewrite He in *. by injection Hg as <-.
    + case_bool_decide; [intros [= <- <-]; right; apply lookup_insert_eq|].
      destruct (byHash r !! t_KeyHash u); [done|]. intros [= <- <-]. right. apply lookup_insert_eq.
Qed.

(** The team a write returns is of the organisation of the one it was asked to
    change, or is the one it created. *)
Lemma writeThrough_org c s t :
  reg_ok (sn_registry s) → (writeThrough c s).1 = Ok t →
  (∃ id, c = ChDelete id) ∨ c = ChCreate t ∨
  ∃ e, byID (sn_registry s) !! ch_id c = Some e ∧ t_OrganizationID e = t_OrganizationID t.
Proof.
  intros Hok. pose proof (ch_apply_org c (sn_registry s) (ch_id c) t Hok) as Horg. pose proof (ch_apply_result c (sn_registry s)) as Hres.
  unfold writeThrough. destruct (ch_apply c (sn_registry s)) as [res r]. simpl in *. intros Ht.
  assert ((∃ id, c = ChDelete id) ∨ byID r !! ch_id c = Some t) as [Hd|Hb]; [|by left|].
  { destruct res as [u|]; [injection Ht as ->; by apply Hres|]. right.
    unfold store_get, Get in Ht. simpl in Ht. destruct (byID r !! ch_id c); [|done]. by injection Ht as ->. }
  destruct (Horg Hb) as [(e & He & Heo)|[-> _]]; [|by right; left]. right. right. by exists e.
Qed.

Lemma begin_call_created fate call db s t db' :
  begin_call fate call db s = (Ok (ChCreate t), db') →
  tb_teams db' !! t_ID t = Some {| rw_team := t; rw_deleted := false |}.
Proof.
  intros Hb.
  destruct call as [id p|dbnow now id h m|id|id|now u]; simpl in Hb.
  - unfold persist_Update in Hb. destruct (store_get id s) as [cur|]; [|done]. destruct (Apply p cur); [|done].
    by apply persist_same in Hb.
  - unfold persist_RotateKey in Hb. case_bool_decide; [done|]. by apply persist_same in Hb.
  - by apply persist_same in Hb.
  - by apply persist_same in Hb.
  - unfold persist_Create in Hb. destruct (Validate _ _); [done|]. destruct fate; simpl in Hb; [|done|done].
    destruct (insert_row (created_team now u) db) as [x db1] eqn:Hi.
    apply insert_row_cases in Hi as [[-> Hx]|(_ & -> & _ & _ & ->)].
    + destruct x; try done. by destruct (Hx n).
    + injection Hb as <- <-. simpl. by rewrite lookup_insert_eq.
Qed.

(** The change a call leaves to apply is of the same team. *)
Lemma begin_call_shape fate call db s c db' :
  begin_call fate call db s = (Ok c, db') →
  ch_id c = call_target call ∧ ∀ t, c = ChCreate t → ∃ now u, call = CallCreate now u ∧ t = created_team now u.
Proof.
  destruct call as [id p|dbnow now id h m|id|id|now t]; simpl.
  - unfold persist_Update. destruct (store_get id s) as [cur|]; [|done]. destruct (Apply p cur); [|done]. by intros ->%persist_same.
  - unfold persist_RotateKey. case_bool_decide; [done|]. by intros ->%persist_same.
  - by intros ->%persist_same.
  - by intros ->%persist_same.
  - unfold persist_Create. destruct (Validate _ _); [done|]. destruct (run_sql _ _ db) as [[[]|] ?]; try done.
    intros [= <- _]. split; [done|]. intros u [= <-]. by exists now, t.
Qed.

(** Another replica's call changes the table only. *)
Lemma teams_ok_elsewhere fate call db s s' :
  teams_ok db s → teams_ok (begin_call fate call db s').2 s.
Proof.
  intros [Hdb Hreg Horg]. split; [by apply begin_call_ok|done|].
  intros id t (rw & Hrw & Ho)%Horg. destruct (rs_org _ _ _ (begin_call_step fate call db s') _ _ Hrw) as (rw' & Hrw' & Ho').
  exists rw'. split; [done|congruence].
Qed.

Lemma teams_ok_run fate call db s : teams_ok db s → teams_ok (run_call fate call (db, s)).2.1 (run_call fate call (db, s)).2.2.
Proof.
  intros Hok. pose proof (teams_ok_elsewhere fate call db s s Hok) as Hb. unfold run_call. simpl.
  destruct (begin_call fate call db s) as [[c|e] db'] eqn:Hbc; [|done]. simpl in Hb. destruct Hb as [Hdb Hreg Horg].
  pose proof (writeThrough_registry c s) as Hw. destruct (writeThrough c s) as [res s']. simpl in *.
  split; [done|rewrite Hw; by apply ch_apply_ok|]. rewrite Hw. intros id t Ht.
  destruct (ch_apply_org c _ id t Hreg Ht) as [(t' & Ht' & Ho)|[-> ->]].
  - destruct (Horg _ _ Ht') as (rw & Hrw & Hro). exists rw. split; [done|congruence].
  - apply begin_call_created in Hbc. by eexists.
Qed.

Lemma teams_ok_refresh reachable now db s : teams_ok db s → teams_ok db (Refresh reachable now db s).2.
Proof.
  intros [Hdb Hreg Horg]. unfold Refresh, New_. destruct reachable; [|by split]. simpl.
  pose proof (loadRegistry_live db Hdb) as Hl. destruct (loadRegistry db) as [r|]; [|by split]. destruct Hl as (Hr & Hb & _).
  split; [done|done|]. simpl. rewrite Hb. intros id t Ht%live_lookup. by eexists.
Qed.

Lemma teams_ok_New now db s : db_ok db → New_ true now db = Ok s → teams_ok db s.
Proof.
  intros Hdb. unfold New_. simpl. pose proof (loadRegistry_live db Hdb) as Hl. destruct (loadRegistry db) as [r|]; [|done].
  destruct Hl as (Hr & Hb & _). intros [= <-]. split; [done|done|]. simpl. rewrite Hb. intros id t Ht%live_lookup. by eexists.
Qed.

(** ** What one request does *)

Section effects.
Context {D : Type} `{!Redis Z D}.
Context (audit_wired : bool) (configs : list (string * list string)).

(** Whose team the caller is dealing with, as the snapshot knows it. *)
Definition reach (q : admin_request) (st : admin_state (db := D)) (target org : string) : Prop :=
  ∃ c, q_caller q = Some c ∧ (cl_IsSuperadmin c = true ∨ org = cl_OrgID c) ∧
    match byID (sn_registry (a_snap st)) !! target with Some t => t_OrganizationID t = org | None => True end.

Definition stamped (q : admin_request) (e : AuditEntry) : Prop :=
  ae_ActorUserID e = actorID q ∧ ae_ActorAddr e = q_RemoteAddr q ∧
  ae_Superadmin e = match q_caller q with Some c => cl_IsSuperadmin c | None => false end.

(** A request changes nothing, or it records an entry and changes at most the
    rows and the counter of the team the entry names. *)
Inductive effect (now : Z) (q : admin_request) (st st' : admin_state (db := D)) : Prop :=
| EffNone : st' = st → effect now q st st'
| EffEntry e :
    stamped q e → reach q st (ae_TargetTeamID e) (ae_OrganizationID e) →
    a_audit st' = (if audit_wired then a_audit st ++ [e] else a_audit st) →
    (∀ id, id ≠ ae_TargetTeamID e → tb_teams (a_tables st') !! id = tb_teams (a_tables st) !! id) →
    (∀ id rw, tb_teams (a_tables st) !! id = None → tb_teams (a_tables st') !! id = Some rw →
       t_OrganizationID (rw_team rw) = if bool_decide (ae_OrganizationID e = ""%string) then DefaultOrgID else ae_OrganizationID e) →
    (a_redis st' = a_redis st ∨
     a_redis st' = rdel (Tracker.periodKey (ae_TargetTeamID e) (Tracker.currentPeriod now)) (a_redis st)) →
    (is_Some (byID (sn_registry (a_snap st)) !! ae_TargetTeamID e) ∨
     (∀ id rw, tb_teams (a_tables st) !! id = Some rw → tb_teams (a_tables st') !! id = Some rw) ∧ a_redis st' = a_redis st) →
    effect now q st st'.

Definition state_ok (st : admin_state (db := D)) : Prop := teams_ok (a_tables st) (a_snap st).

Lemma recordAudit_cases fate e (st : admin_state (db := D)) ok st' :
  recordAudit audit_wired fate e st = (ok, st') →
  (ok = false ∧ st' = st) ∨
  st' = {| a_tables := a_tables st; a_snap := a_snap st; a_audit := if audit_wired then a_audit st ++ [e] else a_audit st;
           a_redis := a_redis st |}.
Proof.
  unfold recordAudit. destruct audit_wired; simpl; [|intros [= <- <-]; right; by destruct st].
  destruct fate; intros [= <- <-]; by (left + right).
Qed.

Lemma call_store_state fate call (st : admin_state (db := D)) :
  (call_store fate call st).2 =
  {| a_tables := (run_call fate call (a_tables st, a_snap st)).2.1; a_snap := (run_call fate call (a_tables st, a_snap st)).2.2;
     a_audit := a_audit st; a_redis := a_redis st |} ∧
  (call_store fate call st).1 = (run_call fate call (a_tables st, a_snap st)).1.
Proof. unfold call_store. by destruct (run_call fate call _) as [res [t s]]. Qed.

Lemma audited_effect now wx q org target action before after call failed done_ (st : admin_state (db := D)) :
  state_ok st → reach q st target org → call_target call = target →
  is_Some (byID (sn_registry (a_snap st)) !! target) ∨ (∃ tm t, call = CallCreate tm t) →
  (∀ tm t, call = CallCreate tm t → t_OrganizationID t = org) →
  let out := audited audit_wired wx q org target action before after call failed done_ st in
  effect now q st out.2 ∧ state_ok out.2.
Proof.
  intros Hok Hr Ht Hin Hcr. cbv zeta. unfold audited. set (e := stampActor q org action target before after).
  assert (stamped q e) as Hst by done.
  destruct (recordAudit audit_wired (wx_audit wx) e st) as [ok st1] eqn:Hrec.
  apply recordAudit_cases in Hrec as [[-> ->]| ->]; [by split; [apply EffNone|]|].
  destruct ok.
  2:{ split; [|done]. apply (EffEntry now q st _ e); try done; [|by left|by right]. intros id rw; simpl; congruence. }
  set (st1 := {| a_tables := a_tables st; a_snap := a_snap st; a_audit := _; a_redis := a_redis st |}).
  destruct (call_store_state (wx_store wx) call st1) as [Hs _].
  assert (effect now q st (call_store (wx_store wx) call st1).2 ∧ state_ok (call_store (wx_store wx) call st1).2) as H;
    [|by destruct (call_store (wx_store wx) call st1) as [[t|x] st2]].
  rewrite Hs. split; [|by apply teams_ok_run].
  pose proof (begin_call_step (wx_store wx) call (a_tables st) (a_snap st)) as [R1 _ R3 R4].
  apply (EffEntry now q st _ e); simpl; try done; [| |by left|]; rewrite run_call_db; simpl.
  - intros id Hne. apply R1. congruence.
  - intros id rw Hn Hs'. destruct (R3 _ _ Hn Hs') as (tm & t & Hc & ->). simpl. by rewrite (Hcr _ _ Hc).
  - destruct Hin as [Hin|Hin]; [by left|right]. split; [|done]. intros id rw. by apply R4.
Qed.

Lemma teamInScope_reach q (st : admin_state (db := D)) t :
  state_ok st → teamInScope q (a_snap st) = Ok t →
  reach q st (t_ID t) (t_OrganizationID t) ∧ byID (sn_registry (a_snap st)) !! t_ID t = Some t ∧ t_ID t = q_id q.
Proof.
  intros Hok. unfold teamInScope, store_get, Get, reach. destruct (q_caller q) as [c|]; [|done].
  destruct (byID _ !! q_id q) as [u|] eqn:Hu; [|done]. destruct (negb _ && negb _) eqn:Hs; [done|]. intros [= <-].
  pose proof (ro_id _ (tk_reg _ _ Hok) _ _ Hu) as Hid. rewrite Hid, Hu. split; [|done]. exists c. split; [done|]. split; [|done].
  apply andb_false_iff in Hs as [Hs|Hs]; apply negb_false_iff in Hs; [by left|right]. by apply bool_decide_eq_true in Hs.
Qed.

Lemma createOrgFor_reach q (st : admin_state (db := D)) id req org :
  createOrgFor q req = Ok org → byID (sn_registry (a_snap st)) !! id = None → reach q st id org.
Proof.
  unfold createOrgFor, reach. destruct (q_caller q) as [c|]; [|done]. intros Hc Hn. exists c. rewrite Hn. split; [done|]. split; [|done].
  destruct (cl_IsSuperadmin c); [by left|right]. destruct (_ && _); [done|]. by injection Hc as <-.
Qed.

Lemma resetBudget_effect wx q (st : admin_state (db := D)) :
  state_ok st → let out := resetBudget audit_wired wx q st in effect (wx_now wx) q st out.2 ∧ state_ok out.2.
Proof.
  intros Hok. cbv zeta. unfold resetBudget. destruct (teamInScope q (a_snap st)) as [t|] eqn:Ht; [|by split; [apply EffNone|]].
  apply teamInScope_reach in Ht as (Hr & Hby & _); [|done]. set (e := stampActor _ _ _ _ _ _).
  destruct (recordAudit audit_wired (wx_audit wx) e st) as [ok st1] eqn:Hrec.
  apply recordAudit_cases in Hrec as [[-> ->]| ->]; [by split; [apply EffNone|]|]. destruct ok.
  - destruct (Tracker.Reset _ _ _ _) as [err r] eqn:HR.
    assert (r = a_redis st ∨ r = rdel (Tracker.periodKey (t_ID t) (Tracker.currentPeriod (wx_now wx))) (a_redis st)) as Hred.
    { unfold Tracker.Reset in HR. destruct (wx_reset wx); injection HR as _ <-; simpl; by (left + right). }
    destruct err; (split; [|done]); apply (EffEntry _ q st _ e); try done; try (by left; exists t); intros id rw; simpl; congruence.
  - split; [|done]. apply (EffEntry _ q st _ e); try done; [|by left|by right]. intros id rw; simpl; congruence.
Qed.

Lemma createTeam_effect wx q (st : admin_state (db := D)) :
  state_ok st → let out := createTeam audit_wired configs wx q st in effect (wx_now wx) q st out.2 ∧ state_ok out.2.
Proof.
  intros Hok. assert (effect (wx_now wx) q st st ∧ state_ok st) as Hsame by (split; [by apply EffNone|done]).
  cbv zeta. unfold createTeam. destruct (decode_create (q_body q)) as [b|]; [|done]. case_bool_decide; [done|].
  destruct (createOrgFor q _) as [org|] eqn:Hc; [|done]. case_bool_decide; [done|].
  destruct (validateAllowlists _ _ _); [|done]. simpl negb. cbv iota.
  unfold store_get, Get. destruct (byID _ !! _) as [u|] eqn:Hn; [done|]. simpl is_ok. cbv iota.
  destruct (GenerateKey _ _) as [raw|]; [|done].
  apply audited_effect; [done|by eapply createOrgFor_reach|done|by right; eauto|]. by intros tm t [= _ <-].
Qed.

Lemma serve_effect r wx q (st : admin_state (db := D)) :
  state_ok st →
  effect (wx_now wx) q st (serve audit_wired configs r wx q st).2 ∧ state_ok (serve audit_wired configs r wx q st).2.
Proof.
  intros Hok. assert (effect (wx_now wx) q st st ∧ state_ok st) as Hsame by (split; [by apply EffNone|done]).
  destruct r; simpl; try done; [| |by apply resetBudget_effect| | |by apply createTeam_effect].
  - unfold patchTeam. destruct (teamInScope q (a_snap st)) as [t|] eqn:Ht; [|done]. apply teamInScope_reach in Ht as (Hr & Hby & _); [|done].
    destruct (decode_patch (q_body q)); [|done]. by apply audited_effect; try (by left; exists t).
  - unfold deleteTeam. destruct (teamInScope q (a_snap st)) as [t|] eqn:Ht; [|done]. apply teamInScope_reach in Ht as (Hr & Hby & _); [|done].
    by apply audited_effect; try (by left; exists t).
  - unfold rotateKey. destruct (teamInScope q (a_snap st)) as [t|] eqn:Ht; [|done]. apply teamInScope_reach in Ht as (Hr & Hby & _); [|done].
    destruct (GenerateKey _ _); [|done]. by apply audited_effect; try (by left; exists t).
  - unfold revokeKey. destruct (teamInScope q (a_snap st)) as [t|] eqn:Ht; [|done]. apply teamInScope_reach in Ht as (Hr & Hby & _); [|done].
    by apply audited_effect; try (by left; exists t).
Qed.

(** *** What it shows *)

Definition shown (resp : admin_response) : list teamView :=
  match resp with ATeams l => l | ATeam v | ACreated v _ _ => [v] | _ => [] end.

Lemma views_org wx i teams (st : admin_state (db := D)) org :
  Forall (λ t, t_OrganizationID t = org) teams → Forall (λ v, tv_OrganizationID v = org) (views wx i teams st).
Proof. intros Hf. revert i. induction Hf as [|t ts Ht _ IH]; intros i; simpl; [constructor|]. constructor; [done|apply IH]. Qed.

(** A view after a write shows the organisation the entry was filed under. *)
Lemma audited_shown wx q org target action before after call failed done_ (st : admin_state (db := D)) :
  state_ok st → call_target call = target → org ≠ ""%string →
  match byID (sn_registry (a_snap st)) !! target with Some t => t_OrganizationID t = org | None => True end →
  (∀ tm t, call = CallCreate tm t → t_OrganizationID t = org) →
  match call with CallDelete _ => ∀ t st, shown (done_ t st) = [] | _ => ∀ t st v, v ∈ shown (done_ t st) → tv_OrganizationID v = t_OrganizationID t end →
  ∀ v, v ∈ shown (audited audit_wired wx q org target action before after call failed done_ st).1 → tv_OrganizationID v = org.
Proof.
  intros Hok Ht Hne Horg Hcr Hd. unfold audited.
  destruct (recordAudit _ _ _ st) as [ok st1] eqn:Hrec.
  assert (a_snap st1 = a_snap st ∧ a_tables st1 = a_tables st) as [Hsn Htb].
  { apply recordAudit_cases in Hrec as [[_ ->]| ->]; done. }
  destruct ok; [|by intros v ?%elem_of_nil].
  destruct (call_store_state (wx_store wx) call st1) as [_ Hc].
  destruct (call_store (wx_store wx) call st1) as [[t|x] st2]; [|by intros v ?%elem_of_nil]. simpl in Hc. rewrite Hsn, Htb in Hc.
  unfold run_call in Hc. simpl in Hc.
  destruct (begin_call (wx_store wx) call (a_tables st) (a_snap st)) as [[c|y] db'] eqn:Hb; [|done].
  pose proof (writeThrough_org c (a_snap st) t (tk_reg _ _ Hok)) as Hw.
  destruct (writeThrough c (a_snap st)) as [res s']. simpl in *. subst res.
  pose proof (begin_call_change _ _ _ _ _ _ Hb) as Hch. destruct (begin_call_shape _ _ _ _ _ _ Hb) as [Hid Hcs].
  assert (t_OrganizationID t = org → ∀ v, v ∈ shown (done_ t st2) → tv_OrganizationID v = org) as Hfin.
  { intros <- v Hv. destruct call; try by eapply Hd. rewrite Hd in Hv. by apply elem_of_nil in Hv. }
  destruct (Hw eq_refl) as [[id ->]|[->|(e & He & Heo)]].
  - destruct call; try (by destruct (Hch id)). intros v. rewrite Hd. by intros ?%elem_of_nil.
  - apply Hfin. destruct (Hcs t eq_refl) as (tm & u & -> & ->). simpl. rewrite (Hcr tm u eq_refl). by rewrite bool_decide_eq_false_2.
  - apply Hfin. rewrite <- Heo. rewrite <- Ht, <- Hid, He in Horg. done.
Qed.

Lemma own_shown r wx q c (st : admin_state (db := D)) v :
  state_ok st → q_caller q = Some c → cl_IsSuperadmin c = false → cl_OrgID c ≠ ""%string →
  v ∈ shown (serve audit_wired configs r wx q st).1 → tv_OrganizationID v = cl_OrgID c.
Proof.
  intros Hok Hq Hns Hne.
  assert (∀ t, teamInScope q (a_snap st) = Ok t →
            byID (sn_registry (a_snap st)) !! t_ID t = Some t ∧ t_OrganizationID t = cl_OrgID c) as Hscope.
  { intros t (( c' & Hc' & Ho & _) & Hby & _)%teamInScope_reach; [|done]. split; [done|]. rewrite Hq in Hc'. injection Hc' as <-.
    rewrite Hns in Ho. by destruct Ho. }
  destruct r; simpl.
  - unfold listTeams. rewrite Hq. simpl. rewrite Hns. revert v. apply Forall_forall.
    apply views_org, Forall_forall. intros t [_ Ht]%elem_of_keep. by apply bool_decide_eq_true in Ht.
  - unfold getTeam. destruct (teamInScope q (a_snap st)) as [t|]; simpl; [|by intros ?%elem_of_nil].
    intros ->%list_elem_of_singleton. simpl. by apply Hscope.
  - unfold patchTeam. destruct (teamInScope q (a_snap st)) as [t|]; simpl; [|by intros ?%elem_of_nil].
    destruct (decode_patch (q_body q)) as [b|]; simpl; [|by intros ?%elem_of_nil]. destruct (Hscope t eq_refl) as [Hby Ho]. rewrite <- Ho in Hne |- *.
    apply audited_shown; [done|done|done|by rewrite Hby|done|]. simpl. by intros u st' v' ->%list_elem_of_singleton.
  - unfold deleteTeam. destruct (teamInScope q (a_snap st)) as [t|]; simpl; [|by intros ?%elem_of_nil].
    destruct (Hscope t eq_refl) as [Hby Ho]. rewrite <- Ho in Hne |- *. by apply audited_shown; [done|done|done|rewrite Hby| |].
  - unfold resetBudget. destruct (teamInScope q (a_snap st)) as [t|]; simpl; [|by intros ?%elem_of_nil].
    destruct (recordAudit _ _ _ st) as [[] st1]; [|by intros ?%elem_of_nil].
    destruct (Tracker.Reset _ _ _ _) as [[|] r]; simpl; [by intros ?%elem_of_nil|]. intros ->%list_elem_of_singleton. simpl. by apply Hscope.
  - unfold rotateKey. destruct (teamInScope q (a_snap st)) as [t|]; simpl; [|by intros ?%elem_of_nil].
    destruct (GenerateKey _ _); simpl; [|by intros ?%elem_of_nil]. destruct (Hscope t eq_refl) as [Hby Ho]. rewrite <- Ho in Hne |- *.
    apply audited_shown; [done|done|done|by rewrite Hby|done|]. simpl. by intros u st' v' ?%elem_of_nil.
  - unfold revokeKey. destruct (teamInScope q (a_snap st)) as [t|]; simpl; [|by intros ?%elem_of_nil].
    destruct (Hscope t eq_refl) as [Hby Ho]. rewrite <- Ho in Hne |- *. apply audited_shown; [done|done|done|by rewrite Hby|done|]. simpl.
    by intros u st' v' ->%list_elem_of_singleton.
  - unfold createTeam. destruct (decode_create (q_body q)) as [b|]; [|by intros ?%elem_of_nil]. case_bool_decide; [by intros ?%elem_of_nil|].
    destruct (createOrgFor q _) as [org|] eqn:Hc; [|by intros ?%elem_of_nil].
    assert (org = cl_OrgID c) as ->.
    { unfold createOrgFor in Hc. rewrite Hq, Hns in Hc. destruct (_ && _); [done|]. by injection Hc as <-. }
    case_bool_decide; [by intros ?%elem_of_nil|]. destruct (validateAllowlists _ _ _); simpl negb; cbv iota; [|by intros ?%elem_of_nil].
    unfold store_get, Get. destruct (byID _ !! _) as [u|] eqn:Hn; simpl is_ok; cbv iota; [by intros ?%elem_of_nil|].
    destruct (GenerateKey _ _) as [raw|]; [|by intros ?%elem_of_nil].
    apply audited_shown; [done|done|done|simpl; by rewrite Hn|by intros tm t [= _ <-]|]. by intros t st' v' ->%list_elem_of_singleton.
Qed.

(** What a tenant's request leaves of the others. *)
Lemma effect_tenant now q c (st st' : admin_state (db := D)) :
  state_ok st → q_caller q = Some c → cl_IsSuperadmin c = false → cl_OrgID c ≠ ""%string → effect now q st st' →
  (∀ id rw, tb_teams (a_tables st) !! id = Some rw → t_OrganizationID (rw_team rw) ≠ cl_OrgID c →
     tb_teams (a_tables st') !! id = Some rw ∧
     ∀ t month, rget t (Tracker.periodKey id (Tracker.currentPeriod month)) (a_redis st') =
                rget t (Tracker.periodKey id (Tracker.currentPeriod month)) (a_redis st)) ∧
  (∀ id rw, tb_teams (a_tables st) !! id = None → tb_teams (a_tables st') !! id = Some rw →
     t_OrganizationID (rw_team rw) = cl_OrgID c) ∧
  (∀ e, e ∈ a_audit st' → e ∈ a_audit st ∨
     ae_OrganizationID e = cl_OrgID c ∧ ae_ActorUserID e = actorID q ∧ ae_Superadmin e = false).
Proof.
  intros Hok Hq Hns Hne [->|e (Hact & _ & Hsup) (c' & Hc' & Ho & Hby) Haud Hrows Hnew Hred Hin]; [split_and!; [done|congruence|by left]|].
  rewrite Hq in Hc', Hsup. injection Hc' as <-. rewrite Hns in Ho. destruct Ho as [|Ho]; [done|].
  assert (∀ id rw, tb_teams (a_tables st) !! id = Some rw → t_OrganizationID (rw_team rw) ≠ cl_OrgID c →
    is_Some (byID (sn_registry (a_snap st)) !! ae_TargetTeamID e) → id ≠ ae_TargetTeamID e) as Hother.
  { intros id rw Hrw Hf [t Ht] ->. rewrite Ht in Hby. destruct (tk_org _ _ Hok _ _ Ht) as (rw' & Hrw' & Horg). congruence. }
  split_and!.
  - intros id rw Hrw Hf. destruct Hin as [Hs|[Hk Hr]]; [|by rewrite Hr; split; [apply Hk|]].
    pose proof (Hother id rw Hrw Hf Hs) as Hid. split; [by rewrite Hrows|]. intros t month.
    destruct Hred as [->| ->]; [done|]. apply rget_del_ne. intros Heq%Tracker.periodKey_injective. destruct Heq; congruence.
  - intros id rw Hn Hs. rewrite (Hnew id rw Hn Hs), Ho. by rewrite bool_decide_eq_false_2.
  - intros x. rewrite Haud. destruct audit_wired; [|by left].
    intros [Hx| ->%list_elem_of_singleton]%elem_of_app; [by left|right]. split_and!; [done|done|congruence].
Qed.

Lemma audited_unavailable wx q org target action before after call failed done_ (st : admin_state (db := D)) :
  (∀ e, failed e ≠ audit_unavailable) → (∀ t st', done_ t st' ≠ AErr audit_unavailable) →
  let out := audited audit_wired wx q org target action before after call failed done_ st in
  out.1 = AErr audit_unavailable → a_tables out.2 = a_tables st ∧ a_snap out.2 = a_snap st ∧ a_redis out.2 = a_redis st.
Proof.
  intros Hf Hd. cbv zeta. unfold audited. destruct (recordAudit _ _ _ st) as [[] st1] eqn:Hrec.
  - destruct (call_store _ _ st1) as [[t|e] st2]; simpl; [intros H; by apply Hd in H|]. intros H. by injection H as H%Hf.
  - intros _. by apply recordAudit_cases in Hrec as [[_ ->]| ->].
Qed.

Lemma unavailable_unchanged r wx q (st : admin_state (db := D)) :
  let out := serve audit_wired configs r wx q st in
  out.1 = AErr audit_unavailable → a_tables out.2 = a_tables st ∧ a_snap out.2 = a_snap st ∧ a_redis out.2 = a_redis st.
Proof.
  cbv zeta. destruct r; simpl; try done.
  - unfold patchTeam. destruct (teamInScope _ _); [|done]. destruct (decode_patch _); [|done].
    apply audited_unavailable; [|done]. intros e. by destruct (is_unknown_team e).
  - unfold deleteTeam. destruct (teamInScope _ _); [|done]. apply audited_unavailable; [|done]. intros e. by destruct (is_unknown_team e).
  - unfold resetBudget. destruct (teamInScope _ _); [|done]. destruct (recordAudit _ _ _ st) as [[] st1] eqn:Hrec.
    + by destruct (Tracker.Reset _ _ _ _) as [[|] ?].
    + intros _. by apply recordAudit_cases in Hrec as [[_ ->]| ->].
  - unfold rotateKey. destruct (teamInScope _ _); [|done]. destruct (GenerateKey _ _); [|done].
    apply audited_unavailable; [|done]. intros e. by destruct (is_unknown_team e).
  - unfold revokeKey. destruct (teamInScope _ _); [|done]. apply audited_unavailable; [|done]. intros e. by destruct (is_unknown_team e).
  - unfold createTeam. destruct (decode_create _); [|done]. case_bool_decide; [done|]. destruct (createOrgFor _ _); [|done].
    case_bool_decide; [done|]. destruct (negb _); [done|]. destruct (is_ok _); [done|]. destruct (GenerateKey _ _); [|done].
    apply audited_unavailable; [|done]. intros [[]| | | | |]; done.
Qed.

(** ** Everything that happens *)

Inductive astep (st : admin_state (db := D)) : admin_state (db := D) → Prop :=
| AServe r wx q : astep st (serve audit_wired configs r wx q st).2
| AElsewhere fate call s :
    astep st {| a_tables := (begin_call fate call (a_tables st) s).2; a_snap := a_snap st; a_audit := a_audit st; a_redis := a_redis st |}
| ARefresh reachable now :
    astep st {| a_tables := a_tables st; a_snap := (Refresh reachable now (a_tables st) (a_snap st)).2; a_audit := a_audit st; a_redis := a_redis st |}
| ATraffic d audit :
    astep st {| a_tables := a_tables st; a_snap := a_snap st; a_audit := audit; a_redis := d |}.

Lemma astep_ok st st' : state_ok st → astep st st' → state_ok st'.
Proof.
  intros Hok [r wx q|fate call s|reachable now|d audit].
  - by apply serve_effect.
  - by apply teams_ok_elsewhere.
  - by apply teams_ok_refresh.
  - done.
Qed.

Lemma reachable_ok db0 s0 now d audit st :
  db_ok db0 → New_ true now db0 = Ok s0 →
  rtc astep {| a_tables := db0; a_snap := s0; a_audit := audit; a_redis := d |} st → state_ok st.
Proof.
  intros Hdb Hnew Hrun. eapply (rtc_ind_r state_ok); [| |exact Hrun]; [by eapply teams_ok_New|].
  intros x y _ Hxy Hx. by eapply astep_ok.
Qed.

(** C21: A tenant reaches its own organisation only.  In every state that
    administration, other replicas, refreshes and traffic lead to, a request of
    a user who is not a superadmin shows only teams of the user's organisation,
    leaves every other organisation's team as it was, in the table and in its
    budget counter, creates teams only in the user's organisation, and files its
    audit entries there, under the user's id.  The user is one whose session
    names an organisation, whose id is not empty: the gateway draws ids that
    start with "org_", and the default organisation's is "personal".
    On every route that takes a team's id, which is all but the list and the
    creation, a team of another organisation and one that does not exist are
    answered alike, not found, and nothing changes.  Creation is not part of
    that clause and could not be: ids are derived from names and unique across
    organisations, so a name whose id is taken elsewhere is answered with a
    conflict, which tells the tenant that such a team exists
    ([create_reveals_foreign_team]). *)
Theorem tenants_isolated db0 s0 now d audit st r wx q c :
  db_ok db0 → New_ true now db0 = Ok s0 →
  rtc astep {| a_tables := db0; a_snap := s0; a_audit := audit; a_redis := d |} st →
  q_caller q = Some c → cl_IsSuperadmin c = false → cl_OrgID c ≠ ""%string →
  let out := serve audit_wired configs r wx q st in
  (∀ v, v ∈ shown out.1 → tv_OrganizationID v = cl_OrgID c) ∧
  (∀ id rw, tb_teams (a_tables st) !! id = Some rw → t_OrganizationID (rw_team rw) ≠ cl_OrgID c →
     tb_teams (a_tables out.2) !! id = Some rw ∧
     ∀ t month, rget t (Tracker.periodKey id (Tracker.currentPeriod month)) (a_redis out.2) =
                rget t (Tracker.periodKey id (Tracker.currentPeriod month)) (a_redis st)) ∧
  (∀ id rw, tb_teams (a_tables st) !! id = None → tb_teams (a_tables out.2) !! id = Some rw →
     t_OrganizationID (rw_team rw) = cl_OrgID c) ∧
  (∀ e, e ∈ a_audit out.2 → e ∈ a_audit st ∨
     ae_OrganizationID e = cl_OrgID c ∧ ae_ActorUserID e = actorID q ∧ ae_Superadmin e = false) ∧
  ((∀ t, byID (sn_registry (a_snap st)) !! q_id q = Some t → t_OrganizationID t ≠ cl_OrgID c) →
     match r with GETTeams | POSTTeams => True | _ => out = (AErr team_not_found, st) end).
Proof.
  intros Hdb Hnew Hrun Hq Hns Hne. pose proof (reachable_ok _ _ _ _ _ _ Hdb Hnew Hrun) as Hok. cbv zeta.
  split; [intros v; by apply own_shown|]. destruct (serve_effect r wx q st Hok) as [He _].
  assert ((∀ t, byID (sn_registry (a_snap st)) !! q_id q = Some t → t_OrganizationID t ≠ cl_OrgID c) →
    teamInScope q (a_snap st) = Err team_not_found) as Hforeign.
  { intros Ho. unfold teamInScope, store_get, Get. rewrite Hq.
    destruct (byID _ !! _) as [t|] eqn:Ht; [|done]. rewrite Hns. unfold own.
    rewrite bool_decide_eq_false_2; [done|]. by apply Ho. }
  destruct (effect_tenant _ _ _ _ _ Hok Hq Hns Hne He) as (H1 & H2 & H3). split_and!; [done|done|done|].
  intros Ho. destruct r; try done; simpl; unfold getTeam, patchTeam, deleteTeam, resetBudget, rotateKey, revokeKey; by rewrite (Hforeign Ho).
Qed.

(** C22: Nothing changes that the audit log has not recorded.  With the audit log
    configured, a request after which any team's row, the snapshot or any
    counter differs has put exactly one entry in the log, which names the acting
    user, their address and the one team whose row or counter may differ; and a
    request told that the entry could not be written has changed none of them. *)
Theorem changes_are_audited db0 s0 now d audit st r wx q :
  db_ok db0 → New_ true now db0 = Ok s0 →
  rtc astep {| a_tables := db0; a_snap := s0; a_audit := audit; a_redis := d |} st → audit_wired = true →
  let out := serve audit_wired configs r wx q st in
  (out.2 ≠ st → ∃ e, a_audit out.2 = a_audit st ++ [e] ∧ ae_ActorUserID e = actorID q ∧ ae_ActorAddr e = q_RemoteAddr q ∧
     (∀ id, id ≠ ae_TargetTeamID e → tb_teams (a_tables out.2) !! id = tb_teams (a_tables st) !! id ∧
        ∀ t month, rget t (Tracker.periodKey id (Tracker.currentPeriod month)) (a_redis out.2) =
                   rget t (Tracker.periodKey id (Tracker.currentPeriod month)) (a_redis st))) ∧
  (out.1 = AErr audit_unavailable →
     a_tables out.2 = a_tables st ∧ a_snap out.2 = a_snap st ∧ a_redis out.2 = a_redis st).
Proof.
  intros Hdb Hnew Hrun Hwired. pose proof (reachable_ok _ _ _ _ _ _ Hdb Hnew Hrun) as Hok. cbv zeta. split.
  - intros Hne. destruct (serve_effect r wx q st Hok) as [[Heq|e (H1 & H2 & _) _ Haud Hrows _ Hred _] _]; [done|].
    exists e. split_and!; [rewrite Haud; by rewrite Hwired|done|done|]. intros id Hid. split; [by apply Hrows|]. intros t month.
    destruct Hred as [->| ->]; [done|]. apply rget_del_ne. intros Heq%Tracker.periodKey_injective. destruct Heq; congruence.
  - apply unavailable_unchanged.
Qed.
End effects.

(** ** Witnesses *)

Module admin_demo.
Definition user (org : string) : Caller := {| cl_UserID := "usr_1"; cl_OrgID := org; cl_IsSuperadmin := false; cl_SessionID := "s" |}.
Definition request (org id body : string) : admin_request :=
  {| q_caller := Some (user org); q_RemoteAddr := "10.0.0.1:1"; q_id := id; q_query := λ _, ""%string; q_body := body |}.
Definition sky (store : db_fate) : weather :=
  {| wx_audit := DbAnswers; wx_store := store; wx_spent := λ _, Replied; wx_reset := Replied; wx_rand := Some "0123456789abcdef"%string;
     wx_now := 7; wx_dbnow := 5; wx_redis := 0 |}.
Definition start : admin_state (db := RedisMap.db Z) :=
  {| a_tables := demo.db; a_snap := demo.s; a_audit := []; a_redis := ∅ |}.
Definition rotated := serve true [] POSTRotate (sky DbAnswers) (request "personal" "a" "") start.
End admin_demo.

(** A database failure is answered as a bad request. *)
Example patch_failure_blames_client :
  (serve true [] PATCHTeam (admin_demo.sky DbUnreachable)
     (admin_demo.request "personal" "a" (cat ["{"; quote; "rpm"; quote; ":5}"])) admin_demo.start).1 = AErr invalid_request.
Proof. vm_compute. reflexivity. Qed.

(** A name tells a tenant whether another organisation has a team of that id. *)
Example create_reveals_foreign_team :
  let body name := cat (map (λ s, if bool_decide (s = "'"%string) then quote else s)
    ["{"; "'"; "name"; "'"; ":"; "'"; name; "'"; ","; "'"; "priority"; "'"; ":"; "'"; "batch"; "'"; ","; "'"; "rpm"; "'"; ":1,";
     "'"; "tpm"; "'"; ":1,"; "'"; "monthly_budget_usd"; "'"; ":1,"; "'"; "allowed_providers"; "'"; ":["; "'"; "p"; "'"; "],";
     "'"; "allowed_models"; "'"; ":["; "'"; "m"; "'"; "]}"]%string) in
  let ask name := (serve true [("p"%string, ["m"%string])] POSTTeams (admin_demo.sky DbUnreachable)
                     (admin_demo.request "other" "" (body name)) admin_demo.start).1 in
  ask "A"%string = AErr team_exists ∧ ask "Z"%string = AErr internal_error.
Proof. vm_compute. done. Qed.

Lemma tenants_isolated_witness :
  serve true [] DELETETeam (admin_demo.sky DbAnswers) (admin_demo.request "other" "a" "") admin_demo.start =
    (AErr team_not_found, admin_demo.start) ∧
  (serve true [] DELETETeam (admin_demo.sky DbAnswers) (admin_demo.request "personal" "a" "") admin_demo.start).1 = ANoContent.
Proof.
  split; [|vm_compute; reflexivity].
  apply (tenants_isolated true [] demo.db demo.s 0 ∅ [] admin_demo.start DELETETeam (admin_demo.sky DbAnswers)
    (admin_demo.request "other" "a" "") (admin_demo.user "other")).
  - exact demo_db_ok.
  - vm_compute. reflexivity.
  - apply rtc_refl.
  - reflexivity.
  - reflexivity.
  - discriminate.
  - intros t Ht. vm_compute in Ht. injection Ht as <-. discriminate.
Defined.

Lemma changes_are_audited_witness :
  ∃ e, a_audit admin_demo.rotated.2 = [e] ∧ ae_ActorUserID e = "usr_1"%string ∧ ae_TargetTeamID e = "a"%string.
Proof.
  destruct (changes_are_audited true [] demo.db demo.s 0 ∅ [] admin_demo.start POSTRotate (admin_demo.sky DbAnswers)
    (admin_demo.request "personal" "a" "")) as [Hc _].
  - exact demo_db_ok.
  - vm_compute. reflexivity.
  - apply rtc_refl.
  - reflexivity.
  - destruct Hc as (e & He & Ha & _); [intros Heq; apply (f_equal (λ st, length (a_audit st))) in Heq; vm_compute in Heq; discriminate Heq|].
    exists e. split; [exact He|]. split; [exact Ha|]. vm_compute in He. injection He as <-. reflexivity.
Defined.
