(* ===== verification/AdminReports.v ===== *)
(** * internal/admin: reading the logs

    requests.go's filter and its two endpoints, costs.go and reconciliation.go,
    and the audit log's pages (audit.go of internal/logstore and of this
    package), over [LogQuery] and [AdminTeams]' scoping.  A row is shown as it
    is: the views rename its fields and print its time. *)

From stdpp Require Import sorting.
From Stdlib Require Import Ascii.
From S2P Require Import Prelude Redis Text Calendar Budget Auth LogWriter Retention LogQuery Duration TeamStore AdminTeams.

(** ** time.Parse(time.RFC3339, s) *)

Definition dig (c : ascii) : option Z := let d := byte c - 48 in if (0 <=? d) && (d <=? 9) then Some d else None.

(** [getnum]: two digits, or one when the width is not fixed. *)
Definition getnum (fixed : bool) (s : string) : option (Z * string) :=
  match s with
  | String a s1 =>
      match dig a with
      | None => None
      | Some x =>
          match s1 with
          | String b s2 => match dig b with Some y => Some (10 * x + y, s2) | None => if fixed then None else Some (x, s1) end
          | EmptyString => if fixed then None else Some (x, s1)
          end
      end
  | EmptyString => None
  end.

Definition skip (c : ascii) (s : string) : option string :=
  match s with String a s' => if bool_decide (a = c) then Some s' else None | EmptyString => None end.

Definition year4 (s : string) : option (Z * string) :=
  match getnum true s with
  | Some (hi, s1) => match getnum true s1 with Some (lo, s2) => Some (100 * hi + lo, s2) | None => None end
  | None => None
  end.

Definition is_leap (y : Z) : bool := (y mod 4 =? 0) && (negb (y mod 100 =? 0) || (y mod 400 =? 0)).
Definition days_in (y m : Z) : Z :=
  if m =? 2 then (if is_leap y then 29 else 28) else if bool_decide (m ∈ [4; 6; 9; 11]) then 30 else 31.

(** Midnight of a day of the proleptic Gregorian calendar. *)
Definition date (y m d : Z) : Z :=
  month_first (if 3 <=? m then 12 * y + (m - 3) else 12 * (y - 1) + (m + 9)) + (d - 1) * day.

(** At most nine digits of a fraction count. *)
Fixpoint fraction (digits : nat) (s : string) (ns : Z) : Z * string :=
  match s with
  | String c s' =>
      match dig c with
      | Some d => match digits with
                  | O => fraction O s' ns
                  | S n => fraction n s' (ns + d * 10 ^ Z.of_nat n)
                  end
      | None => (ns, s)
      end
  | EmptyString => (ns, s)
  end.

Definition frac_second (s : string) : Z * string :=
  match s with
  | String c (String b _ as s') =>
      if (bool_decide (c = "."%char) || bool_decide (c = ","%char)) && bool_decide (is_Some (dig b)) then fraction 9 s' 0 else (0, s)
  | _ => (0, s)
  end.

(** The offset in seconds; nothing may follow it. *)
Definition zone (s : string) : option Z :=
  match s with
  | String a s1 =>
      if bool_decide (a = "Z"%char) then (if bool_decide (s1 = ""%string) then Some 0 else None)
      else match getnum true s1 with
      | None => None
      | Some (hr, s2) =>
          match skip ":" s2 with
          | None => None
          | Some s3 =>
              match getnum true s3 with
              | Some (mm, s4) =>
                  if bool_decide (s4 ≠ ""%string) || (24 <? hr) || (60 <? mm) then None
                  else if bool_decide (a = "+"%char) then Some ((hr * 60 + mm) * 60)
                  else if bool_decide (a = "-"%char) then Some (- ((hr * 60 + mm) * 60))
                  else None
              | None => None
              end
          end
      end
  | EmptyString => None
  end.

Definition bind {A B} (x : option A) (k : A → option B) : option B := match x with Some a => k a | None => None end.

Definition ParseRFC3339 (s : string) : option Z :=
  bind (year4 s) (λ '(y, s), bind (skip "-" s) (λ s, bind (getnum true s) (λ '(m, s), bind (skip "-" s) (λ s,
  bind (getnum true s) (λ '(d, s), bind (skip "T" s) (λ s, bind (getnum false s) (λ '(h, s), bind (skip ":" s) (λ s,
  bind (getnum true s) (λ '(mi, s), bind (skip ":" s) (λ s, bind (getnum true s) (λ '(sec, s),
  let '(ns, s) := frac_second s in
  bind (zone s) (λ off,
  if (1 <=? m) && (m <=? 12) && (h <? 24) && (mi <? 60) && (sec <? 60) && (1 <=? d) && (d <=? days_in y m)
  then Some (date y m d + ((h * 60 + mi) * 60 + sec - off) * second + ns) else None)))))))))))).

Example rfc3339 :
  ParseRFC3339 "1970-01-01T00:00:00Z" = Some 0 ∧ ParseRFC3339 "2024-02-29T12:30:05.25Z" = Some (1709209805 * second + 250000000) ∧
  ParseRFC3339 "2024-02-29T1:30:05+01:00" = Some (1709166605 * second) ∧ ParseRFC3339 "2023-02-29T12:30:05Z" = None ∧
  ParseRFC3339 "0001-01-01T00:00:00Z" = Some zero_time ∧ ParseRFC3339 "2024-02-29 12:30:05Z" = None ∧ ParseRFC3339 "2024-02-29T12:30:05" = None.
Proof. vm_compute. done. Qed.

(** ** requests.go

    [wired] is whether the log is configured at all, here and below. *)

Definition parseTime (now : Z) (v : string) : option Z :=
  if bool_decide (v = ""%string) then Some zero_time
  else match ParseRFC3339 v with
       | Some t => Some t
       | None => match ParseDuration v with Some d => Some (now + wrap64 (- d)) | None => None end
       end.

(** A class like 4xx is a range, anything else an exact code. *)
Definition parseStatus (v : string) : option (Z * Z * Z) :=
  if bool_decide (v = ""%string) then Some (0, 0, 0)
  else match v with
       | String a (String b (String _ EmptyString)) =>
           if bool_decide (b = "x"%char) || bool_decide (b = "X"%char) then
             match ParseInt (String a EmptyString) with
             | (d, None) => if (1 <=? d) && (d <=? 5) then Some (0, d * 100, d * 100 + 99) else None
             | (_, Some _) => None
             end
           else match ParseInt v with (n, None) => Some (n, 0, 0) | _ => None end
       | _ => match ParseInt v with (n, None) => Some (n, 0, 0) | _ => None end
       end.

Definition parseCache (v : string) : option (option bool) :=
  if bool_decide (v = ""%string) then Some None
  else if bool_decide (v = "hit"%string) then Some (Some true)
  else if bool_decide (v = "miss"%string) then Some (Some false) else None.

(** [strconv.ParseBool] *)
Definition parseBool (v : string) : option (option bool) :=
  if bool_decide (v = ""%string) then Some None
  else if bool_decide (v ∈ ["1"; "t"; "T"; "TRUE"; "true"; "True"]%string) then Some (Some true)
  else if bool_decide (v ∈ ["0"; "f"; "F"; "FALSE"; "false"; "False"]%string) then Some (Some false)
  else None.

Definition parseLimit (v : string) : option Z :=
  if bool_decide (v = ""%string) then Some 0
  else match ParseInt v with (n, None) => if n <=? 0 then None else Some n | _ => None end.

Definition parseFilter (now : Z) (get : string → string) (scope : option (list string)) : option Filter_ :=
  bind (parseStatus (get "status"%string)) (λ '(code, lo, hi),
  bind (parseCache (get "cache"%string)) (λ cache,
  bind (parseBool (get "fallback"%string)) (λ fallback,
  bind (parseTime now (get "since"%string)) (λ since,
  bind (parseTime now (get "until"%string)) (λ until,
  bind (parseLimit (get "limit"%string)) (λ limit,
  match DecodeCursor (get "cursor"%string) with
  | Err _ => None
  | Ok cursor =>
      Some {| f_TeamIDs := scope; f_Provider := get "provider"%string; f_Model := get "model"%string; f_StatusCode := code;
              f_StatusMin := lo; f_StatusMax := hi; f_CacheHit := cache; f_Fallback := fallback; f_Since := since; f_Until := until;
              f_Limit := limit; f_Cursor := cursor |}
  end)))))).

Definition request_log_disabled : admin_error := {| er_status := 503; er_type := "request_log_disabled" |}.
Definition audit_log_disabled : admin_error := {| er_status := 503; er_type := "audit_log_disabled" |}.
Definition not_found : admin_error := {| er_status := 404; er_type := "not_found" |}.

Section reports.
Context (lt : string → string → bool).

Definition listRequests (wired reachable : bool) (now : Z) (q : admin_request) (s : snapshot) (t : Retention.tables) : result admin_error Page :=
  if negb wired then Err request_log_disabled else
  match orgScope q s with
  | Err e => Err e
  | Ok scope =>
      match parseFilter now (q_query q) scope with
      | None => Err invalid_request
      | Some f => match Query lt reachable f t with Some p => Ok p | None => Err internal_error end
      end
  end.

Definition getRequest (wired reachable : bool) (q : admin_request) (s : snapshot) (t : Retention.tables) : result admin_error Record_ :=
  if negb wired then Err request_log_disabled else
  match orgScope q s with
  | Err e => Err e
  | Ok scope =>
      if negb reachable then Err internal_error
      else match LogQuery.Get (q_id q) scope t with Some r => Ok r | None => Err not_found end
  end.

(** ** costs.go *)

Definition costRange (k : string) : option (Z * CostBucket) :=
  let k := if bool_decide (k = ""%string) then "24h"%string else k in
  if bool_decide (k = "24h"%string) then Some (day, CostHourly)
  else if bool_decide (k = "7d"%string) then Some (7 * day, CostDaily)
  else if bool_decide (k = "30d"%string) then Some (30 * day, CostDaily) else None.

Definition costDimension (k : string) : option CostDimension :=
  let k := if bool_decide (k = ""%string) then "provider"%string else k in
  if bool_decide (k = "provider"%string) then Some CostByProvider
  else if bool_decide (k = "model"%string) then Some CostByModel
  else if bool_decide (k = "team"%string) then Some CostByTeam else None.

Record costPoint := { cp_T : Z; cp_Total : Z; cp_Breakdown : gmap string Z }.

(** One cell added to the points: the points are keyed by the bucket's second,
    which is what its printed time tells apart. *)
Definition add_cell (c : CostCell) (points : gmap Z costPoint) : gmap Z costPoint :=
  if cc_Micros c =? 0 then points
  else
    let k := cc_Bucket c / second in
    let p := default {| cp_T := k; cp_Total := 0; cp_Breakdown := ∅ |} (points !! k) in
    <[k := {| cp_T := k; cp_Total := wrap64 (cp_Total p + cc_Micros c);
              cp_Breakdown := <[cc_Key c := wrap64 (default 0 (cp_Breakdown p !! cc_Key c) + cc_Micros c)]> (cp_Breakdown p) |}]> points.

Definition sooner (a b : costPoint) : Prop := cp_T a ≤ cp_T b.
#[export] Instance sooner_dec : RelDecision sooner.
Proof. intros a b. unfold sooner. apply _. Defined.

Definition buildCostsView (cells : list CostCell) : list costPoint * gset string :=
  (merge_sort sooner ((map_to_list (foldl (λ ps c, add_cell c ps) ∅ cells)).*2),
   list_to_set (map cc_Key (keep (λ c, negb (cc_Micros c =? 0)) cells))).

Definition handleCosts (wired reachable : bool) (now : Z) (q : admin_request) (s : snapshot) (t : Retention.tables)
    : result admin_error (list costPoint * gset string) :=
  if negb wired then Err request_log_disabled else
  match orgScope q s with
  | Err e => Err e
  | Ok scope =>
      match costRange (q_query q "range"%string), costDimension (q_query q "by"%string) with
      | Some (lookback, bucket), Some dim =>
          if negb reachable then Err internal_error
          else match CostSeries {| q_Since := now - lookback; q_Bucket := bucket; q_Dimension := dim; q_TeamIDs := scope |} t with
               | Some cells => Ok (buildCostsView cells)
               | None => Err internal_error
               end
      | _, _ => Err invalid_request
      end
  end.

(** ** Audit pages *)

(** A row of audit_log; an entry's empty organisation or team is null there. *)
Record audit_row := { ar_ID : string; ar_Timestamp : Z; ar_entry : AuditEntry }.

Definition ActorPlatformOperator : string := "platform-operator".

Record AuditQuery := { aq_OrgID : string; aq_Unscoped : bool; aq_Limit : Z; aq_Cursor : string }.

(** The columns selected for a tenant: an operator's name and address are
    replaced in the query. *)
Definition redact (unscoped : bool) (r : audit_row) : audit_row :=
  let e := ar_entry r in
  if unscoped || negb (ae_Superadmin e) then r
  else {| ar_ID := ar_ID r; ar_Timestamp := ar_Timestamp r;
          ar_entry := {| ae_ActorUserID := ActorPlatformOperator; ae_ActorAddr := ""; ae_Action := ae_Action e;
                         ae_OrganizationID := ae_OrganizationID e; ae_Superadmin := ae_Superadmin e; ae_TargetTeamID := ae_TargetTeamID e;
                         ae_Before := ae_Before e; ae_After := ae_After e |} |}.

Definition audit_newest (a b : audit_row) : Prop :=
  ar_Timestamp b < ar_Timestamp a ∨
  ar_Timestamp a = ar_Timestamp b ∧ (ar_ID a = ar_ID b ∨ lt (ar_ID b) (ar_ID a) = true).
#[export] Instance audit_newest_dec : RelDecision audit_newest.
Proof. intros a b. unfold audit_newest. apply _. Defined.

(** A null organisation equals no parameter, the empty one included. *)
Definition audit_selects (q : AuditQuery) (c : Cursor) (r : audit_row) : bool :=
  (aq_Unscoped q ||
   (bool_decide (ae_OrganizationID (ar_entry r) ≠ ""%string) && bool_decide (ae_OrganizationID (ar_entry r) = aq_OrgID q))) &&
  (IsZero c || precedes lt (ar_Timestamp r) (ar_ID r) c).

Definition ListAudit (reachable : bool) (q : AuditQuery) (rows : list audit_row) : option (list audit_row * string) :=
  match DecodeCursor (aq_Cursor q) with
  | Err _ => None
  | Ok c =>
      if negb reachable then None
      else
        let limit := Z.to_nat (page_size (aq_Limit q)) in
        let sel := take (limit + 1) (map (redact (aq_Unscoped q)) (merge_sort audit_newest (keep (audit_selects q c) rows))) in
        if (limit <? length sel)%nat
        then let entries := take limit sel in
             Some (entries, match last entries with Some r => Encode {| c_TS := ar_Timestamp r; c_ID := ar_ID r |} | None => ""%string end)
        else Some (sel, ""%string)
  end.

(** Every error of [ListAudit], a cursor that does not parse included, is a 500. *)
Definition listAudit (wired reachable : bool) (q : admin_request) (rows : list audit_row) : result admin_error (list audit_row * string) :=
  if negb wired then Err audit_log_disabled else
  match q_caller q with
  | None => Err no_session
  | Some c =>
      match parseLimit (q_query q "limit"%string) with
      | None => Err invalid_request
      | Some limit =>
          match ListAudit reachable {| aq_OrgID := cl_OrgID c; aq_Unscoped := cl_IsSuperadmin c; aq_Limit := limit;
                                       aq_Cursor := q_query q "cursor"%string |} rows with
          | Some p => Ok p
          | None => Err internal_error
          end
      end
  end.
End reports.

(** ** reconciliation.go *)

Definition tolerance : Z := 10000.

Record reconcileTeam := { rt_TeamID : string; rt_LogMicros : Z; rt_Redis : option (Z * Z * bool) }.
Record reconcileView := { rv_Degraded : bool; rv_Reconciled : bool; rv_Teams : list reconcileTeam }.

Section reconcile.
Context {db : Type} `{!Redis Z db}.

(** One team against its counter: the counter, the difference, and whether it is
    within the tolerance; nothing when Redis did not answer. *)
Definition reconcile_team (now rt : Z) (f : net_fate) (logged : gmap string Z) (d : db) (t : Team) : reconcileTeam :=
  let logMicros := default 0 (logged !! t_ID t) in
  {| rt_TeamID := t_ID t; rt_LogMicros := logMicros;
     rt_Redis := match Tracker.Spent now rt f (t_ID t) d with
                 | Err _ => None
                 | Ok redis => let delta := wrap64 (redis - logMicros) in
                               Some (redis, delta, (delta <=? tolerance) && (- tolerance <=? delta))
                 end |}.

Fixpoint reconcile_teams (now rt : Z) (fates : nat → net_fate) (logged : gmap string Z) (d : db) (teams : list Team) : list reconcileTeam :=
  match teams with
  | [] => []
  | t :: ts => reconcile_team now rt (fates 0%nat) logged d t :: reconcile_teams now rt (λ i, fates (S i)) logged d ts
  end.

(** The month so far, by the gateway's clock. *)
Definition month_start (now : Z) : Z := month_first (month_index now).

Definition handleReconciliation (wired reachable : bool) (now rt : Z) (fates : nat → net_fate) (q : admin_request) (s : snapshot)
    (t : Retention.tables) (d : db) : result admin_error reconcileView :=
  if negb wired then Err request_log_disabled else
  match orgScope q s with
  | Err e => Err e
  | Ok scope =>
      match (if reachable then SpendByTeamSince (month_start now) t else None) with
      | None => Err internal_error
      | Some logged =>
          let teams := reconcile_teams now rt fates logged d (keep (λ t, in_teams scope (t_ID t)) (store_List s)) in
          Ok {| rv_Degraded := existsb (λ v, bool_decide (rt_Redis v = None)) teams;
                rv_Reconciled := forallb (λ v, match rt_Redis v with Some (_, _, within) => within | None => false end) teams;
                rv_Teams := teams |}
      end
  end.
End reconcile.

(** ** What the reports guarantee *)

From S2P Require Import AuthFacts LogQueryFacts TeamStoreFacts AdminTeamsFacts.

(** The organisation's own teams, as the snapshot knows them. *)
Definition mine (c : Caller) (s : snapshot) (team : string) : Prop :=
  ∃ t, byID (sn_registry s) !! team = Some t ∧ t_OrganizationID t = cl_OrgID c.

Lemma store_List_elem s t : reg_ok (sn_registry s) → t ∈ store_List s ↔ byID (sn_registry s) !! t_ID t = Some t.
Proof.
  intros Hok. unfold store_List, List_. rewrite list_elem_of_fmap. split.
  - intros ([id t'] & -> & Hin%elem_of_map_to_list). simpl. by rewrite (ro_id _ Hok _ _ Hin).
  - intros Hl. exists (t_ID t, t). split; [done|]. by apply elem_of_map_to_list.
Qed.

(** A tenant's scope is never everything, and holds its own teams only. *)
Lemma orgScope_mine q c s scope :
  reg_ok (sn_registry s) → q_caller q = Some c → cl_IsSuperadmin c = false → orgScope q s = Ok scope →
  ∀ team, in_teams scope team = true → mine c s team.
Proof.
  intros Hok Hq Hns. unfold orgScope. rewrite Hq, Hns.
  assert (∀ team, in_teams (Some (map t_ID (keep (own c) (store_List s)))) team = true → mine c s team) as Hmine.
  { intros team Ht%bool_decide_eq_true. apply list_elem_of_fmap in Ht as (t & -> & [Ht Ho]%elem_of_keep).
    exists t. split; [by apply store_List_elem|by apply bool_decide_eq_true in Ho]. }
  case_bool_decide; [|intros [= <-]; exact Hmine]. destruct (existsb _ _) eqn:He; [|intros [= <-]; exact Hmine].
  intros [= <-] team Ht%bool_decide_eq_true. apply list_elem_of_singleton in Ht as ->.
  apply existsb_exists in He as (t & Hin & [Hid Ho]%andb_true_iff). apply bool_decide_eq_true in Hid, Ho. rewrite <- Hid.
  exists t. split; [|done]. apply store_List_elem; [done|]. by apply list_elem_of_In.
Qed.

Lemma parseFilter_scope now get scope f : parseFilter now get scope = Some f → f_TeamIDs f = scope.
Proof.
  unfold parseFilter, bind. repeat (case_match; try done). by intros [= <-].
Qed.

Lemma reconcile_teams_elem {D} `{!Redis Z D} now rt fates logged (d : D) teams x :
  x ∈ reconcile_teams now rt fates logged d teams → ∃ t, t ∈ teams ∧ rt_TeamID x = t_ID t.
Proof.
  revert fates. induction teams as [|t ts IH]; intros fates; simpl; [by intros ?%elem_of_nil|].
  intros [->|Hx]%elem_of_cons; [exists t; split; [left|done]|]. destruct (IH _ Hx) as (t' & Ht' & Hid). exists t'. split; [by right|done].
Qed.

Lemma Query_scope lt reachable f t p r :
  Query lt reachable f t = Some p → r ∈ Records p → in_teams (f_TeamIDs f) (lr_TeamID r) = true.
Proof.
  unfold Query. destruct (negb _); [done|].
  assert (∀ n, r ∈ take n (ordered lt f (f_Cursor f) (tb_requests t)) → in_teams (f_TeamIDs f) (lr_TeamID r) = true) as H.
  { intros n Hr%elem_of_take. destruct Hr as (i & Hi & _). apply list_elem_of_lookup_2, ordered_elem in Hi as (_ & Hsel & _).
    unfold selects in Hsel. by repeat (apply andb_true_iff in Hsel as [Hsel _]). }
  case_match; intros [= <-]; simpl; [rewrite take_take|]; apply H.
Qed.

Lemma ListAudit_rows lt reachable q rows es next e :
  ListAudit lt reachable q rows = Some (es, next) → e ∈ es →
  ∃ r, r ∈ rows ∧ e = redact (aq_Unscoped q) r ∧
    (aq_Unscoped q = false → ae_OrganizationID (ar_entry r) ≠ ""%string ∧ ae_OrganizationID (ar_entry r) = aq_OrgID q).
Proof.
  unfold ListAudit. destruct (DecodeCursor _) as [c|]; [|done]. destruct reachable; [|done]. simpl.
  assert (∀ n, e ∈ take n (map (redact (aq_Unscoped q)) (merge_sort (audit_newest lt) (keep (audit_selects lt q c) rows))) →
    ∃ r, r ∈ rows ∧ e = redact (aq_Unscoped q) r ∧
      (aq_Unscoped q = false → ae_OrganizationID (ar_entry r) ≠ ""%string ∧ ae_OrganizationID (ar_entry r) = aq_OrgID q)) as H.
  { intros n Hr%elem_of_take. destruct Hr as (i & Hi & _). apply list_elem_of_lookup_2, list_elem_of_fmap in Hi as (r & -> & Hr).
    rewrite merge_sort_Permutation in Hr. apply elem_of_keep in Hr as [Hr [Hs _]%andb_true_iff]. exists r. split_and!; [done|done|].
    intros Hu. rewrite Hu in Hs. simpl in Hs. apply andb_true_iff in Hs as [H1%bool_decide_eq_true H2%bool_decide_eq_true]. done. }
  case_match; intros [= <- _]; [rewrite take_take|]; apply H.
Qed.

(** Two logs that hold the same of an organisation. *)
Definition mineb (c : Caller) (s : snapshot) (team : string) : bool :=
  match byID (sn_registry s) !! team with Some t => own c t | None => false end.

Lemma mineb_mine c s team : mine c s team → mineb c s team = true.
Proof. intros (t & Ht & Ho). unfold mineb. rewrite Ht. by apply bool_decide_eq_true. Qed.

Definition same_mine (c : Caller) (s : snapshot) (t t' : Retention.tables) : Prop :=
  keep (λ r, mineb c s (lr_TeamID r)) (tb_requests t) = keep (λ r, mineb c s (lr_TeamID r)) (tb_requests t') ∧
  (∀ g, mineb c s (g_team g) = true → tb_daily t !! g = tb_daily t' !! g).

Lemma keep_within {A} (f h : A → bool) l : (∀ x, f x = true → h x = true) → keep f (keep h l) = keep f l.
Proof.
  intros Hfh. induction l as [|x l IH]; [done|]. cbn [keep]. destruct (h x) eqn:Hh; cbn [keep]; rewrite IH; [done|].
  destruct (f x) eqn:Hf; [|done]. apply Hfh in Hf. congruence.
Qed.

Lemma keep_map_agree {K V} `{Countable K} (f : K * V → bool) (m m' : gmap K V) :
  (∀ k v v', f (k, v) = true ∨ f (k, v') = true → m !! k = Some v ∨ m' !! k = Some v' → m !! k = m' !! k) →
  keep f (map_to_list m) ≡ₚ keep f (map_to_list m').
Proof.
  intros Hag. apply NoDup_Permutation.
  - eapply sublist_NoDup; [apply NoDup_map_to_list|apply keep_sublist].
  - eapply sublist_NoDup; [apply NoDup_map_to_list|apply keep_sublist].
  - intros [k v]. rewrite !elem_of_keep, !elem_of_map_to_list. split; intros [Hk Hf]; (split; [|done]).
    + rewrite <- (Hag k v v); auto.
    + rewrite (Hag k v v); auto.
Qed.

Lemma CostSeries_scope c s q t t' :
  (∀ team, in_teams (q_TeamIDs q) team = true → mine c s team) → same_mine c s t t' → CostSeries q t = CostSeries q t'.
Proof.
  intros Hsc [Hrows Hdaily].
  assert (∀ team, in_teams (q_TeamIDs q) team = true → mineb c s team = true) as Hb by (intros team H; by apply mineb_mine, Hsc).
  assert (sum_by (cost_lines q t) = sum_by (cost_lines q t')) as Heq; [|unfold CostSeries; by rewrite Heq].
  unfold cost_lines. rewrite !sum_by_app. f_equal.
  - rewrite <- (keep_within _ (λ r, mineb c s (lr_TeamID r)) (tb_requests t)), <- (keep_within _ (λ r, mineb c s (lr_TeamID r)) (tb_requests t')), Hrows;
      [done|intros r [_ H]%andb_true_iff; by apply Hb..].
  - destruct (q_Bucket q); [done|]. apply sum_by_perm, Permutation_map, keep_map_agree. intros g v v' Hf _.
    apply Hdaily, Hb. by destruct Hf as [[_ ?]%andb_true_iff|[_ ?]%andb_true_iff].
Qed.

(** C23: A tenant's reports stay in its organisation.  For a user who is not a
    superadmin, every request row listed or fetched is of a team of the user's
    organisation, and a row of any other is answered as missing; the cost series
    does not depend on any other organisation's rows; reconciliation covers the
    organisation's teams only; and the audit pages hold the organisation's
    entries only, an operator's name and address in none of them. *)
Theorem reports_stay_in_scope lt {D} `{!Redis Z D} q c s :
  reg_ok (sn_registry s) → q_caller q = Some c → cl_IsSuperadmin c = false →
  (∀ wired reachable now t p r, listRequests lt wired reachable now q s t = Ok p → r ∈ Records p → mine c s (lr_TeamID r)) ∧
  (∀ wired reachable t r, getRequest wired reachable q s t = Ok r → lr_ID r = q_id q ∧ mine c s (lr_TeamID r)) ∧
  (∀ t, (∀ r, r ∈ tb_requests t → lr_ID r = q_id q → ¬ mine c s (lr_TeamID r)) → getRequest true true q s t = Err not_found) ∧
  (∀ wired reachable now t t', same_mine c s t t' → handleCosts wired reachable now q s t = handleCosts wired reachable now q s t') ∧
  (∀ wired reachable now rt fates t (d : D) v x, handleReconciliation wired reachable now rt fates q s t d = Ok v → x ∈ rv_Teams v → mine c s (rt_TeamID x)) ∧
  (∀ wired reachable rows es next e, listAudit lt wired reachable q rows = Ok (es, next) → e ∈ es →
     ae_OrganizationID (ar_entry e) = cl_OrgID c ∧
     (ae_Superadmin (ar_entry e) = true → ae_ActorUserID (ar_entry e) = ActorPlatformOperator ∧ ae_ActorAddr (ar_entry e) = ""%string)).
Proof.
  intros Hok Hq Hns.
  assert (∃ scope, orgScope q s = Ok scope ∧ ∀ team, in_teams scope team = true → mine c s team) as (scope & Hs & Hm).
  { destruct (orgScope q s) as [scope|e] eqn:Hs; [exists scope; split; [done|by eapply orgScope_mine]|].
    unfold orgScope in Hs. rewrite Hq, Hns in Hs. repeat case_match; done. }
  split_and!.
  - intros [] reachable now t p r; [|done]. unfold listRequests. cbn [negb]. rewrite Hs. destruct (parseFilter _ _ _) as [f|] eqn:Hf; [|done].
    destruct (Query lt reachable f t) as [p'|] eqn:HQ; [|done]. intros [= <-] Hr. apply Hm.
    apply (Query_scope _ _ _ _ _ _ HQ) in Hr. by rewrite (parseFilter_scope _ _ _ _ Hf) in Hr.
  - intros [] reachable t r; [|done]. unfold getRequest, LogQuery.Get. cbn [negb]. rewrite Hs. destruct reachable; [|done]. simpl.
    destruct (find_first _ _) as [r'|] eqn:Hf; [|done]. intros [= <-].
    apply find_first_Some in Hf as [_ [Hid%bool_decide_eq_true Ht]%andb_true_iff]. split; [done|by apply Hm].
  - intros t Hno. unfold getRequest, LogQuery.Get. cbn [negb]. rewrite Hs. simpl. destruct (find_first _ _) as [r'|] eqn:Hf; [|done]. exfalso.
    apply find_first_Some in Hf as [Hin [Hid%bool_decide_eq_true Ht]%andb_true_iff]. by apply (Hno r'), Hm.
  - intros [] reachable now t t' Hsame; [|done]. unfold handleCosts. cbn [negb]. rewrite Hs. destruct (costRange _) as [[lb b]|]; [|done].
    destruct (costDimension _) as [dim|]; [|done]. by rewrite (CostSeries_scope c s _ t t').
  - intros [] reachable now rt fates t d v x; [|done]. unfold handleReconciliation. cbn [negb]. rewrite Hs. destruct (if reachable then _ else _) as [m|]; [|done].
    intros [= <-]. simpl. intros (u & Hu & ->)%reconcile_teams_elem. apply elem_of_keep in Hu as [_ Hu]. by apply Hm.
  - intros [] reachable rows es next e; [|done]. unfold listAudit. cbn [negb]. rewrite Hq. destruct (parseLimit _) as [n|]; [|done].
    destruct (ListAudit _ _ _ _) as [p|] eqn:HL; [|done]. intros [= ->] He.
    destruct (ListAudit_rows _ _ _ _ _ _ _ HL He) as (r & _ & -> & Hr). simpl in *. destruct (Hr Hns) as [_ Ho].
    unfold redact. rewrite Hns. simpl. destruct (ae_Superadmin (ar_entry r)) eqn:Hsu; simpl; [done|]. split; [done|]. congruence.
Qed.

(** Rolling the log up does not move the books: the month begins at a midnight. *)
Lemma reconciliation_survives_retention {D} `{!Redis Z D} cfg at_ lock f t wired reachable now rt fates q s (d : D) :
  NoDup (map lr_ID (tb_requests t)) →
  handleReconciliation wired reachable now rt fates q s (Sweep cfg at_ lock f t).2 d = handleReconciliation wired reachable now rt fates q s t d.
Proof.
  intros Hids. unfold handleReconciliation. destruct wired; [|done]. cbn [negb]. destruct (orgScope q s); [|done]. destruct reachable; [|done].
  rewrite !SpendByTeamSince_report; [by rewrite Sweep_report|..];
    unfold month_start, month_first; by rewrite Z.mul_comm, Z.mod_mul by (by vm_compute).
Qed.

(** The report is clean exactly when every counter was read and is within the
    tolerance of the log. *)
Lemma reconciled_iff {D} `{!Redis Z D} wired reachable now rt fates q s t (d : D) v :
  handleReconciliation wired reachable now rt fates q s t d = Ok v →
  (rv_Reconciled v = true ↔
   ∀ x, x ∈ rv_Teams v → ∃ redis, rt_Redis x = Some (redis, wrap64 (redis - rt_LogMicros x), true) ∧
                                  - tolerance ≤ wrap64 (redis - rt_LogMicros x) ≤ tolerance).
Proof.
  unfold handleReconciliation. destruct wired; [|done]. cbn [negb]. destruct (orgScope q s); [|done]. destruct (if reachable then _ else _) as [m|]; [|done].
  intros [= <-]. cbn [rv_Reconciled rv_Teams].
  set (teams := keep _ _). clearbody teams. revert fates. induction teams as [|u us IH]; intros fates; cbn [reconcile_teams forallb].
  { split; [by intros _ x ?%elem_of_nil|done]. }
  rewrite andb_true_iff, IH. unfold reconcile_team. cbn [rt_Redis]. split.
  - intros [Hw Hus] x [->|Hx]%elem_of_cons; [|by apply Hus]. cbn [rt_Redis rt_LogMicros].
    destruct (Tracker.Spent _ _ _ _ _) as [redis|]; [|done]. exists redis. cbv zeta in *. rewrite Hw. split; [done|].
    apply andb_true_iff in Hw as [H1%Z.leb_le H2%Z.leb_le]. lia.
  - intros Hall. split; [|intros x Hx; apply Hall; by right].
    destruct (Hall _ ltac:(left)) as (redis & Hr & _). cbn [rt_Redis rt_LogMicros] in Hr.
    destruct (Tracker.Spent _ _ _ _ _) as [n|]; [|done]. by injection Hr as _ _ ->.
Qed.

Lemma reports_stay_in_scope_witness :
  getRequest true true (admin_demo.request "other" "b" "") demo.s Retention.demo_tables = Err not_found.
Proof.
  destruct (reports_stay_in_scope byte_order (D := RedisMap.db Z) (admin_demo.request "other" "b" "") (admin_demo.user "other") demo.s)
    as (_ & _ & Hmissing & _).
  - apply (co_reg demo.db). apply (New_coherent true 0); [exact demo_db_ok|vm_compute; reflexivity].
  - reflexivity.
  - reflexivity.
  - apply Hmissing. intros r Hr Hid (t & Ht & Ho). 
    assert (lr_TeamID r = "acme"%string) as Hteam.
    { clear Ht Ho Hid. revert r Hr. apply Forall_forall. repeat constructor. }
    rewrite Hteam in Ht. vm_compute in Ht. discriminate Ht.
Defined.
