(* ===== verification/AdminOps.v ===== *)
(** * internal/admin: operating the gateway

    cache.go's sweep and purge, providers.go, health.go, reload.go, system.go, attribution.go
    and quality.go of internal/admin, the query behind the last of them
    (QualityFeedbackSince of internal/logstore/query.go), cmd/gateway/system.go,
    and the routes of router.go that only a superadmin passes.  Views hold what
    the JSON does but for the time they were generated at; a signal holds what
    its sentence prints. *)

From stdpp Require Import sorting.
From Stdlib Require Import Ascii.
From S2P Require Import Prelude Redis Text Base64 Float32 Calendar Budget Breaker BreakerFacts BreakerStore BreakerRegistry Rational Ring Health Auth Http CacheKey CacheStore CacheTune Chaos ProviderRegistry Duration Reload LogWriter Retention LogQuery TeamStore AdminTeams AdminReports.

(** ** strconv.ParseFloat, on any string *)

Definition lower (c : ascii) : Z := Z.lor (byte c) 32.

(** Equal to a lower-case word but for the case of ASCII letters. *)
Fixpoint folds_to (w s : string) : bool :=
  match w, s with
  | EmptyString, EmptyString => true
  | String a w', String b s' =>
      (byte a =? (if (65 <=? byte b) && (byte b <=? 90) then byte b + 32 else byte b)) && folds_to w' s'
  | _, _ => false
  end.

Definition hex_letter (c : ascii) : option Z :=
  let d := lower c - 97 in if (0 <=? d) && (d <=? 5) then Some (10 + d) else None.

(** The significand so far, its digits after the point, whether there was a
    digit and an underscore, and the rest. *)
Fixpoint mantissa (hex : bool) (s : string) (m frac : Z) (dot digits under : bool) : Z * Z * bool * bool * string :=
  match s with
  | EmptyString => (m, frac, digits, under, s)
  | String c s' =>
      let base := if hex then 16 else 10 in
      let digit d := mantissa hex s' (m * base + d) (if dot then frac + 1 else frac) dot true under in
      if bool_decide (c = "_"%char) then mantissa hex s' m frac dot digits true
      else if bool_decide (c = "."%char) then
        if dot then (m, frac, digits, under, s) else mantissa hex s' m frac true digits under
      else match digit_of c with
           | Some d => digit d
           | None => match (if hex then hex_letter c else None) with
                     | Some d => digit d
                     | None => (m, frac, digits, under, s)
                     end
           end
  end.

Fixpoint exponent (s : string) (e : Z) (under : bool) : Z * bool * string :=
  match s with
  | EmptyString => (e, under, s)
  | String c s' =>
      if bool_decide (c = "_"%char) then exponent s' e true
      else match digit_of c with
           | Some d => exponent s' (if e <? 10000 then e * 10 + d else e) under
           | None => (e, under, s)
           end
  end.

(** An underscore stands between digits, or after the prefix. *)
Inductive seen := SeenNothing | SeenDigit | SeenUnderscore | SeenOther.

Fixpoint underscores_ok (hex : bool) (saw : seen) (s : string) : bool :=
  match s with
  | EmptyString => match saw with SeenUnderscore => false | _ => true end
  | String c s' =>
      if bool_decide (is_Some (digit_of c)) || (hex && bool_decide (is_Some (hex_letter c))) then underscores_ok hex SeenDigit s'
      else if bool_decide (c = "_"%char) then match saw with SeenDigit => underscores_ok hex SeenUnderscore s' | _ => false end
      else match saw with SeenUnderscore => false | _ => underscores_ok hex SeenOther s' end
  end.

Definition round_to (prec emax : Z) (neg : bool) (base m e : Z) : option spec_float :=
  let x := if 0 <=? e then sf_of_ratio prec emax neg (m * base ^ e) 1 else sf_of_ratio prec emax neg m (base ^ (- e)) in
  match x with S754_infinity _ => None | _ => Some x end.

(** A number after its sign and prefix. *)
Definition read_float (prec emax : Z) (neg hex : bool) (s : string) : option spec_float :=
  let '(m, frac, digits, under, rest) := mantissa hex s 0 0 false false false in
  let start := if hex then SeenDigit else SeenNothing in
  let finish under e :=
    if under && negb (underscores_ok hex start s) then None
    else if hex then round_to prec emax neg 2 m (e - 4 * frac) else round_to prec emax neg 10 m (e - frac) in
  if negb digits then None
  else match rest with
       | EmptyString => if hex then None else finish under 0
       | String c rest' =>
           if lower c =? (if hex then 112 else 101) then
             let '(eneg, ds) := signed_head rest' in
             match ds with
             | String d _ =>
                 match digit_of d, exponent ds 0 under with
                 | Some _, (e, under, EmptyString) => finish under (if eneg then - e else e)
                 | _, _ => None
                 end
             | EmptyString => None
             end
           else None
       end.

Definition ParseFloat (prec emax : Z) (s : string) : option spec_float :=
  let '(neg, body) := signed_head s in
  if folds_to "inf" body || folds_to "infinity" body then Some (S754_infinity neg)
  else if folds_to "nan" s then Some S754_nan
  else match body with
       | String a (String b (String c rest)) =>
           if bool_decide (a = "0"%char) && (lower b =? 120) then read_float prec emax neg true (String c rest)
           else read_float prec emax neg false body
       | _ => read_float prec emax neg false body
       end.

Definition ParseFloat_32 : string → option float32 := ParseFloat 24 128.
Definition ParseFloat_64 : string → option float64 := ParseFloat 53 1024.

Example parse_float_any :
  map ParseFloat_64 ["4.5"; "1_0.5e0_1"; "0x1p-2"; "0X_F.8p0"; "-iNf"; "NaN"; ".5"; "5."; "+0"]%string =
    [Some (S754_finite false 5066549580791808 (-50)); Some (f64_of_Z 105); ParseFloat64 "0.25"; ParseFloat64 "15.5";
     Some (S754_infinity true); Some S754_nan; ParseFloat64 "0.5"; Some (f64_of_Z 5); Some (S754_zero false)] ∧
  map ParseFloat_64 [""; "."; "1__0"; "_1"; "1_"; "1_.5"; "0x1"; "0xp1"; "1e"; "1e+"; "1e400"; "+nan"; "infin"; "1 "; "1.2.3"; "0x"]%string =
    replicate 16 None.
Proof. vm_compute. done. Qed.

(** ** cache.go *)

Definition cache_disabled : admin_error := {| er_status := 404; er_type := "cache_disabled" |}.
Definition bad_request : admin_error := {| er_status := 400; er_type := "invalid_request" |}.
Definition cache_unavailable : admin_error := {| er_status := 503; er_type := "cache_unavailable" |}.

Definition maxSweepThresholds : nat := 64.

Fixpoint read_thresholds (parts : list string) : option (list float32) :=
  match parts with
  | [] => Some []
  | p :: ps =>
      match ParseFloat_32 (trim_space p) with
      | None => None
      | Some v =>
          if f_ltb v (f32_of_Z (-1)) || f_ltb (f32_of_Z 1) v then None
          else match read_thresholds ps with Some vs => Some (v :: vs) | None => None end
      end
  end.

(** The empty list asks for the sweep's own range. *)
Definition parseThresholds (raw : string) : option (list float32) :=
  if bool_decide (trim_space raw = ""%string) then Some []
  else
    let parts := Split "," raw in
    if (maxSweepThresholds <? length parts)%nat then None else read_thresholds parts.

Section cache.
Context {db : Type} `{!Redis cval db} (st : Store) (scan : string → db → list (list string)).

Fixpoint load_buckets (t : Z) (fates : nat → net_fate * net_fate) (keys : list string) (d : db) : option (list (list (list float32))) :=
  match keys with
  | [] => Some []
  | k :: ks =>
      match bucketVectors st t (fates 0%nat).1 (fates 0%nat).2 k d with
      | Err _ => None
      | Ok vs => match load_buckets t (λ i, fates (S i)) ks d with Some bs => Some (vs :: bs) | None => None end
      end
  end.

(** [None] is the panic of a score outside the histogram. *)
Definition tuneCache (wired : bool) (t : Z) (f : nat → net_fate) (fates : nat → net_fate * net_fate) (q : admin_request) (d : db)
    : option (result admin_error SweepReport) :=
  if negb wired then Some (Err cache_disabled) else
  match parseThresholds (q_query q "thresholds"%string) with
  | None => Some (Err bad_request)
  | Some thresholds =>
      let raw := q_query q "max_buckets"%string in
      match (if bool_decide (raw = ""%string) then Some 0
             else match ParseInt raw with (n, None) => if n <=? 0 then None else Some n | _ => None end) with
      | None => Some (Err bad_request)
      | Some maxBuckets =>
          match scanIndexKeys scan f maxBuckets d with
          | Err _ => Some (Err cache_unavailable)
          | Ok keys =>
              match load_buckets t fates keys d with
              | None => Some (Err cache_unavailable)
              | Some buckets => match CacheTune.Sweep thresholds buckets with Some r => Some (Ok r) | None => None end
              end
          end
      end
  end.

(** The fates of a purge's calls: its reads and scans, its deletions, and the
    deletion of a team's index. *)
Record purge_fates := {
  pf_read : net_fate; pf_scan : nat → nat → net_fate; pf_del : nat → net_fate; pf_del_index : nat → net_fate; pf_last : net_fate }.

(** Which of the three scopes were given. *)
Definition purge_scopes (q : admin_request) : list bool :=
  [bool_decide (q_team q ≠ ""%string); bool_decide (q_query q "prefix"%string ≠ ""%string); bool_decide (q_query q "all"%string = "true"%string)].

Definition purgeCache (wired : bool) (t : Z) (fs : purge_fates) (q : admin_request) (s : snapshot) (d : db)
    : result admin_error PurgeResult * db :=
  if negb wired then (Err cache_disabled, d) else
  match q_caller q with
  | None => (Err no_session, d)
  | Some c =>
      let team := q_team q in
      let prefix := q_query q "prefix"%string in
      let all := bool_decide (q_query q "all"%string = "true"%string) in
      if negb (countb id (purge_scopes q) =? 1) then (Err bad_request, d)
      else if (bool_decide (prefix ≠ ""%string) || all) && negb (cl_IsSuperadmin c) then (Err superadmin_required, d)
      else if bool_decide (team ≠ ""%string) && negb (cl_IsSuperadmin c) &&
              negb (match store_get team s with Ok t => own c t | Err _ => false end) then (Err team_not_found, d)
      else
        let '(res, d') :=
          if bool_decide (team ≠ ""%string) then PurgeTeam t (pf_read fs) (pf_del fs) (pf_last fs) team d
          else if bool_decide (prefix ≠ ""%string) then PurgePrefix scan t (pf_scan fs 0%nat) (pf_del fs) prefix d
          else PurgeAll scan t (pf_scan fs) (pf_del fs) (pf_del_index fs) d in
        (match res with Ok r => Ok r | Err _ => Err bad_request end, d')
  end.
End cache.

(** ** health.go *)

Record transitionView := { tr_At : Z; tr_From : string; tr_To : string; tr_Reason : string }.
Definition newTransitionView (t : Transition) : transitionView :=
  {| tr_At := t_At t; tr_From := Status_String (t_From t); tr_To := Status_String (t_To t); tr_Reason := t_Reason t |}.

Record breakerModelView := {
  bm_Model : string; bm_State : string; bm_Failures : Z; bm_FailureThreshold : Z; bm_SuccessStreak : Z; bm_SuccessThreshold : Z;
  bm_Reopens : Z; bm_ProbeInFlight : bool; bm_CooldownMillis : float64; bm_CooldownRemaining : float64 }.

Definition millis (d : Z) : float64 := f64_div (f64_of_Z d) (f64_of_Z millisecond).

Definition newBreakerModelView (model : string) (s : BreakerSnapshot) : breakerModelView :=
  {| bm_Model := model; bm_State := State_String (sn_State s); bm_Failures := sn_Failures s; bm_FailureThreshold := sn_FailureThreshold s;
     bm_SuccessStreak := sn_SuccessStreak s; bm_SuccessThreshold := sn_SuccessThreshold s; bm_Reopens := sn_Reopens s;
     bm_ProbeInFlight := sn_ProbeInFlight s; bm_CooldownMillis := millis (sn_Cooldown s); bm_CooldownRemaining := millis (sn_CooldownRemaining s) |}.

Record providerHealthView := {
  hv_Provider : string; hv_Status : string; hv_ErrorRate : Q; hv_P99LatencyMillis : float64; hv_LastCheckAt : option Z;
  hv_LastTransition : option transitionView; hv_History : list transitionView; hv_Breakers : list breakerModelView }.

Definition newProviderHealthView (h : ProviderHealth) (breakers : list breakerModelView) : providerHealthView :=
  {| hv_Provider := ph_Provider h; hv_Status := Status_String (ph_Status h); hv_ErrorRate := ph_ErrorRate h;
     hv_P99LatencyMillis := millis (ph_P99Latency h);
     hv_LastCheckAt := if time_IsZero (ph_LastCheckAt h) then None else Some (ph_LastCheckAt h);
     hv_LastTransition := newTransitionView <$> ph_LastTransition h; hv_History := map newTransitionView (ph_History h);
     hv_Breakers := breakers |}.

Definition by_model (a b : breakerModelView) : Prop := String.le (bm_Model a) (bm_Model b).
#[export] Instance by_model_dec : RelDecision by_model.
Proof. intros a b. unfold by_model. apply _. Defined.

(** One provider's breakers by model; the map is walked in any order before it. *)
Definition breakers_of (snaps : gmap Labels BreakerSnapshot) (providerName : string) : list breakerModelView :=
  merge_sort by_model (map (λ x, newBreakerModelView (l_Model x.1) x.2)
    (keep (λ x, bool_decide (l_Provider x.1 = providerName)) (map_to_list snaps))).

(** [None] breakers is a gateway built without them. *)
Definition listProviderHealth (snaps : list ProviderHealth) (breakers : option (gmap Labels BreakerSnapshot)) : list providerHealthView :=
  map (λ h, newProviderHealthView h (match breakers with Some b => breakers_of b (ph_Provider h) | None => [] end)) snaps.

(** ** providers.go *)

(** A duration's seconds are the float nearest to it. *)
Definition duration_seconds (d : Z) : float64 :=
  f64_add (f64_of_Z (Z.quot d second)) (f64_div (f64_of_Z (Z.rem d second)) (f64_of_Z second)).

(** The key of the provider's API is not among the fields. *)
Record providerView := {
  pv_Name : string; pv_Type : string; pv_BaseURL : string; pv_TimeoutSeconds : float64; pv_Models : list string;
  pv_DefaultMaxTokens : Z; pv_PingModel : string }.

Definition newProviderView (cfg : Http.Config) : providerView :=
  {| pv_Name := cf_Name cfg; pv_Type := cf_Type cfg; pv_BaseURL := cf_BaseURL cfg; pv_TimeoutSeconds := duration_seconds (cf_Timeout cfg);
     pv_Models := cf_Models cfg; pv_DefaultMaxTokens := cf_DefaultMaxTokens cfg; pv_PingModel := cf_PingModel cfg |}.

Definition listProviders (cfgs : list Http.Config) : list providerView := map newProviderView cfgs.

(** ** health.go: resets *)

Definition provider_not_found : admin_error := {| er_status := 404; er_type := "provider_not_found" |}.
Definition breaker_reset_failed : admin_error := {| er_status := 502; er_type := "breaker_reset_failed" |}.

Definition providerExists (cfgs : list Http.Config) (name : string) : bool := existsb (λ c, bool_decide (cf_Name c = name)) cfgs.

Record breakerResetView := { rb_Provider : string; rb_Reset : Z }.

(** The path's parameter is the provider's name. *)
Definition resetBreaker {db : Type} `{!Redis bvalue db} (cfg : BreakerConfig) (cfgs : list Http.Config) (now : Labels → Z)
    (f : Labels → net_fate) (q : admin_request) (r : BreakerRegistry.Registry) (d : db) : result admin_error breakerResetView * BreakerRegistry.Registry * db :=
  let name := q_id q in
  if negb (providerExists cfgs name) then (Err provider_not_found, r, d)
  else
    let '(count, failed, r', d') := Registry_Reset cfg now f name r d in
    (match failed with [] => Ok {| rb_Provider := name; rb_Reset := count |} | _ => Err breaker_reset_failed end, r', d').

(** ** reload.go *)

Definition invalid_config : admin_error := {| er_status := 400; er_type := "invalid_config" |}.

(** The entry is written after the reload, and its failure is only logged. *)
Definition reloadConfig {db : Type} (audit_wired : bool) (run : configStore → result live_error ReloadSummary * configStore)
    (fate : db_fate) (q : admin_request) (live : configStore) (st : admin_state (db := db))
    : result admin_error ReloadSummary * configStore * admin_state :=
  match run live with
  | (Err _, live') => (Err invalid_config, live', st)
  | (Ok sum, live') =>
      let e := stampActor q "" "config.reload" "" ∅ {["providers"%string := DInt (rl_Providers sum); "teams"%string := DInt (rl_Teams sum)]} in
      (Ok sum, live', (recordAudit audit_wired fate e st).2)
  end.

(** ** system.go, here and of cmd/gateway *)

Record system_probes := {
  sp_Version : string; sp_Uptime : Z; sp_redis : option bool; sp_postgres : option bool; sp_prometheus : option bool;
  sp_teams : option snapshot }.

(** A service that is not configured, or whether it answered its probe in time. *)
Definition probe (answer : option bool) : string :=
  match answer with None => "not_configured" | Some true => "up" | Some false => "down" end.

Definition probeTeams (s : option snapshot) : string :=
  match s with None => "not_configured" | Some s => if (Degraded s).1 then "degraded" else "up" end.

Definition Dependencies (p : system_probes) : gmap string string :=
  {["redis"%string := probe (sp_redis p); "postgres"%string := probe (sp_postgres p);
    "prometheus"%string := probe (sp_prometheus p); "team_store"%string := probeTeams (sp_teams p)]}.

Record systemView := {
  sv_Version : string; sv_UptimeSeconds : Z; sv_ConfigHash : string; sv_Dependencies : gmap string string;
  sv_Providers : list (string * string * list string) }.

Definition system_info_unavailable : admin_error := {| er_status := 503; er_type := "system_info_unavailable" |}.

(** [listed] is whether the router was given the providers. *)
Definition handleSystem (sys : option system_probes) (listed : bool) (live : configStore) : result admin_error systemView :=
  match sys with
  | None => Err system_info_unavailable
  | Some p =>
      Ok {| sv_Version := sp_Version p; sv_UptimeSeconds := f_int (duration_seconds (sp_Uptime p)); sv_ConfigHash := lc_configHash live;
            sv_Dependencies := Dependencies p;
            sv_Providers := if listed then map (λ c, (cf_Name c, cf_Type c, cf_Models c)) (store_Configs live) else [] |}
  end.

(** ** attribution.go *)

Record fallbackAttrView := { fa_ExtraMicros : Z; fa_ExtraUSD : float64; fa_SavedMicros : Z; fa_SavedUSD : float64; fa_NetMicros : Z; fa_NetUSD : float64 }.
Record cacheAttrView := { ca_Hits : Z; ca_Misses : Z; ca_PricedHits : Z; ca_HitRate : float64; ca_SavedMicros : Z; ca_SavedUSD : float64 }.
Record routingAttrView := { ra_Routed : Z; ra_Downgraded : Z; ra_DowngradeRate : float64; ra_SavedMicros : Z; ra_SavedUSD : float64 }.
Record attributionView := { av_Range : string; av_Fallback : fallbackAttrView; av_Cache : option cacheAttrView; av_Routing : routingAttrView }.

Definition rate (n total : Z) : float64 := if 0 <? total then f64_div (f64_of_Z n) (f64_of_Z total) else f64_of_Z 0.

(** What the priced groups come to, and their hits. *)
Fixpoint price_groups (calc : Cost.Calculator) (gs : list CacheSavingsGroup) (saved priced : Z) : Z * Z :=
  match gs with
  | [] => (saved, priced)
  | g :: gs' =>
      match Cost.Cost calc (cg_Model g) (cg_InputTokens g) (cg_OutputTokens g) with
      | Err _ => price_groups calc gs' saved priced
      | Ok micros => price_groups calc gs' (wrap64 (saved + micros)) (wrap64 (priced + cg_Hits g))
      end
  end.

Definition cacheAttribution (calc : Cost.Calculator) (saved : CacheSavings) : cacheAttrView :=
  let '(micros, priced) := price_groups calc (cs_Groups saved) 0 0 in
  {| ca_Hits := cs_Hits saved; ca_Misses := cs_Misses saved; ca_PricedHits := priced;
     ca_HitRate := rate (cs_Hits saved) (wrap64 (cs_Hits saved + cs_Misses saved)); ca_SavedMicros := micros; ca_SavedUSD := microsToUSD micros |}.

Definition range_key (k dflt : string) : string := if bool_decide (k = ""%string) then dflt else k.

(** [up] is whether the database answered each of the three queries, [now] the
    clock at each. *)
Definition handleAttribution (wired : bool) (up : nat → bool) (now : nat → Z) (calc : option Cost.Calculator) (q : admin_request)
    (s : snapshot) (t : Retention.tables) : result admin_error attributionView :=
  if negb wired then Err request_log_disabled else
  match orgScope q s with
  | Err e => Err e
  | Ok scope =>
      let key := range_key (q_query q "range"%string) "24h" in
      match costRange key with
      | None => Err invalid_request
      | Some (lookback, _) =>
          match (if up 0%nat then FallbackCostSince (now 0%nat - lookback) scope t else None) with
          | None => Err internal_error
          | Some attr =>
              match (match calc with
                     | None => Some None
                     | Some calc => if up 1%nat then Some (Some (cacheAttribution calc (CacheSavingsSince (now 1%nat - lookback) scope t))) else None
                     end) with
              | None => Err internal_error
              | Some cacheView =>
                  match (if up 2%nat then RoutingSavingsSince (now 2%nat - lookback) scope t else None) with
                  | None => Err internal_error
                  | Some routed =>
                      Ok {| av_Range := key;
                            av_Fallback := {| fa_ExtraMicros := ExtraMicros attr; fa_ExtraUSD := microsToUSD (ExtraMicros attr);
                                              fa_SavedMicros := SavedMicros attr; fa_SavedUSD := microsToUSD (SavedMicros attr);
                                              fa_NetMicros := NetMicros attr; fa_NetUSD := microsToUSD (NetMicros attr) |};
                            av_Cache := cacheView;
                            av_Routing := {| ra_Routed := Routed routed; ra_Downgraded := Downgraded routed;
                                             ra_DowngradeRate := rate (Downgraded routed) (Routed routed);
                                             ra_SavedMicros := rs_SavedMicros routed; ra_SavedUSD := microsToUSD (rs_SavedMicros routed) |} |}
                  end
              end
          end
      end
  end.

(** ** quality.go, and the query behind it *)

(** The score columns of the rows that have been scored: the score in
    hundredths, as numeric(3,2) keeps it, and the reason, null when empty. *)
Definition scores_of : Type := gmap string (Z * string).

Record QualityReasonStat := { qs_Reason : string; qs_Scored : Z; qs_AvgScore : float64; qs_LowScored : Z; qs_MinScore : float64; qs_MaxScore : float64 }.
Record QualityExample := {
  qe_ID : string; qe_Timestamp : Z; qe_ServedModel : string; qe_RoutingTier : string; qe_RoutingReason : string;
  qe_QualityScore : float64; qe_TraceID : string }.
Record QualityFeedback := { qf_Reasons : list QualityReasonStat; qf_Examples : list QualityExample }.

Definition hundredths (n : Z) : float64 := sf_of_ratio 53 1024 (n <? 0) (Z.abs n) 100.

Definition reasonNearThreshold : string := "near_threshold_cache_hit".
Definition reasonDowngraded : string := "downgraded".

Definition newest (a b : Record_ * (Z * string)) : Prop := lr_Timestamp b.1 ≤ lr_Timestamp a.1.
#[export] Instance newest_dec : RelDecision newest.
Proof. intros a b. unfold newest. apply _. Defined.

Record QualityFeedbackConfig := { qc_LowScoreThreshold : float64; qc_ExampleLimit : Z }.

Inductive signal :=
| NothingScored | AllHeld (scored : Z) (low : float64) | ScoredLow (lowScored scored : Z) (low : float64) (listed : option Z).

Record qualityReasonView := { rv_Reason : string; rv_Scored : Z; rv_AvgScore : float64; rv_LowScored : Z; rv_MinScore : float64; rv_MaxScore : float64 }.
Record qualityLoopView := { lv_Reason : string; lv_Stat : option qualityReasonView; lv_Signal : signal }.
Record qualityFeedbackView := {
  fv_Range : string; fv_LowScoreThreshold : float64; fv_Cache : qualityLoopView; fv_Routing : qualityLoopView;
  fv_Examples : list QualityExample; fv_ByReason : list qualityReasonView }.

Definition round2 (f : float64) : float64 :=
  f64_div (f64_of_Z (f_int (f64_add (f64_mul f (f64_of_Z 100)) (hundredths 50)))) (f64_of_Z 100).

Definition reason_view (s : QualityReasonStat) : qualityReasonView :=
  {| rv_Reason := qs_Reason s; rv_Scored := qs_Scored s; rv_AvgScore := round2 (qs_AvgScore s); rv_LowScored := qs_LowScored s;
     rv_MinScore := qs_MinScore s; rv_MaxScore := qs_MaxScore s |}.

Definition loop_signal (s : option qualityReasonView) (low : float64) (listed : option Z) : signal :=
  match s with
  | None => NothingScored
  | Some v => if rv_Scored v =? 0 then NothingScored
              else if rv_LowScored v =? 0 then AllHeld (rv_Scored v) low
              else ScoredLow (rv_LowScored v) (rv_Scored v) low listed
  end.
Definition cacheSignal (s : option qualityReasonView) (low : float64) : signal := loop_signal s low None.
Definition routingSignal (s : option qualityReasonView) (low : float64) (examples : Z) : signal := loop_signal s low (Some examples).

(** The cutoff: the configured one, 3 when that is not on the scale, or the
    request's own. *)
Definition low_score (cfg : QualityFeedbackConfig) (raw : string) : option float64 :=
  let out v := f_ltb v (f64_of_Z 1) || f_ltb (f64_of_Z 5) v in
  let low := if out (qc_LowScoreThreshold cfg) then f64_of_Z 3 else qc_LowScoreThreshold cfg in
  if bool_decide (raw = ""%string) then Some low
  else match ParseFloat_64 raw with Some v => if out v then None else Some v | None => None end.

(** [at_most n x]: n hundredths are at most x, as the driver hands x to the
    database; [avg] is AVG of scores, scanned into a float; [lt] the collation. *)
Section quality.
Context (lt : string → string → bool) (at_most : Z → float64 → bool) (avg : list Z → float64).

Definition scored_rows (since : Z) (teamIDs : option (list string)) (t : Retention.tables) (scores : scores_of) : list (Record_ * (Z * string)) :=
  omap (λ r, (λ x, (r, x)) <$> scores !! lr_ID r) (keep (in_scope since teamIDs) (tb_requests t)).

Definition sampled_for (x : Record_ * (Z * string)) : string := if bool_decide (x.2.2 = ""%string) then "unspecified" else x.2.2.

Definition reason_stat (rows : list (Record_ * (Z * string))) (low : float64) (reason : string) : QualityReasonStat :=
  let scores := map (λ x, x.2.1) (keep (λ x, bool_decide (sampled_for x = reason)) rows) in
  {| qs_Reason := reason; qs_Scored := Z.of_nat (length scores); qs_AvgScore := avg scores;
     qs_LowScored := countb (λ n, at_most n low) scores;
     qs_MinScore := hundredths (foldr Z.min (default 0 (head scores)) scores);
     qs_MaxScore := hundredths (foldr Z.max (default 0 (head scores)) scores) |}.

Definition collates (a b : string) : Prop := a = b ∨ lt a b = true.
#[local] Instance collates_dec : RelDecision collates.
Proof. intros a b. unfold collates. apply _. Defined.

Definition example_of (x : Record_ * (Z * string)) : QualityExample :=
  let r := x.1 in
  {| qe_ID := lr_ID r; qe_Timestamp := lr_Timestamp r; qe_ServedModel := lr_ServedModel r; qe_RoutingTier := lr_RoutingTier r;
     qe_RoutingReason := lr_RoutingReason r; qe_QualityScore := hundredths x.2.1; qe_TraceID := lr_TraceID r |}.

(** Rows of one instant come in any order; here in the table's. *)
Definition QualityFeedbackSince (since : Z) (teamIDs : option (list string)) (low : float64) (exampleLimit : Z) (t : Retention.tables)
    (scores : scores_of) : QualityFeedback :=
  let rows := scored_rows since teamIDs t scores in
  {| qf_Reasons := map (reason_stat rows low) (merge_sort collates (remove_dups (map sampled_for rows)));
     qf_Examples := if exampleLimit <=? 0 then []
                    else map example_of (take (Z.to_nat exampleLimit)
                           (merge_sort newest (keep (λ x, bool_decide (x.2.2 = reasonDowngraded) && at_most x.2.1 low) rows))) |}.

Definition handleQualityFeedback (wired reachable : bool) (now : Z) (cfg : QualityFeedbackConfig) (q : admin_request) (s : snapshot)
    (t : Retention.tables) (scores : scores_of) : result admin_error qualityFeedbackView :=
  if negb wired then Err request_log_disabled else
  match orgScope q s with
  | Err e => Err e
  | Ok scope =>
      let key := range_key (q_query q "range"%string) "7d" in
      match costRange key, low_score cfg (q_query q "threshold"%string) with
      | Some (lookback, _), Some low =>
          if negb reachable then Err internal_error
          else
            let fb := QualityFeedbackSince (now - lookback) scope low (qc_ExampleLimit cfg) t scores in
            let byReason := map reason_view (qf_Reasons fb) in
            let statFor := foldl (λ m v, <[rv_Reason v := v]> m) (∅ : gmap string qualityReasonView) byReason in
            let near := statFor !! reasonNearThreshold in
            let down := statFor !! reasonDowngraded in
            Ok {| fv_Range := key; fv_LowScoreThreshold := low;
                  fv_Cache := {| lv_Reason := reasonNearThreshold; lv_Stat := near; lv_Signal := cacheSignal near low |};
                  fv_Routing := {| lv_Reason := reasonDowngraded; lv_Stat := down;
                                   lv_Signal := routingSignal down low (Z.of_nat (length (qf_Examples fb))) |};
                  fv_Examples := qf_Examples fb; fv_ByReason := byReason |}
      | _, _ => Err invalid_request
      end
  end.
End quality.

(** ** router.go: the routes that act on the whole gateway *)

Inductive operation := GETProviders | GETProviderHealth | DELETECache | GETSystem | POSTBreakerReset | POSTReload | GETTune | OnChaos (r : chaos_request).

(** The routes behind [requireSuperadmin]. *)
Definition gated (op : operation) : bool := match op with GETProviders | GETProviderHealth | DELETECache => false | _ => true end.

Inductive op_answer :=
| OErr (e : admin_error) | OProviders (v : list providerView) | OHealth (v : list providerHealthView) | OPurged (r : PurgeResult) | OSystem (v : systemView)
| OReset (v : breakerResetView) | OReloaded (v : ReloadSummary) | OTuned (r : SweepReport) | OChaos (status : Z) (rules : list ChaosRuleSpec)
| OPanic.

Definition answer {A} (ok : A → op_answer) (r : result admin_error A) : op_answer := match r with Ok a => ok a | Err e => OErr e end.

(** What an operation meets: clocks, fates, and the file a reload reads. *)
Record op_weather := {
  ow_now : Z; ow_redis : Z; ow_each : Labels → Z; ow_fate : Labels → net_fate; ow_purge : purge_fates; ow_scan : nat → net_fate;
  ow_buckets : nat → net_fate * net_fate; ow_audit : db_fate; ow_hashed : option string; ow_file : option string;
  ow_probes : option system_probes }.

Section operations.
Context {bdb cdb zdb : Type} `{!Redis bvalue bdb} `{!Redis cval cdb}.
Context (scan : string → cdb → list (list string)) (cache_wired audit_wired listed : bool) (store : Store) (bcfg : BreakerConfig).
Context (run_reload : option string → option string → Z → configStore → result live_error ReloadSummary * configStore).

Record op_state := {
  os_breakers : BreakerRegistry.Registry; os_shared : bdb; os_live : configStore; os_chaos : Chaos; os_cache : cdb;
  os_admin : admin_state (db := zdb); os_monitor : Monitor; os_window : gmap string (ring sample) }.

(** An operation past the gate. *)
Definition operation_body (op : operation) (w : op_weather) (q : admin_request) (st : op_state) : op_answer * op_state :=
  let 'Build_op_state breakers shared live chaos cache admin monitor window := st in
  match op with
  | GETProviders => (OProviders (listProviders (store_Configs live)), st)
  | GETProviderHealth =>
      (OHealth (listProviderHealth (Snapshots (ow_now w) window monitor) (Some (Registry_Snapshots bcfg (ow_now w) breakers))), st)
  | DELETECache =>
      let '(res, cache') := purgeCache scan cache_wired (ow_redis w) (ow_purge w) q (a_snap admin) cache in
      (answer OPurged res, Build_op_state breakers shared live chaos cache' admin monitor window)
  | GETSystem => (answer OSystem (handleSystem (ow_probes w) listed live), st)
  | POSTBreakerReset =>
      let '(res, breakers', shared') := resetBreaker bcfg (store_Configs live) (ow_each w) (ow_fate w) q breakers shared in
      (answer OReset res, Build_op_state breakers' shared' live chaos cache admin monitor window)
  | POSTReload =>
      let teams := Z.of_nat (length (store_List (a_snap admin))) in
      let '(res, live', admin') := reloadConfig audit_wired (run_reload (ow_hashed w) (ow_file w) teams) (ow_audit w) q live admin in
      (answer OReloaded res, Build_op_state breakers shared live' chaos cache admin' monitor window)
  | GETTune =>
      (match tuneCache store scan cache_wired (ow_redis w) (ow_scan w) (ow_buckets w) q cache with
       | Some res => answer OTuned res
       | None => OPanic
       end, st)
  | OnChaos r =>
      let '(status, rules, chaos') := chaos_endpoint chaos r in
      (OChaos status rules, Build_op_state breakers shared live chaos' cache admin monitor window)
  end.

Definition operate (op : operation) (w : op_weather) (q : admin_request) (st : op_state) : op_answer * op_state :=
  match (if gated op then requireSuperadmin q else None) with
  | Some e => (OErr e, st)
  | None => operation_body op w q st
  end.
End operations.

(** ** What an operation can change *)

From S2P Require Import AuthFacts CacheStoreFacts LogQueryFacts TeamStoreFacts AdminTeamsFacts.

Section purge.
Context {db : Type} `{!Redis cval db}.

Lemma delete_batches_frame fuel t t' f keys total (d : db) key :
  key ∉ keys → rget t' key (delete_batches fuel t f keys total d).2 = rget t' key d.
Proof.
  revert f keys total d. induction fuel as [|fuel IH]; intros f keys total d Hk; [done|]. destruct keys as [|k ks]; [done|].
  cbn [delete_batches]. set (batch := take purgeBatch (k :: ks)). set (rest := drop purgeBatch (k :: ks)).
  assert (key ∉ batch ∧ key ∉ rest) as [Hb Hr].
  { rewrite <- (take_drop purgeBatch (k :: ks)) in Hk. by apply not_elem_of_app in Hk. }
  destruct (f 0%nat); cbn [snd round_trip]; rewrite ?IH by done; rewrite ?rget_del_all_ne by done; done.
Qed.

(** A purge of one team removes its index and the entries the index named. *)
Lemma PurgeTeam_frame t t' f0 f fd team (d : db) key :
  key ≠ teamKey team →
  (∀ z id, zmembers t (teamKey team) d = Some z → id ∈ map snd z → key ≠ entryKey id) →
  rget t' key (PurgeTeam t f0 f fd team d).2 = rget t' key d.
Proof.
  intros Hk Hids. unfold PurgeTeam. case_bool_decide; [done|]. destruct (answered f0); [|done].
  destruct (zmembers t (teamKey team) d) as [z|] eqn:Hz; [|done].
  assert (∀ r d', deleteEntries t f (map snd z) d = (r, d') → rget t' key d' = rget t' key d) as Hd.
  { intros r d' He. pose proof (delete_batches_frame (length (map entryKey (map snd z))) t t' f (map entryKey (map snd z)) 0 d key) as Hf.
    unfold deleteEntries, deleteKeys in He. rewrite He in Hf. apply Hf. intros (id & -> & Hid)%list_elem_of_fmap. by eapply Hids. }
  destruct (deleteEntries t f (map snd z) d) as [[n|err] d'] eqn:He; [|by eapply Hd].
  destruct fd; cbn [snd round_trip]; rewrite ?rget_del_ne by congruence; by eapply Hd.
Qed.

(** What a tenant may purge: the index of a team of its organisation, and the
    entries it names. *)
Definition purgeable (c : Caller) (s : snapshot) (t : Z) (d : db) (key : string) : Prop :=
  ∃ team, mine c s team ∧
    (key = teamKey team ∨ ∃ z id, zmembers t (teamKey team) d = Some z ∧ id ∈ map snd z ∧ key = entryKey id).

Lemma purgeCache_tenant scan wired t t' fs q c s (d : db) key :
  q_caller q = Some c → cl_IsSuperadmin c = false →
  rget t' key (purgeCache scan wired t fs q s d).2 ≠ rget t' key d → purgeable c s t d key.
Proof.
  intros Hq Hns. unfold purgeCache. destruct wired; [|done]. cbn [negb]. rewrite Hq, Hns. rewrite !andb_true_r.
  case_match eqn:Hone; [done|]. destruct (_ || _) eqn:Hp; [done|]. apply orb_false_iff in Hp as [Hp Ha].
  destruct (bool_decide (q_team q ≠ ""%string)) eqn:Hteam.
  - cbn [andb]. case_match eqn:Hown; [done|]. apply negb_false_iff in Hown. intros Hch.
    destruct (store_get (q_team q) s) as [x|] eqn:Hg; [|done].
    exists (q_team q). split.
    { exists x. unfold store_get, Auth.Get in Hg. destruct (byID (sn_registry s) !! q_team q); simplify_eq.
      split; [done|]. by apply bool_decide_eq_true in Hown. }
    destruct (decide (key = teamKey (q_team q))) as [->|Hk]; [by left|]. right.
    pose proof (PurgeTeam_frame t t' (pf_read fs) (pf_del fs) (pf_last fs) (q_team q) d key Hk) as Hf.
    destruct (PurgeTeam _ _ _ _ _ _) as [res d']. cbn [snd] in Hf.
    destruct (zmembers t (teamKey (q_team q)) d) as [z|]; [|by destruct Hch; apply Hf].
    destruct (decide (key ∈ map entryKey (map snd z))) as [(id & -> & Hid)%list_elem_of_fmap|Hno]; [by eauto|].
    destruct Hch. apply Hf. intros z' id [= <-] Hid ->. apply Hno. by apply list_elem_of_fmap_2.
  - exfalso. unfold purge_scopes in Hone. rewrite Hteam, Hp, Ha in Hone. done.
Qed.
End purge.

Section tenants.
Context {bdb cdb zdb : Type} `{!Redis bvalue bdb} `{!Redis cval cdb}.
Context (scan : string → cdb → list (list string)) (cache_wired audit_wired listed : bool) (store : Store) (bcfg : BreakerConfig).
Context (run_reload : option string → option string → Z → configStore → result live_error ReloadSummary * configStore).

(** C24: No tenant operates the gateway.  Whatever a user who is not a superadmin
    asks of the routes that act on the whole gateway, and whatever Redis and the
    database do meanwhile, no breaker, no shared breaker state, no chaos rule, no
    configuration and no audit entry changes; a cache key changes only when it is
    the index of a team of the user's organisation or an entry that index names;
    and every route of the operator's is answered with a 403. *)
Theorem tenants_cannot_operate op w q c (st : op_state (bdb := bdb) (cdb := cdb) (zdb := zdb)) a st' :
  q_caller q = Some c → cl_IsSuperadmin c = false →
  operate scan cache_wired audit_wired listed store bcfg run_reload op w q st = (a, st') →
  (gated op = true → a = OErr superadmin_required) ∧
  os_breakers st' = os_breakers st ∧ os_shared st' = os_shared st ∧ os_live st' = os_live st ∧ os_chaos st' = os_chaos st ∧
  os_admin st' = os_admin st ∧
  (∀ t' key, rget t' key (os_cache st') ≠ rget t' key (os_cache st) →
     op = DELETECache ∧ purgeable c (a_snap (os_admin st)) (ow_redis w) (os_cache st) key).
Proof.
  intros Hq Hns. unfold operate. destruct (gated op) eqn:Hg.
  { unfold requireSuperadmin. rewrite Hq, Hns. intros [= <- <-]. done. }
  destruct op; try done; destruct st; cbn [operation_body].
  - intros [= <- <-]. done.
  - intros [= <- <-]. done.
  - destruct (purgeCache _ _ _ _ _ _ _) as [res d'] eqn:Hp. intros [= <- <-]. split_and!; try done.
    intros t' key Hch. split; [done|]. cbn [os_cache os_admin] in *.
    apply (purgeCache_tenant scan cache_wired (ow_redis w) t' (ow_purge w) q c); [done..|]. by rewrite Hp.
Qed.
End tenants.

(** ** What the cache saved *)

Lemma sum_add {A} (f g : A → Z) l : sum (map (λ x, f x + g x) l) = sum (map f l) + sum (map g l).
Proof. induction l as [|x l IH]; [done|]. cbn [map]. rewrite !sum_cons, IH. lia. Qed.

Lemma sum_le {A} (f g : A → Z) l : (∀ x, x ∈ l → f x ≤ g x) → sum (map f l) ≤ sum (map g l).
Proof.
  induction l as [|x l IH]; intros H; [done|]. cbn [map]. rewrite !sum_cons.
  pose proof (H x ltac:(left)). specialize (IH (λ y Hy, H y ltac:(by right))). lia.
Qed.

Lemma sum_nonneg {A} (f : A → Z) l : (∀ x, x ∈ l → 0 ≤ f x) → 0 ≤ sum (map f l).
Proof.
  induction l as [|x l IH]; intros H; [done|]. cbn [map]. rewrite sum_cons.
  pose proof (H x ltac:(left)). specialize (IH (λ y Hy, H y ltac:(by right))). lia.
Qed.

Lemma sum_member {A} (f : A → Z) l x : x ∈ l → (∀ y, y ∈ l → 0 ≤ f y) → f x ≤ sum (map f l).
Proof.
  induction l as [|y l IH]; intros Hx H; [set_solver|]. cbn [map]. rewrite sum_cons.
  pose proof (H y ltac:(left)). pose proof (sum_nonneg f l ltac:(set_solver)).
  apply elem_of_cons in Hx as [->|Hx]; [lia|]. specialize (IH Hx ltac:(set_solver)). lia.
Qed.

Lemma sum_zero {A} (f : A → Z) l : (∀ x, x ∈ l → f x = 0) → sum (map f l) = 0.
Proof. induction l as [|x l IH]; intros H; [done|]. cbn [map]. rewrite sum_cons, (H x), IH; [done|set_solver..]. Qed.

Lemma sum_keep {A} (f : A → Z) (p : A → bool) l : (∀ x, x ∈ l → p x = false → f x = 0) → sum (map f (keep p l)) = sum (map f l).
Proof.
  induction l as [|x l IH]; intros H; [done|]. cbn [keep map]. rewrite sum_cons, <- IH by set_solver.
  destruct (p x) eqn:Hp; [done|]. rewrite (H x); [lia|left|done].
Qed.

(** A sum regrouped: each key's rows, then the keys. *)
Lemma sum_grouped {A K} `{EqDecision K} (k : A → K) (f : A → Z) l ks :
  NoDup ks → (∀ x, x ∈ l → k x ∈ ks) →
  sum (map (λ i, sum (map f (keep (λ x, bool_decide (k x = i)) l))) ks) = sum (map f l).
Proof.
  intros Hnd. induction l as [|x l IH]; intros Hk; [by apply sum_zero|]. cbn [map]. rewrite sum_cons, <- IH by set_solver.
  assert (sum (map (λ i, if bool_decide (k x = i) then f x else 0) ks) = f x) as Hx.
  { specialize (Hk x ltac:(left)). clear IH. induction Hnd as [|i ks Hi Hnd IH]; [set_solver|]. cbn [map]. rewrite sum_cons.
    case_bool_decide as Heq; [|rewrite IH; [lia|set_solver]]. subst i. rewrite sum_zero; [lia|].
    intros i Hin. rewrite bool_decide_false; [done|]. by intros <-. }
  rewrite <- Hx, <- sum_add. f_equal. apply map_ext. intros i. cbn [keep]. case_bool_decide; [|done]. cbn [map]. by rewrite sum_cons.
Qed.

(** The whole part of a sum against the sum of the whole parts. *)
Lemma floor_sum {A} (f : A → Z) l k : 0 < k →
  sum (map (λ x, f x / k) l) ≤ sum (map f l) / k ≤ sum (map (λ x, f x / k) l) + Z.of_nat (length l).
Proof.
  intros Hk. assert (k * sum (map (λ x, f x / k) l) ≤ sum (map f l) ≤ k * sum (map (λ x, f x / k) l) + (k - 1) * Z.of_nat (length l)) as [H1 H2].
  { induction l as [|x l IH]; [cbn; lia|]. cbn [map length]. rewrite !sum_cons.
    pose proof (Z.div_mod (f x) k ltac:(lia)). pose proof (Z.mod_pos_bound (f x) k Hk). lia. }
  split; [apply Z.div_le_lower_bound; lia|]. apply Z.lt_succ_r, Z.div_lt_upper_bound; nia.
Qed.

Lemma sum_times {A} (f g : A → Z) l a b : sum (map (λ x, f x * a + g x * b) l) = sum (map f l) * a + sum (map g l) * b.
Proof. induction l as [|x l IH]; [done|]. cbn [map]. rewrite !sum_cons, IH. lia. Qed.

Definition is_hit (r : Record_) : bool := bool_decide (lr_CacheHit r = Some true).
Definition is_priced (calc : Cost.Calculator) (m : string) : bool := bool_decide (is_Some (Cost.pricing calc !! m)).

Definition price_of (calc : Cost.Calculator) (m : string) (i o : Z) : Z :=
  match Cost.Cost calc m i o with Ok n => n | Err _ => 0 end.
(** What the row would have cost, had its model been asked. *)
Definition row_price (calc : Cost.Calculator) (r : Record_) : Z := price_of calc (lr_ServedModel r) (lr_InputTokens r) (lr_OutputTokens r).
Definition group_price (calc : Cost.Calculator) (g : CacheSavingsGroup) : Z := price_of calc (cg_Model g) (cg_InputTokens g) (cg_OutputTokens g).
Definition priced_hits (calc : Cost.Calculator) (g : CacheSavingsGroup) : Z := if is_priced calc (cg_Model g) then cg_Hits g else 0.

Lemma priced_or_not calc g :
  (Cost.Cost calc (cg_Model g) (cg_InputTokens g) (cg_OutputTokens g) = Ok (group_price calc g) ∧ priced_hits calc g = cg_Hits g) ∨
  (∃ e, Cost.Cost calc (cg_Model g) (cg_InputTokens g) (cg_OutputTokens g) = Err e ∧ group_price calc g = 0 ∧ priced_hits calc g = 0).
Proof.
  unfold group_price, priced_hits, price_of, is_priced, Cost.Cost. destruct (Cost.pricing calc !! cg_Model g) as [p|]; [by left|right].
  eexists. split_and!; [done|done|]. by rewrite bool_decide_false by (by intros [? [=]]).
Qed.

Lemma price_groups_sum calc gs saved priced :
  0 ≤ saved → 0 ≤ priced → (∀ g, g ∈ gs → 0 ≤ group_price calc g ∧ 0 ≤ cg_Hits g) →
  saved + sum (map (group_price calc) gs) ≤ int64_max → priced + sum (map (priced_hits calc) gs) ≤ int64_max →
  price_groups calc gs saved priced = (saved + sum (map (group_price calc) gs), priced + sum (map (priced_hits calc) gs)).
Proof.
  revert saved priced. induction gs as [|g gs IH]; intros saved priced Hs Hp Hg Hsum Hhits; [cbn; f_equal; lia|].
  pose proof (sum_nonneg (group_price calc) gs ltac:(set_solver)) as H1.
  assert (∀ x, x ∈ g :: gs → 0 ≤ priced_hits calc x) as Hph by (intros x Hx; unfold priced_hits; destruct (is_priced _ _); [by apply Hg|done]).
  pose proof (sum_nonneg (priced_hits calc) gs ltac:(set_solver)) as H2.
  destruct (Hg g ltac:(left)) as [Hg1 Hg2]. specialize (Hph g ltac:(left)). assert (int64_min ≤ 0) by done.
  cbn [price_groups map] in *. rewrite !sum_cons in *.
  destruct (priced_or_not calc g) as [(-> & <-)|(e & -> & Hp0 & Hh0)].
  - rewrite !wrap64_id by (unfold in_int64; lia). rewrite IH; [f_equal; lia|lia|lia|set_solver|lia|lia].
  - rewrite IH; [f_equal; lia|lia|lia|set_solver|lia|lia].
Qed.

Definition hits_of (m : string) (rows : list Record_) : list Record_ := keep (λ r, bool_decide (lr_ServedModel r = m)) (keep is_hit rows).

Lemma keep_swap {A} (f h : A → bool) l : keep f (keep h l) = keep h (keep f l).
Proof.
  induction l as [|x l IH]; [done|]. cbn [keep]. destruct (f x) eqn:Hf, (h x) eqn:Hh; cbn [keep]; rewrite ?Hf, ?Hh, IH; done.
Qed.

Lemma length_sum {A} (p : A → bool) l : Z.of_nat (length (keep p l)) = sum (map (λ x, if p x then 1 else 0) l).
Proof. induction l as [|x l IH]; [done|]. cbn [keep map]. rewrite sum_cons, <- IH. destruct (p x); cbn [length]; lia. Qed.

(** One model's price against its rows'. *)
Lemma group_bounds calc m rows :
  (∀ r, r ∈ rows → 0 ≤ lr_InputTokens r ∧ 0 ≤ lr_OutputTokens r) →
  (∀ p, Cost.pricing calc !! m = Some p → Cost.cost_in_range p (cg_InputTokens (cache_group m rows)) (cg_OutputTokens (cache_group m rows))) →
  sum (map (row_price calc) (hits_of m rows)) ≤ group_price calc (cache_group m rows)
    ≤ sum (map (row_price calc) (hits_of m rows)) + priced_hits calc (cache_group m rows) ∧ 0 ≤ sum (map (row_price calc) (hits_of m rows)).
Proof.
  intros Hpos Hr. unfold group_price, priced_hits, price_of, is_priced. cbn [cache_group cg_Model cg_Hits cg_InputTokens cg_OutputTokens].
  assert (keep is_hit (keep (λ r, bool_decide (lr_ServedModel r = m)) rows) = hits_of m rows) as Hsw by apply keep_swap.
  unfold is_hit in Hsw. cbn [cache_group cg_InputTokens cg_OutputTokens] in Hr. rewrite Hsw in *.
  assert (∀ r, r ∈ hits_of m rows → r ∈ rows ∧ lr_ServedModel r = m) as Hin.
  { intros r [[Hr1 _]%elem_of_keep Hm%bool_decide_eq_true]%elem_of_keep. done. }
  destruct (Cost.pricing calc !! m) as [p|] eqn:Hp.
  - specialize (Hr p eq_refl). rewrite (Cost.Cost_exact _ _ _ _ _ Hp Hr), bool_decide_true by done.
    set (val := λ r, lr_InputTokens r * Cost.InputPer1M p + lr_OutputTokens r * Cost.OutputPer1M p).
    assert (map (row_price calc) (hits_of m rows) = map (λ r, val r / Cost.microsPerUnit) (hits_of m rows)) as ->.
    { apply map_ext_in. intros r Hir%list_elem_of_In. destruct (Hin r Hir) as [Hrow Hm]. unfold row_price, price_of. rewrite Hm.
      rewrite (Cost.Cost_exact _ _ p); [done|done|]. eapply Cost.cost_in_range_mono; [exact Hr|..]; (split; [by apply Hpos|]);
        (apply sum_member; [done|]); intros x Hx; by apply Hpos, Hin. }
    rewrite <- (sum_times lr_InputTokens lr_OutputTokens). fold val. pose proof (floor_sum val (hits_of m rows) Cost.microsPerUnit ltac:(done)) as Hf. split; [exact Hf|].
    apply sum_nonneg. intros r Hir. apply Z.div_pos; [|done].
    destruct (Hpos r) as [? ?]; [by apply Hin|]. destruct Hr as (? & ? & _). unfold val. nia.
  - unfold Cost.Cost. rewrite Hp, bool_decide_false by (by intros [? [=]]). rewrite sum_zero; [lia|].
    intros r Hir. unfold row_price, price_of, Cost.Cost. destruct (Hin r Hir) as [_ ->]. by rewrite Hp.
Qed.

(** The reported saving is what the hits would have cost, to within a
    micro-dollar a hit: never less than the rows priced one by one, and at most
    one more for each.  It counts the hits of priced models, and no others. *)
Theorem cache_savings_bounds calc since teamIDs t :
  let rows := consulted since teamIDs t in
  let hits := keep (λ r, is_priced calc (lr_ServedModel r)) (keep is_hit rows) in
  let v := cacheAttribution calc (CacheSavingsSince since teamIDs t) in
  (∀ r, r ∈ rows → 0 ≤ lr_InputTokens r ∧ 0 ≤ lr_OutputTokens r) →
  (∀ m p, Cost.pricing calc !! m = Some p → Cost.cost_in_range p (cg_InputTokens (cache_group m rows)) (cg_OutputTokens (cache_group m rows))) →
  sum (map (row_price calc) (keep is_hit rows)) + Z.of_nat (length hits) ≤ int64_max →
  ca_PricedHits v = Z.of_nat (length hits) ∧ ca_PricedHits v ≤ ca_Hits v ∧
  sum (map (row_price calc) (keep is_hit rows)) ≤ ca_SavedMicros v ≤ sum (map (row_price calc) (keep is_hit rows)) + ca_PricedHits v.
Proof.
  intros rows hits v Hpos Hrange Hmax.
  set (models := remove_dups (map lr_ServedModel rows)). set (groups := map (λ m, cache_group m rows) models).
  assert (NoDup models) as Hnd by apply NoDup_remove_dups.
  assert (∀ r, r ∈ keep is_hit rows → lr_ServedModel r ∈ models) as Hcov.
  { intros r [Hr _]%elem_of_keep. apply elem_of_remove_dups. by apply list_elem_of_fmap_2. }
  assert (∀ m, cg_Hits (cache_group m rows) = Z.of_nat (length (hits_of m rows))) as Hhits.
  { intros m. cbn [cache_group cg_Hits]. unfold hits_of. by rewrite keep_swap. }
  assert (∀ m, priced_hits calc (cache_group m rows) = sum (map (λ r, if is_priced calc (lr_ServedModel r) then 1 else 0) (hits_of m rows))) as Hph.
  { intros m. unfold priced_hits. rewrite Hhits. cbn [cache_group cg_Model]. destruct (is_priced calc m) eqn:Hm.
    - rewrite <- length_sum, keep_all; [done|]. intros r [_ Hr%bool_decide_eq_true]%elem_of_keep. by rewrite Hr.
    - symmetry. apply sum_zero. intros r [_ Hr%bool_decide_eq_true]%elem_of_keep. by rewrite Hr, Hm. }
  assert (∀ g, g ∈ groups → 0 ≤ group_price calc g ∧ 0 ≤ cg_Hits g) as Hg.
  { intros g (m & -> & _)%list_elem_of_fmap. rewrite Hhits. split; [|lia]. destruct (group_bounds calc m rows Hpos (Hrange m)). lia. }
  assert (sum (map (priced_hits calc) groups) = Z.of_nat (length hits)) as Hsh.
  { unfold groups, hits. rewrite map_map, length_sum, <- (sum_grouped lr_ServedModel _ (keep is_hit rows) models Hnd Hcov).
    f_equal. apply map_ext. intros m. apply Hph. }
  pose proof (sum_grouped lr_ServedModel (row_price calc) (keep is_hit rows) models Hnd Hcov) as Hrp.
  assert (sum (map (row_price calc) (keep is_hit rows)) ≤ sum (map (group_price calc) groups)
          ≤ sum (map (row_price calc) (keep is_hit rows)) + sum (map (priced_hits calc) groups)) as Hb.
  { unfold groups. rewrite !map_map. rewrite <- Hrp, <- sum_add.
    split; apply sum_le; intros m _; destruct (group_bounds calc m rows Hpos (Hrange m)) as [[? ?] _]; unfold hits_of in *; lia. }
  assert (0 ≤ sum (map (row_price calc) (keep is_hit rows))) as Hr0.
  { rewrite <- Hrp. apply sum_nonneg. intros m _. by destruct (group_bounds calc m rows Hpos (Hrange m)). }
  unfold v, cacheAttribution, CacheSavingsSince. fold rows. fold models. fold groups. cbn [cs_Groups cs_Hits cs_Misses].
  assert (∀ (f : CacheSavingsGroup → Z), (∀ m, hits_of m rows = [] → f (cache_group m rows) = 0) →
    sum (map f (keep (λ g, 0 <? cg_Hits g) groups)) = sum (map f groups)) as Hk.
  { intros f Hf. apply sum_keep. intros g (m & -> & _)%list_elem_of_fmap Hz%Z.ltb_ge. rewrite Hhits in Hz.
    apply Hf. destruct (hits_of m rows); [done|simpl in Hz; lia]. }
  assert (sum (map (group_price calc) (keep (λ g, 0 <? cg_Hits g) groups)) = sum (map (group_price calc) groups)) as Hk1.
  { apply Hk. intros m Hnil. destruct (group_bounds calc m rows Hpos (Hrange m)) as [Hgb _]. rewrite Hph, Hnil in Hgb. cbn in Hgb. lia. }
  assert (sum (map (priced_hits calc) (keep (λ g, 0 <? cg_Hits g) groups)) = sum (map (priced_hits calc) groups)) as Hk2.
  { apply Hk. intros m Hnil. by rewrite Hph, Hnil. }
  rewrite price_groups_sum; [|lia|lia|intros g [Hin _]%elem_of_keep; by apply Hg|lia|lia]. rewrite Hk1, Hk2.
  cbn [ca_PricedHits ca_Hits ca_SavedMicros]. split_and!; [lia| |lia|lia].
  rewrite Z.add_0_l. apply sum_le. intros g Hin. unfold priced_hits. destruct (Hg g Hin). destruct (is_priced _ _); lia.
Qed.

(** ** What the insights draw on *)

Lemma in_scope_mine c s scope since t t' :
  (∀ team, in_teams scope team = true → mine c s team) → same_mine c s t t' →
  keep (in_scope since scope) (tb_requests t) = keep (in_scope since scope) (tb_requests t').
Proof.
  intros Hsc [Hrows _].
  assert (∀ r, in_scope since scope r = true → mineb c s (lr_TeamID r) = true) as Hm by (intros r [_ H]%andb_true_iff; by apply mineb_mine, Hsc).
  by rewrite <- (keep_within _ _ (tb_requests t) Hm), Hrows, keep_within.
Qed.

Lemma consulted_scope since scope t : consulted since scope t = keep (λ r, bool_decide (lr_CacheHit r ≠ None)) (keep (in_scope since scope) (tb_requests t)).
Proof.
  unfold consulted. induction (tb_requests t) as [|r l IH]; [done|]. cbn [keep].
  destruct (in_scope since scope r); cbn [andb keep]; [|done]. by rewrite IH.
Qed.

Lemma orgScope_tenant q c s :
  reg_ok (sn_registry s) → q_caller q = Some c → cl_IsSuperadmin c = false →
  ∃ scope, orgScope q s = Ok scope ∧ ∀ team, in_teams scope team = true → mine c s team.
Proof.
  intros Hok Hq Hns. destruct (orgScope q s) as [scope|e] eqn:Hs; [exists scope; split; [done|by eapply orgScope_mine]|].
  unfold orgScope in Hs. rewrite Hq, Hns in Hs. repeat case_match; done.
Qed.

Lemma scored_rows_elem since scope t scores x :
  x ∈ scored_rows since scope t scores → x.1 ∈ tb_requests t ∧ in_scope since scope x.1 = true ∧ scores !! lr_ID x.1 = Some x.2.
Proof.
  unfold scored_rows. intros (r & [Hr Hsc]%elem_of_keep & Hx)%list_elem_of_omap.
  destruct (scores !! lr_ID r) as [y|] eqn:Hy; [|done]. injection Hx as <-. done.
Qed.

(** A tenant's attribution and quality feedback draw on its own organisation's
    rows and scores alone, and every example listed is a downgraded request of
    its own that scored at or below the cutoff. *)
Theorem insights_stay_in_scope lt at_most avg q c s :
  reg_ok (sn_registry s) → q_caller q = Some c → cl_IsSuperadmin c = false →
  (∀ wired up now calc t t', same_mine c s t t' →
     handleAttribution wired up now calc q s t = handleAttribution wired up now calc q s t') ∧
  (∀ wired reachable now cfg t t' scores scores', same_mine c s t t' →
     (∀ r, r ∈ tb_requests t' → mine c s (lr_TeamID r) → scores !! lr_ID r = scores' !! lr_ID r) →
     handleQualityFeedback lt at_most avg wired reachable now cfg q s t scores =
     handleQualityFeedback lt at_most avg wired reachable now cfg q s t' scores') ∧
  (∀ wired reachable now cfg t scores v e,
     handleQualityFeedback lt at_most avg wired reachable now cfg q s t scores = Ok v → e ∈ fv_Examples v →
     ∃ r n, r ∈ tb_requests t ∧ mine c s (lr_TeamID r) ∧ lr_ID r = qe_ID e ∧ scores !! lr_ID r = Some (n, reasonDowngraded) ∧
            at_most n (fv_LowScoreThreshold v) = true).
Proof.
  intros Hok Hq Hns. destruct (orgScope_tenant q c s Hok Hq Hns) as (scope & Hs & Hm). split_and!.
  - intros wired up now calc t t' Hsame. unfold handleAttribution. rewrite Hs. destruct wired; [|done]. cbn [negb].
    destruct (costRange _) as [[lb b]|]; [|done].
    unfold FallbackCostSince, deltas, RoutingSavingsSince, CacheSavingsSince. rewrite !consulted_scope.
    by rewrite !(in_scope_mine c s scope _ t t' Hm Hsame).
  - intros wired reachable now cfg t t' scores scores' Hsame Hsc. unfold handleQualityFeedback. rewrite Hs. destruct wired; [|done]. cbn [negb].
    destruct (costRange _) as [[lb b]|]; [|done]. destruct (low_score _ _) as [low|]; [|done].
    unfold QualityFeedbackSince.
    assert (scored_rows (now - lb) scope t scores = scored_rows (now - lb) scope t' scores') as ->; [|done].
    unfold scored_rows. rewrite (in_scope_mine c s scope _ t t' Hm Hsame). 
    assert (∀ r, r ∈ keep (in_scope (now - lb) scope) (tb_requests t') → scores !! lr_ID r = scores' !! lr_ID r) as Hag.
    { intros r [Hr [_ Ht]%andb_true_iff]%elem_of_keep. by apply Hsc, Hm. }
    revert Hag. generalize (keep (in_scope (now - lb) scope) (tb_requests t')). intros l. induction l as [|r l IH]; intros Hag; [done|].
    cbn. rewrite (Hag r ltac:(left)). cbn in IH. by rewrite IH by (intros; apply Hag; by right).
  - intros wired reachable now cfg t scores v e. unfold handleQualityFeedback. rewrite Hs. destruct wired; [|done]. cbn [negb].
    destruct (costRange _) as [[lb b]|]; [|done]. destruct (low_score _ _) as [low|]; [|done]. destruct reachable; [|done]. cbn [negb].
    intros [= <-]. cbn [fv_Examples fv_LowScoreThreshold qf_Examples QualityFeedbackSince]. case_match; [by intros ?%elem_of_nil|].
    intros (x & -> & Hx)%list_elem_of_fmap. apply elem_of_take in Hx as (i & Hx%list_elem_of_lookup_2 & _).
    rewrite merge_sort_Permutation in Hx. apply elem_of_keep in Hx as [Hx [Hd%bool_decide_eq_true Hlow]%andb_true_iff].
    apply scored_rows_elem in Hx as (Hr & [_ Ht]%andb_true_iff & Hy). destruct x as [r [n reason]]. cbn in *. subst reason.
    exists r, n. split_and!; [done|by apply Hm|done|done|done].
Qed.

(** ** Breakers, as an operator sees and resets them *)

(** A reset of a configured provider's breakers closes every one of them here,
    whatever the shared store answers, and touches no other provider's; a name
    that is not configured changes nothing. *)
Theorem resetBreaker_complete {db : Type} `{!Redis bvalue db} cfg cfgs now f q r (d : db) :
  let '(res, r', d') := resetBreaker cfg cfgs now f q r d in
  (∀ l, l_Provider l ≠ q_id q → r' !! l = r !! l) ∧
  if providerExists cfgs (q_id q)
  then AnyOpen (q_id q) r' = false ∧ (∀ l, l_Provider l = q_id q → is_Some (r !! l) → ∃ b, r' !! l = Some b ∧ fresh_closed cfg b) ∧
       (∀ v, res = Ok v → rb_Reset v = Z.of_nat (size (filter (λ lb, l_Provider lb.1 = q_id q) r)))
  else res = Err provider_not_found ∧ r' = r ∧ d' = d.
Proof.
  unfold resetBreaker. destruct (providerExists cfgs (q_id q)); [|done]. cbn [negb].
  pose proof (Registry_Reset_complete cfg now f (q_id q) r d) as H. destruct (Registry_Reset cfg now f (q_id q) r d) as [[[n failed] r'] d'].
  destruct H as (Hn & Hopen & Hothers & Hclosed). split_and!; try done. intros v. by destruct failed; [intros [= <-]|].
Qed.

(** Every breaker of a listed provider is shown once, in the order of models. *)
Theorem health_shows_every_breaker snaps p :
  Sorted by_model (breakers_of snaps p) ∧ NoDup (map bm_Model (breakers_of snaps p)) ∧
  (∀ v, v ∈ breakers_of snaps p ↔ ∃ s, snaps !! {| l_Provider := p; l_Model := bm_Model v |} = Some s ∧ v = newBreakerModelView (bm_Model v) s).
Proof.
  set (mine := keep (λ x, bool_decide (l_Provider x.1 = p)) (map_to_list snaps)).
  assert (∀ l s, (l, s) ∈ mine ↔ snaps !! l = Some s ∧ l_Provider l = p) as Hin.
  { intros l s. unfold mine. by rewrite elem_of_keep, elem_of_map_to_list, bool_decide_eq_true. }
  assert (Total by_model) as Htot by (intros a b; apply String.le_total).
  split_and!.
  - by apply Sorted_merge_sort.
  - unfold breakers_of. fold mine. rewrite merge_sort_Permutation, map_map. cbn.
    assert (NoDup mine.*1) as Hnd.
    { eapply sublist_NoDup; [apply (NoDup_fst_map_to_list snaps)|]. apply fmap_sublist, keep_sublist. }
    clear Htot. revert Hin Hnd. generalize mine. clear mine. intros l Hin Hnd. 
    assert (∀ x, x ∈ l → l_Provider x.1 = p) as Hp by (intros [k s] Hx; by apply (Hin k s)). clear Hin.
    induction l as [|[k s] l IH]; [constructor|]. cbn in *. apply NoDup_cons in Hnd as [Hk Hnd]. apply NoDup_cons. split; [|apply IH; set_solver].
    intros ([k' s'] & Hm & Hx)%list_elem_of_fmap. apply Hk. apply list_elem_of_fmap. exists (k', s'). split; [|done]. cbn in *.
    pose proof (Hp _ ltac:(left)) as H1. pose proof (Hp _ ltac:(right; exact Hx)) as H2. destruct k, k'. cbn in *. by subst.
  - intros v. unfold breakers_of. fold mine. rewrite merge_sort_Permutation, list_elem_of_fmap. split.
    + intros ([[p' m] s] & -> & [Hl Hp]%Hin). cbn in *. subst p'. by exists s.
    + intros (s & Hl & Hv). exists ({| l_Provider := p; l_Model := bm_Model v |}, s). split; [done|]. by apply Hin.
Qed.

(** ** A run *)

Module ops_demo.
Definition cache : RedisMap.db cval :=
  rput 0 (teamKey "b") (CZSet [(1, "e2"%string)]) (rput 0 (entryKey "e2") (CHash ∅)
    (rput 0 (teamKey "a") (CZSet [(1, "e1"%string)]) (rput 0 (entryKey "e1") (CHash ∅) ∅))).
Definition config : configStore :=
  {| lc_registry := empty_registry; lc_calc := Cost.demo_calc; lc_tiers := ∅; lc_tierNames := ∅; lc_configHash := "h" |}.
Definition state : op_state (bdb := RedisMap.db bvalue) (cdb := RedisMap.db cval) (zdb := RedisMap.db Z) :=
  {| os_breakers := ∅; os_shared := ∅; os_live := config; os_chaos := NewChaos "dev" true; os_cache := cache;
     os_admin := admin_demo.start; os_monitor := {| m_states := ∅; m_order := [] |}; os_window := ∅ |}.
Definition fine : purge_fates :=
  {| pf_read := Replied; pf_scan := λ _ _, Replied; pf_del := λ _, Replied; pf_del_index := λ _, Replied; pf_last := Replied |}.
Definition weather_ : op_weather :=
  {| ow_now := 1; ow_redis := 1; ow_each := λ _, 1; ow_fate := λ _, Replied; ow_purge := fine; ow_scan := λ _, Replied;
     ow_buckets := λ _, (Replied, Replied); ow_audit := DbAnswers; ow_hashed := None; ow_file := None; ow_probes := None |}.
Definition ask (org : string) (query : string → string) : admin_request :=
  {| q_caller := Some (admin_demo.user org); q_RemoteAddr := "10.0.0.1:1"; q_id := "groq"; q_query := query; q_body := "" |}.
Definition only (k v : string) (x : string) : string := if bool_decide (x = k) then v else "".
Definition run (op : operation) (org : string) (query : string → string) :=
  operate map_scan true true true demo_store demo_cfg (λ _ _ _ s, (Err HashError, s)) op weather_ (ask org query) state.
End ops_demo.

Example tenant_requests :
  (ops_demo.run DELETECache "personal" (ops_demo.only "team" "a")).1 =
    OPurged {| p_Scope := "team"; p_Target := "a"; p_Entries := 1; p_Indexes := 0 |} ∧
  (ops_demo.run DELETECache "other" (ops_demo.only "team" "a")).1 = OErr team_not_found ∧
  (ops_demo.run DELETECache "personal" (ops_demo.only "all" "true")).1 = OErr superadmin_required ∧
  (ops_demo.run DELETECache "personal" (ops_demo.only "all" "yes")).1 = OErr bad_request.
Proof. vm_compute. done. Qed.

(** NaN is no number below 1 or above 5, so it passes both range checks; a report
    that holds it cannot be written as JSON. *)
Example nan_passes_the_checks :
  parseThresholds "0.9,nan" = Some [default S754_nan (ParseFloat_32 "0.9"); S754_nan] ∧
  low_score {| qc_LowScoreThreshold := f64_of_Z 3; qc_ExampleLimit := 5 |} "NaN" = Some S754_nan ∧
  low_score {| qc_LowScoreThreshold := f64_of_Z 3; qc_ExampleLimit := 5 |} "5.5" = None ∧
  (map sp_Threshold ∘ Points) <$> CacheTune.Sweep [S754_nan] [] = Some [S754_nan].
Proof. vm_compute. done. Qed.

Lemma tenants_cannot_operate_witness :
  purgeable (admin_demo.user "personal") demo.s 1 ops_demo.cache (entryKey "e1") ∧
  (ops_demo.run POSTReload "personal" (λ _, ""%string)).1 = OErr superadmin_required.
Proof.
  split.
  - destruct (ops_demo.run DELETECache "personal" (ops_demo.only "team" "a")) as [a st'] eqn:Hrun.
    apply (tenants_cannot_operate map_scan true true true demo_store demo_cfg (λ _ _ _ s, (Err HashError, s)) DELETECache ops_demo.weather_
      (ops_demo.ask "personal" (ops_demo.only "team" "a")) (admin_demo.user "personal") ops_demo.state a st' eq_refl eq_refl Hrun) with (t' := 1).
    assert (os_cache st' = os_cache (ops_demo.run DELETECache "personal" (ops_demo.only "team" "a")).2) as -> by (by rewrite Hrun).
    vm_compute. discriminate.
  - destruct (ops_demo.run POSTReload "personal" (λ _, ""%string)) as [a st'] eqn:Hrun. cbn [fst].
    apply (tenants_cannot_operate map_scan true true true demo_store demo_cfg (λ _ _ _ s, (Err HashError, s)) POSTReload ops_demo.weather_
      (ops_demo.ask "personal" (λ _, ""%string)) (admin_demo.user "personal") ops_demo.state a st' eq_refl eq_refl Hrun). reflexivity.
Defined.
