(* ===== verification/Summary.v ===== *)
(** * internal/summary and admin/summary.go: the overview's numbers

    The PromQL the overview asks for, the client that reads the answers, the
    assembly of a [Result], its short-lived cache, and the endpoint.  Prometheus
    is [ask]: what became of the GET of a URL.  The queries of one build run
    concurrently and write distinct fields, so that a build is a function of the
    answers.  [printable] is Unicode's table, asked about runes past ASCII only. *)

From stdpp Require Import sorting.
From Stdlib Require Import Ascii.
From S2P Require Import Prelude Text Base64 Json Float32 Decode Rational Ring Health Http Auth CacheTune OAuth LogQuery TeamStore AuthFacts AdminTeams AdminReports AdminOps.

(** ** strconv.Quote, for %q *)

Definition hex_low (w : nat) (n : Z) : string :=
  (fix go (w : nat) (n : Z) (acc : string) : string :=
     match w with O => acc | S w' => go w' (n / 16) (String (hex_digit (n mod 16)) acc) end) w n "".

Section quote.
Context (printable : Z → bool).

Definition quote_unit (u : Z * string) : string :=
  let '(r, bs) := u in
  let esc s := String (chr 92) s in
  if invalid_unit u then esc ("x" ++ match bs with String c _ => hex_low 2 (byte c) | EmptyString => "" end)%string
  else if (r =? 34) || (r =? 92) then esc bs
  else if (if r <? 128 then (32 <=? r) && (r <=? 126) else printable r) then bs
  else match find_first (λ x, x.1 =? r) [(7, "a"); (8, "b"); (12, "f"); (10, "n"); (13, "r"); (9, "t"); (11, "v")]%string with
       | Some (_, s) => esc s
       | None => if (r <? 32) || (r =? 127) then esc ("x" ++ hex_low 2 r)%string
                 else if r <? 65536 then esc ("u" ++ hex_low 4 r)%string else esc ("U" ++ hex_low 8 r)%string
       end.

Definition Quote (s : string) : string := quote ++ cat (map quote_unit (units s)) ++ quote.

(** ** PromQL *)

Definition teamSelector (ids : option (list string)) : string :=
  match ids with
  | None => ""
  | Some [] => "team=" ++ quote ++ "NO_MATCHING_TEAM" ++ quote
  | Some [id] => "team=" ++ Quote id
  | Some ids => "team=~" ++ Quote (Join ids "|")
  end.
End quote.

Definition selector (metric labels : string) : string :=
  if bool_decide (labels = ""%string) then metric else metric ++ "{" ++ labels ++ "}".

Definition join (a b : string) : string :=
  if bool_decide (a = ""%string) then b else if bool_decide (b = ""%string) then a else a ++ "," ++ b.

Definition windowStep (r : string) : Z * Z :=
  if bool_decide (r = "1h"%string) then (hour, minute)
  else if bool_decide (r = "24h"%string) then (24 * hour, 15 * minute)
  else if bool_decide (r = "7d"%string) then (7 * 24 * hour, 2 * hour)
  else if bool_decide (r = "30d"%string) then (30 * 24 * hour, 12 * hour)
  else (hour, minute).

Definition durationExpr (d : Z) : string :=
  if Z.rem d hour =? 0 then FormatInt (Z.quot d hour) ++ "h" else FormatInt (Z.quot d minute) ++ "m".

(** The quantile as %g prints it. *)
Definition overheadQuantile (p win : string) : string :=
  "histogram_quantile(" ++ p ++ ", sum(rate(switchyard_gateway_overhead_seconds_bucket[" ++ win ++ "])) by (le)) * 1000".

Definition increase (sel win : string) : string := "sum(increase(" ++ sel ++ "[" ++ win ++ "]))".
Definition per (a b : string) : string := a ++ " / " ++ b.

(** ** prometheus.go *)

(** [strings.TrimRight(s, "/")] *)
Fixpoint trim_slashes (s : string) : string :=
  match s with
  | EmptyString => EmptyString
  | String c s' =>
      match trim_slashes s' with
      | EmptyString => if bool_decide (c = "/"%char) then EmptyString else String c EmptyString
      | r => String c r
      end
  end.

Definition raw (_ v : json) : option json := Some v.
Definition value_fields : setters (list json) := [("value"%string, field (into_slice raw JNull) id (λ b _, b))].
Definition values_fields : setters (list (list json)) := [("values"%string, field (into_slice (into_slice raw JNull) []) id (λ b _, b))].

(** [resultType] and [result]; [status], [error] and [data] *)
Record prom_data (A : Type) := { pd_ResultType : string; pd_Result : list A }.
Arguments pd_ResultType {_}. Arguments pd_Result {_}. Arguments Build_prom_data {_}.
Record prom_response (A : Type) := { pp_Status : string; pp_Error : string; pp_Data : prom_data A }.
Arguments pp_Status {_}. Arguments pp_Error {_}. Arguments pp_Data {_}. Arguments Build_prom_response {_}.

Section response.
Context {A : Type} (series : setters A) (zero : A).

Definition data_fields : setters (prom_data A) :=
  [("resultType"%string, field into_string pd_ResultType (λ b x, Build_prom_data b (pd_Result x)));
   ("result"%string, field (into_slice (into_struct (set_field series)) zero) pd_Result (λ b x, Build_prom_data (pd_ResultType x) b))].

Definition response_fields : setters (prom_response A) :=
  [("status"%string, field into_string pp_Status (λ b x, Build_prom_response b (pp_Error x) (pp_Data x)));
   ("error"%string, field into_string pp_Error (λ b x, Build_prom_response (pp_Status x) b (pp_Data x)));
   ("data"%string, field (into_struct (set_field data_fields)) pp_Data (λ b x, Build_prom_response (pp_Status x) (pp_Error x) b))].

(** The series of a reply, [None] on any failure.  The decoder reads one value:
    what follows it, or a connection lost after it, is not seen. *)
Definition prom_result (o : http_outcome) : option (list A) :=
  match o with
  | Responded 200 _ body _ =>
      match parse_first body with
      | None => None
      | Some v =>
          match into_struct (set_field response_fields) (Build_prom_response "" "" (Build_prom_data "" [])) v with
          | Some r => if bool_decide (pp_Status r = "success"%string) then Some (pd_Result (pp_Data r)) else None
          | None => None
          end
      end
  | _ => None
  end.
End response.

Definition finite (x : float64) : bool := match x with S754_nan | S754_infinity _ => false | _ => true end.

Record prom_sample := { ps_T : Z; ps_V : float64 }.

(** A pair that is not a time and the text of a finite number is dropped; the
    time is cut to the second. *)
Definition sample_of (pair : list json) : option prom_sample :=
  match pair with
  | [t; v] =>
      match into_float64 (f64_of_Z 0) t, into_string "" v with
      | Some ts, Some s =>
          match ParseFloat_64 s with
          | Some x => if finite x then Some {| ps_T := f_int ts; ps_V := x |} else None
          | None => None
          end
      | _, _ => None
      end
  | _ => None
  end.

Section client.
Context (base : string) (ask : string → http_outcome).

(** [None] is an error, [Some None] no data. *)
Definition queryScalar (promql : string) : option (option float64) :=
  match prom_result value_fields [] (ask (trim_slashes base ++ "/api/v1/query?query=" ++ QueryEscape promql)%string) with
  | None => None
  | Some ([_; v] :: _) =>
      match into_string "" v with
      | None => None
      | Some s => match ParseFloat_64 s with
                  | None => None
                  | Some x => Some (if finite x then Some x else None)
                  end
      end
  | Some _ => Some None
  end.

(** Times are Unix seconds. *)
Definition queryRange (promql : string) (start stop step : Z) : option (list prom_sample) :=
  match prom_result values_fields [] (ask (trim_slashes base ++ "/api/v1/query_range?" ++
          encode_values [("end", FormatInt stop); ("query", promql); ("start", FormatInt start); ("step", FormatInt (Z.quot step second))]%string)%string) with
  | None => None
  | Some [] => Some []
  | Some (values :: _) => Some (omap sample_of values)
  end.

Definition reachable : bool := match ask (trim_slashes base ++ "/-/healthy")%string with Responded 200 _ _ _ => true | _ => false end.
End client.

(** ** summary.go: one build *)

Record TrafficPoint := { tp_T : Z; tp_Value : float64 }.
Record OverheadPoint := { op_T : Z; op_P50 : option float64; op_P95 : option float64; op_P99 : option float64 }.
Record QualityPoint := { qp_T : Z; qp_Avg : option float64 }.
Record Series := { se_StepSeconds : Z; se_Traffic : list TrafficPoint; se_Overhead : list OverheadPoint; se_Quality : list QualityPoint }.

Record Result := {
  re_Range : string; re_GeneratedAt : Z; re_Degraded : bool; re_RequestCount : option float64; re_ErrorRate : option float64;
  re_CacheHitRate : option float64; re_TokensTotal : option float64; re_QualityAvg : option float64; re_QualityScored : option float64;
  re_OverheadP50 : option float64; re_OverheadP95 : option float64; re_OverheadP99 : option float64; re_CostUSD : option float64;
  re_Series : option Series }.

Record Options := { o_Range : string; o_TeamIDs : option (list string) }.

Definition ValidRange (r : string) : bool := bool_decide (r ∈ ["1h"; "24h"; "7d"; "30d"]%string).

Definition no_overhead (t : Z) : OverheadPoint := {| op_T := t; op_P50 := None; op_P95 := None; op_P99 := None |}.

(** The points of one quantile put on the grid. *)
Definition assign (set : OverheadPoint → float64 → OverheadPoint) (points : list prom_sample) (byTime : gmap Z OverheadPoint) : gmap Z OverheadPoint :=
  foldl (λ m p, <[ps_T p := set (default (no_overhead (ps_T p)) (m !! ps_T p)) (ps_V p)]> m) byTime points.

Definition set_p50 (o : OverheadPoint) (v : float64) : OverheadPoint := {| op_T := op_T o; op_P50 := Some v; op_P95 := op_P95 o; op_P99 := op_P99 o |}.
Definition set_p95 (o : OverheadPoint) (v : float64) : OverheadPoint := {| op_T := op_T o; op_P50 := op_P50 o; op_P95 := Some v; op_P99 := op_P99 o |}.
Definition set_p99 (o : OverheadPoint) (v : float64) : OverheadPoint := {| op_T := op_T o; op_P50 := op_P50 o; op_P95 := op_P95 o; op_P99 := Some v |}.

Definition earlier_point (a b : Z * OverheadPoint) : Prop := a.1 ≤ b.1.
#[export] Instance earlier_point_dec : RelDecision earlier_point.
Proof. intros a b. unfold earlier_point. apply _. Defined.

(** A ratio guarded once more against NaN. *)
Definition guard_nan (x : option float64) : option float64 := match x with Some S754_nan => None | _ => x end.

(** The five range queries, asked one after the other; [None] as soon as one fails. *)
Definition assemble (step : Z) (traffic p50 p95 p99 quality : option (list prom_sample)) : option Series :=
  match traffic, p50, p95, p99, quality with
  | Some traffic, Some p50, Some p95, Some p99, Some quality =>
      let byTime := assign set_p99 p99 (assign set_p95 p95 (assign set_p50 p50 ∅)) in
      Some {| se_StepSeconds := Z.quot step second;
              se_Traffic := map (λ p, {| tp_T := ps_T p; tp_Value := ps_V p |}) traffic;
              se_Overhead := (merge_sort earlier_point (map_to_list byTime)).*2;
              se_Quality := map (λ p, {| qp_T := ps_T p; qp_Avg := Some (ps_V p) |}) quality |}
  | _, _, _, _, _ => None
  end.

Section build.
Context (printable : Z → bool) (base : string) (ask : string → http_outcome).

(** [now] in nanoseconds. *)
Definition buildSeries (now : Z) (opts : Options) (teamSel : string) : option Series :=
  let '(win, step) := windowStep (o_Range opts) in
  let start := (now - win) / second in
  let stop := now / second in
  let expr := durationExpr step in
  let range promql := queryRange base ask promql start stop step in
  assemble step (range (increase (selector "switchyard_requests_total" teamSel) expr))
    (range (overheadQuantile "0.5" expr)) (range (overheadQuantile "0.95" expr)) (range (overheadQuantile "0.99" expr))
    (range ("sum(rate(" ++ selector "switchyard_quality_score_sum" teamSel ++ "[" ++ expr ++ "])) / sum(rate(" ++
            selector "switchyard_quality_score_count" teamSel ++ "[" ++ expr ++ "]))")%string).

(** The ten instant queries of a window, in the order of the fields. *)
Definition scalar_queries (win teamSel : string) : list string :=
  let total := selector "switchyard_requests_total" teamSel in
  let cacheAll := selector "switchyard_cache_lookups_total" teamSel in
  let qSum := selector "switchyard_quality_score_sum" teamSel in
  let qCount := selector "switchyard_quality_score_count" teamSel in
  [increase total win;
   per (increase (selector "switchyard_requests_total" (join teamSel ("status=~" ++ quote ++ "5.." ++ quote))) win) (increase total win);
   per (increase (selector "switchyard_cache_lookups_total" (join teamSel ("result=" ++ quote ++ "hit" ++ quote))) win) (increase cacheAll win);
   increase (selector "switchyard_tokens_total" teamSel) win;
   per (increase qSum win) (increase qCount win);
   increase qCount win;
   overheadQuantile "0.5" win; overheadQuantile "0.95" win; overheadQuantile "0.99" win;
   per (increase (selector "switchyard_cost_microdollars_total" teamSel) win) "1e6"].

Definition degraded_result (opts : Options) (now : Z) : Result :=
  {| re_Range := o_Range opts; re_GeneratedAt := now; re_Degraded := true; re_RequestCount := None; re_ErrorRate := None;
     re_CacheHitRate := None; re_TokensTotal := None; re_QualityAvg := None; re_QualityScored := None; re_OverheadP50 := None;
     re_OverheadP95 := None; re_OverheadP99 := None; re_CostUSD := None; re_Series := None |}.

(** [configured] is whether the gateway has a Prometheus URL. *)
Definition build (configured : bool) (now : Z) (opts : Options) : Result :=
  if negb configured then degraded_result opts now
  else
    let teamSel := teamSelector printable (o_TeamIDs opts) in
    let answers := map (queryScalar base ask) (scalar_queries (o_Range opts) teamSel) in
    let series := buildSeries now opts teamSel in
    let value i := default None (default None (answers !! i)) in
    {| re_Range := o_Range opts; re_GeneratedAt := now;
       re_Degraded := existsb (λ a, bool_decide (a = None)) answers || bool_decide (series = None);
       re_RequestCount := value 0%nat; re_ErrorRate := guard_nan (value 1%nat); re_CacheHitRate := guard_nan (value 2%nat);
       re_TokensTotal := value 3%nat; re_QualityAvg := guard_nan (value 4%nat); re_QualityScored := value 5%nat;
       re_OverheadP50 := value 6%nat; re_OverheadP95 := value 7%nat; re_OverheadP99 := value 8%nat; re_CostUSD := value 9%nat;
       re_Series := series |}.
End build.

(** ** summary.go: the cache *)

Definition NUL : ascii := chr 0.

Definition cache_key (opts : Options) : string :=
  o_Range opts ++ String NUL (match o_TeamIDs opts with None => "*" | Some ids => Join ids (String NUL "") end).

Abbreviation summary_cache := (gmap string (Z * Result)).

(** The cached answer, if it is fresh. *)
Definition cached (ttl now : Z) (opts : Options) (c : summary_cache) : option Result :=
  match c !! cache_key opts with
  | Some (at_, r) => if now - at_ <? ttl then Some r else None
  | None => None
  end.

Definition remember (now : Z) (opts : Options) (r : Result) (c : summary_cache) : summary_cache := <[cache_key opts := (now, r)]> c.

(** A call with nothing in between: [at_] and [later] are the clock at its two
    reads.  Calls that overlap interleave these two steps. *)
Definition Build (printable : Z → bool) (base : string) (ask : string → http_outcome) (configured : bool) (ttl at_ built later : Z)
    (opts : Options) (c : summary_cache) : Result * summary_cache :=
  match cached ttl at_ opts c with
  | Some r => (r, c)
  | None => let r := build printable base ask configured built opts in (r, remember later opts r c)
  end.

(** ** admin/summary.go *)

Record summaryProviderView := { spv_Provider : string; spv_Status : string; spv_ErrorRate : Q; spv_P99LatencyMillis : float64 }.

(** Times are printed to the second; a series without quality points has a null
    there, the other two an empty list. *)
Record summarySeriesView := {
  ssv_StepSeconds : Z; ssv_Traffic : list (Z * float64); ssv_Overhead : list (Z * option float64 * option float64 * option float64);
  ssv_Quality : option (list (Z * option float64)) }.

Record summaryView := {
  su_Range : string; su_Degraded : bool; su_Requests : option float64 * option float64; su_Tokens : option float64;
  su_OverheadMS : option float64 * option float64 * option float64; su_CostUSD : option float64; su_Cache : bool * option float64;
  su_Quality : bool * option float64 * option float64; su_Providers : list summaryProviderView; su_Series : option summarySeriesView }.

Definition series_view (s : Series) : summarySeriesView :=
  {| ssv_StepSeconds := se_StepSeconds s; ssv_Traffic := map (λ p, (tp_T p, tp_Value p)) (se_Traffic s);
     ssv_Overhead := map (λ p, (op_T p, op_P50 p, op_P95 p, op_P99 p)) (se_Overhead s);
     ssv_Quality := match se_Quality s with [] => None | l => Some (map (λ p, (qp_T p, qp_Avg p)) l) end |}.

Definition provider_summary (h : ProviderHealth) : summaryProviderView :=
  {| spv_Provider := ph_Provider h; spv_Status := Status_String (ph_Status h); spv_ErrorRate := ph_ErrorRate h;
     spv_P99LatencyMillis := millis (ph_P99Latency h) |}.

(** [None] is no health reader. *)
Definition toSummaryView (res : Result) (health : option (list ProviderHealth)) (cacheEnabled qualityEnabled : bool) : summaryView :=
  {| su_Range := re_Range res; su_Degraded := re_Degraded res; su_Requests := (re_RequestCount res, re_ErrorRate res);
     su_Tokens := re_TokensTotal res; su_OverheadMS := (re_OverheadP50 res, re_OverheadP95 res, re_OverheadP99 res);
     su_CostUSD := re_CostUSD res; su_Cache := (cacheEnabled, re_CacheHitRate res);
     su_Quality := (qualityEnabled, re_QualityAvg res, re_QualityScored res);
     su_Providers := match health with Some hs => map provider_summary hs | None => [] end;
     su_Series := series_view <$> re_Series res |}.

Definition summary_disabled : admin_error := {| er_status := 503; er_type := "summary_disabled" |}.
Definition defaultSummaryRange : string := "24h".

(** The organisation's ids come sorted, and the cache's key shows it. *)
Definition sorted_scope (scope : option (list string)) : option (list string) := merge_sort String.le <$> scope.

Definition handleSummary (printable : Z → bool) (base : string) (ask : string → http_outcome) (wired configured : bool) (ttl at_ built later : Z)
    (health : option (list ProviderHealth)) (cacheEnabled qualityEnabled : bool) (q : admin_request) (s : snapshot) (c : summary_cache)
    : result admin_error summaryView * summary_cache :=
  if negb wired then (Err summary_disabled, c) else
  match orgScope q s with
  | Err e => (Err e, c)
  | Ok scope =>
      let rng := range_key (q_query q "range"%string) defaultSummaryRange in
      if negb (ValidRange rng) then (Err invalid_request, c)
      else
        let '(res, c') := Build printable base ask configured ttl at_ built later {| o_Range := rng; o_TeamIDs := sorted_scope scope |} c in
        (Ok (toSummaryView res health cacheEnabled qualityEnabled), c')
  end.

(** ** The key tells scopes apart *)

Definition id_ok (id : string) : Prop := id ≠ ""%string ∧ free NUL id = true.
Record opts_ok (o : Options) : Prop := {
  oo_range : ValidRange (o_Range o) = true;
  oo_ids : ∀ ids, o_TeamIDs o = Some ids → Forall id_ok ids ∧ ids ≠ ["*"%string] }.

Lemma Split_free sep s : free sep s = true → Split sep s = [s].
Proof.
  induction s as [|c s IH]; cbn [free Split]; [done|]. destruct (bool_decide (c = sep)); [done|]. cbn [negb andb]. intros H. by rewrite IH.
Qed.

Lemma Split_app sep a b : free sep a = true → Split sep (a ++ String sep b) = a :: Split sep b.
Proof.
  induction a as [|c a IH]; cbn [free]; intros H.
  - change ("" ++ String sep b)%string with (String sep b). cbn [Split]. by rewrite bool_decide_true.
  - rewrite string_app_cons. cbn [Split]. destruct (bool_decide (c = sep)); [done|]. by rewrite IH.
Qed.

Lemma Split_Join sep ids : ids ≠ [] → Forall (λ id, free sep id = true) ids → Split sep (Join ids (String sep "")) = ids.
Proof.
  induction ids as [|id ids IH]; [done|]. intros _ [Hid Hids]%Forall_cons. destruct ids as [|id' ids]; [by apply Split_free|].
  change (Join (id :: id' :: ids) (String sep "")) with (id ++ String sep "" ++ Join (id' :: ids) (String sep ""))%string.
  rewrite string_app_cons. change ("" ++ ?x)%string with x. by rewrite Split_app, IH.
Qed.

Lemma range_free r : ValidRange r = true → free NUL r = true.
Proof. intros H%bool_decide_eq_true. revert r H. apply Forall_forall. repeat constructor. Qed.

Lemma cache_key_inj o o' : opts_ok o → opts_ok o' → cache_key o = cache_key o' → o = o'.
Proof.
  intros [Hr Hi] [Hr' Hi'] Hk. destruct o as [r ids], o' as [r' ids']. unfold cache_key in Hk. cbn [o_Range o_TeamIDs] in *.
  apply range_free in Hr, Hr'. pose proof (f_equal (Cut NUL) Hk) as Hc. rewrite !Cut_app in Hc by done. injection Hc as <- Hs. f_equal.
  assert (∀ l, Forall id_ok l → l ≠ [] → Split NUL (Join l (String NUL "")) = l) as Hsj.
  { intros l Hl Hne. apply Split_Join; [done|]. eapply Forall_impl; [exact Hl|]. by intros ? [_ ?]. }
  assert (∀ l, Forall id_ok l → Join l (String NUL "") = ""%string → l = []) as Hempty.
  { intros l Hl He. destruct l as [|x l]; [done|]. pose proof (Hsj _ Hl ltac:(done)) as Hx. rewrite He in Hx. injection Hx as <- <-.
    apply Forall_cons in Hl as [[? _] _]. done. }
  assert (∀ l, Forall id_ok l → l ≠ ["*"%string] → Join l (String NUL "") ≠ "*"%string) as Hstar.
  { intros l Hl Hne He. destruct (decide (l = [])) as [->|Hn]; [done|]. apply Hne. rewrite <- (Hsj l Hl Hn), He. done. }
  destruct ids as [l|], ids' as [l'|]; [|exfalso|exfalso|done].
  - destruct (Hi l eq_refl) as [Hl _], (Hi' l' eq_refl) as [Hl' _]. f_equal.
    destruct (decide (l = [])) as [->|Hn]; [symmetry; by apply Hempty|].
    destruct (decide (l' = [])) as [->|Hn']; [by apply Hempty|]. by rewrite <- (Hsj l Hl Hn), Hs, Hsj.
  - destruct (Hi l eq_refl) as [Hl ?]. by apply (Hstar l).
  - destruct (Hi' l' eq_refl) as [Hl ?]. by apply (Hstar l').
Qed.

Section served.
Context (printable : Z → bool) (base : string) (configured : bool).

(** A call that asked Prometheus: its options, what Prometheus answered then,
    the clock when the result was stamped and when it was stored. *)
Record build_call := { bc_opts : Options; bc_ask : string → http_outcome; bc_built : Z; bc_stored : Z }.

Definition result_of (k : build_call) : Result := build printable base (bc_ask k) configured (bc_built k) (bc_opts k).

(** The caches that a history of calls leaves behind, in the order in which they
    stored: each stores what it built for its own options, whatever other calls
    have looked up or stored meanwhile. *)
Inductive filled : list build_call → summary_cache → Prop :=
| filled_empty : filled [] ∅
| filled_more h c k :
    filled h c → opts_ok (bc_opts k) →
    filled (h ++ [k]) (remember (bc_stored k) (bc_opts k) (result_of k) c).

Lemma filled_entry h c key at_ r :
  filled h c → c !! key = Some (at_, r) →
  ∃ k, k ∈ h ∧ opts_ok (bc_opts k) ∧ cache_key (bc_opts k) = key ∧ r = result_of k ∧ bc_stored k = at_.
Proof.
  intros Hc. revert key at_ r. induction Hc as [|h c k Hc IH Ho]; intros key at_ r; [by rewrite lookup_empty|].
  unfold remember. intros [[<- [= <- <-]]|[_ He]]%lookup_insert_Some.
  - exists k. split; [|done]. apply elem_of_app. right. by apply list_elem_of_singleton.
  - destruct (IH _ _ _ He) as (k' & Hk' & Hrest). exists k'. split; [|done]. apply elem_of_app. by left.
Qed.

Lemma cached_built h c opts ttl now r :
  filled h c → opts_ok opts → cached ttl now opts c = Some r →
  ∃ k, k ∈ h ∧ bc_opts k = opts ∧ r = result_of k ∧ now - bc_stored k < ttl.
Proof.
  intros Hc Ho. unfold cached. destruct (c !! cache_key opts) as [[at_ r']|] eqn:He; [|done].
  destruct (Z.ltb_spec (now - at_) ttl) as [Hlt|]; [|done]. intros [= ->].
  destruct (filled_entry h c _ _ _ Hc He) as (k & Hk & Ho' & Hkey & Hr & Hat). exists k.
  split; [done|]. split; [by apply cache_key_inj|]. split; [done|lia].
Qed.

(** What a call returns is its own build, which it stores, or the build of an
    earlier call with the same options, which it finds fresh. *)
Lemma Build_serves h ask ttl at_ built later opts c :
  filled h c → opts_ok opts →
  let k := {| bc_opts := opts; bc_ask := ask; bc_built := built; bc_stored := later |} in
  let '(r, c') := Build printable base ask configured ttl at_ built later opts c in
  (r = result_of k ∧ filled (h ++ [k]) c') ∨
  (filled h c' ∧ ∃ k', k' ∈ h ∧ bc_opts k' = opts ∧ r = result_of k' ∧ at_ - bc_stored k' < ttl).
Proof.
  intros Hc Ho k. unfold Build. destruct (cached ttl at_ opts c) as [r|] eqn:Hr; [right; split; [done|by eapply cached_built]|].
  left. split; [done|]. exact (filled_more h c k Hc Ho).
Qed.

Lemma sorted_scope_elem scope ids id : sorted_scope scope = Some ids → id ∈ ids ↔ in_teams scope id = true ∧ is_Some scope.
Proof.
  unfold sorted_scope. destruct scope as [l|]; [|done]. intros [= <-]. rewrite merge_sort_Permutation. cbn. rewrite bool_decide_eq_true. 
  split; [done|by intros [? _]].
Qed.

(** C25: A tenant's overview is its own, from the cache too.  Take the cache as
    any history of calls left it, each for a valid range and a scope of
    non-empty ids without a NUL byte other than the lone "*", which is what
    the slugs the gateway makes ids of satisfy, and let the ids of the user's
    organisation be such.  The summary shown to a user who is not a superadmin
    is the one built by this very call, or by an earlier call of the history
    whose options were the same range and exactly the same list of teams and
    whose result was stored less than the time to live ago; never one that was
    built for other teams or for the whole deployment.  The teams are all of
    the user's own organisation, and all of its teams when the request names
    none.  What a build asks Prometheus for these teams is [scalar_queries] and
    [buildSeries]; the three overhead quantiles among them carry no team label
    in the source and are the deployment's. *)
Theorem overview_stays_in_scope h ask wired ttl at_ built later health cacheEnabled qualityEnabled q c s m v m' :
  reg_ok (sn_registry s) → q_caller q = Some c → cl_IsSuperadmin c = false →
  (∀ team, mine c s team → id_ok team ∧ team ≠ "*"%string) → filled h m →
  handleSummary printable base ask wired configured ttl at_ built later health cacheEnabled qualityEnabled q s m = (Ok v, m') →
  ∃ ids r,
    let opts := {| o_Range := range_key (q_query q "range"%string) defaultSummaryRange; o_TeamIDs := Some ids |} in
    let k := {| bc_opts := opts; bc_ask := ask; bc_built := built; bc_stored := later |} in
    v = toSummaryView r health cacheEnabled qualityEnabled ∧
    ((r = result_of k ∧ filled (h ++ [k]) m') ∨
     (filled h m' ∧ ∃ k', k' ∈ h ∧ bc_opts k' = opts ∧ r = result_of k' ∧ at_ - bc_stored k' < ttl)) ∧
    (∀ id, id ∈ ids → mine c s id) ∧ (∀ id, q_team q = ""%string → mine c s id → id ∈ ids).
Proof.
  intros Hok Hq Hns Hids Hm. unfold handleSummary. destruct wired; [|done]. cbn [negb].
  destruct (orgScope q s) as [scope|e] eqn:Hs; [|done]. pose proof (orgScope_mine q c s scope Hok Hq Hns Hs) as Hmine.
  assert (∃ l, scope = Some l ∧ (∀ id, q_team q = ""%string → mine c s id → id ∈ l)) as (l & -> & Hall).
  { unfold orgScope in Hs. rewrite Hq, Hns in Hs.
    case_bool_decide as Hteam; [repeat case_match; simplify_eq; eexists; (split; [done|]); by intros id Ht|].
    injection Hs as <-. eexists. split; [done|]. intros id _ (t & Ht & Ho). pose proof (ro_id _ Hok _ _ Ht) as Hid. subst id.
    apply list_elem_of_fmap. exists t. split; [done|]. apply elem_of_keep. split; [by apply store_List_elem|by apply bool_decide_eq_true]. }
  destruct (ValidRange _) eqn:Hv; [|done]. cbn [negb].
  set (opts := {| o_Range := _; o_TeamIDs := sorted_scope (Some l) |}).
  assert (opts_ok opts) as Ho.
  { split; [exact Hv|]. intros ids Hi. split.
    - apply Forall_forall. intros id [Hin _]%(sorted_scope_elem _ _ _ Hi). by apply Hids, Hmine.
    - intros ->. pose proof (proj1 (sorted_scope_elem _ _ "*"%string Hi) ltac:(left)) as [Hin _]. by destruct (Hids _ (Hmine _ Hin)). }
  pose proof (Build_serves h ask ttl at_ built later opts m Hm Ho) as Hb. destruct (Build _ _ _ _ _ _ _ _ opts m) as [res c'].
  intros [= <- <-]. exists (merge_sort String.le l), res. split; [done|]. split; [exact Hb|].
  assert (sorted_scope (Some l) = Some (merge_sort String.le l)) as Hi by done. split.
  - intros id [Hin _]%(sorted_scope_elem _ _ _ Hi). by apply Hmine.
  - intros id Ht Hmi. rewrite merge_sort_Permutation. by apply Hall.
Qed.
End served.

(** Only a superadmin can ask for a team named "*", or for one whose name holds a
    NUL: the first shares its key with the whole deployment, the second with an
    organisation's two teams. *)
Example unvalidated_team_collides :
  cache_key {| o_Range := "24h"; o_TeamIDs := None |} = cache_key {| o_Range := "24h"; o_TeamIDs := Some ["*"%string] |} ∧
  cache_key {| o_Range := "24h"; o_TeamIDs := Some ["a"; "b"]%string |} =
  cache_key {| o_Range := "24h"; o_TeamIDs := Some [("a" ++ String NUL "b")%string] |}.
Proof. done. Qed.

(** ** What the selector selects *)

(** The characters of a slug. *)
Definition slug_byte (c : ascii) : bool := is_alnum (byte c) || (byte c =? hyphen).
Fixpoint all_bytes (p : ascii → bool) (s : string) : bool :=
  match s with EmptyString => true | String c s' => p c && all_bytes p s' end.

Fixpoint strip (p s : string) : option string :=
  match p, s with
  | EmptyString, _ => Some s
  | String a p', String b s' => if bool_decide (a = b) then strip p' s' else None
  | _, _ => None
  end.

(** PromQL's reading of a matcher on the team label, where it has no escapes and
    its pattern no operator but alternation: [=] takes the value itself, [=~] a
    pattern that must match the whole label. *)
Definition unquoted (s : string) : option string :=
  match CutLast (chr 34) s with
  | Some (v, EmptyString) => if free (chr 34) v && free (chr 92) v then Some v else None
  | _ => None
  end.
Definition matched_teams (m : string) : option (list string) :=
  match strip ("team=~" ++ quote) m with
  | Some rest => match unquoted rest with
                 | Some v => if all_bytes (λ c, slug_byte c || bool_decide (c = "|"%char)) v then Some (Split "|" v) else None
                 | None => None
                 end
  | None => match strip ("team=" ++ quote) m with
            | Some rest => match unquoted rest with Some v => Some [v] | None => None end
            | None => None
            end
  end.

Lemma strip_app p s : strip p (p ++ s) = Some s.
Proof. induction p as [|c p IH]; [done|]. rewrite string_app_cons. cbn [strip]. by rewrite bool_decide_true. Qed.

Lemma all_bytes_app p a b : all_bytes p (a ++ b) = all_bytes p a && all_bytes p b.
Proof. induction a as [|c a IH]; [done|]. rewrite string_app_cons. cbn [all_bytes]. by rewrite IH, andb_assoc. Qed.

Lemma all_bytes_imp p p' s : (∀ c, p c = true → p' c = true) → all_bytes p s = true → all_bytes p' s = true.
Proof. intros Hp. induction s as [|c s IH]; [done|]. cbn [all_bytes]. intros [Hc Hs]%andb_true_iff. by rewrite Hp, IH. Qed.

Lemma all_bytes_free p c s : p c = false → all_bytes p s = true → free c s = true.
Proof.
  intros Hc. induction s as [|x s IH]; [done|]. cbn [all_bytes free]. intros [Hx Hs]%andb_true_iff. rewrite IH, andb_true_r by done.
  rewrite bool_decide_false; [done|]. intros ->. congruence.
Qed.

(** Printable ASCII but the quote and the backslash stands for itself. *)
Definition literal_byte (c : ascii) : bool := (32 <=? byte c) && (byte c <=? 126) && negb (byte c =? 34) && negb (byte c =? 92).

Lemma Quote_literal printable s : all_bytes literal_byte s = true → Quote printable s = (quote ++ s ++ quote)%string.
Proof.
  intros Hs. unfold Quote. f_equal. f_equal. induction s as [|c s IH]; [done|]. cbn [all_bytes] in Hs. apply andb_true_iff in Hs as [Hc Hs].
  unfold literal_byte in Hc. bool_to_prop. rewrite ascii_units by lia. cbn [map]. change (cat (?x :: ?l)) with (x ++ cat l)%string. rewrite IH by done.
  change (String c s) with (String c "" ++ s)%string. f_equal. unfold quote_unit, invalid_unit. cbn [fst snd].
  replace (byte c =? RuneError) with false by (symmetry; apply Z.eqb_neq; unfold RuneError; lia). cbn [andb].
  replace ((byte c =? 34) || (byte c =? 92)) with false by (symmetry; apply orb_false_iff; rewrite !Z.eqb_neq; lia).
  replace (byte c <? 128) with true by lia. by replace ((32 <=? byte c) && (byte c <=? 126)) with true by lia.
Qed.

Lemma slug_literal c : slug_byte c || bool_decide (c = "|"%char) = true → literal_byte c = true.
Proof.
  unfold slug_byte, is_alnum, literal_byte, hyphen. intros H. apply orb_true_iff in H as [H|H%bool_decide_eq_true]; [|by subst].
  apply orb_true_iff in H as [H|H]; [apply orb_true_iff in H as [H|H]|]; bool_to_prop; lia.
Qed.

Lemma unquoted_quote v : free (chr 34) v = true → free (chr 92) v = true → unquoted (v ++ quote) = Some v.
Proof. intros H1 H2. unfold unquoted, quote. rewrite CutLast_app by done. by rewrite H1, H2. Qed.

Lemma Join_bytes p ids sep : all_bytes p sep = true → Forall (λ id, all_bytes p id = true) ids → all_bytes p (Join ids sep) = true.
Proof.
  intros Hsep. induction 1 as [|id ids Hid Hids IH]; [done|]. destruct ids as [|id' ids]; [done|].
  change (Join (id :: id' :: ids) sep) with (id ++ sep ++ Join (id' :: ids) sep)%string. by rewrite !all_bytes_app, Hid, Hsep, IH.
Qed.

(** The selector of a scope of slugs selects that scope: every team of it, and no
    other; an organisation without teams gets a value that is no slug. *)
Theorem teamSelector_selects printable ids :
  Forall (λ id, all_bytes slug_byte id = true) ids →
  matched_teams (teamSelector printable (Some ids)) = Some (match ids with [] => ["NO_MATCHING_TEAM"%string] | _ => ids end) ∧
  all_bytes slug_byte "NO_MATCHING_TEAM" = false.
Proof.
  intros Hids. split; [|done].
  assert (∀ v, all_bytes (λ c, slug_byte c || bool_decide (c = "|"%char)) v = true →
    Quote printable v = (quote ++ v ++ quote)%string ∧ unquoted (v ++ quote) = Some v) as Hq.
  { intros v Hv. split; [apply Quote_literal; by eapply all_bytes_imp; [exact slug_literal|]|]. apply unquoted_quote; (eapply all_bytes_free; [|exact Hv]; done). }
  assert (Forall (λ id, all_bytes (λ c, slug_byte c || bool_decide (c = "|"%char)) id = true) ids) as Hw.
  { eapply Forall_impl; [exact Hids|]. intros id. apply all_bytes_imp. intros c ->. done. }
  destruct ids as [|id [|id' ids]]; [done|..]; unfold teamSelector.
  - apply Forall_cons in Hw as [Hw _]. destruct (Hq id Hw) as [-> Hu]. unfold matched_teams.
    assert (strip ("team=~" ++ quote) ("team=" ++ quote ++ id ++ quote) = None) as -> by done.
    rewrite <- string_app_assoc, strip_app. by rewrite Hu.
  - set (l := id :: id' :: ids) in *. assert (all_bytes (λ c, slug_byte c || bool_decide (c = "|"%char)) (Join l "|") = true) as Hj by (by apply Join_bytes).
    destruct (Hq _ Hj) as [-> Hu]. unfold matched_teams. rewrite <- string_app_assoc, strip_app, Hu, Hj. f_equal.
    apply (Split_Join "|"%char l); [done|]. eapply Forall_impl; [exact Hids|]. intros x. by apply all_bytes_free.
Qed.

(** An id need not be a slug: teams.yaml may name a team as it likes, and a dot in
    one of two names is a pattern. *)
Example seeded_id_is_a_pattern :
  teamSelector (λ _, true) (Some ["a.c"; "b"]%string) = ("team=~" ++ quote ++ "a.c|b" ++ quote)%string ∧
  matched_teams (teamSelector (λ _, true) (Some ["a.c"; "b"]%string)) = None.
Proof. done. Qed.

(** ** What a build holds *)

Definition overhead_numbers (o : OverheadPoint) : list float64 := omap id [op_P50 o; op_P95 o; op_P99 o].
Definition series_numbers (s : Series) : list float64 :=
  map tp_Value (se_Traffic s) ++ concat (map overhead_numbers (se_Overhead s)) ++ omap qp_Avg (se_Quality s).
(** Every number a result shows. *)
Definition numbers (r : Result) : list float64 :=
  omap id [re_RequestCount r; re_ErrorRate r; re_CacheHitRate r; re_TokensTotal r; re_QualityAvg r; re_QualityScored r;
           re_OverheadP50 r; re_OverheadP95 r; re_OverheadP99 r; re_CostUSD r] ++
  match re_Series r with Some s => series_numbers s | None => [] end.

Definition fin (x : float64) : Prop := finite x = true.
Definition fin_opt (x : option float64) : Prop := ∀ v, x = Some v → fin v.

Lemma fin_omap l : Forall fin_opt l → Forall fin (omap id l).
Proof. intros Hl. apply Forall_forall. intros x (y & Hy & Hx)%list_elem_of_omap. rewrite Forall_forall in Hl. by apply (Hl y Hy). Qed.

Section finite.
Context (base : string) (ask : string → http_outcome).

Lemma queryScalar_finite promql : fin_opt (default None (queryScalar base ask promql)).
Proof.
  unfold queryScalar. destruct (prom_result _ _ _) as [[|[|? [|v [|]]] ?]|]; try done. destruct (into_string _ _) as [s|]; [|done].
  destruct (ParseFloat_64 s) as [x|]; [|done]. cbn. destruct (finite x) eqn:Hx; [|done]. by intros ? [= <-].
Qed.

Lemma queryRange_finite promql start stop step l : queryRange base ask promql start stop step = Some l → Forall (λ p, fin (ps_V p)) l.
Proof.
  unfold queryRange. destruct (prom_result _ _ _) as [[|vs ?]|]; [by intros [= <-]| |done]. intros [= <-].
  apply Forall_forall. intros p (pair & _ & Hp)%list_elem_of_omap. unfold sample_of in Hp. repeat case_match; simplify_eq; done.
Qed.

Definition point_fin (o : OverheadPoint) : Prop := Forall fin_opt [op_P50 o; op_P95 o; op_P99 o].

Lemma assign_finite set points m :
  (∀ o v, point_fin o → fin v → point_fin (set o v)) → Forall (λ p, fin (ps_V p)) points →
  map_Forall (λ _, point_fin) m → map_Forall (λ _, point_fin) (assign set points m).
Proof.
  intros Hset. unfold assign. revert m. induction points as [|p points IH]; intros m Hp Hm; [done|].
  apply Forall_cons in Hp as [Hv Hp]. cbn [foldl]. apply IH; [done|]. apply map_Forall_insert_2; [|done]. apply Hset; [|done].
  destruct (m !! ps_T p) as [o|] eqn:Ho; [by eapply Hm|]. by repeat constructor.
Qed.

Lemma assemble_finite step traffic p50 p95 p99 quality s :
  Forall (λ x, ∀ l, x = Some l → Forall (λ p, fin (ps_V p)) l) [traffic; p50; p95; p99; quality] →
  assemble step traffic p50 p95 p99 quality = Some s → Forall fin (series_numbers s).
Proof.
  intros Hall. unfold assemble. destruct traffic as [t|], p50 as [l50|], p95 as [l95|], p99 as [l99|], quality as [l|]; try done. intros [= <-].
  repeat (apply Forall_cons in Hall as [?H Hall]). specialize (H _ eq_refl). specialize (H0 _ eq_refl). specialize (H1 _ eq_refl).
  specialize (H2 _ eq_refl). specialize (H3 _ eq_refl). unfold series_numbers. cbn [se_Traffic se_Overhead se_Quality].
  apply Forall_app. split; [|apply Forall_app; split].
  - rewrite map_map. by apply Forall_map.
  - assert (map_Forall (λ _, point_fin) (assign set_p99 l99 (assign set_p95 l95 (assign set_p50 l50 ∅)))) as Hm.
    { repeat apply assign_finite; try done; try (by apply map_Forall_empty);
        intros o v Ho Hv; unfold point_fin in *; repeat (apply Forall_cons in Ho as [? Ho]); repeat constructor; cbn; try done; by intros ? [= <-]. }
    apply Forall_concat, Forall_map, Forall_forall. intros o ([k o'] & -> & Ho)%list_elem_of_fmap.
    rewrite merge_sort_Permutation in Ho. apply elem_of_map_to_list in Ho. by apply fin_omap, (Hm k).
  - apply Forall_forall. intros x (p & (p' & -> & Hp)%list_elem_of_fmap & Hx)%list_elem_of_omap. cbn in Hx. injection Hx as <-.
    rewrite Forall_forall in H3. by apply H3.
Qed.

Lemma buildSeries_finite now opts teamSel s : buildSeries base ask now opts teamSel = Some s → Forall fin (series_numbers s).
Proof.
  unfold buildSeries. destruct (windowStep _) as [win step]. apply assemble_finite. repeat constructor; intros l; apply queryRange_finite.
Qed.
End finite.

(** A build never fails: it shows finite numbers only, which JSON can hold, and
    when it does not call itself degraded every query of it was answered. *)
Theorem build_answers printable base ask configured now opts :
  let r := build printable base ask configured now opts in
  Forall fin (numbers r) ∧
  (re_Degraded r = false →
   configured = true ∧ is_Some (re_Series r) ∧
   ∀ p, p ∈ scalar_queries (o_Range opts) (teamSelector printable (o_TeamIDs opts)) → is_Some (queryScalar base ask p)).
Proof.
  unfold build. destruct configured; [|by repeat constructor]. cbn [negb]. set (sel := teamSelector printable (o_TeamIDs opts)).
  set (answers := map (queryScalar base ask) (scalar_queries (o_Range opts) sel)). split.
  - assert (∀ i, fin_opt (default None (default None (answers !! i)))) as Hv.
    { intros i. unfold answers. rewrite list_lookup_fmap. destruct (scalar_queries _ _ !! i); [apply queryScalar_finite|done]. }
    assert (∀ x, fin_opt x → fin_opt (guard_nan x)) as Hg by (intros [[]|] Hx v; cbn; try done; by apply Hx).
    unfold numbers. cbn [re_RequestCount re_ErrorRate re_CacheHitRate re_TokensTotal re_QualityAvg re_QualityScored re_OverheadP50
      re_OverheadP95 re_OverheadP99 re_CostUSD re_Series].
    apply Forall_app. split; [apply fin_omap; repeat constructor; auto|].
    destruct (buildSeries _ _ _ _ _) as [s|] eqn:Hs; [|done]. by apply buildSeries_finite in Hs.
  - cbn [re_Degraded re_Series]. intros [Ha Hs%bool_decide_eq_false]%orb_false_iff. split_and!; [done|by destruct (buildSeries _ _ _ _ _); [eexists|]|].
    intros p Hp. destruct (queryScalar base ask p) eqn:Hq; [by eexists|]. exfalso. assert (existsb (λ a, bool_decide (a = None)) answers = true) as Ht; [|congruence].
    apply existsb_exists. exists None. split; [|done]. apply list_elem_of_In, list_elem_of_fmap. by exists p.
Qed.

(** ** A run *)

From S2P Require Import TeamStoreFacts AdminTeamsFacts.

Module summary_demo.
Definition body : string :=
  cat (map (λ s, if bool_decide (s = "'"%string) then quote else s)
    ["{"; "'"; "status"; "'"; ":"; "'"; "success"; "'"; ","; "'"; "data"; "'"; ":{"; "'"; "resultType"; "'"; ":"; "'"; "vector"; "'"; ",";
     "'"; "result"; "'"; ":[{"; "'"; "value"; "'"; ":[1700000000.5,"; "'"; "42"; "'"; "],";
     "'"; "values"; "'"; ":[[1700000000,"; "'"; "NaN"; "'"; "],[1700000060,"; "'"; "7"; "'"; "]]}]}}"]%string).
Definition up (_ : string) : http_outcome := Responded 200 "" body None.
Definition down (_ : string) : http_outcome := Unreachable true false.
Definition every : Options := {| o_Range := "24h"; o_TeamIDs := None |}.
Definition earlier_call : build_call := {| bc_opts := every; bc_ask := up; bc_built := 0; bc_stored := 0 |}.
Definition earlier_cache : summary_cache := remember 0 every (result_of (λ _, true) "http://prom/" true earlier_call) ∅.
Definition asked := handleSummary (λ _, true) "http://prom/" down true true (10 * second) 1 1 2 None true false
  (admin_demo.request "personal" "" "") demo.s earlier_cache.
End summary_demo.

Example demo_queries :
  queryScalar "http://prom//" summary_demo.up "up" = Some (Some (f64_of_Z 42)) ∧
  queryRange "http://prom" summary_demo.up "up" 0 60 minute = Some [{| ps_T := 1700000060; ps_V := f64_of_Z 7 |}] ∧
  queryScalar "http://prom" summary_demo.down "up" = None ∧
  durationExpr (15 * minute) = "15m"%string ∧ durationExpr (2 * hour) = "2h"%string.
Proof. vm_compute. done. Qed.

(** The operator's fresh answer is not the tenant's: with Prometheus down, the
    tenant gets a degraded summary of its own. *)
Lemma overview_stays_in_scope_witness :
  ∃ v m', summary_demo.asked = (Ok v, m') ∧ su_Degraded v = true ∧
    ∃ ids r, v = toSummaryView r None true false ∧
             r = result_of (λ _, true) "http://prom/" true
                   {| bc_opts := {| o_Range := "24h"; o_TeamIDs := Some ids |}; bc_ask := summary_demo.down; bc_built := 1; bc_stored := 2 |} ∧
             ∀ id, id ∈ ids → mine (admin_demo.user "personal") demo.s id.
Proof.
  destruct summary_demo.asked as [[v|e] m'] eqn:Hasked; [|vm_compute in Hasked; discriminate Hasked].
  exists v, m'. split; [done|]. split.
  { assert (match summary_demo.asked.1 with Ok v => su_Degraded v | Err _ => false end = true) as Hd by (vm_compute; reflexivity).
    by rewrite Hasked in Hd. }
  unfold summary_demo.asked in Hasked.
  destruct (overview_stays_in_scope (λ _, true) "http://prom/" true [summary_demo.earlier_call] summary_demo.down true (10 * second) 1 1 2 None true false
    (admin_demo.request "personal" "" "") (admin_demo.user "personal") demo.s summary_demo.earlier_cache v m') as (ids & r & Hv & Hb & Hm & _); [..|exact Hasked|].
  - apply (co_reg demo.db). apply (New_coherent true 0); [exact demo_db_ok|vm_compute; reflexivity].
  - reflexivity.
  - reflexivity.
  - assert (bool_decide (map_Forall (λ k _, (k ≠ ""%string ∧ free NUL k = true) ∧ k ≠ "*"%string) (byID (sn_registry demo.s))) = true)
      as Hall%bool_decide_eq_true by (vm_compute; reflexivity).
    intros team (t & Ht & _). exact (Hall team t Ht).
  - apply (filled_more (λ _, true) "http://prom/" true [] ∅ summary_demo.earlier_call); [apply filled_empty|]. split; [vm_compute; reflexivity|done].
  - exists ids, r. split; [exact Hv|]. split; [|exact Hm]. destruct Hb as [[Hr _]|[_ (k' & Hk' & Ho & _)]]; [exact Hr|].
    apply list_elem_of_singleton in Hk' as ->. discriminate Ho.
Defined.
