(* ===== verification/Handler.v ===== *)
(** * internal/proxy/handler.go: one chat completion from body to settlement

    [ChatCompletions] and [streamChatCompletions] with everything they call:
    decoding, routing, authorization, the chain, the cache, the two
    reservations, the walk with its fault injection and health reports, pricing,
    the response, the cache store, the quality sample, and the deferred
    settlements, which run on every exit, a panic included.  Redis's keyspaces,
    the breakers and the cache are the components' own; what a provider answers
    is a parameter. *)

From Stdlib Require Import QArith.
From S2P Require Import Prelude Redis Text Json Float32 Budget Breaker BreakerStore BreakerRegistry.
From S2P Require Import Provider Retry Health Chain Wire Sse Metrics RateLimit Auth ChainBudget Fallback Gateway.
From S2P Require Import Admission Router CacheKey CacheStore CacheLookup Chaos Stream Decode Quality.
Open Scope Z_scope.

(** ** The handler's dependencies

    The resolver and the price table are the live configuration, which a reload
    may replace at any moment, and the health monitor moves on by itself: what
    they hold is a function of the time of the call. *)

Record Handler := {
  h_ForModel : Z → string → result go_error string;
  h_DefaultMaxTokensFor : Z → string → option Z;
  h_TierFor : Z → string → list Chain.Candidate;
  h_TierNamed : Z → string → list Chain.Candidate;
  h_calc : Z → Cost.Calculator;
  h_health : option (Z → string → Status);
  h_breakers : option (BreakerConfig * bool);
  h_chaos : option Chaos;
  h_retryConfig : Retry.Config;
  h_cache : option (LookupConfig * bool);
  h_cacheTTL : TTLPolicy;
  h_routing : option (ClassifierConfig * Policy);
  h_quality : option (option Quality.Config)
}.

(** The request, with what the middleware put in its context. *)
Record http_request := {
  rq_team : option Team; rq_id : string;
  rq_contentType : string; rq_body : string; rq_limited : bool; rq_cacheTTL : string;
  rq_draw : float64 }.

(** The texts of error messages and routing reasons, which [fmt] renders. *)
Inductive notice :=
| NDecode (e : decode_error) | NNoTeam | NTier (tier : string) (status : Z) | NModelNotAllowed (model : string)
| NModelNotFound (model : string) | NResolveFailed | NNoProviderAllowed (model : string)
| NRejected (typ : string) | NBudgetDenied (e : go_error) | NExhausted (model : string) (tried : nat)
| NAttempt (e : go_error) | NBreakerOpen (model : string) | NRouteReason (p : Plan).

(** ** The world a request runs in *)

Record world (C : Type) := {
  hw_gw : gateway;
  hw_rate : RedisMap.db bucket;
  hw_cache : C;
  hw_health : list (string * Z * option go_error);
  hw_time : Z;
  hw_callStart : Z;
  hw_panicked : bool;
  hw_samples : list Sample
}.
Arguments hw_gw {C}. Arguments hw_rate {C}. Arguments hw_cache {C}. Arguments hw_health {C}.
Arguments hw_time {C}. Arguments hw_callStart {C}. Arguments hw_panicked {C}. Arguments hw_samples {C}.

Section setters.
Context {C : Type}.
Definition set_gw (g : gateway) (w : world C) : world C :=
  {| hw_gw := g; hw_rate := hw_rate w; hw_cache := hw_cache w; hw_health := hw_health w; hw_time := hw_time w;
     hw_callStart := hw_callStart w; hw_panicked := hw_panicked w; hw_samples := hw_samples w |}.
Definition set_rate (d : RedisMap.db bucket) (w : world C) : world C :=
  {| hw_gw := hw_gw w; hw_rate := d; hw_cache := hw_cache w; hw_health := hw_health w; hw_time := hw_time w;
     hw_callStart := hw_callStart w; hw_panicked := hw_panicked w; hw_samples := hw_samples w |}.
Definition set_cache (c : C) (w : world C) : world C :=
  {| hw_gw := hw_gw w; hw_rate := hw_rate w; hw_cache := c; hw_health := hw_health w; hw_time := hw_time w;
     hw_callStart := hw_callStart w; hw_panicked := hw_panicked w; hw_samples := hw_samples w |}.
(** [healthRecorder.Record] *)
Definition record_health (p : string) (latency : Z) (err : option go_error) (w : world C) : world C :=
  {| hw_gw := hw_gw w; hw_rate := hw_rate w; hw_cache := hw_cache w;
     hw_health := hw_health w ++ [(p, latency, err)]; hw_time := hw_time w;
     hw_callStart := hw_callStart w; hw_panicked := hw_panicked w; hw_samples := hw_samples w |}.
Definition add_time (d : Z) (w : world C) : world C :=
  {| hw_gw := hw_gw w; hw_rate := hw_rate w; hw_cache := hw_cache w; hw_health := hw_health w;
     hw_time := hw_time w + d;
     hw_callStart := hw_callStart w; hw_panicked := hw_panicked w; hw_samples := hw_samples w |}.
Definition start_call (w : world C) : world C :=
  {| hw_gw := hw_gw w; hw_rate := hw_rate w; hw_cache := hw_cache w; hw_health := hw_health w;
     hw_time := hw_time w; hw_callStart := g_now (hw_gw w); hw_panicked := hw_panicked w;
     hw_samples := hw_samples w |}.
Definition panic (w : world C) : world C :=
  {| hw_gw := hw_gw w; hw_rate := hw_rate w; hw_cache := hw_cache w; hw_health := hw_health w;
     hw_time := hw_time w; hw_callStart := hw_callStart w; hw_panicked := true; hw_samples := hw_samples w |}.
Definition offer (s : option Sample) (w : world C) : world C :=
  {| hw_gw := hw_gw w; hw_rate := hw_rate w; hw_cache := hw_cache w; hw_health := hw_health w;
     hw_time := hw_time w; hw_callStart := hw_callStart w; hw_panicked := hw_panicked w;
     hw_samples := hw_samples w ++ option_list s |}.
Definition hw_now (w : world C) : Z := g_now (hw_gw w).
Definition set_now (t : Z) (w : world C) : world C := set_gw (at_now (hw_gw w) t) w.
Definition set_budget (cb : option chainBudget) (d : RedisMap.db Z) (w : world C) : world C :=
  set_gw (with_budget (hw_gw w) cb d) w.
End setters.

(** What a request cannot control: the client's presence and the waits at a
    time of the clock, the jitter, and the fate of each Redis round trip. *)
Class Surroundings := {
  sur_gone : Z → bool;
  sur_pause : Z → Z → bool * Z;
  sur_jitter : Z → Z → Z;
  sur_breaker_net : Z → net_fate;
  sur_budget_net : Z → net_fate;
  sur_settle_net : nat → net_fate;
  sur_rate_net : Z → net_fate;
  sur_pause_later now d : now ≤ (sur_pause now d).2;
  sur_jitter_range now n : 0 < n → 0 ≤ sur_jitter now n < n
}.

(** What a provider's answer comes to, and how long it took; [None] is a panic
    of the adapter. *)
Record answer (X : Type) := { an_result : option (result go_error X); an_elapsed : N }.
Arguments an_result {X}. Arguments an_elapsed {X}.

(** A stream, the time to the first outcome of [Recv], and to its end. *)
Record opened := { op_stream : provider_stream; op_first : N; op_total : N }.

Section handler.
Context {C : Type} `{!EntryStore C} {lua : LuaNumber} {sur : Surroundings}.
Context (say : notice → string) (ToLower : string → string) (accepts : nat → option nat).
Context (hd : Handler).

Abbreviation W := (world C).

(** ** The walk's view of the world *)

#[local] Program Instance handler_world : World W := {|
  wait d w := let '(c, t) := sur_pause (hw_now w) d in (c, set_now t w);
  rand_int64n n w := (sur_jitter (hw_now w) n, w)
|}.
Next Obligation. intros n w Hn. by apply sur_jitter_range. Qed.

Definition hw_allow (c : Chain.Candidate) (w : W) : bool * W :=
  match h_breakers hd with
  | None => (true, w)
  | Some (bcfg, shared) =>
      let l := labelsOf c in
      let g := hw_gw w in
      let '(b, r) := For bcfg shared l (g_reg g) in
      match b with
      | None => (true, w)
      | Some _ =>
          let f := sur_breaker_net (g_now g) in
          let '(ok, r, d) := reg_Allow bcfg (g_now g) (redis_ms g) f f l r (g_breaker_db g) in
          (ok, set_gw (with_breakers g r d) w)
      end
  end.

(** The verdict is not reached when the call panicked. *)
Definition hw_report (c : Chain.Candidate) (ok : bool) (w : W) : W :=
  if hw_panicked w then w
  else match h_breakers hd with
       | None => w
       | Some (bcfg, shared) =>
           let g := hw_gw w in
           let f := sur_breaker_net (g_now g) in
           let '(r, d) :=
             if ok
             then reg_RecordSuccess bcfg (g_now g) (redis_ms g) f (labelsOf c) (g_reg g) (g_breaker_db g)
             else reg_RecordFailure bcfg (g_now g) (redis_ms g) f (labelsOf c) (g_reg g) (g_breaker_db g) in
           set_gw (with_breakers g r d) w
       end.

Definition hw_admit (model : string) (w : W) : Z * option go_error * W :=
  let g := hw_gw w in
  let '(delta, err, cb, d) :=
    admit_ (h_calc hd (g_now g)) (h_DefaultMaxTokensFor hd (g_now g)) (g_now g) (redis_ms g) (sur_budget_net (g_now g))
      (g_budget g) model (g_budget_db g) in
  (delta, err, set_budget cb d w).

(** A provider call: the injected fault or the real one, and what the two
    closures do with an answer ([keep]). *)
Section call.
Context {X : Type} (upstream : string → Request → nat → answer X) (kept : X → W → W) (req : Request).

Definition attempt_request (model : string) : Request :=
  {| pr_Model := model; pr_Messages := pr_Messages req; pr_Temperature := pr_Temperature req;
     pr_MaxTokens := pr_MaxTokens req; pr_Stream := pr_Stream req; pr_Stop := pr_Stop req |}.

Definition call_failed (c : Chain.Candidate) (e : go_error) (w : W) : result go_error (option X) * W :=
  let elapsed := hw_now w - hw_callStart w in
  (Err e, record_health (c_Provider c) elapsed (Some e) (add_time elapsed w)).

(** The provider was reached: the clock moves on, and who was called with
    which model is on record. *)
Definition reached (c : Chain.Candidate) (elapsed : N) (w : W) : W :=
  let g := hw_gw w in
  set_gw {| g_now := g_now g + Z.of_N elapsed; g_cancelled := g_cancelled g; g_reg := g_reg g;
            g_breaker_db := g_breaker_db g; g_budget := g_budget g; g_budget_db := g_budget_db g;
            g_calls := g_calls g ++ [c]; g_verdicts := g_verdicts g |} w.

Definition hw_call (prov : string) (c : Chain.Candidate) (w : W) : result go_error (option X) * W :=
  let '(inj, w) := Chaos.Apply (h_chaos hd) (c_Provider c) (c_Model c) (start_call w) in
  match inj with
  | Panic => (Ok None, panic w)
  | Fault e => call_failed c (ProviderError e) w
  | Pass =>
      let a := upstream prov (attempt_request (c_Model c)) (length (g_calls (hw_gw w))) in
      let w := reached {| c_Provider := prov; c_Model := c_Model c |} (an_elapsed a) w in
      match an_result a with
      | None => (Ok None, panic w)
      | Some (Err e) => call_failed c e w
      | Some (Ok x) => (Ok (Some x), kept x w)
      end
  end.

#[local] Instance handler_chain : ChainWorld W string (option X) := {|
  ctxErr w := sur_gone (hw_now w);
  breakerAllow := hw_allow;
  breakerReport := hw_report;
  admitCandidate := hw_admit;
  forModel m w := h_ForModel hd (hw_now w) m;
  providerCall := hw_call
|}.

Definition run_chain (chain : list Chain.Candidate) (w : W)
    : outcome (option X) * list chainFailure * list FallbackEvent * W :=
  runChain None (h_retryConfig hd)
    (default {| c_Provider := ""; c_Model := "" |} (head chain)) chain w.
End call.

(** ** Answers *)

Definition write_error (status : Z) (typ : string) (n : notice) (wr : writer) : writer :=
  writeError accepts status typ (say n) wr.

(** The 429, 402, 503 and 500 answers of the reservations. *)
Definition write_rejection (status : Z) (typ : string) (h : option rateHeaders) (wr : writer) : writer :=
  let wr := match h with
            | None => wr
            | Some h =>
                emit (SetHeader "X-RateLimit-Reset" (FormatInt (h_Reset h)))
                  (emit (SetHeader "X-RateLimit-Remaining" (FormatInt (h_Remaining h)))
                    (emit (SetHeader "X-RateLimit-Limit" (FormatInt (h_Limit h)))
                      (emit (SetHeader "Retry-After" (FormatInt (h_RetryAfter h))) wr)))
            end in
  write_error status typ (NRejected typ) wr.

Definition attempt_message (err : go_error) : string :=
  if isBreakerOpen err then say (NAttempt err)
  else match asProviderError err with
       | Some e => if bool_decide (e_Message e = ""%string) then say (NAttempt err) else e_Message e
       | None => say (NAttempt err)
       end.

Definition attempt_json (f : chainFailure) : json :=
  let d := attempt_detail f in
  JObj [("provider"%string, JStr (ad_Provider d)); ("model"%string, JStr (ad_Model d));
        ("attempts"%string, JInt (ad_Attempts d)); ("type"%string, JStr (ad_Type d));
        ("message"%string, JStr (attempt_message (cf_err f)))].

Definition writeChainExhaustedError (model : string) (failures : list chainFailure) (wr : writer) : writer :=
  encode accepts
    (JObj [("error"%string,
      JObj [("message"%string, JStr (say (NExhausted model (length failures))));
            ("type"%string, JStr "chain_exhausted");
            ("switchyard_attempts"%string, JArr (map attempt_json failures))])])
    (emit (WriteHeader 503) (emit (SetHeader "Content-Type" "application/json") wr)).

Definition write_chain_error (model : string) (failures : list chainFailure) (err : go_error) (wr : writer)
    : writer :=
  match asBudgetDenied err with
  | Some _ => write_error 402 "budget_exceeded" (NBudgetDenied err) wr
  | None =>
      if (1 <? length failures)%nat && ShouldFallback err then writeChainExhaustedError model failures wr
      else if isBreakerOpen err then write_error 503 "circuit_breaker_open" (NBreakerOpen model) wr
      else writeProviderErrorBody accepts err wr
  end.

(** ** Before the reservations

    Each step either goes on or has written the response, which is then the
    error. *)

Definition team_allows (team : option Team) : option (string → string → bool) :=
  match team with
  | None => None
  | Some t => Some (λ p m, AllowsProvider t p && AllowsModel t m)
  end.

Definition status_at (now : Z) : option (string → Status) := option_map (λ f, f now) (h_health hd).

Definition breaker_state (w : W) (c : Chain.Candidate) : option State :=
  match h_breakers hd with
  | None => None
  | Some (bcfg, shared) => option_map state (For bcfg shared (labelsOf c) (g_reg (hw_gw w))).1
  end.

Definition with_model (req : chatRequest) (model : string) : chatRequest :=
  {| r_Model := model; r_Messages := r_Messages req; r_Temperature := r_Temperature req;
     r_MaxTokens := r_MaxTokens req; r_Stream := r_Stream req; r_Stop := r_Stop req |}.

Definition do_route (rq : http_request) (req : chatRequest) (m : requestMetrics) (wr : writer) (w : W)
    : result writer (chatRequest * requestMetrics) :=
  match route (h_TierNamed hd (hw_now w)) (status_at (hw_now w)) (team_allows (rq_team rq)) (breaker_state w) (h_routing hd) req with
  | Err (status, typ) => Err (write_error status typ (NTier (r_Model req) status) wr)
  | Ok (_, None) => Ok (req, m)
  | Ok (model, Some plan) =>
      Ok (with_model req model,
          m_routed model (pl_Tier plan) (say (NRouteReason plan)) (topTierModel (h_TierNamed hd (hw_now w)) (h_routing hd)) m)
  end.

Definition authorizeModel (team : option Team) (model : string) (wr : writer) : result writer Team :=
  match team with
  | None => Err (write_error 500 "internal_error" NNoTeam wr)
  | Some t => if AllowsModel t model then Ok t
              else Err (write_error 403 "model_not_allowed" (NModelNotAllowed model) wr)
  end.

Fixpoint isModelNotSupported (err : go_error) : bool :=
  match err with
  | ErrModelNotSupported _ => true
  | Wrapped _ e => isModelNotSupported e
  | _ => false
  end.

Definition resolve (now : Z) (model : string) (wr : writer) : result writer string :=
  match h_ForModel hd now model with
  | Ok p => Ok p
  | Err e => Err (if isModelNotSupported e
                  then write_error 404 "model_not_found" (NModelNotFound model) wr
                  else write_error 500 "internal_error" NResolveFailed wr)
  end.

Definition chainFor (now : Z) (team : option Team) (requested : Chain.Candidate) : list Chain.Candidate :=
  BuildChain {| Requested := requested; Chain.Tier := h_TierFor hd now (c_Model requested);
                StatusOf := status_at now; Chain.Allowed := team_allows team |}.

(** ** The cache *)

Definition no_result : CacheLookup.Result :=
  {| Hit := false; RTier := TierNone; REntry := None; RSimilarity := f32_zero; REmbedding := [];
     RThreshold := f32_zero; Latency := 0; EmbedLatency := 0 |}.

Definition Tier_string (t : CacheLookup.Tier) : string :=
  match t with TierNone => "" | TierExact => "exact" | TierSemantic => "semantic" end.

Definition team_scope (t : Team) : Scope :=
  {| sc_Org := t_OrganizationID t; sc_Team := t_ID t; sc_Isolated := t_CacheIsolated t |}.

(** The key, when the cache was consulted. *)
Definition consultCache (team : option Team) (req : chatRequest) (m : requestMetrics) (w : W)
    : option Key * CacheLookup.Result * requestMetrics * W :=
  match h_cache hd, team with
  | Some (lc, embedder), Some t =>
      let key := NewKey (team_scope t) (toProviderRequest req) in
      let '(r, c) := Lookup lc embedder key (hw_cache w) in
      (Some key, r, m_cached (Hit r) (if Hit r then Tier_string (RTier r) else "miss") (EmbedLatency r) m,
       set_cache c w)
  | _, _ => (None, no_result, m, w)
  end.

Definition storeInCache (rq : http_request) (k : Key) (r : CacheLookup.Result) (resp : Response) (w : W) : W :=
  match h_cache hd with
  | None => w
  | Some _ =>
      if negb (Cacheable (Some resp)) then w
      else match TTLFor ToLower contains (h_cacheTTL hd) (k_Query k) (parseCacheTTLHeader (rq_cacheTTL rq)) with
           | None => w
           | Some ttl =>
               set_cache (Cache_Store k (REmbedding r)
                 {| CacheStore.e_Response := rs_Content resp; CacheStore.e_FinishReason := rs_FinishReason resp;
                    CacheStore.e_InputTokens := u_InputTokens (rs_Usage resp);
                    CacheStore.e_OutputTokens := u_OutputTokens (rs_Usage resp);
                    CacheStore.e_Model := rs_Model resp; CacheStore.e_Provider := rs_Provider resp;
                    CacheStore.e_CreatedAt := Some (hw_now w); CacheStore.e_Hits := 0; CacheStore.e_Embedding := [] |}
                 ttl (hw_cache w)) w
           end
  end.

(** After the response: the store and the sample. *)
Definition after_response (rq : http_request) (req : chatRequest) (m : requestMetrics) (key : option Key)
    (r : CacheLookup.Result) (resp : Response) (w : W) : W :=
  let w := match key with Some k => storeInCache rq k r resp w | None => w end in
  offer (considerQuality (h_quality hd) (rq_draw rq) (rq_id rq) (Some m) req (rs_Model resp)
           (rs_Provider resp) (rs_Content resp) r) w.

Definition created (w : W) : Z := hw_now w / second.

Definition serve_hit (rq : http_request) (req : chatRequest) (r : CacheLookup.Result) (e : Entry)
    (m : requestMetrics) (wr : writer) (w : W) : requestMetrics * writer * W :=
  let '(m, wr) := if r_Stream req then serveStreamFromCache accepts (rq_id rq) (created w) e m wr
                  else serveFromCache accepts (rq_id rq) (created w) e m wr in
  (m, wr, offer (considerQuality (h_quality hd) (rq_draw rq) (rq_id rq) (Some m) req (CacheStore.e_Model e)
                   (CacheStore.e_Provider e) (CacheStore.e_Response e) r) w).

(** ** The provider paths

    What [ChatCompletions] settles with afterwards: the tokens used, beside the
    metrics, the response and the world. *)

Definition settled : Type := Z * requestMetrics * writer * W.

Definition chain_failed (req : chatRequest) (failures : list chainFailure) (err : go_error)
    (m : requestMetrics) (wr : writer) (w : W) : settled :=
  (0, m_served (c_Provider (lastAttempted failures)) (mt_servedModel m) (mt_fellBack m) (hw_time w) (mt_usage m) m,
   write_chain_error (r_Model req) failures err wr, w).

Definition keep_response (resp : Response) (w : W) : W :=
  record_health (rs_Provider resp) (rs_Latency resp) None (add_time (rs_Latency resp) w).

Definition complete (completions : string → Request → nat → answer Response) (rq : http_request)
    (req : chatRequest) (requested : Chain.Candidate) (chain : list Chain.Candidate) (key : option Key)
    (r : CacheLookup.Result) (m : requestMetrics) (wr : writer) (w : W) : settled :=
  let '(o, failures, _, w) := run_chain completions keep_response (toProviderRequest req) chain w in
  match o with
  | ChainFailed err => chain_failed req failures err m wr w
  | Panicked | Served None _ => (0, m, wr, panic w)
  | Served (Some resp) served =>
      let m := m_served (rs_Provider resp) (rs_Model resp) (bool_decide (served ≠ requested)) (hw_time w)
                 (rs_Usage resp) m in
      let m := default m (recordCost (h_calc hd (hw_now w)) (Some m) (rs_Model resp) (rs_Usage resp)) in
      (wrap64 (u_InputTokens (rs_Usage resp) + u_OutputTokens (rs_Usage resp)), m,
       writeSuccess accepts (rq_id rq) (created w) resp wr, after_response rq req m key r resp w)
  end.

Definition streamChatCompletions (streams : string → Request → nat → answer opened) (rq : http_request)
    (req : chatRequest) (requested : Chain.Candidate) (chain : list Chain.Candidate) (key : option Key)
    (r : CacheLookup.Result) (m : requestMetrics) (wr : writer) (w : W) : settled :=
  let '(o, failures, _, w) := run_chain streams (λ _ w, w) (toProviderRequest req) chain w in
  match o with
  | ChainFailed err => chain_failed req failures err m wr w
  | Panicked | Served None _ => (0, m, wr, panic w)
  | Served (Some s) served =>
      let first := hw_time w + (hw_now w + Z.of_N (op_first s) - hw_callStart w) in
      let out := serve_stream accepts (h_calc hd (hw_now w + Z.of_N (op_total s))) (rq_id rq) (created w) (c_Provider served) (c_Model served)
                   (bool_decide (served ≠ requested)) first req (op_stream s) m wr in
      let w := set_now (hw_now w + Z.of_N (op_total s)) w in
      let w := match sd_health out with Some err => record_health (c_Provider served) first err w | None => w end in
      (sd_tokens out, sd_metrics out, sd_writer out,
       match sd_kept out with Some resp => after_response rq req (sd_metrics out) key r resp w | None => w end)
  end.

(** ** The reservations and their settlement *)

Definition HeaderBudgetWarning : string := "X-Switchyard-Budget-Warning".

(** Redis's clock for the buckets, in microseconds. *)
Definition redis_us (w : W) : Z := hw_now w / microsecond.

(** The deferred settlement of the budget: the base with the cost on record,
    every top-up with nothing. *)
Definition settle_budget (base : option Tracker.Reservation) (m : requestMetrics) (w : W) : W :=
  let g := hw_gw w in
  set_budget None (settle_request (redis_ms g) sur_settle_net base (mt_costMicros m) (g_budget g) (g_budget_db g)) w.

Definition settle_tokens (tokens : option RateLimit.Reservation) (actual : Z) (w : W) : W :=
  set_rate (RateLimit.Reconcile (redis_us w) (sur_rate_net (hw_now w)) tokens actual (hw_rate w)).2 w.

Definition start_budget (t : Team) (req : chatRequest) (est : Z) (d : RedisMap.db Z) (w : W) : W :=
  set_budget (Some {| cb_teamID := t_ID t; cb_capMicros := t_MonthlyBudgetMicros t; cb_req := req;
                      cb_baseMicros := est; cb_extra := [] |}) d w.

(** [serve] is the streaming or the plain path. *)
Definition with_budget_held (t : Team) (req : chatRequest)
    (serve : requestMetrics → writer → W → settled) (m : requestMetrics) (wr : writer) (w : W) : settled :=
  let g := hw_gw w in
  match reserveBudget (g_now g) (redis_ms g) (sur_budget_net (g_now g)) (Some t) (h_calc hd (g_now g))
          (h_DefaultMaxTokensFor hd (g_now g)) req (g_budget_db g) with
  | (Proceed (reservation, est, warn), d) =>
      let wr := if warn then emit (SetHeader HeaderBudgetWarning "true") wr else wr in
      let '(actual, m, wr, w) := serve m wr (start_budget t req est d w) in
      (actual, m, wr, settle_budget reservation m w)
  | (Reject status typ h, d) => (0, m, write_rejection status typ h wr, set_budget None d w)
  end.

Definition with_tokens_held (t : Team) (req : chatRequest)
    (serve : requestMetrics → writer → W → settled) (m : requestMetrics) (wr : writer) (w : W)
    : requestMetrics * writer * W :=
  let f := sur_rate_net (hw_now w) in
  match reserveTokens (redis_us w) (redis_us w) f f (Some t) (h_DefaultMaxTokensFor hd (hw_now w)) req (hw_rate w) with
  | (Reject status typ h, d) => (m, write_rejection status typ h wr, set_rate d w)
  | (Proceed tokens, d) =>
      let '(actual, m, wr, w) := with_budget_held t req serve m wr (set_rate d w) in
      (m, wr, settle_tokens tokens actual w)
  end.

(** ** ChatCompletions *)

Definition begin_request (w : W) : W :=
  {| hw_gw := with_budget (hw_gw w) None (g_budget_db (hw_gw w)); hw_rate := hw_rate w; hw_cache := hw_cache w;
     hw_health := hw_health w; hw_time := 0; hw_callStart := hw_now w; hw_panicked := false;
     hw_samples := hw_samples w |}.

Definition authorized_request (completions : string → Request → nat → answer Response)
    (streams : string → Request → nat → answer opened) (rq : http_request) (req : chatRequest) (t : Team)
    (prov : string) (m : requestMetrics) (wr : writer) (w : W) : requestMetrics * writer * W :=
  let requested := {| c_Provider := prov; c_Model := r_Model req |} in
  match chainFor (hw_now w) (Some t) requested with
  | [] => (m, write_error 403 "provider_not_allowed" (NNoProviderAllowed (r_Model req)) wr, w)
  | chain =>
      let '(key, r, m, w) := consultCache (Some t) req m w in
      match Hit r, REntry r with
      | true, Some e => serve_hit rq req r e m wr w
      | _, _ =>
          let serve := if r_Stream req then streamChatCompletions streams rq req requested chain key r
                       else complete completions rq req requested chain key r in
          with_tokens_held t req serve m wr w
      end
  end.

Definition ChatCompletions (completions : string → Request → nat → answer Response)
    (streams : string → Request → nat → answer opened) (rq : http_request)
    (m : requestMetrics) (wr : writer) (w : W) : requestMetrics * writer * W :=
  let w := begin_request w in
  match decode (rq_contentType rq) (rq_body rq) (rq_limited rq) with
  | Err e => (m, write_error (decode_status e) "invalid_request_error" (NDecode e) wr, w)
  | Ok req =>
      let m := m_asked (r_Model req) (r_Stream req) m in
      match do_route rq req m wr w with
      | Err wr => (m, wr, w)
      | Ok (req, m) =>
          match authorizeModel (rq_team rq) (r_Model req) wr with
          | Err wr => (m, wr, w)
          | Ok t =>
              match resolve (hw_now w) (r_Model req) wr with
              | Err wr => (m, wr, w)
              | Ok prov => authorized_request completions streams rq req t prov m wr w
              end
          end
      end
  end.
End handler.
