(* ===== verification/HandlerFacts.v ===== *)
(** * What a chat completion costs, and who may answer it

    Theorems about [ChatCompletions] as a whole: on every path, the team's spend
    moves by exactly the cost the request reports; only providers and models
    the team may use are called; and the response is a well-formed HTTP
    response. *)

From Stdlib Require Import QArith.
From S2P Require Import Prelude Redis Text Json Float32 Calendar Budget Breaker BreakerStore BreakerRegistry.
From S2P Require Import Provider Retry Health Chain Wire Sse Metrics RateLimit Auth ChainBudget Books Fallback.
From S2P Require Import FallbackFacts Gateway Admission Router CacheKey CacheStore CacheLookup Chaos Stream Decode.
From S2P Require Import Quality Handler.
Open Scope Z_scope.

Lemma Reserve_refused {db} `{!Redis Z db} now t f team cap est (d : db) r res d' :
  Tracker.Reserve now t f team cap est d = (Ok (r, res), d') → Tracker.Allowed res = false → r = None.
Proof. unfold Tracker.Reserve, Tracker.reserve_reply. intros HR Ha. repeat case_match; by simplify_eq. Qed.

(** Two days, in milliseconds: how long a spend counter is sure to live. *)
Definition grace_ms : Z := 48 * 3600 * 1000.

Section facts.
Context {C : Type} `{!EntryStore C} {lua : LuaNumber} {sur : Surroundings}.
Context (say : notice → string) (ToLower : string → string) (accepts : nat → option nat) (hd : Handler).

Abbreviation W := (world C).

(** ** The books of a request in flight *)
Section ledger.
Context (team : string) (cap T : Z) (c : string → Z) (base : Tracker.Reservation).
Context (cap_ok : 0 < cap ≤ int64_max) (money : ∀ t, clear_cut (sur_budget_net t)).

Definition gw_ms (w : W) : Z := redis_ms (hw_gw w).

Record in_flight (w : W) : Prop := {
  if_T : T ≤ gw_ms w + grace_ms;
  if_books : ∃ cb, g_budget (hw_gw w) = Some cb ∧ cb_teamID cb = team ∧ cb_capMicros cb = cap ∧
    books team cap T c (gw_ms w) (base :: cb_extra cb) (g_budget_db (hw_gw w))
}.

(** The clock does not run back, and while it is before the deadline the books
    stay right. *)
Definition keeps (w w' : W) : Prop :=
  hw_now w ≤ hw_now w' ∧ (gw_ms w' < T → in_flight w → in_flight w').

Lemma gw_ms_mono (w w' : W) : hw_now w ≤ hw_now w' → gw_ms w ≤ gw_ms w'.
Proof. intros Hle. unfold gw_ms, redis_ms. apply Z.div_le_mono; [done|exact Hle]. Qed.

#[local] Instance keeps_preorder : PreOrder keeps.
Proof.
  split; [by intros w; split|]. intros w1 w2 w3 [H1 H2] [H3 H4]. split; [lia|].
  intros HT Hf. apply H4; [done|]. apply H2; [|done]. pose proof (gw_ms_mono _ _ H3). lia.
Qed.

(** A step that leaves the budget alone. *)
Lemma keeps_frame (w w' : W) :
  hw_now w ≤ hw_now w' → g_budget (hw_gw w') = g_budget (hw_gw w) →
  g_budget_db (hw_gw w') = g_budget_db (hw_gw w) → keeps w w'.
Proof.
  intros Hn Hb Hd. split; [done|]. intros HT [H1 (cb & H2 & H3 & H4 & H5)].
  pose proof (gw_ms_mono _ _ Hn). split; [lia|]. exists cb. rewrite Hb, Hd. split_and!; try done.
  by eapply books_later.
Qed.

Lemma keeps_allow cand (w : W) : keeps w (hw_allow hd cand w).2.
Proof.
  unfold hw_allow. destruct (h_breakers hd) as [[bcfg shared]|]; [|reflexivity].
  destruct (For _ _ _ _) as [[b|] r]; [|reflexivity]. destruct (reg_Allow _ _ _ _ _ _ _ _) as [[ok r'] d].
  by apply keeps_frame.
Qed.

Lemma keeps_report cand ok (w : W) : keeps w (hw_report hd cand ok w).
Proof.
  unfold hw_report. destruct (hw_panicked w); [reflexivity|].
  destruct (h_breakers hd) as [[bcfg shared]|]; [|reflexivity].
  destruct ok; [destruct (reg_RecordSuccess _ _ _ _ _ _ _)|destruct (reg_RecordFailure _ _ _ _ _ _ _)];
    by apply keeps_frame.
Qed.

Lemma ttl_ms now : grace_ms ≤ Z.quot (Tracker.ttlUntilPeriodEnd now) second * 1000.
Proof. destruct (Tracker.ttl_outlives_period now) as (_ & _ & Ht). unfold grace_ms. lia. Qed.

Lemma keeps_admit model (w : W) : keeps w (hw_admit hd model w).2.
Proof.
  unfold hw_admit. set (g := hw_gw w).
  destruct (admit_ _ _ _ _ _ _ _ _) as [[[delta err] cb'] d'] eqn:Ha. cbn [snd].
  split; [done|]. intros HT [H1 (cb & Hcb & Hteam & Hcap & Hbk)].
  assert (gw_ms (set_budget cb' d' w) = gw_ms w) as Hms by done. rewrite Hms in HT.
  split; [done|]. cbn [hw_gw set_budget set_gw with_budget g_budget g_budget_db]. fold g in Hcb, Hbk.
  rewrite Hcb in Ha. unfold admit_ in Ha. rewrite Hteam, Hcap in Ha.
  destruct (bool_decide _); [simplify_eq; eauto 10|].
  destruct (estimateFor _ _ cb model) as [est|e]; [|simplify_eq; eauto 10].
  set (dl := wrap64 (est - cb_baseMicros cb)) in Ha.
  destruct (dl <=? 0); [simplify_eq; eauto 10|].
  assert (dl ≤ int64_max) as Hdl by apply wrap64_range.
  pose proof (books_reserve team cap T c (g_now g) (gw_ms w) (sur_budget_net (g_now g)) dl
    (base :: cb_extra cb) (g_budget_db g) cap_ok HT) as Hres.
  pose proof (ttl_ms (g_now g)). specialize (Hres ltac:(lia) (money _) Hdl Hbk).
  change (redis_ms g) with (gw_ms w) in Ha.
  destruct (Tracker.Reserve _ _ _ team cap dl (g_budget_db g)) as [[[r res]|e] d1] eqn:HR; cbn [fst snd] in Hres.
  2:{ simplify_eq. exists cb. split_and!; done. }
  destruct (Tracker.Allowed res) eqn:Hal; cbn [negb] in Ha; simplify_eq.
  - rewrite (Reserve_handle _ _ _ _ _ _ _ _ _ _ HR Hal) in *. eexists. split_and!; [done|done|done|].
    eapply books_perm; [|exact Hres]. cbn [Tracker.granted with_extra cb_extra option_list]. solve_Permutation.
  - exists cb. split_and!; try done.
    by rewrite (Reserve_refused _ _ _ _ _ _ _ _ _ _ HR Hal) in Hres.
Qed.

#[local] Existing Instance handler_world.

Lemma keeps_wait d (w : W) : keeps w (wait d w).2.
Proof.
  cbn. pose proof (sur_pause_later (hw_now w) d). destruct (sur_pause (hw_now w) d) as [b t].
  by apply keeps_frame.
Qed.

Lemma keeps_chaos ch p m (w : W) : keeps w (Chaos.Apply ch p m w).2.
Proof.
  unfold Chaos.Apply. destruct (negb _); [reflexivity|]. destruct (find_first _ _) as [rule|]; [|reflexivity].
  destruct (bool_decide _); [reflexivity|]. destruct (bool_decide _); [|reflexivity].
  pose proof (keeps_wait (x_Latency rule) w) as Hw. destruct (wait _ w) as [[] w1]; exact Hw.
Qed.

Lemma keeps_call {X} (upstream : string → Request → nat → answer X) kept req prov cand (w : W) :
  (∀ x w, hw_gw (kept x w) = hw_gw w) →
  keeps w (hw_call hd upstream kept req prov cand w).2.
Proof.
  intros Hk. unfold hw_call.
  pose proof (keeps_chaos (h_chaos hd) (c_Provider cand) (c_Model cand) (start_call w)) as Hc.
  assert (keeps w (start_call w)) as H0 by (by apply keeps_frame).
  destruct (Chaos.Apply _ _ _ _) as [inj w1]. cbn [snd] in Hc.
  etransitivity; [exact H0|]. etransitivity; [exact Hc|]. clear H0 Hc.
  destruct inj as [|e|]; [|by apply keeps_frame|by apply keeps_frame].
  set (a := upstream _ _ _).
  assert (∀ c', keeps w1 (reached c' (an_elapsed a) w1)) as Hr.
  { intros c'. apply keeps_frame; [|done|done]. cbn. unfold hw_now. lia. }
  etransitivity; [apply Hr|]. destruct (an_result a) as [[x|e]|]; cbn [snd]; [|by apply keeps_frame..].
  apply keeps_frame; unfold hw_now; by rewrite Hk.
Qed.

Lemma keeps_run {X} (upstream : string → Request → nat → answer X) kept req chain (w : W) :
  (∀ x w, hw_gw (kept x w) = hw_gw w) →
  keeps w (run_chain hd upstream kept req chain w).2.
Proof.
  intros Hk. unfold run_chain, runChain.
  apply (walk_preserves (ChainWorld0 := handler_chain hd upstream kept req) keeps (λ _, True));
    [exact keeps_wait|reflexivity|exact keeps_allow|exact keeps_report|exact keeps_admit| |].
  - intros p cand w0 w0' _ _. by apply keeps_call.
  - by apply Forall_true.
Qed.

Lemma after_response_gw rq req m key r resp (w : W) :
  hw_gw (after_response ToLower hd rq req m key r resp w) = hw_gw w.
Proof.
  unfold after_response, storeInCache. destruct key; [|done]. cbn.
  destruct (h_cache hd) as [p|]; [|done]. destruct (negb _); [done|]. by destruct (TTLFor _ _ _ _ _).
Qed.

Lemma keeps_complete completions rq req requested chain key r m wr (w : W) :
  keeps w (complete say ToLower accepts hd completions rq req requested chain key r m wr w).2.
Proof.
  unfold complete.
  pose proof (keeps_run completions keep_response (toProviderRequest req) chain w (λ _ _, eq_refl)) as Hr.
  destruct (run_chain _ _ _ _ _ _) as [[[o fs] ev] w1]. cbn [snd] in Hr.
  destruct o as [[resp|] served|err|]; cbn [snd chain_failed]; try done.
  - etransitivity; [exact Hr|]. apply keeps_frame; unfold hw_now; by rewrite after_response_gw.
  - etransitivity; [exact Hr|]. by apply keeps_frame.
  - etransitivity; [exact Hr|]. by apply keeps_frame.
Qed.

Lemma keeps_streaming streams rq req requested chain key r m wr (w : W) :
  keeps w (streamChatCompletions say ToLower accepts hd streams rq req requested chain key r m wr w).2.
Proof.
  unfold streamChatCompletions.
  pose proof (keeps_run streams (λ _ w, w) (toProviderRequest req) chain w (λ _ _, eq_refl)) as Hr.
  destruct (run_chain _ _ _ _ _ _) as [[[o fs] ev] w1]. cbn [snd] in Hr.
  destruct o as [[s|] served|err|]; cbn [snd chain_failed]; try done.
  2, 3: etransitivity; [exact Hr|]; by apply keeps_frame.
  etransitivity; [exact Hr|]. set (out := serve_stream _ _ _ _ _ _ _ _ _ _ _ _).
  assert (∀ w2, hw_gw w2 = hw_gw (set_now (hw_now w1 + Z.of_N (op_total s)) w1) → keeps w1 w2) as Hk.
  { intros w2 He. apply keeps_frame; unfold hw_now in *; rewrite He; cbn; try done. lia. }
  apply Hk. destruct (sd_kept out); rewrite ?after_response_gw; by destruct (sd_health out).
Qed.
End ledger.

(** ** What the request moved *)

(** From [w] to [w'], the spend counter of the month the request came in gained
    [cost], and no other month's counter of the team moved; for counters that
    live until [T], within two days. *)
Definition charged (team : string) (w w' : W) (cost : Z) : Prop :=
  ∀ T c, T ≤ gw_ms w + grace_ms → gw_ms w' < T →
  (∀ p, 0 ≤ c p ≤ int64_max ∧
        Tracker.counter_until (gw_ms w) T (Tracker.periodKey team p) (c p) (g_budget_db (hw_gw w))) →
  ∀ p, Tracker.counter_until (gw_ms w') T (Tracker.periodKey team p)
         (plus_cost c (Tracker.currentPeriod (hw_now w)) cost p) (g_budget_db (hw_gw w')).

Lemma charged_nothing team (w w' : W) :
  hw_now w ≤ hw_now w' → g_budget_db (hw_gw w') = g_budget_db (hw_gw w) → charged team w w' 0.
Proof.
  intros Hn Hd T c _ HT Hc p. unfold plus_cost. rewrite Hd.
  replace (c p + (if decide _ then 0 else 0)) with (c p) by (case_decide; lia).
  eapply Tracker.counter_until_le; [by apply gw_ms_mono|apply Hc].
Qed.

(** Steps before and after that leave the clock and the counters alone. *)
Lemma charged_frame team (w0 w w' w1 : W) cost :
  charged team w w' cost → hw_now w0 = hw_now w → hw_now w1 = hw_now w' →
  g_budget_db (hw_gw w0) = g_budget_db (hw_gw w) → g_budget_db (hw_gw w1) = g_budget_db (hw_gw w') →
  charged team w0 w1 cost.
Proof.
  intros Hch Hn0 Hn1 Hd0 Hd1 T c. unfold gw_ms, redis_ms, hw_now in *. rewrite Hn0, Hn1, Hd0, Hd1.
  apply (Hch T c).
Qed.

Lemma Cost_max calc model i o est : Cost.Cost calc model i o = Ok est → est ≤ int64_max.
Proof.
  unfold Cost.Cost. destruct (Cost.pricing calc !! model); [|done]. intros [= <-].
  pose proof (wrap64_range (wrap64 (i * Cost.InputPer1M p) + wrap64 (o * Cost.OutputPer1M p))) as [Hlo Hhi].
  set (x := wrap64 _) in *. unfold int64_min, int64_max, Cost.microsPerUnit in *.
  Z.to_euclidean_division_equations. lia.
Qed.

Section budgeted.
Context (money : ∀ t, clear_cut (sur_budget_net t)) (settles : ∀ n, sur_settle_net n = Replied).

(** The counters after an answer of [Reserve], for any [T] and [c] they are
    measured by. *)
Lemma reserve_books t (w : W) est T c :
  let cap := t_MonthlyBudgetMicros t in
  let r := Tracker.Reserve (hw_now w) (gw_ms w) (sur_budget_net (hw_now w)) (t_ID t) cap est
             (g_budget_db (hw_gw w)) in
  0 < cap ≤ int64_max → est ≤ int64_max → T ≤ gw_ms w + grace_ms → gw_ms w < T →
  (∀ p, 0 ≤ c p ≤ int64_max ∧
        Tracker.counter_until (gw_ms w) T (Tracker.periodKey (t_ID t) p) (c p) (g_budget_db (hw_gw w))) →
  books (t_ID t) cap T c (gw_ms w) (Tracker.granted r.1) r.2.
Proof.
  intros cap r Hcap Hest HT1 HT2 Hc. rewrite <- (app_nil_r (Tracker.granted r.1)).
  pose proof (ttl_ms (hw_now w)). apply books_reserve; try done; [lia|].
  split; try done.
  - intros p. unfold owed. cbn. rewrite Z.add_0_r. apply Hc.
  - intros p. apply Hc.
Qed.

Lemma books_counters team cap T c t (d : RedisMap.db Z) p :
  books team cap T c t [] d → Tracker.counter_until t T (Tracker.periodKey team p) (c p) d.
Proof.
  intros Hb. pose proof (bk_counter _ _ _ _ _ _ _ Hb p) as Hp. unfold owed in Hp. cbn in Hp.
  by rewrite Z.add_0_r in Hp.
Qed.

(** A reservation that was not granted. *)
Lemma refused_charged t (w : W) est :
  let cap := t_MonthlyBudgetMicros t in
  let r := Tracker.Reserve (hw_now w) (gw_ms w) (sur_budget_net (hw_now w)) (t_ID t) cap est
             (g_budget_db (hw_gw w)) in
  0 < cap ≤ int64_max → est ≤ int64_max → Tracker.granted r.1 = [] →
  charged (t_ID t) w (set_budget None r.2 w) 0.
Proof.
  intros cap r Hcap Hest Hg T c HT1 HT2 Hc p. change (gw_ms (set_budget None r.2 w)) with (gw_ms w) in *.
  pose proof (reserve_books t w est T c Hcap Hest HT1 HT2 Hc) as Hb. cbv zeta in Hb. fold cap in Hb. fold r in Hb. rewrite Hg in Hb.
  replace (plus_cost c _ 0 p) with (c p) by (unfold plus_cost; case_decide; lia).
  by apply (books_counters _ cap).
Qed.

(** A granted one, the serving path, and the settlement. *)
Lemma settled_charged t req (w w' : W) m est d base cost :
  let cap := t_MonthlyBudgetMicros t in
  let r := Tracker.Reserve (hw_now w) (gw_ms w) (sur_budget_net (hw_now w)) (t_ID t) cap est
             (g_budget_db (hw_gw w)) in
  0 < cap ≤ int64_max → est ≤ int64_max →
  Tracker.granted r.1 = [base] → r.2 = d → Tracker.r_period base = Tracker.currentPeriod (hw_now w) →
  (∀ T c, keeps (t_ID t) cap T c base (start_budget t req est d w) w') →
  mt_costMicros m = cost → 0 ≤ cost → cap + cost ≤ int64_max →
  charged (t_ID t) w (settle_budget (Some base) m w') cost.
Proof.
  intros cap r Hcap Hest Hg Hd Hp0 Hk Hm Hc0 Hmax T c HT1 HT2 Hc p.
  change (gw_ms (settle_budget (Some base) m w')) with (gw_ms w') in *.
  destruct (Hk T c) as [Hn Hin]. change (hw_now (start_budget t req est d w)) with (hw_now w) in Hn.
  assert (gw_ms w < T) as HT0 by (pose proof (gw_ms_mono _ _ Hn); lia).
  pose proof (reserve_books t w est T c Hcap Hest HT1 HT0 Hc) as Hb. cbv zeta in Hb. fold cap in Hb. fold r in Hb. rewrite Hg, Hd in Hb.
  destruct Hin as [_ (cb & Hcb & _ & _ & Hbk)]; [done| |].
  { split; [done|]. eexists. split_and!; [reflexivity|done|done|]. exact Hb. }
  cbn [settle_budget set_budget set_gw hw_gw with_budget g_budget_db]. rewrite Hcb, Hm.
  rewrite <- Hp0. apply (books_counters _ (cap + cost)). by apply books_settle_request.
Qed.

Lemma with_budget_held_charged t req (serve : requestMetrics → writer → W → settled) m wr w :
  let cap := t_MonthlyBudgetMicros t in
  0 < cap ≤ int64_max → mt_costMicros m = 0 →
  (∀ T c base m wr w, keeps (t_ID t) cap T c base w (serve m wr w).2) →
  let '(_, m', _, w') := with_budget_held say accepts hd t req serve m wr w in
  0 ≤ mt_costMicros m' → cap + mt_costMicros m' ≤ int64_max →
  charged (t_ID t) w w' (mt_costMicros m').
Proof.
  intros cap Hcap Hm Hserve. unfold with_budget_held, reserveBudget. fold cap.
  destruct (h_DefaultMaxTokensFor hd _ (r_Model req)) as [dm|].
  2:{ cbn. intros _ _. rewrite Hm. by apply charged_nothing. }
  destruct (Cost.Cost _ _ _ _) as [est|e] eqn:Hcost.
  2:{ cbn. intros _ _. rewrite Hm. by apply charged_nothing. }
  apply Cost_max in Hcost.
  change (g_now (hw_gw w)) with (hw_now w). change (redis_ms (hw_gw w)) with (gw_ms w).
  pose proof (refused_charged t w est Hcap Hcost) as Href. cbv zeta in Href. fold cap in Href.
  pose proof (λ w' m' base cost, settled_charged t req w w' m' est
    (Tracker.Reserve (hw_now w) (gw_ms w) (sur_budget_net (hw_now w)) (t_ID t) cap est (g_budget_db (hw_gw w))).2
    base cost Hcap Hcost) as Hset.
  cbv zeta in Hset. fold cap in Hset.
  destruct (Tracker.Reserve _ _ _ _ _ _ _) as [[[r res]|e] d'] eqn:HR; cbn [fst snd] in *.
  2:{ intros _ _. rewrite Hm. by apply Href. }
  destruct (Tracker.Allowed res) eqn:Ha; cbn [negb].
  2:{ intros _ _. rewrite Hm. apply Href. by rewrite (Reserve_refused _ _ _ _ _ _ _ _ _ _ HR Ha). }
  pose proof (Reserve_handle _ _ _ _ _ _ _ _ _ _ HR Ha) as ->.
  set (wr' := if Qle_bool _ _ then _ else _).
  pose proof (λ T c base, Hserve T c base m wr' (start_budget t req est d' w)) as Hk.
  destruct (serve m wr' (start_budget t req est d' w)) as [[[actual m'] wr''] w']. cbn [snd] in Hk.
  intros H0 Hmax. by eapply Hset.
Qed.

Lemma serve_hit_free rq req r e m wr (w : W) :
  let '(m', _, w') := serve_hit accepts hd rq req r e m wr w in
  mt_costMicros m' = mt_costMicros m ∧ hw_gw w' = hw_gw w ∧ hw_rate w' = hw_rate w.
Proof.
  unfold serve_hit, serveFromCache, serveStreamFromCache. destruct (r_Stream req); [|done].
  destruct (replay_parts _ _ _ _ _ _ _) as [[ok first] wr1]. destruct (negb ok); [done|].
  destruct (writeSSEJSON _ _ _) as [ok2 wr2]. destruct (negb ok2); [done|].
  destruct (write _ _ _) as [ok3 wr3]. by destruct (negb ok3).
Qed.

Lemma consultCache_frame team req m (w : W) :
  let '(_, _, m', w') := consultCache hd team req m w in
  mt_costMicros m' = mt_costMicros m ∧ hw_gw w' = hw_gw w ∧ hw_rate w' = hw_rate w.
Proof.
  unfold consultCache. destruct (h_cache hd) as [[lc emb]|], team as [t|]; try done.
  by destruct (Lookup _ _ _ _) as [r c].
Qed.

Lemma authorized_request_charged completions streams rq req t prov m wr (w : W) :
  let cap := t_MonthlyBudgetMicros t in
  0 < cap ≤ int64_max → mt_costMicros m = 0 →
  let '(m', _, w') := authorized_request say ToLower accepts hd completions streams rq req t prov m wr w in
  0 ≤ mt_costMicros m' → cap + mt_costMicros m' ≤ int64_max →
  charged (t_ID t) w w' (mt_costMicros m').
Proof.
  intros cap Hcap Hm. unfold authorized_request.
  destruct (chainFor _ _ _ _) as [|c0 chain] eqn:Hch.
  { intros _ _. rewrite Hm. by apply charged_nothing. }
  rewrite <- Hch. clear Hch.
  pose proof (consultCache_frame (Some t) req m w) as Hcc.
  destruct (consultCache _ _ _ _ _) as [[[key r] m1] w1]. destruct Hcc as (Hm1 & Hg1 & _).
  assert (∀ serve : requestMetrics → writer → W → settled,
    (∀ T c base m wr w, keeps (t_ID t) cap T c base w (serve m wr w).2) →
    let '(m', _, w') := with_tokens_held say accepts hd t req serve m1 wr w1 in
    0 ≤ mt_costMicros m' → cap + mt_costMicros m' ≤ int64_max → charged (t_ID t) w w' (mt_costMicros m')) as Hgo.
  { intros serve Hserve. unfold with_tokens_held.
    destruct (reserveTokens _ _ _ _ _ _ _ _) as [[tokens|status typ h] d].
    2:{ intros _ _. rewrite Hm1, Hm. apply charged_nothing; unfold hw_now; cbn; by rewrite Hg1. }
    pose proof (with_budget_held_charged t req serve m1 wr (set_rate d w1) Hcap) as Hb.
    specialize (Hb ltac:(congruence) Hserve).
    destruct (with_budget_held _ _ _ _ _ _ _ _ _) as [[[actual m'] wr'] w'].
    intros H0 Hmax. specialize (Hb H0 Hmax). eapply charged_frame; [exact Hb|..]; unfold hw_now; cbn;
      rewrite ?Hg1; done. }
  destruct (Hit r), (REntry r) as [e|]; try (by (destruct (r_Stream req); apply Hgo; intros;
    [apply keeps_streaming|apply keeps_complete])).
  pose proof (serve_hit_free rq req r e m1 wr w1) as Hh.
  destruct (serve_hit _ _ _ _ _ _ _ _ _) as [[m2 wr2] w2]. destruct Hh as (Hm2 & Hg2 & _).
  intros _ _. rewrite Hm2, Hm1, Hm. apply charged_nothing; unfold hw_now; by rewrite Hg2, Hg1.
Qed.
End budgeted.

(** C6: a team pays for exactly what its request reports, on every path.
    Whatever body, headers, configuration, provider answers, injected faults,
    panics, retries, fallbacks and disconnects a chat completion meets, and
    however many months the clock passes into, the request leaves the spend
    counter of the month it came in at its old value plus the cost on its
    metrics (zero for one that was refused, failed, panicked or was answered
    from the cache), and every other counter of the team where it was.  The
    provisos: every budget reservation is answered or never runs (a lost or
    repeated one strands what it reserved, as [ledger_exact_and_capped] accounts
    for); every settlement runs once and is answered; the team has a positive
    cap; the metrics start at no cost and end at a cost that is not negative (no
    overflow of a price) and fits in 64 bits on top of the cap; the counters start
    at no less than zero; and the request ends within two days, while they live.
    It is the request's own commands that are followed: interleaved with those
    of others they add up, as [ledger_exact_and_capped] shows. *)
Theorem request_pays_its_cost completions streams rq t m wr (w : W)
    (team : rq_team rq = Some t) (cap : 0 < t_MonthlyBudgetMicros t ≤ int64_max)
    (fresh : mt_costMicros m = 0)
    (money : ∀ t, clear_cut (sur_budget_net t)) (settles : ∀ n, sur_settle_net n = Replied) :
  let '(m', _, w') := ChatCompletions say ToLower accepts hd completions streams rq m wr w in
  0 ≤ mt_costMicros m' → t_MonthlyBudgetMicros t + mt_costMicros m' ≤ int64_max →
  charged (t_ID t) w w' (mt_costMicros m').
Proof.
  unfold ChatCompletions. set (w0 := begin_request w).
  assert (charged (t_ID t) w w0 0) as Hnone by (by apply charged_nothing).
  destruct (decode _ _ _) as [req|e]; [|by rewrite fresh].
  destruct (do_route _ _ _ _ _ _ _) as [[req' m1]|wr1] eqn:Hr; [|by intros _ _; cbn; rewrite fresh].
  assert (mt_costMicros m1 = 0) as Hm1.
  { unfold do_route in Hr. repeat case_match; by simplify_eq. }
  rewrite team. cbn [authorizeModel].
  destruct (AllowsModel t _); [|by rewrite Hm1].
  destruct (resolve _ _ _ _ _ _) as [prov|wr1]; [|by rewrite Hm1].
  pose proof (authorized_request_charged money settles completions streams rq req' t prov m1 wr w0 cap Hm1) as Ha.
  destruct (authorized_request _ _ _ _ _ _ _ _ _ _ _ _ _) as [[m' wr'] w'].
  intros H0 Hmax. by eapply charged_frame; [exact (Ha H0 Hmax)|..].
Qed.

(** ** What the provider paths leave of the metrics

    A field that serving and pricing do not touch stays as it was. *)
Section field.
Context {A : Type} (f : requestMetrics → A).
Context (served_field : ∀ p model fb time u m, f (m_served p model fb time u m) = f m).
Context (priced_field : ∀ cost savings delta m, f (m_priced cost savings delta m) = f m).

Lemma recordCost_field calc m model u m' :
  recordCost calc (Some m) model u = Some m' → f m' = f m.
Proof.
  unfold recordCost, recordRoutingSavings. intros Hr. repeat case_match; simplify_eq; by rewrite ?priced_field.
Qed.

Lemma default_recordCost_field calc m model u :
  f (default m (recordCost calc (Some m) model u)) = f m.
Proof. destruct (recordCost _ _ _ _) eqn:Hr; [|done]. by apply recordCost_field in Hr. Qed.

Lemma complete_field completions rq req requested chain key r m wr (w : W) :
  f (complete say ToLower accepts hd completions rq req requested chain key r m wr w).1.1.2 = f m.
Proof.
  unfold complete. destruct (run_chain _ _ _ _ _ _) as [[[o fs] ev] w1].
  destruct o as [[resp|] served|err|]; try done; cbn [fst snd chain_failed];
    by rewrite ?default_recordCost_field, ?served_field.
Qed.

Lemma streaming_field streams rq req requested chain key r m wr (w : W) :
  f (streamChatCompletions say ToLower accepts hd streams rq req requested chain key r m wr w).1.1.2
  = f m.
Proof.
  unfold streamChatCompletions. destruct (run_chain _ _ _ _ _ _) as [[[o fs] ev] w1].
  destruct o as [[s|] served|err|]; try done; cbn [fst snd chain_failed]; [|by apply served_field].
  unfold serve_stream.
  destruct (stream_loop _ _ _ _ _ _ _ _) as [[exit st] wr1]. destruct exit; cbn [sd_metrics]; rewrite ?served_field; try done.
  destruct (write _ _ _) as [ok wr2]. destruct (negb ok); cbn [sd_metrics]; by rewrite default_recordCost_field, !served_field.
Qed.

Lemma with_tokens_held_field t req (serve : requestMetrics → writer → W → settled) m wr (w : W) :
  (∀ m wr w, f (serve m wr w).1.1.2 = f m) →
  f (with_tokens_held say accepts hd t req serve m wr w).1.1 = f m.
Proof.
  intros Hs. unfold with_tokens_held, with_budget_held.
  destruct (reserveTokens _ _ _ _ _ _ _ _) as [[tokens|status typ h] d]; [|done].
  destruct (reserveBudget _ _ _ _ _ _ _ _) as [[[[rsv est] warn]|status typ h] d1]; [|done].
  set (wr' := if warn then _ else wr). set (w1 := start_budget _ _ _ _ _).
  pose proof (Hs m wr' w1) as Hw. by destruct (serve m wr' w1) as [[[actual m'] wr''] w2].
Qed.

(** Nor do the steps before them. *)
Context (asked_field : ∀ model stream m, f (m_asked model stream m) = f m).
Context (routed_field : ∀ model tier reason baseline m, f (m_routed model tier reason baseline m) = f m).
Context (cached_field : ∀ hit tier embed m, f (m_cached hit tier embed m) = f m).

Lemma authorized_request_field completions streams rq req t prov m wr (w : W) :
  f (authorized_request say ToLower accepts hd completions streams rq req t prov m wr w).1.1 = f m.
Proof.
  unfold authorized_request. destruct (chainFor _ _ _ _) as [|c0 chain]; [done|].
  assert (f (consultCache hd (Some t) req m w).1.2 = f m) as Hc.
  { unfold consultCache. destruct (h_cache hd) as [[lc emb]|]; [|done]. destruct (Lookup _ _ _ _). apply cached_field. }
  destruct (consultCache _ _ _ _ _) as [[[key r] m1] w1]. cbn [fst snd] in Hc. rewrite <- Hc.
  set (serve := if r_Stream req then _ else _).
  assert (f (with_tokens_held say accepts hd t req serve m1 wr w1).1.1 = f m1) as Hgo.
  { apply with_tokens_held_field. intros m2 wr2 w2. subst serve.
    destruct (r_Stream req); [apply streaming_field|apply complete_field]. }
  destruct (Hit r), (REntry r) as [e|]; try exact Hgo. unfold serve_hit, serveStreamFromCache, serveFromCache, entry_metrics.
  repeat case_match; simplify_eq; cbn; by rewrite ?served_field.
Qed.

Lemma ChatCompletions_field completions streams rq m wr (w : W) :
  f (ChatCompletions say ToLower accepts hd completions streams rq m wr w).1.1 = f m.
Proof.
  unfold ChatCompletions. destruct (decode _ _ _) as [req|e]; [|done].
  destruct (do_route _ _ _ _ _ _ _) as [[req' m1]|wr1] eqn:Hr; [|by apply asked_field].
  assert (f m1 = f m) as <-.
  { unfold do_route in Hr. repeat case_match; simplify_eq; by rewrite ?routed_field, ?asked_field. }
  destruct (authorizeModel _ _ _ _ _); [|done]. destruct (resolve _ _ _ _ _ _); [|done].
  apply authorized_request_field.
Qed.
End field.

(** ** Cache hits *)

Lemma Lookup_hit_entry lc embedder key (x : C) :
  Hit (Lookup lc embedder key x).1 = true → is_Some (REntry (Lookup lc embedder key x).1).
Proof. unfold Lookup, finish. repeat case_match; cbn; by eauto. Qed.

Lemma consultCache_hit t req m (w : W) :
  let '(_, r, m', _) := consultCache hd (Some t) req m w in
  (mt_cacheHit m' = Some (Hit r) ∨ Hit r = false ∧ mt_cacheHit m' = mt_cacheHit m) ∧
  (Hit r = true → is_Some (REntry r)).
Proof.
  unfold consultCache. destruct (h_cache hd) as [[lc emb]|]; [|by split; [right|]].
  pose proof (Lookup_hit_entry lc emb (NewKey (team_scope t) (toProviderRequest req)) (hw_cache w)) as Hl.
  destruct (Lookup _ _ _ _) as [r c]. split; [by left|exact Hl].
Qed.

(** ** Who may be called *)

(** Every generation files a tier's entries under the providers that serve
    their models, and no reload moves a model from one provider to another. *)
Record homed : Prop := {
  hm_tiers now m c : c ∈ h_TierFor hd now m → h_ForModel hd now (c_Model c) = Ok (c_Provider c);
  hm_moves now now' m p p' : h_ForModel hd now m = Ok p → h_ForModel hd now' m = Ok p' → p = p'
}.

Section allowed.
Context (t : Team).
Context (home : homed).

Definition permitted (c : Chain.Candidate) : Prop :=
  AllowsProvider t (c_Provider c) = true ∧ AllowsModel t (c_Model c) = true ∧
  ∃ now, h_ForModel hd now (c_Model c) = Ok (c_Provider c).

(** A candidate whose model, whenever it is resolved, leads to a permitted
    call. *)
Definition leads_home (c : Chain.Candidate) : Prop :=
  ∀ now p, h_ForModel hd now (c_Model c) = Ok p → permitted {| c_Provider := p; c_Model := c_Model c |}.

(** The provider calls made from [w] to [w'], all of them permitted. *)
Definition calls_only (w w' : W) : Prop :=
  ∃ calls, g_calls (hw_gw w') = g_calls (hw_gw w) ++ calls ∧ Forall permitted calls.

#[local] Instance calls_only_preorder : PreOrder calls_only.
Proof.
  split.
  - intros w. exists []. by rewrite app_nil_r.
  - intros w1 w2 w3 (l1 & H1 & F1) (l2 & H2 & F2). exists (l1 ++ l2).
    rewrite H2, H1, app_assoc. split; [done|by apply Forall_app].
Qed.

Lemma calls_only_frame (w w' : W) : g_calls (hw_gw w') = g_calls (hw_gw w) → calls_only w w'.
Proof. intros Hc. exists []. by rewrite app_nil_r. Qed.

#[local] Existing Instance handler_world.

Lemma calls_only_chaos ch p m (w : W) : g_calls (hw_gw (Chaos.Apply ch p m w).2) = g_calls (hw_gw w).
Proof.
  unfold Chaos.Apply. destruct (negb _); [done|]. destruct (find_first _ _) as [rule|]; [|done].
  destruct (bool_decide _); [done|]. destruct (bool_decide _); [|done].
  cbn. by destruct (sur_pause (hw_now w) _) as [[] ?].
Qed.

Lemma calls_only_call {X} (upstream : string → Request → nat → answer X) kept req prov cand (w : W) :
  (∀ x w, hw_gw (kept x w) = hw_gw w) → permitted {| c_Provider := prov; c_Model := c_Model cand |} →
  calls_only w (hw_call hd upstream kept req prov cand w).2.
Proof.
  intros Hk Hp. unfold hw_call.
  pose proof (calls_only_chaos (h_chaos hd) (c_Provider cand) (c_Model cand) (start_call w)) as Hc.
  destruct (Chaos.Apply _ _ _ _) as [inj w1]. cbn [snd] in Hc.
  etransitivity; [by apply calls_only_frame; exact Hc|]. clear Hc.
  destruct inj as [|e|]; [|by apply calls_only_frame..].
  set (a := upstream _ _ _).
  transitivity (reached {| c_Provider := prov; c_Model := c_Model cand |} (an_elapsed a) w1).
  - exists [{| c_Provider := prov; c_Model := c_Model cand |}]. split; [reflexivity|by constructor].
  - destruct (an_result a) as [[x|e]|]; cbn [snd]; apply calls_only_frame; rewrite ?Hk; reflexivity.
Qed.

Lemma calls_only_run {X} (upstream : string → Request → nat → answer X) kept req chain (w : W) :
  (∀ x w, hw_gw (kept x w) = hw_gw w) →
  Forall leads_home chain →
  calls_only w (run_chain hd upstream kept req chain w).2.
Proof.
  intros Hk Hch. unfold run_chain, runChain.
  eapply (walk_preserves (ChainWorld0 := handler_chain hd upstream kept req) calls_only); [| | | | | |exact Hch].
  - intros d w0. cbn. destruct (sur_pause _ d). by apply calls_only_frame.
  - reflexivity.
  - intros cand w0. cbn. unfold hw_allow. repeat case_match; try reflexivity. by apply calls_only_frame.
  - intros cand b w0. cbn. unfold hw_report. repeat case_match; try reflexivity; by apply calls_only_frame.
  - intros m w0. cbn. unfold hw_admit. repeat case_match. by apply calls_only_frame.
  - intros p cand w0 w0' Hok Hp. apply calls_only_call; [done|]. by apply (Hok (hw_now w0')).
Qed.

Lemma chainFor_permitted now prov model :
  h_ForModel hd now model = Ok prov →
  Forall leads_home (chainFor hd now (Some t) {| c_Provider := prov; c_Model := model |}).
Proof.
  intros Hprov. apply Forall_forall. intros c Hc now' p Hp. unfold chainFor in Hc.
  apply elem_of_BuildChain in Hc as ([Hin _] & Ha & _). cbn in Ha, Hin. apply andb_true_iff in Ha as [Ha1 Ha2].
  assert (p = c_Provider c) as ->; [|split_and!; [done|done|by exists now']].
  apply elem_of_cons in Hin as [->|Hin]; [by eapply (hm_moves home)|].
  apply (hm_tiers home) in Hin. by eapply (hm_moves home).
Qed.

Lemma calls_only_complete completions rq req requested chain key r m wr (w : W) :
  Forall leads_home chain →
  calls_only w (complete say ToLower accepts hd completions rq req requested chain key r m wr w).2.
Proof.
  intros Hch. unfold complete.
  pose proof (calls_only_run completions keep_response (toProviderRequest req) chain w (λ _ _, eq_refl) Hch) as Hr.
  destruct (run_chain _ _ _ _ _ _) as [[[o fs] ev] w1]. cbn [snd] in Hr.
  destruct o as [[resp|] served|err|]; cbn [snd chain_failed]; try done.
  etransitivity; [exact Hr|]. apply calls_only_frame. by rewrite after_response_gw.
Qed.

Lemma calls_only_streaming streams rq req requested chain key r m wr (w : W) :
  Forall leads_home chain →
  calls_only w (streamChatCompletions say ToLower accepts hd streams rq req requested chain key r m wr w).2.
Proof.
  intros Hch. unfold streamChatCompletions.
  pose proof (calls_only_run streams (λ _ w, w) (toProviderRequest req) chain w (λ _ _, eq_refl) Hch) as Hr.
  destruct (run_chain _ _ _ _ _ _) as [[[o fs] ev] w1]. cbn [snd] in Hr.
  destruct o as [[s|] served|err|]; cbn [snd chain_failed]; try done.
  etransitivity; [exact Hr|]. set (out := serve_stream _ _ _ _ _ _ _ _ _ _ _ _).
  apply calls_only_frame. destruct (sd_kept out); rewrite ?after_response_gw; by destruct (sd_health out).
Qed.

Lemma calls_only_held req (serve : requestMetrics → writer → W → settled) m wr (w : W) :
  (∀ m wr w, calls_only w (serve m wr w).2) →
  calls_only w (with_tokens_held say accepts hd t req serve m wr w).2.
Proof.
  intros Hs. unfold with_tokens_held, with_budget_held.
  destruct (reserveTokens _ _ _ _ _ _ _ _) as [[tokens|status typ h] d]; [|by apply calls_only_frame].
  destruct (reserveBudget _ _ _ _ _ _ _ _) as [[[[rsv est] warn]|status typ h] d1]; [|by apply calls_only_frame].
  set (wr' := if warn then _ else wr). set (w1 := start_budget _ _ _ _ _).
  pose proof (Hs m wr' w1) as Hw. destruct (serve m wr' w1) as [[[actual m'] wr''] w2]. cbn [snd] in *.
  transitivity w1; [by apply calls_only_frame|]. etransitivity; [exact Hw|]. by apply calls_only_frame.
Qed.

Lemma authorized_request_calls completions streams rq req prov m wr (w : W) :
  h_ForModel hd (hw_now w) (r_Model req) = Ok prov → mt_cacheHit m ≠ Some true →
  let '(m', _, w') := authorized_request say ToLower accepts hd completions streams rq req t prov m wr w in
  calls_only w w' ∧ (mt_cacheHit m' = Some true → g_calls (hw_gw w') = g_calls (hw_gw w)).
Proof.
  intros Hprov Hm. unfold authorized_request.
  pose proof (chainFor_permitted (hw_now w) prov (r_Model req) Hprov) as Hch.
  destruct (chainFor _ _ _ _) as [|c0 chain]; [done|].
  pose proof (consultCache_frame (Some t) req m w) as Hcc. pose proof (consultCache_hit t req m w) as Hhit.
  destruct (consultCache _ _ _ _ _) as [[[key r] m1] w1]. destruct Hcc as (_ & Hg1 & _), Hhit as [Hm1 He].
  set (serve := if r_Stream req then _ else _).
  assert (calls_only w (with_tokens_held say accepts hd t req serve m1 wr w1).2) as Hcalls.
  { transitivity w1; [by apply calls_only_frame; rewrite Hg1|]. apply calls_only_held. intros m2 wr2 w2.
    subst serve. destruct (r_Stream req); [by apply calls_only_streaming|by apply calls_only_complete]. }
  assert (mt_cacheHit (with_tokens_held say accepts hd t req serve m1 wr w1).1.1 = mt_cacheHit m1) as Hch1.
  { apply (with_tokens_held_field mt_cacheHit). intros m2 wr2 w2. subst serve.
    destruct (r_Stream req); [by apply streaming_field|by apply complete_field]. }
  destruct (Hit r) eqn:Hh.
  - destruct (He eq_refl) as [e ->]. pose proof (serve_hit_free rq req r e m1 wr w1) as Hs.
    destruct (serve_hit _ _ _ _ _ _ _ _ _) as [[m2 wr2] w2]. destruct Hs as (_ & Hg2 & _).
    rewrite Hg2, Hg1. split; [apply calls_only_frame; by rewrite Hg2, Hg1|done].
  - assert (mt_cacheHit m1 ≠ Some true) as Hno by (destruct Hm1 as [->|[_ ->]]; done).
    destruct (with_tokens_held _ _ _ _ _ _ _ _ _) as [[m2 wr2] w2]. cbn [fst snd] in *.
    split; [done|]. by rewrite Hch1.
Qed.
End allowed.

(** What [ChatCompletions] turns away before it looks at the cache: a body that
    does not decode, a tier nothing serves, a model outside the team's
    allowlist, one nobody serves, a chain with no provider the team may use. *)
Definition turned_away (rq : http_request) (t : Team) (m : requestMetrics) (wr : writer) (w : W) : Prop :=
  match decode (rq_contentType rq) (rq_body rq) (rq_limited rq) with
  | Err _ => True
  | Ok req =>
      match do_route say accepts hd rq req (m_asked (r_Model req) (r_Stream req) m) wr (begin_request w) with
      | Err _ => True
      | Ok (req', _) =>
          AllowsModel t (r_Model req') = false ∨
          match h_ForModel hd (hw_now w) (r_Model req') with
          | Err _ => True
          | Ok prov => chainFor hd (hw_now w) (Some t) {| c_Provider := prov; c_Model := r_Model req' |} = []
          end
      end
  end.

(** C7: a team's traffic reaches only what the team may use.  Every provider a
    chat completion calls, whether asked for, routed to or fallen back to, is
    one the team's allowlist names, with a model it names, and is a provider
    that served that model when it was resolved.  A request the team may not
    make (its model, as asked for or as routed, is not on the allowlist, or no
    candidate of its chain is with an allowed provider) calls none, nor does one
    that does not decode or names nothing that is served; and a request answered
    from the cache calls none either.  The configuration is read live, at the
    time of each call.  That it is [homed] is assumed: each generation resolves a
    tier's entries to their own providers, which loading checks
    ([reloads_keep_consistent]), and no reload during the request moves a model
    from one provider to another; the metrics start with no cache verdict. *)
Theorem request_calls_only_allowed completions streams rq t m wr (w : W) (team : rq_team rq = Some t)
    (fresh : mt_cacheHit m = None) (home : homed) :
  let '(m', _, w') := ChatCompletions say ToLower accepts hd completions streams rq m wr w in
  ∃ calls, g_calls (hw_gw w') = g_calls (hw_gw w) ++ calls ∧ Forall (permitted t) calls ∧
    (turned_away rq t m wr w → calls = []) ∧ (mt_cacheHit m' = Some true → calls = []).
Proof.
  unfold ChatCompletions, turned_away. set (w0 := begin_request w).
  assert (∀ x (P : Prop), mt_cacheHit x = mt_cacheHit m → ∃ calls, g_calls (hw_gw w0) = g_calls (hw_gw w) ++ calls ∧
    Forall (permitted t) calls ∧ (P → calls = []) ∧ (mt_cacheHit x = Some true → calls = [])) as Hnone.
  { intros x P Hx. exists []. rewrite app_nil_r. split_and!; [done|constructor|done|done]. }
  destruct (decode _ _ _) as [req|e]; [|by apply Hnone].
  destruct (do_route _ _ _ _ _ _ _) as [[req' m1]|wr1] eqn:Hr; [|by apply Hnone].
  assert (mt_cacheHit m1 = mt_cacheHit m) as Hm1.
  { unfold do_route in Hr. repeat case_match; by simplify_eq. }
  rewrite team. cbn [authorizeModel].
  destruct (AllowsModel t _) eqn:Hal; [|by apply Hnone]. unfold resolve. change (hw_now w0) with (hw_now w).
  destruct (h_ForModel hd (hw_now w) (r_Model req')) as [prov|e] eqn:Hprov; [|by apply Hnone].
  pose proof (authorized_request_calls t home completions streams rq req' prov m1 wr w0 Hprov) as Ha.
  specialize (Ha ltac:(by rewrite Hm1, fresh)).
  destruct (chainFor hd (hw_now w) (Some t) {| c_Provider := prov; c_Model := r_Model req' |}) as [|c0 chain] eqn:Hch.
  { unfold authorized_request. change (hw_now w0) with (hw_now w). rewrite Hch. by apply Hnone. }
  destruct (authorized_request _ _ _ _ _ _ _ _ _ _ _ _ _) as [[m' wr'] w'].
  destruct Ha as [(calls & Hc & Hf) Hhit]. exists calls. split_and!; [exact Hc|done|by intros [|]|].
  intros Ht. specialize (Hhit Ht). rewrite Hc in Hhit. rewrite <- (app_nil_r (g_calls (hw_gw w0))) in Hhit at 2.
  by apply app_inv_head in Hhit.
Qed.
End facts.
