(* ===== verification/HandlerResponse.v ===== *)
(** * The response of a chat completion is a well-formed HTTP response

    [net/http] ignores a header set after the status line and logs a second
    status; the operations a handler performs must set headers first, then the
    status at most once, then body bytes.  On every path [ChatCompletions] does,
    and it leaves no plain request unanswered unless the call panicked. *)

From Stdlib Require Import QArith.
From S2P Require Import Prelude Redis Text Json Float32 Budget Breaker BreakerStore BreakerRegistry.
From S2P Require Import Provider Retry Health Chain Wire Sse Metrics RateLimit Auth ChainBudget Fallback.
From S2P Require Import Gateway Admission Router CacheKey CacheStore CacheLookup Chaos Stream Decode Quality Handler.
Open Scope Z_scope.

(** [net/http] panics on any other status. *)
Definition valid_status (status : Z) : bool := (100 <=? status) && (status <=? 999).

(** Still setting headers; status sent; or an operation out of order (a flush
    before the status would send a 200 nobody decided on). *)
Inductive phase := Headers | Body | Broken.

Definition advance (p : phase) (o : op) : phase :=
  match p, o with
  | Headers, SetHeader _ _ => Headers
  | Headers, WriteHeader status => if valid_status status then Body else Broken
  | Headers, Write _ _ => Body
  | Body, Write _ _ | Body, Flush => Body
  | _, _ => Broken
  end.

Definition phase_of (w : writer) : phase := foldl advance Headers (wr_ops w).

Lemma phase_emit o w : phase_of (emit o w) = advance (phase_of w) o.
Proof. unfold phase_of, emit. cbn. by rewrite foldl_app. Qed.

Section writing.
Context (accepts : nat → option nat).

Lemma phase_write b w : phase_of w ≠ Broken → phase_of (write accepts b w).2 = Body.
Proof.
  intros Hw. unfold write. destruct (accepts _); unfold phase_of in *; cbn; rewrite foldl_app; cbn;
    by destruct (foldl advance Headers (wr_ops w)).
Qed.

Lemma phase_flush w : phase_of w = Body → phase_of (emit Flush w) = Body.
Proof. intros Hw. by rewrite phase_emit, Hw. Qed.

Lemma phase_writeSSEJSON v w : phase_of w ≠ Broken → phase_of (writeSSEJSON accepts v w).2 = Body.
Proof.
  intros Hw. unfold writeSSEJSON. pose proof (phase_write "data: " w Hw) as H1.
  destruct (write accepts "data: " w) as [ok w1]. cbn [snd] in H1. destruct (negb ok); [done|].
  pose proof (phase_write (marshal v) w1 ltac:(by rewrite H1)) as H2.
  destruct (write accepts (marshal v) w1) as [ok2 w2]. cbn [snd] in H2. destruct (negb ok2); [done|].
  apply phase_write. by rewrite H2.
Qed.

Lemma phase_writeError status typ msg w :
  valid_status status = true → phase_of w = Headers → phase_of (writeError accepts status typ msg w) = Body.
Proof. intros Hs Hw. unfold writeError, encode. apply phase_write. rewrite !phase_emit, Hw. cbn. by rewrite Hs. Qed.

Lemma statusForKind_valid k : valid_status (statusForKind k) = true.
Proof. by destruct k. Qed.

Lemma phase_writeProviderError err w :
  phase_of w = Headers → phase_of (writeProviderErrorBody accepts err w) = Body.
Proof.
  intros Hw. unfold writeProviderErrorBody. destruct (asProviderError err) as [e|]; [|by apply phase_writeError].
  apply phase_writeError; [apply statusForKind_valid|]. destruct (retryAfterHeader err); [|done]. by rewrite phase_emit, Hw.
Qed.

Lemma phase_writeSuccess id created resp w :
  phase_of w = Headers → phase_of (writeSuccess accepts id created resp w) = Body.
Proof. intros Hw. unfold writeSuccess, encode. apply phase_write. by rewrite phase_emit, Hw. Qed.

Lemma phase_stream_headers w : phase_of w = Headers → phase_of (stream_headers w) = Headers.
Proof. intros Hw. unfold stream_headers. by rewrite !phase_emit, Hw. Qed.

(** The loop: nothing is written before the first chunk that is sent. *)
Definition loop_phase (s : loop_state) : phase := if ls_sentAny s then Body else Headers.

Lemma phase_stream_loop id created model chunks ending : ∀ s w,
  phase_of w = loop_phase s →
  let '(exit, s', w') := stream_loop accepts id created model chunks ending s w in
  match exit with
  | Completed | Disconnected => phase_of w' = loop_phase s'
  | FailedFirst _ | FailedLater _ | WriteFailed => phase_of w' = Body
  end.
Proof.
  induction chunks as [|c rest IH]; intros s w Hw; cbn [stream_loop].
  { destruct ending as [|e []]; [done|done|]. unfold loop_phase in Hw.
    destruct (ls_sentAny s); cbn [negb]; [|by apply phase_writeProviderError].
    apply phase_flush, phase_writeSSEJSON. by rewrite Hw. }
  destruct (empty_chunk c); [by apply IH|].
  set (v := chunk_json _). assert (phase_of w ≠ Broken) as Hb by (rewrite Hw; unfold loop_phase; by case_match).
  pose proof (phase_writeSSEJSON v w Hb) as Hv. destruct (writeSSEJSON accepts v w) as [ok w1]. cbn [snd] in Hv.
  destruct (negb ok); [done|]. apply IH. rewrite phase_flush by done. done.
Qed.

Lemma phase_serve_stream calc id created prov model fb first req st m w :
  phase_of w = Headers →
  phase_of (sd_writer (serve_stream accepts calc id created prov model fb first req st m w)) ≠ Broken.
Proof.
  intros Hw. unfold serve_stream.
  pose proof (phase_stream_loop (chatCompletionID id) created model (st_chunks st) (st_end st) loop_start
    (stream_headers w) (phase_stream_headers _ Hw)) as Hl.
  destruct (stream_loop _ _ _ _ _ _ _ _) as [[exit s] w1].
  destruct exit; cbn [sd_writer]; rewrite ?Hl; try done; try (unfold loop_phase; by case_match).
  assert (phase_of w1 ≠ Broken) as Hb by (rewrite Hl; unfold loop_phase; by case_match).
  pose proof (phase_write sseDone w1 Hb) as Hd. destruct (write accepts sseDone w1) as [ok w2]. cbn [snd] in Hd.
  destruct (negb ok); cbn [sd_writer]; [by rewrite Hd|]. by rewrite phase_flush by done.
Qed.

Lemma phase_replay_parts id created model parts : ∀ first w,
  phase_of w ≠ Broken →
  let '(ok, _, w') := replay_parts accepts id created model parts first w in
  phase_of w' ≠ Broken ∧ (ok = false → phase_of w' = Body).
Proof.
  induction parts as [|part rest IH]; intros first w Hw; cbn [replay_parts]; [done|].
  set (v := chunk_json _). pose proof (phase_writeSSEJSON v w Hw) as Hv.
  destruct (writeSSEJSON accepts v w) as [ok w1]. cbn [snd] in Hv. destruct (negb ok); [by rewrite Hv|].
  apply IH. by rewrite phase_flush by done.
Qed.

Lemma phase_replay id created e m w :
  phase_of w = Headers → phase_of (serveStreamFromCache accepts id created e m w).2 = Body.
Proof.
  intros Hw. unfold serveStreamFromCache.
  pose proof (phase_replay_parts (chatCompletionID id) created (CacheStore.e_Model e)
    (splitForReplay (CacheStore.e_Response e)) true (stream_headers w)) as Hp.
  specialize (Hp ltac:(by rewrite phase_stream_headers)).
  destruct (replay_parts _ _ _ _ _ _ _) as [[ok first] w1]. destruct Hp as [Hb Hf].
  destruct ok; cbn [negb]; [|by apply Hf].
  set (v := chunk_json _). pose proof (phase_writeSSEJSON v w1 Hb) as Hv.
  destruct (writeSSEJSON accepts v w1) as [ok w2]. cbn [snd] in Hv. destruct ok; cbn [negb]; [|done].
  pose proof (phase_write sseDone (emit Flush w2)) as Hd. rewrite phase_flush in Hd by done.
  specialize (Hd ltac:(done)). destruct (write accepts sseDone (emit Flush w2)) as [ok w3]. cbn [snd] in *.
  destruct (negb ok); cbn [snd]; [done|]. by rewrite phase_flush by done.
Qed.
End writing.

(** ** The whole handler *)
Section handler.
Context {C : Type} `{!EntryStore C} {lua : LuaNumber} {sur : Surroundings}.
Context (say : notice → string) (ToLower : string → string) (accepts : nat → option nat) (hd : Handler).

Abbreviation W := (world C).

Lemma phase_write_error status typ n w :
  valid_status status = true → phase_of w = Headers → phase_of (write_error say accepts status typ n w) = Body.
Proof. apply phase_writeError. Qed.

Lemma phase_write_rejection status typ h w :
  valid_status status = true → phase_of w = Headers → phase_of (write_rejection say accepts status typ h w) = Body.
Proof.
  intros Hs Hw. unfold write_rejection. apply phase_write_error; [done|]. destruct h as [h|]; [|done].
  by rewrite !phase_emit, Hw.
Qed.

(** The admission steps reject with statuses of their own. *)
Lemma reserveTokens_status t tr f fr team dm req (d : RedisMap.db bucket) status typ h d' :
  reserveTokens t tr f fr team dm req d = (Reject status typ h, d') → valid_status status = true.
Proof. unfold reserveTokens, writeRateLimitError, writePriorityShedError. intros H. repeat case_match; by simplify_eq. Qed.

Lemma reserveBudget_status now t f team calc dm req (d : RedisMap.db Z) status typ h d' :
  reserveBudget now t f team calc dm req d = (Reject status typ h, d') → valid_status status = true.
Proof. unfold reserveBudget. intros H. repeat case_match; by simplify_eq. Qed.

Lemma RateLimit_status t f team (d : RedisMap.db bucket) status typ h d' :
  Admission.RateLimit t f team d = (Reject status typ h, d') → valid_status status = true.
Proof.
  unfold Admission.RateLimit, writeRateLimitError, writePriorityShedError. intros H. repeat case_match; by simplify_eq.
Qed.

Lemma route_status tiers health allowed st routing req status typ :
  route tiers health allowed st routing req = Err (status, typ) → valid_status status = true.
Proof. unfold route. intros H. repeat case_match; by simplify_eq. Qed.

Lemma phase_chain_error model fs err w :
  phase_of w = Headers → phase_of (write_chain_error say accepts model fs err w) = Body.
Proof.
  intros Hw. unfold write_chain_error. destruct (asBudgetDenied err); [by apply phase_write_error|].
  destruct (_ && _).
  { unfold writeChainExhaustedError, encode. apply phase_write. by rewrite !phase_emit, Hw. }
  destruct (isBreakerOpen err); [by apply phase_write_error|by apply phase_writeProviderError].
Qed.

(** What a serving path does to a response still at its headers: nothing out
    of order; and it is answered, unless it panicked or streams. *)
Definition answers (streaming : bool) (wr : writer) (w : W) : Prop :=
  phase_of wr ≠ Broken ∧ (streaming = false → phase_of wr = Headers → hw_panicked w = true).

(** A call that hands back nothing has panicked, and a panic stays. *)
Lemma answers_body streaming wr (w : W) : phase_of wr = Body → answers streaming wr w.
Proof. intros Hb. unfold answers. by rewrite Hb. Qed.

Lemma after_response_panicked rq req m key r resp (w : W) :
  hw_panicked (after_response ToLower hd rq req m key r resp w) = hw_panicked w.
Proof.
  unfold after_response, storeInCache. destruct key; [|done]. cbn.
  destruct (h_cache hd) as [p|]; [|done]. destruct (negb _); [done|]. by destruct (TTLFor _ _ _ _ _).
Qed.

Lemma complete_answers completions rq req requested chain key r m wr (w : W) :
  phase_of wr = Headers →
  let out := complete say ToLower accepts hd completions rq req requested chain key r m wr w in
  answers false out.1.2 out.2.
Proof.
  intros Hw. unfold complete. destruct (run_chain _ _ _ _ _ _) as [[[o fs] ev] w1].
  destruct o as [[resp|] served|err|]; cbn [fst snd chain_failed].
  - by apply answers_body, phase_writeSuccess.
  - split; [by rewrite Hw|done].
  - by apply answers_body, phase_chain_error.
  - split; [by rewrite Hw|done].
Qed.

Lemma streaming_answers streams rq req requested chain key r m wr (w : W) :
  phase_of wr = Headers →
  let out := streamChatCompletions say ToLower accepts hd streams rq req requested chain key r m wr w in
  answers true out.1.2 out.2.
Proof.
  intros Hw. unfold streamChatCompletions. destruct (run_chain _ _ _ _ _ _) as [[[o fs] ev] w1].
  destruct o as [[s|] served|err|]; cbn [fst snd chain_failed]; split; try done; try (by rewrite Hw).
  - by apply phase_serve_stream.
  - by rewrite phase_chain_error.
Qed.

Lemma with_tokens_held_answers streaming t req (serve : requestMetrics → writer → W → settled) m wr (w : W) :
  (∀ m wr w, phase_of wr = Headers → let out := serve m wr w in answers streaming out.1.2 out.2) →
  phase_of wr = Headers →
  let '(_, wr', w') := with_tokens_held say accepts hd t req serve m wr w in answers streaming wr' w'.
Proof.
  intros Hs Hw. unfold with_tokens_held, with_budget_held.
  destruct (reserveTokens _ _ _ _ _ _ _ _) as [[tokens|status typ h] d] eqn:Ht.
  2:{ apply answers_body, phase_write_rejection; [by eapply reserveTokens_status|done]. }
  destruct (reserveBudget _ _ _ _ _ _ _ _) as [[[[rsv est] warn]|status typ h] d1] eqn:Hm.
  2:{ apply answers_body, phase_write_rejection; [by eapply reserveBudget_status|done]. }
  set (wr' := if warn then _ else wr). set (w1 := start_budget _ _ _ _ _).
  assert (phase_of wr' = Headers) as Hw' by (subst wr'; destruct warn; [by rewrite phase_emit, Hw|done]).
  pose proof (Hs m wr' w1 Hw') as Ha. destruct (serve m wr' w1) as [[[actual m'] wr''] w2]. exact Ha.
Qed.

Lemma authorized_request_answers completions streams rq req t prov m wr (w : W) :
  phase_of wr = Headers →
  let '(_, wr', w') := authorized_request say ToLower accepts hd completions streams rq req t prov m wr w in
  answers (r_Stream req) wr' w'.
Proof.
  intros Hw. unfold authorized_request. destruct (chainFor _ _ _ _) as [|c0 chain].
  { by apply answers_body, phase_write_error. }
  destruct (consultCache _ _ _ _ _) as [[[key r] m1] w1].
  set (serve := if r_Stream req then _ else _).
  assert (let '(_, wr', w') := with_tokens_held say accepts hd t req serve m1 wr w1 in
    answers (r_Stream req) wr' w') as Hgo.
  { apply with_tokens_held_answers; [|done]. intros m2 wr2 w2 Hw2. subst serve.
    destruct (r_Stream req); [by apply streaming_answers|by apply complete_answers]. }
  destruct (Hit r), (REntry r) as [e|]; try exact Hgo. clear Hgo. unfold serve_hit.
  destruct (r_Stream req).
  - pose proof (phase_replay accepts (rq_id rq) (created w1) e m1 wr Hw) as Hp.
    destruct (serveStreamFromCache _ _ _ _ _ _) as [m2 wr2]. by apply answers_body.
  - cbn [serveFromCache]. by apply answers_body, phase_writeSuccess.
Qed.

Lemma ChatCompletions_answers completions streams rq m wr (w : W) :
  phase_of wr = Headers →
  let streaming := match decode (rq_contentType rq) (rq_body rq) (rq_limited rq) with
                   | Ok req => r_Stream req | Err _ => false end in
  let '(_, wr', w') := ChatCompletions say ToLower accepts hd completions streams rq m wr w in
  answers streaming wr' w'.
Proof.
  intros open. cbn zeta. unfold ChatCompletions.
  destruct (decode _ _ _) as [req|e]; [|by apply answers_body, phase_write_error; [destruct e|]].
  destruct (do_route _ _ _ _ _ _ _) as [[req' m1]|wr1] eqn:Hr; unfold do_route in Hr.
  2:{ apply answers_body. repeat case_match; simplify_eq.
      apply phase_write_error; [by eapply route_status|done]. }
  assert (r_Stream req' = r_Stream req) as <- by (repeat case_match; by simplify_eq).
  destruct (authorizeModel _ _ _ _ _) as [t|wr1] eqn:Ha; unfold authorizeModel in Ha.
  2:{ apply answers_body. repeat case_match; simplify_eq; by apply phase_write_error. }
  destruct (resolve _ _ _ _ _ _) as [prov|wr1] eqn:Hs; unfold resolve in Hs.
  2:{ apply answers_body. repeat case_match; simplify_eq; by apply phase_write_error. }
  by apply authorized_request_answers.
Qed.

(** C8: every chat completion is a well-formed HTTP response.  On every path,
    errors, fallbacks, cache hits and broken connections included, the handler
    sets headers only before the status, sends one valid status, and writes and
    flushes only body bytes after it; and a request that does not stream is always
    answered, unless the call to the provider panicked. *)
Theorem response_well_formed completions streams rq m wr (w : W) (open : phase_of wr = Headers) :
  let streaming := match decode (rq_contentType rq) (rq_body rq) (rq_limited rq) with
                   | Ok req => r_Stream req | Err _ => false end in
  let '(m', wr', w') := ChatCompletions say ToLower accepts hd completions streams rq m wr w in
  phase_of wr' ≠ Broken ∧ (streaming = false → phase_of wr' = Body ∨ hw_panicked w' = true).
Proof.
  pose proof (ChatCompletions_answers completions streams rq m wr w open) as H.
  destruct (ChatCompletions _ _ _ _ _ _ _ _ _ _) as [[m' wr'] w']. destruct H as [H1 H2].
  split; [done|]. intros Hb. destruct (phase_of wr') eqn:Hp; [right|left|]; by auto.
Qed.
End handler.
