(* ===== verification/HandlerRuns.v ===== *)
(** * Runs of the handler

    Concrete chat completions through the whole handler, over the Redis
    instances and the real cache: the witnesses of its theorems, and runs that
    show behaviour the documentation does not promise. *)

From Stdlib Require Import QArith.
From S2P Require Import Prelude Redis Text Json Float32 Budget Breaker BreakerStore BreakerRegistry.
From S2P Require Import Provider Retry Health Chain Wire Sse Metrics RateLimit Auth ChainBudget Books Fallback.
From S2P Require Import Gateway Admission Router CacheKey CacheStore CacheStoreFacts CacheLookup Chaos Stream.
From S2P Require Import Decode Quality Handler HandlerFacts HandlerResponse.
Open Scope Z_scope.

#[local] Existing Instance exact_lua.
#[local] Existing Instance go_redis.

Definition cache_db : Type := RedisMap.db cval.
#[local] Instance demo_entries : EntryStore (cache_world (db := RedisMap.db cval)) := RedisStore demo_store demo_embed.

(** Every round trip replies, nobody leaves, and time passes as asked. *)
#[local] Program Instance calm : Surroundings := {|
  sur_gone _ := false;
  sur_pause now d := (false, now + Z.max 0 d);
  sur_jitter _ n := n - 1;
  sur_breaker_net _ := Replied; sur_budget_net _ := Replied;
  sur_settle_net _ := Replied; sur_rate_net _ := Replied
|}.
Next Obligation. intros. simpl. lia. Qed.
Next Obligation. intros. simpl. lia. Qed.

Definition demo_text (n : notice) : string := "see the documentation".

Definition demo_for_model (m : string) : result go_error string :=
  match gw_resolve m with Some p => Ok p | None => Err (ErrModelNotSupported m) end.

Definition demo_handler : Handler :=
  {| h_ForModel _ := demo_for_model; h_DefaultMaxTokensFor _ := gw_maxTokens;
     h_TierFor _ _ := [gpt4o; llama]; h_TierNamed _ _ := [];
     h_calc _ := gw_calc; h_health := None; h_breakers := Some (gw_bcfg, false); h_chaos := None;
     h_retryConfig := gw_cfg; h_cache := Some (demo_lookup, false);
     h_cacheTTL := {| tp_Default := hour; tp_Max := 24 * hour; tp_Rules := [] |};
     h_routing := None; h_quality := None |}.

Definition demo_team (id : string) (providers models : list string) : Team :=
  {| t_ID := id; t_Name := id; t_OrganizationID := "org1"; t_KeyHash := "#";
     t_AllowedProviders := providers; t_AllowedModels := models;
     t_RateLimits := {| Auth.RPM := 60; Auth.TPM := 100000 |}; t_MonthlyBudgetMicros := 5000000;
     t_Priority := PriorityRealtime; t_IsAdmin := false; t_CacheIsolated := false;
     t_KeySource := "config"; t_KeyMasked := ""; t_KeyCreatedAt := None |}.

Definition both_team : Team := demo_team "acme" ["openai"%string; "groq"%string] ["gpt-4o"%string; "llama-3.3-70b"%string].
Definition openai_team : Team := demo_team "strict" ["openai"%string] ["gpt-4o"%string].

Definition demo_chat (stream : bool) : chatRequest :=
  {| r_Model := "gpt-4o"; r_Messages := [{| m_Role := "user"; m_Content := "hello there" |}];
     r_Temperature := None; r_MaxTokens := 100; r_Stream := stream; r_Stop := [] |}.

Definition demo_http (t : Team) (stream : bool) : http_request :=
  {| rq_team := Some t; rq_id := "req-1"; rq_contentType := "application/json";
     rq_body := marshal (request_json plain (demo_chat stream)); rq_limited := false; rq_cacheTTL := "";
     rq_draw := S754_zero false |}.

Definition demo_start : world (cache_world (db := RedisMap.db cval)) :=
  {| hw_gw := {| g_now := 100 * second; g_cancelled := false; g_reg := ∅; g_breaker_db := ∅;
                 g_budget := None; g_budget_db := ∅; g_calls := []; g_verdicts := [] |};
     hw_rate := ∅;
     hw_cache := {| cw_clock := 100 * second; cw_db := ∅; cw_turns := []; cw_exchange := λ _, NoResponse;
                    cw_events := [] |};
     hw_health := []; hw_time := 0; hw_callStart := 0; hw_panicked := false; hw_samples := [] |}.

Definition demo_usage : Usage := {| u_InputTokens := 1000; u_OutputTokens := 80 |}.

(** openai is down; groq answers in half a second. *)
Definition demo_completions (p : string) (r : Request) (n : nat) : answer Response :=
  {| an_elapsed := 500000000;
     an_result := Some (if bool_decide (p = "groq"%string)
       then Ok {| rs_Content := "General Kenobi."; rs_FinishReason := FinishStop; rs_Usage := demo_usage;
                  rs_Model := pr_Model r; rs_Provider := p; rs_Latency := 480 * millisecond |}
       else Err (ProviderError (NewHTTPError p (pr_Model r) 503 "overloaded"))) |}.

(** openai streams two words and its usage; then the client is gone. *)
Definition demo_streams (gone : bool) (p : string) (r : Request) (n : nat) : answer opened :=
  {| an_elapsed := 100000000;
     an_result := Some (Ok {| op_stream :=
       {| st_chunks := [{| ch_Content := "General "; ch_FinishReason := ""; ch_Usage := None |};
                        {| ch_Content := "Kenobi."; ch_FinishReason := FinishStop; ch_Usage := None |};
                        {| ch_Content := ""; ch_FinishReason := ""; ch_Usage := Some demo_usage |}];
          st_end := if gone then StreamError (OtherError "context canceled") true else StreamEOF |};
       op_first := 50000000; op_total := 900000000 |}) |}.

Definition demo_serve (t : Team) (stream gone : bool) (completions : string → Request → nat → answer Response) w :=
  ChatCompletions demo_text ToLower (λ _, None) demo_handler completions (demo_streams gone)
    (demo_http t stream) (new_metrics (hw_now w)) fresh_writer w.

Definition spent (t : Team) (w : world (cache_world (db := RedisMap.db cval))) : Z :=
  default 0 (rget (redis_ms (hw_gw w)) (Tracker.periodKey (t_ID t) (Tracker.currentPeriod (hw_now w)))
               (g_budget_db (hw_gw w))).

Example demo_fallback :
  let '(m, wr, w) := demo_serve both_team false false demo_completions demo_start in
  g_calls (hw_gw w) = [gpt4o; gpt4o; llama] ∧ mt_costMicros m = 6600 ∧ spent both_team w = 6600 ∧
  mt_fallbackCostDeltaMicros m = Some 3300 ∧ phase_of wr = Body.
Proof. vm_compute. split_and!; reflexivity. Qed.

(** ** Witnesses *)

Definition demo_run := demo_serve both_team false false demo_completions demo_start.

Lemma request_pays_its_cost_witness :
  charged (t_ID both_team) demo_start demo_run.2 6600 ∧
  (∀ p, Tracker.counter_until 100000 (100000 + grace_ms) (Tracker.periodKey "acme" p) 0
          (g_budget_db (hw_gw demo_start))) ∧
  spent both_team demo_run.2 = 6600.
Proof.
  split; [|split; [|vm_compute; reflexivity]].
  - pose proof (request_pays_its_cost demo_text ToLower (λ _, None) demo_handler demo_completions (demo_streams false)
      (demo_http both_team false) both_team (new_metrics (hw_now demo_start)) fresh_writer demo_start eq_refl) as H.
    change (ChatCompletions _ _ _ _ _ _ _ _ _ _) with demo_run in H.
    assert (mt_costMicros demo_run.1.1 = 6600) as Hc by (vm_compute; reflexivity).
    destruct demo_run as [[m wr] w]. cbn [fst snd] in *. rewrite Hc in H.
    apply H; [split; [reflexivity|vm_compute; discriminate]|reflexivity|intros t; left; reflexivity|reflexivity|lia|].
    vm_compute. discriminate.
  - intros p. right. split; [reflexivity|]. intros t' _. reflexivity.
Defined.

Lemma request_calls_only_allowed_witness :
  (∃ calls, g_calls (hw_gw demo_run.2) = g_calls (hw_gw demo_start) ++ calls ∧
     Forall (permitted demo_handler both_team) calls) ∧
  g_calls (hw_gw demo_run.2) = [gpt4o; gpt4o; llama].
Proof.
  split; [|vm_compute; reflexivity].
  pose proof (request_calls_only_allowed demo_text ToLower (λ _, None) demo_handler demo_completions
    (demo_streams false) (demo_http both_team false) both_team (new_metrics (hw_now demo_start)) fresh_writer
    demo_start eq_refl eq_refl) as H.
  change (ChatCompletions _ _ _ _ _ _ _ _ _ _) with demo_run in H.
  destruct demo_run as [[m wr] w]. destruct H as (calls & H1 & H2 & _); [|by exists calls].
  split.
  - intros now m' c Hc. apply list_elem_of_In in Hc. destruct Hc as [<-|[<-|[]]]; vm_compute; reflexivity.
  - intros now now' m' p p' Hp Hp'. change (h_ForModel demo_handler now m') with (h_ForModel demo_handler now' m') in Hp.
    rewrite Hp in Hp'. by injection Hp'.
Defined.

Lemma response_well_formed_witness :
  phase_of demo_run.1.2 ≠ Broken ∧ phase_of demo_run.1.2 = Body.
Proof.
  split; [|vm_compute; reflexivity].
  pose proof (response_well_formed demo_text ToLower (λ _, None) demo_handler demo_completions (demo_streams false)
    (demo_http both_team false) (new_metrics (hw_now demo_start)) fresh_writer demo_start eq_refl) as H.
  cbv zeta in H. change (ChatCompletions _ _ _ _ _ _ _ _ _ _) with demo_run in H.
  destruct demo_run as [[m wr] w]. apply H.
Defined.

(** ** What the runs show *)

(** A client that has read the whole stream and hangs up before its end pays
    nothing: the usage was received and the tokens are settled against the rate
    limit, but the cost is recorded only after a clean end.  The same stream
    read to its end costs 3300. *)
Theorem hanging_up_is_free :
  let hung := demo_serve both_team true true demo_completions demo_start in
  let whole := demo_serve both_team true false demo_completions demo_start in
  delivered (wr_ops whole.1.2) = (delivered (wr_ops hung.1.2) ++ sseDone)%string ∧
  mt_costMicros hung.1.1 = 0 ∧ spent both_team hung.2 = 0 ∧
  mt_costMicros whole.1.1 = 3300 ∧ spent both_team whole.2 = 3300 ∧
  hw_rate hung.2 = hw_rate whole.2.
Proof. cbv zeta. split_and!; vm_compute; reflexivity. Qed.

(** A provider that answers under the dated name of its model, which has no
    price of its own, is free: the cost is priced by the name in the response. *)
Definition dated_completions (p : string) (r : Request) (n : nat) : answer Response :=
  {| an_elapsed := 500000000;
     an_result := Some (Ok {| rs_Content := "General Kenobi."; rs_FinishReason := FinishStop;
       rs_Usage := demo_usage; rs_Model := pr_Model r ++ "-2024-08-06"; rs_Provider := p;
       rs_Latency := 480 * millisecond |}) |}.

Theorem dated_model_is_free :
  let '(m, _, w) := demo_serve both_team false false dated_completions demo_start in
  g_calls (hw_gw w) = [gpt4o] ∧ mt_usage m = demo_usage ∧ mt_costMicros m = 0 ∧ spent both_team w = 0.
Proof. vm_compute. split_and!; reflexivity. Qed.

(** Teams of one organisation share cached answers, and an answer carries no
    mark of which providers its reader may use: after [acme] was served by groq
    on a fallback, [strict], which may use only openai, is given groq's answer. *)
Theorem cache_crosses_allowlist :
  let first := demo_serve both_team false false demo_completions demo_start in
  let second := demo_serve openai_team false false demo_completions first.2 in
  let m := second.1.1 in
  mt_cacheHit m = Some true ∧ mt_providerName m = "groq"%string ∧ mt_servedModel m = "llama-3.3-70b"%string ∧
  AllowsProvider openai_team (mt_providerName m) = false ∧ AllowsModel openai_team (mt_servedModel m) = false ∧
  phase_of second.1.2 = Body ∧ g_calls (hw_gw second.2) = g_calls (hw_gw first.2).
Proof. cbv zeta. split_and!; vm_compute; reflexivity. Qed.
