(* ===== verification/ResponseWriter.v ===== *)
(** * internal/proxy/middleware.go: the wrapped response writers

    [net/http]'s response as a connection, and the three wrappers of the
    middleware chain, each embedding the writer it wraps: [recorder] (the status
    and the bytes, for the log, the metrics and the request log), [headerHook]
    (the SwitchYard headers, injected before the first byte) and [panicWriter].
    A wrapper implements the same class as what it wraps, so a stack of them is
    a type; the laws say what any lawful stack does to the connection. *)

From S2P Require Import Prelude Text Metrics Stream HandlerResponse.

(** ** The connection

    [Header()] is a live map; the status line sends a copy of it, once. *)
Record conn := { cn_headers : headers; cn_sent : option (Z * headers); cn_body : string }.

Definition fresh_conn : conn := {| cn_headers := ∅; cn_sent := None; cn_body := "" |}.

Definition commit (status : Z) (c : conn) : conn :=
  {| cn_headers := cn_headers c; cn_sent := Some (default (status, cn_headers c) (cn_sent c)); cn_body := cn_body c |}.

(** What [net/http] does when the handler returns. *)
Definition finish_response (c : conn) : conn := commit 200 c.

Definition cn_status (c : conn) : option Z := fst <$> cn_sent c.

(** What a wrapper may read when an operation passes through it: the request's
    metrics and the clock. *)
Record ambient := { am_metrics : requestMetrics; am_now : Z }.

Class ResponseWriter (S : Type) := {
  rw_Header : (headers → headers) → S → S;
  rw_WriteHeader : ambient → Z → S → S;
  rw_Write : ambient → string → string → S → S;
  rw_Flush : ambient → S → S;
  rw_conn : S → conn
}.

#[export] Instance conn_writer : ResponseWriter conn := {|
  rw_Header f c := {| cn_headers := f (cn_headers c); cn_sent := cn_sent c; cn_body := cn_body c |};
  rw_WriteHeader _ status c := commit status c;
  rw_Write _ _ taken c :=
    let c := commit 200 c in
    {| cn_headers := cn_headers c; cn_sent := cn_sent c; cn_body := cn_body c ++ taken |};
  rw_Flush _ c := commit 200 c;
  rw_conn c := c
|}.

(** ** The wrappers *)
Section wrappers.
Context {S : Type} `{!ResponseWriter S}.

Record recorder := { rec_inner : S; rec_status : Z; rec_written : Z }.

Definition new_recorder (s : S) : recorder := {| rec_inner := s; rec_status := 0; rec_written := 0 |}.

Definition rec_WriteHeader (a : ambient) (status : Z) (w : recorder) : recorder :=
  if rec_status w =? 0
  then {| rec_inner := rw_WriteHeader a status (rec_inner w); rec_status := status; rec_written := rec_written w |}
  else w.

Definition rec_Write (a : ambient) (b taken : string) (w : recorder) : recorder :=
  {| rec_inner := rw_Write a b taken (rec_inner w);
     rec_status := if rec_status w =? 0 then 200 else rec_status w;
     rec_written := rec_written w + Z.of_nat (String.length taken) |}.

Definition rec_Flush (a : ambient) (w : recorder) : recorder :=
  {| rec_inner := rw_Flush a (rec_inner w); rec_status := rec_status w; rec_written := rec_written w |}.

#[export] Instance recorder_writer : ResponseWriter recorder := {|
  rw_Header f w := {| rec_inner := rw_Header f (rec_inner w); rec_status := rec_status w; rec_written := rec_written w |};
  rw_WriteHeader := rec_WriteHeader; rw_Write := rec_Write; rw_Flush := rec_Flush;
  rw_conn w := rw_conn (rec_inner w)
|}.

(** The status a layer reports: 200 when nothing was written. *)
Definition reported (w : recorder) : Z := if rec_status w =? 0 then 200 else rec_status w.

Record headerHook := { hh_inner : S; hh_applied : bool }.

Definition applyOnce (a : ambient) (w : headerHook) : headerHook :=
  if hh_applied w then w
  else {| hh_inner := rw_Header (applyHeaders (am_now a) (am_metrics a)) (hh_inner w); hh_applied := true |}.

Definition hh_WriteHeader (a : ambient) (status : Z) (w : headerHook) : headerHook :=
  let w := applyOnce a w in {| hh_inner := rw_WriteHeader a status (hh_inner w); hh_applied := hh_applied w |}.
Definition hh_Write (a : ambient) (b taken : string) (w : headerHook) : headerHook :=
  let w := applyOnce a w in {| hh_inner := rw_Write a b taken (hh_inner w); hh_applied := hh_applied w |}.
Definition hh_Flush (a : ambient) (w : headerHook) : headerHook :=
  let w := applyOnce a w in {| hh_inner := rw_Flush a (hh_inner w); hh_applied := hh_applied w |}.

#[export] Instance headerHook_writer : ResponseWriter headerHook := {|
  rw_Header f w := {| hh_inner := rw_Header f (hh_inner w); hh_applied := hh_applied w |};
  rw_WriteHeader := hh_WriteHeader; rw_Write := hh_Write; rw_Flush := hh_Flush;
  rw_conn w := rw_conn (hh_inner w)
|}.

Record panicWriter := { pw_inner : S; pw_wrote : bool }.

Definition pw_WriteHeader (a : ambient) (status : Z) (w : panicWriter) : panicWriter :=
  {| pw_inner := rw_WriteHeader a status (pw_inner w); pw_wrote := true |}.
Definition pw_Write (a : ambient) (b taken : string) (w : panicWriter) : panicWriter :=
  {| pw_inner := rw_Write a b taken (pw_inner w); pw_wrote := true |}.
Definition pw_Flush (a : ambient) (w : panicWriter) : panicWriter :=
  {| pw_inner := rw_Flush a (pw_inner w); pw_wrote := pw_wrote w |}.

#[export] Instance panicWriter_writer : ResponseWriter panicWriter := {|
  rw_Header f w := {| pw_inner := rw_Header f (pw_inner w); pw_wrote := pw_wrote w |};
  rw_WriteHeader := pw_WriteHeader; rw_Write := pw_Write; rw_Flush := pw_Flush;
  rw_conn w := rw_conn (pw_inner w)
|}.
End wrappers.
Arguments recorder : clear implicits.
Arguments headerHook : clear implicits.
Arguments panicWriter : clear implicits.

(** ** A handler's operations, performed *)
Section performing.
Context {S : Type} `{!ResponseWriter S} (a : ambient).

Definition perform_one (s : S) (o : op) : S :=
  match o with
  | SetHeader name value => rw_Header (set_text name value) s
  | WriteHeader status => rw_WriteHeader a status s
  | Write b taken => rw_Write a b taken s
  | Flush => rw_Flush a s
  end.

Definition perform (ops : list op) (s : S) : S := foldl perform_one s ops.
End performing.

(** ** The laws

    [rw_ok] is the wrapper's invariant, [rw_final] what it still has to do to
    the headers before they leave. *)
Definition content_type (c : conn) : option header_value := cn_headers c !! "Content-Type"%string.

Class LawfulWriter (S : Type) `{!ResponseWriter S} := {
  rw_ok : S → Prop;
  rw_final : ambient → S → headers → headers;
  rw_Header_law a f s : rw_ok s →
    let s' := rw_Header f s in
    rw_ok s' ∧ rw_final a s' = rw_final a s ∧
    rw_conn s' = {| cn_headers := f (cn_headers (rw_conn s)); cn_sent := cn_sent (rw_conn s); cn_body := cn_body (rw_conn s) |};
  rw_WriteHeader_law a status s : rw_ok s → status ≠ 0 →
    let c := rw_conn s in
    let s' := rw_WriteHeader a status s in
    rw_ok s' ∧ cn_body (rw_conn s') = cn_body c ∧
    cn_sent (rw_conn s') = Some (default (status, rw_final a s (cn_headers c)) (cn_sent c));
  rw_Write_law a b taken s : rw_ok s →
    let c := rw_conn s in
    let s' := rw_Write a b taken s in
    rw_ok s' ∧ cn_body (rw_conn s') = (cn_body c ++ taken)%string ∧
    cn_sent (rw_conn s') = Some (default (200, rw_final a s (cn_headers c)) (cn_sent c));
  rw_Flush_law a s : rw_ok s → is_Some (cn_sent (rw_conn s)) →
    let s' := rw_Flush a s in
    rw_ok s' ∧ cn_body (rw_conn s') = cn_body (rw_conn s) ∧ cn_sent (rw_conn s') = cn_sent (rw_conn s);
  rw_type_law a s : rw_ok s →
    (∀ status, content_type (rw_conn (rw_WriteHeader a status s)) = content_type (rw_conn s)) ∧
    (∀ b taken, content_type (rw_conn (rw_Write a b taken s)) = content_type (rw_conn s)) ∧
    content_type (rw_conn (rw_Flush a s)) = content_type (rw_conn s)
}.

#[export] Program Instance conn_lawful : LawfulWriter conn := {| rw_ok _ := True; rw_final _ _ h := h |}.
Next Obligation. done. Qed.
Next Obligation. done. Qed.
Next Obligation. done. Qed.
Next Obligation. intros a c _ [[st h] Hs]. simpl in *. by rewrite Hs. Qed.
Next Obligation. done. Qed.

Section lawful_wrappers.
Context {S : Type} `{!ResponseWriter S} `{!LawfulWriter S}.

(** A recorder is right about what left: nothing yet, or this status; and so
    many bytes. *)
Definition faithful (w : recorder S) : Prop :=
  rec_status w = default 0 (cn_status (rw_conn (rec_inner w))) ∧
  cn_status (rw_conn (rec_inner w)) ≠ Some 0 ∧
  rec_written w = Z.of_nat (String.length (cn_body (rw_conn (rec_inner w)))).

#[export] Program Instance recorder_lawful : LawfulWriter (recorder S) :=
  {| rw_ok w := rw_ok (rec_inner w) ∧ faithful w; rw_final a w := rw_final a (rec_inner w) |}.
Next Obligation.
  intros a f w [Hok Hf]. destruct (rw_Header_law a f _ Hok) as (H1 & H2 & H3). simpl in *.
  unfold faithful, cn_status in *. simpl. by rewrite H3.
Qed.
Next Obligation.
  intros a status w [Hok (Hs & Hn & Hw)] Hz. destruct (rw_WriteHeader_law a status _ Hok Hz) as (H1 & H2 & H3).
  change (rw_WriteHeader a status w) with (rec_WriteHeader a status w). change (rw_conn w) with (rw_conn (rec_inner w)).
  unfold rec_WriteHeader, faithful, cn_status in *. rewrite Hs.
  destruct (cn_sent (rw_conn (rec_inner w))) as [[st h]|] eqn:Hc; cbn in *.
  - destruct (Z.eqb_spec st 0) as [->|]; [done|]. cbn. rewrite Hc. by split_and!.
  - rewrite H3, H2. cbn. split_and!; try done. by intros [=].
Qed.
Next Obligation.
  intros a b taken w [Hok (Hs & Hn & Hw)]. destruct (rw_Write_law a b taken _ Hok) as (H1 & H2 & H3).
  unfold faithful, cn_status in *. simpl. rewrite H2, H3, Hs, Hw, string_app_length. simpl.
  destruct (cn_sent (rw_conn (rec_inner w))) as [[st h]|]; simpl in *;
    [destruct (Z.eqb_spec st 0) as [->|]; [done|]|]; (split_and!; [done..|lia]) || (split_and!; done || lia).
Qed.
Next Obligation.
  intros a w [Hok Hf] Hsome. destruct (rw_Flush_law a _ Hok Hsome) as (H1 & H2 & H3).
  unfold faithful, cn_status in *. simpl in *. by rewrite H2, H3.
Qed.
Next Obligation.
  intros a w [Hok Hf]. destruct (rw_type_law a _ Hok) as (H1 & H2 & H3). cbn. split_and!; [|done|done].
  intros status. unfold rec_WriteHeader. destruct (rec_status w =? 0); [apply H1|done].
Qed.

Lemma reported_status (w : recorder S) :
  rw_ok w → reported w = default 200 (cn_status (rw_conn w)).
Proof.
  intros [_ (Hs & Hn & _)]. unfold reported. rewrite Hs. simpl in *.
  destruct (cn_status (rw_conn (rec_inner w))) as [st|]; simpl in *; [|done].
  by destruct (Z.eqb_spec st 0) as [->|].
Qed.

Definition hook (a : ambient) (applied : bool) (h : headers) : headers :=
  if applied then h else applyHeaders (am_now a) (am_metrics a) h.

Lemma applyOnce_law a (w : headerHook S) :
  rw_ok (hh_inner w) →
  let w' := applyOnce a w in
  rw_ok (hh_inner w') ∧ rw_final a (hh_inner w') = rw_final a (hh_inner w) ∧
  rw_conn (hh_inner w') = {| cn_headers := hook a (hh_applied w) (cn_headers (rw_conn (hh_inner w)));
                             cn_sent := cn_sent (rw_conn (hh_inner w)); cn_body := cn_body (rw_conn (hh_inner w)) |}.
Proof.
  intros Hok. unfold applyOnce, hook. destruct (hh_applied w); simpl; [|by apply rw_Header_law].
  by destruct (rw_conn (hh_inner w)).
Qed.

Lemma header_ne k k' v (h : headers) : k ≠ k' → (<[k := v]> h : headers) !! k' = h !! k'.
Proof. apply (lookup_insert_ne (M := gmap string)). Qed.

Lemma header_eq k v (h : headers) : (<[k := v]> h : headers) !! k = Some v.
Proof. apply (lookup_insert_eq (M := gmap string)). Qed.

Lemma applyHeaders_type now m h : applyHeaders now m h !! "Content-Type"%string = h !! "Content-Type"%string.
Proof. unfold applyHeaders, set_text. cbv zeta. repeat (rewrite ?header_ne by discriminate; case_match); by rewrite ?header_ne. Qed.

Lemma applyOnce_type a (w : headerHook S) :
  rw_ok (hh_inner w) → content_type (rw_conn (hh_inner (applyOnce a w))) = content_type (rw_conn (hh_inner w)).
Proof.
  intros Hok. destruct (applyOnce_law a w Hok) as (_ & _ & ->). unfold content_type, hook. simpl.
  destruct (hh_applied w); [done|apply applyHeaders_type].
Qed.

(** Headers are injected only when something leaves. *)
#[export] Program Instance headerHook_lawful : LawfulWriter (headerHook S) :=
  {| rw_ok w := rw_ok (hh_inner w) ∧ (hh_applied w = true → is_Some (cn_sent (rw_conn (hh_inner w))));
     rw_final a w h := rw_final a (hh_inner w) (hook a (hh_applied w) h) |}.
Next Obligation.
  intros a f w [Hok Ha]. destruct (rw_Header_law a f _ Hok) as (H1 & H2 & H3). cbn in *. by rewrite H2, H3.
Qed.
Next Obligation.
  intros a status w [Hok Ha] Hz. destruct (applyOnce_law a w Hok) as (H1 & H2 & H3).
  destruct (rw_WriteHeader_law a status _ H1 Hz) as (H4 & H5 & H6). cbn in *. by rewrite H5, H6, H3, H2.
Qed.
Next Obligation.
  intros a b taken w [Hok Ha]. destruct (applyOnce_law a w Hok) as (H1 & H2 & H3).
  destruct (rw_Write_law a b taken _ H1) as (H4 & H5 & H6). cbn in *. by rewrite H5, H6, H3, H2.
Qed.
Next Obligation.
  intros a w [Hok Ha] Hsome. destruct (applyOnce_law a w Hok) as (H1 & H2 & H3). cbn in *.
  destruct (rw_Flush_law a (hh_inner (applyOnce a w)) H1) as (H4 & H5 & H6); [by rewrite H3|].
  by rewrite H5, H6, H3.
Qed.
Next Obligation.
  intros a w [Hok Ha]. destruct (applyOnce_law a w Hok) as (H1 & _ & _).
  destruct (rw_type_law a _ H1) as (H2 & H3 & H4). cbn.
  split_and!; intros; rewrite ?H2, ?H3, ?H4; by apply applyOnce_type.
Qed.

(** The panic writer knows whether a 500 is still possible. *)
#[export] Program Instance panicWriter_lawful : LawfulWriter (panicWriter S) :=
  {| rw_ok w := rw_ok (pw_inner w) ∧ (pw_wrote w = false ↔ cn_sent (rw_conn (pw_inner w)) = None);
     rw_final a w := rw_final a (pw_inner w) |}.
Next Obligation.
  intros a f w [Hok Hp]. destruct (rw_Header_law a f _ Hok) as (H1 & H2 & H3). cbn in *. by rewrite H3.
Qed.
Next Obligation.
  intros a status w [Hok Hp] Hz. destruct (rw_WriteHeader_law a status _ Hok Hz) as (H1 & H2 & H3). cbn in *.
  by rewrite H3.
Qed.
Next Obligation.
  intros a b taken w [Hok Hp]. destruct (rw_Write_law a b taken _ Hok) as (H1 & H2 & H3). cbn in *. by rewrite H3.
Qed.
Next Obligation.
  intros a w [Hok Hp] Hsome. destruct (rw_Flush_law a _ Hok Hsome) as (H1 & H2 & H3). cbn in *. by rewrite H3.
Qed.
Next Obligation. intros a w [Hok Hp]. by destruct (rw_type_law a _ Hok) as (H1 & H2 & H3). Qed.
End lawful_wrappers.

(** ** What reaches the client

    The reference: the headers set before the status, the first status (200
    when the body comes first), and every byte taken. *)
Definition apply_header (h : headers) (o : op) : headers :=
  match o with SetHeader name value => set_text name value h | _ => h end.
Definition op_headers (ops : list op) (h : headers) : headers := foldl apply_header h ops.

Fixpoint op_status (ops : list op) : option Z :=
  match ops with
  | [] => None
  | SetHeader _ _ :: ops' => op_status ops'
  | WriteHeader status :: _ => Some status
  | _ :: _ => Some 200
  end.

Lemma advance_broken ops : foldl advance Broken ops = Broken.
Proof. by induction ops. Qed.

Lemma body_headers ops h : foldl advance Body ops ≠ Broken → op_headers ops h = h.
Proof.
  revert h. induction ops as [|[n v|st|b t|] ops IH]; intros h Hl; cbn in *; rewrite ?advance_broken in Hl; try done;
    by apply IH.
Qed.

Section client.
Context {S : Type} `{!ResponseWriter S} `{!LawfulWriter S} (a : ambient).

Lemma perform_body ops : ∀ s : S,
  rw_ok s → is_Some (cn_sent (rw_conn s)) → foldl advance Body ops ≠ Broken →
  let s' := perform a ops s in
  rw_ok s' ∧ cn_sent (rw_conn s') = cn_sent (rw_conn s) ∧
  cn_body (rw_conn s') = (cn_body (rw_conn s) ++ delivered ops)%string.
Proof.
  unfold perform. induction ops as [|o ops IH]; intros s Hok Hsome Hp; cbn [foldl perform_one advance] in *; [by rewrite string_app_nil_r|].
  destruct o as [n v|st|b taken|]; cbn [advance] in Hp; rewrite ?advance_broken in Hp; try done;
    cbn [perform_one].
  - destruct (rw_Write_law a b taken s Hok) as (H1 & H2 & H3). destruct Hsome as [x Hx]. rewrite Hx in H3.
    destruct (IH (rw_Write a b taken s) H1) as (H4 & H5 & H6); [by rewrite H3|done|].
    split_and!; [done|by rewrite H5, H3, Hx|]. rewrite H6, H2. unfold delivered. cbn. by rewrite string_app_assoc.
  - destruct (rw_Flush_law a s Hok Hsome) as (H1 & H2 & H3).
    destruct (IH (rw_Flush a s) H1) as (H4 & H5 & H6); [by rewrite H3|done|].
    split_and!; [done|by rewrite H5, H3|]. by rewrite H6, H2.
Qed.

Lemma perform_body_type ops : ∀ s : S,
  rw_ok s → is_Some (cn_sent (rw_conn s)) → foldl advance Body ops ≠ Broken →
  content_type (rw_conn (perform a ops s)) = content_type (rw_conn s).
Proof.
  unfold perform. induction ops as [|o ops IH]; intros s Hok Hsome Hp; cbn [foldl perform_one advance] in *; [done|].
  destruct (rw_type_law a s Hok) as (_ & Ht1 & Ht2).
  destruct o as [n v|st|b taken|]; cbn [advance] in Hp; rewrite ?advance_broken in Hp; try done; cbn [perform_one].
  - destruct (rw_Write_law a b taken s Hok) as (H1 & _ & H3). rewrite IH; [apply Ht1|done|by rewrite H3|done].
  - destruct (rw_Flush_law a s Hok Hsome) as (H1 & _ & H3). rewrite IH; [apply Ht2|done|by rewrite H3|done].
Qed.

(** The live header map keeps the type that was set before the body. *)
Lemma perform_type ops : ∀ s : S,
  rw_ok s → cn_sent (rw_conn s) = None → foldl advance Headers ops ≠ Broken →
  content_type (rw_conn (perform a ops s)) = op_headers ops (cn_headers (rw_conn s)) !! "Content-Type"%string.
Proof.
  pose proof perform_body_type as Hbody. unfold perform in *.
  induction ops as [|o ops IH]; intros s Hok Hn Hp; cbn [foldl perform_one advance] in *; [done|].
  destruct (rw_type_law a s Hok) as (Ht0 & Ht1 & Ht2).
  destruct o as [n v|st|b taken|]; cbn [foldl perform_one advance] in *.
  - destruct (rw_Header_law a (set_text n v) s Hok) as (H1 & H2 & H3).
    rewrite IH; [by rewrite H3|done|by rewrite H3|done].
  - destruct (valid_status st) eqn:Hv; [|by rewrite advance_broken in Hp].
    destruct (rw_WriteHeader_law a st s Hok) as (H1 & _ & H3); [by intros ->|].
    rewrite Hbody; [|done|by rewrite H3|done]. rewrite Ht0.
    change (op_headers (WriteHeader st :: ops) ?h) with (op_headers ops h). by rewrite body_headers.
  - destruct (rw_Write_law a b taken s Hok) as (H1 & _ & H3).
    rewrite Hbody; [|done|by rewrite H3|done]. rewrite Ht1.
    change (op_headers (Write b taken :: ops) ?h) with (op_headers ops h). by rewrite body_headers.
  - by rewrite advance_broken in Hp.
Qed.

(** A well-formed response through any lawful stack is the reference. *)
Lemma perform_client ops : ∀ s : S,
  rw_ok s → cn_sent (rw_conn s) = None → foldl advance Headers ops ≠ Broken →
  let s' := perform a ops s in
  rw_ok s' ∧
  cn_sent (rw_conn s') = (λ st, (st, rw_final a s (op_headers ops (cn_headers (rw_conn s))))) <$> op_status ops ∧
  cn_body (rw_conn s') = (cn_body (rw_conn s) ++ delivered ops)%string.
Proof.
  pose proof (perform_body) as Hbody. unfold perform in *.
  induction ops as [|o ops IH]; intros s Hok Hn Hp; cbn [foldl perform_one advance] in *; [by rewrite string_app_nil_r|].
  destruct o as [n v|st|b taken|]; cbn [foldl perform_one advance] in *.
  - destruct (rw_Header_law a (set_text n v) s Hok) as (H1 & H2 & H3). cbn [foldl perform_one advance] in *.
    destruct (IH (rw_Header (set_text n v) s) H1) as (H4 & H5 & H6); [by rewrite H3|done|].
    split_and!; [done| |by rewrite H6, H3]. by rewrite H5, H2, H3.
  - destruct (valid_status st) eqn:Hv; [|by rewrite advance_broken in Hp].
    destruct (rw_WriteHeader_law a st s Hok) as (H1 & H2 & H3); [by intros ->|].
    rewrite Hn in H3. destruct (Hbody ops _ H1) as (H4 & H5 & H6); [by rewrite H3|done|].
    split_and!; [done| |by rewrite H6, H2]. rewrite H5, H3. cbn.
    fold (op_headers ops (cn_headers (rw_conn s))). by rewrite body_headers.
  - destruct (rw_Write_law a b taken s Hok) as (H1 & H2 & H3).
    rewrite Hn in H3. destruct (Hbody ops _ H1) as (H4 & H5 & H6); [by rewrite H3|done|].
    split_and!; [done| |]; [|rewrite H6, H2; unfold delivered; cbn; by rewrite string_app_assoc].
    rewrite H5, H3. cbn. fold (op_headers ops (cn_headers (rw_conn s))). by rewrite body_headers.
  - by rewrite advance_broken in Hp.
Qed.
End client.
