(* ===== verification/Middleware.v ===== *)
(** * The public listener: internal/proxy/middleware.go, auth.go, router.go, requestlog.go

    The middleware chain of [NewRouter] around the chat completion handler and
    the probes.  A handler is what Go's is: a function of the response writer,
    whatever its type, and the request.  The request's metrics are shared
    through the context, so they live in the server's state; a request that a
    layer passes on carries what that layer added to the context.  A handler
    ends by returning or by a panic, of [http.ErrAbortHandler] or of anything
    else: nothing after the call of a handler that panics runs, until
    [Recoverer].  [chi]'s route matching is a parameter. *)

From Stdlib Require Import QArith.
From S2P Require Import Prelude Redis Text Json Float32 Budget Breaker BreakerStore BreakerRegistry.
From S2P Require Import Provider Retry Health Chain Wire Sse Metrics RateLimit Auth ChainBudget Fallback Gateway.
From S2P Require Import Admission Router CacheKey CacheStore CacheLookup Chaos Stream Decode Quality LogWriter.
From S2P Require Import Handler HandlerResponse ResponseWriter.
Open Scope Z_scope.

(** ** Requests *)

(** What arrives, what the environment decides about it, and the clock when
    its response's first byte leaves. *)
Record inbound := {
  ib_method : string; ib_path : string; ib_remoteAddr : string;
  ib_requestID : string; ib_authorization : string; ib_contentType : string; ib_cacheTTL : string;
  ib_body : string; ib_limited : bool; ib_random16 : string; ib_draw : float64; ib_traceID : string;
  ib_wroteAt : Z
}.

(** The request with its context: the id, the team, whether metrics are there. *)
Record request := { rr_in : inbound; rr_id : string; rr_team : option Team; rr_metrics : bool }.

Definition with_id (id : string) (r : request) : request :=
  {| rr_in := rr_in r; rr_id := id; rr_team := rr_team r; rr_metrics := rr_metrics r |}.
Definition with_metrics (r : request) : request :=
  {| rr_in := rr_in r; rr_id := rr_id r; rr_team := rr_team r; rr_metrics := true |}.
Definition with_team (t : Team) (r : request) : request :=
  {| rr_in := rr_in r; rr_id := rr_id r; rr_team := Some t; rr_metrics := rr_metrics r |}.

Inductive endpoint := EChat | EHealthz | EReadyz | ENotFound | EMethodNotAllowed.

(** The matched pattern, empty when routing did not resolve. *)
Definition route_pattern (e : endpoint) : string :=
  match e with
  | EChat => "/v1/chat/completions" | EHealthz => "/healthz" | EReadyz => "/readyz"
  | ENotFound | EMethodNotAllowed => ""
  end.

Definition panicRoute (e : endpoint) : string :=
  if bool_decide (route_pattern e = ""%string) then "unmatched" else route_pattern e.

(** [bearerToken] *)
Definition bearerToken (authorization : string) : option string :=
  if negb (HasPrefix authorization "Bearer ") then None
  else let key := trim_space (TrimPrefix authorization "Bearer ") in
       if bool_decide (key = ""%string) then None else Some key.

(** ** What the server records *)

Record log_line := {
  ll_request_id : string; ll_method : string; ll_path : string; ll_status : Z; ll_bytes : Z;
  ll_duration : Z; ll_remote_addr : string; ll_provider_duration : option Z; ll_overhead : option Z;
  ll_provider : option (string * string); ll_tokens : option (Z * Z * Z); ll_fallback_cost_delta : option Z
}.

Record panic_line := { pl_request_id : string; pl_route : string; pl_path : string; pl_response_started : bool }.

(** The series a request moves. *)
Inductive prom :=
| RequestsTotal (team provider model status : string)
| RequestDuration (provider model : string) (d : Z)
| GatewayOverhead (d : Z)
| TimeToFirstToken (provider model : string) (d : Z)
| ProviderDuration (provider model : string) (d : Z)
| TokensTotal (team provider model direction : string) (n : Z)
| CostMicrodollarsTotal (team provider model : string) (n : Z)
| PanicsTotal (route : string).

(** The attributes of switchyard.request. *)
Record span := {
  sp_team : string; sp_request_id : string; sp_tokens : Z; sp_cost : Z; sp_fallback : bool;
  sp_cache_status : string; sp_request_model : option string; sp_response_model : option string }.

Record server (C : Type) := {
  sv_world : world C; sv_metrics : requestMetrics; sv_log : list log_line; sv_panics : list panic_line;
  sv_prom : list prom; sv_rows : list Record_; sv_spans : list (option span) }.
Arguments sv_world {C}. Arguments sv_metrics {C}. Arguments sv_log {C}. Arguments sv_panics {C}.
Arguments sv_prom {C}. Arguments sv_rows {C}. Arguments sv_spans {C}.

Section setters.
Context {C : Type}.
Definition set_world (w : world C) (m : requestMetrics) (st : server C) : server C :=
  {| sv_world := w; sv_metrics := m; sv_log := sv_log st; sv_panics := sv_panics st; sv_prom := sv_prom st;
     sv_rows := sv_rows st; sv_spans := sv_spans st |}.
Definition add_log (l : log_line) (st : server C) : server C :=
  {| sv_world := sv_world st; sv_metrics := sv_metrics st; sv_log := sv_log st ++ [l]; sv_panics := sv_panics st;
     sv_prom := sv_prom st; sv_rows := sv_rows st; sv_spans := sv_spans st |}.
Definition add_panic (l : panic_line) (st : server C) : server C :=
  {| sv_world := sv_world st; sv_metrics := sv_metrics st; sv_log := sv_log st; sv_panics := sv_panics st ++ [l];
     sv_prom := sv_prom st; sv_rows := sv_rows st; sv_spans := sv_spans st |}.
Definition add_prom (ps : list prom) (st : server C) : server C :=
  {| sv_world := sv_world st; sv_metrics := sv_metrics st; sv_log := sv_log st; sv_panics := sv_panics st;
     sv_prom := sv_prom st ++ ps; sv_rows := sv_rows st; sv_spans := sv_spans st |}.
Definition add_row (r : Record_) (st : server C) : server C :=
  {| sv_world := sv_world st; sv_metrics := sv_metrics st; sv_log := sv_log st; sv_panics := sv_panics st;
     sv_prom := sv_prom st; sv_rows := sv_rows st ++ [r]; sv_spans := sv_spans st |}.
Definition add_span (s : option span) (st : server C) : server C :=
  {| sv_world := sv_world st; sv_metrics := sv_metrics st; sv_log := sv_log st; sv_panics := sv_panics st;
     sv_prom := sv_prom st; sv_rows := sv_rows st; sv_spans := sv_spans st ++ [s] |}.
Definition sv_now (st : server C) : Z := hw_now (sv_world st).
End setters.

(** ** The records made of a finished request *)

Definition opt_text (s : string) : option string := if bool_decide (s = ""%string) then None else Some s.

Definition used_tokens (m : requestMetrics) : bool :=
  negb (u_InputTokens (mt_usage m) =? 0) || negb (u_OutputTokens (mt_usage m) =? 0).

Definition request_line (r : request) (status bytes duration now : Z) (m : requestMetrics) : log_line :=
  let present {A} (x : A) : option A := if rr_metrics r then Some x else None in
  {| ll_request_id := rr_id r; ll_method := ib_method (rr_in r); ll_path := ib_path (rr_in r);
     ll_status := status; ll_bytes := bytes; ll_duration := duration; ll_remote_addr := ib_remoteAddr (rr_in r);
     ll_provider_duration := present (mt_providerTime m); ll_overhead := present (overhead now m);
     ll_provider := if rr_metrics r && bool_decide (mt_providerName m ≠ ""%string)
                    then Some (mt_providerName m, mt_servedModel m) else None;
     ll_tokens := if rr_metrics r && used_tokens m
                  then Some (u_InputTokens (mt_usage m), u_OutputTokens (mt_usage m), mt_costMicros m) else None;
     ll_fallback_cost_delta := if rr_metrics r then mt_fallbackCostDeltaMicros m else None |}.

Definition request_series (status now : Z) (m : requestMetrics) : list prom :=
  let team := mt_teamID m in let provider := mt_providerName m in let model := mt_servedModel m in
  [RequestsTotal team provider model (FormatInt status);
   RequestDuration provider model (now - mt_start m); GatewayOverhead (overhead now m)]
  ++ (if bool_decide (provider = ""%string) then []
      else [if mt_stream m then TimeToFirstToken provider model (mt_providerTime m)
            else ProviderDuration provider model (mt_providerTime m)])
  ++ (if u_InputTokens (mt_usage m) =? 0 then []
      else [TokensTotal team provider model "input" (u_InputTokens (mt_usage m))])
  ++ (if u_OutputTokens (mt_usage m) =? 0 then []
      else [TokensTotal team provider model "output" (u_OutputTokens (mt_usage m))])
  ++ (if mt_costMicros m =? 0 then [] else [CostMicrodollarsTotal team provider model (mt_costMicros m)]).

Definition request_row (r : request) (status now : Z) (m : requestMetrics) : Record_ :=
  {| lr_ID := rr_id r; lr_Timestamp := mt_start m; lr_TeamID := mt_teamID m;
     lr_RequestedModel := mt_requestedModel m; lr_ServedModel := mt_servedModel m; lr_Provider := mt_providerName m;
     lr_StatusCode := status; lr_InputTokens := u_InputTokens (mt_usage m);
     lr_OutputTokens := u_OutputTokens (mt_usage m); lr_CostMicros := mt_costMicros m;
     lr_Latency := now - mt_start m; lr_Overhead := overhead now m; lr_Fallback := mt_fellBack m;
     lr_CacheHit := mt_cacheHit m; lr_TraceID := ib_traceID (rr_in r);
     lr_FallbackCostDeltaMicros := mt_fallbackCostDeltaMicros m; lr_RoutingTier := mt_routedTier m;
     lr_RoutingReason := mt_routeReason m; lr_RoutingSavingsMicros := mt_routingSavingsMicros m |}.

Definition request_span (r : request) (m : requestMetrics) : option span :=
  if rr_metrics r
  then Some {| sp_team := mt_teamID m; sp_request_id := rr_id r;
               sp_tokens := wrap64 (u_InputTokens (mt_usage m) + u_OutputTokens (mt_usage m));
               sp_cost := mt_costMicros m; sp_fallback := mt_fellBack m; sp_cache_status := "disabled";
               sp_request_model := opt_text (mt_requestedModel m); sp_response_model := opt_text (mt_servedModel m) |}
  else None.

(** ** The chain *)
Section chain.
Context {C : Type} `{!EntryStore C} {lua : LuaNumber} {sur : Surroundings}.
Context (say : notice → string) (ToLower : string → string) (accepts late : nat → option nat).
Context (hd : Handler) (completions : string → Request → nat → answer Response)
  (streams : string → Request → nat → answer opened).
Context (authenticate : string → result registry_error Team) (chi_match : string → string → endpoint).
Context (promMetrics reqLog ready : bool).

Abbreviation server := (server C).

(** How a call ends: it returns, it panics, or it panics with
    [http.ErrAbortHandler]. *)
Inductive ending := Returned | Panicked_ | Aborted.

Definition returned (e : ending) : bool := match e with Returned => true | _ => false end.

Definition handler : Type := ∀ S, ResponseWriter S → request → S → server → ending * S * server.

(** The metrics and the clock a layer reads after its handler returned. *)
Definition now_ambient (st : server) : ambient := {| am_metrics := sv_metrics st; am_now := sv_now st |}.

(** A handler that only writes. *)
Definition respond {S} `{!ResponseWriter S} (f : writer → writer) (s : S) (st : server) : ending * S * server :=
  (Returned, perform (now_ambient st) (wr_ops (f fresh_writer)) s, st).

Definition panic_event : go_error := OtherError "panic recovered".

(** [late] is what becomes of the writes after the panic. *)
Definition respondToPanic {S} `{!ResponseWriter S} (st : server) (pw : panicWriter S) : panicWriter S :=
  let ops :=
    if negb (pw_wrote pw)
    then wr_ops (writeError late 500 "internal_error" unexpected fresh_writer)
    else if bool_decide (cn_headers (rw_conn pw) !! "Content-Type"%string = Some (HText "text/event-stream"))
    then wr_ops (emit Flush (writeSSEError late panic_event fresh_writer).2)
    else [] in
  perform (now_ambient st) ops pw.

Definition Recoverer (next : handler) : handler := λ S _ r s st,
  let '(e, pw, st) := next (panicWriter S) _ r {| pw_inner := s; pw_wrote := false |} st in
  match e with
  | Returned => (Returned, pw_inner pw, st)
  | Aborted => (Aborted, pw_inner pw, st)
  | Panicked_ =>
    let route := panicRoute (chi_match (ib_method (rr_in r)) (ib_path (rr_in r))) in
    let st := add_panic {| pl_request_id := rr_id r; pl_route := route; pl_path := ib_path (rr_in r);
                           pl_response_started := pw_wrote pw |} st in
    let st := if promMetrics then add_prom [PanicsTotal route] st else st in
    (Returned, pw_inner (respondToPanic st pw), st)
  end.

Definition RequestID_ (next : handler) : handler := λ S _ r s st,
  let id := RequestID (ib_requestID (rr_in r)) (ib_random16 (rr_in r)) in
  next S _ (with_id id r) (rw_Header (set_text HeaderRequestID id) s) st.

Definition Timing (next : handler) : handler := λ S _ r s st,
  let st := set_world (sv_world st) (new_metrics (sv_now st)) st in
  let '(e, hooked, st) := next (headerHook S) _ (with_metrics r) {| hh_inner := s; hh_applied := false |} st in
  if negb (returned e) then (e, hh_inner hooked, st)
  else (Returned, hh_inner (applyOnce (now_ambient st) hooked), st).

(** A span a panic leaves is never ended. *)
Definition Tracing (next : handler) : handler := λ S _ r s st,
  let '(e, s, st) := next S _ r s st in
  if negb (returned e) then (e, s, st) else (Returned, s, add_span (request_span r (sv_metrics st)) st).

Definition Logger (next : handler) : handler := λ S _ r s st,
  let start := sv_now st in
  let '(e, rec, st) := next (recorder S) _ r (new_recorder s) st in
  if negb (returned e) then (e, rec_inner rec, st)
  else (Returned, rec_inner rec,
        add_log (request_line r (reported rec) (rec_written rec) (sv_now st - start) (sv_now st) (sv_metrics st)) st).

Definition Metrics_ (next : handler) : handler := λ S _ r s st,
  if negb promMetrics then next S _ r s st
  else
    let '(e, rec, st) := next (recorder S) _ r (new_recorder s) st in
    if negb (returned e) then (e, rec_inner rec, st)
    else (Returned, rec_inner rec,
          if rr_metrics r then add_prom (request_series (reported rec) (sv_now st) (sv_metrics st)) st else st).

Definition RequestLog (next : handler) : handler := λ S _ r s st,
  if negb reqLog then next S _ r s st
  else
    let '(e, rec, st) := next (recorder S) _ r (new_recorder s) st in
    if negb (returned e) then (e, rec_inner rec, st)
    else (Returned, rec_inner rec,
          if negb (rr_metrics r) || bool_decide (mt_teamID (sv_metrics st) = ""%string) then st
          else add_row (request_row r (reported rec) (sv_now st) (sv_metrics st)) st).

Definition expected_bearer : string :=
  "missing or malformed Authorization header; expected " ++ quote ++ "Bearer <key>" ++ quote.

Definition Auth_ (next : handler) : handler := λ S _ r s st,
  match bearerToken (ib_authorization (rr_in r)) with
  | None => respond (writeError accepts 401 "invalid_api_key" expected_bearer) s st
  | Some key =>
      match authenticate key with
      | Err ErrUnknownKey =>
          respond (writeError accepts 401 "invalid_api_key" "the provided API key was not recognized") s st
      | Err _ => respond (writeError accepts 500 "internal_error" "the gateway could not authenticate this request") s st
      | Ok team =>
          let st := if rr_metrics r then set_world (sv_world st) (m_with_team (t_ID team) (sv_metrics st)) st else st in
          next S _ (with_team team r) s st
      end
  end.

Definition RateLimit_ (next : handler) : handler := λ S _ r s st,
  let w := sv_world st in
  match Admission.RateLimit (redis_us w) (sur_rate_net (hw_now w)) (rr_team r) (hw_rate w) with
  | (Reject status typ h, d) =>
      respond (write_rejection say accepts status typ h) s (set_world (set_rate d w) (sv_metrics st) st)
  | (Proceed tt, d) => next S _ r s (set_world (set_rate d w) (sv_metrics st) st)
  end.

(** The handler proper.  Every field the headers show is settled before its
    first write.  What panics in it, an adapter or an injected fault, does not
    panic with [http.ErrAbortHandler]. *)
Definition chat_request (r : request) : http_request :=
  {| rq_team := rr_team r; rq_id := rr_id r; rq_contentType := ib_contentType (rr_in r);
     rq_body := ib_body (rr_in r); rq_limited := ib_limited (rr_in r); rq_cacheTTL := ib_cacheTTL (rr_in r);
     rq_draw := ib_draw (rr_in r) |}.

Definition chat : handler := λ S _ r s st,
  let '(m, wr, w) := ChatCompletions say ToLower accepts hd completions streams (chat_request r) (sv_metrics st)
                       fresh_writer (sv_world st) in
  (if hw_panicked w then Panicked_ else Returned, perform {| am_metrics := m; am_now := ib_wroteAt (rr_in r) |} (wr_ops wr) s, set_world w m st).

Definition json_line (body : string) (status : Z) (wr : writer) : writer :=
  (write accepts (body ++ LF_string)
     (emit (WriteHeader status) (emit (SetHeader "Content-Type" "application/json") wr))).2.

Definition status_body (status : string) : string :=
  "{" ++ quote ++ "status" ++ quote ++ ":" ++ quote ++ status ++ quote ++ "}".

Definition Healthz : handler := λ S _ _ s st, respond (json_line (status_body "ok") 200) s st.

Definition Readyz : handler := λ S _ _ s st,
  respond (if ready then json_line (status_body "ready") 200 else json_line (status_body "not ready") 503) s st.

Definition not_found : handler := λ S _ _ s st,
  respond (writeError accepts 404 "not_found" "no such endpoint") s st.
Definition method_not_allowed : handler := λ S _ _ s st,
  respond (writeError accepts 405 "method_not_allowed" "that method is not allowed on this endpoint") s st.

Definition routes (e : endpoint) : handler :=
  match e with
  | EChat => Metrics_ (RequestLog (Auth_ (RateLimit_ chat)))
  | EHealthz => Healthz
  | EReadyz => Readyz
  | ENotFound => not_found
  | EMethodNotAllowed => method_not_allowed
  end.

(** Whatever handlers are mounted. *)
Definition dispatched (rs : endpoint → handler) : handler := λ S RW r s st,
  rs (chi_match (ib_method (rr_in r)) (ib_path (rr_in r))) S RW r s st.
Definition mounted (rs : endpoint → handler) : handler :=
  Recoverer (RequestID_ (Timing (Tracing (Logger (dispatched rs))))).

Definition dispatch : handler := dispatched routes.

Definition NewRouter : handler := mounted routes.

(** One exchange on the public listener.  [net/http] finishes the response of
    a handler that returned, and drops the connection of one that did not. *)
Definition exchange_with (h : handler) (ib : inbound) (st : server) : ending * conn * server :=
  let '(e, c, st) := h conn _ {| rr_in := ib; rr_id := ""; rr_team := None; rr_metrics := false |} fresh_conn st in
  (e, if returned e then finish_response c else c, st).

Definition exchange (ib : inbound) (st : server) : conn * server :=
  let '(_, c, st) := exchange_with NewRouter ib st in (c, st).
End chain.
