(* ===== verification/MiddlewareFacts.v ===== *)
(** * What an exchange leaves behind

    Each layer of the middleware chain is proved against the response-writer
    laws alone: whatever it is mounted on, it serves the same response and
    records the same things.  Composed down to the connection: what is logged,
    counted and stored is what the client got, and a panic becomes a 500. *)

From Stdlib Require Import QArith.
From S2P Require Import Prelude Redis Text Json Float32 Budget Breaker BreakerStore BreakerRegistry.
From S2P Require Import Provider Retry Health Chain Wire Sse Metrics RateLimit Auth ChainBudget Fallback Gateway.
From S2P Require Import Admission Router CacheKey CacheStore CacheLookup Chaos Stream Decode Quality LogWriter.
From S2P Require Import Handler HandlerFacts HandlerResponse ResponseWriter Middleware.
Open Scope Z_scope.

Section facts.
Context {C : Type} `{!EntryStore C} {lua : LuaNumber} {sur : Surroundings}.
Context (say : notice → string) (ToLower : string → string) (accepts late : nat → option nat).
Context (hd : Handler) (completions : string → Request → nat → answer Response)
  (streams : string → Request → nat → answer opened).
Context (authenticate : string → result registry_error Team) (chi_match : string → string → endpoint).
Context (promMetrics reqLog ready : bool).

Abbreviation server := (server C).
Abbreviation handler := (handler (C := C)).
Abbreviation the_chat := (chat say ToLower accepts hd completions streams).
Abbreviation the_limit := (RateLimit_ say accepts the_chat).
Abbreviation the_auth := (Auth_ accepts authenticate the_limit).
Abbreviation the_dispatch :=
  (dispatch say ToLower accepts hd completions streams authenticate chi_match promMetrics reqLog ready).

(** What a handler comes to on one request: how it ended, what it wrote until
    then and the state it leaves. *)
Record outcome := { oc_end : ending; oc_ambient : ambient; oc_ops : list op; oc_state : server }.

Definition oc_panicked (o : outcome) : bool := negb (returned (oc_end o)).

Definition status_of (o : outcome) : Z := default 200 (op_status (oc_ops o)).
Definition bytes_of (o : outcome) : Z := Z.of_nat (String.length (delivered (oc_ops o))).

(** On every lawful writer nothing has been sent through yet, the handler
    behaves as [o] says. *)
Definition serves (next : handler) (r : request) (st : server) (o : outcome) : Prop :=
  ∀ S (RW : ResponseWriter S) (L : LawfulWriter S) (s : S),
    rw_ok s → cn_sent (rw_conn s) = None → cn_body (rw_conn s) = ""%string →
    ∃ s', next S RW r s st = (oc_end o, s', oc_state o) ∧ rw_ok s' ∧
      cn_sent (rw_conn s') = (λ status, (status, rw_final (oc_ambient o) s
        (op_headers (oc_ops o) (cn_headers (rw_conn s))))) <$> op_status (oc_ops o) ∧
      cn_body (rw_conn s') = delivered (oc_ops o) ∧
      content_type (rw_conn s') = op_headers (oc_ops o) (cn_headers (rw_conn s)) !! "Content-Type"%string.

Lemma serves_ops (next : handler) r st p a ops st' :
  foldl advance Headers ops ≠ Broken →
  (∀ S (RW : ResponseWriter S) (s : S), next S RW r s st = (p, perform a ops s, st')) →
  serves next r st {| oc_end := p; oc_ambient := a; oc_ops := ops; oc_state := st' |}.
Proof.
  intros Hwf Hn S RW L s Hok Hs Hb. exists (perform a ops s). rewrite Hn.
  destruct (perform_client a ops s Hok Hs Hwf) as (H1 & H2 & H3). rewrite Hb in H3.
  split_and!; try done. by apply perform_type.
Qed.

Lemma serves_respond (next : handler) r st st' f :
  phase_of (f fresh_writer) ≠ Broken →
  (∀ S (RW : ResponseWriter S) (s : S), next S RW r s st = respond f s st') →
  serves next r st {| oc_end := Returned; oc_ambient := now_ambient st'; oc_ops := wr_ops (f fresh_writer); oc_state := st' |}.
Proof. intros Hf Hn. by apply serves_ops. Qed.

(** A recorder around a handler knows its status and its bytes, and passes the
    response on as it is. *)
Lemma serves_recorded (next : handler) r st o S (RW : ResponseWriter S) (L : LawfulWriter S) (s : S) :
  serves next r st o →
  rw_ok s → cn_sent (rw_conn s) = None → cn_body (rw_conn s) = ""%string →
  ∃ rec, next (recorder S) _ r (new_recorder s) st = (oc_end o, rec, oc_state o) ∧
    reported rec = status_of o ∧ rec_written rec = bytes_of o ∧ rw_ok (rec_inner rec) ∧
    cn_sent (rw_conn (rec_inner rec)) = (λ status, (status, rw_final (oc_ambient o) s
      (op_headers (oc_ops o) (cn_headers (rw_conn s))))) <$> op_status (oc_ops o) ∧
    cn_body (rw_conn (rec_inner rec)) = delivered (oc_ops o) ∧
    content_type (rw_conn (rec_inner rec)) = op_headers (oc_ops o) (cn_headers (rw_conn s)) !! "Content-Type"%string.
Proof.
  intros Hn Hok Hs Hb. destruct (Hn (recorder S) _ _ (new_recorder s)) as (rec & H1 & H2 & H3 & H4 & H5).
  { split; [done|]. unfold faithful, cn_status. cbn. by rewrite Hs, Hb. }
  { done. }
  { done. }
  exists rec. pose proof (reported_status rec H2) as Hr. destruct H2 as [H2 (_ & _ & Hw)].
  split_and!; try done.
  - rewrite Hr. unfold cn_status, status_of. rewrite H3. by destruct (op_status (oc_ops o)).
  - rewrite Hw. unfold bytes_of. cbn in H4. by rewrite H4.
Qed.

(** ** The layers *)

Definition in_state (o : outcome) (st : server) : outcome :=
  {| oc_end := oc_end o; oc_ambient := oc_ambient o; oc_ops := oc_ops o; oc_state := st |}.

Definition traced (r : request) (o : outcome) : outcome :=
  let st := oc_state o in
  in_state o (if oc_panicked o then st else add_span (request_span r (sv_metrics st)) st).
Definition logged (r : request) (start : Z) (o : outcome) : outcome :=
  let st := oc_state o in
  in_state o (if oc_panicked o then st else
    add_log (request_line r (status_of o) (bytes_of o) (sv_now st - start) (sv_now st) (sv_metrics st)) st).
Definition counted (r : request) (o : outcome) : outcome :=
  let st := oc_state o in
  in_state o (if negb promMetrics || oc_panicked o || negb (rr_metrics r) then st else
    add_prom (request_series (status_of o) (sv_now st) (sv_metrics st)) st).
Definition stored (r : request) (o : outcome) : outcome :=
  let st := oc_state o in
  in_state o (if negb reqLog || oc_panicked o || negb (rr_metrics r) || bool_decide (mt_teamID (sv_metrics st) = ""%string)
              then st else add_row (request_row r (status_of o) (sv_now st) (sv_metrics st)) st).

Lemma Tracing_serves next r st o : serves next r st o → serves (Tracing next) r st (traced r o).
Proof.
  intros Hn S RW L s Hok Hs Hb. destruct (Hn S RW L s Hok Hs Hb) as (s' & H1 & H2 & H3 & H4 & H5). exists s'.
  unfold Tracing. rewrite H1. split_and!; try done. unfold traced, oc_panicked. cbn. by destruct (oc_end o).
Qed.

Lemma Logger_serves next r st o : serves next r st o → serves (Logger next) r st (logged r (sv_now st) o).
Proof.
  intros Hn S RW L s Hok Hs Hb.
  destruct (serves_recorded next r st o S RW L s Hn Hok Hs Hb) as (rec & H1 & H2 & H3 & H4 & H5 & H6 & H7).
  exists (rec_inner rec). unfold Logger. rewrite H1, H2, H3. split_and!; try done.
  unfold logged, oc_panicked. cbn. by destruct (oc_end o).
Qed.

Lemma Metrics_serves next r st o :
  serves next r st o → serves (Metrics_ promMetrics next) r st (counted r o).
Proof.
  intros Hn S RW L s Hok Hs Hb. unfold Metrics_, counted. destruct promMetrics; cbn; [|exact (Hn S RW L s Hok Hs Hb)].
  destruct (serves_recorded next r st o S RW L s Hn Hok Hs Hb) as (rec & H1 & H2 & H3 & H4 & H5 & H6 & H7).
  exists (rec_inner rec). rewrite H1, H2. split_and!; try done. unfold oc_panicked. by destruct (oc_end o), (rr_metrics r).
Qed.

Lemma RequestLog_serves next r st o :
  serves next r st o → serves (RequestLog reqLog next) r st (stored r o).
Proof.
  intros Hn S RW L s Hok Hs Hb. unfold RequestLog, stored. destruct reqLog; cbn; [|exact (Hn S RW L s Hok Hs Hb)].
  destruct (serves_recorded next r st o S RW L s Hn Hok Hs Hb) as (rec & H1 & H2 & H3 & H4 & H5 & H6 & H7).
  exists (rec_inner rec). rewrite H1, H2. split_and!; try done.
  unfold oc_panicked. destruct (oc_end o), (rr_metrics r); cbn; try done.
Qed.

(** ** The API routes *)

(** The team a request authenticates as. *)
Definition caller (ib : inbound) : option Team :=
  match bearerToken (ib_authorization ib) with
  | Some key => match authenticate key with Ok t => Some t | Err _ => None end
  | None => None
  end.

(** Everything below the recording layers moves the world and the metrics only. *)
Record inert (st st' : server) : Prop := {
  in_log : sv_log st' = sv_log st; in_panics : sv_panics st' = sv_panics st; in_prom : sv_prom st' = sv_prom st;
  in_rows : sv_rows st' = sv_rows st; in_spans : sv_spans st' = sv_spans st;
  in_start : mt_start (sv_metrics st') = mt_start (sv_metrics st) }.

#[local] Instance inert_preorder : PreOrder inert.
Proof.
  split; [by intros st|]. intros st1 st2 st3 [] []. split; by etrans.
Qed.

(** The handler panicked, having written [ops]. *)
Definition crashed_after (ops : list op) : Prop :=
  ∃ rq m w m' wr w', ChatCompletions say ToLower accepts hd completions streams rq m fresh_writer w = (m', wr, w') ∧
    hw_panicked w' = true ∧ ops = wr_ops wr.
Definition crash_known (o : outcome) : Prop :=
  oc_end o = Returned ∨ oc_end o = Panicked_ ∧ crashed_after (oc_ops o).

Lemma chat_serves r st :
  ∃ o, serves the_chat r st o ∧ inert st (oc_state o) ∧ crash_known o ∧
    mt_teamID (sv_metrics (oc_state o)) = mt_teamID (sv_metrics st).
Proof.
  pose proof (ChatCompletions_answers say ToLower accepts hd completions streams (chat_request r) (sv_metrics st)
    fresh_writer (sv_world st) eq_refl) as Ha.
  pose proof (ChatCompletions_field say ToLower accepts hd mt_teamID ltac:(done) ltac:(done) ltac:(done) ltac:(done) ltac:(done)
    completions streams (chat_request r) (sv_metrics st) fresh_writer (sv_world st)) as Ht.
  pose proof (ChatCompletions_field say ToLower accepts hd mt_start ltac:(done) ltac:(done) ltac:(done) ltac:(done) ltac:(done)
    completions streams (chat_request r) (sv_metrics st) fresh_writer (sv_world st)) as Hs.
  destruct (ChatCompletions _ _ _ _ _ _ _ _ _ _) as [[m wr] w] eqn:Hc. cbn [fst] in *. destruct Ha as [Ha _].
  eexists. split; [apply serves_ops; [exact Ha|]|].
  - intros S RW s. unfold chat. by rewrite Hc.
  - cbn. split_and!; [by split| |done]. unfold crash_known. cbn.
    destruct (hw_panicked w) eqn:Hp; [right|by left]. split; [done|]. by repeat eexists.
Qed.

Lemma RateLimit_serves r st :
  ∃ o, serves the_limit r st o ∧ inert st (oc_state o) ∧ crash_known o ∧
    mt_teamID (sv_metrics (oc_state o)) = mt_teamID (sv_metrics st).
Proof.
  destruct (Admission.RateLimit (redis_us (sv_world st)) (sur_rate_net (hw_now (sv_world st))) (rr_team r)
    (hw_rate (sv_world st))) as [[[]|status typ h] d] eqn:Hr.
  - destruct (chat_serves r (set_world (set_rate d (sv_world st)) (sv_metrics st) st)) as (o & Ho & Hi & Hk & Ht).
    exists o. split_and!; [|destruct Hi; by split|done|done].
    intros S RW L s Hok Hs Hb. unfold RateLimit_. rewrite Hr. by apply Ho.
  - eexists. split; [eapply (serves_respond _ _ _ _ (write_rejection say accepts status typ h))|].
    + rewrite phase_write_rejection; [done|by eapply RateLimit_status|done].
    + intros S RW s. unfold RateLimit_. by rewrite Hr.
    + split_and!; [done|by left|done].
Qed.

Lemma Auth_serves r st :
  rr_metrics r = true →
  ∃ o, serves the_auth r st o ∧
    inert st (oc_state o) ∧ crash_known o ∧
    mt_teamID (sv_metrics (oc_state o)) = default (mt_teamID (sv_metrics st)) (t_ID <$> caller (rr_in r)).
Proof.
  intros Hm. unfold caller.
  assert (∀ f, phase_of (f fresh_writer) ≠ Broken →
    (∀ S (RW : ResponseWriter S) (s : S), the_auth S RW r s st = respond f s st) →
    ∃ o, serves the_auth r st o ∧
    inert st (oc_state o) ∧ crash_known o ∧ mt_teamID (sv_metrics (oc_state o)) = mt_teamID (sv_metrics st)) as Hrefuse.
  { intros f Hf Hn. eexists. split; [by apply (serves_respond _ _ _ st f)|]. split_and!; [done|by left|done]. }
  destruct (bearerToken (ib_authorization (rr_in r))) as [key|] eqn:Hb.
  2:{ eapply Hrefuse; [|intros S RW s; unfold Auth_; by rewrite Hb]. by rewrite phase_writeError. }
  destruct (authenticate key) as [t|e] eqn:Ha.
  2:{ destruct e; (eapply Hrefuse; [|intros S RW s; unfold Auth_; by rewrite Hb, Ha]); by rewrite phase_writeError. }
  destruct (RateLimit_serves (with_team t r) (set_world (sv_world st) (m_with_team (t_ID t) (sv_metrics st)) st))
    as (o & Ho & Hi & Hk & Ht).
  exists o. split_and!; [|destruct Hi; by split|done|done].
  intros S RW L s Hok Hs Hbd. unfold Auth_. rewrite Hb, Ha, Hm. by apply Ho.
Qed.

(** The API routes record the exchange; the others do not touch the state. *)
Definition api (r : request) (o : outcome) : outcome := counted r (stored r o).
Definition routed (e : endpoint) (r : request) (o : outcome) : outcome :=
  match e with EChat => api r o | _ => o end.

(** What routing adds to an outcome. *)
Lemma routed_same e r o :
  let o' := routed e r o in
  oc_end o' = oc_end o ∧ oc_ops o' = oc_ops o ∧ sv_world (oc_state o') = sv_world (oc_state o) ∧
  sv_metrics (oc_state o') = sv_metrics (oc_state o) ∧ sv_log (oc_state o') = sv_log (oc_state o) ∧
  sv_panics (oc_state o') = sv_panics (oc_state o).
Proof. destruct e; cbn; try done. unfold stored, counted. repeat case_match; cbn; done. Qed.

Definition routed_series (e : endpoint) (o : outcome) : list prom :=
  match e with
  | EChat => if promMetrics && negb (oc_panicked o)
             then request_series (status_of o) (sv_now (oc_state o)) (sv_metrics (oc_state o)) else []
  | _ => []
  end.
Definition routed_rows (e : endpoint) (r : request) (o : outcome) : list Record_ :=
  match e with
  | EChat => if reqLog && negb (oc_panicked o) && bool_decide (mt_teamID (sv_metrics (oc_state o)) ≠ ""%string)
             then [request_row r (status_of o) (sv_now (oc_state o)) (sv_metrics (oc_state o))] else []
  | _ => []
  end.

Lemma routed_records e r o :
  rr_metrics r = true →
  sv_prom (oc_state (routed e r o)) = sv_prom (oc_state o) ++ routed_series e o ∧
  sv_rows (oc_state (routed e r o)) = sv_rows (oc_state o) ++ routed_rows e r o.
Proof.
  intros Hm. destruct e; cbn; rewrite ?app_nil_r; try done.
  unfold counted, stored, routed_series, routed_rows, oc_panicked. rewrite Hm. cbn. rewrite !bool_decide_not.
  destruct promMetrics, reqLog, (oc_end o), (bool_decide _); cbn; by rewrite ?app_nil_r.
Qed.

Lemma dispatch_serves r st :
  rr_metrics r = true →
  let e := chi_match (ib_method (rr_in r)) (ib_path (rr_in r)) in
  ∃ o, inert st (oc_state o) ∧ crash_known o ∧
    serves the_dispatch r st (routed e r o) ∧
    (e = EChat → mt_teamID (sv_metrics (oc_state o)) = default (mt_teamID (sv_metrics st)) (t_ID <$> caller (rr_in r))).
Proof.
  intros Hm e.
  assert (∀ f, phase_of (f fresh_writer) ≠ Broken →
    (∀ S (RW : ResponseWriter S) (s : S), the_dispatch S RW r s st = respond f s st) →
    ∃ o, inert st (oc_state o) ∧ crash_known o ∧ serves the_dispatch r st o) as Hplain.
  { intros f Hf Hn. eexists. split_and!; [| |by apply (serves_respond _ _ _ st f)]; [done|by left]. }
  subst e. destruct (chi_match _ _) eqn:He.
  { destruct (Auth_serves r st Hm) as (o & Ho & Hi & Hk & Ht). exists o. split_and!; [done|done| |done].
    apply RequestLog_serves, Metrics_serves in Ho. intros S RW L s Hok Hs Hb. unfold dispatch, dispatched. rewrite He. by apply Ho. }
  all: enough (∃ o, inert st (oc_state o) ∧ crash_known o ∧ serves the_dispatch r st o) as (o & H1 & H2 & H3) by (by exists o).
  all: eapply Hplain; [|intros S RW s; unfold dispatch, dispatched; by rewrite He].
  all: try (rewrite phase_writeError; done).
  - unfold json_line. rewrite phase_write; [done|by rewrite !phase_emit].
  - destruct ready; unfold json_line; rewrite phase_write; by rewrite ?phase_emit.
Qed.

(** ** Down to the connection *)

Definition arrived (ib : inbound) : request := {| rr_in := ib; rr_id := ""; rr_team := None; rr_metrics := false |}.
Definition request_id (ib : inbound) : string := RequestID (ib_requestID ib) (ib_random16 ib).
Definition identified (ib : inbound) : request := with_metrics (with_id (request_id ib) (arrived ib)).
Definition timed (st : server) : server := set_world (sv_world st) (new_metrics (sv_now st)) st.

(** The state a recovered panic leaves. *)
Definition recovered (ib : inbound) (o : outcome) : server :=
  let route := panicRoute (chi_match (ib_method ib) (ib_path ib)) in
  let st := add_panic {| pl_request_id := ""; pl_route := route; pl_path := ib_path ib;
                         pl_response_started := match op_status (oc_ops o) with Some _ => true | None => false end |}
              (oc_state o) in
  if promMetrics then add_prom [PanicsTotal route] st else st.

Definition panic_body : string := delivered (wr_ops (writeError late 500 "internal_error" unexpected fresh_writer)).

Lemma applyHeaders_overhead now m h : applyHeaders now m h !! HeaderOverhead = Some (HMillis (overhead now m)).
Proof. unfold applyHeaders. apply lookup_insert_eq. Qed.

Lemma overhead_nonneg now m : 0 ≤ overhead now m.
Proof. unfold overhead. destruct (Z.ltb_spec (now - mt_start m - mt_providerTime m - mt_embedTime m) 0); lia. Qed.

Lemma finish_status c status : cn_status c = Some status → cn_status (finish_response c) = Some status.
Proof. unfold cn_status, finish_response, commit. cbn. by destruct (cn_sent c). Qed.

Lemma silent ops : op_status ops = None → delivered ops = ""%string.
Proof. by induction ops as [|[n v|st|b t|] ops IH]. Qed.

Lemma panic_response (st : server) (pw : panicWriter conn) :
  rw_ok pw → pw_wrote pw = false → cn_body (pw_inner pw) = ""%string →
  let c := pw_inner (respondToPanic late st pw) in
  (∃ h, cn_sent c = Some (500, h) ∧ h !! "Content-Type"%string = Some (HText "application/json")) ∧ cn_body c = panic_body.
Proof.
  intros Hok Hw Hb. unfold respondToPanic, panic_body. rewrite Hw. cbn [negb].
  set (ops := wr_ops _).
  assert (cn_sent (rw_conn pw) = None) as Hn by (destruct Hok as [_ Hp]; by apply Hp).
  destruct (perform_client (now_ambient st) ops pw Hok Hn) as (_ & H2 & H3).
  { change (phase_of (writeError late 500 "internal_error" unexpected fresh_writer) ≠ Broken).
    by rewrite phase_writeError. }
  change (rw_conn (perform (now_ambient st) ops pw)) with (pw_inner (perform (now_ambient st) ops pw)) in *.
  rewrite H2, H3. change (rw_conn pw) with (pw_inner pw). rewrite Hb.
  assert (op_status ops = Some 500) as -> by (subst ops; unfold writeError, encode, write; by destruct (late _)).
  split; [|done]. eexists. split; [reflexivity|]. cbn [rw_final panicWriter_lawful conn_lawful].
  subst ops. unfold writeError, encode, write. destruct (late _); cbn; apply header_eq.
Qed.

(** The type a handler set. *)
Definition typed_as (ops : list op) : option header_value := op_headers ops ∅ !! "Content-Type"%string.

Lemma op_headers_type ops (h h' : headers) :
  h !! "Content-Type"%string = h' !! "Content-Type"%string →
  op_headers ops h !! "Content-Type"%string = op_headers ops h' !! "Content-Type"%string.
Proof.
  unfold op_headers. revert h h'. induction ops as [|o ops IH]; intros h h' Heq; [done|]. cbn. apply IH.
  destruct o as [n v|st|b t|]; try done. unfold apply_header, set_text.
  destruct (decide (n = "Content-Type"%string)) as [->|Hne].
  - by rewrite !header_eq.
  - by rewrite !header_ne.
Qed.

(** The in-band error event a committed stream ends with. *)
Definition panic_sse : string := delivered (wr_ops (emit Flush (writeSSEError late panic_event fresh_writer).2)).

Definition is_stream (t : option header_value) : bool := bool_decide (t = Some (HText "text/event-stream")).

(** A response already on its way keeps its status and its body; a stream gets
    the event. *)
Lemma panic_keeps (st : server) (pw : panicWriter conn) x :
  rw_ok pw → cn_sent (pw_inner pw) = Some x →
  let c := pw_inner (respondToPanic late st pw) in
  cn_sent c = Some x ∧
  cn_body c = (cn_body (pw_inner pw) ++ if is_stream (content_type (pw_inner pw)) then panic_sse else "")%string.
Proof.
  intros Hok Hs. cbv zeta. unfold respondToPanic, is_stream.
  assert (pw_wrote pw = true) as ->.
  { destruct (pw_wrote pw) eqn:Hw; [done|]. destruct Hok as [_ Hp]. apply Hp in Hw. cbn in Hw. congruence. }
  cbn [negb]. change (content_type (pw_inner pw)) with (cn_headers (rw_conn pw) !! "Content-Type"%string).
  case_bool_decide; [|by rewrite string_app_nil_r]. set (ops := wr_ops _).
  destruct (perform_body (now_ambient st) ops pw Hok) as (_ & H2 & H3); [by exists x| |].
  - unfold ops. cbn. rewrite foldl_app. unfold writeSSEError, writeSSEJSON, write.
    by repeat (destruct (late _); cbn [fst snd negb]).
  - change (pw_inner (perform (now_ambient st) ops pw)) with (rw_conn (perform (now_ambient st) ops pw)).
    rewrite H2, H3. split; [exact Hs|reflexivity].
Qed.

(** What the client of a handler that wrote [ops] and then panicked gets. *)
Definition answered_panic (ops : list op) (c : conn) : Prop :=
  match op_status ops with
  | None => (∃ h, cn_sent c = Some (500, h) ∧ h !! "Content-Type"%string = Some (HText "application/json")) ∧
            cn_body c = panic_body
  | Some status => cn_status c = Some status ∧
      cn_body c = (delivered ops ++ if is_stream (typed_as ops) then panic_sse else "")%string
  end.

Lemma front_serves (X : handler) ib st o :
  serves X (identified ib) (timed st) o →
  let '(e, c, st') := exchange_with (Recoverer late chi_match promMetrics (RequestID_ (Timing X))) ib st in
  match oc_end o with
  | Aborted => e = Aborted ∧ st' = oc_state o ∧ cn_status c = op_status (oc_ops o) ∧ cn_body c = delivered (oc_ops o)
  | Panicked_ => e = Returned ∧ st' = recovered ib o ∧ answered_panic (oc_ops o) c
  | Returned =>
      e = Returned ∧ st' = oc_state o ∧ cn_body c = delivered (oc_ops o) ∧
      ∃ h d, cn_sent c = Some (status_of o, h) ∧ h !! HeaderOverhead = Some (HMillis d) ∧ 0 ≤ d
  end.
Proof.
  intros HX. unfold exchange_with, Recoverer, RequestID_, Timing.
  fold (arrived ib).
  change (with_metrics (with_id (RequestID (ib_requestID (rr_in (arrived ib))) (ib_random16 (rr_in (arrived ib)))) (arrived ib)))
    with (identified ib).
  fold (request_id ib) (timed st).
  set (hooked := {| hh_inner := _; hh_applied := false |}).
  destruct (HX (headerHook (panicWriter conn)) _ _ hooked) as (w & H1 & H2 & H3 & H4 & H5); [by cbn; split_and!|done|done|].
  cbn [rr_in arrived] in *. rewrite H1. clear H1 HX. destruct H2 as [Hpw Happ].
  change (rw_conn w) with (pw_inner (hh_inner w)) in *.
  rewrite (op_headers_type _ _ ∅) in H5 by (apply header_ne; done). fold (typed_as (oc_ops o)) in H5.
  destruct (oc_end o); cbn [negb returned].
  - split; [done|]. split; [done|].
    destruct (applyOnce_law (now_ambient (oc_state o)) w Hpw) as (_ & _ & Hc).
    change (rw_conn (hh_inner (applyOnce (now_ambient (oc_state o)) w)))
      with (pw_inner (hh_inner (applyOnce (now_ambient (oc_state o)) w))) in Hc. rewrite Hc. cbn.
    change (rw_conn (hh_inner w)) with (pw_inner (hh_inner w)). rewrite H3, H4. split; [done|]. unfold status_of.
    destruct (op_status (oc_ops o)) as [status|] eqn:Hst; cbn.
    + eexists _, _. split_and!; [done|apply applyHeaders_overhead|apply overhead_nonneg].
    + assert (hh_applied w = false) as ->.
      { destruct (hh_applied w); [|done]. destruct Happ as [x Hx]; [done|].
        change (cn_sent (pw_inner (hh_inner w)) = Some x) in Hx. by rewrite H3 in Hx. }
      eexists _, _. split_and!; [done|apply applyHeaders_overhead|apply overhead_nonneg].
  - split; [done|]. split.
    { unfold recovered. destruct Hpw as [_ Hp]. cbn in Hp. rewrite H3 in Hp.
      replace (pw_wrote (hh_inner w)) with (match op_status (oc_ops o) with Some _ => true | None => false end); [done|].
      destruct (op_status (oc_ops o)), (pw_wrote (hh_inner w)); cbn in Hp; naive_solver. }
    set (st' := if promMetrics then _ else _). unfold answered_panic.
    destruct (op_status (oc_ops o)) as [status|] eqn:Hst; cbn in H3.
    + destruct (panic_keeps st' _ _ Hpw H3) as [Hk1 Hk2]. unfold cn_status. cbn. by rewrite Hk1, Hk2, H4, H5.
    + destruct (panic_response st' (hh_inner w) Hpw) as [(h & H6 & H6') H7].
      * destruct Hpw as [_ Hp]. by apply Hp.
      * rewrite H4. by apply silent.
      * split; [|exact H7]. exists h. cbn. by rewrite H6.
  - split; [done|]. split; [done|]. unfold cn_status. rewrite H3, H4. by destruct (op_status (oc_ops o)).
Qed.
Abbreviation the_exchange :=
  (exchange say ToLower accepts late hd completions streams authenticate chi_match promMetrics reqLog ready).

(** What the layers above the routes make of an outcome. *)
Definition observed (ib : inbound) (st : server) (o : outcome) : outcome :=
  traced (identified ib) (logged (identified ib) (sv_now st) o).

(** Whatever is mounted: how its outcome shows on the connection and in the
    state. *)
Lemma mounted_serves rs ib st od :
  serves (dispatched chi_match rs) (identified ib) (timed st) od →
  let '(e, c, st') := exchange_with (mounted late chi_match promMetrics rs) ib st in
  let o := observed ib st od in
  match oc_end od with
  | Aborted => e = Aborted ∧ st' = oc_state od ∧ cn_status c = op_status (oc_ops od) ∧ cn_body c = delivered (oc_ops od)
  | Panicked_ => e = Returned ∧ st' = recovered ib od ∧ answered_panic (oc_ops od) c
  | Returned =>
      e = Returned ∧ st' = oc_state o ∧ cn_body c = delivered (oc_ops o) ∧
      ∃ h d, cn_sent c = Some (status_of o, h) ∧ h !! HeaderOverhead = Some (HMillis d) ∧ 0 ≤ d
  end.
Proof.
  intros Ho. apply Logger_serves, Tracing_serves, front_serves in Ho. unfold mounted.
  destruct (exchange_with _ _ _) as [[e c] st']. unfold observed, traced, logged, oc_panicked in *. cbn in Ho.
  destruct od as [[] a ops sto]; exact Ho.
Qed.

(** What a recorded exchange and a recovered one look like. *)
Definition recorded_as (ib : inbound) (st : server) (c : conn) (st' : server) : Prop :=
  let m := sv_metrics st' in
  let now := sv_now st' in
  ∃ status h d, cn_sent c = Some (status, h) ∧ h !! HeaderOverhead = Some (HMillis d) ∧ 0 ≤ d ∧
    sv_log st' = sv_log st ++ [request_line (identified ib) status (Z.of_nat (String.length (cn_body c)))
                                 (now - sv_now st) now m] ∧
    match chi_match (ib_method ib) (ib_path ib) with
    | EChat =>
        mt_teamID m = default ""%string (t_ID <$> caller ib) ∧
        sv_prom st' = sv_prom st ++ (if promMetrics then request_series status now m else []) ∧
        sv_rows st' = sv_rows st ++ (if reqLog && bool_decide (mt_teamID m ≠ ""%string)
                                     then [request_row (identified ib) status now m] else [])
    | _ => sv_prom st' = sv_prom st ∧ sv_rows st' = sv_rows st
    end.

(** The panic line, which has no request ID. *)
Definition panic_noted (ib : inbound) (ops : list op) : panic_line :=
  {| pl_request_id := ""; pl_route := panicRoute (chi_match (ib_method ib) (ib_path ib)); pl_path := ib_path ib;
     pl_response_started := match op_status ops with Some _ => true | None => false end |}.

Definition panic_series (ib : inbound) : list prom :=
  if promMetrics then [PanicsTotal (panicRoute (chi_match (ib_method ib) (ib_path ib)))] else [].

Definition recovered_as (ib : inbound) (st : server) (c : conn) (st' : server) : Prop :=
  ∃ ops, crashed_after ops ∧ answered_panic ops c ∧
    sv_panics st' = sv_panics st ++ [panic_noted ib ops] ∧
    sv_log st' = sv_log st ∧ sv_rows st' = sv_rows st ∧ sv_spans st' = sv_spans st ∧
    sv_prom st' = sv_prom st ++ panic_series ib.

Lemma recovered_records ib o :
  let st' := recovered ib o in
  sv_panics st' = sv_panics (oc_state o) ++ [panic_noted ib (oc_ops o)] ∧ sv_log st' = sv_log (oc_state o) ∧
  sv_rows st' = sv_rows (oc_state o) ∧ sv_spans st' = sv_spans (oc_state o) ∧
  sv_prom st' = sv_prom (oc_state o) ++ panic_series ib ∧ sv_world st' = sv_world (oc_state o) ∧
  sv_metrics st' = sv_metrics (oc_state o).
Proof. unfold recovered, panic_series. destruct promMetrics; cbn; by rewrite ?app_nil_r. Qed.

Lemma routed_spans e r o : sv_spans (oc_state (routed e r o)) = sv_spans (oc_state o).
Proof. destruct e; cbn; try done. unfold stored, counted. repeat case_match; cbn; done. Qed.

Lemma exchange_cases ib st :
  let '(c, st') := the_exchange ib st in
  (sv_panics st' = sv_panics st ∧ recorded_as ib st c st') ∨ recovered_as ib st c st'.
Proof.
  destruct (dispatch_serves (identified ib) (timed st) eq_refl) as (o & Hi & Hk & Hd & Ht). cbv zeta in Hd, Ht.
  cbn [identified with_metrics with_id arrived rr_in] in Hd, Ht. unfold exchange, NewRouter. unfold dispatch in Hd.
  apply mounted_serves in Hd. destruct (exchange_with _ ib st) as [[en c] st']. cbv zeta in Hd.
  unfold recorded_as, recovered_as.
  set (e := chi_match (ib_method ib) (ib_path ib)) in *. set (o' := routed e (identified ib) o) in *.
  destruct (routed_same e (identified ib) o) as (Hp & Hops & Hw & Hm & Hl & Hpn).
  destruct (routed_records e (identified ib) o eq_refl) as [Hprom Hrows].
  pose proof (routed_spans e (identified ib) o) as Hsp.
  fold o' in Hp, Hops, Hw, Hm, Hl, Hpn, Hprom, Hrows, Hsp. destruct Hi as [Hi1 Hi2 Hi3 Hi4 Hi5 Hi6].
  unfold routed_series, routed_rows, oc_panicked in Hprom, Hrows. rewrite <- Hp in Hprom, Hrows.
  destruct Hk as [Hk|[Hk Hcr]]; rewrite Hk in Hp; rewrite Hp in Hd, Hprom, Hrows; [left|right].
  - unfold observed, traced, logged, oc_panicked in Hd. cbn [in_state oc_ops oc_state oc_end] in Hd. rewrite Hp in Hd.
    cbn [in_state oc_ops oc_state oc_end returned negb] in Hd.
    destruct Hd as (_ & -> & Hb & h & d & Hs & Hh & Hd0). split; [cbn; by rewrite Hpn, Hi2|].
    exists (status_of o'), h, d. split_and!; [exact Hs|exact Hh|exact Hd0| |].
    + rewrite Hb. cbn [sv_log add_span add_log]. by rewrite Hl, Hi1.
    + unfold sv_now. cbn [sv_metrics sv_prom sv_rows sv_world add_span add_log].
      assert (status_of o' = status_of o) as -> by (unfold status_of; by rewrite Hops).
      rewrite Hprom, Hrows, Hi3, Hi4, Hm, Hw. clearbody e.
      destruct e; cbn [negb returned]; rewrite ?app_nil_r, ?andb_true_r; try done. by split_and!; [apply Ht| |].
  - destruct Hd as (_ & -> & Hc). exists (oc_ops o'). rewrite Hops in *.
    destruct (recovered_records ib o') as (-> & -> & -> & -> & -> & _). rewrite Hops, Hpn, Hl, Hrows, Hsp, Hprom, Hi1, Hi2, Hi3, Hi4, Hi5.
    split_and!; try done; destruct e; cbn [negb returned]; by rewrite ?andb_false_r, ?app_nil_r.
Qed.

(** C9: what the gateway writes down about a request is what the client got.
    For every request that does not panic, whatever the handler does, exactly
    one log line is written, and it carries the request's ID, the status and
    the number of body bytes the client received; on the API route exactly one
    set of series is counted, with that status; exactly one row is stored, with
    that status and the metrics' cost, if and only if the caller's key was
    recognised (and belongs to a team with an ID); and the response carries
    the overhead header. *)
Theorem exchange_recorded ib st :
  let '(c, st') := the_exchange ib st in
  sv_panics st' = sv_panics st → recorded_as ib st c st'.
Proof.
  pose proof (exchange_cases ib st) as H. destruct (the_exchange ib st) as [c st'].
  intros Hs. destruct H as [[_ H]|(ops & _ & _ & Hp & _)]; [done|]. rewrite Hs in Hp.
  apply (f_equal length) in Hp. rewrite length_app in Hp. cbn in Hp. lia.
Qed.

(** C10: a panic anywhere below the outermost layer stays one failed request.
    Whatever handlers are mounted and whatever the one that serves a request had
    written when it panicked: nothing yet, and the client gets a 500 with the
    gateway's own JSON error and nothing of the panic; a committed event stream,
    and the client keeps the status and every byte sent and gets one error event
    more; any other committed response, and the client keeps exactly the status
    and the bytes sent.  The call returns, and the panic is logged and counted
    under its route.  A panic with [http.ErrAbortHandler] is not a failure but a
    request to drop the connection: it is passed on, with nothing written, logged
    or counted.  For the gateway's own handlers that is what every request comes to
    that raises the panic count; the panic's line has no request ID, because the
    recovering layer reads the request it was given, and the request appears in no
    log line, no span, no request series and no row: those layers are unwound. *)
Theorem panic_contained :
  (∀ rs ib st o, serves (rs (chi_match (ib_method ib) (ib_path ib))) (identified ib) (timed st) o →
     let '(e, c, st') := exchange_with (mounted late chi_match promMetrics rs) ib st in
     (oc_end o = Aborted →
       e = Aborted ∧ st' = oc_state o ∧ cn_status c = op_status (oc_ops o) ∧ cn_body c = delivered (oc_ops o)) ∧
     (oc_end o = Panicked_ →
       e = Returned ∧ answered_panic (oc_ops o) c ∧
       sv_panics st' = sv_panics (oc_state o) ++ [panic_noted ib (oc_ops o)] ∧ sv_log st' = sv_log (oc_state o) ∧
       sv_rows st' = sv_rows (oc_state o) ∧ sv_spans st' = sv_spans (oc_state o) ∧
       sv_prom st' = sv_prom (oc_state o) ++ panic_series ib ∧ sv_world st' = sv_world (oc_state o))) ∧
  (∀ ib st, let '(c, st') := the_exchange ib st in sv_panics st' ≠ sv_panics st → recovered_as ib st c st').
Proof.
  split.
  - intros rs ib st o Hs.
    assert (serves (dispatched chi_match rs) (identified ib) (timed st) o) as Hd by exact Hs.
    apply mounted_serves in Hd. destruct (exchange_with _ ib st) as [[e c] st']. cbv zeta in Hd.
    split; intros He; rewrite He in Hd; [done|].
    destruct Hd as (-> & -> & Hc). by destruct (recovered_records ib o) as (-> & -> & -> & -> & -> & -> & _).
  - intros ib st. pose proof (exchange_cases ib st) as H. destruct (the_exchange ib st) as [c st'].
    by intros Hs; destruct H as [[Hsame _]|H].
Qed.
End facts.

(** ** Concrete runs *)

From S2P Require Import Books CacheStoreFacts HandlerRuns.
Open Scope Z_scope.

#[local] Existing Instance exact_lua.
#[local] Existing Instance go_redis.
#[local] Existing Instance demo_entries.
#[local] Existing Instance calm.

Definition demo_inbound (key : string) : inbound :=
  {| ib_method := "POST"; ib_path := "/v1/chat/completions"; ib_remoteAddr := "10.0.0.7:4711";
     ib_requestID := "order-66"; ib_authorization := "Bearer " ++ key; ib_contentType := "application/json";
     ib_cacheTTL := ""; ib_body := marshal (request_json plain (demo_chat false)); ib_limited := false;
     ib_random16 := "0123456789abcdef"; ib_draw := S754_zero false; ib_traceID := ""; ib_wroteAt := 101 * second |}.

Definition demo_authenticate (key : string) : result registry_error Team :=
  if bool_decide (key = "sk-acme"%string) then Ok both_team else Err ErrUnknownKey.

Definition demo_match (method path : string) : endpoint :=
  if negb (bool_decide (path = "/v1/chat/completions"%string)) then ENotFound
  else if bool_decide (method = "POST"%string) then EChat else EMethodNotAllowed.

(** A provider whose adapter panics. *)
Definition panicking (p : string) (r : Request) (n : nat) : answer Response := {| an_result := None; an_elapsed := 1 |}.

Definition demo_server : server (cache_world (db := RedisMap.db cval)) :=
  {| sv_world := demo_start; sv_metrics := new_metrics 0; sv_log := []; sv_panics := []; sv_prom := []; sv_rows := [];
     sv_spans := [] |}.

Definition demo_exchange (completions : string → Request → nat → answer Response) (key : string) :=
  exchange demo_text ToLower (λ _, None) (λ _, None) demo_handler completions (demo_streams false)
    demo_authenticate demo_match true true true (demo_inbound key) demo_server.

Definition served := demo_exchange demo_completions "sk-acme".
Definition crashed := demo_exchange panicking "sk-acme".
Definition refused := demo_exchange demo_completions "sk-mallory".

Lemma exchange_recorded_witness :
  recorded_as demo_authenticate demo_match true true (demo_inbound "sk-acme") demo_server served.1 served.2 ∧
  cn_status served.1 = Some 200 ∧
  map lr_StatusCode (sv_rows served.2) = [200] ∧ map lr_CostMicros (sv_rows served.2) = [6600] ∧
  map ll_request_id (sv_log served.2) = ["order-66"%string].
Proof.
  split; [|split_and!; vm_compute; reflexivity].
  pose proof (exchange_recorded demo_text ToLower (λ _, None) (λ _, None) demo_handler demo_completions (demo_streams false)
    demo_authenticate demo_match true true true (demo_inbound "sk-acme") demo_server) as H.
  change (exchange _ _ _ _ _ _ _ _ _ _ _ _ _ _) with served in H.
  assert (sv_panics served.2 = sv_panics demo_server) as Hp by (vm_compute; reflexivity).
  destruct served as [c st']. exact (H Hp).
Defined.

(** A handler that panics in the middle of a stream. *)
Definition half_stream : list op :=
  [SetHeader "Content-Type" "text/event-stream"; WriteHeader 200; Stream.Write "data: {}" "data: {}"; Flush].
Definition breaks_off (e : ending) (_ : endpoint) : handler (C := cache_world (db := RedisMap.db cval)) :=
  λ S RW r s st, (e, perform (now_ambient st) half_stream s, st).

Definition broken_off (e : ending) :=
  exchange_with (mounted (λ _, None) demo_match true (breaks_off e)) (demo_inbound "sk-acme") demo_server.

Lemma panic_contained_witness :
  (* the mounted handler breaks off a stream *)
  (answered_panic (λ _, None) half_stream (broken_off Panicked_).1.2 ∧
   cn_body (broken_off Panicked_).1.2 = ("data: {}" ++ panic_sse (λ _, None))%string ∧
   map pl_response_started (sv_panics (broken_off Panicked_).2) = [true]) ∧
  (* it asks for the connection to be dropped *)
  ((broken_off Aborted).1.1 = Aborted ∧ sv_panics (broken_off Aborted).2 = []) ∧
  (* an adapter of the gateway's own handler panics *)
  recovered_as demo_text ToLower (λ _, None) (λ _, None) demo_handler panicking (demo_streams false) demo_match true
    (demo_inbound "sk-acme") demo_server crashed.1 crashed.2 ∧
  cn_status crashed.1 = Some 500 ∧ sv_log crashed.2 = [] ∧ sv_prom crashed.2 = [PanicsTotal "/v1/chat/completions"].
Proof.
  destruct (panic_contained demo_text ToLower (λ _, None) (λ _, None) demo_handler panicking (demo_streams false)
    demo_authenticate demo_match true true true) as [HA HB].
  assert (∀ e, serves (breaks_off e EChat) (identified (demo_inbound "sk-acme")) (timed demo_server)
    {| oc_end := e; oc_ambient := now_ambient (timed demo_server); oc_ops := half_stream; oc_state := timed demo_server |}) as Hs.
  { intros e. apply serves_ops; [vm_compute; discriminate|reflexivity]. }
  split; [split; [|split; vm_compute; reflexivity]|split; [split; vm_compute; reflexivity|]];
    [|split; [|split_and!; vm_compute; reflexivity]].
  - specialize (HA (breaks_off Panicked_) (demo_inbound "sk-acme") demo_server _ (Hs Panicked_)).
    change (exchange_with _ _ _) with (broken_off Panicked_) in HA.
    destruct (broken_off Panicked_) as [[e c] st']. destruct HA as [_ HA]. by destruct (HA eq_refl) as (_ & HA1 & _).
  - specialize (HB (demo_inbound "sk-acme") demo_server).
    change (exchange _ _ _ _ _ _ _ _ _ _ _ _ _ _) with crashed in HB.
    assert (length (sv_panics crashed.2) = 1%nat) as Hp by (vm_compute; reflexivity).
    destruct crashed as [c st']. apply HB. intros Heq. cbn [snd] in Hp. by rewrite Heq in Hp.
Defined.

(** An unknown key is refused, logged and counted, and stores no row. *)
Example refused_run :
  cn_status refused.1 = Some 401 ∧ map ll_status (sv_log refused.2) = [401] ∧ sv_rows refused.2 = [] ∧
  g_calls (hw_gw (sv_world refused.2)) = [].
Proof. split_and!; vm_compute; reflexivity. Qed.
